(* ===== verification/_CoqProject ===== *)
-Q . S2P
Prelude.v
Text.v
MiAst.v
MiFramer.v
MiParser.v
MiParserSafety.v
MiRoundtrip.v
Json.v
Errors.v
Domain.v
Reducer.v
ReducerInv.v
ReducerProps.v
Backend.v
Normalize.v
Ring.v
LiveState.v
Journal.v
Replay.v
ReplayLive.v
Policy.v
Protocol.v
Contracts.v
ContractProps.v
Access.v
MemoryRange.v
Operations.v
Wait.v
Effects.v
Program.v
Actor.v
ActorFrame.v
ActorProofs.v
Commands.v
CommandProofs.v
CommandSafe.v
Tracking.v
Requests.v
Bootstrap.v
CommandFence.v
CommandReplies.v
RequestProofs.v
BootstrapProofs.v
Codec.v
ActorProps.v
ActorScenarios.v
Wire.v
Results.v
Config.v
Gateway.v
Sessions.v
Dispatch.v
DispatchProofs.v
World.v
Encoding.v
Context.v
MiView.v
Handle.v
HandleProps.v
Memory.v
MemoryProps.v
Observed.v
Observations.v
Environment.v
Providers.v
Values.v
Reconcile.v
Inspection.v
Reading.v
Snapshots.v
Execution.v
Targets.v
Kernel.v
Probe.v
Methods.v
ReadProps.v
ViewProps.v
ExecutionProps.v
TargetProps.v
