(* ===== verification/Prelude.v ===== *)
(** * GDB/AI: a verification development

    GDB/AI is a gateway that lets software agents drive GNU GDB.  This library
    models its core in Rocq, function by function, and proves the properties
    that make it correct.  Sources are named relative to [crates/].

    ** The program and its parts

    GDB speaks GDB/MI over a pipe.  The crate [gdb-ai-mi] frames the byte
    stream into lines and parses MI records.  In [gdb-ai-core] the backend
    builds commands and reads records; [normalize] turns records into domain
    events; the reducer folds events into the state of the session; the
    session actor journals every record and event before it applies them,
    publishes the state to watchers, and keeps bounded rings of output;
    [replay] rebuilds the state from a journal.  The gateway admits canonical
    requests from callers, checks policy, rate, control and memory policy, and
    runs each request as a registered operation that outlives its waiter.

    ** Files

    - [Prelude], [Text], [Json]: bytes, machine integers, [Result],
      computations that may panic or run out of fuel, ordered iteration of
      maps, UTF-8, number parsing and printing, characters, JSON values.
    - [MiAst], [MiFramer], [MiParser] ([gdb-ai-mi/src/ast.rs], [error.rs],
      [encoder.rs], [framer.rs], [parser.rs]).  [MiParserSafety] proves the
      parser total and bounded, [MiRoundtrip] that it inverts a printer of MI
      syntax and the command encoder's quoting.
    - [Errors], [Domain] ([gdb-ai-core/src/error.rs], [domain.rs]); [Domain]:
      public handles are injective.
    - [Reducer] ([reducer.rs]), one function per event arm.  [ReducerInv] and
      [ReducerProps] hold its invariants, the bookkeeping of handles and the
      theorems on every reachable state.
    - [Backend] ([backend.rs]: commands, the MI reader), [Normalize]
      ([normalize.rs]), [Ring] ([ring.rs]), [LiveState] ([session/state.rs]),
      [Journal] ([journal.rs]), [Replay] ([replay.rs]); [ReplayLive]: replay
      against the live session.
    - [Policy] ([policy.rs] and the method table of [protocol.rs]),
      [Protocol] ([protocol.rs]), [Contracts] and [ContractProps]
      ([contracts.rs]), [Wire] (the derived JSON forms), [Results]
      ([protocol.rs]: facts and envelopes), [Config] ([config.rs]).
    - [Wait] ([session.rs]): what a waiter on a session is told.
    - The session actor ([session/actor.rs]).  [Effects]: a state, error,
      panic and fuel monad with its weakest preconditions.  [Actor]: the
      worker's state, events, evidence, checkpoints, backend inputs, closing.
      [Commands]: tokens, commands in flight, control requests, transactions,
      safe evaluation, module breakpoints.  [Tracking]: tracked values.
      [Requests]: every request, the loop and its end.  [Bootstrap]: MI
      version, handshake, probes, extension.
    - The actor's proofs.  [ActorFrame]: what the operations leave alone.
      [ActorProofs]: every operation keeps the journal the log of the session.
      [CommandProofs], [CommandSafe]: every command computation is safe.
      [CommandFence]: the wire refines the fence of unknown outcomes.
      [CommandReplies]: replies and deadlines.  [RequestProofs],
      [BootstrapProofs]: requests, loop and bootstrap.  [Codec]: numbers for
      states and events, the serializers of the examples.  [ActorProps]: the
      guarantees of a whole session.  [ActorScenarios]: concrete sessions.
    - The gateway ([gateway.rs], [gateway/operation.rs]).  [Access]: principals,
      effects, rate window, fences.  [MemoryRange]: which reads are ordinary.
      [Operations]: the registry of admitted requests.  [Program]: programs as
      trees of operations and the safety of their traces.  [Gateway]: the
      operations on what requests share.  [Sessions]: the session table and
      control ([operations/lifecycle.rs]).  [Dispatch]: a request from its
      admission to its response.  [DispatchProofs]: what holds when a handler
      runs.  [World]: any number of requests at once.
    - The handlers ([gateway/operations/]).  [Encoding] ([encoding.rs],
      [request.rs], [evaluation.rs]), [MiView] ([mi.rs]), [Context]
      ([context.rs]), [Environment] (what the handlers are given), [Handle]
      (the methods of [SessionHandle] in [session.rs] as programs over the
      channels to the actor).  [Memory] ([memory.rs]), [Observed] and
      [Observations] ([protocol.rs], [observation.rs]), [Providers]
      ([providers.rs]), [Values] ([values.rs]), [Reconcile]
      ([reconciliation.rs]), [Inspection], [Reading] and [Snapshots]
      ([inspection.rs]), [Execution] ([execution.rs]), [Targets]
      ([lifecycle.rs]: launch, restart, attach, remote and core targets; the
      temporary breakpoints of [agent.rs]), [Kernel] ([kernel.rs]), [Probe]
      ([agent.rs]: hypotheses and probes, with the time limit of a future as a
      transformer of programs), [Methods] ([io.rs], [raw.rs] and the table of
      methods in [mod.rs]).
    - The handlers' proofs.  [HandleProps]: the order of command sequences.
      [MemoryProps]: reads in pieces and guarded writes.  [Observations]:
      the budgets of a turn.  [Reconcile]: a listing brings the registry
      in line.  [ReadProps], [ViewProps]: which commands a read sends.
      [ExecutionProps]: the record of an execution.  [TargetProps]: what is
      launched, attached to and left behind, and the budget of a probe.
      [Kernel] ends with the theorem on kernel images.


    ** State and operations

    Structures are records with the fields of the source, enumerations are
    inductive types, [BTreeMap]s are finite maps iterated in key order.
    Fallible functions return [Result]; the parser, the reader and replay,
    which index slices and recurse, return [outcome], whose [Panic] and
    [OutOfFuel] cases the theorems exclude.  Functions that mutate [self] take
    and return it.  The clock, the file system, the operating system's answers
    and random identifiers are arguments.  Third-party codecs (base64, serde)
    are parameters of the sections that use them, with their round trip as a
    hypothesis where it is needed.  Concurrency is interleaving of critical
    sections ([Operations.system_step]) and reachability over events
    ([ReducerInv.step]).  The actor is a computation over [Worker]: what
    the outside answers (disk, store, signals, clock, identifiers) is a
    function of how many questions were asked, what arrives while a command is
    in flight is a script with times, and what its loop takes next is a list of
    turns; theorems quantify over all three.

    ** What the theorems show

    - MI: framing does not depend on how the stream is chunked; parsing always
      answers, never out of bounds, within its limits; printing and parsing
      round-trip; commands are single lines and quoting round-trips.
    - Session state: every reachable state is coherent; handles name one
      object and are never reused; a stale stop is never accepted again; the
      revision is a version stamp; failing closed is final.
    - Evidence: normalization drops nothing silently and keeps stops exact;
      the journal is a bounded gap-free prefix and durable appends are on
      disk; the ring refines its stream; published state refines the reducer;
      replaying a session's journal gives its live state.
    - Gateway: observations read ordinary memory; profiles do not escalate and
      mutations need control; operations are tracked to a final, truthful
      outcome and are invisible to others.
    - Actor: the worker always ends; a command ends by its deadline and its
      reply is its own; nothing but an interrupt is written while an outcome
      is unknown, and the session reports those outcomes; GDB acknowledged
      every setting before the first request; a durable session publishes only
      what is on disk; lost evidence fails closed; the session is coherent at
      every moment, and the evidence of a whole session replays to it.
    - Requests: a handler starts only for an admitted request, mutations of a
      session never overlap, and an idempotent request runs once, under every
      interleaving; parameters are accepted exactly when they satisfy the
      published schema.
    - Handlers: a read-only profile's request sends commands that only read; an
      execution is recorded before its command is sent and to its end; a
      command runs where its result is attributed; a memory read returns the
      readable prefix and a write replaces the bytes it expected; expressions
      accepted as free of side effects neither write nor call; turns of reads
      are bounded and survive their commit; listings are adopted; terminal
      prompts are found however the output is split.
    - Targets: a launch gives the program its arguments and environment
      unchanged; only an allowed process is attached to, and only while it is
      the one that was checked; temporary breakpoints do not outlive their
      turn; a probe stays within its budget of debugger calls; the image of a
      kernel spans its segments.
    - Where the code departs from its own caps or comments, a theorem exhibits
      it ([limitations_can_exceed_the_cap], [unmatched_resolution_is_silent],
      [replay_rejects_deeper_records], [evidence_can_exceed_the_cap],
      [close_in_flight_spoils_the_journal], [failed_signal_spoils_the_journal],
      [durable_failure_is_not_published], [late_guard_is_never_restored],
      [page_table_expressions_are_not_screened]).

    ** Bounds and fuel

    The recursive-descent parser and the framing loop run on fuel derived from
    the input length (every iteration consumes a byte); totality theorems show
    that it never runs out.  [u64] counters wrap or saturate as the source
    writes them; theorems that need it assume fewer than [2^64] events, bytes
    or records.  The loop of a command in flight has fuel for its script, and
    applying an event has fuel for the events it can cause (a gap report, a
    snapshot, a failure); [ActorProofs] shows both suffice.  Evidence
    collection recurses at most eight levels.  A view may capture a snapshot
    whose reads are views that capture none: two rounds are enough, and
    [ReadProps.Sends] excludes running out.  Reads in pieces have one round
    per piece.  A wait for the terminal has as many rounds as its caller
    gives; the theorems hold for every number.  The hits of a probe are counted
    down from their maximum.

    ** Not modelled

    The Python scripts that [kernel.rs] runs inside GDB are parameters: what
    they are given and what is made of their output is modelled.  Paging of
    stored events and artifacts ([evidence.rs]), SQLite persistence, artifact
    files, process spawning, PTYs, sandboxing, the tokio runtime, the output
    spool, the HTTP, MCP and command-line transports are third-party or
    operating-system behaviour or glue.  Files, processes and credentials of the
    host appear as operations whose answers are arbitrary.  Metrics and tracing
    decide nothing.
*)

From stdpp Require Export base gmap strings list sorting pretty.
From Stdlib Require Export Ascii.

#[export] Set Default Goal Selector "!".

Open Scope char_scope.
Open Scope stdpp_scope.

(** ** Bytes, strings and machine integers *)

(** A Rust [u8] is an [ascii] (eight bits), a [Vec<u8>] or [&[u8]] a list of
    them, and a Rust [String] (a UTF-8 byte sequence) a [string]. *)
Abbreviation u8 := ascii (only parsing).
Abbreviation bytes := (list ascii) (only parsing).

Definition bytes_of (s : string) : bytes := String.list_ascii_of_string s.
Definition string_of (b : bytes) : string := String.string_of_list_ascii b.

(** The double-quote and line-terminator bytes. *)
Definition DQUOTE : ascii := "034"%char.
Definition LF : ascii := "010"%char.
Definition CR : ascii := "013"%char.
Definition TAB : ascii := "009"%char.
Definition BACKSLASH : ascii := "\"%char.

Definition byte_N (c : ascii) : N := N_of_ascii c.

(** [u64] values are numbers below [2^64]; the additions the source writes
    with [+] wrap in a release build, [saturating_add] clamps. *)
Definition U64_MODULUS : N := 2 ^ 64.
Definition U64_MAX : N := 18446744073709551615.

Definition u64_wrapping_add (a b : N) : N := (a + b) `mod` U64_MODULUS.
Definition u64_saturating_add (a b : N) : N := N.min (a + b) U64_MAX.

(** The length of a slice, as the [u64]/[usize] number the source compares. *)
Definition lenN {A} (l : list A) : N := N.of_nat (length l).

(** ** Fallible computations *)

(** Rust's [Result<A, E>]. *)
Inductive Result (E A : Type) : Type :=
| Ok (a : A)
| Err (e : E).
Arguments Ok {E A} a.
Arguments Err {E A} e.

#[export] Instance Result_ret {E} : MRet (Result E) := fun A a => Ok a.
#[export] Instance Result_bind {E} : MBind (Result E) :=
  fun A B f r => match r with Ok a => f a | Err e => Err e end.
#[export] Instance Result_fmap {E} : FMap (Result E) :=
  fun A B f r => match r with Ok a => Ok (f a) | Err e => Err e end.

Definition is_ok {E A} (r : Result E A) : bool :=
  match r with Ok _ => true | Err _ => false end.

(** [Option::ok_or]. *)
Definition ok_or {E A} (o : option A) (e : E) : Result E A :=
  match o with Some a => Ok a | None => Err e end.

Lemma bind_Ok {E A B} (r : Result E A) (f : A -> Result E B) (b : B) :
  r ≫= f = Ok b <-> exists a, r = Ok a /\ f a = Ok b.
Proof.
  destruct r as [a|e]; cbn; naive_solver.
Qed.

Lemma bind_Err {E A B} (r : Result E A) (f : A -> Result E B) (e : E) :
  r ≫= f = Err e <-> r = Err e \/ exists a, r = Ok a /\ f a = Err e.
Proof.
  destruct r as [a|e']; cbn; naive_solver.
Qed.

(** A computation of a fuelled model: it returns, reports an error of the
    program, reaches a panic of the program ([unreachable!], an out-of-range
    slice, an arithmetic underflow), or runs out of fuel.  The components
    prove that the last two never happen. *)
Inductive outcome (E A : Type) : Type :=
| Done (a : A)
| Fail (e : E)
| Panic
| OutOfFuel.
Arguments Done {E A} a.
Arguments Fail {E A} e.
Arguments Panic {E A}.
Arguments OutOfFuel {E A}.

#[export] Instance outcome_ret {E} : MRet (outcome E) := fun A a => Done a.
#[export] Instance outcome_bind {E} : MBind (outcome E) :=
  fun A B f r => match r with
  | Done a => f a | Fail e => Fail e | Panic => Panic | OutOfFuel => OutOfFuel
  end.

(** A computation that returns or reports an error of the program. *)
Definition settles {E A} (r : outcome E A) : Prop :=
  match r with Done _ | Fail _ => True | Panic | OutOfFuel => False end.

Lemma bind_Done {E A B} (r : outcome E A) (f : A -> outcome E B) (b : B) :
  r ≫= f = Done b <-> exists a, r = Done a /\ f a = Done b.
Proof. destruct r; cbn; naive_solver. Qed.

Lemma bind_settles {E A B} (r : outcome E A) (f : A -> outcome E B) :
  settles r -> (forall a, r = Done a -> settles (f a)) -> settles (r ≫= f).
Proof. destruct r; cbn; naive_solver. Qed.

(** ** Tactics *)

(** Splits every boolean test and option match of the goal and hypotheses,
    leaving the reflected facts, and closes the branches that contradict. *)
Ltac reflect_step :=
  match goal with
  | H : context [ bool_decide ?P ] |- _ => destruct (bool_decide_reflect P)
  | |- context [ bool_decide ?P ] => destruct (bool_decide_reflect P)
  | H : context [ (?a <=? ?b)%N ] |- _ => destruct (N.leb_spec a b)
  | |- context [ (?a <=? ?b)%N ] => destruct (N.leb_spec a b)
  | H : context [ (?a <? ?b)%N ] |- _ => destruct (N.ltb_spec a b)
  | |- context [ (?a <? ?b)%N ] => destruct (N.ltb_spec a b)
  | H : context [ (?a =? ?b)%N ] |- _ => destruct (N.eqb_spec a b)
  | |- context [ (?a =? ?b)%N ] => destruct (N.eqb_spec a b)
  | H : context [ (?a =? ?b)%char ] |- _ => destruct (Ascii.eqb_spec a b)
  | |- context [ (?a =? ?b)%char ] => destruct (Ascii.eqb_spec a b)
  end.
Ltac reflect_all := repeat (reflect_step; simplify_eq/=).

(** Unpacks the monadic binds of a hypothesis that a [Result] computation
    succeeded. *)
Ltac ok_inv :=
  repeat match goal with
  | H : _ ≫= _ = Ok _ |- _ =>
      let a := fresh "v" in let H1 := fresh "Hok" in
      apply bind_Ok in H as (a & H1 & H)
  | H : (let '(_, _) := ?p in _) = Ok _ |- _ => destruct p
  end; simplify_eq/=.

Create HintDb gdbai discriminated.

(** ** Lists *)

Lemma lenN_app {A} (k l : list A) : lenN (k ++ l) = (lenN k + lenN l)%N.
Proof. unfold lenN. rewrite length_app. lia. Qed.

Lemma lenN_cons {A} (x : A) l : lenN (x :: l) = (1 + lenN l)%N.
Proof. unfold lenN. cbn. lia. Qed.

Lemma lenN_nil {A} : lenN (@nil A) = 0%N.
Proof. done. Qed.

Lemma drop_lookup {A} (l r : list A) i x :
  drop i l = x :: r -> l !! i = Some x /\ drop (S i) l = r.
Proof.
  intros H. assert (l !! i = Some x) as Hx.
  { rewrite <-(Nat.add_0_r i), <-lookup_drop, H. done. }
  split; [done|]. erewrite drop_S in H by done. by simplify_eq.
Qed.

Lemma drop_nil_lookup {A} (l : list A) i : drop i l = [] -> l !! i = None.
Proof.
  intros H. rewrite <-(Nat.add_0_r i), <-lookup_drop, H. done.
Qed.

Lemma drop_app_at {A} (l k r : list A) i :
  drop i l = k ++ r -> drop (i + length k) l = r.
Proof. intros H. by rewrite <-drop_drop, H, drop_app_length. Qed.

(** The position of the first element that satisfies a test, as
    [Iterator::position]. *)
Fixpoint position {A} (p : A -> bool) (l : list A) : option nat :=
  match l with
  | [] => None
  | x :: r => if p x then Some 0 else S <$> position p r
  end.

Lemma position_Some {A} (p : A -> bool) l n :
  position p l = Some n <->
  exists k x r, l = k ++ x :: r /\ length k = n /\ p x = true /\
                Forall (fun y => p y = false) k.
Proof.
  revert n. induction l as [|y l IH]; intros n; cbn.
  { split; [done|]. by intros ([|??] & ? & ? & ? & _). }
  destruct (p y) eqn:E.
  - split.
    + intros [= <-]. by exists [], y, l.
    + intros ([|z k] & x & r & [= -> ->] & <- & Hx & Hk); [done|].
      inversion Hk; congruence.
  - rewrite fmap_Some. split.
    + intros (m & (k & x & r & -> & <- & Hx & Hk)%IH & ->).
      exists (y :: k), x, r. split_and!; auto.
    + intros ([|z k] & x & r & [= -> ->] & <- & Hx & Hk); [congruence|].
      inversion Hk. exists (length k). split; [|done].
      apply IH. eauto 8.
Qed.

Lemma position_None {A} (p : A -> bool) l :
  position p l = None <-> Forall (fun y => p y = false) l.
Proof.
  induction l as [|y l IH]; cbn; [by split|].
  destruct (p y) eqn:E; [split; [done|inversion 1; congruence]|].
  rewrite fmap_None, IH, Forall_cons. naive_solver.
Qed.

Lemma position_app_l {A} (p : A -> bool) k r :
  Forall (fun y => p y = false) k ->
  position p (k ++ r) = (fun n => length k + n) <$> position p r.
Proof.
  induction 1 as [|y k Hy _ IH]; cbn.
  - by destruct (position p r).
  - rewrite Hy, IH. by destruct (position p r).
Qed.

(** ** Ordered maps *)

(** A Rust [BTreeMap<String, V>] is a finite map; its iteration order is the
    byte order of the keys. *)
Definition entry_le {V} (x y : string * V) : Prop := String.le x.1 y.1.

#[export] Instance entry_le_dec {V} : RelDecision (@entry_le V).
Proof. intros x y. unfold entry_le. apply _. Defined.
#[export] Instance entry_le_total {V} : Total (@entry_le V).
Proof. intros x y. apply (total String.le). Qed.
#[export] Instance entry_le_trans {V} : Transitive (@entry_le V).
Proof. intros x y z. apply (transitivity (R := String.le)). Qed.

Definition btree_iter {V} (m : gmap string V) : list (string * V) :=
  merge_sort entry_le (map_to_list m).

Definition btree_keys {V} (m : gmap string V) : list string := (btree_iter m).*1.
Definition btree_values {V} (m : gmap string V) : list V := (btree_iter m).*2.

Lemma btree_iter_perm {V} (m : gmap string V) : btree_iter m ≡ₚ map_to_list m.
Proof. apply merge_sort_Permutation. Qed.

Lemma elem_of_btree_iter {V} (m : gmap string V) k v :
  (k, v) ∈ btree_iter m <-> m !! k = Some v.
Proof. rewrite btree_iter_perm. apply elem_of_map_to_list. Qed.

Lemma elem_of_btree_keys {V} (m : gmap string V) k :
  k ∈ btree_keys m <-> is_Some (m !! k).
Proof.
  unfold btree_keys. rewrite list_elem_of_fmap. split.
  - intros ([k' v] & -> & H%elem_of_btree_iter). by eexists.
  - intros [v H]. exists (k, v). by rewrite elem_of_btree_iter.
Qed.

Lemma elem_of_btree_values {V} (m : gmap string V) v :
  v ∈ btree_values m <-> exists k, m !! k = Some v.
Proof.
  unfold btree_values. rewrite list_elem_of_fmap. split.
  - intros ([k v'] & -> & H%elem_of_btree_iter). by eexists.
  - intros [k H]. exists (k, v). by rewrite elem_of_btree_iter.
Qed.

Lemma btree_keys_NoDup {V} (m : gmap string V) : NoDup (btree_keys m).
Proof.
  unfold btree_keys. rewrite btree_iter_perm. apply NoDup_fst_map_to_list.
Qed.

(** [BTreeMap::keys().next()]: the least key. *)
Definition btree_first_key {V} (m : gmap string V) : option string :=
  head (btree_keys m).

Lemma btree_first_key_Some {V} (m : gmap string V) k :
  btree_first_key m = Some k -> is_Some (m !! k).
Proof.
  unfold btree_first_key. intros H%head_Some_elem_of.
  by apply elem_of_btree_keys.
Qed.

#[export] Hint Rewrite @lenN_app @lenN_cons @lenN_nil : gdbai.
