(* ===== verification/Text.v ===== *)
(** * Text: the standard-library text routines the program calls

    Byte classes ([u8::is_ascii_digit] and the like), UTF-8 validation and
    decoding ([str::from_utf8], [str::chars]), decimal and radix printing and
    parsing of unsigned integers ([u64::from_str_radix], [str::parse],
    [{:016x}]), and the few [str] searches the sources use.  Everything is
    executable; the lemmas are the ones the component files share. *)
From S2P Require Import Prelude.

(** ** Byte classes *)

Definition in_range (lo hi : N) (c : ascii) : bool :=
  ((lo <=? byte_N c) && (byte_N c <=? hi))%N.

Definition is_ascii_digit (c : ascii) : bool := in_range 48 57 c.
Definition is_ascii_upper (c : ascii) : bool := in_range 65 90 c.
Definition is_ascii_lower (c : ascii) : bool := in_range 97 122 c.
Definition is_ascii_alphanumeric (c : ascii) : bool :=
  is_ascii_digit c || is_ascii_upper c || is_ascii_lower c.
Definition is_ascii_hexdigit (c : ascii) : bool :=
  is_ascii_digit c || in_range 97 102 c || in_range 65 70 c.
Definition is_ascii_graphic (c : ascii) : bool := in_range 33 126 c.

(** [u8::is_ascii_whitespace]: space, tab, line feed, form feed, return. *)
Definition is_ascii_whitespace (c : ascii) : bool :=
  (c =? " ")%char || (c =? TAB)%char || (c =? LF)%char ||
  (c =? "012")%char || (c =? CR)%char.

(** A boolean statement about one byte is decided by running it over the 256
    values. *)
Definition all_ascii : bytes := ascii_of_nat <$> seq 0 256.

Lemma byte_check (p : ascii -> bool) :
  forallb p all_ascii = true -> forall c, p c = true.
Proof.
  intros H c. rewrite forallb_forall in H. apply H.
  apply list_elem_of_In, list_elem_of_fmap. exists (nat_of_ascii c).
  rewrite ascii_nat_embedding. split; [done|].
  apply elem_of_seq. pose proof (nat_ascii_bounded c). lia.
Qed.

Lemma byte_implies (p q : ascii -> bool) :
  forallb (fun c => implb (p c) (q c)) all_ascii = true ->
  forall c, p c = true -> q c = true.
Proof.
  intros H c Hp. pose proof (byte_check _ H c) as Hc. cbv beta in Hc.
  rewrite Hp in Hc. exact Hc.
Qed.

Lemma ascii_N_lt (c : ascii) : (byte_N c < 256)%N.
Proof. apply N_ascii_bounded. Qed.

Lemma ascii_of_byte_N (c : ascii) : ascii_of_N (byte_N c) = c.
Proof. apply ascii_N_embedding. Qed.

Lemma byte_N_ascii_of (n : N) : (n < 256)%N -> byte_N (ascii_of_N n) = n.
Proof. apply N_ascii_embedding. Qed.

Lemma bytes_of_string_of (b : bytes) : bytes_of (string_of b) = b.
Proof. apply String.list_ascii_of_string_of_list_ascii. Qed.

Lemma string_of_bytes_of (s : string) : string_of (bytes_of s) = s.
Proof. apply String.string_of_list_ascii_of_string. Qed.

Lemma bytes_of_app (s t : string) : bytes_of (s +:+ t) = bytes_of s ++ bytes_of t.
Proof. induction s as [|c s IH]; [done|]. exact (f_equal (cons c) IH). Qed.

#[export] Instance bytes_of_inj : Inj (=) (=) bytes_of.
Proof. intros s t H. by rewrite <-(string_of_bytes_of s), H, string_of_bytes_of. Qed.

#[export] Instance string_of_inj : Inj (=) (=) string_of.
Proof. intros s t H. by rewrite <-(bytes_of_string_of s), H, bytes_of_string_of. Qed.

(** [String::strip_prefix] and [starts_with], on bytes. *)
Fixpoint strip_prefix (p b : bytes) : option bytes :=
  match p, b with
  | [], _ => Some b
  | x :: p', y :: b' => if (x =? y)%char then strip_prefix p' b' else None
  | _ :: _, [] => None
  end.

Definition starts_with (p b : bytes) : bool :=
  match strip_prefix p b with Some _ => true | None => false end.

Lemma strip_prefix_Some p b r : strip_prefix p b = Some r <-> b = p ++ r.
Proof.
  revert b. induction p as [|x p IH]; intros [|y b]; cbn; [naive_solver..|].
  destruct (Ascii.eqb_spec x y) as [->|Hne]; [rewrite IH; naive_solver|].
  split; [done|]. by intros [= -> ->].
Qed.

(** ** UTF-8 *)

Definition cont (c : ascii) : bool := in_range 128 191 c.
Definition low6 (c : ascii) : N := N.land (byte_N c) 63.

(** The code points of a byte sequence, [None] where [str::from_utf8] reports
    an error: overlong forms, surrogates and values above U+10FFFF are
    rejected by the ranges of the second byte. *)
Fixpoint utf8_decode (b : bytes) : option (list N) :=
  match b with
  | [] => Some []
  | b0 :: r0 =>
      let n0 := byte_N b0 in
      if (n0 <? 128)%N then cons n0 <$> utf8_decode r0
      else match r0 with
      | [] => None
      | b1 :: r1 =>
          if in_range 194 223 b0 then
            if cont b1 then
              cons ((n0 - 192) * 64 + low6 b1)%N <$> utf8_decode r1
            else None
          else match r1 with
          | [] => None
          | b2 :: r2 =>
              if in_range 224 239 b0 then
                if in_range (if (n0 =? 224)%N then 160 else 128)
                            (if (n0 =? 237)%N then 159 else 191) b1 && cont b2
                then cons ((n0 - 224) * 4096 + low6 b1 * 64 + low6 b2)%N
                       <$> utf8_decode r2
                else None
              else match r2 with
              | [] => None
              | b3 :: r3 =>
                  if in_range 240 244 b0 &&
                     in_range (if (n0 =? 240)%N then 144 else 128)
                              (if (n0 =? 244)%N then 143 else 191) b1 &&
                     cont b2 && cont b3
                  then cons ((n0 - 240) * 262144 + low6 b1 * 4096 +
                             low6 b2 * 64 + low6 b3)%N <$> utf8_decode r3
                  else None
              end
          end
      end
  end.

(** [char::is_whitespace]: the Unicode property White_Space. *)
Definition is_whitespace (c : N) : bool :=
  (((9 <=? c) && (c <=? 13)) || (c =? 32) || (c =? 133) || (c =? 160) || (c =? 5760) ||
   ((8192 <=? c) && (c <=? 8202)) || (c =? 8232) || (c =? 8233) || (c =? 8239) ||
   (c =? 8287) || (c =? 12288))%N.

Definition utf8_valid (b : bytes) : bool :=
  match utf8_decode b with Some _ => true | None => false end.

(** [str::from_utf8(..).ok()]. *)
Definition from_utf8 (b : bytes) : option string :=
  if utf8_valid b then Some (string_of b) else None.

Definition is_ascii (c : ascii) : bool := (byte_N c <? 128)%N.

Lemma utf8_decode_ascii b :
  Forall (fun c => is_ascii c = true) b -> utf8_decode b = Some (byte_N <$> b).
Proof.
  induction 1 as [|c b Hc _ IH]; [done|].
  cbn -[byte_N]. unfold is_ascii in Hc. by rewrite Hc, IH.
Qed.

Lemma from_utf8_ascii b :
  Forall (fun c => is_ascii c = true) b -> from_utf8 b = Some (string_of b).
Proof. intros H. unfold from_utf8, utf8_valid. by rewrite utf8_decode_ascii. Qed.

Lemma from_utf8_Some b s : from_utf8 b = Some s -> s = string_of b.
Proof. unfold from_utf8. destruct (utf8_valid b); naive_solver. Qed.

(** [str::chars] maps a character-wise function over a valid string.  On
    valid UTF-8 every character starts at its only non-continuation byte, so a
    map that keeps ASCII characters and sends every other one to a fixed byte
    visits exactly the non-continuation bytes. *)
Definition map_chars (f : ascii -> ascii) (b : bytes) : bytes :=
  f <$> filter (fun c => cont c = false) b.

(** ** Unsigned integers *)

Definition digit_value (radix : N) (c : ascii) : option N :=
  let n := byte_N c in
  let v := if is_ascii_digit c then Some (n - 48)%N
           else if is_ascii_lower c then Some (n - 97 + 10)%N
           else if is_ascii_upper c then Some (n - 65 + 10)%N
           else None in
  v ≫= fun d => if (d <? radix)%N then Some d else None.

(** The digit loop of [from_str_radix] with its checked arithmetic; [max] is
    the largest value of the type. *)
Fixpoint radix_digits (max radix acc : N) (b : bytes) : option N :=
  match b with
  | [] => Some acc
  | c :: r =>
      digit_value radix c ≫= fun d =>
      let acc' := (acc * radix + d)%N in
      if (acc' <=? max)%N then radix_digits max radix acc' r else None
  end.

(** [uN::from_str_radix(..).ok()]: one optional leading plus sign, at least
    one digit, every byte a digit of the radix, no overflow. *)
Definition from_str_radix (max radix : N) (b : bytes) : option N :=
  match b with
  | [] => None
  | c :: r =>
      if (c =? "+")%char then
        match r with [] => None | _ => radix_digits max radix 0 r end
      else radix_digits max radix 0 b
  end.

Definition U32_MAX : N := 4294967295.

Definition parse_u64 (b : bytes) : option N := from_str_radix U64_MAX 10 b.
Definition parse_u32 (b : bytes) : option N := from_str_radix U32_MAX 10 b.

(** Decimal printing, [{}] of an unsigned integer. *)
Definition dec (n : N) : string := pretty n.

Definition hex_char (d : N) : ascii :=
  ascii_of_N (if (d <? 10)%N then 48 + d else 97 + d - 10).

(** [{:0wx}] for a number below [16^w]: [w] lowercase digits. *)
Fixpoint hex_fixed (w : nat) (n : N) : bytes :=
  match w with
  | O => []
  | S w' => hex_fixed w' (n / 16) ++ [hex_char (n `mod` 16)]
  end.

(** *** Decimal printing is parsed back, is injective and is all digits *)

Lemma digit_value_pretty d : (d < 10)%N -> digit_value 10 (pretty_N_char d) = Some d.
Proof.
  intros H.
  assert (d = 0 \/ d = 1 \/ d = 2 \/ d = 3 \/ d = 4 \/ d = 5 \/ d = 6 \/
          d = 7 \/ d = 8 \/ d = 9)%N as Hd by lia.
  by destruct_or! Hd; subst.
Qed.

Lemma pretty_char_digit d : is_ascii_digit (pretty_N_char d) = true.
Proof. destruct d as [|[[[[]|[]|]|[[]|[]|]|]|[[[]|[]|]|[[]|[]|]|]|]]; done. Qed.

Lemma radix_digits_pretty_go max x s :
  (x <= max)%N ->
  radix_digits max 10 0 (bytes_of (pretty_N_go x s)) =
    radix_digits max 10 x (bytes_of s).
Proof.
  revert s.
  induction (N.lt_wf_0 x) as [x _ IH]; intros s Hx.
  destruct (decide (x = 0%N)) as [->|Hne]; [by rewrite pretty_N_go_0|].
  rewrite pretty_N_go_step by lia.
  assert (x `mod` 10 < 10)%N by (apply N.mod_lt; lia).
  assert (x / 10 < x)%N by (apply N.div_lt; lia).
  rewrite IH by lia. cbn -[digit_value].
  rewrite digit_value_pretty by done. cbn.
  replace (x / 10 * 10 + x `mod` 10)%N with x
    by (rewrite (N.div_mod x 10) at 1 by lia; lia).
  by destruct (N.leb_spec x max); [|lia].
Qed.

Lemma dec_cons n : exists c r, bytes_of (dec n) = c :: r /\ is_ascii_digit c = true.
Proof.
  unfold dec. cbn. unfold pretty, pretty_N.
  destruct (decide (n = 0%N)) as [->|Hne]; [by eexists _, _|].
  assert (forall x s, (exists c r, bytes_of s = c :: r /\ is_ascii_digit c = true) ->
          exists c r, bytes_of (pretty_N_go x s) = c :: r /\ is_ascii_digit c = true) as Hgo.
  { intros x. induction (N.lt_wf_0 x) as [x _ IH]; intros s Hs.
    destruct (decide (x = 0%N)) as [->|?]; [by rewrite pretty_N_go_0|].
    rewrite pretty_N_go_step by lia. apply IH; [apply N.div_lt; lia|].
    cbn. eexists _, _. split; [done|]. apply pretty_char_digit. }
  rewrite pretty_N_go_step by lia. apply Hgo.
  cbn. eexists _, _. split; [done|]. apply pretty_char_digit.
Qed.

Lemma dec_digits n : Forall (fun c => is_ascii_digit c = true) (bytes_of (dec n)).
Proof.
  unfold dec, pretty, pretty_N.
  destruct (decide (n = 0%N)) as [->|Hne]; [by repeat constructor|].
  assert (forall x s, Forall (fun c => is_ascii_digit c = true) (bytes_of s) ->
    Forall (fun c => is_ascii_digit c = true) (bytes_of (pretty_N_go x s))) as Hgo.
  { intros x. induction (N.lt_wf_0 x) as [x _ IH]; intros s Hs.
    destruct (decide (x = 0%N)) as [->|?]; [by rewrite pretty_N_go_0|].
    rewrite pretty_N_go_step by lia. apply IH; [apply N.div_lt; lia|].
    cbn. constructor; [apply pretty_char_digit|done]. }
  by apply Hgo.
Qed.

Lemma parse_dec max n :
  (n <= max)%N -> from_str_radix max 10 (bytes_of (dec n)) = Some n.
Proof.
  intros Hn. unfold from_str_radix.
  destruct (dec_cons n) as (c & r & E & Hc). rewrite E.
  destruct (Ascii.eqb_spec c "+") as [->|_]; [done|]. rewrite <-E.
  unfold dec, pretty, pretty_N.
  destruct (decide (n = 0%N)) as [->|Hne]; [by destruct max|].
  by rewrite radix_digits_pretty_go.
Qed.

#[export] Instance dec_inj : Inj (=) (=) dec.
Proof. intros m n H. by apply (inj pretty) in H. Qed.

(** ** Text as characters

    The functions of [str] the program applies to text whose characters
    matter (Unicode white space, lines, fields): a text is the list of its
    code points. *)

Abbreviation chars := (list N) (only parsing).

(** The characters of a [str]; the program's strings are valid UTF-8. *)
Definition chars_of (s : string) : chars := default [] (utf8_decode (bytes_of s)).

(** [str::split_whitespace]. *)
Fixpoint words_from (word : chars) (s : chars) : list chars :=
  let emit := match word with [] => [] | _ => [reverse word] end in
  match s with
  | [] => emit
  | c :: r => if is_whitespace c then emit ++ words_from [] r else words_from (c :: word) r
  end.

Definition split_whitespace (s : chars) : list chars := words_from [] s.

(** [str::lines]: a line ends with LF or CR LF; the last may have no end. *)
Definition strip_cr (reversed : chars) : chars :=
  match reversed with
  | c :: r => if (c =? 13)%N then reverse r else reverse reversed
  | [] => []
  end.

Fixpoint lines_from (line : chars) (s : chars) : list chars :=
  match s with
  | [] => match line with [] => [] | _ => [reverse line] end
  | c :: r => if (c =? 10)%N then strip_cr line :: lines_from [] r else lines_from (c :: line) r
  end.

Definition lines (s : chars) : list chars := lines_from [] s.

(** [str::split_once] at a character. *)
Fixpoint split_once_char (sep : N) (s : chars) : option (chars * chars) :=
  match s with
  | [] => None
  | c :: r =>
      if (c =? sep)%N then Some ([], r)
      else p ← split_once_char sep r; Some (c :: p.1, p.2)
  end.

(** [str::trim_matches] with a predicate. *)
Fixpoint trim_start (p : N -> bool) (s : chars) : chars :=
  match s with
  | c :: r => if p c then trim_start p r else s
  | [] => []
  end.

Definition trim_end (p : N -> bool) (s : chars) : chars :=
  reverse (trim_start p (reverse s)).

Definition trim_matches (p : N -> bool) (s : chars) : chars := trim_end p (trim_start p s).

Fixpoint strip_prefix_chars (p s : chars) : option chars :=
  match p, s with
  | [], _ => Some s
  | c :: p, d :: s => if (c =? d)%N then strip_prefix_chars p s else None
  | _ :: _, [] => None
  end.

Definition starts_with_chars (p s : chars) : bool :=
  match strip_prefix_chars p s with Some _ => true | None => false end.

(** [str::find] of a text: the characters from its first occurrence on. *)
Fixpoint find_from (p s : chars) : option chars :=
  if starts_with_chars p s then Some s
  else match s with [] => None | _ :: r => find_from p r end.

(** [u64::from_str_radix] accepts ASCII only. *)
Definition ascii_bytes (s : chars) : option bytes :=
  if forallb (fun c => c <? 128)%N s then Some (ascii_of_N <$> s) else None.

Definition from_str_radix_chars (max radix : N) (s : chars) : option N :=
  b ← ascii_bytes s; from_str_radix max radix b.
