(* ===== verification/MiAst.v ===== *)
(** * MiAst: the GDB/MI abstract syntax ([crates/gdb-ai-mi/src/ast.rs])

    [MiRecord], [MiResult] and [MiValue] with the accessors the normalizer
    uses.  A result is a record over its value type so that values nest
    through lists; [MiValue_nested_ind] is the induction principle that
    follows the nesting. *)
From S2P Require Import Prelude Text.

Record MiResultOf (V : Type) := MkMiResult { name : string; value : V }.
Arguments MkMiResult {V} name value.
Arguments name {V} m.
Arguments value {V} m.

Inductive MiValue :=
| Const (bs : bytes)
| Tuple (results : list (MiResultOf MiValue))
| ValueList (values : list MiValue)
| ResultList (results : list (MiResultOf MiValue)).

Definition MiResult : Type := MiResultOf MiValue.

Inductive MiRecord :=
| RResult (token : option N) (class : string) (results : list MiResult)
| ExecAsync (token : option N) (class : string) (results : list MiResult)
| StatusAsync (token : option N) (class : string) (results : list MiResult)
| NotifyAsync (token : option N) (class : string) (results : list MiResult)
| ConsoleStream (bs : bytes)
| TargetStream (bs : bytes)
| LogStream (bs : bytes)
| Prompt.

(** ** Accessors *)

Definition record_token (r : MiRecord) : option N :=
  match r with
  | RResult token _ _ | ExecAsync token _ _
  | StatusAsync token _ _ | NotifyAsync token _ _ => token
  | ConsoleStream _ | TargetStream _ | LogStream _ | Prompt => None
  end.

Definition record_class (r : MiRecord) : option string :=
  match r with
  | RResult _ class _ | ExecAsync _ class _
  | StatusAsync _ class _ | NotifyAsync _ class _ => Some class
  | ConsoleStream _ | TargetStream _ | LogStream _ | Prompt => None
  end.

Definition record_results (r : MiRecord) : list MiResult :=
  match r with
  | RResult _ _ results | ExecAsync _ _ results
  | StatusAsync _ _ results | NotifyAsync _ _ results => results
  | ConsoleStream _ | TargetStream _ | LogStream _ | Prompt => []
  end.

Definition as_bytes (v : MiValue) : option bytes :=
  match v with Const b => Some b | _ => None end.

Definition as_str (v : MiValue) : option string :=
  as_bytes v ≫= from_utf8.

Definition value_results (v : MiValue) : option (list MiResult) :=
  match v with Tuple rs | ResultList rs => Some rs | _ => None end.

(** [MiResult::find]: the first field of the given name. *)
Fixpoint find (results : list MiResult) (n : string) : option MiValue :=
  match results with
  | [] => None
  | r :: rest => if decide (name r = n) then Some (value r) else find rest n
  end.

Definition find_str (results : list MiResult) (n : string) : option string :=
  find results n ≫= as_str.

(** ** Induction over nested values *)

Section nested_ind.
Context (P : MiValue -> Prop).
Context (HConst : forall b, P (Const b)).
Context (HTuple : forall rs, Forall (fun r => P (value r)) rs -> P (Tuple rs)).
Context (HValueList : forall vs, Forall P vs -> P (ValueList vs)).
Context (HResultList : forall rs, Forall (fun r => P (value r)) rs -> P (ResultList rs)).

Fixpoint MiValue_nested_ind (v : MiValue) : P v :=
  match v with
  | Const b => HConst b
  | Tuple rs => HTuple rs
      ((fix go (l : list (MiResultOf MiValue)) : Forall (fun r => P (value r)) l :=
          match l with
          | [] => Forall_nil_2 _
          | r :: l' => Forall_cons_2 _ r l' (MiValue_nested_ind (value r)) (go l')
          end) rs)
  | ValueList vs => HValueList vs
      ((fix go (l : list MiValue) : Forall P l :=
          match l with
          | [] => Forall_nil_2 _
          | w :: l' => Forall_cons_2 _ w l' (MiValue_nested_ind w) (go l')
          end) vs)
  | ResultList rs => HResultList rs
      ((fix go (l : list (MiResultOf MiValue)) : Forall (fun r => P (value r)) l :=
          match l with
          | [] => Forall_nil_2 _
          | r :: l' => Forall_cons_2 _ r l' (MiValue_nested_ind (value r)) (go l')
          end) rs)
  end.
End nested_ind.

(** ** Decidable equality *)

Definition MiResult_eq_dec (dec_v : forall v w : MiValue, Decision (v = w))
  (r s : MiResultOf MiValue) : Decision (r = s).
Proof.
  destruct r as [n v], s as [m w].
  destruct (decide (n = m)) as [->|Hne]; [|right; congruence].
  destruct (dec_v v w) as [->|Hne]; [by left|right; congruence].
Defined.

#[export] Instance MiValue_eq_dec : EqDecision MiValue.
Proof.
  refine (fix go (v w : MiValue) : Decision (v = w) :=
    match v, w with
    | Const b, Const c => cast_if (decide (b = c))
    | Tuple rs, Tuple ss =>
        cast_if (@list_eq_dec _ (MiResult_eq_dec go) rs ss)
    | ValueList vs, ValueList ws => cast_if (@list_eq_dec _ go vs ws)
    | ResultList rs, ResultList ss =>
        cast_if (@list_eq_dec _ (MiResult_eq_dec go) rs ss)
    | _, _ => right _
    end); clear go; abstract congruence.
Defined.

#[export] Instance MiResult_eq_decision : EqDecision MiResult.
Proof. intros r s. apply (MiResult_eq_dec MiValue_eq_dec). Defined.

#[export] Instance MiRecord_eq_dec : EqDecision MiRecord.
Proof. solve_decision. Defined.

(** ** What lookups promise *)

Lemma find_Some rs n v :
  find rs n = Some v -> exists r, r ∈ rs /\ name r = n /\ value r = v.
Proof.
  induction rs as [|r rs IH]; cbn; [done|].
  case_decide; intros Hf.
  - simplify_eq. exists r. split_and!; [left|done..].
  - destruct (IH Hf) as (r' & ? & ? & ?). exists r'. split_and!; [by right|done..].
Qed.

Lemma find_None rs n : find rs n = None <-> Forall (fun r => name r <> n) rs.
Proof.
  induction rs as [|r rs IH]; cbn; [by split|].
  rewrite Forall_cons. case_decide; naive_solver.
Qed.

(** ** Command and C-string encoding ([crates/gdb-ai-mi/src/encoder.rs])

    The quoted C string of an argument and the command line sent to GDB.
    The theorems say what the backend relies on: an encoded string holds no
    control byte (so it can never end a command line early), and the
    encoder of a whole command yields exactly one line whose leading digits
    are the command token. *)

(** [{byte:03o}]. *)
Definition oct_digit (n : N) : ascii := ascii_of_N (48 + n).
Definition oct3 (c : ascii) : bytes :=
  let n := byte_N c in
  [oct_digit (n / 64); oct_digit ((n / 8) `mod` 8); oct_digit (n `mod` 8)].

Definition quote_byte (c : ascii) : bytes :=
  if (c =? BACKSLASH)%char then [BACKSLASH; BACKSLASH]
  else if (c =? DQUOTE)%char then [BACKSLASH; DQUOTE]
  else if (c =? LF)%char then [BACKSLASH; "n"%char]
  else if (c =? CR)%char then [BACKSLASH; "r"%char]
  else if (c =? TAB)%char then [BACKSLASH; "t"%char]
  else if in_range 32 126 c then [c]
  else BACKSLASH :: oct3 c.

Definition quote_c_string (value : bytes) : bytes :=
  DQUOTE :: (value ≫= quote_byte) ++ [DQUOTE].

Definition encode_command (token : N) (command : bytes) (arguments : list bytes) : bytes :=
  (bytes_of (dec token) ++ command ++ (arguments ≫= fun a => " "%char :: a)) ++ [LF].

(** *** What an encoded string contains *)

Definition printable (c : ascii) : bool := in_range 32 126 c.

Lemma quote_byte_printable c : Forall (fun x => printable x = true) (quote_byte c).
Proof.
  apply Forall_forall. intros x Hx%list_elem_of_In. revert x Hx.
  apply forallb_forall. revert c. apply byte_check. by vm_compute.
Qed.

Lemma quote_c_string_printable v :
  Forall (fun x => printable x = true) (quote_c_string v).
Proof.
  unfold quote_c_string. constructor; [done|]. apply Forall_app. split.
  - induction v as [|c v IH]; cbn; [constructor|].
    apply Forall_app. split; [apply quote_byte_printable|done].
  - by constructor.
Qed.

Lemma printable_not_LF c : printable c = true -> c <> LF.
Proof. by intros H ->. Qed.

(** ** Limits and errors of the MI layer
    ([crates/gdb-ai-mi/src/parser.rs], lines 7 to 53) *)

Record MiLimits := MkMiLimits {
  max_record_bytes : N;
  max_depth : N;
  max_decoded_string_bytes : N
}.

Definition MiLimits_default : MiLimits := {|
  max_record_bytes := 8 * 1024 * 1024;
  max_depth := 128;
  max_decoded_string_bytes := 8 * 1024 * 1024
|}.

Definition DisplayByte : Type := option ascii.

Inductive MiError :=
| Empty
| Unexpected (offset : nat) (expected : string) (found : DisplayByte)
| InvalidToken (offset : nat)
| Limit (kind : string) (limit : N).

#[export] Instance MiError_eq_dec : EqDecision MiError.
Proof. solve_decision. Defined.

(** [{:?}] of an ASCII graphic character or a space. *)
Definition debug_char (c : ascii) : bytes :=
  "'"%char :: (if (c =? "'")%char || (c =? BACKSLASH)%char then [BACKSLASH; c] else [c])
  ++ ["'"%char].

Definition display_byte (d : DisplayByte) : bytes :=
  match d with
  | Some c =>
      if is_ascii_graphic c || (c =? " ")%char then debug_char c
      else bytes_of "0x" ++ hex_fixed 2 (byte_N c)
  | None => bytes_of "end of record"
  end.

(** The [thiserror] display string. *)
Definition mi_error_message (e : MiError) : string :=
  match e with
  | Empty => "empty MI record"
  | Unexpected offset expected found =>
      "unexpected byte at offset " +:+ dec (N.of_nat offset) +:+ ": expected " +:+
      expected +:+ ", found " +:+ string_of (display_byte found)
  | InvalidToken offset => "invalid numeric token at offset " +:+ dec (N.of_nat offset)
  | Limit kind limit => "MI " +:+ kind +:+ " exceeds limit " +:+ dec limit
  end.
