(* ===== verification/MiFramer.v ===== *)
(** * MiFramer: byte framing ([crates/gdb-ai-mi/src/framer.rs])

    [push] takes arbitrary chunks of GDB's output and returns the complete
    records; [scanned] remembers how much of the buffer is known to hold no
    newline.  The reference definition [reference_frames] splits the whole
    stream at once, and [framing_is_chunk_independent] says that feeding the
    stream in any chunks delivers exactly its records and fails exactly when
    it does. *)

From S2P Require Import Prelude Text MiAst.

Record MiFramer := MkMiFramer {
  buffer : bytes;
  scanned : nat;
  framer_max : N
}.

Record MiFrames := MkMiFrames {
  records : list bytes;
  error : option MiError
}.

Definition is_LF (c : ascii) : bool := (c =? LF)%char.

Definition MiFramer_new (limits : MiLimits) : MiFramer :=
  {| buffer := []; scanned := 0; framer_max := max_record_bytes limits |}.

(** [record.pop()] of the newline, then of a trailing carriage return. *)
Definition pop_terminator (line : bytes) : bytes :=
  match last line with
  | Some c => if (c =? CR)%char then removelast line else line
  | None => line
  end.

(** The [while let] loop of [push_into]: every iteration splits one line off
    the front of the buffer, so the buffer length bounds the iterations. *)
Fixpoint frame_loop (fuel : nat) (max : N) (buf : bytes) (from : nat) (acc : list bytes)
  : bytes * nat * list bytes * outcome MiError unit :=
  match fuel with
  | O => (buf, from, acc, OutOfFuel)
  | S fuel' =>
      if bool_decide (length buf < from) then (buf, from, acc, Panic)
      else match position is_LF (drop from buf) with
      | None => (buf, from, acc, Done tt)
      | Some relative =>
          let newline := from + relative in
          if (max <? N.of_nat newline)%N then
            (buf, from, acc, Fail (Limit "record bytes" max))
          else
            let record := pop_terminator (removelast (take (newline + 1) buf)) in
            let acc' := match record with [] => acc | _ => acc ++ [record] end in
            frame_loop fuel' max (drop (newline + 1) buf) 0 acc'
      end
  end.

(** [push_into]: the framer afterwards, the records pushed, and the result. *)
Definition push_into (f : MiFramer) (input : bytes)
  : MiFramer * list bytes * outcome MiError unit :=
  let max := framer_max f in
  if (max <? u64_saturating_add (lenN (buffer f)) (lenN input))%N &&
     negb (existsb is_LF input)
  then (f, [], Fail (Limit "unterminated record" max))
  else
    let buf := buffer f ++ input in
    let '(buf', from', acc, r) := frame_loop (S (length buf)) max buf (scanned f) [] in
    match r with
    | Done _ =>
        let f' := {| buffer := buf'; scanned := length buf'; framer_max := max |} in
        if (max <? lenN buf')%N
        then (f', acc, Fail (Limit "unterminated record" max))
        else (f', acc, Done tt)
    | _ => ({| buffer := buf'; scanned := from'; framer_max := max |}, acc, r)
    end.

Definition push (f : MiFramer) (input : bytes) : outcome MiError (MiFrames * MiFramer) :=
  let '(f', recs, r) := push_into f input in
  match r with
  | Done _ => Done ({| records := recs; error := None |}, f')
  | Fail e => Done ({| records := recs; error := Some e |}, f')
  | Panic => Panic
  | OutOfFuel => OutOfFuel
  end.

Definition finish (f : MiFramer) : Result MiError (option bytes) * MiFramer :=
  match buffer f with
  | [] => (Ok None, f)
  | _ =>
      if (framer_max f <? lenN (buffer f))%N then
        (Err (Limit "record bytes" (framer_max f)), f)
      else (Ok (Some (buffer f)),
            {| buffer := []; scanned := 0; framer_max := framer_max f |})
  end.

Definition buffered_len (f : MiFramer) : nat := length (buffer f).

Definition preview (f : MiFramer) (maximum : nat) : bytes :=
  take (Nat.min (length (buffer f)) maximum) (buffer f).

(** ** The reference: the records of a whole stream *)

(** The complete lines of a stream and what follows the last newline. *)
Fixpoint split_lines (s : bytes) : list bytes * bytes :=
  match s with
  | [] => ([], [])
  | c :: r =>
      let '(ls, rest) := split_lines r in
      if is_LF c then ([] :: ls, rest)
      else match ls with
      | [] => ([], c :: rest)
      | l :: ls' => ((c :: l) :: ls', rest)
      end
  end.

(** The records up to the first line over the limit, and whether there is
    one (the unterminated tail counts as a line). *)
Fixpoint collect (max : N) (ls : list bytes) (rest : bytes) : list bytes * bool :=
  match ls with
  | [] => ([], (max <? lenN rest)%N)
  | l :: ls' =>
      if (max <? lenN l)%N then ([], true)
      else
        let '(recs, bad) := collect max ls' rest in
        (match pop_terminator l with [] => recs | r => r :: recs end, bad)
  end.

Definition reference_frames (max : N) (s : bytes) : list bytes * bool :=
  let '(ls, rest) := split_lines s in collect max ls rest.

(** The reader's use of a framer ([backend.rs], [read_mi]): chunks are pushed
    until the first error, after which the framer is discarded. *)
Fixpoint push_all (f : MiFramer) (chunks : list bytes)
  : outcome MiError (list bytes * bool * MiFramer) :=
  match chunks with
  | [] => Done ([], false, f)
  | c :: cs =>
      '(frames, f') ← push f c;
      match error frames with
      | Some _ => Done (records frames, true, f')
      | None =>
          '(recs, bad, f'') ← push_all f' cs;
          Done (records frames ++ recs, bad, f'')
      end
  end.

(** ** The reference over concatenations *)

Abbreviation no_LF := (Forall (fun c => is_LF c = false)).

Lemma no_LF_existsb s : existsb is_LF s = false <-> no_LF s.
Proof.
  induction s as [|c s IH]; cbn; [by split|].
  rewrite orb_false_iff, IH, Forall_cons. done.
Qed.

Lemma split_lines_no_LF k : no_LF k -> split_lines k = ([], k).
Proof. induction 1 as [|c k Hc _ IH]; cbn; [done|]. by rewrite IH, Hc. Qed.

Lemma split_lines_LF k r :
  no_LF k -> split_lines (k ++ LF :: r) =
    let '(ls, rest) := split_lines r in (k :: ls, rest).
Proof.
  induction 1 as [|c k Hc _ IH]; cbn.
  - by destruct (split_lines r).
  - rewrite IH. destruct (split_lines r). by rewrite Hc.
Qed.

(** Either a stream holds no newline or its first line is split off. *)
Lemma line_cases s :
  no_LF s \/ exists k r, s = k ++ LF :: r /\ no_LF k.
Proof.
  destruct (position is_LF s) as [n|] eqn:E.
  - right. apply position_Some in E as (k & x & r & -> & _ & Hx & Hk).
    exists k, r. split; [|done]. apply Ascii.eqb_eq in Hx as ->. done.
  - left. by apply position_None.
Qed.

Lemma split_lines_app s t ls rest :
  split_lines s = (ls, rest) ->
  split_lines (s ++ t) =
    let '(ls', rest') := split_lines (rest ++ t) in (ls ++ ls', rest').
Proof.
  revert ls rest. induction s as [s IH] using (induction_ltof1 _ length).
  unfold ltof in IH. intros ls rest.
  destruct (line_cases s) as [Hs|(k & r & -> & Hk)].
  - rewrite split_lines_no_LF by done. intros [= <- <-].
    by destruct (split_lines (s ++ t)).
  - rewrite split_lines_LF by done.
    destruct (split_lines r) as [ls0 rest0] eqn:E. intros [= <- <-].
    rewrite <-app_assoc. cbn. rewrite split_lines_LF by done.
    rewrite (IH r) with (ls := ls0) (rest := rest0); [|rewrite length_app; cbn; lia|done].
    by destruct (split_lines (rest0 ++ t)).
Qed.

Lemma split_lines_rest_no_LF s : no_LF (split_lines s).2.
Proof.
  induction s as [s IH] using (induction_ltof1 _ length). unfold ltof in IH.
  destruct (line_cases s) as [Hs|(k & r & -> & Hk)].
  - by rewrite split_lines_no_LF.
  - rewrite split_lines_LF by done. specialize (IH r).
    destruct (split_lines r). apply IH. rewrite length_app. cbn. lia.
Qed.

Abbreviation within max := (Forall (fun l => (lenN l <= max)%N)).

Lemma collect_within max ls rest :
  within max ls -> (collect max ls rest).2 = (max <? lenN rest)%N.
Proof.
  induction 1 as [|l ls Hl _ IH]; cbn; [done|].
  destruct (N.ltb_spec max (lenN l)); [lia|].
  by destruct (collect max ls rest).
Qed.

Lemma collect_not_within max ls rest :
  ~ within max ls -> (collect max ls rest).2 = true.
Proof.
  intros H. induction ls as [|l ls IH]; [by destruct H|]. cbn.
  destruct (N.ltb_spec max (lenN l)); [done|].
  destruct (collect max ls rest); cbn in *. apply IH.
  intros ?. apply H. by constructor.
Qed.

Lemma collect_records_rest max ls rest rest' :
  (collect max ls rest).1 = (collect max ls rest').1.
Proof.
  induction ls as [|l ls IH]; cbn; [done|]. case_match; [done|].
  destruct (collect max ls rest), (collect max ls rest'); cbn in *. by subst.
Qed.

Lemma collect_app max ls ls' rest rest' :
  within max ls ->
  collect max (ls ++ ls') rest' =
    ((collect max ls rest).1 ++ (collect max ls' rest').1, (collect max ls' rest').2).
Proof.
  induction 1 as [|l ls Hl _ IH]; cbn.
  - by destruct (collect max ls' rest').
  - destruct (N.ltb_spec max (lenN l)); [lia|].
    rewrite IH. destruct (collect max ls rest); cbn. by destruct (pop_terminator l).
Qed.

Lemma collect_app_bad max ls ls' rest rest' :
  ~ within max ls -> collect max (ls ++ ls') rest' = collect max ls rest.
Proof.
  intros H. induction ls as [|l ls IH]; [by destruct H|]. cbn.
  destruct (N.ltb_spec max (lenN l)); [done|].
  rewrite IH; [done|]. intros ?. apply H. by constructor.
Qed.

(** A failing prefix decides the whole stream. *)
Lemma reference_frames_app_bad max s t :
  (reference_frames max s).2 = true ->
  reference_frames max (s ++ t) = reference_frames max s.
Proof.
  unfold reference_frames. destruct (split_lines s) as [ls rest] eqn:E.
  rewrite (split_lines_app _ _ _ _ E).
  destruct (split_lines (rest ++ t)) as [ls' rest'] eqn:E'.
  destruct (decide (within max ls)) as [Hw|Hw].
  2:{ intros _. by apply collect_app_bad. }
  rewrite (collect_within _ _ _ Hw), (collect_app _ _ _ rest) by done.
  intros Hbad. pose proof (collect_within max ls rest Hw) as Hb.
  destruct (collect max ls rest) as [recs bad]; cbn in *. subst bad.
  assert (collect max ls' rest' = ([], true)) as ->; [|by rewrite app_nil_r, Hbad].
  assert (no_LF rest) as Hrest
    by (pose proof (split_lines_rest_no_LF s) as Hr; by rewrite E in Hr).
  apply N.ltb_lt in Hbad.
  destruct (line_cases t) as [Ht|(k & r & -> & Hk)].
  - rewrite split_lines_no_LF in E' by by apply Forall_app. simplify_eq/=.
    f_equal. apply N.ltb_lt. rewrite lenN_app. lia.
  - rewrite app_assoc, split_lines_LF in E' by by apply Forall_app.
    destruct (split_lines r); simplify_eq/=.
    destruct (N.ltb_spec max (lenN (rest ++ k))) as [|Hle]; [done|].
    rewrite lenN_app in Hle. lia.
Qed.

(** After a good prefix the rest of the stream is framed from its tail. *)
Lemma reference_frames_app_good max s t ls rest :
  split_lines s = (ls, rest) -> within max ls ->
  reference_frames max (s ++ t) =
    ((reference_frames max s).1 ++ (reference_frames max (rest ++ t)).1,
     (reference_frames max (rest ++ t)).2).
Proof.
  intros E Hw. unfold reference_frames. rewrite (split_lines_app _ _ _ _ E), E.
  destruct (split_lines (rest ++ t)). by apply collect_app.
Qed.

(** ** The loop computes the reference *)

Lemma pop_line k r : removelast (take (length k + 1) (k ++ LF :: r)) = k.
Proof.
  replace (length k + 1) with (length (k ++ [LF])) by (rewrite length_app; done).
  rewrite (cons_middle LF k r), app_assoc, take_app_length. apply removelast_last.
Qed.

Lemma drop_line (k r : bytes) : drop (length k + 1) (k ++ LF :: r) = r.
Proof.
  replace (length k + 1) with (length (k ++ [LF])) by (rewrite length_app; done).
  by rewrite (cons_middle LF k r), app_assoc, drop_app_length.
Qed.

(** Scanning from a point whose prefix holds no newline finds the first
    newline of the whole buffer. *)
Lemma position_from k r from :
  no_LF k -> from <= length k ->
  (fun n => from + n) <$> position is_LF (drop from (k ++ LF :: r)) = Some (length k).
Proof.
  intros Hk Hf. rewrite drop_app_le by done.
  rewrite position_app_l by by apply Forall_drop.
  cbn. rewrite length_drop. f_equal. lia.
Qed.

Lemma push_record (acc : list bytes) (record : bytes) recs :
  (match record with [] => acc | _ => acc ++ [record] end) ++ recs =
  acc ++ match record with [] => recs | r => r :: recs end.
Proof. destruct record; [done|]. by rewrite <-app_assoc. Qed.

Lemma frame_loop_spec fuel max buf from acc ls rest :
  split_lines buf = (ls, rest) -> length buf < fuel ->
  no_LF (take from buf) -> from <= length buf ->
  exists buf' from' r,
    frame_loop fuel max buf from acc = (buf', from', acc ++ (collect max ls rest).1, r) /\
    (within max ls /\ r = Done tt /\ buf' = rest \/
     ~ within max ls /\ r = Fail (Limit "record bytes" max)).
Proof.
  revert buf from acc ls rest.
  induction fuel as [|fuel IH]; intros buf from acc ls rest E Hfuel Hpre Hfrom; [lia|].
  cbn. rewrite bool_decide_eq_false_2 by lia.
  destruct (line_cases buf) as [Hs|(k & r & -> & Hk)].
  - rewrite split_lines_no_LF in E by done. simplify_eq/=.
    rewrite (proj2 (position_None _ _)) by by apply Forall_drop.
    eexists _, _, _. rewrite app_nil_r. eauto.
  - rewrite split_lines_LF in E by done.
    destruct (split_lines r) as [ls0 rest0] eqn:Er. simplify_eq/=.
    assert (from <= length k) as Hle.
    { apply Nat.nlt_ge. intros Hlt.
      rewrite take_app_ge, Forall_app in Hpre by lia. destruct Hpre as [_ Hpre].
      destruct (from - length k) eqn:?; [lia|]. by inversion Hpre. }
    pose proof (position_from k r from Hk Hle) as Hpos.
    destruct (position is_LF _) as [n|]; [|done]. injection Hpos as Hn. rewrite Hn.
    change (N.of_nat (length k)) with (lenN k).
    destruct (N.ltb_spec max (lenN k)).
    + eexists _, _, _. rewrite app_nil_r. split; [done|]. right. split; [|done].
      rewrite Forall_cons. lia.
    + rewrite pop_line, drop_line.
      destruct (IH r 0 (match pop_terminator k with [] => acc | _ => acc ++ [pop_terminator k] end)
                  ls0 rest Er) as (buf' & from' & res & -> & Hres); [|done|lia|].
      { rewrite length_app in Hfuel. cbn in Hfuel. lia. }
      eexists _, _, _. split.
      { rewrite push_record. destruct (collect max ls0 rest). by destruct (pop_terminator k). }
      rewrite Forall_cons. naive_solver.
Qed.

(** The state of a framer between two successful pushes. *)
Definition clean (f : MiFramer) : Prop :=
  no_LF (buffer f) /\ scanned f = length (buffer f) /\ (lenN (buffer f) <= framer_max f)%N.

Lemma MiFramer_new_clean limits : clean (MiFramer_new limits).
Proof. split_and!; [by apply Forall_nil|done|apply N.le_0_l]. Qed.

Lemma push_spec f input ls rest :
  clean f -> split_lines (buffer f ++ input) = (ls, rest) ->
  exists frames f', push f input = Done (frames, f') /\ framer_max f' = framer_max f /\
    records frames = (reference_frames (framer_max f) (buffer f ++ input)).1 /\
    bool_decide (is_Some (error frames)) =
      (reference_frames (framer_max f) (buffer f ++ input)).2 /\
    (error frames = None -> clean f' /\ buffer f' = rest /\ within (framer_max f) ls).
Proof.
  intros (Hlf & Hsc & Hmax) E. unfold push, push_into, reference_frames. rewrite E.
  destruct (_ && _) eqn:Early.
  - apply andb_true_iff in Early as [Hbig Hno].
    apply negb_true_iff, no_LF_existsb in Hno.
    rewrite split_lines_no_LF in E by by apply Forall_app. simplify_eq/=.
    eexists _, _. split; [done|]. cbn. split_and!; try done.
    symmetry. apply N.ltb_lt. apply N.ltb_lt in Hbig. rewrite lenN_app.
    unfold u64_saturating_add in Hbig. lia.
  - destruct (frame_loop_spec (S (length (buffer f ++ input))) (framer_max f)
                (buffer f ++ input) (scanned f) [] ls rest E)
      as (buf' & from' & r & -> & Hr); [lia| |rewrite Hsc, length_app; lia|].
    { by rewrite Hsc, take_app_length. }
    destruct Hr as [(Hw & -> & ->)|(Hw & ->)]; cbn.
    + pose proof (collect_within _ _ rest Hw) as Hb.
      destruct (collect (framer_max f) ls rest) as [recs bad]; cbn in *. subst bad.
      destruct (N.ltb_spec (framer_max f) (lenN rest)); eexists _, _; split_and!; try done.
      intros _. split_and!; try done. unfold clean; cbn. split_and!; [|done..].
      pose proof (split_lines_rest_no_LF (buffer f ++ input)) as Hr. by rewrite E in Hr.
    + pose proof (collect_not_within _ _ rest Hw) as Hb.
      destruct (collect (framer_max f) ls rest) as [recs bad]; cbn in *. subst bad.
      eexists _, _. split_and!; done.
Qed.

Lemma push_all_spec f chunks :
  clean f ->
  exists f', push_all f chunks =
    Done (reference_frames (framer_max f) (buffer f ++ mjoin chunks), f') /\
    ((reference_frames (framer_max f) (buffer f ++ mjoin chunks)).2 = false ->
     clean f' /\ framer_max f' = framer_max f /\
     buffer f' = (split_lines (buffer f ++ mjoin chunks)).2).
Proof.
  revert f. induction chunks as [|c cs IH]; intros f Hf; cbn.
  { exists f. rewrite app_nil_r. unfold reference_frames.
    destruct Hf as (Hlf & ? & Hmax). rewrite split_lines_no_LF by done. cbn.
    by destruct (N.ltb_spec (framer_max f) (lenN (buffer f))); [lia|]. }
  destruct (split_lines (buffer f ++ c)) as [ls rest] eqn:E.
  destruct (push_spec f c ls rest Hf E) as (frames & f1 & -> & Hmax & Hrec & Herr & Hok).
  cbn. rewrite app_assoc. destruct (error frames) as [e|].
  - exists f1. rewrite bool_decide_eq_true_2 in Herr by done.
    rewrite reference_frames_app_bad, Hrec by done.
    destruct (reference_frames _ _); cbn in *. by subst.
  - destruct (Hok eq_refl) as (Hclean & Hbuf & Hw).
    destruct (IH f1 Hclean) as (f2 & -> & Hgood). cbn. rewrite Hmax, Hbuf in *.
    rewrite (reference_frames_app_good _ _ _ _ _ E Hw), Hrec.
    rewrite (split_lines_app _ _ _ _ E). exists f2.
    destruct (reference_frames _ (rest ++ _)), (split_lines (rest ++ _)). done.
Qed.

(** The lines and the tail of a stream, with the newlines put back, are the
    stream. *)
Lemma split_lines_join s ls rest :
  split_lines s = (ls, rest) -> mjoin ((fun l => l ++ [LF]) <$> ls) ++ rest = s.
Proof.
  revert ls rest. induction s as [s IH] using (induction_ltof1 _ length).
  unfold ltof in IH. intros ls rest.
  destruct (line_cases s) as [Hs|(k & r & -> & Hk)].
  - rewrite split_lines_no_LF by done. by intros [= <- <-].
  - rewrite split_lines_LF by done.
    destruct (split_lines r) as [ls0 rest0] eqn:E. intros [= <- <-]. cbn.
    rewrite <-!app_assoc. cbn. rewrite (IH r); [done| |done].
    rewrite length_app. cbn. lia.
Qed.

(** ** Properties *)

(** C26: Framing is independent of how GDB's output is split into chunks: for
    every sequence of chunks pushed into a new framer, the framer neither
    panics nor loops, it delivers exactly the records of the concatenated
    stream (the lines up to the first one over the limit, without their line
    terminators, empty ones dropped), and it reports an error exactly when
    the stream has a line or an unterminated tail over the limit. *)
Theorem framing_is_chunk_independent (limits : MiLimits) (chunks : list bytes) :
  exists f, push_all (MiFramer_new limits) chunks =
    Done (reference_frames (max_record_bytes limits) (mjoin chunks), f).
Proof.
  destruct (push_all_spec (MiFramer_new limits) chunks) as (f & ? & _);
    [apply MiFramer_new_clean|]. by exists f.
Qed.

(** Nothing of a well-framed stream is lost: when the stream has no line
    over the limit, [finish] returns its unterminated tail (nothing when the
    tail is empty), and the lines with that tail reassemble to the stream. *)
Theorem finish_returns_the_tail (limits : MiLimits) (chunks : list bytes) (ls : list bytes)
    (rest : bytes) (recs : list bytes) (f : MiFramer) :
  split_lines (mjoin chunks) = (ls, rest) ->
  push_all (MiFramer_new limits) chunks = Done (recs, false, f) ->
  (finish f).1 = Ok (match rest with [] => None | _ => Some rest end) /\
  buffer (finish f).2 = [] /\
  mjoin ((fun l => l ++ [LF]) <$> ls) ++ rest = mjoin chunks.
Proof.
  intros E H. destruct (push_all_spec (MiFramer_new limits) chunks) as (f' & H' & Hgood);
    [apply MiFramer_new_clean|]. rewrite H in H'. injection H' as Href <-.
  cbn in Href, Hgood. rewrite <-Href, E in Hgood.
  destruct (Hgood eq_refl) as ((_ & _ & Hmax) & _ & Hb). cbn in Hb.
  split_and!; [..|by apply split_lines_join].
  all: unfold finish; rewrite Hb; destruct rest; [done|].
  all: rewrite Hb in Hmax; by destruct (N.ltb_spec (framer_max f) (lenN (a :: rest))); [lia|].
Qed.

Lemma finish_returns_the_tail_witness :
  (finish {| buffer := bytes_of "last"; scanned := 4; framer_max := 16 |}).1 =
  Ok (Some (bytes_of "last")).
Proof.
  refine (proj1 (finish_returns_the_tail (MkMiLimits 16 8 16)
    [bytes_of "1^do"; bytes_of "ne" ++ [CR; LF] ++ bytes_of "la"; bytes_of "st"]
    [bytes_of "1^done" ++ [CR]] (bytes_of "last") [bytes_of "1^done"] _ _ _)).
  all: vm_compute; reflexivity.
Defined.
