(* ===== verification/MiParser.v ===== *)
(** * MiParser: the GDB/MI record parser ([crates/gdb-ai-mi/src/parser.rs])

    The recursive-descent parser over one record.  The parser state of the
    source ([input], [offset], [limits]) is the section's input and limits
    with the offset passed explicitly; [?] is the bind of [outcome].  The
    recursion through nested values is on a fuel argument, the loops on their
    own; [MiParserSafety] proves that [parse_record], which supplies one more
    than the input length, never runs out of it and never panics. *)

From S2P Require Import Prelude Text MiAst.

Definition identifier_byte (c : ascii) : bool :=
  is_ascii_alphanumeric c || (c =? "-")%char || (c =? "_")%char.

Definition hex_digit (c : ascii) : option N :=
  if in_range 48 57 c then Some (byte_N c - 48)%N
  else if in_range 97 102 c then Some (byte_N c - 97 + 10)%N
  else if in_range 65 70 c then Some (byte_N c - 65 + 10)%N
  else None.

Definition is_octal (c : ascii) : bool := in_range 48 55 c.

(** [u8] arithmetic of the escapes. *)
Definition u8_wrapping (n : N) : N := n `mod` 256.

(** Bytes that end a plain span of a C string. *)
Definition c_special (c : ascii) : bool :=
  (c =? DQUOTE)%char || (c =? BACKSLASH)%char || (c =? LF)%char || (c =? CR)%char.

(** Bytes that stop the lookahead of [looks_like_result] with a negative
    answer. *)
Definition lookahead_stop (c : ascii) : bool :=
  (c =? ",")%char || (c =? "]")%char || (c =? "{")%char || (c =? "}")%char ||
  (c =? "[")%char || (c =? DQUOTE)%char || is_ascii_whitespace c.

(** [<[u8]>::trim_ascii]. *)
Fixpoint trim_start (b : bytes) : bytes :=
  match b with
  | c :: r => if is_ascii_whitespace c then trim_start r else b
  | [] => []
  end.
Definition trim_ascii (b : bytes) : bytes := rev (trim_start (rev (trim_start b))).

Section Parser.
Context (input : bytes) (limits : MiLimits).

Abbreviation P A := (outcome MiError (A * nat)).

Definition peek (off : nat) : option ascii := input !! off.

Definition peek_is (c : ascii) (off : nat) : bool :=
  match peek off with Some b => (b =? c)%char | None => false end.

Definition unexpected {A} (expected : string) (off : nat) : outcome MiError A :=
  Fail (Unexpected off expected (peek off)).

Definition take_byte (expected : string) (off : nat) : P ascii :=
  match peek off with
  | None => unexpected expected off
  | Some b => Done (b, S off)
  end.

Definition expect (c : ascii) (description : string) (off : nat) : outcome MiError nat :=
  if peek_is c off then Done (S off) else unexpected description off.

Definition check_depth (depth : nat) : outcome MiError unit :=
  if (max_depth limits <=? N.of_nat depth)%N
  then Fail (Limit "nesting depth" (max_depth limits)) else Done tt.

(** [&self.input[self.offset..]]. *)
Definition slice_from (off : nat) : outcome MiError bytes :=
  if bool_decide (length input < off) then Panic else Done (drop off input).

(** ** Tokens and identifiers *)

Fixpoint span_len (p : ascii -> bool) (l : bytes) : nat :=
  match l with
  | c :: r => if p c then S (span_len p r) else 0
  | [] => 0
  end.

Definition token (off : nat) : P (option N) :=
  let stop := off + span_len is_ascii_digit (drop off input) in
  if bool_decide (stop = off) then Done (None, off)
  else match from_utf8 (take (stop - off) (drop off input)) ≫= fun s => parse_u64 (bytes_of s) with
  | Some t => Done (Some t, stop)
  | None => Fail (InvalidToken off)
  end.

Fixpoint class_loop (l : bytes) (off : nat) : outcome MiError nat :=
  match l with
  | [] => Done off
  | c :: r =>
      if (c =? ",")%char then Done off
      else if identifier_byte c then class_loop r (S off)
      else unexpected "result or async class" off
  end.

Fixpoint name_loop (l : bytes) (off : nat) : outcome MiError nat :=
  match l with
  | [] => Done off
  | c :: r =>
      if (c =? "=")%char then Done off
      else if identifier_byte c then name_loop r (S off)
      else unexpected "result name followed by =" off
  end.

(** [String::from_utf8_lossy(&self.input[start..self.offset])]: the loops
    accept identifier bytes only, which are ASCII. *)
Definition text_between (start stop : nat) : string :=
  string_of (take (stop - start) (drop start input)).

(** ** C strings *)

Fixpoint hex_loop (l : bytes) (value : N) (digits off : nat) : N * nat * nat :=
  match l with
  | c :: r =>
      match hex_digit c with
      | Some d => hex_loop r (u8_wrapping (u8_wrapping (value * 16) + d)) (S digits) (S off)
      | None => (value, digits, off)
      end
  | [] => (value, digits, off)
  end.

Fixpoint octal_loop (n : nat) (l : bytes) (value : N) (off : nat) : N * nat :=
  match n, l with
  | S n', c :: r =>
      if is_octal c
      then octal_loop n' r (u8_wrapping (u8_wrapping (value * 8) + (byte_N c - 48))) (S off)
      else (value, off)
  | _, _ => (value, off)
  end.

Definition escape (decoded : bytes) (off : nat) : P bytes :=
  '(escaped, off) ← take_byte "C-string escape" off;
  let finish (c : ascii) (off : nat) : P bytes := Done (decoded ++ [c], off) in
  if (escaped =? "a")%char then finish "007"%char off
  else if (escaped =? "b")%char then finish "008"%char off
  else if (escaped =? "e")%char then finish "027"%char off
  else if (escaped =? "f")%char then finish "012"%char off
  else if (escaped =? "n")%char then finish LF off
  else if (escaped =? "r")%char then finish CR off
  else if (escaped =? "t")%char then finish TAB off
  else if (escaped =? "v")%char then finish "011"%char off
  else if (escaped =? BACKSLASH)%char then finish BACKSLASH off
  else if (escaped =? DQUOTE)%char then finish DQUOTE off
  else if (escaped =? "'")%char then finish "'"%char off
  else if (escaped =? "?")%char then finish "?"%char off
  else if (escaped =? "x")%char then
    let '(value, digits, stop) := hex_loop (drop off input) 0 0 off in
    if bool_decide (digits = 0)
    then Fail (Unexpected off "hexadecimal escape digit" (peek stop))
    else finish (ascii_of_N value) stop
  else if is_octal escaped then
    let '(value, stop) := octal_loop 2 (drop off input) (byte_N escaped - 48) off in
    finish (ascii_of_N value) stop
  else finish escaped off.

Fixpoint c_string_loop (fuel : nat) (decoded : bytes) (off : nat) : P bytes :=
  match fuel with
  | O => OutOfFuel
  | S fuel' =>
      let max := max_decoded_string_bytes limits in
      if (max <? lenN decoded)%N then Panic else
      let budget := (max - lenN decoded)%N in
      remaining ← slice_from off;
      let remaining :=
        take (N.to_nat (N.min (lenN remaining) (u64_saturating_add budget 1))) remaining in
      let plain_len := default (length remaining) (position c_special remaining) in
      if (budget <? N.of_nat plain_len)%N
      then Fail (Limit "decoded C-string bytes" max)
      else
        let decoded := decoded ++ take plain_len remaining in
        '(byte, off) ← take_byte "closing quote" (off + plain_len);
        if (byte =? DQUOTE)%char then Done (decoded, off)
        else if (byte =? BACKSLASH)%char then
          '(decoded, off) ← escape decoded off;
          if (max <? lenN decoded)%N
          then Fail (Limit "decoded C-string bytes" max)
          else c_string_loop fuel' decoded off
        else if (byte =? LF)%char || (byte =? CR)%char
        then unexpected "escaped newline or closing quote" off
        else Panic
  end.

Definition c_string (off : nat) : P bytes :=
  off ← expect DQUOTE "opening quote" off;
  c_string_loop (S (length input)) [] off.

(** ** Values *)

Definition looks_like_result (off : nat) : bool :=
  let fix go (l : bytes) (n : nat) : bool :=
    match l with
    | [] => false
    | c :: r =>
        if (c =? "=")%char then bool_decide (0 < n)
        else if lookahead_stop c then false
        else go r (S n)
    end in
  go (drop off input) 0.

(** The [loop] that reads elements separated by commas. *)
Fixpoint separated {A} (element : nat -> P A) (fuel : nat) (off : nat) : P (list A) :=
  match fuel with
  | O => OutOfFuel
  | S fuel' =>
      '(x, off) ← element off;
      if peek_is "," off then
        '(xs, off) ← separated element fuel' (S off);
        Done (x :: xs, off)
      else Done ([x], off)
  end.

Definition legacy_script (depth off : nat) : P MiValue :=
  _ ← check_depth depth;
  off ← expect "{" "{" off;
  '(commands, off) ← separated (fun off => '(b, off) ← c_string off; Done (Const b, off))
                        (S (length input)) off;
  off ← expect "}" "}" off;
  Done (ValueList commands, off).

Definition result (value : nat -> nat -> P MiValue) (depth off : nat) : P MiResult :=
  let start := off in
  off ← name_loop (drop off input) off;
  if bool_decide (off = start) || negb (peek_is "=" off)
  then unexpected "result name followed by =" off
  else
    let nm := text_between start off in
    let off := S off in
    rest ← slice_from off;
    '(v, off) ← (if bool_decide (nm = "script") && starts_with ["{"%char; DQUOTE] rest
                 then legacy_script depth off else value depth off);
    Done (MkMiResult nm v, off).

Definition tuple (value : nat -> nat -> P MiValue) (depth off : nat) : P MiValue :=
  _ ← check_depth depth;
  off ← expect "{" "{" off;
  '(results, off) ← (if peek_is "}" off then Done ([], off)
                     else separated (result value (S depth)) (S (length input)) off);
  off ← expect "}" "}" off;
  Done (Tuple results, off).

Definition list_value (value : nat -> nat -> P MiValue) (depth off : nat) : P MiValue :=
  _ ← check_depth depth;
  off ← expect "[" "[" off;
  if peek_is "]" off then Done (ValueList [], S off)
  else if looks_like_result off then
    '(results, off) ← separated (result value (S depth)) (S (length input)) off;
    off ← expect "]" "]" off;
    Done (ResultList results, off)
  else
    '(values, off) ← separated (value (S depth)) (S (length input)) off;
    off ← expect "]" "]" off;
    Done (ValueList values, off).

Fixpoint value_at (fuel : nat) (depth off : nat) : P MiValue :=
  match fuel with
  | O => OutOfFuel
  | S fuel' =>
      match peek off with
      | Some c =>
          if (c =? DQUOTE)%char then '(b, off) ← c_string off; Done (Const b, off)
          else if (c =? "{")%char then tuple (value_at fuel') depth off
          else if (c =? "[")%char then list_value (value_at fuel') depth off
          else unexpected "MI value" off
      | None => unexpected "MI value" off
      end
  end.

(** ** Records *)

Definition result_at (depth off : nat) : P MiResult :=
  result (value_at (S (length input))) depth off.

Fixpoint results_loop (fuel : nat) (off : nat) : P (list MiResult) :=
  match fuel with
  | O => OutOfFuel
  | S fuel' =>
      if peek_is "," off then
        '(r, off) ← result_at 0 (S off);
        '(rs, off) ← results_loop fuel' off;
        Done (r :: rs, off)
      else Done ([], off)
  end.

Definition class_and_results (off : nat) : P (string * list MiResult) :=
  let start := off in
  off ← class_loop (drop off input) off;
  if bool_decide (off = start) then unexpected "non-empty result or async class" off
  else
    let class := text_between start off in
    '(results, off) ← results_loop (S (length input)) off;
    Done ((class, results), off).

Definition record : outcome MiError MiRecord :=
  '(tok, off) ← token 0;
  '(prefix, off) ← take_byte "MI record prefix" off;
  '(record, off) ←
    (if (prefix =? "^")%char then
       '((class, results), off) ← class_and_results off;
       Done (RResult tok class results, off)
     else if (prefix =? "*")%char then
       '((class, results), off) ← class_and_results off;
       Done (ExecAsync tok class results, off)
     else if (prefix =? "+")%char then
       '((class, results), off) ← class_and_results off;
       Done (StatusAsync tok class results, off)
     else if (prefix =? "=")%char then
       '((class, results), off) ← class_and_results off;
       Done (NotifyAsync tok class results, off)
     else if ((prefix =? "~")%char || (prefix =? "@")%char || (prefix =? "&")%char) &&
             bool_decide (tok = None) then
       '(bs, off) ← c_string off;
       Done (if (prefix =? "~")%char then ConsoleStream bs
             else if (prefix =? "@")%char then TargetStream bs
             else LogStream bs, off)
     else unexpected "^, *, +, =, ~, @, or &" off);
  if bool_decide (off <> length input) then unexpected "end of record" off
  else Done record.
End Parser.

Definition parse_record (input : bytes) (limits : MiLimits) : outcome MiError MiRecord :=
  match input with
  | [] => Fail Empty
  | _ =>
      if (max_record_bytes limits <? lenN input)%N
      then Fail (Limit "record bytes" (max_record_bytes limits))
      else if bool_decide (trim_ascii input = bytes_of "(gdb)") then Done Prompt
      else record input limits
  end.

(** ** The source's own examples *)

Example parse_stopped :
  parse_record (bytes_of "12*stopped,reason=" ++ [DQUOTE] ++ bytes_of "a\n" ++ [DQUOTE] ++
                bytes_of ",x={},y=[{z=[]}]") MiLimits_default =
  Done (ExecAsync (Some 12%N) "stopped"
    [MkMiResult "reason" (Const ["a"%char; LF]); MkMiResult "x" (Tuple []);
     MkMiResult "y" (ValueList [Tuple [MkMiResult "z" (ValueList [])]])]).
Proof. vm_compute. reflexivity. Qed.

Example parse_prompt : parse_record (bytes_of " (gdb) ") MiLimits_default = Done Prompt.
Proof. vm_compute. reflexivity. Qed.

Example parse_trailing :
  parse_record (bytes_of "^done garbage") MiLimits_default =
  Fail (Unexpected 5 "result or async class" (Some " "%char)).
Proof. vm_compute. reflexivity. Qed.
