(* ===== verification/MiParserSafety.v ===== *)
(** * MiParserSafety: the parser is total, panic-free and bounded

    Every parsing function is given a postcondition [post]: it returns with
    the stated fact or reports an [MiAst]; it neither panics nor runs out
    of fuel.  [parse_record_is_total] is the resulting theorem for the whole
    parser, and [parse_record_is_bounded] says that what it returns respects
    the three limits of [MiLimits]. *)

From S2P Require Import Prelude Text MiAst MiParser.

(** ** Well-formed values: the limits as a predicate on the syntax tree *)

Definition ident (n : string) : bool :=
  negb (bool_decide (n = EmptyString)) && forallb identifier_byte (bytes_of n).

Fixpoint wf_value (limits : MiLimits) (depth : nat) (v : MiValue) : bool :=
  match v with
  | Const b => (lenN b <=? max_decoded_string_bytes limits)%N
  | Tuple rs =>
      (N.of_nat depth <? max_depth limits)%N &&
      forallb (fun r => ident (name r) && wf_value limits (S depth) (value r)) rs
  | ValueList vs =>
      (N.of_nat depth <? max_depth limits)%N && forallb (wf_value limits (S depth)) vs
  | ResultList rs =>
      (N.of_nat depth <? max_depth limits)%N && negb (bool_decide (rs = [])) &&
      forallb (fun r => ident (name r) && wf_value limits (S depth) (value r)) rs
  end.

Definition wf_result (limits : MiLimits) (depth : nat) (r : MiResult) : bool :=
  ident (name r) && wf_value limits depth (value r).

Definition wf_token (t : option N) : bool :=
  match t with Some n => (n <=? U64_MAX)%N | None => true end.

Definition wf_record (limits : MiLimits) (r : MiRecord) : bool :=
  match r with
  | RResult t c rs | ExecAsync t c rs | StatusAsync t c rs | NotifyAsync t c rs =>
      wf_token t && ident c && forallb (wf_result limits 0) rs
  | ConsoleStream b | TargetStream b | LogStream b =>
      (lenN b <=? max_decoded_string_bytes limits)%N
  | Prompt => true
  end.

Section Safety.
Context (input : bytes) (limits : MiLimits).
Context (Hinput : (lenN input <= U64_MAX)%N).

Definition post {A} (Q : A -> nat -> Prop) (r : outcome MiError (A * nat)) : Prop :=
  match r with
  | Done (a, off) => Q a off
  | Fail _ => True
  | Panic | OutOfFuel => False
  end.

Lemma post_bind {A B} (Q : A -> nat -> Prop) (R : B -> nat -> Prop) r
    (f : A * nat -> outcome MiError (B * nat)) :
  post Q r -> (forall a off, Q a off -> post R (f (a, off))) -> post R (r ≫= f).
Proof. destruct r as [[a o]|e| |]; cbn; auto. Qed.

Lemma post_unexpected {A} (Q : A -> nat -> Prop) s off :
  post Q (unexpected input s off).
Proof. done. Qed.

(** A parser that consumes input and stays inside it. *)
Abbreviation consumed off off' := (off < off' /\ off' <= length input).
Definition advances {A} (Q : A -> Prop) (off : nat) : outcome MiError (A * nat) -> Prop :=
  post (fun a off' => consumed off off' /\ Q a).

Lemma advances_weaken {A} (Q : A -> Prop) off off' r :
  off <= off' -> advances Q off' r -> advances Q off r.
Proof. intros ?. destruct r as [[a o]|e| |]; cbn; naive_solver lia. Qed.

Lemma advances_bind {A B} (Q : A -> Prop) (R : B -> nat -> Prop) off r
    (f : A * nat -> outcome MiError (B * nat)) :
  advances Q off r -> (forall a off', consumed off off' -> Q a -> post R (f (a, off'))) ->
  post R (r ≫= f).
Proof. destruct r as [[a o]|e| |]; cbn; naive_solver. Qed.

Lemma peek_lt off c : peek input off = Some c -> off < length input.
Proof. apply lookup_lt_Some. Qed.

Lemma peek_is_true c off : peek_is input c off = true <-> peek input off = Some c.
Proof.
  unfold peek_is. destruct (peek input off) as [b|]; [|done].
  rewrite Ascii.eqb_eq. naive_solver.
Qed.

Lemma take_byte_post s off :
  post (fun c off' => off' = S off /\ peek input off = Some c) (take_byte input s off).
Proof. unfold take_byte. destruct (peek input off) eqn:E; done. Qed.

Lemma expect_bind {B} c s off (R : B -> nat -> Prop) f :
  (peek input off = Some c -> post R (f (S off))) ->
  post R (expect input c s off ≫= f).
Proof.
  unfold expect. destruct (peek_is input c off) eqn:E; [|done].
  apply peek_is_true in E. auto.
Qed.

Lemma check_depth_bind {B} depth (R : B -> nat -> Prop) f :
  ((N.of_nat depth < max_depth limits)%N -> post R (f tt)) ->
  post R (check_depth limits depth ≫= f).
Proof. unfold check_depth. intros H. destruct (N.leb_spec (max_depth limits) (N.of_nat depth)); cbn; auto. Qed.

Lemma slice_from_bind {B} off (R : B -> nat -> Prop) f :
  off <= length input -> post R (f (drop off input)) ->
  post R (slice_from input off ≫= f).
Proof. intros Ho Hf. unfold slice_from. by rewrite bool_decide_eq_false_2 by lia. Qed.

(** ** Identifier loops *)

Definition idents (start stop : nat) : Prop :=
  Forall (fun c => identifier_byte c = true) (take (stop - start) (drop start input)).

Lemma idents_refl off : idents off off.
Proof. unfold idents. rewrite Nat.sub_diag. constructor. Qed.

Lemma idents_extend start stop c :
  start <= stop -> input !! stop = Some c -> identifier_byte c = true ->
  idents start stop -> idents start (S stop).
Proof.
  unfold idents. intros Hle Hc Hid H.
  replace (S stop - start) with (S (stop - start)) by lia.
  rewrite (take_S_r _ _ c), Forall_app; [by repeat constructor|].
  rewrite lookup_drop. by replace (start + (stop - start)) with stop by lia.
Qed.

Lemma name_loop_post off off0 l :
  l = drop off input -> off0 <= off <= length input -> idents off0 off ->
  match name_loop input l off with
  | Done off' => off <= off' <= length input /\ idents off0 off'
  | Fail _ => True
  | _ => False
  end.
Proof.
  revert off. induction l as [|c l IH]; intros off Hl Ho Hid; cbn; [auto with lia|].
  destruct (Ascii.eqb_spec c "=") as [|_]; [auto with lia|].
  destruct (identifier_byte c) eqn:Ec; [|done].
  destruct (drop_lookup _ _ _ _ (eq_sym Hl)) as [Hc Hd].
  pose proof (lookup_lt_Some _ _ _ Hc).
  pose proof (idents_extend off0 off c ltac:(lia) Hc Ec Hid).
  specialize (IH (S off)). case_match; naive_solver lia.
Qed.

Lemma class_loop_post off off0 l :
  l = drop off input -> off0 <= off <= length input -> idents off0 off ->
  match class_loop input l off with
  | Done off' => off <= off' <= length input /\ idents off0 off'
  | Fail _ => True
  | _ => False
  end.
Proof.
  revert off. induction l as [|c l IH]; intros off Hl Ho Hid; cbn; [auto with lia|].
  destruct (Ascii.eqb_spec c ",") as [|_]; [auto with lia|].
  destruct (identifier_byte c) eqn:Ec; [|done].
  destruct (drop_lookup _ _ _ _ (eq_sym Hl)) as [Hc Hd].
  pose proof (lookup_lt_Some _ _ _ Hc).
  pose proof (idents_extend off0 off c ltac:(lia) Hc Ec Hid).
  specialize (IH (S off)). case_match; naive_solver lia.
Qed.

Lemma ident_between off off' :
  off < off' <= length input ->
  idents off off' -> ident (text_between input off off') = true.
Proof.
  intros Ho Hid. unfold ident, text_between. rewrite bytes_of_string_of.
  apply andb_true_iff. split.
  - apply negb_true_iff, bool_decide_eq_false. intros E.
    apply (f_equal (fun s => length (bytes_of s))) in E.
    rewrite bytes_of_string_of, length_take, length_drop in E. cbn in E. lia.
  - apply forallb_forall. intros c Hc%list_elem_of_In. by eapply Forall_forall in Hid.
Qed.

(** ** C strings *)

Lemma hex_loop_off l v d off :
  l = drop off input -> off <= length input ->
  (hex_loop l v d off).2 + d = (hex_loop l v d off).1.2 + off /\
  off <= (hex_loop l v d off).2 <= length input.
Proof.
  revert v d off. induction l as [|c l IH]; intros v d off Hl Ho; cbn; [lia|].
  destruct (hex_digit c); cbn; [|lia].
  destruct (drop_lookup _ _ _ _ (eq_sym Hl)) as [Hc Hd].
  apply lookup_lt_Some in Hc.
  destruct (IH (u8_wrapping (u8_wrapping (v * 16) + n)) (S d) (S off)); auto with lia.
Qed.

Lemma octal_loop_off n l v off :
  l = drop off input -> off <= length input ->
  off <= (octal_loop n l v off).2 <= length input.
Proof.
  revert l v off. induction n as [|n IH]; intros [|c l] v off Hl Ho; cbn; try lia.
  destruct (is_octal c); cbn; [|lia].
  destruct (drop_lookup _ _ _ _ (eq_sym Hl)) as [Hc Hd].
  apply lookup_lt_Some in Hc.
  specialize (IH l (u8_wrapping (u8_wrapping (v * 8) + (byte_N c - 48))) (S off)).
  lapply IH; [|done]. auto with lia.
Qed.

Lemma escape_advances decoded off :
  advances (fun d => exists c, d = decoded ++ [c]) off (escape input decoded off).
Proof.
  unfold escape. eapply post_bind; [apply take_byte_post|].
  intros c off' [-> Hc]. pose proof (peek_lt _ _ Hc).
  cbn -[hex_loop octal_loop].
  repeat (case_match; [cbn; by eauto with lia|]).
  case_match.
  { pose proof (hex_loop_off (drop (S off) input) 0 0 (S off) eq_refl ltac:(lia)) as Hh.
    destruct (hex_loop _ _ _ _) as [[v d] stop]. cbn in Hh.
    case_bool_decide; cbn; [done|]. by eauto with lia. }
  case_match; [|cbn; by eauto with lia].
  pose proof (octal_loop_off 2 (drop (S off) input) (byte_N c - 48) (S off) eq_refl ltac:(lia)) as Hh.
  destruct (octal_loop _ _ _ _) as [v stop]. cbn in *. by eauto with lia.
Qed.

(** The byte after a span cut at the budget, when the span holds no special
    byte and fits the budget: there is none, the input ends there. *)
Lemma span_to_the_end off budget :
  off <= length input ->
  let n := N.to_nat (N.min (lenN (drop off input)) (u64_saturating_add budget 1)) in
  (N.of_nat (length (take n (drop off input))) <= budget)%N ->
  peek input (off + length (take n (drop off input))) = None.
Proof using Hinput.
  cbn. unfold lenN, u64_saturating_add, peek in *. intros Ho.
  rewrite length_take, length_drop. intros Hb. apply lookup_ge_None. lia.
Qed.

Lemma c_string_loop_advances fuel decoded off :
  off <= length input -> length input - off < fuel ->
  (lenN decoded <= max_decoded_string_bytes limits)%N ->
  advances (fun d => (lenN d <= max_decoded_string_bytes limits)%N) off
    (c_string_loop input limits fuel decoded off).
Proof.
  revert decoded off. induction fuel as [|fuel IH]; intros decoded off Ho Hf Hd; [lia|].
  cbn -[take]. set (max := max_decoded_string_bytes limits) in *.
  destruct (N.ltb_spec max (lenN decoded)) as [?|_]; [lia|].
  apply slice_from_bind; [done|].
  set (n := N.to_nat _).
  set (remaining := take n (drop off input)).
  set (plain := default (length remaining) (position c_special remaining)).
  destruct (N.ltb_spec (max - lenN decoded) (N.of_nat plain)) as [?|Hplain]; [done|].
  assert (plain <= length remaining) as Hle.
  { subst plain. destruct (position _ _) as [m|] eqn:E; [|done].
    apply position_Some in E as (k & x & r & -> & <- & _). rewrite length_app. cbn. lia. }
  assert (length remaining <= length input - off) as Hrem
    by (subst remaining; rewrite length_take, length_drop; lia).
  eapply post_bind; [apply take_byte_post|]. intros c off' [-> Hc].
  pose proof (peek_lt _ _ Hc).
  assert (lenN (decoded ++ take plain remaining) <= max)%N as Hnew.
  { rewrite lenN_app. unfold lenN at 2. rewrite length_take. lia. }
  destruct (Ascii.eqb_spec c DQUOTE) as [->|Hq]; [cbn; auto with lia|].
  destruct (Ascii.eqb_spec c BACKSLASH) as [->|Hb].
  { eapply post_bind; [apply escape_advances|]. intros d off' [Hoff _].
    destruct (N.ltb_spec max (lenN d)); [done|].
    eapply advances_weaken; [|apply IH; [lia..|done]]. lia. }
  destruct (_ || _) eqn:Enl; [done|]. exfalso.
  apply orb_false_iff in Enl as [Hlf Hcr].
  assert (c_special c = true) as Hs; [|unfold c_special in Hs; rewrite Hlf, Hcr, !orb_false_r in Hs;
    apply orb_true_iff in Hs as [?%Ascii.eqb_eq|?%Ascii.eqb_eq]; done].
  subst plain. destruct (position c_special remaining) as [m|] eqn:E; cbn in *.
  - apply position_Some in E as (k & x & r & Hk & Hlen & Hx & _).
    enough (peek input (off + m) = Some x) by congruence.
    unfold peek. rewrite <-lookup_drop.
    rewrite <-(lookup_take_lt _ n), <-Hlen.
    + fold remaining. by rewrite Hk, list_lookup_middle.
    + assert (length remaining <= n) by (subst remaining; rewrite length_take; lia).
      rewrite Hk, length_app in H0. cbn in H0. lia.
  - subst remaining n. rewrite span_to_the_end in Hc; done.
Qed.

Lemma c_string_advances off :
  advances (fun d => (lenN d <= max_decoded_string_bytes limits)%N) off
    (c_string input limits off).
Proof.
  unfold c_string. apply expect_bind. intros Hc%peek_lt.
  eapply advances_weaken; [|apply c_string_loop_advances; [lia..|apply N.le_0_l]]. lia.
Qed.

(** ** Values *)

Lemma separated_advances {A} (Q : A -> Prop) element fuel off :
  (forall o, off <= o <= length input -> advances Q o (element o)) ->
  off <= length input -> length input - off < fuel ->
  advances (fun xs => xs <> [] /\ Forall Q xs) off (separated input element fuel off).
Proof.
  revert off. induction fuel as [|fuel IH]; intros off Hel Ho Hf; [lia|]. cbn.
  eapply post_bind; [by apply Hel; lia|]. intros x off' [[??] Hx].
  destruct (peek_is input "," off') eqn:E.
  - apply peek_is_true, peek_lt in E.
    eapply post_bind; [apply IH; [intros; apply Hel; lia|lia..]|].
    intros xs off'' [[??] [_ ?]]. cbn. split; [lia|]. by auto.
  - cbn. auto with lia.
Qed.

Lemma legacy_script_advances depth off :
  advances (fun v => wf_value limits depth v = true) off (legacy_script input limits depth off).
Proof using Hinput.
  apply check_depth_bind. intros Hdepth. apply expect_bind. intros Hc%peek_lt.
  eapply post_bind.
  { apply (separated_advances (fun v => exists b, v = Const b /\
      (lenN b <= max_decoded_string_bytes limits)%N)); [|lia..].
    intros o _. eapply post_bind; [apply c_string_advances|]. cbn. naive_solver. }
  intros vs off' [[??] [_ Hvs]]. apply expect_bind. intros Hc'%peek_lt. cbn.
  split; [lia|]. apply andb_true_iff. split; [by apply N.ltb_lt|].
  apply forallb_forall. intros v Hv%list_elem_of_In.
  eapply Forall_forall in Hvs as (b & -> & Hb); [|done]. by apply N.leb_le.
Qed.

Lemma result_advances value depth off :
  (forall o, off < o -> o <= length input ->
     advances (fun v => wf_value limits depth v = true) o (value depth o)) ->
  advances (fun r => wf_result limits depth r = true) off
    (result input limits value depth off).
Proof using Hinput.
  intros Hval. unfold result. destruct (decide (off <= length input)) as [Ho|Ho].
  2:{ rewrite drop_ge by lia. cbn. by rewrite bool_decide_eq_true_2. }
  pose proof (name_loop_post off off _ eq_refl ltac:(lia) (idents_refl off)) as Hn.
  destruct (name_loop _ _ _) as [off'|e| |]; try done. destruct Hn as [Hle Hid]. cbn.
  destruct (_ || _) eqn:E; [done|]. apply orb_false_iff in E as [E1 E2].
  apply bool_decide_eq_false in E1. apply negb_false_iff, peek_is_true, peek_lt in E2.
  apply slice_from_bind; [lia|].
  eapply advances_bind with (off := S off') (Q := fun v => wf_value limits depth v = true).
  { destruct (_ && _); [apply legacy_script_advances|apply Hval; lia]. }
  intros v off'' ? Hv. split; [lia|]. unfold wf_result. cbn.
  rewrite ident_between by (done || lia). done.
Qed.

Lemma wf_results_forallb depth rs :
  Forall (fun r => wf_result limits depth r = true) rs ->
  forallb (fun r => ident (name r) && wf_value limits depth (value r)) rs = true.
Proof.
  intros H. apply forallb_forall. intros r Hr%list_elem_of_In.
  by eapply Forall_forall in H.
Qed.

Lemma tuple_advances value depth off :
  (forall o, off < o -> o <= length input ->
     advances (fun v => wf_value limits (S depth) v = true) o (value (S depth) o)) ->
  advances (fun v => wf_value limits depth v = true) off
    (tuple input limits value depth off).
Proof using Hinput.
  intros Hval. apply check_depth_bind. intros Hdepth. apply expect_bind. intros Hc%peek_lt.
  eapply post_bind with (Q := fun rs o => off < o <= length input /\
    Forall (fun r => wf_result limits (S depth) r = true) rs).
  - destruct (peek_is input "}" (S off)) eqn:E; [by split; [lia|]|].
    pose proof (separated_advances (fun r => wf_result limits (S depth) r = true)
      (result input limits value (S depth)) (S (length input)) (S off)) as Hsep.
    lapply Hsep; [intros Hsep'; specialize (Hsep' ltac:(lia) ltac:(lia)); revert Hsep'|].
    + destruct (separated _ _ _ _) as [[rs o]|e| |]; cbn; naive_solver lia.
    + intros o ?. apply result_advances. intros; apply Hval; lia.
  - intros rs o [? Hrs]. apply expect_bind. intros Hc'%peek_lt. split; [lia|]. cbn.
    apply andb_true_iff. split; [by apply N.ltb_lt|]. by apply wf_results_forallb.
Qed.

Lemma list_value_advances value depth off :
  (forall o, off < o -> o <= length input ->
     advances (fun v => wf_value limits (S depth) v = true) o (value (S depth) o)) ->
  advances (fun v => wf_value limits depth v = true) off
    (list_value input limits value depth off).
Proof using Hinput.
  intros Hval. apply check_depth_bind. intros Hdepth. apply expect_bind. intros Hc%peek_lt.
  apply N.ltb_lt in Hdepth.
  destruct (peek_is input "]" (S off)) eqn:E.
  { apply peek_is_true, peek_lt in E. cbn. rewrite Hdepth. auto with lia. }
  destruct (looks_like_result input (S off)).
  - eapply advances_bind; [apply separated_advances; [|lia..]|].
    + intros o ?. apply result_advances. intros; apply Hval; lia.
    + intros rs o ? [Hne Hrs]. apply expect_bind. intros Hc'%peek_lt. split; [lia|]. cbn.
      rewrite Hdepth, bool_decide_eq_false_2 by done. by apply wf_results_forallb.
  - eapply advances_bind; [apply separated_advances; [|lia..]|].
    + intros o ?. apply Hval; lia.
    + intros vs o ? [Hne Hvs]. apply expect_bind. intros Hc'%peek_lt. split; [lia|]. cbn.
      rewrite Hdepth. apply forallb_forall. intros v Hv%list_elem_of_In.
      by eapply Forall_forall in Hvs.
Qed.

Lemma value_at_advances fuel depth off :
  length input - off < fuel ->
  advances (fun v => wf_value limits depth v = true) off (value_at input limits fuel depth off).
Proof using Hinput.
  revert depth off. induction fuel as [|fuel IH]; intros depth off Hf; [lia|]. cbn.
  destruct (peek input off) as [c|] eqn:Hc; [|done]. apply peek_lt in Hc.
  destruct (Ascii.eqb_spec c DQUOTE).
  { eapply advances_bind; [apply c_string_advances|]. intros b o ? Hb. cbn.
    split; [lia|]. by apply N.leb_le. }
  destruct (Ascii.eqb_spec c "{"); [apply tuple_advances; intros; apply IH; lia|].
  destruct (Ascii.eqb_spec c "["); [apply list_value_advances; intros; apply IH; lia|].
  done.
Qed.

(** ** Records *)

Lemma result_at_advances depth off :
  advances (fun r => wf_result limits depth r = true) off (result_at input limits depth off).
Proof using Hinput. apply result_advances. intros. apply value_at_advances. lia. Qed.

Lemma results_loop_post fuel off :
  off <= length input -> length input - off < fuel ->
  post (fun rs o => off <= o <= length input /\ forallb (wf_result limits 0) rs = true)
    (results_loop input limits fuel off).
Proof using Hinput.
  revert off. induction fuel as [|fuel IH]; intros off Ho Hf; [lia|]. cbn.
  destruct (peek_is input "," off) eqn:E; [|cbn; auto with lia].
  eapply advances_bind; [apply result_at_advances|]. intros r o ? Hr.
  eapply post_bind; [apply IH; lia|]. intros rs o' [? Hrs]. cbn.
  split; [lia|]. by rewrite Hr, Hrs.
Qed.

Lemma class_and_results_post off :
  off <= length input ->
  post (fun cr _ => ident cr.1 = true /\ forallb (wf_result limits 0) cr.2 = true)
    (class_and_results input limits off).
Proof using Hinput.
  intros Ho. unfold class_and_results.
  pose proof (class_loop_post off off _ eq_refl ltac:(lia) (idents_refl off)) as Hn.
  destruct (class_loop _ _ _) as [off'|e| |]; try done. destruct Hn as [Hle Hid].
  cbn -[results_loop].
  case_bool_decide; [done|]. eapply post_bind; [apply results_loop_post; lia|].
  intros rs o [? Hrs]. cbn. split; [|done]. apply ident_between; [lia|done].
Qed.

Lemma span_len_le p l : span_len p l <= length l.
Proof. induction l as [|c l IH]; cbn; [lia|]. destruct (p c); lia. Qed.

Lemma radix_digits_le max radix acc b n :
  (acc <= max)%N -> radix_digits max radix acc b = Some n -> (n <= max)%N.
Proof.
  revert acc. induction b as [|c b IH]; intros acc Ha; cbn; [by intros [= <-]|].
  destruct (digit_value radix c); cbn; [|done].
  destruct (N.leb_spec (acc * radix + n0) max); [|done]. by apply IH.
Qed.

Lemma parse_u64_le b n : parse_u64 b = Some n -> (n <= U64_MAX)%N.
Proof.
  unfold parse_u64, from_str_radix. destruct b as [|c b]; [done|].
  case_match; [destruct b as [|c' b']; [done|]|]; apply radix_digits_le; done.
Qed.

Lemma token_post :
  post (fun t o => o <= length input /\ wf_token t = true) (token input 0).
Proof.
  unfold token. rewrite drop_0. cbn. pose proof (span_len_le is_ascii_digit input).
  case_bool_decide; cbn; [auto with lia|].
  destruct (_ ≫= _) as [n|] eqn:E; cbn; [|done].
  apply bind_Some in E as (s & _ & Hp%parse_u64_le).
  split; [lia|]. by apply N.leb_le.
Qed.

Lemma record_post :
  match record input limits with
  | Done r => wf_record limits r = true
  | Fail _ => True
  | _ => False
  end.
Proof using Hinput.
  unfold record. pose proof token_post as Ht.
  destruct (token input 0) as [[t off]|e| |]; try done. destruct Ht as [Ho Ht]. cbn.
  unfold take_byte. destruct (peek input off) as [c|] eqn:Hc; [|done]. apply peek_lt in Hc. cbn.
  set (body := if (c =? "^")%char then _ else _).
  assert (post (fun r _ => wf_record limits r = true) body) as Hbody.
  { subst body. pose proof (class_and_results_post (S off) ltac:(lia)) as Hcr.
    pose proof (c_string_advances (S off)) as Hcs.
    repeat case_match; cbn; try done.
    1-4: eapply post_bind; [exact Hcr|]; intros [class rs] o [Hid Hrs]; cbn in *;
      by rewrite Ht, Hid, Hrs.
    all: eapply post_bind; [exact Hcs|]; intros b o [_ Hb]; cbn; by apply N.leb_le. }
  destruct body as [[r o]|e| |]; cbn in *; try done. by case_bool_decide.
Qed.
End Safety.

(** ** Properties *)

Lemma parse_record_post (input : bytes) (limits : MiLimits) :
  (max_record_bytes limits <= U64_MAX)%N ->
  match parse_record input limits with
  | Done r => wf_record limits r = true
  | Fail _ => True
  | _ => False
  end.
Proof.
  intros Hmax. unfold parse_record. destruct input as [|c rest]; [done|].
  destruct (N.ltb_spec (max_record_bytes limits) (lenN (c :: rest))) as [?|Hle]; [done|].
  case_bool_decide; [done|]. exact (record_post (c :: rest) limits ltac:(lia)).
Qed.

(** C28: Parsing always settles: for every input and every limits (a [usize]
    record limit), [parse_record] returns a record or an [MiAst]; no slice
    is out of range, the decoded-budget subtraction never underflows, no
    [unreachable!] is reached, and no loop or recursion runs on. *)
Theorem parse_record_is_total (input : bytes) (limits : MiLimits) :
  (max_record_bytes limits <= U64_MAX)%N -> settles (parse_record input limits).
Proof.
  intros Hmax. pose proof (parse_record_post input limits Hmax).
  by destruct (parse_record input limits).
Qed.

Lemma parse_record_is_total_witness :
  settles (parse_record (bytes_of "^done,a={b=[") MiLimits_default).
Proof. apply (parse_record_is_total (bytes_of "^done,a={b=[") MiLimits_default). by vm_compute. Defined.

(** What the parser returns respects its limits: a returned record has
    non-empty identifier names, nesting below the depth limit, decoded
    strings within the string limit, and a token that fits [u64]. *)
Theorem parse_record_is_bounded (input : bytes) (limits : MiLimits) (r : MiRecord) :
  (max_record_bytes limits <= U64_MAX)%N ->
  parse_record input limits = Done r -> wf_record limits r = true.
Proof.
  intros Hmax E. pose proof (parse_record_post input limits Hmax) as H. by rewrite E in H.
Qed.

Lemma parse_record_is_bounded_witness :
  wf_record MiLimits_default (RResult (Some 7%N) "done" [MkMiResult "x" (ResultList [MkMiResult "y" (Tuple [])])]) = true.
Proof.
  apply (parse_record_is_bounded (bytes_of "7^done,x=[y={}]")); vm_compute; [done|reflexivity].
Defined.
