(* ===== verification/MiRoundtrip.v ===== *)
(** * MiRoundtrip: parsing inverts printing

    A reference printer for the MI grammar, with C strings quoted by the
    program's own [quote_c_string].  The parser reconstructs every
    well-formed record from its printed form, so nothing of a record is lost
    or confused: duplicate fields, value lists against result lists, nesting
    and every byte of every string survive. *)

From S2P Require Import Prelude Text MiAst MiParser MiParserSafety.

#[local] Set Default Proof Using "Type".

(** ** The reference printer *)

Section comma.
Context {A : Type} (f : A -> bytes).
Fixpoint comma (l : list A) : bytes :=
  match l with
  | [] => []
  | [x] => f x
  | x :: r => f x ++ ","%char :: comma r
  end.
End comma.

Fixpoint print_value (v : MiValue) : bytes :=
  match v with
  | Const b => quote_c_string b
  | Tuple rs =>
      "{"%char :: comma (fun r => bytes_of (name r) ++ "="%char :: print_value (value r)) rs
      ++ ["}"%char]
  | ValueList vs => "["%char :: comma print_value vs ++ ["]"%char]
  | ResultList rs =>
      "["%char :: comma (fun r => bytes_of (name r) ++ "="%char :: print_value (value r)) rs
      ++ ["]"%char]
  end.

Definition print_result (r : MiResult) : bytes :=
  bytes_of (name r) ++ "="%char :: print_value (value r).

Definition print_async (prefix : ascii) (t : option N) (class : string) (rs : list MiResult)
  : bytes :=
  match t with Some n => bytes_of (dec n) | None => [] end ++
  prefix :: bytes_of class ++ (rs ≫= fun r => ","%char :: print_result r).

Definition print_record (r : MiRecord) : bytes :=
  match r with
  | RResult t c rs => print_async "^" t c rs
  | ExecAsync t c rs => print_async "*" t c rs
  | StatusAsync t c rs => print_async "+" t c rs
  | NotifyAsync t c rs => print_async "=" t c rs
  | ConsoleStream b => "~"%char :: quote_c_string b
  | TargetStream b => "@"%char :: quote_c_string b
  | LogStream b => "&"%char :: quote_c_string b
  | Prompt => bytes_of "(gdb)"
  end.

Section Roundtrip.
Context (input : bytes) (limits : MiLimits).

(** The parser stands at [off] in front of [l]. *)
Abbreviation at_ off l := (drop off input = l).

Lemma at_peek off c l : at_ off (c :: l) -> peek input off = Some c /\ at_ (S off) l.
Proof. apply drop_lookup. Qed.

Lemma at_peek_is off c l d : at_ off (c :: l) -> peek_is input d off = (c =? d)%char.
Proof. intros [H _]%at_peek. unfold peek_is. by rewrite H. Qed.

Lemma at_app off k l : at_ off (k ++ l) -> at_ (off + length k) l.
Proof. apply drop_app_at. Qed.

Lemma at_slice off l : l <> [] -> at_ off l -> slice_from input off = Done l.
Proof.
  intros Hne H. unfold slice_from.
  rewrite bool_decide_eq_false_2; [by rewrite H|].
  intros Hlt. rewrite drop_ge in H by lia. by subst.
Qed.

Lemma at_expect off c s l : at_ off (c :: l) -> expect input c s off = Done (S off).
Proof. intros H. unfold expect. by rewrite (at_peek_is _ _ _ _ H), Ascii.eqb_refl. Qed.

Lemma at_take off s c l : at_ off (c :: l) -> take_byte input s off = Done (c, S off).
Proof. intros [H _]%at_peek. unfold take_byte. by rewrite H. Qed.

Lemma at_length off l : l <> [] -> at_ off l -> length input = off + length l.
Proof.
  intros Hne H. apply (f_equal length) in H. rewrite length_drop in H.
  destruct l; [done|]. cbn in *. lia.
Qed.

(** ** C strings *)

(** Bytes the quoter leaves alone. *)
Definition plain (c : ascii) : bool := printable c && negb (c_special c).

Lemma quote_byte_plain c : plain c = true -> quote_byte c = [c].
Proof.
  intros Hp. apply (bool_decide_eq_true (quote_byte c = [c])). revert Hp. apply implb_true_iff.
  revert c. apply byte_check. by vm_compute.
Qed.

Definition octal_value (o1 o2 o3 : ascii) : N :=
  u8_wrapping (u8_wrapping (u8_wrapping (u8_wrapping ((byte_N o1 - 48) * 8) + (byte_N o2 - 48)) * 8)
               + (byte_N o3 - 48)).

Lemma escape_octal o1 o2 o3 rest decoded off :
  is_octal o1 = true -> is_octal o2 = true -> is_octal o3 = true ->
  at_ off (o1 :: o2 :: o3 :: rest) ->
  escape input decoded off = Done (decoded ++ [ascii_of_N (octal_value o1 o2 o3)], off + 3).
Proof.
  intros H1 H2 H3 Hat. unfold escape. erewrite at_take by done. apply at_peek in Hat as [_ Hat].
  cbn -[octal_loop is_octal byte_N].
  repeat match goal with
  | |- context [ (o1 =? ?d)%char ] =>
      destruct (Ascii.eqb_spec o1 d) as [->|_]; [discriminate H1|]
  end.
  rewrite H1, Hat. cbn [octal_loop]. rewrite H2. cbn [octal_loop]. rewrite H3.
  by replace (off + 3) with (S (S (S off))) by lia.
Qed.

(** The five short escapes of the quoter. *)
Definition short_escape (c : ascii) : option ascii :=
  if (c =? BACKSLASH)%char then Some BACKSLASH
  else if (c =? DQUOTE)%char then Some DQUOTE
  else if (c =? LF)%char then Some "n"%char
  else if (c =? CR)%char then Some "r"%char
  else if (c =? TAB)%char then Some "t"%char
  else None.

Lemma escape_short c e rest decoded off :
  short_escape c = Some e -> at_ off (e :: rest) ->
  escape input decoded off = Done (decoded ++ [c], S off).
Proof.
  intros Hs Hat. unfold escape. erewrite at_take by done. cbn.
  unfold short_escape in Hs. repeat case_match; simplify_eq/=.
  all: repeat match goal with H : (_ =? _)%char = true |- _ => apply Ascii.eqb_eq in H as -> end.
  all: done.
Qed.

(** The shape of the quotation of one byte, decided over the 256 bytes. *)
Lemma quote_byte_shape c :
  plain c = true \/
  (exists e, short_escape c = Some e /\ quote_byte c = [BACKSLASH; e]) \/
  (exists o1 o2 o3, quote_byte c = [BACKSLASH; o1; o2; o3] /\ is_octal o1 = true /\
     is_octal o2 = true /\ is_octal o3 = true /\ ascii_of_N (octal_value o1 o2 o3) = c).
Proof.
  pose (shape := fun c =>
    plain c ||
    match short_escape c with
    | Some e => bool_decide (quote_byte c = [BACKSLASH; e])
    | None => false
    end ||
    match quote_byte c with
    | [b; o1; o2; o3] => (b =? BACKSLASH)%char && is_octal o1 && is_octal o2 && is_octal o3 &&
        (ascii_of_N (octal_value o1 o2 o3) =? c)%char
    | _ => false
    end).
  assert (shape c = true) as Hs by (apply byte_check; by vm_compute).
  unfold shape in Hs. apply orb_true_iff in Hs as [Hs|Hs]; [apply orb_true_iff in Hs as [?|Hs]|].
  - by left.
  - right; left. destruct (short_escape c) as [e|]; [|done].
    apply bool_decide_eq_true in Hs. by exists e.
  - right; right. destruct (quote_byte c) as [|b [|o1 [|o2 [|o3 [|??]]]]]; try done.
    repeat (apply andb_true_iff in Hs as [Hs ?]). apply Ascii.eqb_eq in Hs as ->.
    exists o1, o2, o3. split_and!; try done. by apply Ascii.eqb_eq.
Qed.

Lemma escape_quoted c rest decoded off :
  plain c = false -> at_ off (quote_byte c ++ rest) ->
  peek input off = Some BACKSLASH /\
  escape input decoded (S off) = Done (decoded ++ [c], off + length (quote_byte c)).
Proof.
  intros Hp Hat.
  destruct (quote_byte_shape c) as [?|[(e & He & Hq)|(o1 & o2 & o3 & Hq & H1 & H2 & H3 & Hv)]];
    [congruence|..]; rewrite Hq in *; cbn in Hat; apply at_peek in Hat as [Hb Hat].
  - split; [done|]. rewrite (escape_short c e rest) by done. cbn. do 2 f_equal. lia.
  - split; [done|]. rewrite (escape_octal o1 o2 o3 rest), Hv by done. cbn. do 2 f_equal. lia.
Qed.

(** A string splits into its longest plain prefix and what follows it. *)
Lemma plain_prefix (v : bytes) :
  exists p w, v = p ++ w /\ Forall (fun c => plain c = true) p /\
    match w with [] => True | c :: _ => plain c = false end.
Proof.
  induction v as [|c v (p & w & -> & Hp & Hw)]; [by exists [], []|].
  destruct (plain c) eqn:E; [by exists (c :: p), w; auto|].
  exists [], (c :: p ++ w). by auto.
Qed.

Lemma quote_plain p : Forall (fun c => plain c = true) p -> p ≫= quote_byte = p.
Proof. induction 1 as [|c p Hc _ IH]; cbn; [done|]. by rewrite quote_byte_plain, IH. Qed.

Lemma plain_not_special p :
  Forall (fun c => plain c = true) p -> Forall (fun c => c_special c = false) p.
Proof.
  intros H. eapply Forall_impl; [exact H|].
  intros c Hp%andb_true_iff. by apply negb_true_iff, Hp.
Qed.

(** One turn of the loop in front of a plain span and a special byte: the
    budget cut keeps the span and that byte. *)
Lemma span_before_special p x l budget :
  Forall (fun c => c_special c = false) p -> c_special x = true ->
  (lenN p <= budget)%N -> (lenN (p ++ x :: l) <= U64_MAX)%N ->
  let remaining := take (N.to_nat (N.min (lenN (p ++ x :: l)) (u64_saturating_add budget 1)))
                     (p ++ x :: l) in
  position c_special remaining = Some (length p) /\ take (length p) remaining = p.
Proof.
  intros Hp Hx Hb Hlen remaining.
  assert (exists l', remaining = p ++ x :: l') as [l' ->].
  { subst remaining. rewrite !lenN_app, !lenN_cons in *. unfold u64_saturating_add, lenN in *.
    rewrite take_app_ge by lia. set (k := N.to_nat _ - _).
    assert (exists k', k = S k') as [k' ->] by (exists (k - 1); lia). cbn. eauto. }
  rewrite position_app_l, take_app_length by done. cbn. rewrite Hx. cbn. by rewrite Nat.add_0_r.
Qed.

Lemma quote_length v : length v <= length (v ≫= quote_byte).
Proof.
  induction v as [|c v IH]; cbn; [done|]. rewrite length_app.
  destruct (quote_byte_shape c) as [Hc|[(e & _ & ->)|(o1 & o2 & o3 & -> & _)]];
    [rewrite (quote_byte_plain c Hc)|..]; cbn; lia.
Qed.


(** ** Identifiers *)

Abbreviation idents l := (Forall (fun c => identifier_byte c = true) l).

Lemma identifier_not c d : identifier_byte c = true -> identifier_byte d = false -> c <> d.
Proof. congruence. Qed.

Lemma name_loop_ident k rest off :
  idents k -> name_loop input (k ++ "="%char :: rest) off = Done (off + length k).
Proof.
  intros Hk. revert off. induction Hk as [|c k Hc _ IH]; intros off; cbn.
  - by rewrite Nat.add_0_r.
  - destruct (Ascii.eqb_spec c "=") as [->|_]; [done|].
    rewrite Hc, IH. f_equal. lia.
Qed.

Lemma class_loop_ident k rest off :
  idents k -> (rest = [] \/ exists r, rest = ","%char :: r) ->
  class_loop input (k ++ rest) off = Done (off + length k).
Proof.
  intros Hk Hrest. revert off. induction Hk as [|c k Hc _ IH]; intros off; cbn.
  - rewrite Nat.add_0_r. by destruct Hrest as [->|[r ->]].
  - destruct (Ascii.eqb_spec c ",") as [->|_]; [done|].
    rewrite Hc, IH. f_equal. lia.
Qed.

Lemma text_between_at k rest off :
  at_ off (k ++ rest) -> text_between input off (off + length k) = string_of k.
Proof.
  intros H. unfold text_between. rewrite H.
  replace (off + length k - off) with (length k) by lia. by rewrite take_app_length.
Qed.

Lemma ident_spec n :
  ident n = true <-> idents (bytes_of n) /\ bytes_of n <> [].
Proof.
  unfold ident. rewrite andb_true_iff, negb_true_iff, bool_decide_eq_false, forallb_forall.
  rewrite Forall_forall. setoid_rewrite list_elem_of_In. split.
  - intros [Hne H]. split; [done|]. intros E. apply Hne.
    by rewrite <-(string_of_bytes_of n), E.
  - intros [H Hne]. split; [|done]. by intros ->.
Qed.

Lemma identifier_not_stop c : identifier_byte c = true -> lookahead_stop c = false.
Proof.
  intros Hc. apply negb_true_iff. revert Hc. apply implb_true_iff.
  revert c. apply byte_check. by vm_compute.
Qed.

Lemma looks_like_ident off k rest :
  idents k -> k <> [] -> at_ off (k ++ "="%char :: rest) ->
  looks_like_result input off = true.
Proof.
  intros Hk Hne Hat. unfold looks_like_result. rewrite Hat.
  match goal with |- ?go _ _ = true =>
    assert (forall n, 0 < n + length k -> go (k ++ "="%char :: rest) n = true) as Hgo end.
  2:{ apply Hgo. destruct k; [done|cbn; lia]. }
  clear Hat Hne. induction Hk as [|c k Hc _ IH]; intros n Hn; cbn.
  - apply bool_decide_eq_true. cbn in Hn. lia.
  - destruct (Ascii.eqb_spec c "=") as [->|_]; [done|].
    rewrite (identifier_not_stop c Hc). apply IH. cbn in Hn. lia.
Qed.

(** ** Lists *)

Lemma comma_length {A} (f : A -> bytes) xs :
  Forall (fun y => f y <> []) xs -> length xs <= length (comma f xs).
Proof.
  induction 1 as [|x xs Hx Hxs IH]; [done|].
  destruct xs as [|y xs]; [cbn; destruct (f x); [done|cbn; lia]|].
  change (comma f (x :: y :: xs)) with (f x ++ ","%char :: comma f (y :: xs)).
  rewrite length_app. cbn -[comma] in *. lia.
Qed.

(** From [off] on, the element parser reads back what [f] prints. *)
Definition parses_at {A} (f : A -> bytes) (element : nat -> outcome MiError (A * nat)) (x : A)
  (off : nat) : Prop :=
  forall o r, off <= o -> at_ o (f x ++ r) -> element o = Done (x, o + length (f x)).

Lemma separated_comma {A} (f : A -> bytes) element fuel x xs c rest off off0 :
  Forall (fun y => parses_at f element y off0) (x :: xs) -> off0 <= off ->
  c <> ","%char -> length xs < fuel ->
  at_ off (comma f (x :: xs) ++ c :: rest) ->
  separated input element fuel off = Done (x :: xs, off + length (comma f (x :: xs))).
Proof.
  intros Hel Hle Hc. revert x Hel off Hle fuel.
  induction xs as [|y xs IH]; intros x Hel off Hle fuel Hf Hat;
    (destruct fuel as [|fuel]; [lia|]); inversion_clear Hel as [|?? Hx Hxs]; cbn -[comma].
  - rewrite (Hx _ _ Hle Hat). apply at_app in Hat. cbn.
    rewrite (at_peek_is _ _ _ _ Hat). by destruct (Ascii.eqb_spec c ",").
  - change (comma f (x :: y :: xs)) with (f x ++ ","%char :: comma f (y :: xs)) in *.
    rewrite <-app_assoc in Hat. cbn -[comma] in Hat.
    rewrite (Hx _ _ Hle Hat). apply at_app in Hat. cbn -[comma].
    rewrite (at_peek_is _ _ _ _ Hat). apply at_peek in Hat as [_ Hat]. cbn -[comma].
    rewrite (IH y Hxs); [|lia|cbn in Hf; lia|done]. cbn -[comma]. do 2 f_equal.
    rewrite length_app. cbn -[comma]. lia.
Qed.

(** The same with the fuel the parser supplies. *)
Lemma separated_input {A} (f : A -> bytes) element x xs c rest off :
  (forall y, f y <> []) ->
  Forall (fun y => parses_at f element y off) (x :: xs) -> c <> ","%char ->
  at_ off (comma f (x :: xs) ++ c :: rest) ->
  separated input element (S (length input)) off =
    Done (x :: xs, off + length (comma f (x :: xs))).
Proof.
  intros Hne Hel Hc Hat. eapply separated_comma; [done..| |done].
  pose proof (comma_length f (x :: xs)) as Hl. cbn -[comma] in Hl.
  apply at_length in Hat; [|by intros [_ ?]%app_eq_nil]. rewrite length_app in Hat.
  lapply Hl; [lia|]. by apply Forall_true.
Qed.

Lemma print_value_cons v : exists c r, print_value v = c :: r /\
  (c = DQUOTE \/ c = "{"%char \/ c = "["%char).
Proof. destruct v; cbn; eexists _, _; eauto. Qed.

Lemma print_result_ne r : print_result r <> [].
Proof. unfold print_result. by intros [_ ?]%app_eq_nil. Qed.

(** ** Values, results and records *)

Lemma not_legacy_script depth v rest :
  wf_value limits depth v = true ->
  starts_with ["{"%char; DQUOTE] (print_value v ++ rest) = false.
Proof.
  intros Hwf. unfold starts_with.
  destruct (strip_prefix _ _) as [r'|] eqn:Hs; [|done].
  apply strip_prefix_Some in Hs. destruct v as [b|rs|vs|rs]; try done. cbn in Hwf, Hs.
  apply andb_true_iff in Hwf as [_ Hwf].
  destruct rs as [|r rs]; [done|]. cbn in Hwf.
  apply andb_true_iff in Hwf as [Hr _]. apply andb_true_iff in Hr as [Hid _].
  apply ident_spec in Hid as [Hid Hne].
  destruct (bytes_of (name r)) as [|c k] eqn:E; [done|].
  inversion_clear Hid as [|?? Hc _].
  destruct rs; cbn in Hs; rewrite E in Hs; by simplify_eq/=.
Qed.

Lemma result_parses value depth r off :
  wf_result limits depth r = true ->
  parses_at print_value (value depth) (MiAst.value r) off ->
  parses_at print_result (result input limits value depth) r off.
Proof.
  intros [Hid Hwf]%andb_true_iff Hval o rest Ho Hat. apply ident_spec in Hid as [Hid Hne].
  unfold print_result, result in *. rewrite <-app_assoc in Hat. cbn in Hat.
  rewrite Hat at 1. rewrite name_loop_ident by done. cbn -[bool_decide].
  pose proof (at_app _ _ _ Hat) as Hat'. rewrite (at_peek_is _ _ _ _ Hat'), Ascii.eqb_refl.
  rewrite bool_decide_eq_false_2 by (destruct (bytes_of (name r)); [done|cbn; lia]).
  cbn -[bool_decide]. apply at_peek in Hat' as [_ Hat'].
  destruct (print_value_cons (MiAst.value r)) as (c & k & Hv & _).
  rewrite (at_slice _ (print_value (MiAst.value r) ++ rest)) by (done || by rewrite Hv).
  cbn -[bool_decide]. rewrite (not_legacy_script depth) by done. rewrite andb_false_r.
  rewrite (Hval _ rest) by (done || lia). cbn -[bool_decide].
  rewrite (text_between_at _ _ _ Hat), string_of_bytes_of.
  destruct r as [nm v]. cbn. do 2 f_equal. rewrite length_app. cbn. lia.
Qed.

Lemma wf_results_elem depth rs :
  forallb (fun r => ident (name r) && wf_value limits depth (value r)) rs = true ->
  Forall (fun r => wf_result limits depth r = true) rs.
Proof.
  intros H. apply Forall_forall. intros r Hr%list_elem_of_In.
  rewrite forallb_forall in H. by apply H.
Qed.

Lemma wf_values_elem depth vs :
  forallb (wf_value limits depth) vs = true ->
  Forall (fun v => wf_value limits depth v = true) vs.
Proof.
  intros H. apply Forall_forall. intros v Hv%list_elem_of_In.
  rewrite forallb_forall in H. by apply H.
Qed.

(** A well-formed result list is read back once its values are. *)
Lemma results_separated value depth r rs c rest off :
  Forall (fun r => wf_result limits depth r = true) (r :: rs) ->
  Forall (fun r => parses_at print_value (value depth) (MiAst.value r) off) (r :: rs) ->
  c <> ","%char -> at_ off (comma print_result (r :: rs) ++ c :: rest) ->
  separated input (result input limits value depth) (S (length input)) off =
    Done (r :: rs, off + length (comma print_result (r :: rs))).
Proof.
  intros Hwf Hval. apply separated_input; [apply print_result_ne|].
  apply Forall_forall. intros y Hy. apply result_parses.
  - by eapply Forall_forall in Hwf.
  - by eapply Forall_forall in Hval.
Qed.

Definition value_parses (v : MiValue) : Prop :=
  forall depth fuel off, wf_value limits depth v = true -> length input < fuel + off ->
  parses_at print_value (value_at input limits fuel depth) v off.

Lemma check_depth_ok depth : (N.of_nat depth < max_depth limits)%N -> check_depth limits depth = Done tt.
Proof. intros ?. unfold check_depth. by destruct (N.leb_spec (max_depth limits) (N.of_nat depth)); [lia|]. Qed.

Lemma at_length_cons off c l : at_ off (c :: l) -> length input = off + S (length l).
Proof. intros H. by apply (at_length off (c :: l)). Qed.

Lemma comma_results_head r rs :
  exists k, comma print_result (r :: rs) = bytes_of (name r) ++ "="%char :: k.
Proof.
  destruct rs; cbn; unfold print_result; [by eexists|].
  rewrite <-app_assoc. cbn. by eexists.
Qed.

Lemma comma_results_peek depth r rs d rest off :
  wf_result limits depth r = true -> identifier_byte d = false ->
  at_ off (comma print_result (r :: rs) ++ rest) -> peek_is input d off = false.
Proof.
  intros [Hid _]%andb_true_iff Hd Hat. apply ident_spec in Hid as [Hid Hne].
  destruct (comma_results_head r rs) as [k Hk]. rewrite Hk in Hat.
  destruct (bytes_of (name r)) as [|c n]; [done|]. inversion_clear Hid.
  rewrite (at_peek_is _ _ _ _ Hat). destruct (Ascii.eqb_spec c d); congruence.
Qed.

Lemma comma_results_look depth r rs rest off :
  wf_result limits depth r = true ->
  at_ off (comma print_result (r :: rs) ++ rest) -> looks_like_result input off = true.
Proof.
  intros [[Hid Hne]%ident_spec _]%andb_true_iff Hat.
  destruct (comma_results_head r rs) as [k Hk]. rewrite Hk, <-app_assoc in Hat.
  by eapply looks_like_ident.
Qed.

(** The values below a container are read back at every later offset. *)
Lemma elements_parse rs depth fuel off :
  Forall (fun r => value_parses (value r)) rs ->
  Forall (fun r => wf_result limits depth r = true) rs -> length input < fuel + off ->
  Forall (fun r => parses_at print_value (value_at input limits fuel depth) (value r) off) rs.
Proof.
  intros Hv Hwf Hf. apply Forall_forall. intros r Hr.
  eapply Forall_forall in Hv; [|done]. eapply Forall_forall in Hwf; [|done].
  apply andb_true_iff in Hwf as [_ ?]. by apply Hv.
Qed.

Lemma at_end off : at_ off [] -> off <= length input -> off = length input.
Proof. intros H Ho. apply (f_equal length) in H. rewrite length_drop in H. cbn in H. lia. Qed.

Lemma at_end_peek off c : at_ off [] -> peek_is input c off = false.
Proof. intros H%drop_nil_lookup. unfold peek_is, peek. by rewrite H. Qed.

Lemma span_len_digits k c r :
  Forall (fun c => is_ascii_digit c = true) k -> is_ascii_digit c = false ->
  span_len is_ascii_digit (k ++ c :: r) = length k.
Proof.
  intros Hk Hc. induction Hk as [|d k Hd _ IH]; cbn; [by rewrite Hc|]. by rewrite Hd, IH.
Qed.

Lemma digit_is_ascii c : is_ascii_digit c = true -> is_ascii c = true.
Proof. apply implb_true_iff. revert c. apply byte_check. by vm_compute. Qed.

Definition token_bytes (t : option N) : bytes :=
  match t with Some n => bytes_of (dec n) | None => [] end.

Lemma token_parses t c r :
  wf_token t = true -> is_ascii_digit c = false -> at_ 0 (token_bytes t ++ c :: r) ->
  token input 0 = Done (t, length (token_bytes t)).
Proof.
  intros Ht Hc Hat. unfold token. rewrite Hat.
  assert (Forall (fun c => is_ascii_digit c = true) (token_bytes t)) as Hd
    by (destruct t; [apply dec_digits|constructor]).
  rewrite span_len_digits by done. cbn -[bool_decide].
  destruct t as [n|]; cbn -[bool_decide dec]; [|by rewrite bool_decide_eq_true_2].
  destruct (dec_cons n) as (d & k & Hdk & _).
  rewrite bool_decide_eq_false_2 by (rewrite Hdk; cbn; lia).
  rewrite Nat.sub_0_r, take_app_length, from_utf8_ascii.
  - cbn -[dec]. rewrite bytes_of_string_of. unfold parse_u64.
    by rewrite parse_dec by by apply N.leb_le.
  - eapply Forall_impl; [exact Hd|]. apply digit_is_ascii.
Qed.
Abbreviation print_fields rs := (rs ≫= fun r => ","%char :: print_result r).

Lemma fields_length rs : length rs <= length (print_fields rs).
Proof. induction rs as [|r rs IH]; cbn; [done|]. rewrite length_app. lia. Qed.

(** Inputs are slices, so their length is a [usize]. *)
Context (Hinput : (lenN input <= U64_MAX)%N).

Lemma at_lenN off l : at_ off l -> (lenN l <= U64_MAX)%N.
Proof using Hinput. intros <-. unfold lenN in *. rewrite length_drop. lia. Qed.

Lemma c_string_loop_quoted fuel decoded v rest off :
  at_ off ((v ≫= quote_byte) ++ DQUOTE :: rest) -> length v < fuel ->
  (lenN decoded + lenN v <= max_decoded_string_bytes limits)%N ->
  c_string_loop input limits fuel decoded off =
    Done (decoded ++ v, off + length (v ≫= quote_byte) + 1).
Proof using Hinput.
  revert decoded v off. induction fuel as [|fuel IH]; intros decoded v off Hat Hf Hmax; [lia|].
  destruct (plain_prefix v) as (p & w & -> & Hp & Hw).
  rewrite bind_app, quote_plain in * by done.
  rewrite lenN_app in Hmax. cbn -[take].
  destruct (N.ltb_spec (max_decoded_string_bytes limits) (lenN decoded)); [lia|].
  rewrite (at_slice off ((p ++ (w ≫= quote_byte)) ++ DQUOTE :: rest)) by
    (done || by intros [_ ?]%app_eq_nil). cbn -[take].
  rewrite <-app_assoc in *.
  assert (exists x l, (w ≫= quote_byte) ++ DQUOTE :: rest = x :: l /\ c_special x = true)
    as (x & l & Hx & Hxs).
  { destruct w as [|c w]; [by eexists _, _|]. cbn.
    destruct (quote_byte_shape c) as [?|[(e & He & ->)|(o1 & o2 & o3 & -> & _)]];
      [congruence|..]; by eexists _, _. }
  pose proof (at_lenN _ _ Hat) as Hlen. rewrite Hx in *.
  destruct (span_before_special p x l (max_decoded_string_bytes limits - lenN decoded)
    (plain_not_special _ Hp) Hxs ltac:(lia) Hlen) as [Hpos Htake].
  rewrite Hpos. cbn [default from_option id]. rewrite Htake. clear Hpos Htake.
  destruct (N.ltb_spec (max_decoded_string_bytes limits - lenN decoded)
              (N.of_nat (length p))) as [?|_]; [unfold lenN in *; lia|].
  apply at_app in Hat. rewrite (at_take _ _ x l Hat). cbn.
  destruct w as [|c w].
  - cbn in Hx. simplify_eq/=. rewrite !app_nil_r. do 2 f_equal. lia.
  - destruct (at_peek _ _ _ Hat) as [Hpk _].
    rewrite <-Hx in Hat. cbn in Hat. rewrite <-app_assoc in Hat.
    destruct (escape_quoted c _ (decoded ++ p) _ Hw Hat) as [Hb He].
    assert (x = BACKSLASH) as -> by congruence. cbn -[escape]. rewrite He.
    apply at_app in Hat. cbn.
    rewrite length_app, !lenN_cons in *. cbn in Hf.
    destruct (N.ltb_spec (max_decoded_string_bytes limits) (lenN ((decoded ++ p) ++ [c])))
      as [Hbad|_]; [rewrite !lenN_app, lenN_cons, lenN_nil in Hbad; lia|].
    rewrite IH with (v := w); [|done|lia|rewrite !lenN_app, lenN_cons, lenN_nil; lia].
    rewrite <-!app_assoc, !length_app. cbn. do 2 f_equal. lia.
Qed.

Lemma c_string_quoted v rest off :
  at_ off (quote_c_string v ++ rest) ->
  (lenN v <= max_decoded_string_bytes limits)%N ->
  c_string input limits off = Done (v, off + length (quote_c_string v)).
Proof using Hinput.
  intros Hat Hmax. unfold c_string, quote_c_string in *. cbn in Hat.
  rewrite (at_expect _ _ _ _ Hat). apply at_peek in Hat as [_ Hat]. cbn -[c_string_loop].
  rewrite <-app_assoc in Hat. cbn in Hat.
  pose proof (quote_length v).
  rewrite c_string_loop_quoted with (v := v) (rest := rest).
  - rewrite !length_app. cbn. do 2 f_equal. lia.
  - done.
  - apply at_length in Hat; [|by intros [_ ?]%app_eq_nil]. rewrite length_app in Hat. lia.
  - rewrite lenN_nil. lia.
Qed.

Lemma tuple_parses rs :
  Forall (fun r => value_parses (value r)) rs -> value_parses (Tuple rs).
Proof using Hinput.
  intros Hrs depth fuel off [Hd%N.ltb_lt Hwf%wf_results_elem]%andb_true_iff Hf o rest Ho Hat.
  change (print_value (Tuple rs)) with ("{"%char :: comma print_result rs ++ ["}"%char]) in *.
  cbn in Hat. rewrite <-app_assoc in Hat. pose proof (at_length_cons _ _ _ Hat) as Hlen.
  destruct fuel as [|fuel]; [lia|]. cbn -[comma].
  destruct (at_peek _ _ _ Hat) as [-> Hat1]. cbn -[comma]. unfold tuple.
  rewrite check_depth_ok by done. rewrite (at_expect _ _ _ _ Hat). cbn -[comma separated].
  destruct rs as [|r rs].
  - cbn in Hat1. rewrite (at_peek_is _ _ _ _ Hat1). cbn.
    rewrite (at_expect _ _ _ _ Hat1). cbn. do 2 f_equal. lia.
  - rewrite (comma_results_peek (S depth) r rs "}" ("}"%char :: rest)); [|by inversion Hwf|done..].
    rewrite (results_separated _ _ r rs "}" rest);
      [|done|apply elements_parse; [done..|lia]|done|done].
    apply at_app in Hat1. cbn -[comma]. rewrite (at_expect _ _ _ _ Hat1). cbn -[comma].
    rewrite length_app. cbn -[comma]. do 2 f_equal. lia.
Qed.

Lemma result_list_parses rs :
  Forall (fun r => value_parses (value r)) rs -> value_parses (ResultList rs).
Proof using Hinput.
  intros Hrs depth fuel off Hwf Hf o rest Ho Hat. cbn in Hwf.
  apply andb_true_iff in Hwf as [[Hd%N.ltb_lt Hne]%andb_true_iff Hwf%wf_results_elem].
  apply negb_true_iff, bool_decide_eq_false in Hne.
  change (print_value (ResultList rs)) with ("["%char :: comma print_result rs ++ ["]"%char]) in *.
  cbn in Hat. rewrite <-app_assoc in Hat. pose proof (at_length_cons _ _ _ Hat) as Hlen.
  destruct fuel as [|fuel]; [lia|]. cbn -[comma].
  destruct (at_peek _ _ _ Hat) as [-> Hat1]. cbn -[comma]. unfold list_value.
  rewrite check_depth_ok by done. rewrite (at_expect _ _ _ _ Hat). cbn -[comma separated].
  destruct rs as [|r rs]; [done|].
  rewrite (comma_results_peek (S depth) r rs "]" ("]"%char :: rest)); [|by inversion Hwf|done..].
  rewrite (comma_results_look (S depth) r rs ("]"%char :: rest)); [|by inversion Hwf|done].
  rewrite (results_separated _ _ r rs "]" rest);
    [|done|apply elements_parse; [done..|lia]|done|done].
  apply at_app in Hat1. cbn -[comma]. rewrite (at_expect _ _ _ _ Hat1). cbn -[comma].
  rewrite length_app. cbn -[comma]. do 2 f_equal. lia.
Qed.

Lemma value_list_parses vs : Forall value_parses vs -> value_parses (ValueList vs).
Proof using Hinput.
  intros Hvs depth fuel off [Hd%N.ltb_lt Hwf%wf_values_elem]%andb_true_iff Hf o rest Ho Hat.
  change (print_value (ValueList vs)) with ("["%char :: comma print_value vs ++ ["]"%char]) in *.
  cbn in Hat. rewrite <-app_assoc in Hat. pose proof (at_length_cons _ _ _ Hat) as Hlen.
  destruct fuel as [|fuel]; [lia|]. cbn -[comma].
  destruct (at_peek _ _ _ Hat) as [-> Hat1]. cbn -[comma]. unfold list_value.
  rewrite check_depth_ok by done. rewrite (at_expect _ _ _ _ Hat). cbn -[comma separated].
  destruct vs as [|v vs].
  { cbn in Hat1. rewrite (at_peek_is _ _ _ _ Hat1). cbn. do 2 f_equal. lia. }
  assert (exists c k, comma print_value (v :: vs) = c :: k /\
            (c = DQUOTE \/ c = "{"%char \/ c = "["%char)) as (c & k & Hk & Hc).
  { destruct (print_value_cons v) as (c & k & Hk & Hc).
    destruct vs; cbn; rewrite Hk; cbn; eauto. }
  assert (peek_is input "]" (S o) = false /\ looks_like_result input (S o) = false) as [-> ->].
  { rewrite Hk in Hat1. rewrite (at_peek_is _ _ _ _ Hat1). unfold looks_like_result.
    rewrite Hat1. by destruct Hc as [->|[->| ->]]. }
  rewrite (separated_input print_value _ v vs "]" rest); [| | |done|done].
  - apply at_app in Hat1. cbn -[comma]. rewrite (at_expect _ _ _ _ Hat1). cbn -[comma].
    rewrite length_app. cbn -[comma]. do 2 f_equal. lia.
  - intros y. by destruct (print_value_cons y) as (? & ? & -> & _).
  - apply Forall_forall. intros y Hy. eapply Forall_forall in Hvs; [|done].
    eapply Forall_forall in Hwf; [|done]. apply Hvs; [done|lia].
Qed.

Lemma all_values_parse v : value_parses v.
Proof using Hinput.
  induction v using MiValue_nested_ind;
    [|by apply tuple_parses|by apply value_list_parses|by apply result_list_parses].
  intros depth fuel off Hwf%N.leb_le Hf o rest Ho Hat.
  pose proof (at_length_cons _ _ _ Hat) as Hlen.
  destruct fuel as [|fuel]; [lia|]. cbn -[quote_c_string c_string].
  destruct (at_peek _ _ _ Hat) as [-> _]. cbn -[quote_c_string c_string].
  by rewrite (c_string_quoted b rest).
Qed.

Lemma results_loop_parses fuel rs off :
  Forall (fun r => wf_result limits 0 r = true) rs -> length rs < fuel ->
  at_ off (print_fields rs) ->
  results_loop input limits fuel off = Done (rs, off + length (print_fields rs)).
Proof using Hinput.
  intros Hwf. revert off fuel. induction Hwf as [|r rs Hr _ IH]; intros off fuel Hf Hat;
    (destruct fuel as [|fuel]; [lia|]).
  { cbn. rewrite (at_end_peek _ _ Hat). by rewrite Nat.add_0_r. }
  cbn -[result_at]. cbn in Hat. rewrite (at_peek_is _ _ _ _ Hat). apply at_peek in Hat as [_ Hat].
  cbn -[result_at]. unfold result_at at 1.
  rewrite (result_parses (value_at input limits (S (length input))) 0 r 0 Hr) with (r := print_fields rs);
    [|apply all_values_parse; [by apply andb_true_iff in Hr as [_ ?]|lia]|lia|done].
  apply at_app in Hat. cbn -[result_at]. rewrite IH; [|cbn in Hf; lia|done]. cbn.
  do 2 f_equal. rewrite length_app. lia.
Qed.

Lemma class_and_results_parses class rs off :
  ident class = true -> Forall (fun r => wf_result limits 0 r = true) rs ->
  at_ off (bytes_of class ++ print_fields rs) ->
  class_and_results input limits off =
    Done ((class, rs), off + length (bytes_of class ++ print_fields rs)).
Proof using Hinput.
  intros [Hid Hne]%ident_spec Hrs Hat. unfold class_and_results. rewrite Hat.
  rewrite class_loop_ident; [|done|destruct rs; [by left|right; by eexists]].
  cbn -[results_loop bool_decide].
  rewrite bool_decide_eq_false_2 by (destruct (bytes_of class); [done|cbn; lia]).
  rewrite results_loop_parses with (rs := rs); [|done| |by apply at_app in Hat].
  - cbn. rewrite (text_between_at _ _ _ Hat), string_of_bytes_of, length_app.
    do 2 f_equal. lia.
  - pose proof (fields_length rs). pose proof (f_equal length Hat) as Hl.
    rewrite length_drop, length_app in Hl.
    destruct (bytes_of class); [done|]. cbn in Hl. lia.
Qed.

End Roundtrip.

Lemma trim_start_last (l : bytes) c :
  is_ascii_whitespace c = false -> exists k, trim_start (l ++ [c]) = k ++ [c].
Proof.
  intros Hc. induction l as [|d l [k IH]]; cbn.
  - rewrite Hc. by exists [].
  - destruct (is_ascii_whitespace d); [eauto|]. by exists (d :: l).
Qed.

Lemma trim_ascii_head c r :
  is_ascii_whitespace c = false -> exists k, trim_ascii (c :: r) = c :: k.
Proof.
  intros Hc. unfold trim_ascii. cbn. rewrite Hc. cbn.
  destruct (trim_start_last (rev r) c Hc) as [k ->].
  rewrite rev_app_distr. cbn. by eexists.
Qed.

Lemma wf_fields limits rs :
  forallb (wf_result limits 0) rs = true ->
  Forall (fun r => wf_result limits 0 r = true) rs.
Proof.
  intros H. apply Forall_forall. intros r Hr%list_elem_of_In.
  rewrite forallb_forall in H. by apply H.
Qed.

(** The four prefixes of result and asynchronous records. *)
Definition async_prefix (c : ascii) : bool :=
  (c =? "^")%char || (c =? "*")%char || (c =? "+")%char || (c =? "=")%char.

Lemma async_prefix_cases c :
  async_prefix c = true -> c = "^"%char \/ c = "*"%char \/ c = "+"%char \/ c = "="%char.
Proof.
  unfold async_prefix. rewrite !orb_true_iff, !Ascii.eqb_eq. tauto.
Qed.

Definition async_record (prefix : ascii) : option N -> string -> list MiResult -> MiRecord :=
  if (prefix =? "^")%char then RResult
  else if (prefix =? "*")%char then ExecAsync
  else if (prefix =? "+")%char then StatusAsync
  else NotifyAsync.

Lemma record_async input limits prefix t class rs :
  (lenN input <= U64_MAX)%N -> input = print_async prefix t class rs ->
  async_prefix prefix = true -> wf_token t = true -> ident class = true ->
  forallb (wf_result limits 0) rs = true ->
  record input limits = Done (async_record prefix t class rs).
Proof.
  intros Hin Heq Hp%async_prefix_cases Ht Hid Hrs%wf_fields.
  pose proof Heq as Hat. rewrite <-(drop_0 input) in Hat.
  unfold print_async in Hat. fold (token_bytes t) in Hat.
  unfold record. rewrite (token_parses input t prefix _ Ht) by
    (done || by destruct_or! Hp; subst).
  cbn -[class_and_results]. apply drop_app_at in Hat. rewrite Nat.add_0_l in Hat.
  rewrite (at_take _ _ _ _ _ Hat).
  apply drop_lookup in Hat as [_ Hat]. cbn -[class_and_results].
  rewrite (class_and_results_parses _ _ Hin class rs) by done.
  assert (S (length (token_bytes t)) +
          length (bytes_of class ++ (rs ≫= fun r => ","%char :: print_result r)) = length input) as ->.
  { rewrite Heq. unfold print_async. fold (token_bytes t). rewrite !length_app. cbn. rewrite length_app. lia. }
  destruct_or! Hp; subst prefix; cbn; by rewrite bool_decide_eq_false_2 by auto.
Qed.

(** The three stream prefixes. *)
Definition stream_record (prefix : ascii) : bytes -> MiRecord :=
  if (prefix =? "~")%char then ConsoleStream
  else if (prefix =? "@")%char then TargetStream else LogStream.

Lemma record_stream input limits prefix b :
  (lenN input <= U64_MAX)%N -> input = prefix :: quote_c_string b ->
  (prefix = "~"%char \/ prefix = "@"%char \/ prefix = "&"%char) ->
  (lenN b <= max_decoded_string_bytes limits)%N ->
  record input limits = Done (stream_record prefix b).
Proof.
  intros Hin Heq Hp Hb. pose proof Heq as Hat. rewrite <-(drop_0 input) in Hat.
  unfold record. rewrite (token_parses input None prefix (quote_c_string b)) by
    (done || by destruct_or! Hp; subst).
  cbn -[c_string quote_c_string]. rewrite (at_take _ _ _ _ _ Hat).
  apply drop_lookup in Hat as [_ Hat]. cbn -[c_string quote_c_string].
  rewrite (c_string_quoted _ _ Hin b []) by (done || by rewrite app_nil_r).
  assert (1 + length (quote_c_string b) = length input) as -> by by rewrite Heq.
  destruct_or! Hp; subst prefix; cbn -[bool_decide length quote_c_string];
    by rewrite bool_decide_eq_false_2 by auto.
Qed.

Lemma parse_record_body input limits c r :
  input = c :: r -> is_ascii_whitespace c = false -> c <> "("%char ->
  (lenN input <= max_record_bytes limits)%N ->
  parse_record input limits = record input limits.
Proof.
  intros -> Hw Hc Hlen. unfold parse_record.
  destruct (N.ltb_spec (max_record_bytes limits) (lenN (c :: r))); [lia|].
  rewrite bool_decide_eq_false_2; [done|].
  destruct (trim_ascii_head c r Hw) as [k ->]. by intros [=].
Qed.

Lemma print_async_head prefix t class rs :
  async_prefix prefix = true ->
  exists c r, print_async prefix t class rs = c :: r /\
    is_ascii_whitespace c = false /\ c <> "("%char.
Proof.
  intros Hp%async_prefix_cases. unfold print_async. destruct t as [n|].
  - destruct (dec_cons n) as (d & k & -> & Hd). eexists _, _. split; [done|].
    split; [|by intros ->]. apply negb_true_iff. revert Hd. apply implb_true_iff.
    revert d. apply byte_check. by vm_compute.
  - eexists _, _. split; [done|]. by destruct_or! Hp; subst.
Qed.

(** ** Properties *)

(** C29: Parsing inverts printing: every well-formed record (identifier names,
    strings and nesting within the limits, a [u64] token) whose printed form
    fits the record limit is reconstructed exactly by [parse_record]. *)
Theorem parse_print_record (limits : MiLimits) (r : MiRecord) :
  (max_record_bytes limits <= U64_MAX)%N ->
  wf_record limits r = true -> (lenN (print_record r) <= max_record_bytes limits)%N ->
  parse_record (print_record r) limits = Done r.
Proof.
  intros Hmax Hwf Hlen.
  destruct r as [t c rs|t c rs|t c rs|t c rs|b|b|b|]; cbn [print_record] in *.
  1-4: apply andb_true_iff in Hwf as [[Ht Hid]%andb_true_iff Hrs];
    match goal with |- parse_record (print_async ?p _ _ _) _ = _ =>
      destruct (print_async_head p t c rs eq_refl) as (x & k & Hx & ? & ?);
      rewrite (parse_record_body _ _ x k) by done;
      by rewrite (record_async _ _ p t c rs) by (done || lia)
    end.
  1-3: apply N.leb_le in Hwf;
    match goal with |- parse_record (?p :: _) _ = _ =>
      rewrite (parse_record_body _ _ p (quote_c_string b)) by done;
      by rewrite (record_stream _ _ p b) by (auto || lia)
    end.
  unfold parse_record. destruct (N.ltb_spec (max_record_bytes limits) (lenN (bytes_of "(gdb)"))); [|done].
  exfalso. lia.
Qed.

Lemma parse_print_record_witness :
  parse_record (print_record (NotifyAsync (Some 3%N) "x" [MkMiResult "a" (ValueList [Const [DQUOTE; LF; "255"%char]])]))
    MiLimits_default =
  Done (NotifyAsync (Some 3%N) "x" [MkMiResult "a" (ValueList [Const [DQUOTE; LF; "255"%char]])]).
Proof. apply (parse_print_record MiLimits_default); by vm_compute. Defined.

(** The quoter and the C-string decoder are inverse on every byte string:
    a console record built by the program's own quoter parses to exactly the
    bytes that were quoted. *)
Theorem quoted_bytes_round_trip (limits : MiLimits) (v : bytes) :
  (max_record_bytes limits <= U64_MAX)%N ->
  (lenN v <= max_decoded_string_bytes limits)%N ->
  (lenN ("~"%char :: quote_c_string v) <= max_record_bytes limits)%N ->
  parse_record ("~"%char :: quote_c_string v) limits = Done (ConsoleStream v).
Proof.
  intros Hmax Hv Hlen.
  rewrite (parse_record_body _ _ "~" (quote_c_string v)) by done.
  by rewrite (record_stream _ _ "~" v) by (auto || lia).
Qed.

Lemma quoted_bytes_round_trip_witness :
  parse_record ("~"%char :: quote_c_string all_ascii) MiLimits_default = Done (ConsoleStream all_ascii).
Proof. apply (quoted_bytes_round_trip MiLimits_default all_ascii); by vm_compute. Defined.
