(* ===== verification/Json.v ===== *)
(** * Json: the JSON values the program exchanges

    The data model of RFC 8259 as [serde_json::Value] presents it: numbers are
    integers or, where a literal has a fraction or an exponent, kept as text;
    an object is an association list whose first binding of a key counts. *)

From S2P Require Import Prelude.

Inductive Value :=
| Null
| Bool (b : bool)
| Int (z : Z)
| Float (literal : string)
| Str (s : string)
| Array (items : list Value)
| Object (fields : list (string * Value)).

(** The first binding of a key. *)
Fixpoint assoc {A} (key : string) (fields : list (string * A)) : option A :=
  match fields with
  | [] => None
  | (k, v) :: r => if decide (k = key) then Some v else assoc key r
  end.

(** [Value::get], [Value::as_str], [Value::as_u64], [Value::as_bool]. *)
Definition get (key : string) (v : Value) : option Value :=
  match v with Object fields => assoc key fields | _ => None end.

Definition as_str (v : Value) : option string :=
  match v with Str s => Some s | _ => None end.

Definition as_u64 (v : Value) : option N :=
  match v with
  | Int z => if decide (0 <= z < 18446744073709551616)%Z then Some (Z.to_N z) else None
  | _ => None
  end.

Definition as_bool (v : Value) : option bool :=
  match v with Bool b => Some b | _ => None end.

Definition as_object (v : Value) : option (list (string * Value)) :=
  match v with Object fields => Some fields | _ => None end.

Definition as_array (v : Value) : option (list Value) :=
  match v with Array items => Some items | _ => None end.

(** A [u64] as a JSON number. *)
Definition uint (n : N) : Value := Int (Z.of_N n).

Lemma as_u64_uint n : (n <= U64_MAX)%N -> as_u64 (uint n) = Some n.
Proof.
  unfold U64_MAX, uint, as_u64. intros H.
  rewrite decide_True by lia. by rewrite N2Z.id.
Qed.

Definition field_eq_dec (dec_v : forall v w : Value, Decision (v = w))
  (f g : string * Value) : Decision (f = g).
Proof.
  destruct f as [n v], g as [m w].
  destruct (decide (n = m)) as [->|Hne]; [|right; congruence].
  destruct (dec_v v w) as [->|Hne]; [by left|right; congruence].
Defined.

#[export] Instance Value_eq_dec : EqDecision Value.
Proof.
  refine (fix go (v w : Value) : Decision (v = w) :=
    match v, w with
    | Null, Null => left eq_refl
    | Bool a, Bool b => cast_if (decide (a = b))
    | Int a, Int b => cast_if (decide (a = b))
    | Float a, Float b => cast_if (decide (a = b))
    | Str a, Str b => cast_if (decide (a = b))
    | Array a, Array b => cast_if (@list_eq_dec _ go a b)
    | Object a, Object b => cast_if (@list_eq_dec _ (field_eq_dec go) a b)
    | _, _ => right _
    end); clear go; abstract congruence.
Defined.
