(* ===== verification/Errors.v ===== *)
(** * Errors: the error values of the core crate
    ([crates/gdb-ai-core/src/error.rs]) *)

From S2P Require Import Prelude Text MiAst Json.

Module Code.

Inductive ErrorCode :=
| InvalidArgument | InvalidState | StaleRevision | StaleContext | NotFound
| AlreadyExists | Conflict | WriteLeaseRequired | WriteLeaseExpired
| PolicyDenied | CapabilityMissing | Unsupported | TargetRunning
| TargetStopped | TargetExited | TargetDisconnected | TargetUnavailable
| Timeout | Cancelled | EventGap | StreamClosed | OutputLimit
| MemoryPreconditionFailed | PartialRead | GdbError | GdbUnresponsive
| GdbExited | MiParseError | MiProtocolLimit | ConsistencyDirty
| ConsistencyLost | Internal.

#[global] Instance ErrorCode_eq_dec : EqDecision ErrorCode.
Proof. solve_decision. Defined.

End Code.

(** A failure that leaves the other reads of a batch meaningful. *)
Definition is_independent_read_failure (c : Code.ErrorCode) : bool :=
  match c with
  | Code.InvalidArgument | Code.NotFound | Code.CapabilityMissing
  | Code.Unsupported | Code.PolicyDenied | Code.OutputLimit
  | Code.PartialRead | Code.GdbError => true
  | _ => false
  end.

(** [{:?}] of a unit variant is its name. *)
Definition code_name (c : Code.ErrorCode) : string :=
  match c with
  | Code.InvalidArgument => "InvalidArgument"
  | Code.InvalidState => "InvalidState"
  | Code.StaleRevision => "StaleRevision"
  | Code.StaleContext => "StaleContext"
  | Code.NotFound => "NotFound"
  | Code.AlreadyExists => "AlreadyExists"
  | Code.Conflict => "Conflict"
  | Code.WriteLeaseRequired => "WriteLeaseRequired"
  | Code.WriteLeaseExpired => "WriteLeaseExpired"
  | Code.PolicyDenied => "PolicyDenied"
  | Code.CapabilityMissing => "CapabilityMissing"
  | Code.Unsupported => "Unsupported"
  | Code.TargetRunning => "TargetRunning"
  | Code.TargetStopped => "TargetStopped"
  | Code.TargetExited => "TargetExited"
  | Code.TargetDisconnected => "TargetDisconnected"
  | Code.TargetUnavailable => "TargetUnavailable"
  | Code.Timeout => "Timeout"
  | Code.Cancelled => "Cancelled"
  | Code.EventGap => "EventGap"
  | Code.StreamClosed => "StreamClosed"
  | Code.OutputLimit => "OutputLimit"
  | Code.MemoryPreconditionFailed => "MemoryPreconditionFailed"
  | Code.PartialRead => "PartialRead"
  | Code.GdbError => "GdbError"
  | Code.GdbUnresponsive => "GdbUnresponsive"
  | Code.GdbExited => "GdbExited"
  | Code.MiParseError => "MiParseError"
  | Code.MiProtocolLimit => "MiProtocolLimit"
  | Code.ConsistencyDirty => "ConsistencyDirty"
  | Code.ConsistencyLost => "ConsistencyLost"
  | Code.Internal => "Internal"
  end.

Record Error := MkError {
  err_code : Code.ErrorCode;
  err_message : string;
  err_retryable : bool;
  err_details : option Value
}.

Definition Error_new (code : Code.ErrorCode) (message : string) : Error :=
  MkError code message false None.

Definition retryable (e : Error) : Error :=
  MkError (err_code e) (err_message e) true (err_details e).

Definition with_details (details : Value) (e : Error) : Error :=
  MkError (err_code e) (err_message e) (err_retryable e) (Some details).

(** [From<MiError>]: only the limit violations are protocol-limit errors. *)
Definition error_of_mi (e : MiError) : Error :=
  Error_new
    (match e with Limit _ _ => Code.MiProtocolLimit | _ => Code.MiParseError end)
    (mi_error_message e).

(** [Display for Error], the text [to_string] gives. *)
Definition error_display (e : Error) : string :=
  code_name (err_code e) +:+ ": " +:+ err_message e.

(** [From<std::io::Error>]: the message of the operating system. *)
Definition error_of_io (message : string) : Error := Error_new Code.Internal message.
