(* ===== verification/Domain.v ===== *)
(** * Domain: identifiers, the session state and the event vocabulary
    ([crates/gdb-ai-core/src/domain.rs])

    The public handles are transparent newtypes of strings in the source and
    strings here.  A Rust enum lives in a Module of its own, so that
    [Lifecycle.Closed] reads as [SessionLifecycle::Closed]. *)
From S2P Require Import Prelude Text Json Errors.

(** ** Public identifiers *)

Definition id_byte (c : ascii) : bool :=
  is_ascii_alphanumeric c || (c =? "_")%char || (c =? "-")%char.

(** The [parse] function of the [public_id!] macro, for its prefix. *)
Definition public_id_parse (prefix value : string) : Result Error string :=
  match strip_prefix (bytes_of prefix ++ ["_"%char]) (bytes_of value) with
  | Some suffix =>
      if negb (bool_decide (suffix = [])) && (lenN suffix <=? 256)%N &&
         forallb id_byte suffix
      then Ok value
      else Err (Error_new Code.InvalidArgument ("invalid " +:+ prefix +:+ " identifier"))
  | None => Err (Error_new Code.InvalidArgument ("invalid " +:+ prefix +:+ " identifier"))
  end.

Abbreviation SessionId := string (only parsing).
Abbreviation BreakpointId := string (only parsing).
Abbreviation OperationId := string (only parsing).
Abbreviation LeaseId := string (only parsing).
Abbreviation TrackingId := string (only parsing).
Abbreviation ValueId := string (only parsing).
Abbreviation StopId := string (only parsing).
Abbreviation InferiorId := string (only parsing).
Abbreviation ThreadId := string (only parsing).
Abbreviation FrameId := string (only parsing).

Definition SessionId_parse : string -> Result Error SessionId := public_id_parse "sess".
Definition BreakpointId_parse : string -> Result Error BreakpointId := public_id_parse "bp".
Definition OperationId_parse : string -> Result Error OperationId := public_id_parse "op".
Definition LeaseId_parse : string -> Result Error LeaseId := public_id_parse "lease".
Definition TrackingId_parse : string -> Result Error TrackingId := public_id_parse "track".

Definition uses_compact_handles (session : SessionId) : bool :=
  match strip_prefix (bytes_of "sess_") (bytes_of session) with
  | Some suffix => (lenN suffix =? 16)%N
  | None => false
  end.

(** Every character outside the identifier alphabet becomes an underscore. *)
Definition safe_component (value : string) : string :=
  string_of (map_chars (fun c => if id_byte c then c else "_"%char) (bytes_of value)).

Definition StopId_from_event (session : SessionId) (event_seq : N) : StopId :=
  if uses_compact_handles session then "s" +:+ dec event_seq
  else "stop_" +:+ session +:+ "_" +:+ dec event_seq.

Definition InferiorId_from_backend
    (session : SessionId) (generation : N) (backend_id : string) : InferiorId :=
  if uses_compact_handles session then
    "i" +:+ dec generation +:+ "_" +:+ safe_component backend_id
  else "inf_" +:+ session +:+ "_" +:+ dec generation +:+ "_" +:+ safe_component backend_id.

Definition ThreadId_from_backend
    (inferior : InferiorId) (creation_generation : N) (backend_id : string) : ThreadId :=
  if starts_with (bytes_of "inf_") (bytes_of inferior) then
    "thr_" +:+ inferior +:+ "_" +:+ dec creation_generation +:+ "_" +:+
    safe_component backend_id
  else "t" +:+ dec creation_generation +:+ "_" +:+ safe_component backend_id.

Definition FrameId_new (thread : ThreadId) (stop : StopId) (level : N) : FrameId :=
  if starts_with (bytes_of "thr_") (bytes_of thread) ||
     starts_with (bytes_of "stop_") (bytes_of stop)
  then "frm_" +:+ thread +:+ "_" +:+ stop +:+ "_" +:+ dec level
  else "f" +:+ thread +:+ "_" +:+ stop +:+ "_" +:+ dec level.

(** [Address::parse]: at most sixteen hexadecimal digits, printed canonically. *)
Definition Address_parse (value : string) : Result Error string :=
  digits ← ok_or (strip_prefix (bytes_of "0x") (bytes_of value))
             (Error_new Code.InvalidArgument "address must start with 0x");
  if bool_decide (digits = []) || (16 <? lenN digits)%N ||
     negb (forallb is_ascii_hexdigit digits)
  then Err (Error_new Code.InvalidArgument
              "address must contain 1 to 16 hexadecimal digits")
  else
    number ← ok_or (from_str_radix U64_MAX 16 digits)
               (Error_new Code.InvalidArgument "invalid address");
    Ok ("0x" +:+ string_of (hex_fixed 16 number)).

(** ** Enumerations *)

Module Lifecycle.

Inductive SessionLifecycle := Creating | Ready | Active | Closing | Closed | Failed.

#[global] Instance SessionLifecycle_eq_dec : EqDecision SessionLifecycle.
Proof. solve_decision. Defined.

End Lifecycle.

Module Backend.

Inductive BackendHealth := Starting | Healthy | Busy | Unresponsive | Dead.

#[global] Instance BackendHealth_eq_dec : EqDecision BackendHealth.
Proof. solve_decision. Defined.

End Backend.

Module Inferior.

Inductive InferiorStatus :=
| Empty | Connecting | Stopped | Running | Exited | Detached | Disconnected
| Core | Unknown.

#[global] Instance InferiorStatus_eq_dec : EqDecision InferiorStatus.
Proof. solve_decision. Defined.

End Inferior.

Module Origin.

Inductive TargetOrigin := Unknown | Local | Attach | Remote | Core.

#[global] Instance TargetOrigin_eq_dec : EqDecision TargetOrigin.
Proof. solve_decision. Defined.

End Origin.

Module Consistent.

Inductive Consistency := Clean | ManagedDirty | Reconciling | Tainted | Lost.

#[global] Instance Consistency_eq_dec : EqDecision Consistency.
Proof. solve_decision. Defined.

End Consistent.

Module Snapshot.

Inductive SnapshotStatus := Building | Ready | Failed.

#[global] Instance SnapshotStatus_eq_dec : EqDecision SnapshotStatus.
Proof. solve_decision. Defined.

End Snapshot.

Module Op.

Inductive OperationStatus :=
| Accepted | WaitingForState | Completed | TimedOut | Cancelled | Failed.

#[global] Instance OperationStatus_eq_dec : EqDecision OperationStatus.
Proof. solve_decision. Defined.

End Op.

Module Out.

Inductive OutputSource :=
| InferiorPty | MiTargetStream | GdbConsoleStream | GdbLogStream | ServerDiagnostic.

#[global] Instance OutputSource_eq_dec : EqDecision OutputSource.
Proof. solve_decision. Defined.

End Out.

Module Reason.

Inductive StopReason :=
| Breakpoint (backend_number disposition : option string)
| Watchpoint (backend_number expression : option string) (access : string)
| Signal (name meaning : option string)
| EndSteppingRange
| FunctionFinished
| LocationReached
| Interrupt
| Core
| Unknown (raw_reason : string).

#[global] Instance StopReason_eq_dec : EqDecision StopReason.
Proof. solve_decision. Defined.

(** [Display for StopReason]. *)
Definition display (r : StopReason) : string :=
  match r with
  | Breakpoint n _ => "breakpoint:" +:+ default "unknown" n
  | Watchpoint n _ access => access +:+ ":" +:+ default "unknown" n
  | Signal n _ => "signal:" +:+ default "unknown" n
  | EndSteppingRange => "end-stepping-range"
  | FunctionFinished => "function-finished"
  | LocationReached => "location-reached"
  | Interrupt => "interrupt"
  | Core => "core"
  | Unknown raw => raw
  end.

End Reason.

(** ** The state of a session *)

Record FrameSummary := MkFrameSummary {
  fr_level : N;
  fr_address : option string;
  fr_function : option string;
  fr_module : option string;
  fr_source : option string;
  fr_line : option N
}.

Record ThreadState := MkThreadState {
  th_id : ThreadId;
  th_backend_id : string;
  th_running : bool;
  th_frame : option FrameSummary
}.

Record InferiorState := MkInferiorState {
  inf_id : InferiorId;
  inf_backend_id : string;
  inf_pid : option N;
  inf_generation : N;
  inf_status : Inferior.InferiorStatus;
  inf_exit_code : option string;
  inf_threads : gmap string ThreadState
}.

Record SnapshotRef := MkSnapshotRef {
  snap_id : string;
  snap_stop_id : StopId;
  snap_status : Snapshot.SnapshotStatus;
  snap_partial : bool
}.

Record BreakpointLocationState := MkBreakpointLocationState {
  loc_id : string;
  loc_backend_number : string;
  loc_address : option string;
  loc_function : option string
}.

Record BreakpointState := MkBreakpointState {
  bp_id : BreakpointId;
  bp_backend_number : string;
  bp_enabled : bool;
  bp_pending : bool;
  bp_locations : list BreakpointLocationState
}.

Record ModuleState := MkModuleState {
  mod_id : string;
  mod_target_name : option string;
  mod_host_name : option string;
  mod_symbols_loaded : option bool
}.

Record SignalPolicyState := MkSignalPolicyState {
  sig_stop : bool;
  sig_print : bool;
  sig_pass : bool
}.

Record SessionState := MkSessionState {
  session_id : SessionId;
  lifecycle : Lifecycle.SessionLifecycle;
  backend : Backend.BackendHealth;
  consistency : Consistent.Consistency;
  reconciliation_required : bool;
  event_seq : N;
  revision : N;
  execution_epoch : N;
  outcome_unknown_tokens : gset N;
  stop_id : option StopId;
  stop_reason : option string;
  stop_reason_detail : option Reason.StopReason;
  stopped_inferior_id : option InferiorId;
  stopped_thread_id : option ThreadId;
  target_origin : Origin.TargetOrigin;
  inferiors : gmap string InferiorState;
  breakpoints : gmap string BreakpointState;
  modules : gmap string ModuleState;
  signal_policies : gmap string SignalPolicyState;
  snapshot : option SnapshotRef;
  limitations : list string
}.

#[export] Instance FrameSummary_eq_dec : EqDecision FrameSummary.
Proof. solve_decision. Defined.
#[export] Instance ThreadState_eq_dec : EqDecision ThreadState.
Proof. solve_decision. Defined.
#[export] Instance InferiorState_eq_dec : EqDecision InferiorState.
Proof. solve_decision. Defined.
#[export] Instance SnapshotRef_eq_dec : EqDecision SnapshotRef.
Proof. solve_decision. Defined.
#[export] Instance BreakpointLocationState_eq_dec : EqDecision BreakpointLocationState.
Proof. solve_decision. Defined.
#[export] Instance BreakpointState_eq_dec : EqDecision BreakpointState.
Proof. solve_decision. Defined.
#[export] Instance ModuleState_eq_dec : EqDecision ModuleState.
Proof. solve_decision. Defined.
#[export] Instance SignalPolicyState_eq_dec : EqDecision SignalPolicyState.
Proof. solve_decision. Defined.
#[export] Instance SessionState_eq_dec : EqDecision SessionState.
Proof. solve_decision. Defined.

(** Field assignments, [self.state.field = v]. *)
Definition set_lifecycle (v : Lifecycle.SessionLifecycle) (s : SessionState) : SessionState :=
  MkSessionState (session_id s) v (backend s) (consistency s)
    (reconciliation_required s) (event_seq s) (revision s) (execution_epoch s)
    (outcome_unknown_tokens s) (stop_id s) (stop_reason s)
    (stop_reason_detail s) (stopped_inferior_id s) (stopped_thread_id s)
    (target_origin s) (inferiors s) (breakpoints s) (modules s)
    (signal_policies s) (snapshot s) (limitations s).
Definition set_backend (v : Backend.BackendHealth) (s : SessionState) : SessionState :=
  MkSessionState (session_id s) (lifecycle s) v (consistency s)
    (reconciliation_required s) (event_seq s) (revision s) (execution_epoch s)
    (outcome_unknown_tokens s) (stop_id s) (stop_reason s)
    (stop_reason_detail s) (stopped_inferior_id s) (stopped_thread_id s)
    (target_origin s) (inferiors s) (breakpoints s) (modules s)
    (signal_policies s) (snapshot s) (limitations s).
Definition set_consistency (v : Consistent.Consistency) (s : SessionState) : SessionState :=
  MkSessionState (session_id s) (lifecycle s) (backend s) v
    (reconciliation_required s) (event_seq s) (revision s) (execution_epoch s)
    (outcome_unknown_tokens s) (stop_id s) (stop_reason s)
    (stop_reason_detail s) (stopped_inferior_id s) (stopped_thread_id s)
    (target_origin s) (inferiors s) (breakpoints s) (modules s)
    (signal_policies s) (snapshot s) (limitations s).
Definition set_reconciliation_required (v : bool) (s : SessionState) : SessionState :=
  MkSessionState (session_id s) (lifecycle s) (backend s) (consistency s) v
    (event_seq s) (revision s) (execution_epoch s) (outcome_unknown_tokens s)
    (stop_id s) (stop_reason s) (stop_reason_detail s) (stopped_inferior_id s)
    (stopped_thread_id s) (target_origin s) (inferiors s) (breakpoints s)
    (modules s) (signal_policies s) (snapshot s) (limitations s).
Definition set_event_seq (v : N) (s : SessionState) : SessionState :=
  MkSessionState (session_id s) (lifecycle s) (backend s) (consistency s)
    (reconciliation_required s) v (revision s) (execution_epoch s)
    (outcome_unknown_tokens s) (stop_id s) (stop_reason s)
    (stop_reason_detail s) (stopped_inferior_id s) (stopped_thread_id s)
    (target_origin s) (inferiors s) (breakpoints s) (modules s)
    (signal_policies s) (snapshot s) (limitations s).
Definition set_revision (v : N) (s : SessionState) : SessionState :=
  MkSessionState (session_id s) (lifecycle s) (backend s) (consistency s)
    (reconciliation_required s) (event_seq s) v (execution_epoch s)
    (outcome_unknown_tokens s) (stop_id s) (stop_reason s)
    (stop_reason_detail s) (stopped_inferior_id s) (stopped_thread_id s)
    (target_origin s) (inferiors s) (breakpoints s) (modules s)
    (signal_policies s) (snapshot s) (limitations s).
Definition set_execution_epoch (v : N) (s : SessionState) : SessionState :=
  MkSessionState (session_id s) (lifecycle s) (backend s) (consistency s)
    (reconciliation_required s) (event_seq s) (revision s) v
    (outcome_unknown_tokens s) (stop_id s) (stop_reason s)
    (stop_reason_detail s) (stopped_inferior_id s) (stopped_thread_id s)
    (target_origin s) (inferiors s) (breakpoints s) (modules s)
    (signal_policies s) (snapshot s) (limitations s).
Definition set_outcome_unknown_tokens (v : gset N) (s : SessionState) : SessionState :=
  MkSessionState (session_id s) (lifecycle s) (backend s) (consistency s)
    (reconciliation_required s) (event_seq s) (revision s) (execution_epoch s)
    v (stop_id s) (stop_reason s) (stop_reason_detail s)
    (stopped_inferior_id s) (stopped_thread_id s) (target_origin s)
    (inferiors s) (breakpoints s) (modules s) (signal_policies s) (snapshot s)
    (limitations s).
Definition set_stop_id (v : option StopId) (s : SessionState) : SessionState :=
  MkSessionState (session_id s) (lifecycle s) (backend s) (consistency s)
    (reconciliation_required s) (event_seq s) (revision s) (execution_epoch s)
    (outcome_unknown_tokens s) v (stop_reason s) (stop_reason_detail s)
    (stopped_inferior_id s) (stopped_thread_id s) (target_origin s)
    (inferiors s) (breakpoints s) (modules s) (signal_policies s) (snapshot s)
    (limitations s).
Definition set_stop_reason (v : option string) (s : SessionState) : SessionState :=
  MkSessionState (session_id s) (lifecycle s) (backend s) (consistency s)
    (reconciliation_required s) (event_seq s) (revision s) (execution_epoch s)
    (outcome_unknown_tokens s) (stop_id s) v (stop_reason_detail s)
    (stopped_inferior_id s) (stopped_thread_id s) (target_origin s)
    (inferiors s) (breakpoints s) (modules s) (signal_policies s) (snapshot s)
    (limitations s).
Definition set_stop_reason_detail (v : option Reason.StopReason) (s : SessionState) : SessionState :=
  MkSessionState (session_id s) (lifecycle s) (backend s) (consistency s)
    (reconciliation_required s) (event_seq s) (revision s) (execution_epoch s)
    (outcome_unknown_tokens s) (stop_id s) (stop_reason s) v
    (stopped_inferior_id s) (stopped_thread_id s) (target_origin s)
    (inferiors s) (breakpoints s) (modules s) (signal_policies s) (snapshot s)
    (limitations s).
Definition set_stopped_inferior_id (v : option InferiorId) (s : SessionState) : SessionState :=
  MkSessionState (session_id s) (lifecycle s) (backend s) (consistency s)
    (reconciliation_required s) (event_seq s) (revision s) (execution_epoch s)
    (outcome_unknown_tokens s) (stop_id s) (stop_reason s)
    (stop_reason_detail s) v (stopped_thread_id s) (target_origin s)
    (inferiors s) (breakpoints s) (modules s) (signal_policies s) (snapshot s)
    (limitations s).
Definition set_stopped_thread_id (v : option ThreadId) (s : SessionState) : SessionState :=
  MkSessionState (session_id s) (lifecycle s) (backend s) (consistency s)
    (reconciliation_required s) (event_seq s) (revision s) (execution_epoch s)
    (outcome_unknown_tokens s) (stop_id s) (stop_reason s)
    (stop_reason_detail s) (stopped_inferior_id s) v (target_origin s)
    (inferiors s) (breakpoints s) (modules s) (signal_policies s) (snapshot s)
    (limitations s).
Definition set_target_origin (v : Origin.TargetOrigin) (s : SessionState) : SessionState :=
  MkSessionState (session_id s) (lifecycle s) (backend s) (consistency s)
    (reconciliation_required s) (event_seq s) (revision s) (execution_epoch s)
    (outcome_unknown_tokens s) (stop_id s) (stop_reason s)
    (stop_reason_detail s) (stopped_inferior_id s) (stopped_thread_id s) v
    (inferiors s) (breakpoints s) (modules s) (signal_policies s) (snapshot s)
    (limitations s).
Definition set_inferiors (v : gmap string InferiorState) (s : SessionState) : SessionState :=
  MkSessionState (session_id s) (lifecycle s) (backend s) (consistency s)
    (reconciliation_required s) (event_seq s) (revision s) (execution_epoch s)
    (outcome_unknown_tokens s) (stop_id s) (stop_reason s)
    (stop_reason_detail s) (stopped_inferior_id s) (stopped_thread_id s)
    (target_origin s) v (breakpoints s) (modules s) (signal_policies s)
    (snapshot s) (limitations s).
Definition set_breakpoints (v : gmap string BreakpointState) (s : SessionState) : SessionState :=
  MkSessionState (session_id s) (lifecycle s) (backend s) (consistency s)
    (reconciliation_required s) (event_seq s) (revision s) (execution_epoch s)
    (outcome_unknown_tokens s) (stop_id s) (stop_reason s)
    (stop_reason_detail s) (stopped_inferior_id s) (stopped_thread_id s)
    (target_origin s) (inferiors s) v (modules s) (signal_policies s)
    (snapshot s) (limitations s).
Definition set_modules (v : gmap string ModuleState) (s : SessionState) : SessionState :=
  MkSessionState (session_id s) (lifecycle s) (backend s) (consistency s)
    (reconciliation_required s) (event_seq s) (revision s) (execution_epoch s)
    (outcome_unknown_tokens s) (stop_id s) (stop_reason s)
    (stop_reason_detail s) (stopped_inferior_id s) (stopped_thread_id s)
    (target_origin s) (inferiors s) (breakpoints s) v (signal_policies s)
    (snapshot s) (limitations s).
Definition set_signal_policies (v : gmap string SignalPolicyState) (s : SessionState) : SessionState :=
  MkSessionState (session_id s) (lifecycle s) (backend s) (consistency s)
    (reconciliation_required s) (event_seq s) (revision s) (execution_epoch s)
    (outcome_unknown_tokens s) (stop_id s) (stop_reason s)
    (stop_reason_detail s) (stopped_inferior_id s) (stopped_thread_id s)
    (target_origin s) (inferiors s) (breakpoints s) (modules s) v (snapshot s)
    (limitations s).
Definition set_snapshot (v : option SnapshotRef) (s : SessionState) : SessionState :=
  MkSessionState (session_id s) (lifecycle s) (backend s) (consistency s)
    (reconciliation_required s) (event_seq s) (revision s) (execution_epoch s)
    (outcome_unknown_tokens s) (stop_id s) (stop_reason s)
    (stop_reason_detail s) (stopped_inferior_id s) (stopped_thread_id s)
    (target_origin s) (inferiors s) (breakpoints s) (modules s)
    (signal_policies s) v (limitations s).
Definition set_limitations (v : list string) (s : SessionState) : SessionState :=
  MkSessionState (session_id s) (lifecycle s) (backend s) (consistency s)
    (reconciliation_required s) (event_seq s) (revision s) (execution_epoch s)
    (outcome_unknown_tokens s) (stop_id s) (stop_reason s)
    (stop_reason_detail s) (stopped_inferior_id s) (stopped_thread_id s)
    (target_origin s) (inferiors s) (breakpoints s) (modules s)
    (signal_policies s) (snapshot s) v.

Definition set_inf_pid (v : option N) (s : InferiorState) : InferiorState :=
  MkInferiorState (inf_id s) (inf_backend_id s) v (inf_generation s)
    (inf_status s) (inf_exit_code s) (inf_threads s).
Definition set_inf_status (v : Inferior.InferiorStatus) (s : InferiorState) : InferiorState :=
  MkInferiorState (inf_id s) (inf_backend_id s) (inf_pid s) (inf_generation s)
    v (inf_exit_code s) (inf_threads s).
Definition set_inf_exit_code (v : option string) (s : InferiorState) : InferiorState :=
  MkInferiorState (inf_id s) (inf_backend_id s) (inf_pid s) (inf_generation s)
    (inf_status s) v (inf_threads s).
Definition set_inf_threads (v : gmap string ThreadState) (s : InferiorState) : InferiorState :=
  MkInferiorState (inf_id s) (inf_backend_id s) (inf_pid s) (inf_generation s)
    (inf_status s) (inf_exit_code s) v.

Definition creating (session : SessionId) : SessionState := {|
  session_id := session;
  lifecycle := Lifecycle.Creating;
  backend := Backend.Starting;
  consistency := Consistent.Clean;
  reconciliation_required := false;
  event_seq := 0;
  revision := 0;
  execution_epoch := 0;
  outcome_unknown_tokens := ∅;
  stop_id := None;
  stop_reason := None;
  stop_reason_detail := None;
  stopped_inferior_id := None;
  stopped_thread_id := None;
  target_origin := Origin.Unknown;
  inferiors := ∅;
  breakpoints := ∅;
  modules := ∅;
  signal_policies := ∅;
  snapshot := None;
  limitations := []
|}.

Definition require_revision (current expected : N) : Result Error unit :=
  if (current =? expected)%N then Ok tt
  else Err (Error_new Code.StaleRevision
              ("expected revision " +:+ dec expected +:+
               ", current revision is " +:+ dec current)).

(** [{:?}] of a string of printable ASCII without quotes or backslashes, the
    only strings a stop handle is made of. *)
Definition debug_plain (s : string) : string :=
  string_of ([DQUOTE] ++ bytes_of s ++ [DQUOTE]).

Definition debug_stop (o : option StopId) : string :=
  match o with
  | Some stop => "Some(StopId(" +:+ debug_plain stop +:+ "))"
  | None => "None"
  end.

Definition require_stop (s : SessionState) (stop : StopId) : Result Error unit :=
  if decide (stop_id s = Some stop) then Ok tt
  else Err (Error_new Code.StaleContext
              ("context belongs to " +:+ stop +:+ ", current stop is " +:+
               debug_stop (stop_id s))).

Definition stopped_frame (s : SessionState) : option FrameSummary :=
  inferior_id ← stopped_inferior_id s;
  thread_id ← stopped_thread_id s;
  inferior ← List.find (fun i => bool_decide (inf_id i = inferior_id))
               (btree_values (inferiors s));
  thread ← List.find (fun t => bool_decide (th_id t = thread_id))
             (btree_values (inf_threads inferior));
  th_frame thread.

(** The inferior an unattributed exit belongs to: the only one, if so. *)
Definition attributed_inferior (s : SessionState) (backend_id : option string)
    : option string :=
  match backend_id with
  | Some b => Some b
  | None => match btree_keys (inferiors s) with [b] => Some b | _ => None end
  end.

Definition terminal_status (st : Inferior.InferiorStatus) : bool :=
  match st with
  | Inferior.Exited | Inferior.Detached | Inferior.Disconnected => true
  | _ => false
  end.

Record WaitBaseline := MkWaitBaseline {
  wb_event_seq : N;
  wb_execution_epoch : N;
  wb_stop_id : option StopId;
  wb_terminal_inferiors : gset string;
  wb_terminal_inferior_generations : gmap string N
}.

#[export] Instance WaitBaseline_eq_dec : EqDecision WaitBaseline.
Proof. solve_decision. Defined.

Definition WaitBaseline_of (s : SessionState) : WaitBaseline :=
  let terminal := filter (fun e : string * InferiorState =>
                    terminal_status (inf_status e.2) = true) (inferiors s) in {|
    wb_event_seq := event_seq s;
    wb_execution_epoch := execution_epoch s;
    wb_stop_id := stop_id s;
    wb_terminal_inferiors := dom terminal;
    wb_terminal_inferior_generations := inf_generation <$> terminal
  |}.

(** ** Operations, values and leases *)

Record OperationRecord := MkOperationRecord {
  op_id : OperationId;
  op_session_id : SessionId;
  op_kind : string;
  op_status : Op.OperationStatus;
  op_created_revision : N;
  op_wait_baseline : option WaitBaseline;
  op_expected_execution_epoch : option N;
  op_accepted_event_seq : option N;
  op_completed_event_seq : option N;
  op_error : option string
}.

Record WriteLease := MkWriteLease {
  lease_id : LeaseId;
  lease_session_id : SessionId;
  lease_owner : string;
  lease_expires_at_unix_ms : N;
  lease_generation : N
}.

Definition lease_is_expired (l : WriteLease) (now_unix_ms : N) : bool :=
  (lease_expires_at_unix_ms l <=? now_unix_ms)%N.

(** ** Events *)

Module Event.

Inductive DomainEvent :=
| SessionClosing
| SessionClosed
| BackendStarted
| BackendExited (status : option Z)
| TargetRunning (backend_inferiors : list string)
| TargetStopped (backend_inferior backend_thread : option string) (reason : string)
    (reason_detail : option Reason.StopReason) (frame : option FrameSummary)
| InferiorAdded (backend_id : string) (pid : option N)
| InferiorRemoved (backend_id : string)
| InferiorExited (backend_id exit_code : option string) (from_stop_record : bool)
| ThreadCreated (backend_inferior backend_thread : string)
| ThreadExited (backend_inferior : option string) (backend_thread : string)
| BreakpointCreated (backend_number : string) (enabled pending : bool)
| BreakpointModified (backend_number : string) (enabled pending : bool)
| BreakpointDeleted (backend_number : string)
| BreakpointLocations (backend_number : string) (locations : list BreakpointLocationState)
| BreakpointRebound (id : BreakpointId) (old_backend_number new_backend_number : string)
    (enabled : bool) (address : option string)
| LibraryLoaded (id : string) (target_name host_name : option string)
    (symbols_loaded : option bool)
| LibraryUnloaded (id : string)
| MemoryChanged
| RegisterChanged (register : string)
| ControllerChanged (kind : string)
| EvidenceGap (reason : string)
| SignalPolicyChanged (signal : string) (policy : SignalPolicyState)
| SnapshotStarted (stop : StopId)
| SnapshotReady (stop : StopId) (snapshot_id : option string) (partial : bool)
| SnapshotFailed (stop : StopId)
| CommandOutcomeUnknown (token : N)
| CommandOutcomeResolved (token : N)
| ConsistencyDirty (reason : string)
| ConsistencyReconciling
| ConsistencyTainted (reason : string)
| ConsistencyRestored (warnings : list string)
| ConsistencyLost (reason : string)
| TargetDisconnected
| TargetDetached
| CoreOpened (backend_id : string)
| TargetConfigured (origin : Origin.TargetOrigin)
| Output (source : Out.OutputSource) (data : list ascii)
| OutputAdvanced (source : Out.OutputSource) (offset length dropped_bytes : N)
| UnknownBackendEvent (class : string)
| UnknownBackendNotification (class : string).

#[global] Instance DomainEvent_eq_dec : EqDecision DomainEvent.
Proof. solve_decision. Defined.

End Event.

Definition attributed_exit (s : SessionState) (event : Event.DomainEvent) : bool :=
  match event with
  | Event.InferiorExited backend_id _ _ =>
      match attributed_inferior s backend_id with Some _ => true | None => false end
  | _ => false
  end.

Record JournaledEvent := MkJournaledEvent {
  je_seq : N;
  je_event : Event.DomainEvent
}.

(** ** Public handles name one object each

    The injectivity of the handle constructors of
    [crates/gdb-ai-core/src/domain.rs] within one session: the event sequence
    number printed in a handle is recovered from it. *)

Lemma split_at_sep {A} (p : A -> bool) (a b x y : list A) c :
  Forall (fun d => p d = true) a -> Forall (fun d => p d = true) b -> p c = false ->
  a ++ c :: x = b ++ c :: y -> a = b /\ x = y.
Proof.
  intros Ha. revert b. induction Ha as [|d a Hd _ IH]; intros b Hb Hc H.
  - destruct Hb as [|e b He _]; cbn in H; [by simplify_eq|]. simplify_eq. congruence.
  - destruct Hb as [|e b He Hb]; cbn in H; simplify_eq; [congruence|].
    destruct (IH b Hb Hc) as [-> ->]; auto.
Qed.

Lemma dec_sep_inj (m n : N) (x y : string) :
  dec m +:+ "_" +:+ x = dec n +:+ "_" +:+ y -> m = n /\ x = y.
Proof.
  intros H%(f_equal bytes_of). rewrite !bytes_of_app in H. cbn in H.
  apply (split_at_sep is_ascii_digit) in H as [Hd Hx];
    [|apply dec_digits|apply dec_digits|done].
  split; [by apply (inj dec), (inj bytes_of)|by apply (inj bytes_of)].
Qed.

Lemma append_assoc (x y z : string) : x +:+ (y +:+ z) = (x +:+ y) +:+ z.
Proof. induction x as [|c x IH]; [done|]. exact (f_equal (String c) IH). Qed.

Lemma append_inj_l (p x y : string) : p +:+ x = p +:+ y -> x = y.
Proof. apply (inj (String.append p)). Qed.

#[export] Instance StopId_from_event_inj session : Inj (=) (=) (StopId_from_event session).
Proof.
  intros m n. unfold StopId_from_event. destruct (uses_compact_handles session); intros H.
  - apply (inj dec). by apply append_inj_l in H.
  - apply (inj dec). by do 3 apply append_inj_l in H.
Qed.

Lemma InferiorId_generation session g1 g2 b1 b2 :
  InferiorId_from_backend session g1 b1 = InferiorId_from_backend session g2 b2 ->
  g1 = g2.
Proof.
  unfold InferiorId_from_backend. destruct (uses_compact_handles session); intros H.
  - apply append_inj_l in H. by apply dec_sep_inj in H as [? _].
  - do 3 apply append_inj_l in H. by apply dec_sep_inj in H as [? _].
Qed.

(** The handle of a compact session never starts like a legacy one. *)
Lemma InferiorId_legacy session g b :
  starts_with (bytes_of "inf_") (bytes_of (InferiorId_from_backend session g b)) =
    negb (uses_compact_handles session).
Proof.
  unfold InferiorId_from_backend, starts_with.
  destruct (uses_compact_handles session); rewrite !bytes_of_app; [|done].
  destruct (dec_cons g) as (c & r & -> & Hc).
  assert (("n" =? c)%char = false) as Hn
    by (destruct (Ascii.eqb_spec "n" c); by subst).
  cbn -[Ascii.eqb]. by rewrite Hn.
Qed.

Lemma ThreadId_compact_inj session g1 g2 b1 b2 c1 c2 t1 t2 :
  uses_compact_handles session = true ->
  ThreadId_from_backend (InferiorId_from_backend session g1 b1) c1 t1 =
    ThreadId_from_backend (InferiorId_from_backend session g2 b2) c2 t2 ->
  c1 = c2.
Proof.
  intros Hc H. unfold ThreadId_from_backend in H.
  rewrite !InferiorId_legacy, Hc in H. cbn -[dec] in H.
  apply (append_inj_l "t") in H. by apply dec_sep_inj in H as [? _].
Qed.

Lemma ThreadId_legacy_inj session g1 g2 b1 b2 c1 c2 t1 t2 :
  uses_compact_handles session = false ->
  ThreadId_from_backend (InferiorId_from_backend session g1 b1) c1 t1 =
    ThreadId_from_backend (InferiorId_from_backend session g2 b2) c2 t2 ->
  g1 = g2.
Proof.
  intros Hc H. unfold ThreadId_from_backend in H. rewrite !InferiorId_legacy, Hc in H.
  apply (append_inj_l "thr_") in H. unfold InferiorId_from_backend in H. rewrite Hc in H.
  rewrite <-!append_assoc in H.
  do 3 apply append_inj_l in H. by apply dec_sep_inj in H as [? _].
Qed.

Lemma ThreadId_creation_inj inferior c1 c2 t1 t2 :
  ThreadId_from_backend inferior c1 t1 = ThreadId_from_backend inferior c2 t2 -> c1 = c2.
Proof.
  unfold ThreadId_from_backend. case_match; intros E.
  - do 3 apply append_inj_l in E. by apply dec_sep_inj in E as [? _].
  - apply append_inj_l in E. by apply dec_sep_inj in E as [? _].
Qed.
