(* ===== verification/Reducer.v ===== *)
(** * Reducer: the transition function of the session state
    ([crates/gdb-ai-core/src/reducer.rs])

    One definition per event arm; [reduce] dispatches, [apply_event] checks the
    sequence number and advances the revision.  A definition returns the new
    state and the [changed] flag of the source. *)

From S2P Require Import Prelude Text Json Errors Domain.

Definition MAX_LIMITATIONS : nat := 64.
Definition LIMITATIONS_OMITTED : string := "additional limitations omitted".

(** ** Limitations *)

Definition push_limitation (l : list string) (limitation : string) : list string :=
  if bool_decide (limitation ∈ l) || bool_decide (LIMITATIONS_OMITTED ∈ l) then l
  else if bool_decide (length l < MAX_LIMITATIONS - 1) then l ++ [limitation]
  else l ++ [LIMITATIONS_OMITTED].

Definition gap_prefix : string := "evidence gap: ".

Definition insert_gap (l : list string) (reason : string) : list string :=
  let limitation := gap_prefix +:+ reason in
  if bool_decide (limitation ∈ l) then l
  else
    let l := limitation :: l in
    if bool_decide (MAX_LIMITATIONS < length l) then
      take (MAX_LIMITATIONS - 1) l ++ [LIMITATIONS_OMITTED]
    else l.

(** ** Helpers of the transition function *)

Definition clear_stop_context (s : SessionState) : SessionState := {|
  session_id := session_id s;
  lifecycle := lifecycle s;
  backend := backend s;
  consistency := consistency s;
  reconciliation_required := reconciliation_required s;
  event_seq := event_seq s;
  revision := revision s;
  execution_epoch := execution_epoch s;
  outcome_unknown_tokens := outcome_unknown_tokens s;
  stop_id := None;
  stop_reason := None;
  stop_reason_detail := None;
  stopped_inferior_id := None;
  stopped_thread_id := None;
  target_origin := target_origin s;
  inferiors := inferiors s;
  breakpoints := breakpoints s;
  modules := modules s;
  signal_policies := signal_policies s;
  snapshot := None;
  limitations := limitations s
|}.

Definition fresh_inferior (session : SessionId) (generation : N) (backend_id : string)
    : InferiorState := {|
  inf_id := InferiorId_from_backend session generation backend_id;
  inf_backend_id := backend_id;
  inf_pid := None;
  inf_generation := generation;
  inf_status := Inferior.Empty;
  inf_exit_code := None;
  inf_threads := ∅
|}.

Definition ensure_inferior (backend_id : string) (generation : N) (s : SessionState)
    : SessionState :=
  match inferiors s !! backend_id with
  | Some _ => s
  | None =>
      set_inferiors
        (<[backend_id := fresh_inferior (session_id s) generation backend_id]>
          (inferiors s)) s
  end.

Definition live_status (st : Inferior.InferiorStatus) : bool :=
  match st with
  | Inferior.Empty | Inferior.Exited | Inferior.Detached | Inferior.Disconnected => false
  | _ => true
  end.

Definition fail_backend (s : SessionState) : SessionState * bool :=
  let changed :=
    negb (bool_decide (lifecycle s = Lifecycle.Failed)) ||
    negb (bool_decide (backend s = Backend.Dead)) ||
    bool_decide (is_Some (stop_id s)) ||
    existsb (fun i => live_status (inf_status i)) (btree_values (inferiors s)) in
  let s := set_backend Backend.Dead (set_lifecycle Lifecycle.Failed s) in
  let s := set_inferiors
    ((fun i => if live_status (inf_status i)
               then set_inf_status Inferior.Disconnected i else i) <$> inferiors s) s in
  (clear_stop_context s, changed).

(** ** Inferiors *)

Definition restart_inferior (session : SessionId) (seq : N) (backend_id : string)
    (pid : option N) (i : InferiorState) : InferiorState :=
  let i :=
    if bool_decide (is_Some pid) &&
       (negb (bool_decide (inf_pid i = pid)) || terminal_status (inf_status i))
    then fresh_inferior session seq backend_id else i in
  let i := set_inf_pid pid i in
  if bool_decide (is_Some pid) && bool_decide (inf_status i = Inferior.Empty)
  then set_inf_status Inferior.Connecting i else i.

Definition reduce_inferior_added (backend_id : string) (pid : option N)
    (s : SessionState) : SessionState * bool :=
  let seq := event_seq s in
  let s := ensure_inferior backend_id seq s in
  let s := set_inferiors
    (alter (restart_inferior (session_id s) seq backend_id pid) backend_id
      (inferiors s)) s in
  (if bool_decide (is_Some pid) then set_lifecycle Lifecycle.Active s else s, true).

Definition reduce_inferior_removed (backend_id : string) (s : SessionState)
    : SessionState * bool :=
  match inferiors s !! backend_id with
  | None => (s, false)
  | Some removed =>
      let s := set_inferiors (delete backend_id (inferiors s)) s in
      (if bool_decide (stopped_inferior_id s = Some (inf_id removed))
       then clear_stop_context s else s, true)
  end.

Definition exited_inferior (disconnected : bool) (exit_code : option string)
    (i : InferiorState) : InferiorState :=
  let i := set_inf_status
    (if disconnected then Inferior.Disconnected else Inferior.Exited) i in
  match exit_code with Some _ => set_inf_exit_code exit_code i | None => i end.

Definition reduce_inferior_exited (backend_id exit_code : option string)
    (from_stop_record : bool) (s : SessionState) : SessionState * bool :=
  match attributed_inferior s backend_id with
  | None => (s, false)
  | Some backend_id =>
      let disconnected :=
        bool_decide (target_origin s = Origin.Remote) && negb from_stop_record &&
        bool_decide (exit_code = None) &&
        match inferiors s !! backend_id with
        | Some i => negb (bool_decide (inf_status i = Inferior.Exited))
        | None => true
        end in
      let invalidates_stop :=
        match inferiors s !! backend_id with
        | Some i => bool_decide (stopped_inferior_id s = Some (inf_id i))
        | None => false
        end in
      let s := ensure_inferior backend_id (event_seq s) s in
      let s := set_inferiors
        (alter (exited_inferior disconnected exit_code) backend_id (inferiors s)) s in
      (if invalidates_stop then clear_stop_context s else s, true)
  end.

(** ** Running and stopping *)

Definition any_running (s : SessionState) : bool :=
  existsb (fun i => bool_decide (inf_status i = Inferior.Running))
    (btree_values (inferiors s)).

Definition resumed_thread (t : ThreadState) : ThreadState :=
  MkThreadState (th_id t) (th_backend_id t) true None.

Definition resumed_inferior (i : InferiorState) : InferiorState :=
  set_inf_threads (resumed_thread <$> inf_threads i) (set_inf_status Inferior.Running i).

Definition selected (backend_inferiors : list string) (backend_id : string) : bool :=
  bool_decide (backend_inferiors = []) || bool_decide (backend_id ∈ backend_inferiors).

Definition reduce_target_running (backend_inferiors : list string) (s : SessionState)
    : SessionState * bool :=
  let was_running := any_running s in
  let previous_lifecycle := lifecycle s in
  let had_stop := bool_decide (is_Some (stop_id s)) in
  let s :=
    if bool_decide (inferiors s = ∅) then
      ensure_inferior (default "i1" (head backend_inferiors)) (event_seq s) s
    else s in
  let status_changed :=
    existsb (fun e => selected backend_inferiors e.1 &&
                      negb (bool_decide (inf_status e.2 = Inferior.Running)))
      (btree_iter (inferiors s)) in
  let s := set_inferiors
    (map_imap (fun backend_id i =>
       Some (if selected backend_inferiors backend_id then resumed_inferior i else i))
      (inferiors s)) s in
  let s := set_lifecycle Lifecycle.Active s in
  let running_edge := negb was_running && any_running s in
  let s := if running_edge
           then set_execution_epoch (u64_wrapping_add (execution_epoch s) 1) s else s in
  (clear_stop_context s,
   running_edge || status_changed || had_stop ||
   negb (bool_decide (previous_lifecycle = Lifecycle.Active))).

Definition paused_thread (t : ThreadState) : ThreadState :=
  MkThreadState (th_id t) (th_backend_id t) false (th_frame t).

Definition paused_inferior (i : InferiorState) : InferiorState :=
  if terminal_status (inf_status i) then i
  else set_inf_threads (paused_thread <$> inf_threads i)
         (set_inf_status Inferior.Stopped i).

(** The inferior that registered a thread, the first in key order. *)
Definition owner_of_thread (thread : string) (s : SessionState) : option string :=
  fst <$> List.find (fun e => bool_decide (is_Some (inf_threads e.2 !! thread)))
            (btree_iter (inferiors s)).

Definition stopped_group (backend_inferior backend_thread : option string)
    (s : SessionState) : string :=
  match backend_inferior with
  | Some b => b
  | None =>
      match backend_thread ≫= fun t => owner_of_thread t s with
      | Some b => b
      | None => default "i1" (btree_first_key (inferiors s))
      end
  end.

(** The thread a stop reports is registered, or its state is replaced. *)
Definition stopped_thread (seq : N) (backend_thread : string)
    (frame : option FrameSummary) (i : InferiorState) : ThreadState :=
  let id := match inf_threads i !! backend_thread with
            | Some t => th_id t
            | None => ThreadId_from_backend (inf_id i) seq backend_thread
            end in
  MkThreadState id backend_thread false frame.

Definition record_stopped_thread (seq : N) (backend_id : string)
    (backend_thread : option string) (frame : option FrameSummary) (s : SessionState)
    : SessionState * option ThreadId :=
  match backend_thread, inferiors s !! backend_id with
  | Some thread, Some i =>
      let t := stopped_thread seq thread frame i in
      (set_inferiors
         (<[backend_id := set_inf_threads (<[thread := t]> (inf_threads i)) i]>
           (inferiors s)) s,
       Some (th_id t))
  | _, _ => (s, None)
  end.

Definition building_snapshot (stop : StopId) : SnapshotRef :=
  MkSnapshotRef ("snap_" +:+ stop) stop Snapshot.Building false.

Definition reduce_target_stopped (backend_inferior backend_thread : option string)
    (reason : string) (reason_detail : option Reason.StopReason)
    (frame : option FrameSummary) (s : SessionState) : SessionState * bool :=
  let backend_id := stopped_group backend_inferior backend_thread s in
  let seq := event_seq s in
  let s := ensure_inferior backend_id seq s in
  let s := set_inferiors (paused_inferior <$> inferiors s) s in
  let inferior_id := inf_id <$> inferiors s !! backend_id in
  let '(s, thread_id) :=
    record_stopped_thread seq backend_id backend_thread frame s in
  let stop := StopId_from_event (session_id s) (event_seq s) in
  let s := set_stop_id (Some stop) s in
  let s := set_stop_reason (Some reason) s in
  let s := set_stop_reason_detail
    (match reason_detail with Some d => Some d | None => Some (Reason.Unknown reason) end) s in
  let s := set_stopped_inferior_id inferior_id s in
  let s := set_stopped_thread_id thread_id s in
  let s := set_snapshot (Some (building_snapshot stop)) s in
  let s := set_lifecycle Lifecycle.Active s in
  (set_backend Backend.Healthy s, true).

(** ** Threads *)

Definition created_thread (seq : N) (backend_thread : string) (i : InferiorState)
    : ThreadState :=
  MkThreadState (ThreadId_from_backend (inf_id i) seq backend_thread) backend_thread
    (bool_decide (inf_status i = Inferior.Running)) None.

Definition reduce_thread_created (backend_inferior backend_thread : string)
    (s : SessionState) : SessionState * bool :=
  let seq := event_seq s in
  let s := ensure_inferior backend_inferior seq s in
  match inferiors s !! backend_inferior with
  | None => (s, false)
  | Some i =>
      let '(t, changed) :=
        match inf_threads i !! backend_thread with
        | Some t =>
            let running := bool_decide (inf_status i = Inferior.Running) in
            (MkThreadState (th_id t) (th_backend_id t) running (th_frame t),
             negb (bool_decide (th_running t = running)))
        | None => (created_thread seq backend_thread i, true)
        end in
      (set_inferiors
         (<[backend_inferior := set_inf_threads (<[backend_thread := t]> (inf_threads i)) i]>
           (inferiors s)) s, changed)
  end.

Definition remove_thread (backend_inferior backend_thread : string) (s : SessionState)
    : SessionState * bool :=
  match inferiors s !! backend_inferior with
  | None => (s, false)
  | Some i =>
      match inf_threads i !! backend_thread with
      | None => (s, false)
      | Some _ =>
          (set_inferiors
             (<[backend_inferior :=
                 set_inf_threads (delete backend_thread (inf_threads i)) i]>
               (inferiors s)) s, true)
      end
  end.

(** Without a group the first inferior that has the thread loses it. *)
Definition reduce_thread_exited (backend_inferior : option string)
    (backend_thread : string) (s : SessionState) : SessionState * bool :=
  match backend_inferior with
  | Some b => remove_thread b backend_thread s
  | None =>
      match owner_of_thread backend_thread s with
      | Some b => remove_thread b backend_thread s
      | None => (s, false)
      end
  end.

(** ** Breakpoints and modules *)

Definition replace_dots (s : string) : string :=
  string_of ((fun c => if (c =? ".")%char then "_"%char else c) <$> bytes_of s).

Definition fresh_breakpoint_id (s : SessionState) (backend_number : string) : BreakpointId :=
  if uses_compact_handles (session_id s) then
    "b" +:+ dec (event_seq s) +:+ "_" +:+ replace_dots backend_number
  else "bp_" +:+ session_id s +:+ "_" +:+ dec (event_seq s) +:+ "_" +:+
       replace_dots backend_number.

Definition reduce_breakpoint (backend_number : string) (enabled pending : bool)
    (s : SessionState) : SessionState * bool :=
  let id := match breakpoints s !! backend_number with
            | Some b => bp_id b
            | None => fresh_breakpoint_id s backend_number
            end in
  let locations := match breakpoints s !! backend_number with
                   | Some b => bp_locations b
                   | None => []
                   end in
  (set_breakpoints
     (<[backend_number := MkBreakpointState id backend_number enabled pending locations]>
       (breakpoints s)) s, true).

Definition reduce_breakpoint_deleted (backend_number : string) (s : SessionState)
    : SessionState * bool :=
  (set_breakpoints (delete backend_number (breakpoints s)) s,
   bool_decide (is_Some (breakpoints s !! backend_number))).

Definition reduce_breakpoint_locations (backend_number : string)
    (locations : list BreakpointLocationState) (s : SessionState)
    : SessionState * bool :=
  match breakpoints s !! backend_number with
  | Some b =>
      (set_breakpoints
         (<[backend_number :=
             MkBreakpointState (bp_id b) (bp_backend_number b) (bp_enabled b)
               (bp_pending b) locations]> (breakpoints s)) s, true)
  | None => (s, false)
  end.

Definition reduce_breakpoint_rebound (id : BreakpointId)
    (old_backend_number new_backend_number : string) (enabled : bool)
    (address : option string) (s : SessionState) : SessionState * bool :=
  let locations :=
    match address with
    | Some a =>
        [MkBreakpointLocationState ("bpl_" +:+ id +:+ "_" +:+ dec (event_seq s) +:+ "_1")
           new_backend_number (Some a) None]
    | None => []
    end in
  let m := delete new_backend_number (delete old_backend_number (breakpoints s)) in
  (set_breakpoints
     (<[new_backend_number :=
         MkBreakpointState id new_backend_number enabled
           (bool_decide (address = None)) locations]> m) s, true).

(** ** Snapshots *)

Definition reduce_snapshot_started (stop : StopId) (s : SessionState)
    : SessionState * bool :=
  if bool_decide (stop_id s = Some stop) then
    if match snapshot s with
       | Some r => bool_decide (snap_status r = Snapshot.Ready)
       | None => false
       end
    then (s, false)
    else (set_snapshot (Some (building_snapshot stop)) s, true)
  else (s, false).

Definition reduce_snapshot_ready (stop : StopId) (snapshot_id : option string)
    (partial : bool) (s : SessionState) : SessionState * bool :=
  if bool_decide (stop_id s = Some stop) then
    (match snapshot s with
     | Some r =>
         set_snapshot (Some (MkSnapshotRef (default (snap_id r) snapshot_id)
                               (snap_stop_id r) Snapshot.Ready partial)) s
     | None => s
     end, true)
  else (s, false).

Definition reduce_snapshot_failed (stop : StopId) (s : SessionState)
    : SessionState * bool :=
  if bool_decide (stop_id s = Some stop) then
    match snapshot s with
    | Some r =>
        if bool_decide (snap_status r = Snapshot.Ready) then (s, false)
        else (set_snapshot (Some (MkSnapshotRef (snap_id r) (snap_stop_id r)
                                    Snapshot.Failed true)) s, true)
    | None => (s, true)
    end
  else (s, false).

(** ** Consistency *)

Definition dirty_unless_tainted (s : SessionState) : SessionState :=
  if bool_decide (consistency s = Consistent.Tainted) then s
  else set_consistency Consistent.ManagedDirty s.

Definition note_limitation (limitation : string) (s : SessionState) : SessionState :=
  set_limitations (push_limitation (limitations s) limitation) s.

Definition reduce_outcome_unknown (token : N) (s : SessionState) : SessionState * bool :=
  let s := set_outcome_unknown_tokens ({[token]} ∪ outcome_unknown_tokens s) s in
  let s := set_backend Backend.Unresponsive s in
  (dirty_unless_tainted s, true).

Definition reduce_outcome_resolved (token : N) (s : SessionState) : SessionState * bool :=
  let removed := bool_decide (token ∈ outcome_unknown_tokens s) in
  let s := set_outcome_unknown_tokens (outcome_unknown_tokens s ∖ {[token]}) s in
  (if bool_decide (outcome_unknown_tokens s = ∅)
   then set_reconciliation_required true (set_backend Backend.Healthy s) else s,
   removed).

Definition reduce_consistency_restored (warnings : list string) (s : SessionState)
    : SessionState * bool :=
  let s := set_reconciliation_required false s in
  if bool_decide (consistency s = Consistent.Tainted) then
    (set_limitations (foldl push_limitation (limitations s) warnings) s,
     negb (bool_decide (warnings = [])))
  else
    let s := set_consistency Consistent.Clean s in
    let kept := filter (fun l => starts_with (bytes_of gap_prefix) (bytes_of l) = true)
                  (limitations s) in
    (set_limitations (foldl push_limitation kept warnings) s, true).

Definition with_every_status (st : Inferior.InferiorStatus) (s : SessionState)
    : SessionState :=
  clear_stop_context (set_inferiors (set_inf_status st <$> inferiors s) s).

Definition reduce_core_opened (backend_id : string) (s : SessionState)
    : SessionState * bool :=
  let s := ensure_inferior backend_id (event_seq s) s in
  let s := set_inferiors
    (alter (set_inf_status Inferior.Core) backend_id (inferiors s)) s in
  (set_lifecycle Lifecycle.Active (set_target_origin Origin.Core s), true).

(** ** The transition function *)

Definition reduce (event : Event.DomainEvent) (s : SessionState) : SessionState * bool :=
  match event with
  | Event.SessionClosing => (set_lifecycle Lifecycle.Closing s, true)
  | Event.SessionClosed =>
      (set_backend Backend.Dead (set_lifecycle Lifecycle.Closed s), true)
  | Event.BackendStarted =>
      (set_backend Backend.Healthy (set_lifecycle Lifecycle.Ready s), true)
  | Event.BackendExited _ => fail_backend s
  | Event.InferiorAdded backend_id pid => reduce_inferior_added backend_id pid s
  | Event.InferiorRemoved backend_id => reduce_inferior_removed backend_id s
  | Event.InferiorExited backend_id exit_code from_stop_record =>
      reduce_inferior_exited backend_id exit_code from_stop_record s
  | Event.TargetRunning backend_inferiors => reduce_target_running backend_inferiors s
  | Event.TargetStopped backend_inferior backend_thread reason reason_detail frame =>
      reduce_target_stopped backend_inferior backend_thread reason reason_detail frame s
  | Event.ThreadCreated backend_inferior backend_thread =>
      reduce_thread_created backend_inferior backend_thread s
  | Event.ThreadExited backend_inferior backend_thread =>
      reduce_thread_exited backend_inferior backend_thread s
  | Event.BreakpointCreated backend_number enabled pending
  | Event.BreakpointModified backend_number enabled pending =>
      reduce_breakpoint backend_number enabled pending s
  | Event.BreakpointDeleted backend_number => reduce_breakpoint_deleted backend_number s
  | Event.BreakpointLocations backend_number locations =>
      reduce_breakpoint_locations backend_number locations s
  | Event.BreakpointRebound id old new enabled address =>
      reduce_breakpoint_rebound id old new enabled address s
  | Event.LibraryLoaded id target_name host_name symbols_loaded =>
      (set_modules
         (<[id := MkModuleState id target_name host_name symbols_loaded]> (modules s)) s,
       true)
  | Event.LibraryUnloaded id =>
      (set_modules (delete id (modules s)) s, bool_decide (is_Some (modules s !! id)))
  | Event.MemoryChanged | Event.RegisterChanged _ => (set_snapshot None s, true)
  | Event.ControllerChanged _ => (s, true)
  | Event.EvidenceGap reason =>
      (set_limitations (insert_gap (limitations s) reason) s, true)
  | Event.SignalPolicyChanged signal policy =>
      (set_signal_policies (<[signal := policy]> (signal_policies s)) s, true)
  | Event.SnapshotStarted stop => reduce_snapshot_started stop s
  | Event.SnapshotReady stop snapshot_id partial =>
      reduce_snapshot_ready stop snapshot_id partial s
  | Event.SnapshotFailed stop => reduce_snapshot_failed stop s
  | Event.CommandOutcomeUnknown token => reduce_outcome_unknown token s
  | Event.CommandOutcomeResolved token => reduce_outcome_resolved token s
  | Event.ConsistencyDirty reason =>
      (note_limitation reason
         (set_reconciliation_required true (dirty_unless_tainted s)), true)
  | Event.ConsistencyReconciling =>
      if bool_decide (consistency s = Consistent.Tainted) then (s, false)
      else (set_consistency Consistent.Reconciling s, true)
  | Event.ConsistencyTainted reason =>
      (note_limitation reason
         (set_reconciliation_required true (set_consistency Consistent.Tainted s)), true)
  | Event.ConsistencyRestored warnings => reduce_consistency_restored warnings s
  | Event.ConsistencyLost reason =>
      (note_limitation reason
         (set_reconciliation_required false (set_consistency Consistent.Lost s)), true)
  | Event.TargetDisconnected => (with_every_status Inferior.Disconnected s, true)
  | Event.TargetDetached => (with_every_status Inferior.Detached s, true)
  | Event.CoreOpened backend_id => reduce_core_opened backend_id s
  | Event.TargetConfigured origin => (set_target_origin origin s, true)
  | Event.UnknownBackendEvent class =>
      (note_limitation ("unknown backend event: " +:+ class)
         (set_reconciliation_required true (set_consistency Consistent.Tainted s)), true)
  | Event.UnknownBackendNotification class =>
      (note_limitation ("unknown backend notification: " +:+ class)
         (set_reconciliation_required true (dirty_unless_tainted s)), true)
  | Event.Output _ _ | Event.OutputAdvanced _ _ _ _ => (s, false)
  end.

Definition bump_revision (r : SessionState * bool) : SessionState * bool :=
  let '(s, changed) := r in
  (if changed then set_revision (u64_wrapping_add (revision s) 1) s else s, changed).

(** [apply_event]: the state is borrowed mutably, so a rejected event leaves
    it as it was. *)
Definition apply_event (sequence : N) (event : Event.DomainEvent) (s : SessionState)
    : Result Error (SessionState * bool) :=
  if (sequence <=? event_seq s)%N then
    Err (Error_new Code.InvalidState
           ("event sequence " +:+ dec sequence +:+ " is not greater than " +:+
            dec (event_seq s)))
  else Ok (bump_revision (reduce event (set_event_seq sequence s))).

Definition apply (journaled : JournaledEvent) (s : SessionState)
    : Result Error (SessionState * bool) :=
  apply_event (je_seq journaled) (je_event journaled) s.

Definition fail_closed (s : SessionState) : SessionState * bool :=
  bump_revision (fail_backend s).
