(* ===== verification/ReducerInv.v ===== *)
(** * ReducerInv: the invariants of the session state

    What every event keeps true.  First the registry: every entry is stored under its
    backend id, its public handle is the one its creation event made, and no
    two live inferiors or threads share a handle; three closure lemmas
    ([reg_evolve], [reg_fresh], [reg_thread]) cover every way an event arm
    changes it.  Then the stop context, the all-stop discipline, the tables and
    the limitations, with what they say of every session. *)
From S2P Require Import Prelude Text Json Errors Domain Reducer.

(** [n] bounds the creation events of the inferiors, [m] of the threads. *)
Record wf_inferior (session : SessionId) (n m : N) (key : string) (i : InferiorState)
    : Prop := {
  wi_key : inf_backend_id i = key;
  wi_id : inf_id i = InferiorId_from_backend session (inf_generation i) key;
  wi_generation : (inf_generation i <= n)%N;
  wi_threads : forall t th, inf_threads i !! t = Some th ->
    th_backend_id th = t /\
    exists c, (c <= m)%N /\ th_id th = ThreadId_from_backend (inf_id i) c t
}.

Record registry (session : SessionId) (n m : N) (r : gmap string InferiorState)
    : Prop := {
  reg_entries : forall k i, r !! k = Some i -> wf_inferior session n m k i;
  reg_generations : forall k1 k2 i1 i2, r !! k1 = Some i1 -> r !! k2 = Some i2 ->
    inf_generation i1 = inf_generation i2 -> k1 = k2;
  reg_threads : forall k1 k2 i1 i2 t1 t2 th1 th2,
    r !! k1 = Some i1 -> r !! k2 = Some i2 ->
    inf_threads i1 !! t1 = Some th1 -> inf_threads i2 !! t2 = Some th2 ->
    th_id th1 = th_id th2 -> k1 = k2 /\ t1 = t2
}.

(** An entry that keeps its identity and gains no thread. *)
Definition evolves (i i' : InferiorState) : Prop :=
  inf_id i' = inf_id i /\ inf_backend_id i' = inf_backend_id i /\
  inf_generation i' = inf_generation i /\
  forall t th', inf_threads i' !! t = Some th' ->
    exists th, inf_threads i !! t = Some th /\ th_id th' = th_id th /\
               th_backend_id th' = th_backend_id th.

#[export] Instance evolves_refl : Reflexive evolves.
Proof. intros i. split_and!; eauto. Qed.

#[export] Instance evolves_trans : Transitive evolves.
Proof.
  intros i j k (? & ? & ? & Hij) (? & ? & ? & Hjk). split_and!; [congruence..|].
  intros t th (th' & Hl & ? & ?)%Hjk. destruct (Hij _ _ Hl) as (th'' & ? & ? & ?).
  exists th''. split_and!; congruence.
Qed.

Lemma evolves_same_threads i i' :
  inf_id i' = inf_id i -> inf_backend_id i' = inf_backend_id i ->
  inf_generation i' = inf_generation i -> inf_threads i' = inf_threads i -> evolves i i'.
Proof. intros ??? E. split_and!; auto. rewrite E. eauto. Qed.

Lemma registry_empty session n m : registry session n m ∅.
Proof. split; intros *; by rewrite lookup_empty. Qed.

Lemma registry_mono session n m n' m' r :
  registry session n m r -> (n <= n')%N -> (m <= m')%N -> registry session n' m' r.
Proof.
  intros [He Hg Ht] Hn Hm. split; [|done..].
  intros k i [? ? ? Hth]%He. split; [done..|lia|].
  intros t th (? & c & ? & ?)%Hth. split; [done|]. exists c. split; [lia|done].
Qed.

Lemma reg_evolve session n m r r' :
  registry session n m r ->
  (forall k i', r' !! k = Some i' -> exists i, r !! k = Some i /\ evolves i i') ->
  registry session n m r'.
Proof.
  intros [He Hg Ht] Hev. split.
  - intros k i' (i & Hi & Hid & Hb & Hgen & Hth)%Hev.
    destruct (He _ _ Hi) as [? ? ? Hthi]. split; [congruence|congruence|by rewrite Hgen|].
    intros t th' (th & Hl & Eid & Eb)%Hth. destruct (Hthi _ _ Hl) as (? & c & ? & ?).
    split; [congruence|]. exists c. split; [done|congruence].
  - intros k1 k2 i1' i2' (i1 & Hi1 & _ & _ & E1 & _)%Hev (i2 & Hi2 & _ & _ & E2 & _)%Hev E.
    apply (Hg k1 k2 i1 i2); [done..|congruence].
  - intros k1 k2 i1' i2' t1 t2 th1' th2'
      (i1 & Hi1 & _ & _ & _ & H1)%Hev (i2 & Hi2 & _ & _ & _ & H2)%Hev
      (th1 & Hl1 & E1 & _)%H1 (th2 & Hl2 & E2 & _)%H2 E.
    apply (Ht k1 k2 i1 i2 t1 t2 th1 th2); [done..|congruence].
Qed.

Lemma reg_delete session n m r k :
  registry session n m r -> registry session n m (delete k r).
Proof.
  intros H. eapply reg_evolve; [done|].
  intros k' i' [_ Hl]%lookup_delete_Some. by exists i'.
Qed.

Lemma reg_fmap session n m r f :
  registry session n m r -> (forall i, evolves i (f i)) ->
  registry session n m (f <$> r).
Proof.
  intros H Hf. eapply reg_evolve; [done|].
  intros k i' (i & <- & Hi)%lookup_fmap_Some. eauto.
Qed.

Lemma reg_alter session n m r f k :
  registry session n m r -> (forall i, evolves i (f i)) ->
  registry session n m (alter f k r).
Proof.
  intros H Hf. eapply reg_evolve; [done|]. intros k' i'.
  rewrite lookup_alter. case_decide; [|by exists i'].
  intros (i & Hi & ->)%fmap_Some. subst. eauto.
Qed.

(** A new inferior, created by an event after every recorded one. *)
Lemma reg_fresh session n n' m r k :
  registry session n m r -> (n < n')%N ->
  registry session n' m (<[k := fresh_inferior session n' k]> r).
Proof.
  intros [He Hg Ht] Hn. split.
  - intros k' i [[<- <-]|[_ Hi]]%lookup_insert_Some.
    + split; [done|done|cbn; lia|]. intros t th. cbn. by rewrite lookup_empty.
    + destruct (He _ _ Hi). split; [done..|lia|done].
  - intros k1 k2 i1 i2 [[<- <-]|[_ H1]]%lookup_insert_Some
      [[<- <-]|[_ H2]]%lookup_insert_Some E; cbn in E; [done|..|by eapply Hg].
    + destruct (He _ _ H2). lia.
    + destruct (He _ _ H1). lia.
  - intros k1 k2 i1 i2 t1 t2 th1 th2 [[<- <-]|[_ H1]]%lookup_insert_Some
      [[<- <-]|[_ H2]]%lookup_insert_Some; cbn; rewrite ?lookup_empty; [done..|].
    by eapply Ht.
Qed.

(** Two live threads created by different events have different handles. *)
Lemma registry_thread_fresh session n m r k k' i i' t t' th c :
  registry session n m r -> r !! k = Some i -> r !! k' = Some i' ->
  inf_threads i' !! t' = Some th -> (m < c)%N ->
  ThreadId_from_backend (inf_id i) c t <> th_id th.
Proof.
  intros [He Hg _] Hi Hi' Hth Hc E.
  destruct (He _ _ Hi) as [? Hid ? _]. destruct (He _ _ Hi') as [? Hid' ? Hthi].
  destruct (Hthi _ _ Hth) as (_ & c' & Hc' & Eid).
  assert (c = c'); [|lia]. rewrite Eid, Hid, Hid' in E.
  destruct (uses_compact_handles session) eqn:Hs.
  - by eapply ThreadId_compact_inj.
  - assert (inf_generation i = inf_generation i') as Eg by (by eapply ThreadId_legacy_inj).
    assert (k = k') as <- by (by eapply Hg). simplify_eq.
    by eapply ThreadId_creation_inj.
Qed.

(** A thread that keeps its handle, or gets one from a new event. *)
Lemma reg_thread session n m c r k i t th :
  registry session n m r -> r !! k = Some i -> (m < c)%N ->
  th_backend_id th = t ->
  th_id th = match inf_threads i !! t with
             | Some old => th_id old
             | None => ThreadId_from_backend (inf_id i) c t
             end ->
  registry session n c (<[k := set_inf_threads (<[t := th]> (inf_threads i)) i]> r).
Proof.
  intros Hreg Hi Hc Hb Hid.
  assert (forall k' i' t' th', r !! k' = Some i' -> inf_threads i' !! t' = Some th' ->
            th_id th = th_id th' -> k = k' /\ t = t') as Hsep.
  { intros k' i' t' th' Hi' Hth' E. rewrite Hid in E.
    destruct (inf_threads i !! t) as [old|] eqn:Hold; [by eapply (reg_threads _ _ _ _ Hreg)|].
    by destruct (registry_thread_fresh _ _ _ _ _ _ _ _ t _ _ _ Hreg Hi Hi' Hth' Hc). }
  destruct Hreg as [He Hg Ht]. split.
  - intros k' i' [[<- <-]|[_ Hi']]%lookup_insert_Some.
    + destruct (He _ _ Hi) as [? ? ? Hth]. split; [done..|]. cbn.
      intros t' th' [[<- <-]|[_ Hl]]%lookup_insert_Some.
      * split; [done|]. rewrite Hid. destruct (inf_threads i !! t) as [old|] eqn:Hold.
        -- destruct (Hth _ _ Hold) as (_ & c' & ? & ?). exists c'. split; [lia|done].
        -- exists c. split; [lia|done].
      * destruct (Hth _ _ Hl) as (? & c' & ? & ?). split; [done|].
        exists c'. split; [lia|done].
    + destruct (He _ _ Hi') as [? ? ? Hth]. split; [done..|].
      intros t' th' (? & c' & ? & ?)%Hth. split; [done|]. exists c'. split; [lia|done].
  - intros k1 k2 i1 i2 [[<- <-]|[? H1]]%lookup_insert_Some
      [[<- <-]|[? H2]]%lookup_insert_Some E; cbn in E; [done|by eapply Hg..].
  - intros k1 k2 i1 i2 t1 t2 th1 th2 [[<- <-]|[? H1]]%lookup_insert_Some
      [[<- <-]|[? H2]]%lookup_insert_Some; cbn.
    + intros [[<- <-]|[? L1]]%lookup_insert_Some [[<- <-]|[? L2]]%lookup_insert_Some E;
        [done|by eapply Hsep| |by eapply Ht].
      by destruct (Hsep _ _ _ _ Hi L1 (eq_sym E)).
    + intros [[<- <-]|[? L1]]%lookup_insert_Some L2 E; [by eapply Hsep|by eapply Ht].
    + intros L1 [[<- <-]|[? L2]]%lookup_insert_Some E; [|by eapply Ht].
      by destruct (Hsep _ _ _ _ H1 L1 (eq_sym E)).
    + intros L1 L2 E. by eapply Ht.
Qed.

(** ** Every invariant of the session state

    What every event keeps true: the registry invariant, the coherence of the
    stop context, the all-stop discipline, the keys of the breakpoint and
    module tables and the shape of the limitation list.  Each has one lemma
    per changing arm and a lemma for [reduce]; [wf] collects them. *)

(** *** What no event touches *)

Lemma ensure_shape k g s :
  ensure_inferior k g s = set_inferiors (inferiors (ensure_inferior k g s)) s.
Proof. unfold ensure_inferior. by destruct s; case_match. Qed.

Lemma ensure_lookup k g s : is_Some (inferiors (ensure_inferior k g s) !! k).
Proof.
  unfold ensure_inferior. destruct (inferiors s !! k) eqn:E; cbn; [by rewrite E|].
  by rewrite lookup_insert_eq.
Qed.

Lemma ensure_entry k g s k' i :
  inferiors (ensure_inferior k g s) !! k' = Some i ->
  inferiors s !! k' = Some i \/
  k' = k /\ inferiors s !! k = None /\ i = fresh_inferior (session_id s) g k.
Proof.
  unfold ensure_inferior. destruct (inferiors s !! k) eqn:E; cbn; [by left|].
  intros [[-> <-]|[? H]]%lookup_insert_Some; naive_solver.
Qed.

(** Rewrites every [ensure_inferior] of the goal into a field update. *)
Ltac ensure_norm :=
  repeat match goal with
  | |- context [ ensure_inferior ?k ?g ?s ] =>
      let r := fresh "r" in let E := fresh "Er" in
      rewrite (ensure_shape k g s); remember (inferiors (ensure_inferior k g s)) as r eqn:E
  end.

(** Unfolds the transition function down to its field updates. *)
Ltac unfold_reduce :=
  unfold reduce, fail_backend, reduce_inferior_added, reduce_inferior_removed,
    reduce_inferior_exited, reduce_target_running, reduce_target_stopped,
    record_stopped_thread, reduce_thread_created, reduce_thread_exited, remove_thread,
    reduce_breakpoint, reduce_breakpoint_deleted, reduce_breakpoint_locations,
    reduce_breakpoint_rebound, reduce_snapshot_started, reduce_snapshot_ready,
    reduce_snapshot_failed, reduce_outcome_unknown, reduce_outcome_resolved,
    reduce_consistency_restored, with_every_status, reduce_core_opened,
    dirty_unless_tainted, note_limitation, clear_stop_context in *.

(** Splits the branches of an unfolded arm.  The tests are split before the
    field updates are computed, so that no decision procedure is evaluated. *)
Ltac split_reduce :=
  cbv zeta; cbn [fst snd];
  repeat (case_match; simplify_eq; cbn [fst snd]); cbn -[ensure_inferior].

Lemma reduce_frame e s :
  session_id (reduce e s).1 = session_id s /\ event_seq (reduce e s).1 = event_seq s /\
  revision (reduce e s).1 = revision s.
Proof.
  destruct e; unfold_reduce; split_reduce; ensure_norm; done.
Qed.

(** *** The registry *)

Lemma ensure_registry k g s n m :
  registry (session_id s) n m (inferiors s) -> (n < g)%N ->
  registry (session_id s) g m (inferiors (ensure_inferior k g s)).
Proof.
  intros H Hg. unfold ensure_inferior. destruct (inferiors s !! k) eqn:E; cbn.
  - eapply registry_mono; [done|lia|lia].
  - by eapply reg_fresh.
Qed.

Lemma find_owner_Some thread s k :
  owner_of_thread thread s = Some k ->
  exists i, inferiors s !! k = Some i /\ is_Some (inf_threads i !! thread).
Proof.
  unfold owner_of_thread. intros ([k' i] & H & ->)%fmap_Some.
  apply List.find_some in H as [Hin Ht%bool_decide_eq_true].
  exists i. split; [|done]. by apply elem_of_btree_iter, list_elem_of_In.
Qed.

Section registry_step.
#[local] Set Default Proof Using "Type".
Context (s : SessionState) (n m : N).
Hypothesis Hreg : registry (session_id s) n m (inferiors s).
Hypothesis Hn : (n < event_seq s)%N.
Hypothesis Hm : (m < event_seq s)%N.

Abbreviation stepped r := (registry (session_id s) (event_seq s) (event_seq s) r).

Lemma stepped_mono r : registry (session_id s) n m r -> stepped r.
Proof using Hn Hm. intros H. eapply registry_mono; [done|lia..]. Qed.

Lemma stepped_ensured k : registry (session_id s) (event_seq s) m
                            (inferiors (ensure_inferior k (event_seq s) s)).
Proof using Hreg Hn. by eapply ensure_registry. Qed.

Lemma restart_registry k pid :
  stepped (inferiors (reduce_inferior_added k pid s).1).
Proof using Hreg Hn Hm.
  unfold reduce_inferior_added. pose proof (stepped_ensured k) as He.
  rewrite (ensure_shape k). remember (inferiors (ensure_inferior _ _ _)) as r eqn:Er.
  cbn. assert (stepped (alter (restart_inferior (session_id s) (event_seq s) k pid) k r));
    [|by destruct (bool_decide (is_Some pid))].
  set (b := fun i => bool_decide (is_Some pid) &&
       (negb (bool_decide (inf_pid i = pid)) || terminal_status (inf_status i))).
  destruct (r !! k) as [i|] eqn:Hi; [|].
  2: { eapply registry_mono; [|reflexivity|exact (N.lt_le_incl _ _ Hm)].
       by rewrite alter_id by (intros; congruence). }
  assert (registry (session_id s) (event_seq s) m
            (<[k := if b i then fresh_inferior (session_id s) (event_seq s) k else i]> r))
    as Hb.
  { destruct (b i); [|by rewrite insert_id].
    assert (registry (session_id s) n m (inferiors s)) by done.
    unfold ensure_inferior in Er. destruct (inferiors s !! k) eqn:Es; cbn in Er; subst r.
    - by eapply reg_fresh.
    - rewrite insert_insert_eq. by eapply reg_fresh. }
  eapply registry_mono; [|reflexivity|exact (N.lt_le_incl _ _ Hm)].
  eapply reg_evolve; [exact Hb|]. intros k' i'.
  rewrite lookup_alter. case_decide as Hk; subst.
  - rewrite lookup_insert_eq, Hi. cbn. intros [= <-]. eexists. split; [done|].
    unfold restart_inferior. fold (b i).
    destruct (b i); cbn; case_match; by apply evolves_same_threads.
  - rewrite lookup_insert_ne by done. by exists i'.
Qed.

Lemma exited_evolves d code i : evolves i (exited_inferior d code i).
Proof. unfold exited_inferior. destruct code; by apply evolves_same_threads. Qed.

Lemma status_evolves st i : evolves i (set_inf_status st i).
Proof. by apply evolves_same_threads. Qed.

Lemma fmap_threads_evolves (f : ThreadState -> ThreadState) st i :
  (forall t, th_id (f t) = th_id t /\ th_backend_id (f t) = th_backend_id t) ->
  evolves i (set_inf_threads (f <$> inf_threads i) (set_inf_status st i)).
Proof.
  intros Hf. split_and!; [done..|]. cbn.
  intros t th' (th & <- & H)%lookup_fmap_Some. exists th. by destruct (Hf th).
Qed.

Lemma resumed_evolves i : evolves i (resumed_inferior i).
Proof. by apply fmap_threads_evolves. Qed.

Lemma paused_evolves i : evolves i (paused_inferior i).
Proof.
  unfold paused_inferior. case_match; [reflexivity|]. by apply fmap_threads_evolves.
Qed.

Lemma exited_registry b code stop :
  stepped (inferiors (reduce_inferior_exited b code stop s).1).
Proof using Hreg Hn Hm.
  unfold reduce_inferior_exited.
  destruct (attributed_inferior s b) as [k|]; [|by apply stepped_mono].
  match goal with |- context [ if ?c then clear_stop_context _ else _ ] => destruct c end;
  cbn -[ensure_inferior];
  eapply registry_mono; [|reflexivity|exact (N.lt_le_incl _ _ Hm)| |reflexivity|exact (N.lt_le_incl _ _ Hm)];
  (apply reg_alter; [apply stepped_ensured|apply exited_evolves]).
Qed.

Lemma running_registry groups :
  stepped (inferiors (reduce_target_running groups s).1).
Proof using Hreg Hn Hm.
  unfold reduce_target_running.
  set (s1 := if bool_decide (inferiors s = ∅) then _ else s).
  assert (registry (session_id s) (event_seq s) m (inferiors s1)) as H1.
  { unfold s1. case_match; [apply stepped_ensured|].
    eapply registry_mono; [done|lia|lia]. }
  match goal with |- context [ if ?c then set_execution_epoch _ _ else _ ] => destruct c end;
  cbn; eapply registry_mono; [|reflexivity|exact (N.lt_le_incl _ _ Hm)| |reflexivity|exact (N.lt_le_incl _ _ Hm)];
  (eapply reg_evolve; [exact H1|]; intros k i'; rewrite map_lookup_imap;
   intros (i & Hi & [= <-])%bind_Some; exists i; split; [done|];
   case_match; [apply resumed_evolves|reflexivity]).
Qed.

Lemma stopped_registry bi bt reason detail frame :
  stepped (inferiors (reduce_target_stopped bi bt reason detail frame s).1).
Proof using Hreg Hn Hm.
  unfold reduce_target_stopped. set (k := stopped_group bi bt s).
  pose proof (stepped_ensured k) as He.
  rewrite (ensure_shape k). remember (inferiors (ensure_inferior _ _ _)) as r eqn:Er.
  apply (reg_fmap _ _ _ _ paused_inferior) in He; [|apply paused_evolves].
  unfold record_stopped_thread. cbn.
  destruct bt as [t|]; cbn; [|by eapply registry_mono; [done|reflexivity|lia]].
  destruct ((paused_inferior <$> r) !! k) as [i|] eqn:Hi; cbn;
    [|by eapply registry_mono; [done|reflexivity|lia]].
  by eapply reg_thread.
Qed.

Lemma created_registry b t : stepped (inferiors (reduce_thread_created b t s).1).
Proof using Hreg Hn Hm.
  unfold reduce_thread_created. pose proof (stepped_ensured b) as He.
  destruct (ensure_lookup b (event_seq s) s) as [i Hi]. rewrite Hi.
  destruct (inf_threads i !! t) as [th|] eqn:Ht; cbn -[ensure_inferior].
  - eapply reg_thread; [done..| |cbn; by rewrite Ht]. cbn.
    by destruct (wi_threads _ _ _ _ _ (reg_entries _ _ _ _ He _ _ Hi) _ _ Ht).
  - eapply reg_thread; [done..|cbn; by rewrite Ht].
Qed.

Lemma remove_thread_registry b t : stepped (inferiors (remove_thread b t s).1).
Proof using Hreg Hn Hm.
  apply stepped_mono. unfold remove_thread. destruct (inferiors s !! b) as [i|] eqn:Hi; [|done].
  destruct (inf_threads i !! t) eqn:Ht; [|done]. cbn.
  eapply reg_evolve; [done|]. intros k i' [[<- <-]|[? H]]%lookup_insert_Some; [|by exists i'].
  exists i. split; [done|]. split_and!; [done..|]. cbn.
  intros t' th' [_ H]%lookup_delete_Some. by exists th'.
Qed.

Lemma exited_thread_registry b t : stepped (inferiors (reduce_thread_exited b t s).1).
Proof using Hreg Hn Hm.
  unfold reduce_thread_exited.
  repeat case_match; [apply remove_thread_registry..|by apply stepped_mono].
Qed.

Lemma core_registry b : stepped (inferiors (reduce_core_opened b s).1).
Proof using Hreg Hn Hm.
  unfold reduce_core_opened. cbn -[ensure_inferior].
  eapply registry_mono; [|reflexivity|exact (N.lt_le_incl _ _ Hm)].
  apply reg_alter; [apply stepped_ensured|apply status_evolves].
Qed.

Lemma reduce_registry e : stepped (inferiors (reduce e s).1).
Proof using Hreg Hn Hm.
  destruct e; cbn [reduce];
    eauto using restart_registry, exited_registry, running_registry, stopped_registry,
      created_registry, exited_thread_registry, core_registry;
    apply stepped_mono; unfold_reduce; split_reduce;
    eauto using reg_delete, reg_fmap, status_evolves.
  eapply reg_fmap; [done|]. intros i. case_match; [apply status_evolves|reflexivity].
Qed.

End registry_step.

(** *** The stop context *)

(** Without a stop nothing of its context remains; with one, its handle was
    made by an event not later than [n], its reason and inferior are recorded
    and an advertised snapshot belongs to it. *)
Definition stop_coherent (n : N) (s : SessionState) : Prop :=
  match stop_id s with
  | None =>
      stop_reason s = None /\ stop_reason_detail s = None /\
      stopped_inferior_id s = None /\ stopped_thread_id s = None /\ snapshot s = None
  | Some stop =>
      (exists k, (k <= n)%N /\ stop = StopId_from_event (session_id s) k) /\
      is_Some (stop_reason s) /\ is_Some (stop_reason_detail s) /\
      is_Some (stopped_inferior_id s) /\
      forall r, snapshot s = Some r -> snap_stop_id r = stop
  end.

Lemma stop_coherent_mono n n' s :
  stop_coherent n s -> (n <= n')%N -> stop_coherent n' s.
Proof.
  unfold stop_coherent. case_match; [|done]. intros ((k & ? & ?) & ?) ?.
  split; [|done]. exists k. split; [lia|done].
Qed.

Lemma target_stopped_id bi bt reason detail frame s :
  stop_id (reduce_target_stopped bi bt reason detail frame s).1 =
    Some (StopId_from_event (session_id s) (event_seq s)).
Proof.
  unfold reduce_target_stopped, record_stopped_thread. rewrite (ensure_shape _ _ s).
  cbn -[ensure_inferior]. split_reduce; done.
Qed.

Lemma target_stopped_coherent bi bt reason detail frame s :
  stop_coherent (event_seq s) (reduce_target_stopped bi bt reason detail frame s).1.
Proof.
  unfold stop_coherent. rewrite target_stopped_id.
  unfold reduce_target_stopped, record_stopped_thread.
  set (k := stopped_group bi bt s).
  pose proof (ensure_lookup k (event_seq s) s) as Hk. rewrite (ensure_shape k).
  remember (inferiors (ensure_inferior _ _ _)) as r eqn:Er.
  assert (is_Some (inf_id <$> (paused_inferior <$> r) !! k)).
  { rewrite lookup_fmap. destruct Hk as [i ->]. by eexists. }
  cbn. split_reduce; (split; [eexists; split; [|done]; lia|]);
    split_and!; eauto; intros ? [= <-]; done.
Qed.

Lemma ensure_stop_coherent k g n s :
  stop_coherent n (ensure_inferior k g s) <-> stop_coherent n s.
Proof. rewrite ensure_shape. done. Qed.

Lemma clear_stop_coherent n s : stop_coherent n (clear_stop_context s).
Proof. done. Qed.

(** An arm that leaves the stop context alone. *)
Lemma stop_coherent_same n s s' :
  session_id s' = session_id s -> stop_id s' = stop_id s ->
  stop_reason s' = stop_reason s -> stop_reason_detail s' = stop_reason_detail s ->
  stopped_inferior_id s' = stopped_inferior_id s ->
  stopped_thread_id s' = stopped_thread_id s -> snapshot s' = snapshot s ->
  stop_coherent n s -> stop_coherent n s'.
Proof. unfold stop_coherent. by intros -> -> -> -> -> -> ->. Qed.

(** An arm that replaces the snapshot of the current stop. *)
Lemma stop_coherent_snapshot n s o :
  stop_coherent n s ->
  (forall r, o = Some r -> stop_id s = Some (snap_stop_id r)) ->
  stop_coherent n (set_snapshot o s).
Proof.
  unfold stop_coherent. cbn. destruct (stop_id s) as [stop|].
  - intros (? & ? & ? & ? & _) Ho. split_and!; [done..|].
    intros r Hr. specialize (Ho r Hr). by simplify_eq.
  - intros (? & ? & ? & ? & _) Ho. split_and!; [done..|].
    destruct o as [r|]; [|done]. by specialize (Ho r eq_refl).
Qed.

Lemma stop_coherent_current n s r :
  stop_coherent n s -> snapshot s = Some r -> stop_id s = Some (snap_stop_id r).
Proof.
  unfold stop_coherent. destruct (stop_id s) as [stop|]; [|by intros (?&?&?&?&->)].
  intros (? & ? & ? & ? & H) Hr. by rewrite (H r Hr).
Qed.

Lemma reduce_stop_coherent e s n :
  stop_coherent n s -> (n < event_seq s)%N -> stop_coherent (event_seq s) (reduce e s).1.
Proof.
  intros H Hn. apply (stop_coherent_mono n (event_seq s)) in H; [|lia].
  destruct e; cbn [reduce]; try apply target_stopped_coherent;
    unfold_reduce; split_reduce; ensure_norm; try done;
    try (by eapply stop_coherent_same; [..|exact H]);
    (apply stop_coherent_snapshot; [done|]; intros r' ?; simplify_eq/=);
    reflect_all; eauto using stop_coherent_current.
Qed.

(** *** All-stop *)

(** A running inferior excludes a current stop, and its threads run without a
    recorded frame. *)
Definition quiet (stopped : bool) (i : InferiorState) : Prop :=
  inf_status i = Inferior.Running ->
  stopped = false /\
  forall t th, inf_threads i !! t = Some th -> th_running th = true /\ th_frame th = None.

Definition has_stop (s : SessionState) : bool := bool_decide (is_Some (stop_id s)).

Definition all_stop (s : SessionState) : Prop :=
  forall k i, inferiors s !! k = Some i -> quiet (has_stop s) i.

Lemma quiet_not_running b i : inf_status i <> Inferior.Running -> quiet b i.
Proof. intros H ?. done. Qed.

Lemma quiet_clear b i : quiet b i -> quiet false i.
Proof. intros H Hr. destruct (H Hr). done. Qed.

#[local] Hint Resolve quiet_clear : core.

Lemma ensure_all_stop k g s : all_stop s -> all_stop (ensure_inferior k g s).
Proof.
  intros H k' i Hi. unfold has_stop. rewrite ensure_shape. cbn -[ensure_inferior].
  apply ensure_entry in Hi as [Hi|(_ & _ & ->)]; [by eapply H|].
  by apply quiet_not_running.
Qed.

Lemma all_stop_alter f k s :
  all_stop s -> (forall i b, quiet b i -> quiet b (f i)) ->
  all_stop (set_inferiors (alter f k (inferiors s)) s).
Proof.
  intros H Hf k' i. cbn. rewrite lookup_alter. case_decide as E; subst; [|by apply H].
  intros (i' & Hi & ->)%fmap_Some. apply Hf. by eapply H.
Qed.

Lemma all_stop_fmap f s :
  all_stop s -> (forall i b, quiet b i -> quiet b (f i)) ->
  all_stop (set_inferiors (f <$> inferiors s) s).
Proof.
  intros H Hf k' i. cbn. intros (i' & <- & Hi)%lookup_fmap_Some.
  apply Hf. by eapply H.
Qed.

Lemma all_stop_insert s k i :
  all_stop s -> quiet (has_stop s) i ->
  all_stop (set_inferiors (<[k := i]> (inferiors s)) s).
Proof.
  intros H Hi k' i'. cbn.
  intros [[<- <-]|[_ Hl]]%lookup_insert_Some; [done|]. by eapply H.
Qed.

(** Clearing the stop, and changes outside the registry. *)
Lemma all_stop_same s s' :
  all_stop s -> inferiors s' = inferiors s ->
  (stop_id s' = stop_id s \/ stop_id s' = None) -> all_stop s'.
Proof.
  intros H Hi Hs k i. rewrite Hi. intros Hl. unfold has_stop.
  destruct Hs as [->| ->]; [by eapply H|]. apply H in Hl. eauto.
Qed.

Lemma restart_quiet session seq k pid i b :
  quiet b i -> quiet b (restart_inferior session seq k pid i).
Proof.
  intros H. unfold restart_inferior.
  repeat case_match; cbn in *; try (by apply quiet_not_running); done.
Qed.

Lemma running_all_stop groups s :
  all_stop s -> all_stop (reduce_target_running groups s).1.
Proof.
  intros H. unfold reduce_target_running.
  set (s1 := if bool_decide (inferiors s = ∅) then _ else s).
  assert (all_stop s1) as H1 by (unfold s1; case_match; [by apply ensure_all_stop|done]).
  intros k i. case_match; cbn; rewrite map_lookup_imap;
    (intros (i' & Hi & [= <-])%bind_Some; apply H1 in Hi;
     case_match; [|by eauto]; intros _; split; [done|]; cbn;
     intros t th (th' & <- & _)%lookup_fmap_Some; done).
Qed.

Lemma paused_not_running i : inf_status (paused_inferior i) <> Inferior.Running.
Proof.
  unfold paused_inferior. destruct (inf_status i) eqn:E; cbn; by rewrite ?E.
Qed.

Lemma stopped_all_stop bi bt reason detail frame s :
  all_stop s -> all_stop (reduce_target_stopped bi bt reason detail frame s).1.
Proof.
  intros H k i Hi. apply quiet_not_running. revert Hi.
  unfold reduce_target_stopped, record_stopped_thread.
  rewrite (ensure_shape _ _ s). cbn -[ensure_inferior].
  remember (inferiors (ensure_inferior _ _ _)) as r eqn:Er.
  assert (forall k i, (paused_inferior <$> r) !! k = Some i ->
            inf_status i <> Inferior.Running) as Hp.
  { intros k' i' (i0 & <- & _)%lookup_fmap_Some. apply paused_not_running. }
  destruct bt as [t|]; cbn; [|by apply Hp].
  destruct ((paused_inferior <$> r) !! _) as [i0|] eqn:Ek; cbn; [|by apply Hp].
  intros [[<- <-]|[_ Hl]]%lookup_insert_Some; [cbn; by eapply Hp|by eapply Hp].
Qed.

Lemma created_all_stop b t s : all_stop s -> all_stop (reduce_thread_created b t s).1.
Proof.
  intros H. unfold reduce_thread_created.
  apply (ensure_all_stop b (event_seq s)) in H.
  destruct (ensure_lookup b (event_seq s) s) as [i Hi]. rewrite Hi.
  destruct (inf_threads i !! t) as [th|] eqn:Ht;
    (apply all_stop_insert; [done|]; intros Hr; destruct (H _ _ Hi Hr) as [? Hth];
     split; [done|]; intros t' th'; cbn -[ensure_inferior];
     intros [[<- <-]|[_ Hl]]%lookup_insert_Some; [|by eapply Hth]; cbn;
     rewrite bool_decide_true by done; split; [done|]; try done).
  by eapply Hth.
Qed.

Lemma remove_all_stop b t s : all_stop s -> all_stop (remove_thread b t s).1.
Proof.
  intros H. unfold remove_thread. destruct (inferiors s !! b) as [i|] eqn:Hi; [|done].
  destruct (inf_threads i !! t) eqn:Ht; [|done]. apply all_stop_insert; [done|].
  intros Hr. destruct (H _ _ Hi Hr) as [? Hth]. split; [done|].
  intros t' th'. cbn. intros [_ Hl]%lookup_delete_Some. by eapply Hth.
Qed.

Lemma exited_all_stop b code stop s :
  all_stop s -> all_stop (reduce_inferior_exited b code stop s).1.
Proof.
  intros H. unfold reduce_inferior_exited.
  destruct (attributed_inferior s b) as [k|]; [|done].
  apply (ensure_all_stop k (event_seq s)) in H.
  match goal with |- context [ exited_inferior ?d ?c ] =>
    apply (all_stop_alter (exited_inferior d c) k) in H end.
  - cbn [fst]. match goal with |- context [ if ?c then clear_stop_context _ else _ ] =>
      destruct c end; [|done]. eapply all_stop_same; [exact H|done|by right].
  - intros i b' _. apply quiet_not_running. unfold exited_inferior.
    repeat case_match; done.
Qed.

Lemma status_quiet st i b : st <> Inferior.Running -> quiet b (set_inf_status st i).
Proof. intros H. by apply quiet_not_running. Qed.

Lemma added_all_stop k pid s : all_stop s -> all_stop (reduce_inferior_added k pid s).1.
Proof.
  intros H. unfold reduce_inferior_added.
  apply (ensure_all_stop k (event_seq s)) in H. cbn [fst].
  match goal with |- context [ restart_inferior ?a ?b ?c ?d ] =>
    apply (all_stop_alter (restart_inferior a b c d) k) in H;
      [|intros; by apply restart_quiet] end.
  case_match; [|done]. eapply all_stop_same; [exact H|done|by left].
Qed.

Lemma core_all_stop k s : all_stop s -> all_stop (reduce_core_opened k s).1.
Proof.
  intros H. unfold reduce_core_opened.
  apply (ensure_all_stop k (event_seq s)) in H.
  apply (all_stop_alter (set_inf_status Inferior.Core) k) in H;
    [|intros; by apply status_quiet].
  eapply all_stop_same; [exact H|done|by left].
Qed.

Lemma every_status_all_stop st s :
  st <> Inferior.Running -> all_stop s -> all_stop (with_every_status st s).
Proof.
  intros Hst H. apply (all_stop_fmap (set_inf_status st)) in H;
    [|intros; by apply status_quiet].
  eapply all_stop_same; [exact H|done|by right].
Qed.

Lemma failed_all_stop s : all_stop s -> all_stop (fail_backend s).1.
Proof.
  intros H. unfold fail_backend.
  intros k i. cbn. intros (i' & <- & Hi%H)%lookup_fmap_Some.
  case_match; [by apply status_quiet|]. by eapply quiet_clear.
Qed.

Lemma removed_all_stop k s : all_stop s -> all_stop (reduce_inferior_removed k s).1.
Proof.
  intros H. unfold reduce_inferior_removed. case_match; [|done]. cbn [fst].
  assert (all_stop (set_inferiors (delete k (inferiors s)) s)) as Hd.
  { intros k' i'. cbn. intros [_ Hl]%lookup_delete_Some. by eapply H. }
  case_match; [|done]. eapply all_stop_same; [exact Hd|done|by right].
Qed.

Lemma exited_thread_all_stop b t s :
  all_stop s -> all_stop (reduce_thread_exited b t s).1.
Proof.
  intros H. unfold reduce_thread_exited. repeat case_match; [by apply remove_all_stop..|done].
Qed.

Lemma reduce_all_stop e s : all_stop s -> all_stop (reduce e s).1.
Proof.
  intros H. destruct e; cbn [reduce fst];
    eauto using running_all_stop, stopped_all_stop, created_all_stop, exited_all_stop,
      added_all_stop, core_all_stop, failed_all_stop, removed_all_stop,
      exited_thread_all_stop;
    try (by apply every_status_all_stop);
    unfold_reduce; split_reduce; try done;
    by eapply all_stop_same; [exact H|done|cbn; auto].
Qed.

(** *** The breakpoint and module tables *)

Definition keyed {A} (key : A -> string) (m : gmap string A) : Prop :=
  forall k a, m !! k = Some a -> key a = k.

Lemma keyed_insert {A} (key : A -> string) m k a :
  keyed key m -> key a = k -> keyed key (<[k := a]> m).
Proof. intros H Ha k' a' [[<- <-]|[_ Hl]]%lookup_insert_Some; [done|by apply H]. Qed.

Lemma keyed_delete {A} (key : A -> string) m k : keyed key m -> keyed key (delete k m).
Proof. intros H k' a' [_ Hl]%lookup_delete_Some. by apply H. Qed.

Lemma reduce_breakpoints e s :
  keyed bp_backend_number (breakpoints s) ->
  keyed bp_backend_number (breakpoints (reduce e s).1).
Proof.
  intros H. destruct e; unfold_reduce; split_reduce; ensure_norm;
    eauto using keyed_insert, keyed_delete.
  apply keyed_insert; [done|]. cbn. by apply H.
Qed.

Lemma reduce_modules e s :
  keyed mod_id (modules s) -> keyed mod_id (modules (reduce e s).1).
Proof.
  intros H. destruct e; unfold_reduce; split_reduce; ensure_norm;
    eauto using keyed_insert, keyed_delete.
Qed.

(** *** The limitation list *)

(** No entry twice, the truncation marker only at the end, and at most
    [MAX_LIMITATIONS] entries besides it. *)
Record limitations_ok (l : list string) : Prop := {
  lim_nodup : NoDup l;
  lim_marker : LIMITATIONS_OMITTED ∈ l -> last l = Some LIMITATIONS_OMITTED;
  lim_length : length l <= MAX_LIMITATIONS \/
               length l = S MAX_LIMITATIONS /\ LIMITATIONS_OMITTED ∈ l
}.

Lemma push_limitation_ok l x : limitations_ok l -> limitations_ok (push_limitation l x).
Proof.
  intros H. unfold push_limitation.
  destruct (bool_decide_reflect (x ∈ l)) as [?|Hx]; [done|]. cbn.
  destruct (bool_decide_reflect (LIMITATIONS_OMITTED ∈ l)) as [?|Ho]; [done|].
  destruct H as [Hnd _ Hlen].
  assert (forall y, y ∉ l -> length l < MAX_LIMITATIONS \/ y = LIMITATIONS_OMITTED ->
            limitations_ok (l ++ [y])) as Hpush.
  { intros y Hy Hor. split.
    - apply NoDup_app. split_and!; [done| |apply NoDup_singleton].
      intros z Hz ->%list_elem_of_singleton. done.
    - rewrite last_snoc. intros [?| ->%list_elem_of_singleton]%elem_of_app; done.
    - rewrite length_app. cbn [length]. destruct Hor as [?| ->]; [left; lia|].
      destruct Hlen as [?|[_ ?]]; [|done].
      destruct (decide (length l = MAX_LIMITATIONS)); [right|left; lia].
      split; [lia|]. apply elem_of_app. right. by apply list_elem_of_singleton. }
  case_bool_decide; apply Hpush; auto. left. unfold MAX_LIMITATIONS in *. lia.
Qed.

Lemma insert_gap_ok l r : limitations_ok l -> limitations_ok (insert_gap l r).
Proof.
  intros [Hnd Hm Hlen]. unfold insert_gap.
  destruct (bool_decide_reflect (gap_prefix +:+ r ∈ l)) as [?|Hx]; [done|].
  assert (gap_prefix +:+ r <> LIMITATIONS_OMITTED) as Hne by done.
  remember (gap_prefix +:+ r) as g eqn:Eg. clear Eg. cbn [length].
  assert (NoDup (g :: l)) as Hnd' by (by apply NoDup_cons).
  case_bool_decide as Hlong.
  - assert (LIMITATIONS_OMITTED ∉ take (MAX_LIMITATIONS - 1) (g :: l)) as Hno.
    { intros [i [Hi Hlt]%lookup_take_Some]%list_elem_of_lookup.
      destruct i as [|i]; cbn in Hi; [by simplify_eq|].
      assert (LIMITATIONS_OMITTED ∈ l) as Hin by (by eapply list_elem_of_lookup_2).
      specialize (Hm Hin). rewrite last_lookup in Hm.
      pose proof (NoDup_lookup l _ _ _ Hnd Hi Hm).
      unfold MAX_LIMITATIONS in *. lia. }
    split.
    + apply NoDup_app. split_and!; [|by intros z Hz ->%list_elem_of_singleton|apply NoDup_singleton].
      eapply sublist_NoDup; [exact Hnd'|apply sublist_take].
    + by rewrite last_snoc.
    + left. rewrite length_app, length_take. cbn [length]. unfold MAX_LIMITATIONS in *. lia.
  - split; [done| |left; cbn; lia].
    intros [?|Hin]%elem_of_cons; [by subst|]. specialize (Hm Hin).
    destruct l as [|y l]; [by apply elem_of_nil in Hin|]. by rewrite last_cons_cons.
Qed.

Lemma foldl_push_ok l ws : limitations_ok l -> limitations_ok (foldl push_limitation l ws).
Proof.
  revert l. induction ws as [|w ws IH]; intros l H; [done|]. cbn.
  apply IH, push_limitation_ok, H.
Qed.

(** Filtering on the gap prefix drops the marker. *)
Lemma retain_gaps_ok l :
  limitations_ok l ->
  limitations_ok
    (filter (fun x => starts_with (bytes_of gap_prefix) (bytes_of x) = true) l).
Proof.
  intros [Hnd Hm Hlen].
  assert (LIMITATIONS_OMITTED ∉
    filter (fun x => starts_with (bytes_of gap_prefix) (bytes_of x) = true) l) as Hno.
  { intros [? _]%list_elem_of_filter. done. }
  split; [by apply NoDup_filter|done|].
  left. destruct Hlen as [?|[? Hin]].
  - etrans; [apply length_filter|done].
  - assert (length (filter
      (fun x => starts_with (bytes_of gap_prefix) (bytes_of x) = true) l) < length l); [|lia].
    by eapply length_filter_lt.
Qed.

Lemma reduce_limitations e s :
  limitations_ok (limitations s) -> limitations_ok (limitations (reduce e s).1).
Proof.
  intros H. destruct e; unfold_reduce; split_reduce; ensure_norm;
    eauto using push_limitation_ok, insert_gap_ok, foldl_push_ok, retain_gaps_ok.
Qed.

(** *** What a session guarantees over all its events

    The session as a transition system whose steps are the accepted events and
    the fail-closed transition, the invariant of its reachable states, and the
    guarantees clients build on: stale stop handles stay stale, the revision
    is a version stamp of the state, the execution epoch counts resumptions,
    taint is kept, and failing closed is final. *)

Record wf (s : SessionState) : Prop := {
  wf_registry : registry (session_id s) (event_seq s) (event_seq s) (inferiors s);
  wf_stop : stop_coherent (event_seq s) s;
  wf_all_stop : all_stop s;
  wf_breakpoints : keyed bp_backend_number (breakpoints s);
  wf_modules : keyed mod_id (modules s);
  wf_limitations : limitations_ok (limitations s)
}.

Inductive step : SessionState -> SessionState -> Prop :=
| step_event seq event s s' changed :
    apply_event seq event s = Ok (s', changed) -> step s s'
| step_fail_closed s : step s (fail_closed s).1.

Definition reachable (session : SessionId) : SessionState -> Prop :=
  rtc step (creating session).

Lemma creating_wf session : wf (creating session).
Proof.
  split; [apply registry_empty|by split_and!|intros k i; cbn; by rewrite lookup_empty| | |].
  - intros k a. cbn. by rewrite lookup_empty.
  - intros k a. cbn. by rewrite lookup_empty.
  - split; [apply NoDup_nil_2|by intros ?%elem_of_nil|left; cbn; lia].
Qed.

(** The registry, stop context and tables do not mention the revision. *)
Lemma wf_set_revision v s : wf s -> wf (set_revision v s).
Proof. intros [? ? ? ? ? ?]. by split. Qed.

Lemma bump_revision_wf r : wf r.1 -> wf (bump_revision r).1.
Proof. destruct r as [s []]; cbn; [apply wf_set_revision|done]. Qed.

Lemma apply_event_inv seq e s s' changed :
  apply_event seq e s = Ok (s', changed) ->
  (event_seq s < seq)%N /\ exists s1,
    reduce e (set_event_seq seq s) = (s1, changed) /\ s' = (bump_revision (s1, changed)).1.
Proof.
  unfold apply_event. destruct (N.leb_spec seq (event_seq s)); intros [=]; [].
  split; [done|]. destruct (reduce _ _) as [s1 c] eqn:E. exists s1. by simplify_eq/=.
Qed.

Lemma reduce_wf seq e s s1 changed :
  wf s -> (event_seq s < seq)%N -> reduce e (set_event_seq seq s) = (s1, changed) -> wf s1.
Proof.
  intros [Hr Hs Ha Hb Hm Hl] Hseq E. set (s0 := set_event_seq seq s) in *.
  replace s1 with (reduce e s0).1 by (by rewrite E).
  destruct (reduce_frame e s0) as (Esess & Eseq & _).
  split; rewrite ?Esess, ?Eseq.
  - eapply reduce_registry; [exact Hr|done..].
  - eapply (reduce_stop_coherent e s0 (event_seq s)); [exact Hs|done].
  - apply reduce_all_stop. exact Ha.
  - apply reduce_breakpoints. exact Hb.
  - apply reduce_modules. exact Hm.
  - apply reduce_limitations. exact Hl.
Qed.

Lemma apply_event_wf seq e s s' changed :
  wf s -> apply_event seq e s = Ok (s', changed) -> wf s'.
Proof.
  intros H (Hseq & s1 & E & ->)%apply_event_inv.
  apply bump_revision_wf. by eapply reduce_wf.
Qed.

Lemma fail_backend_wf s : wf s -> wf (fail_backend s).1.
Proof.
  intros [Hr Hs Ha Hb Hm Hl]. split; [|done| |done..].
  - unfold fail_backend. cbn. apply reg_fmap; [done|].
    intros i. case_match; [apply status_evolves|reflexivity].
  - by apply failed_all_stop.
Qed.

Lemma step_wf s s' : wf s -> step s s' -> wf s'.
Proof.
  intros H Hs. destruct Hs as [seq e s0 s1 c E|s0]; [exact (apply_event_wf _ _ _ _ _ H E)|].
  by apply bump_revision_wf, fail_backend_wf.
Qed.

Lemma reachable_wf session s : reachable session s -> wf s.
Proof.
  unfold reachable. intros H.
  assert (wf (creating session)) as Hw by apply creating_wf.
  induction H as [|s0 s1 s2 Hstep _ IH]; [done|]. by eapply IH, step_wf.
Qed.

(** *** Stop handles *)

(** A step leaves the stop, clears it, or replaces it by a handle made from
    its own sequence number. *)
Lemma reduce_stop_id e s :
  stop_id (reduce e s).1 = stop_id s \/ stop_id (reduce e s).1 = None \/
  stop_id (reduce e s).1 = Some (StopId_from_event (session_id s) (event_seq s)).
Proof.
  destruct e; cbn [reduce]; try (right; right; apply target_stopped_id);
    unfold_reduce; split_reduce; ensure_norm; auto.
Qed.

Lemma bump_revision_fields r :
  session_id (bump_revision r).1 = session_id r.1 /\
  event_seq (bump_revision r).1 = event_seq r.1 /\
  stop_id (bump_revision r).1 = stop_id r.1 /\
  execution_epoch (bump_revision r).1 = execution_epoch r.1 /\
  inferiors (bump_revision r).1 = inferiors r.1.
Proof. by destruct r as [s []]. Qed.

Lemma step_frame s s' :
  step s s' -> session_id s' = session_id s /\ (event_seq s <= event_seq s')%N.
Proof.
  intros H. destruct H as [seq e s0 s1 c E|s0].
  - apply apply_event_inv in E as (Hseq & s2 & E & ->).
    pose proof (reduce_frame e (set_event_seq seq s0)) as (? & ? & _).
    pose proof (bump_revision_fields (s2, c)) as (-> & -> & _).
    rewrite E in *. cbn in *. split; [done|lia].
  - unfold fail_closed. pose proof (bump_revision_fields (fail_backend s0)) as (-> & -> & _). cbn. by split.
Qed.

Lemma step_stop_id s s' :
  step s s' ->
  stop_id s' = stop_id s \/ stop_id s' = None \/
  exists k, (event_seq s < k)%N /\ stop_id s' = Some (StopId_from_event (session_id s) k).
Proof.
  intros H. destruct H as [seq e s0 s1 c E|s0].
  - apply apply_event_inv in E as (Hseq & s2 & E & ->).
    pose proof (reduce_stop_id e (set_event_seq seq s0)) as Hs. rewrite E in Hs. cbn in Hs.
    pose proof (bump_revision_fields (s2, c)) as (_ & _ & -> & _). cbn. naive_solver.
  - unfold fail_closed. pose proof (bump_revision_fields (fail_backend s0)) as (_ & _ & -> & _). cbn. auto.
Qed.

(** [stop] was issued by an event not later than [n] of this session. *)
Definition issued_stop (s : SessionState) (stop : StopId) : Prop :=
  exists k, (k <= event_seq s)%N /\ stop = StopId_from_event (session_id s) k.

Lemma step_keeps_stale s s' stop :
  step s s' -> issued_stop s stop -> stop_id s <> Some stop ->
  issued_stop s' stop /\ stop_id s' <> Some stop.
Proof.
  intros Hst (k & Hk & ->) Hne. destruct (step_frame _ _ Hst) as [Hsess Hle]. split.
  - exists k. rewrite Hsess. split; [lia|done].
  - destruct (step_stop_id _ _ Hst) as [->|[->|(k' & Hk' & ->)]]; [done|done|].
    intros [= E%(inj _)]. lia.
Qed.

Lemma steps_keep_stale s s' stop :
  rtc step s s' -> issued_stop s stop -> stop_id s <> Some stop ->
  stop_id s' <> Some stop.
Proof.
  induction 1 as [|s0 s1 s2 Hst _ IH]; [done|]. intros Hi Hne.
  destruct (step_keeps_stale _ _ _ Hst Hi Hne). auto.
Qed.

Lemma current_stop_issued s stop :
  wf s -> stop_id s = Some stop -> issued_stop s stop.
Proof.
  intros [_ Hs _ _ _ _] E. unfold stop_coherent in Hs. rewrite E in Hs.
  by destruct Hs as [? _].
Qed.

Lemma step_keeps_issued s s' stop : step s s' -> issued_stop s stop -> issued_stop s' stop.
Proof.
  intros Hst (k & Hk & ->). destruct (step_frame _ _ Hst) as [Hsess Hle].
  exists k. rewrite Hsess. split; [lia|done].
Qed.

Lemma steps_keep_issued s s' stop :
  rtc step s s' -> issued_stop s stop -> issued_stop s' stop.
Proof. induction 1; eauto using step_keeps_issued. Qed.

(** A stop handle that is no longer the current stop of a session is
    rejected with [StaleContext] forever after: no later sequence of events
    makes [require_stop] accept it again. *)
Theorem stale_stop_never_revives session s1 s2 s3 stop :
  reachable session s1 -> stop_id s1 = Some stop ->
  rtc step s1 s2 -> stop_id s2 <> Some stop -> rtc step s2 s3 ->
  exists message, require_stop s3 stop = Err (Error_new Code.StaleContext message).
Proof.
  intros Hr H1 H12 H2 H23.
  assert (stop_id s3 <> Some stop) as H3.
  { eapply steps_keep_stale; [done| |done].
    eapply steps_keep_issued; [done|]. eapply current_stop_issued; [|done].
    by eapply reachable_wf. }
  unfold require_stop. rewrite decide_False by done. by eexists.
Qed.

(** *** The revision is a version stamp of the session state

    Clients use the revision for optimistic concurrency.  An event that
    reports no change leaves the state as it was, but for two silent updates,
    which are characterised exactly. *)

Lemma fmap_id_on {A} (f : A -> A) (m : gmap string A) :
  (forall k x, m !! k = Some x -> f x = x) -> f <$> m = m.
Proof.
  intros H. apply map_eq. intros k. rewrite lookup_fmap.
  destruct (m !! k) eqn:E; cbn; [|done]. by rewrite (H _ _ E).
Qed.

Lemma set_inferiors_id s : set_inferiors (inferiors s) s = s.
Proof. by destruct s. Qed.

Lemma clear_stop_id n s :
  stop_coherent n s -> stop_id s = None -> clear_stop_context s = s.
Proof.
  unfold stop_coherent. intros H E. rewrite E in H. destruct H as (?&?&?&?&?).
  destruct s; cbn in *. by simplify_eq.
Qed.

Lemma existsb_btree_false {A} (p : A -> bool) (m : gmap string A) :
  existsb p (btree_values m) = false -> forall k x, m !! k = Some x -> p x = false.
Proof.
  intros H k x Hx. destruct (p x) eqn:E; [|done].
  assert (existsb p (btree_values m) = true); [|congruence].
  apply existsb_exists. exists x. split; [|done].
  apply list_elem_of_In, elem_of_btree_values. by exists k.
Qed.

Lemma existsb_iter_false {A} (p : string * A -> bool) (m : gmap string A) :
  existsb p (btree_iter m) = false -> forall k x, m !! k = Some x -> p (k, x) = false.
Proof.
  intros H k x Hx. destruct (p (k, x)) eqn:E; [|done].
  assert (existsb p (btree_iter m) = true); [|congruence].
  apply existsb_exists. exists (k, x). split; [|done].
  apply list_elem_of_In. by apply elem_of_btree_iter.
Qed.

(** *** The arms that report no change *)

Lemma fail_backend_noop n s s' :
  stop_coherent n s -> fail_backend s = (s', false) -> s' = s.
Proof.
  unfold fail_backend. intros Hc [= <- Hf].
  rewrite !orb_false_iff in Hf. destruct Hf as (((Hl & Hb) & Hs) & He).
  apply negb_false_iff, bool_decide_eq_true in Hl, Hb.
  assert (stop_id s = None) as Hn.
  { apply bool_decide_eq_false in Hs. by apply eq_None_not_Some. }
  rewrite fmap_id_on.
  - trans (clear_stop_context s); [|by eapply clear_stop_id]. destruct s; cbn in *. by subst.
  - intros k i Hi. cbn in Hi. by rewrite (existsb_btree_false _ _ He _ _ Hi).
Qed.

Lemma resumed_id i :
  quiet false i -> inf_status i = Inferior.Running -> resumed_inferior i = i.
Proof.
  intros Hq Hr. unfold resumed_inferior. rewrite fmap_id_on.
  - destruct i; cbn in *. by subst.
  - intros t th Hth. destruct (Hq Hr) as [_ H]. destruct (H _ _ Hth).
    destruct th; cbn in *. by subst.
Qed.

Lemma selected_first groups : selected groups (default "i1" (head groups)) = true.
Proof.
  unfold selected. destruct groups as [|g groups]; [done|]. cbn -[bool_decide].
  rewrite (bool_decide_true (g ∈ g :: groups)) by (by left). by rewrite orb_true_r.
Qed.

Lemma target_running_noop n groups s s' :
  stop_coherent n s -> all_stop s ->
  reduce_target_running groups s = (s', false) -> s' = s.
Proof.
  intros Hc Ha. unfold reduce_target_running.
  set (s1 := if bool_decide (inferiors s = ∅) then _ else s).
  intros [= <- Hf]. rewrite !orb_false_iff in Hf. destruct Hf as (((He & Hst) & Hs) & Hl).
  apply negb_false_iff, bool_decide_eq_true in Hl.
  assert (stop_id s = None) as Hn.
  { apply bool_decide_eq_false in Hs. by apply eq_None_not_Some. }
  assert (s1 = s) as Hs1.
  { unfold s1 in *. destruct (bool_decide_reflect (inferiors s = ∅)) as [Hempty|]; [|done].
    set (k := default "i1" (head groups)) in *.
    destruct (ensure_lookup k (event_seq s) s) as [i Hi].
    pose proof (existsb_iter_false _ _ Hst _ _ Hi) as Hk. cbn -[ensure_inferior] in Hk.
    rewrite (selected_first groups : selected groups k = true) in Hk.
    apply negb_false_iff, bool_decide_eq_true in Hk.
    apply ensure_entry in Hi as [Hi|(_ & _ & ->)]; [|done].
    by rewrite Hempty, lookup_empty in Hi. }
  rewrite Hs1 in *. rewrite He.
  assert (map_imap (fun k i => Some (if selected groups k then resumed_inferior i else i))
            (inferiors s) = inferiors s) as ->.
  { apply map_eq. intros k. rewrite map_lookup_imap.
    destruct (inferiors s !! k) as [i|] eqn:Hi; [|done]. cbn. f_equal.
    pose proof (existsb_iter_false _ _ Hst _ _ Hi) as Hk. cbn in Hk.
    destruct (selected groups k); [|done]. cbn in Hk.
    apply negb_false_iff, bool_decide_eq_true in Hk.
    apply resumed_id; [|done]. eapply quiet_clear, Ha, Hi. }
  trans (clear_stop_context s); [|by eapply clear_stop_id]. destruct s; cbn in *. by subst.
Qed.

Lemma thread_created_noop b t s s' :
  reduce_thread_created b t s = (s', false) -> s' = s.
Proof.
  unfold reduce_thread_created. destruct (ensure_lookup b (event_seq s) s) as [i Hi].
  rewrite Hi. destruct (inf_threads i !! t) as [th|] eqn:Ht; [|done].
  intros [= <- Hr]. apply negb_false_iff, bool_decide_eq_true in Hr.
  assert (ensure_inferior b (event_seq s) s = s) as Es.
  { unfold ensure_inferior in *. destruct (inferiors s !! b) eqn:E; [done|].
    cbn in Hi. rewrite lookup_insert_eq in Hi. by simplify_eq. }
  rewrite Es in *. rewrite <-Hr.
  replace (MkThreadState _ _ _ _) with th by (by destruct th).
  rewrite (insert_id (inf_threads i)) by done.
  replace (set_inf_threads _ i) with i by (by destruct i).
  rewrite insert_id by done. apply set_inferiors_id.
Qed.

Lemma delete_noop {A} (m : gmap string A) k :
  bool_decide (is_Some (m !! k)) = false -> delete k m = m.
Proof.
  intros H%bool_decide_eq_false. apply delete_id. by apply eq_None_not_Some.
Qed.

(** An event that changes the state although it reports no change: an
    unmatched resolution while nothing is unresolved, and an empty
    restoration of a tainted session. *)
Definition silent_update (e : Event.DomainEvent) (s : SessionState) : Prop :=
  match e with
  | Event.CommandOutcomeResolved _ =>
      outcome_unknown_tokens s = ∅ /\
      (backend s <> Backend.Healthy \/ reconciliation_required s = false)
  | Event.ConsistencyRestored warnings =>
      warnings = [] /\ consistency s = Consistent.Tainted /\
      reconciliation_required s = true
  | _ => False
  end.

Lemma outcome_resolved_noop t s s' :
  reduce_outcome_resolved t s = (s', false) ->
  s' = s <-> ~ silent_update (Event.CommandOutcomeResolved t) s.
Proof.
  unfold reduce_outcome_resolved. intros [= <- Ht%bool_decide_eq_false].
  assert (outcome_unknown_tokens s ∖ {[t]} = outcome_unknown_tokens s) as Et by set_solver.
  rewrite Et. cbn. case_bool_decide as He.
  - split.
    + intros E [_ Hne]. apply (f_equal backend) in E as Eb.
      apply (f_equal reconciliation_required) in E as Er. cbn in Eb, Er.
      destruct Hne; congruence.
    + intros Hn. destruct s as [? ? h ? r]; cbn in *.
      destruct h, r; try done; exfalso; apply Hn; auto.
  - split; [by intros _ []|]. intros _. by destruct s.
Qed.

Lemma consistency_restored_noop ws s s' :
  reduce_consistency_restored ws s = (s', false) ->
  s' = s <-> ~ silent_update (Event.ConsistencyRestored ws) s.
Proof.
  unfold reduce_consistency_restored. cbn. case_bool_decide as Ht; [|done].
  intros [= <- Hw%negb_false_iff%bool_decide_eq_true]. subst ws. cbn. split.
  - intros E (_ & _ & Hr). apply (f_equal reconciliation_required) in E. cbn in E. congruence.
  - intros Hn. destruct s as [? ? ? ? r]; cbn in *. destruct r; [|done].
    exfalso. by apply Hn.
Qed.

Lemma reduce_noop n e s s' :
  stop_coherent n s -> all_stop s -> reduce e s = (s', false) ->
  s' = s <-> ~ silent_update e s.
Proof.
  intros Hc Ha Hr. destruct e; cbn [reduce] in Hr; try done;
    try (by apply outcome_resolved_noop); try (by apply consistency_restored_noop);
    (split; [by intros _ []|]; intros _);
    eauto using fail_backend_noop, target_running_noop, thread_created_noop;
    unfold reduce_breakpoint_deleted in Hr;
    try (injection Hr as <- Hd; rewrite (delete_noop _ _ Hd); by destruct s);
    unfold_reduce; cbv zeta in Hr; repeat (case_match; simplify_eq; try done); by simplify_eq.
Qed.

(** C32: the revision is a version stamp: an accepted event has a larger
    sequence number than every event before it, advances the revision (modulo
    [2^64]) exactly when it reports a change, and when it reports none the
    state is the old one with the new sequence number, exactly outside the two
    silent updates. *)
Theorem revision_is_a_version_stamp session s seq e s' changed :
  reachable session s -> apply_event seq e s = Ok (s', changed) ->
  (event_seq s < event_seq s')%N /\
  revision s' = (if changed then u64_wrapping_add (revision s) 1 else revision s) /\
  (changed = false ->
   s' = set_event_seq seq s <-> ~ silent_update e (set_event_seq seq s)).
Proof.
  intros Hreach (Hseq & s1 & E & ->)%apply_event_inv.
  apply reachable_wf in Hreach as [_ Hs Ha _ _ _].
  pose proof (reduce_frame e (set_event_seq seq s)) as (_ & Eseq & Erev).
  rewrite E in Eseq, Erev. cbn in Eseq, Erev.
  split; [|split].
  - pose proof (bump_revision_fields (s1, changed)) as (_ & -> & _). cbn. lia.
  - destruct changed; cbn; by rewrite Erev.
  - intros ->. cbn. eapply (reduce_noop (event_seq s)); [exact Hs|exact Ha|done].
Qed.

(** *** A session that has failed closed *)

Definition dead (s : SessionState) : Prop :=
  lifecycle s = Lifecycle.Failed /\ backend s = Backend.Dead /\ stop_id s = None /\
  forall k i, inferiors s !! k = Some i -> live_status (inf_status i) = false.

Lemma fail_backend_dead s : dead (fail_backend s).1.
Proof.
  unfold dead, fail_backend. cbn. split_and!; try done.
  intros k i (i' & <- & _)%lookup_fmap_Some. by destruct (live_status (inf_status i')) eqn:El.
Qed.

Lemma bump_revision_dead r : dead r.1 -> dead (bump_revision r).1.
Proof. by destruct r as [s []]. Qed.

(** Failing again changes nothing. *)
Lemma dead_final s : wf s -> dead s -> fail_closed s = (s, false).
Proof.
  intros Hw (Hl & Hb & Hs & Hi). unfold fail_closed.
  assert ((fail_backend s).2 = false) as Hf.
  { unfold fail_backend. cbn [snd]. rewrite Hl, Hb, Hs.
    rewrite !bool_decide_true, bool_decide_false by (done || by intros []). cbn.
    apply not_true_iff_false. intros (i & Hin & Ht)%existsb_exists.
    apply list_elem_of_In, elem_of_btree_values in Hin as [k Hk].
    rewrite (Hi _ _ Hk) in Ht. done. }
  destruct (fail_backend s) as [s2 c] eqn:E2. cbn in Hf. subst c. cbn.
  by rewrite (fail_backend_noop _ _ _ (wf_stop _ Hw) E2).
Qed.
