(* ===== verification/ReducerProps.v ===== *)
(** * ReducerProps: the session's guarantees, with concrete runs

    The property theorems of the session state machine that combine the
    invariants of [ReducerInv], and runs that exercise them. *)
From S2P Require Import Prelude Text Json Errors Domain Reducer ReducerInv.

(** ** Runs *)

(** Events applied in order, each with its sequence number. *)
Fixpoint run (events : list (N * Event.DomainEvent)) (s : SessionState)
    : Result Error SessionState :=
  match events with
  | [] => Ok s
  | (seq, e) :: rest => r ← apply_event seq e s; run rest r.1
  end.

Lemma run_steps events s s' : run events s = Ok s' -> rtc step s s'.
Proof.
  revert s. induction events as [|[seq e] rest IH]; intros s; cbn.
  - intros [= ->]. apply rtc_refl.
  - intros ([s1 c] & E & H)%bind_Ok. eapply rtc_l; [by eapply step_event|by apply IH].
Qed.

Lemma run_app e1 e2 s s' : run e1 s = Ok s' -> run (e1 ++ e2) s = run e2 s'.
Proof.
  revert s. induction e1 as [|[seq e] rest IH]; intros s; cbn; [by intros [= ->]|].
  destruct (apply_event seq e s) as [[s1 c]|]; cbn; [apply IH|done].
Qed.

Definition sample_session : SessionId := "sess_0123456789ABCDEF".

(** A launch that stops at a breakpoint, resumes and stops again. *)
Definition sample_frame : FrameSummary :=
  MkFrameSummary 0 (Some "0x401136") (Some "main") None (Some "/src/a.c") (Some 3%N).

Definition first_stop_events : list (N * Event.DomainEvent) := [
  (1%N, Event.BackendStarted);
  (2%N, Event.InferiorAdded "i1" (Some 4242%N));
  (3%N, Event.TargetRunning ["i1"]);
  (4%N, Event.ThreadCreated "i1" "1");
  (5%N, Event.TargetStopped (Some "i1") (Some "1") "breakpoint-hit" None
          (Some sample_frame))].

Definition resume_events : list (N * Event.DomainEvent) := [
  (6%N, Event.TargetRunning ["i1"])].

Definition second_stop_events : list (N * Event.DomainEvent) := [
  (7%N, Event.TargetStopped (Some "i1") (Some "1") "end-stepping-range" None None)].

Definition state_after (events : list (N * Event.DomainEvent)) : SessionState :=
  match run events (creating sample_session) with
  | Ok s => s
  | Err _ => creating sample_session
  end.

Definition at_first_stop : SessionState := state_after first_stop_events.
Definition resumed : SessionState := state_after (first_stop_events ++ resume_events).
Definition at_second_stop : SessionState :=
  state_after (first_stop_events ++ resume_events ++ second_stop_events).

Lemma at_first_stop_reachable : reachable sample_session at_first_stop.
Proof. apply (run_steps first_stop_events). vm_compute. reflexivity. Qed.

Example first_stop_id : stop_id at_first_stop = Some "s5".
Proof. vm_compute. reflexivity. Qed.

Example first_stop_frame : stopped_frame at_first_stop = Some sample_frame.
Proof. vm_compute. reflexivity. Qed.

Lemma resume_steps : rtc step at_first_stop resumed.
Proof. apply (run_steps resume_events). vm_compute. reflexivity. Qed.

Lemma second_stop_steps : rtc step resumed at_second_stop.
Proof. apply (run_steps second_stop_events). vm_compute. reflexivity. Qed.

(** The first stop handle is stale after the resume and stays so at the second
    stop. *)
Lemma stale_stop_never_revives_witness :
  exists message,
    require_stop at_second_stop "s5" = Err (Error_new Code.StaleContext message).
Proof.
  apply (stale_stop_never_revives sample_session at_first_stop resumed at_second_stop "s5").
  - exact at_first_stop_reachable.
  - vm_compute. reflexivity.
  - exact resume_steps.
  - vm_compute. discriminate.
  - exact second_stop_steps.
Defined.

(** Output is recorded without a state change. *)
Lemma revision_is_a_version_stamp_witness :
  set_event_seq 6 at_first_stop = set_event_seq 6 at_first_stop <->
  ~ silent_update (Event.Output Out.InferiorPty []) (set_event_seq 6 at_first_stop).
Proof.
  refine (proj2 (proj2 (revision_is_a_version_stamp sample_session at_first_stop 6
    (Event.Output Out.InferiorPty []) (set_event_seq 6 at_first_stop) false _ _)) _).
  - exact at_first_stop_reachable.
  - vm_compute. reflexivity.
  - reflexivity.
Defined.

(** ** Coherence of every reachable session *)

(** C30: every reachable session state is coherent: table keys are backend
    ids, handles are the ones the creating events made, the stop context is
    all present or all absent with a snapshot of the current stop only, no
    inferior runs while a stop is current, running threads carry no frame, and
    the limitation list is duplicate-free and bounded. *)
Theorem reachable_sessions_are_coherent session s : reachable session s -> wf s.
Proof. apply reachable_wf. Qed.

Lemma reachable_sessions_are_coherent_witness : wf at_first_stop.
Proof. apply (reachable_sessions_are_coherent sample_session). exact at_first_stop_reachable. Defined.

(** In a reachable session state a public handle names one object: two
    inferiors with the same handle are the same entry, and two threads with
    the same handle are the same thread of the same inferior. *)
Theorem handles_name_one_object session s :
  reachable session s ->
  (forall k1 k2 i1 i2, inferiors s !! k1 = Some i1 -> inferiors s !! k2 = Some i2 ->
     inf_id i1 = inf_id i2 -> k1 = k2) /\
  (forall k1 k2 i1 i2 t1 t2 th1 th2,
     inferiors s !! k1 = Some i1 -> inferiors s !! k2 = Some i2 ->
     inf_threads i1 !! t1 = Some th1 -> inf_threads i2 !! t2 = Some th2 ->
     th_id th1 = th_id th2 -> k1 = k2 /\ t1 = t2).
Proof.
  intros [[He Hg Ht] _ _ _ _ _]%reachable_wf. split; [|exact Ht].
  intros k1 k2 i1 i2 H1 H2 E. eapply Hg; [done..|].
  rewrite (wi_id _ _ _ _ _ (He _ _ H1)), (wi_id _ _ _ _ _ (He _ _ H2)) in E.
  by eapply InferiorId_generation.
Qed.

(** Two inferiors that GDB reports under different groups. *)
Definition with_two_inferiors : SessionState :=
  state_after (first_stop_events ++ [(6%N, Event.InferiorAdded "i2" None)]).

Lemma with_two_inferiors_reachable : reachable sample_session with_two_inferiors.
Proof.
  apply (run_steps (first_stop_events ++ [(6%N, Event.InferiorAdded "i2" None)])).
  vm_compute. reflexivity.
Qed.

Lemma handles_name_one_object_witness :
  (inf_id <$> inferiors with_two_inferiors !! "i1") <>
  (inf_id <$> inferiors with_two_inferiors !! "i2").
Proof.
  pose proof (proj1 (handles_name_one_object sample_session with_two_inferiors
    with_two_inferiors_reachable) "i1" "i2") as H.
  assert (bool_decide (is_Some (inferiors with_two_inferiors !! "i1")) = true) as H1
    by (vm_compute; reflexivity).
  assert (bool_decide (is_Some (inferiors with_two_inferiors !! "i2")) = true) as H2
    by (vm_compute; reflexivity).
  revert H H1 H2. generalize with_two_inferiors. intros s H [i1 E1]%bool_decide_eq_true
    [i2 E2]%bool_decide_eq_true. rewrite E1, E2. intros [= E].
  by specialize (H i1 i2 E1 E2 E).
Defined.

(** ** The execution epoch *)

Lemma any_running_spec s :
  any_running s = true <->
  exists k i, inferiors s !! k = Some i /\ inf_status i = Inferior.Running.
Proof.
  unfold any_running. rewrite existsb_exists. split.
  - intros (i & Hin & Hr%bool_decide_eq_true).
    apply list_elem_of_In, elem_of_btree_values in Hin as [k Hk]. eauto.
  - intros (k & i & Hi & Hr). exists i. split; [|by apply bool_decide_eq_true].
    apply list_elem_of_In, elem_of_btree_values. eauto.
Qed.

(** Running entries of [r'] come from running entries of [r]. *)
Definition no_new_running (r r' : gmap string InferiorState) : Prop :=
  forall k i', r' !! k = Some i' -> inf_status i' = Inferior.Running ->
    exists i, r !! k = Some i /\ inf_status i = Inferior.Running.

Lemma nnr_refl r : no_new_running r r.
Proof. intros k i Hi Hr. eauto. Qed.

Lemma nnr_trans r1 r2 r3 :
  no_new_running r1 r2 -> no_new_running r2 r3 -> no_new_running r1 r3.
Proof. intros H12 H23 k i Hi Hr. destruct (H23 _ _ Hi Hr) as (? & ? & ?). eauto. Qed.

Lemma nnr_ensure k g s : no_new_running (inferiors s) (inferiors (ensure_inferior k g s)).
Proof. intros k' i [Hi|(_ & _ & ->)]%ensure_entry Hr; [eauto|done]. Qed.

Lemma nnr_fmap f r :
  (forall i, inf_status (f i) = Inferior.Running -> inf_status i = Inferior.Running) ->
  no_new_running r (f <$> r).
Proof. intros Hf k i' (i & <- & Hi)%lookup_fmap_Some Hr. eauto. Qed.

Lemma nnr_alter f k r :
  (forall i, inf_status (f i) = Inferior.Running -> inf_status i = Inferior.Running) ->
  no_new_running r (alter f k r).
Proof.
  intros Hf k' i'. rewrite lookup_alter. case_decide; [|eauto].
  intros (i & Hi & ->)%fmap_Some Hr. subst. eauto.
Qed.

Lemma nnr_insert k i i' r :
  r !! k = Some i -> inf_status i' = inf_status i -> no_new_running r (<[k := i']> r).
Proof.
  intros Hi E k' j [[<- <-]|[_ Hl]]%lookup_insert_Some Hr; [|eauto].
  exists i. by rewrite <-E.
Qed.

Lemma nnr_delete k r : no_new_running r (delete k r).
Proof. intros k' i [_ Hl]%lookup_delete_Some Hr. eauto. Qed.

Lemma restart_running a b c d i :
  inf_status (restart_inferior a b c d i) = Inferior.Running ->
  inf_status i = Inferior.Running.
Proof. unfold restart_inferior. repeat case_match; cbn in *; done. Qed.

Lemma exited_running d code i :
  inf_status (exited_inferior d code i) = Inferior.Running ->
  inf_status i = Inferior.Running.
Proof. unfold exited_inferior. repeat case_match; cbn in *; done. Qed.

Lemma paused_running i :
  inf_status (paused_inferior i) = Inferior.Running -> inf_status i = Inferior.Running.
Proof. intros H. by destruct (paused_not_running i). Qed.

Lemma stopped_nnr bi bt reason detail frame s :
  no_new_running (inferiors s)
    (inferiors (reduce_target_stopped bi bt reason detail frame s).1).
Proof.
  unfold reduce_target_stopped, record_stopped_thread. set (k := stopped_group bi bt s).
  pose proof (nnr_ensure k (event_seq s) s) as He. rewrite (ensure_shape k).
  remember (inferiors (ensure_inferior _ _ _)) as r eqn:Er.
  eapply nnr_trans; [exact He|].
  eapply nnr_trans; [apply (nnr_fmap paused_inferior), paused_running|]. cbn.
  destruct bt as [t|]; cbn; [|apply nnr_refl].
  destruct ((paused_inferior <$> r) !! k) as [i|] eqn:Hi; cbn; [|apply nnr_refl].
  by eapply nnr_insert.
Qed.

Lemma created_nnr b t s :
  no_new_running (inferiors s) (inferiors (reduce_thread_created b t s).1).
Proof.
  unfold reduce_thread_created. eapply nnr_trans; [apply (nnr_ensure b (event_seq s))|].
  destruct (ensure_lookup b (event_seq s) s) as [i Hi]. rewrite Hi.
  destruct (inf_threads i !! t); cbn -[ensure_inferior]; by eapply nnr_insert.
Qed.

Lemma remove_nnr b t s : no_new_running (inferiors s) (inferiors (remove_thread b t s).1).
Proof.
  unfold remove_thread. destruct (inferiors s !! b) eqn:Hi; [|apply nnr_refl].
  case_match; [|apply nnr_refl]. cbn. by eapply nnr_insert.
Qed.

Lemma reduce_nnr e s :
  (forall groups, e <> Event.TargetRunning groups) ->
  no_new_running (inferiors s) (inferiors (reduce e s).1).
Proof.
  intros Hne. destruct e; cbn [reduce];
    try (by exfalso; eapply Hne); eauto using stopped_nnr, created_nnr;
    unfold reduce_thread_exited, fail_backend, reduce_inferior_added,
      reduce_inferior_removed, reduce_inferior_exited, reduce_core_opened,
      with_every_status, reduce_breakpoint, reduce_breakpoint_deleted,
      reduce_breakpoint_locations, reduce_breakpoint_rebound,
      reduce_snapshot_started, reduce_snapshot_ready, reduce_snapshot_failed,
      reduce_outcome_unknown, reduce_outcome_resolved, reduce_consistency_restored,
      dirty_unless_tainted, note_limitation, clear_stop_context;
    split_reduce;
    eauto using nnr_refl, nnr_delete, nnr_fmap, remove_nnr;
    try (eapply nnr_trans; [apply nnr_ensure|]; apply nnr_alter; try done;
         eauto using restart_running, exited_running);
    apply nnr_fmap; intros i; repeat case_match; done.
Qed.

Lemma running_epoch groups s :
  execution_epoch (reduce_target_running groups s).1 =
    if negb (any_running s) && any_running (reduce_target_running groups s).1
    then u64_wrapping_add (execution_epoch s) 1 else execution_epoch s.
Proof.
  unfold reduce_target_running.
  set (s1 := if bool_decide (inferiors s = ∅) then _ else s).
  assert (execution_epoch s1 = execution_epoch s) as He.
  { unfold s1. case_match; [|done]. by rewrite ensure_shape. }
  remember (set_lifecycle _ _) as s2 eqn:E2.
  assert (execution_epoch s2 = execution_epoch s1) as He2 by (by subst s2).
  destruct (negb (any_running s) && any_running s2) eqn:Ed; cbn [fst].
  - change (any_running (clear_stop_context (set_execution_epoch
      (u64_wrapping_add (execution_epoch s2) 1) s2))) with (any_running s2).
    rewrite Ed. cbn. by rewrite He2, He.
  - change (any_running (clear_stop_context s2)) with (any_running s2).
    rewrite Ed. cbn. by rewrite He2.
Qed.

Lemma reduce_epoch e s :
  (forall groups, e <> Event.TargetRunning groups) ->
  execution_epoch (reduce e s).1 = execution_epoch s.
Proof.
  intros Hne. destruct e; cbn [reduce]; try (by exfalso; eapply Hne);
    unfold_reduce; split_reduce; ensure_norm; done.
Qed.

(** The execution epoch counts the resumptions of the session: an accepted
    event advances it (by one, modulo [2^64]) exactly when no inferior ran
    before and some inferior runs after, whatever the event. *)
Theorem epoch_counts_resumptions seq e s s' changed :
  apply_event seq e s = Ok (s', changed) ->
  execution_epoch s' =
    if negb (any_running s) && any_running s'
    then u64_wrapping_add (execution_epoch s) 1 else execution_epoch s.
Proof.
  intros (Hseq & s1 & E & ->)%apply_event_inv.
  set (s0 := set_event_seq seq s) in *.
  pose proof (bump_revision_fields (s1, changed)) as (_ & _ & _ & -> & Ei).
  assert (any_running (bump_revision (s1, changed)).1 = any_running s1) as ->
    by (unfold any_running; by rewrite Ei).
  change (execution_epoch s) with (execution_epoch s0).
  change (any_running s) with (any_running s0). cbn [fst].
  replace s1 with (reduce e s0).1 by (by rewrite E).
  assert ((exists groups, e = Event.TargetRunning groups) \/
          (forall groups, e <> Event.TargetRunning groups)) as [[groups ->]|Hne]
    by (destruct e; eauto).
  - apply running_epoch.
  - rewrite reduce_epoch by done.
    destruct (any_running s0) eqn:Hs0; [done|]. cbn.
    destruct (any_running (reduce e s0).1) eqn:Hr; [|done].
    apply any_running_spec in Hr as (k & i & Hi & Hr).
    destruct (reduce_nnr e s0 Hne _ _ Hi Hr) as (j & ? & ?).
    assert (any_running s0 = true) by (apply any_running_spec; eauto). congruence.
Qed.

Lemma epoch_counts_resumptions_witness : execution_epoch resumed = 2%N.
Proof.
  etransitivity; [apply (epoch_counts_resumptions 6 (Event.TargetRunning ["i1"])
    at_first_stop resumed true)|].
  - vm_compute. reflexivity.
  - vm_compute. reflexivity.
Defined.

(** ** Taint *)

(** An unknown raw effect is kept: once a session is tainted every accepted
    event other than the loss of consistency leaves it tainted. *)
Theorem taint_is_kept seq e s s' changed :
  apply_event seq e s = Ok (s', changed) ->
  consistency s = Consistent.Tainted ->
  (forall reason, e <> Event.ConsistencyLost reason) ->
  consistency s' = Consistent.Tainted.
Proof.
  intros (Hseq & s1 & E & ->)%apply_event_inv Ht Hne.
  assert (consistency (bump_revision (s1, changed)).1 = consistency s1) as ->
    by (by destruct changed).
  replace s1 with (reduce e (set_event_seq seq s)).1 by (by rewrite E). clear E.
  destruct e; cbn [reduce]; try (by exfalso; eapply Hne);
    unfold_reduce; split_reduce; ensure_norm; try done; reflect_all.
Qed.

Definition tainted : SessionState :=
  state_after [(1%N, Event.BackendStarted); (2%N, Event.UnknownBackendEvent "exec:frob")].

Lemma taint_is_kept_witness : consistency (bump_revision (reduce
    (Event.ConsistencyRestored []) (set_event_seq 3 tainted))).1 = Consistent.Tainted.
Proof.
  apply (taint_is_kept 3 (Event.ConsistencyRestored []) tainted _ false).
  - vm_compute. reflexivity.
  - vm_compute. reflexivity.
  - discriminate.
Defined.

(** ** Failing closed *)

(** Failing closed is final: it leaves a failed session with a dead
    backend, no current stop and no live inferior, and failing again changes
    nothing and does not advance the revision. *)
Theorem fail_closed_is_final session s s1 changed :
  reachable session s -> fail_closed s = (s1, changed) ->
  lifecycle s1 = Lifecycle.Failed /\ backend s1 = Backend.Dead /\ stop_id s1 = None /\
  (forall k i, inferiors s1 !! k = Some i -> live_status (inf_status i) = false) /\
  fail_closed s1 = (s1, false).
Proof.
  intros Hreach E. assert (wf s1) as Hw.
  { eapply reachable_wf, rtc_r; [exact Hreach|].
    replace s1 with (fail_closed s).1 by (by rewrite E). apply step_fail_closed. }
  assert (dead s1) as Hd.
  { replace s1 with (fail_closed s).1 by (by rewrite E).
    apply bump_revision_dead, fail_backend_dead. }
  pose proof (dead_final _ Hw Hd). destruct Hd as (? & ? & ? & ?). by split_and!.
Qed.

Lemma fail_closed_is_final_witness :
  fail_closed (fail_closed at_first_stop).1 = ((fail_closed at_first_stop).1, false).
Proof.
  apply (fail_closed_is_final sample_session at_first_stop _ (fail_closed at_first_stop).2).
  - exact at_first_stop_reachable.
  - vm_compute. reflexivity.
Defined.

(** ** The frame of the current stop *)

Lemma find_unique {A} (p : A -> bool) (m : gmap string A) k x :
  m !! k = Some x -> p x = true ->
  (forall k' y, m !! k' = Some y -> p y = true -> y = x) ->
  List.find p (btree_values m) = Some x.
Proof.
  intros Hk Hp Hu. destruct (List.find p (btree_values m)) as [y|] eqn:E.
  - apply List.find_some in E as [Hin Hy].
    apply list_elem_of_In, elem_of_btree_values in Hin as [k' Hk'].
    by rewrite (Hu k' y Hk' Hy).
  - apply List.find_none with (x := x) in E; [congruence|].
    apply list_elem_of_In, elem_of_btree_values. eauto.
Qed.

Lemma stopped_frame_lookup n m s k i t th :
  registry (session_id s) n m (inferiors s) ->
  inferiors s !! k = Some i -> inf_threads i !! t = Some th ->
  stopped_inferior_id s = Some (inf_id i) -> stopped_thread_id s = Some (th_id th) ->
  stopped_frame s = th_frame th.
Proof.
  intros [He Hg Ht] Hi Hth Ei Et. unfold stopped_frame. rewrite Ei, Et. cbn.
  rewrite (find_unique _ _ k i); [cbn|done|by apply bool_decide_eq_true|].
  - rewrite (find_unique _ _ t th); [done|done|by apply bool_decide_eq_true|].
    intros t' th' Hth' E%bool_decide_eq_true.
    destruct (Ht k k i i t' t th' th Hi Hi Hth' Hth E) as [_ ->]. congruence.
  - intros k' i' Hi' E%bool_decide_eq_true.
    rewrite (wi_id _ _ _ _ _ (He _ _ Hi)), (wi_id _ _ _ _ _ (He _ _ Hi')) in E.
    apply InferiorId_generation in E.
    assert (k' = k) as -> by (by eapply Hg). congruence.
Qed.

Lemma target_stopped_context bi t reason detail frame s :
  exists k i th,
    let s' := (reduce_target_stopped bi (Some t) reason detail frame s).1 in
    inferiors s' !! k = Some i /\ inf_threads i !! t = Some th /\
    stopped_inferior_id s' = Some (inf_id i) /\ stopped_thread_id s' = Some (th_id th) /\
    th_frame th = frame.
Proof.
  unfold reduce_target_stopped, record_stopped_thread.
  set (k := stopped_group bi (Some t) s).
  destruct (ensure_lookup k (event_seq s) s) as [i Hi]. rewrite (ensure_shape k).
  remember (inferiors (ensure_inferior _ _ _)) as r eqn:Er. cbn.
  rewrite lookup_fmap, Hi. cbn -[lookup].
  exists k. eexists _, _. split_and!; [by rewrite lookup_insert_eq|cbn; by rewrite lookup_insert_eq|done..].
Qed.

(** After a stop that names a thread, the session's stopped frame is the
    frame the stop reported (never one of another thread, inferior or older
    stop), and the handle of the new stop is accepted. *)
Theorem stopped_frame_is_the_reported_frame session seq bi t reason detail frame s s' changed :
  reachable session s ->
  apply_event seq (Event.TargetStopped bi (Some t) reason detail frame) s = Ok (s', changed) ->
  stopped_frame s' = frame /\
  require_stop s' (StopId_from_event (session_id s) seq) = Ok tt.
Proof.
  intros Hreach E. assert (wf s') as Hw.
  { eapply apply_event_wf; [by eapply reachable_wf|exact E]. }
  apply apply_event_inv in E as (Hseq & s1 & E & ->).
  pose proof (target_stopped_context bi t reason detail frame (set_event_seq seq s))
    as (k & i & th & Hi & Hth & Ei & Et & Ef).
  pose proof (target_stopped_id bi (Some t) reason detail frame (set_event_seq seq s)) as Es.
  cbn [reduce] in E. rewrite E in *. cbn [fst] in *. split.
  - rewrite <-Ef. eapply stopped_frame_lookup; [apply (wf_registry _ Hw)|..];
      destruct changed; cbn in *; done.
  - unfold require_stop. rewrite decide_True; [done|]. by destruct changed.
Qed.

Lemma stopped_frame_is_the_reported_frame_witness :
  stopped_frame at_second_stop = None /\ require_stop at_second_stop "s7" = Ok tt.
Proof.
  apply (stopped_frame_is_the_reported_frame sample_session 7 (Some "i1") "1"
           "end-stepping-range" None None resumed at_second_stop true).
  - unfold reachable. etrans; [exact at_first_stop_reachable|exact resume_steps].
  - vm_compute. reflexivity.
Defined.

(** ** Where the reducer departs from its comments *)

(** The limitation list can exceed [MAX_LIMITATIONS]: 63 distinct
    limitations and then an evidence gap fill the list to 64 entries without
    the truncation marker, and one more limitation appends the marker. *)
Theorem limitations_can_exceed_the_cap :
  exists events s, run events (creating sample_session) = Ok s /\
    length (limitations s) = S MAX_LIMITATIONS.
Proof.
  exists (((fun n => (N.of_nat n, Event.ConsistencyDirty ("dirty " +:+ pretty n))) <$> seq 1 63)
         ++ [(64%N, Event.EvidenceGap "journal"); (65%N, Event.ConsistencyDirty "one more")]).
  eexists. split; [vm_compute; reflexivity|reflexivity].
Qed.

(** A resolution of a token that is not outstanding makes a dead backend
    healthy and asks for a reconciliation, and reports no change, so the
    revision of the session stays the same. *)
Theorem unmatched_resolution_is_silent :
  exists events s s', run events (creating sample_session) = Ok s /\
    backend s = Backend.Dead /\
    apply_event (event_seq s + 1) (Event.CommandOutcomeResolved 7) s = Ok (s', false) /\
    backend s' = Backend.Healthy /\ revision s' = revision s.
Proof.
  exists [(1%N, Event.BackendStarted); (2%N, Event.BackendExited None)].
  eexists _, _. split; [vm_compute; reflexivity|].
  split; [reflexivity|]. split; [vm_compute; reflexivity|]. by split.
Qed.

(** ** A retired handle is never given to another object

    GDB reuses thread and thread-group ids after exit.  The handles of the
    session embed the sequence number of the creating event, so a handle that
    has left the registry never names a live object again. *)

Definition live_inferior (s : SessionState) (id : InferiorId) : Prop :=
  exists k i, inferiors s !! k = Some i /\ inf_id i = id.

Definition live_thread (s : SessionState) (id : ThreadId) : Prop :=
  exists k i t th, inferiors s !! k = Some i /\ inf_threads i !! t = Some th /\ th_id th = id.

(** The handles of [r'] are handles of [r] or made by the event [seq]. *)
Record derived (session : SessionId) (seq : N) (r r' : gmap string InferiorState)
    : Prop := {
  der_inferiors : forall k i', r' !! k = Some i' ->
    (exists k0 i, r !! k0 = Some i /\ inf_id i = inf_id i') \/
    exists b, inf_id i' = InferiorId_from_backend session seq b;
  der_threads : forall k i' t th', r' !! k = Some i' -> inf_threads i' !! t = Some th' ->
    (exists k0 i t0 th, r !! k0 = Some i /\ inf_threads i !! t0 = Some th /\
                        th_id th = th_id th') \/
    exists k0 i0 b, r' !! k0 = Some i0 /\
                    th_id th' = ThreadId_from_backend (inf_id i0) seq b
}.

Section derived.
#[local] Set Default Proof Using "Type".
Context (session : SessionId) (seq : N).

Abbreviation der := (derived session seq).

Lemma der_evolve r r' :
  (forall k i', r' !! k = Some i' -> exists i, r !! k = Some i /\ evolves i i') -> der r r'.
Proof.
  intros H. split.
  - intros k i' (i & Hi & Hid & _)%H. left. by exists k, i.
  - intros k i' t th' (i & Hi & _ & _ & _ & Hth)%H (th & Hl & E & _)%Hth.
    left. by exists k, i, t, th.
Qed.

Lemma der_refl r : der r r.
Proof. apply der_evolve. intros k i Hi. by exists i. Qed.

(** A change that keeps every entry's handle follows a derived one. *)
Lemma der_then_evolve r1 r2 r3 :
  der r1 r2 ->
  (forall k i', r3 !! k = Some i' -> exists i, r2 !! k = Some i /\ evolves i i') ->
  (forall k i, r2 !! k = Some i -> exists i', r3 !! k = Some i' /\ inf_id i' = inf_id i) ->
  der r1 r3.
Proof.
  intros [Hi Ht] H Hback. split.
  - intros k i' (i & Hl & -> & _)%H. by eapply Hi.
  - intros k i' t th' (i & Hl & _ & _ & _ & Hth)%H (th & Hlt & -> & _)%Hth.
    destruct (Ht _ _ _ _ Hl Hlt) as [?|(k0 & i0 & b & H0 & E)]; [by left|].
    right. destruct (Hback _ _ H0) as (i1 & H1 & E1). exists k0, i1, b. by rewrite E1.
Qed.

Lemma der_fresh r k : der r (<[k := fresh_inferior session seq k]> r).
Proof.
  split.
  - intros k' i' [[<- <-]|[_ Hl]]%lookup_insert_Some; [right; by exists k|]. left. eauto.
  - intros k' i' t th' [[<- <-]|[_ Hl]]%lookup_insert_Some; cbn.
    + by rewrite lookup_empty.
    + intros Hth. left. eauto 8.
Qed.

Lemma der_ensure k s :
  session_id s = session -> der (inferiors s) (inferiors (ensure_inferior k seq s)).
Proof.
  intros Hs. unfold ensure_inferior. case_match; [apply der_refl|].
  rewrite Hs. apply der_fresh.
Qed.

(** One thread of one inferior is replaced by one that keeps its handle or
    takes a new one. *)
Lemma der_thread r r1 k i t th :
  der r r1 -> r1 !! k = Some i ->
  th_id th = match inf_threads i !! t with
             | Some old => th_id old
             | None => ThreadId_from_backend (inf_id i) seq t
             end ->
  der r (<[k := set_inf_threads (<[t := th]> (inf_threads i)) i]> r1).
Proof.
  intros [Hri Hrt] Hi Hid.
  set (r2 := <[k := _]> r1).
  assert (forall k0 i0, r1 !! k0 = Some i0 ->
            exists i1, r2 !! k0 = Some i1 /\ inf_id i1 = inf_id i0) as Hback.
  { intros k0 i0 H0. destruct (decide (k = k0)) as [<-|Hne].
    - simplify_eq. eexists. unfold r2. by rewrite lookup_insert_eq.
    - exists i0. unfold r2. by rewrite lookup_insert_ne. }
  assert (forall k0 i0 t0 th0, r1 !! k0 = Some i0 -> inf_threads i0 !! t0 = Some th0 ->
    (exists k' i' t' th', r !! k' = Some i' /\ inf_threads i' !! t' = Some th' /\
                          th_id th' = th_id th0) \/
    exists k' i' b, r2 !! k' = Some i' /\
                    th_id th0 = ThreadId_from_backend (inf_id i') seq b) as Hold.
  { intros k0 i0 t0 th0 H0 Hth0.
    destruct (Hrt _ _ _ _ H0 Hth0) as [?|(k' & i' & b & H' & E)]; [by left|].
    right. destruct (Hback _ _ H') as (i1 & ? & E1). exists k', i1, b. by rewrite E1. }
  split.
  - intros k' i' [[<- <-]|[_ Hl]]%lookup_insert_Some; [|by eapply Hri].
    cbn. by eapply Hri.
  - intros k' i' t' th' [[<- <-]|[_ Hl]]%lookup_insert_Some; cbn; [|by eapply Hold].
    intros [[<- <-]|[_ Hl]]%lookup_insert_Some; [|by eapply Hold].
    destruct (inf_threads i !! t) as [old|] eqn:Ho.
    + rewrite Hid. by eapply Hold.
    + right. destruct (Hback _ _ Hi) as (i1 & ? & E1). exists k, i1, t. by rewrite E1.
Qed.

End derived.

Lemma fmap_evolves_both (f : InferiorState -> InferiorState) (r : gmap string InferiorState) :
  (forall i, evolves i (f i)) ->
  (forall k i', (f <$> r) !! k = Some i' -> exists i, r !! k = Some i /\ evolves i i') /\
  (forall k i, r !! k = Some i -> exists i', (f <$> r) !! k = Some i' /\ inf_id i' = inf_id i).
Proof.
  intros Hf. split.
  - intros k i' (i & <- & Hi)%lookup_fmap_Some. eauto.
  - intros k i Hi. rewrite lookup_fmap, Hi. cbn. eexists. split; [done|]. apply Hf.
Qed.

Lemma alter_evolves_both (f : InferiorState -> InferiorState) k (r : gmap string InferiorState) :
  (forall i, evolves i (f i)) ->
  (forall k' i', alter f k r !! k' = Some i' -> exists i, r !! k' = Some i /\ evolves i i') /\
  (forall k' i, r !! k' = Some i ->
     exists i', alter f k r !! k' = Some i' /\ inf_id i' = inf_id i).
Proof.
  intros Hf. split.
  - intros k' i'. rewrite lookup_alter. case_decide; [|by exists i'].
    intros (i & Hi & ->)%fmap_Some. subst. eauto.
  - intros k' i Hi. rewrite lookup_alter. case_decide; subst; rewrite Hi; cbn; [|eauto].
    eexists. split; [done|]. apply Hf.
Qed.

Lemma alter_lookup {A} (f : A -> A) (r : gmap string A) k x :
  r !! k = Some x -> alter f k r = <[k := f x]> r.
Proof.
  intros H. apply map_eq. intros k'. destruct (decide (k = k')) as [<-|Hne].
  - by rewrite lookup_alter_eq, lookup_insert_eq, H.
  - by rewrite lookup_alter_ne, lookup_insert_ne.
Qed.

(** *** The arms *)

Section arms.
#[local] Set Default Proof Using "Type".
Context (s : SessionState).

Abbreviation ders r := (derived (session_id s) (event_seq s) (inferiors s) r).

Lemma ders_ensure k : ders (inferiors (ensure_inferior k (event_seq s) s)).
Proof. by apply der_ensure. Qed.

Lemma ders_ensure_alter k f :
  (forall i, evolves i (f i)) ->
  ders (alter f k (inferiors (ensure_inferior k (event_seq s) s))).
Proof.
  intros Hf. eapply der_then_evolve; [apply ders_ensure|..]; by apply alter_evolves_both.
Qed.

Lemma ders_restart k pid : ders (inferiors (reduce_inferior_added k pid s).1).
Proof.
  unfold reduce_inferior_added. destruct (ensure_lookup k (event_seq s) s) as [i Hi].
  pose proof (ders_ensure k) as He. pose proof Hi as Hi0. revert He Hi0.
  rewrite (ensure_shape k). remember (inferiors (ensure_inferior _ _ _)) as r eqn:Er.
  cbn. intros He Hi0.
  assert (ders (alter (restart_inferior (session_id s) (event_seq s) k pid) k r));
    [|by destruct (bool_decide (is_Some pid))].
  destruct (bool_decide (is_Some pid) &&
    (negb (bool_decide (inf_pid i = pid)) || terminal_status (inf_status i))) eqn:Eb.
  - assert (alter (restart_inferior (session_id s) (event_seq s) k pid) k r =
      <[k := restart_inferior (session_id s) (event_seq s) k pid i]> (inferiors s)) as ->.
    { rewrite (alter_lookup _ _ _ i) by done. subst r. unfold ensure_inferior.
      case_match; [done|]. cbn. by rewrite insert_insert_eq. }
    unfold restart_inferior. rewrite Eb.
    eapply der_then_evolve; [apply (der_fresh _ _ _ k)|..].
    + intros k' i' [[<- <-]|[Hne Hl]]%lookup_insert_Some.
      * eexists. rewrite lookup_insert_eq. split; [done|].
        case_match; by apply evolves_same_threads.
      * exists i'. by rewrite lookup_insert_ne.
    + intros k' i' [[<- <-]|[Hne Hl]]%lookup_insert_Some.
      * eexists. rewrite lookup_insert_eq. split; [done|]. by case_match.
      * exists i'. by rewrite lookup_insert_ne.
  - rewrite (alter_lookup _ _ _ i) by done. unfold restart_inferior. rewrite Eb. eapply der_then_evolve; [exact He|..].
    + intros k' i' [[<- <-]|[Hne Hl]]%lookup_insert_Some; [|by exists i'].
      exists i. split; [done|]. case_match; by apply evolves_same_threads.
    + intros k' i' Hl. destruct (decide (k = k')) as [<-|Hne].
      * simplify_eq. eexists. rewrite lookup_insert_eq. split; [done|]. by case_match.
      * exists i'. by rewrite lookup_insert_ne.
Qed.

Lemma ders_running groups : ders (inferiors (reduce_target_running groups s).1).
Proof.
  unfold reduce_target_running.
  set (s1 := if bool_decide (inferiors s = ∅) then _ else s).
  assert (ders (inferiors s1)) as H1
    by (unfold s1; case_match; [apply ders_ensure|apply der_refl]).
  assert (ders (map_imap (fun k i =>
    Some (if selected groups k then resumed_inferior i else i)) (inferiors s1))) as H2;
    [|by case_match].
  eapply der_then_evolve; [exact H1|..].
  - intros k i'. rewrite map_lookup_imap. intros (i & Hi & [= <-])%bind_Some.
    exists i. split; [done|]. case_match; [apply resumed_evolves|reflexivity].
  - intros k i Hi. rewrite map_lookup_imap, Hi. cbn. eexists. split; [done|]. by case_match.
Qed.

Lemma ders_stopped bi bt reason detail frame :
  ders (inferiors (reduce_target_stopped bi bt reason detail frame s).1).
Proof.
  unfold reduce_target_stopped, record_stopped_thread. set (k := stopped_group bi bt s).
  pose proof (ders_ensure k) as He. revert He. rewrite (ensure_shape k).
  remember (inferiors (ensure_inferior _ _ _)) as r eqn:Er. cbn. intros He.
  assert (ders (paused_inferior <$> r)) as Hp.
  { eapply der_then_evolve; [exact He|..]; apply fmap_evolves_both, paused_evolves. }
  destruct bt as [t|]; cbn; [|done].
  destruct ((paused_inferior <$> r) !! k) as [i|] eqn:Hi; cbn; [|done].
  by eapply der_thread.
Qed.

Lemma ders_created b t : ders (inferiors (reduce_thread_created b t s).1).
Proof.
  unfold reduce_thread_created. pose proof (ders_ensure b) as He.
  destruct (ensure_lookup b (event_seq s) s) as [i Hi]. rewrite Hi.
  destruct (inf_threads i !! t) as [th|] eqn:Ht; cbn -[ensure_inferior];
    (eapply der_thread; [exact He|done|]; cbn; by rewrite Ht).
Qed.

Lemma ders_remove b t : ders (inferiors (remove_thread b t s).1).
Proof.
  unfold remove_thread. destruct (inferiors s !! b) as [i|] eqn:Hi; [|apply der_refl].
  destruct (inf_threads i !! t) eqn:Ht; [|apply der_refl]. cbn. apply der_evolve.
  intros k i' [[<- <-]|[_ Hl]]%lookup_insert_Some; [|by exists i'].
  exists i. split; [done|]. split_and!; [done..|]. cbn.
  intros t' th' [_ H]%lookup_delete_Some. by exists th'.
Qed.

Lemma ders_fmap f : (forall i, evolves i (f i)) -> ders (f <$> inferiors s).
Proof. intros Hf. apply der_evolve. by apply fmap_evolves_both. Qed.

Lemma ders_delete k : ders (delete k (inferiors s)).
Proof. apply der_evolve. intros k' i' [_ Hl]%lookup_delete_Some. by exists i'. Qed.

Lemma reduce_derived e : ders (inferiors (reduce e s).1).
Proof.
  destruct e; cbn [reduce];
    eauto using ders_restart, ders_running, ders_stopped, ders_created;
    unfold reduce_thread_exited, fail_backend, 
      reduce_inferior_removed, reduce_inferior_exited, reduce_core_opened,
      with_every_status, reduce_breakpoint, reduce_breakpoint_deleted,
      reduce_breakpoint_locations, reduce_breakpoint_rebound,
      reduce_snapshot_started, reduce_snapshot_ready, reduce_snapshot_failed,
      reduce_outcome_unknown, reduce_outcome_resolved, reduce_consistency_restored,
      dirty_unless_tainted, note_limitation, clear_stop_context;
    split_reduce;
    eauto using der_refl, ders_delete, ders_fmap, status_evolves, ders_remove,
      ders_ensure_alter, exited_evolves.
  apply ders_fmap. intros i. case_match; [apply status_evolves|reflexivity].
Qed.

End arms.

(** *** Steps *)

Lemma step_derived s s' :
  step s s' -> exists seq, (event_seq s < seq)%N /\
    derived (session_id s) seq (inferiors s) (inferiors s').
Proof.
  intros H. destruct H as [seq e s0 s1 c E|s0].
  - apply apply_event_inv in E as (Hseq & s2 & E & ->). exists seq. split; [done|].
    pose proof (bump_revision_fields (s2, c)) as (_ & _ & _ & _ & ->).
    pose proof (reduce_derived (set_event_seq seq s0) e) as Hd. rewrite E in Hd. exact Hd.
  - exists (event_seq s0 + 1)%N. split; [lia|]. unfold fail_closed.
    pose proof (bump_revision_fields (fail_backend s0)) as (_ & _ & _ & _ & ->).
    apply der_evolve. cbn. apply fmap_evolves_both.
    intros i. case_match; [apply status_evolves|reflexivity].
Qed.

Definition issued_inferior (s : SessionState) (id : InferiorId) : Prop :=
  exists g b, (g <= event_seq s)%N /\ id = InferiorId_from_backend (session_id s) g b.

Definition issued_thread (s : SessionState) (id : ThreadId) : Prop :=
  exists g b c t, (c <= event_seq s)%N /\
    id = ThreadId_from_backend (InferiorId_from_backend (session_id s) g b) c t.

Lemma live_inferior_issued s id : wf s -> live_inferior s id -> issued_inferior s id.
Proof.
  intros [[He _ _] _ _ _ _ _] (k & i & Hi & <-). destruct (He _ _ Hi) as [_ Hid Hg _].
  by exists (inf_generation i), k.
Qed.

Lemma live_thread_issued s id : wf s -> live_thread s id -> issued_thread s id.
Proof.
  intros [[He _ _] _ _ _ _ _] (k & i & t & th & Hi & Hth & <-).
  destruct (He _ _ Hi) as [_ Hid _ Ht]. destruct (Ht _ _ Hth) as (_ & c & Hc & E).
  exists (inf_generation i), k, c, t. by rewrite <-Hid.
Qed.

Lemma step_keeps_retired_inferior s s' id :
  step s s' -> issued_inferior s id -> ~ live_inferior s id ->
  issued_inferior s' id /\ ~ live_inferior s' id.
Proof.
  intros Hst (g & b & Hg & ->) Hn. destruct (step_frame _ _ Hst) as [Hsess Hle].
  split; [exists g, b; rewrite Hsess; split; [lia|done]|].
  destruct (step_derived _ _ Hst) as (seq & Hseq & [Hd _]).
  intros (k & i & Hi & E). destruct (Hd _ _ Hi) as [(k0 & i0 & H0 & E0)|(b0 & E0)].
  - apply Hn. exists k0, i0. split; [done|congruence].
  - rewrite E0 in E. apply InferiorId_generation in E. lia.
Qed.

Lemma step_keeps_retired_thread s s' id :
  wf s' -> uses_compact_handles (session_id s) = true ->
  step s s' -> issued_thread s id -> ~ live_thread s id ->
  issued_thread s' id /\ ~ live_thread s' id.
Proof.
  intros Hw Hc Hst (g & b & c & t & Hcs & ->) Hn.
  destruct (step_frame _ _ Hst) as [Hsess Hle].
  split; [exists g, b, c, t; rewrite Hsess; split; [lia|done]|].
  destruct (step_derived _ _ Hst) as (seq & Hseq & [_ Hd]).
  intros (k & i & t' & th & Hi & Hth & E).
  destruct (Hd _ _ _ _ Hi Hth) as [(k0 & i0 & t0 & th0 & H0 & Ht0 & E0)|(k0 & i0 & b0 & H0 & E0)].
  - apply Hn. exists k0, i0, t0, th0. split_and!; [done..|congruence].
  - rewrite E0, (wi_id _ _ _ _ _ (reg_entries _ _ _ _ (wf_registry _ Hw) _ _ H0)), Hsess in E.
    apply ThreadId_compact_inj in E; [lia|done].
Qed.

Lemma steps_wf s s' : wf s -> rtc step s s' -> wf s'.
Proof. intros H Hst. induction Hst; eauto using step_wf. Qed.

Lemma steps_keep_retired_inferior s s' id :
  rtc step s s' -> issued_inferior s id -> ~ live_inferior s id -> ~ live_inferior s' id.
Proof.
  induction 1 as [|s0 s1 s2 Hst _ IH]; [done|]. intros Hi Hn.
  destruct (step_keeps_retired_inferior _ _ _ Hst Hi Hn). auto.
Qed.

Lemma steps_keep_retired_thread s s' id :
  rtc step s s' -> wf s -> uses_compact_handles (session_id s) = true ->
  issued_thread s id -> ~ live_thread s id -> ~ live_thread s' id.
Proof.
  induction 1 as [|s0 s1 s2 Hst _ IH]; [done|]. intros Hw Hc Hi Hn.
  assert (wf s1) as Hw1 by (by eapply step_wf).
  destruct (step_keeps_retired_thread _ _ _ Hw1 Hc Hst Hi Hn).
  destruct (step_frame _ _ Hst) as [E _]. apply IH; [done|by rewrite E|done..].
Qed.

Lemma steps_frame s s' :
  rtc step s s' -> session_id s' = session_id s /\ (event_seq s <= event_seq s')%N.
Proof.
  induction 1 as [|s0 s1 s2 Hst _ [-> IH]]; [done|].
  destruct (step_frame _ _ Hst) as [-> ?]. split; [done|lia].
Qed.

(** C31: a handle of an inferior or thread that has left the registry never
    names a live object again, even when the backend reuses its id: the
    inferior part holds in every session, the thread part in sessions with
    compact handles (the only ones the program creates). *)
Theorem retired_handles_stay_retired session s1 s2 s3 :
  reachable session s1 -> rtc step s1 s2 -> rtc step s2 s3 ->
  (forall id, live_inferior s1 id -> ~ live_inferior s2 id -> ~ live_inferior s3 id) /\
  (uses_compact_handles session = true ->
   forall id, live_thread s1 id -> ~ live_thread s2 id -> ~ live_thread s3 id).
Proof.
  intros H1 H12 H23. pose proof (reachable_wf _ _ H1) as Hw1.
  pose proof (steps_wf _ _ Hw1 H12) as Hw2.
  destruct (steps_frame _ _ H1) as [Es1 _]. destruct (steps_frame _ _ H12) as [Es2 Hle].
  split.
  - intros id (g & b & Hg & ->)%live_inferior_issued Hn; [|done].
    eapply steps_keep_retired_inferior; [done| |done].
    exists g, b. rewrite Es2. split; [lia|done].
  - intros Hc id (g & b & c & t & Hcs & ->)%live_thread_issued Hn; [|done].
    eapply steps_keep_retired_thread; [done|done|by rewrite Es2, Es1| |done].
    exists g, b, c, t. rewrite Es2. split; [lia|done].
Qed.

(** Thread 1 of [i1] exits and the backend reuses its id. *)
Definition thread_exit_events : list (N * Event.DomainEvent) :=
  [(6%N, Event.ThreadExited (Some "i1") "1")].
Definition thread_reuse_events : list (N * Event.DomainEvent) :=
  [(7%N, Event.ThreadCreated "i1" "1")].
Definition after_exit : SessionState :=
  state_after (first_stop_events ++ thread_exit_events).
Definition after_reuse : SessionState :=
  state_after (first_stop_events ++ thread_exit_events ++ thread_reuse_events).

Definition live_threads (s : SessionState) : list ThreadId :=
  i ← btree_values (inferiors s); th_id <$> btree_values (inf_threads i).

Lemma live_threads_spec s id : live_thread s id <-> id ∈ live_threads s.
Proof.
  unfold live_thread, live_threads. rewrite list_elem_of_bind. split.
  - intros (k & i & t & th & Hi & Hth & <-). exists i.
    rewrite list_elem_of_fmap, elem_of_btree_values. split; [|by exists k].
    exists th. rewrite elem_of_btree_values. split; [done|by exists t].
  - intros (i & Hth & [k Hk]%elem_of_btree_values).
    apply list_elem_of_fmap in Hth as (th & -> & [t Ht]%elem_of_btree_values).
    by exists k, i, t, th.
Qed.

Lemma retired_handles_stay_retired_witness : ~ live_thread after_reuse "t4_1".
Proof.
  refine (proj2 (retired_handles_stay_retired sample_session at_first_stop after_exit
    after_reuse _ _ _) _ "t4_1" _ _).
  - exact at_first_stop_reachable.
  - apply (run_steps thread_exit_events). vm_compute. reflexivity.
  - apply (run_steps thread_reuse_events). vm_compute. reflexivity.
  - vm_compute. reflexivity.
  - apply live_threads_spec. vm_compute. left.
  - rewrite live_threads_spec. vm_compute. by intros ?%elem_of_nil.
Defined.
