(* ===== verification/Backend.v ===== *)
(** * Backend: MI commands and the GDB output reader
    ([crates/gdb-ai-core/src/backend.rs], lines 42 to 122 and 1226 to 1303)

    Commands are built by checked constructors and written as one line; the
    reader turns the chunks read from GDB's standard output into the inputs of
    the session actor.  The channel to the actor is modelled by the list of
    inputs sent while the receiver is open.  Processes, pseudo-terminals and
    the sandbox are not modelled. *)

From S2P Require Import Prelude Text MiAst MiFramer MiParser MiParserSafety Json Errors.

(** ** Commands *)

Inductive MiArgument :=
| Bare (value : bytes)
| StringArgument (value : bytes).

Record MiCommand := MkMiCommand {
  command_name : bytes;
  command_arguments : list MiArgument
}.

Definition command_byte (c : ascii) : bool := is_ascii_alphanumeric c || (c =? "-")%char.

Definition MiCommand_new (name : bytes) : Result Error MiCommand :=
  if negb (starts_with ["-"%char] name) || (lenN name <? 2)%N ||
     negb (forallb command_byte (drop 1 name))
  then Err (Error_new Code.InvalidArgument
              "MI command name must be a dash followed by letters, digits, or dashes")
  else Ok (MkMiCommand name []).

Definition push_argument (a : MiArgument) (c : MiCommand) : MiCommand :=
  MkMiCommand (command_name c) (command_arguments c ++ [a]).

Definition bare (c : MiCommand) (value : bytes) : Result Error MiCommand :=
  if bool_decide (value = []) ||
     existsb (fun b => is_ascii_whitespace b || (b =? CR)%char || (b =? LF)%char) value
  then Err (Error_new Code.InvalidArgument "bare MI argument contains whitespace")
  else Ok (push_argument (Bare value) c).

Definition string_argument (c : MiCommand) (value : bytes) : MiCommand :=
  push_argument (StringArgument value) c.

Definition encode_argument (a : MiArgument) : bytes :=
  match a with
  | Bare value => value
  | StringArgument value => quote_c_string value
  end.

Definition encoded (c : MiCommand) (token : N) : bytes :=
  bytes_of (dec token) ++ command_name c ++
  (command_arguments c ≫= fun a => " "%char :: encode_argument a) ++ [LF].

(** The commands the constructors build. *)
Inductive built : MiCommand -> Prop :=
| built_new name c : MiCommand_new name = Ok c -> built c
| built_bare c value c' : built c -> bare c value = Ok c' -> built c'
| built_string c value : built c -> built (string_argument c value).

(** ** The reader of GDB's standard output *)

Inductive BackendInput :=
| Mi (raw : bytes) (record : MiRecord)
| ProtocolError (e : Error)
| GdbStderr (data : bytes)
| InferiorPty
| GdbEof.

Definition hex_preview (b : bytes) : bytes := b ≫= fun c => hex_fixed 2 (byte_N c).

Definition record_error (raw : bytes) (e : MiError) : BackendInput :=
  ProtocolError (with_details (Object [
      ("preview_hex", Str (string_of (hex_preview (take 64 raw))));
      ("record_bytes", uint (lenN raw))]) (error_of_mi e)).

Definition frame_error (f : MiFramer) (e : MiError) : BackendInput :=
  let shown := preview f 64 in
  ProtocolError (with_details (Object [
      ("preview_hex", Str (string_of (hex_preview shown)));
      ("preview_bytes", uint (lenN shown))]) (error_of_mi e)).

(** The records of one push: the inputs sent, and whether the reader returns
    because one of them does not parse. *)
Fixpoint send_records (limits : MiLimits) (raws : list bytes)
    : outcome MiError (list BackendInput * bool) :=
  match raws with
  | [] => Done ([], false)
  | raw :: rest =>
      match parse_record raw limits with
      | Done r =>
          '(inputs, stopped) ← send_records limits rest;
          Done (Mi raw r :: inputs, stopped)
      | Fail e => Done ([record_error raw e], true)
      | Panic => Panic
      | OutOfFuel => OutOfFuel
      end
  end.

(** How reading ends: the stream is closed, or a read fails. *)
Inductive ReadEnd := Eof | ReadFailure (message : string).

Definition finish_reading (limits : MiLimits) (f : MiFramer)
    : outcome MiError (list BackendInput) :=
  match (MiFramer.finish f).1 with
  | Ok (Some raw) =>
      if bool_decide (raw = []) then Done [GdbEof]
      else match parse_record raw limits with
      | Done r => Done [Mi raw r; GdbEof]
      | Fail e => Done [record_error raw e; GdbEof]
      | Panic => Panic
      | OutOfFuel => OutOfFuel
      end
  | _ => Done [GdbEof]
  end.

(** [read_mi] from a framer; an empty read is the end of the stream. *)
Fixpoint read_loop (limits : MiLimits) (f : MiFramer) (chunks : list bytes)
    (ending : ReadEnd) : outcome MiError (list BackendInput) :=
  match chunks with
  | [] =>
      match ending with
      | ReadFailure message =>
          Done [ProtocolError (Error_new Code.GdbExited
                                 ("cannot read GDB stdout: " +:+ message))]
      | Eof => finish_reading limits f
      end
  | [] :: _ => finish_reading limits f
  | chunk :: rest =>
      '(frames, f') ← MiFramer.push f chunk;
      '(inputs, stopped) ← send_records limits (records frames);
      match stopped, error frames with
      | true, _ => Done inputs
      | false, Some e => Done (inputs ++ [frame_error f' e])
      | false, None =>
          more ← read_loop limits f' rest ending;
          Done (inputs ++ more)
      end
  end.

Definition read_mi (limits : MiLimits) (chunks : list bytes) (ending : ReadEnd)
    : outcome MiError (list BackendInput) :=
  read_loop limits (MiFramer_new limits) chunks ending.

(** ** One command, one line *)

Definition line_byte (c : ascii) : bool := negb ((c =? LF)%char || (c =? CR)%char).

Lemma forallb_Forall_true {A} (p : A -> bool) l :
  forallb p l = true <-> Forall (fun x => p x = true) l.
Proof.
  induction l as [|x l IH]; cbn; [by split|].
  rewrite andb_true_iff, IH, Forall_cons. done.
Qed.

Lemma command_byte_line c : command_byte c = true -> line_byte c = true.
Proof. apply (byte_implies _ _). by vm_compute. Qed.

Lemma printable_line c : printable c = true -> line_byte c = true.
Proof. apply (byte_implies _ _). by vm_compute. Qed.

Lemma digit_line c : is_ascii_digit c = true -> line_byte c = true.
Proof. apply (byte_implies _ _). by vm_compute. Qed.

(** What the constructors guarantee of a command. *)
Record command_ok (c : MiCommand) : Prop := {
  name_dash : exists rest, command_name c = "-"%char :: rest;
  name_line : Forall (fun b => line_byte b = true) (command_name c);
  arguments_line : Forall (fun a => Forall (fun b => line_byte b = true) (encode_argument a))
                     (command_arguments c)
}.

Lemma MiCommand_new_ok name c : MiCommand_new name = Ok c -> command_ok c.
Proof.
  unfold MiCommand_new, starts_with. destruct (strip_prefix _ name) as [rest|] eqn:E; cbn [negb orb]; [|done].
  apply strip_prefix_Some in E as ->. cbn -[lenN].
  destruct (_ <? _)%N; [done|]. cbn. rewrite drop_0.
  destruct (forallb command_byte rest) eqn:Hr; [|done].
  intros [= <-]. split; cbn.
  - by exists rest.
  - constructor; [done|]. apply forallb_Forall_true in Hr.
    eapply Forall_impl; [exact Hr|]. apply command_byte_line.
  - constructor.
Qed.

Lemma push_argument_ok a c :
  command_ok c -> Forall (fun b => line_byte b = true) (encode_argument a) ->
  command_ok (push_argument a c).
Proof.
  intros [? ? Ha] H. split; [done..|]. cbn. apply Forall_app. by split; [|constructor].
Qed.

Lemma built_ok c : built c -> command_ok c.
Proof.
  induction 1 as [name c H|c value c' _ IH H|c value _ IH].
  - by eapply MiCommand_new_ok.
  - unfold bare in H. destruct (bool_decide (value = [])); [done|]. cbn in H.
    destruct (existsb _ value) eqn:E; [done|]. simplify_eq. apply push_argument_ok; [done|].
    apply Forall_forall. intros b Hb. unfold line_byte. apply negb_true_iff.
    destruct (b =? LF)%char eqn:E1, (b =? CR)%char eqn:E2; try done;
      (exfalso; apply not_true_iff_false in E; apply E, existsb_exists; exists b;
       split; [by apply list_elem_of_In|]; by rewrite E1, E2, ?orb_true_r).
  - apply push_argument_ok; [done|]. cbn.
    eapply Forall_impl; [apply quote_c_string_printable|]. apply printable_line.
Qed.

Lemma encoded_is_encode_command c token :
  encoded c token =
    encode_command token (command_name c) (encode_argument <$> command_arguments c).
Proof.
  unfold encoded, encode_command. rewrite <-!app_assoc. do 2 f_equal. f_equal.
  induction (command_arguments c) as [|a l IH]; [done|]. rewrite fmap_cons, !bind_cons. by rewrite IH.
Qed.

(** Whatever the caller passes, a command built by the checked
    constructors is sent as exactly one line: the encoding ends in its only
    line feed, holds no carriage return, is what [encode_command] prints, and
    the digits before the dash are the token, which the MI parser reads back. *)
Theorem commands_are_single_lines c token :
  built c -> (token <= U64_MAX)%N ->
  exists line rest,
    encoded c token = line ++ [LF] /\
    Forall (fun b => line_byte b = true) line /\
    line = bytes_of (dec token) ++ "-"%char :: rest /\
    parse_u64 (bytes_of (dec token)) = Some token /\
    encoded c token =
      encode_command token (command_name c) (encode_argument <$> command_arguments c).
Proof.
  intros [[rest Hname] Hline Hargs]%built_ok Htok.
  set (args := command_arguments c ≫= fun a => " "%char :: encode_argument a).
  assert (Forall (fun b => line_byte b = true) args) as Hl.
  { subst args. induction Hargs as [|a l Ha _ IH]; [constructor|].
    rewrite bind_cons. cbn. constructor; [done|]. apply Forall_app. by split. }
  exists (bytes_of (dec token) ++ command_name c ++ args), (rest ++ args). split_and!.
  - unfold encoded. by rewrite <-!app_assoc.
  - apply Forall_app. split.
    + eapply Forall_impl; [apply dec_digits|]. apply digit_line.
    + apply Forall_app. by split.
  - rewrite Hname. cbn. done.
  - by apply parse_dec.
  - apply encoded_is_encode_command.
Qed.

(** A memory write whose string argument tries to start another command. *)
Definition sample_command : MiCommand :=
  string_argument (MkMiCommand (bytes_of "-gdb-set") [Bare (bytes_of "args")])
    (bytes_of "x" ++ [LF] ++ bytes_of "2-exec-run").

Lemma sample_command_built : built sample_command.
Proof.
  apply built_string. apply (built_bare (MkMiCommand (bytes_of "-gdb-set") []) (bytes_of "args")).
  - by apply (built_new (bytes_of "-gdb-set")).
  - reflexivity.
Qed.

Lemma commands_are_single_lines_witness :
  exists line rest,
    encoded sample_command 7 = line ++ [LF] /\
    Forall (fun b => line_byte b = true) line /\
    line = bytes_of (dec 7) ++ "-"%char :: rest /\
    parse_u64 (bytes_of (dec 7)) = Some 7%N /\
    encoded sample_command 7 =
      encode_command 7 (command_name sample_command)
        (encode_argument <$> command_arguments sample_command).
Proof.
  apply (commands_are_single_lines sample_command 7 sample_command_built).
  by vm_compute.
Defined.

(** ** What the reader delivers *)

(** The records of the inputs. *)
Definition delivered (inputs : list BackendInput) : list (bytes * MiRecord) :=
  inputs ≫= fun i => match i with Mi raw r => [(raw, r)] | _ => [] end.

(** The records of a list of lines up to the first that does not parse. *)
Fixpoint parsed_prefix (limits : MiLimits) (raws : list bytes)
    : list (bytes * MiRecord) * bool :=
  match raws with
  | [] => ([], false)
  | raw :: rest =>
      match parse_record raw limits with
      | Done r => let '(rs, failed) := parsed_prefix limits rest in ((raw, r) :: rs, failed)
      | _ => ([], true)
      end
  end.

(** The records of a whole stream: those of its framed lines up to the first
    violation, and of its unterminated tail when there is none. *)
Definition reference_records (limits : MiLimits) (stream : bytes)
    : list (bytes * MiRecord) :=
  let '(raws, bad) := reference_frames (max_record_bytes limits) stream in
  let '(rs, failed) := parsed_prefix limits raws in
  if failed || bad then rs
  else match (split_lines stream).2 with
       | [] => rs
       | tail => rs ++ (parsed_prefix limits [tail]).1
       end.

Lemma delivered_app i j : delivered (i ++ j) = delivered i ++ delivered j.
Proof. apply bind_app. Qed.

Lemma parsed_prefix_app limits a b :
  parsed_prefix limits (a ++ b) =
    if (parsed_prefix limits a).2 then parsed_prefix limits a
    else ((parsed_prefix limits a).1 ++ (parsed_prefix limits b).1,
          (parsed_prefix limits b).2).
Proof.
  induction a as [|raw a IH]; cbn; [by destruct (parsed_prefix limits b)|].
  destruct (parse_record raw limits); [|done..]. rewrite IH.
  destruct (parsed_prefix limits a) as [rs []]; cbn; [done|].
  by destruct (parsed_prefix limits b).
Qed.

Lemma send_records_spec limits raws :
  (max_record_bytes limits <= U64_MAX)%N ->
  exists inputs, send_records limits raws = Done (inputs, (parsed_prefix limits raws).2) /\
                 delivered inputs = (parsed_prefix limits raws).1.
Proof.
  intros Hmax. induction raws as [|raw rest (inputs & IH & Hd)]; cbn; [by exists []|].
  pose proof (parse_record_post raw limits Hmax) as Hp.
  destruct (parse_record raw limits) as [r|e| |]; [|by eexists|done..].
  rewrite IH. cbn. destruct (parsed_prefix limits rest) as [rs failed]. cbn in *.
  eexists. split; [done|].
  change (delivered (Mi raw r :: inputs)) with ((raw, r) :: delivered inputs). by rewrite Hd.
Qed.

Lemma finish_reading_spec limits f :
  (max_record_bytes limits <= U64_MAX)%N -> framer_max f = max_record_bytes limits ->
  clean f ->
  exists inputs, finish_reading limits f = Done inputs /\
    delivered inputs = match buffer f with [] => [] | t => (parsed_prefix limits [t]).1 end.
Proof.
  intros Hmax Hf (_ & _ & Hlen). unfold finish_reading, MiFramer.finish.
  destruct (buffer f) as [|c b] eqn:Eb; [by eexists|].
  destruct (N.ltb_spec (framer_max f) (lenN (c :: b))); [lia|]. cbn [fst].
  rewrite bool_decide_false by done. cbn -[parse_record].
  pose proof (parse_record_post (c :: b) limits Hmax) as Hp.
  destruct (parse_record (c :: b) limits); [..|done|done]; by eexists.
Qed.

Lemma reference_records_step limits a b ls rest :
  split_lines a = (ls, rest) -> within (max_record_bytes limits) ls ->
  (parsed_prefix limits (reference_frames (max_record_bytes limits) a).1).2 = false ->
  reference_records limits (a ++ b) =
    (parsed_prefix limits (reference_frames (max_record_bytes limits) a).1).1 ++
    reference_records limits (rest ++ b).
Proof.
  intros E Hw Hp. unfold reference_records.
  rewrite (reference_frames_app_good _ _ _ _ _ E Hw), (split_lines_app _ _ _ _ E).
  destruct (reference_frames _ (rest ++ b)) as [r2 bad2]. cbn.
  rewrite parsed_prefix_app, Hp.
  destruct (parsed_prefix limits r2) as [rs2 failed2]. cbn.
  destruct (split_lines (rest ++ b)) as [ls2 rest2]. cbn.
  destruct (failed2 || bad2); [done|]. destruct rest2; [done|]. by rewrite app_assoc.
Qed.

(** The records of a prefix are a prefix of the records, and a violation in
    the prefix ends them. *)
Lemma reference_frames_app max a b :
  exists more bad, reference_frames max (a ++ b) = ((reference_frames max a).1 ++ more, bad) /\
    ((reference_frames max a).2 = true -> more = [] /\ bad = true).
Proof.
  destruct (reference_frames max a).2 eqn:Hbad.
  - exists [], true. rewrite reference_frames_app_bad by done. rewrite app_nil_r.
    destruct (reference_frames max a); cbn in *. by subst.
  - destruct (split_lines a) as [ls rest] eqn:E. eexists _, _.
    split; [|done]. eapply reference_frames_app_good; [done|].
    destruct (decide (within max ls)) as [|Hw]; [done|].
    unfold reference_frames in Hbad. rewrite E, collect_not_within in Hbad by done. done.
Qed.

Lemma reference_records_stop limits a b :
  let raws := (reference_frames (max_record_bytes limits) a).1 in
  (parsed_prefix limits raws).2 || (reference_frames (max_record_bytes limits) a).2 = true ->
  reference_records limits (a ++ b) = (parsed_prefix limits raws).1.
Proof.
  cbn zeta. intros H. unfold reference_records.
  destruct (reference_frames_app (max_record_bytes limits) a b) as (more & bad & -> & Hb).
  rewrite parsed_prefix_app.
  destruct (parsed_prefix limits (reference_frames _ a).1) as [rs []] eqn:Ep; [done|].
  cbn in H |- *. destruct (Hb H) as [-> ->]. cbn. by rewrite app_nil_r.
Qed.

Lemma read_loop_spec limits f chunks :
  (max_record_bytes limits <= U64_MAX)%N -> framer_max f = max_record_bytes limits ->
  clean f -> Forall (fun c => c <> []) chunks ->
  exists inputs, read_loop limits f chunks Eof = Done inputs /\
    delivered inputs = reference_records limits (buffer f ++ mjoin chunks).
Proof.
  intros Hmax. revert f.
  induction chunks as [|c cs IH]; intros f Hf Hclean Hne.
  - destruct (finish_reading_spec limits f Hmax Hf Hclean) as (inputs & E & Hd).
    exists inputs. split; [done|]. rewrite Hd. cbn. rewrite app_nil_r.
    unfold reference_records, reference_frames.
    destruct Hclean as (Hlf & _ & Hlen). rewrite split_lines_no_LF by done. cbn [collect].
    destruct (N.ltb_spec (max_record_bytes limits) (lenN (buffer f))); [lia|].
    by destruct (buffer f).
  - apply Forall_cons in Hne as [Hc Hne].
    destruct (split_lines (buffer f ++ c)) as [ls rest] eqn:E.
    destruct (push_spec f c ls rest Hclean E) as (frames & f1 & Hpush & Hm & Hrec & Herr & Hok).
    cbn [read_loop]. destruct c as [|c0 c]; [done|].
    replace (buffer f ++ mjoin ((c0 :: c) :: cs)) with ((buffer f ++ c0 :: c) ++ mjoin cs)
      by (rewrite <-app_assoc; done).
    rewrite Hpush. cbn -[parsed_prefix].
    destruct (send_records_spec limits (records frames) Hmax) as (inputs & -> & Hd).
    rewrite Hf in *.
    destruct (parsed_prefix limits (records frames)) as [rs failed] eqn:Ep. cbn in Hd |- *.
    destruct failed; [|destruct (error frames) as [e|]].
    + exists inputs. split; [done|]. rewrite Hd.
      rewrite reference_records_stop; rewrite <-Hrec, Ep; done.
    + eexists. split; [done|]. rewrite delivered_app, Hd, app_nil_r.
      rewrite reference_records_stop; rewrite <-?Hrec, ?Ep; [done|].
      rewrite <-Herr. by rewrite bool_decide_true.
    + destruct (Hok eq_refl) as (Hcl & Hbuf & Hw).
      destruct (IH f1) as (more & -> & Hd1); [congruence|done|done|]. cbn.
      eexists. split; [done|]. rewrite delivered_app, Hd, Hd1, Hbuf.
      rewrite (reference_records_step _ _ _ _ _ E Hw); by rewrite <-Hrec, Ep.
Qed.

(** The reader never fails to settle, and the MI records the session
    receives from a closed stream depend on the bytes of the stream alone, not
    on how they were read: they are the records of its lines, in order, up to
    the first framing or syntax violation, then the record of the tail. *)
Theorem reader_delivers_the_stream limits chunks :
  (max_record_bytes limits <= U64_MAX)%N -> Forall (fun c => c <> []) chunks ->
  exists inputs, read_mi limits chunks Eof = Done inputs /\
    delivered inputs = reference_records limits (mjoin chunks).
Proof.
  intros Hmax Hne.
  apply (read_loop_spec limits (MiFramer_new limits) chunks Hmax); [done| |done].
  apply MiFramer_new_clean.
Qed.

(** A stop record read in two pieces, then a prompt without a newline. *)
Definition sample_chunks : list bytes :=
  [bytes_of "*stopped,rea"; bytes_of "son=" ++ [DQUOTE] ++ bytes_of "signal-received" ++
   [DQUOTE; LF] ++ bytes_of "(gdb)"].

Lemma reader_delivers_the_stream_witness :
  exists inputs, read_mi MiLimits_default sample_chunks Eof = Done inputs /\
    delivered inputs = reference_records MiLimits_default (mjoin sample_chunks).
Proof.
  apply (reader_delivers_the_stream MiLimits_default sample_chunks).
  - by vm_compute.
  - by repeat constructor.
Defined.

Example sample_chunks_records :
  (fun p => p.2) <$> reference_records MiLimits_default (mjoin sample_chunks) =
    [ExecAsync None "stopped" [MkMiResult "reason" (Const (bytes_of "signal-received"))];
     Prompt].
Proof. vm_compute. reflexivity. Qed.
