(* ===== verification/Normalize.v ===== *)
(** * Normalize: MI records to domain events
    ([crates/gdb-ai-core/src/normalize.rs])

    The base64 engine is a parameter of the definitions that print bytes. *)

From S2P Require Import Prelude Text MiAst Json Errors Domain.

Definition NORMALIZATION_VERSION : N := 2.

Definition text (results : list MiResult) (n : string) : option string :=
  find_str results n.

(** [str::parse::<u64>().ok()] of a field. *)
Definition number_u64 (s : string) : option N := parse_u64 (bytes_of s).
Definition number_u32 (s : string) : option N := parse_u32 (bytes_of s).

Definition frame_summary_fields (fields : list MiResult) : FrameSummary := {|
  fr_level := default 0%N (find_str fields "level" ≫= number_u32);
  fr_address := text fields "addr";
  fr_function := text fields "func";
  fr_module := text fields "from";
  fr_source := match text fields "fullname" with
               | Some s => Some s
               | None => text fields "file"
               end;
  fr_line := find_str fields "line" ≫= number_u32
|}.

(** The first of the watchpoint tuples that is present. *)
Fixpoint find_map_results (results : list MiResult) (names : list string)
    : option (list MiResult) :=
  match names with
  | [] => None
  | n :: rest =>
      match find results n ≫= value_results with
      | Some fields => Some fields
      | None => find_map_results results rest
      end
  end.

Definition stop_reason_of (results : list MiResult) (raw_reason : string)
    : Reason.StopReason :=
  if decide (raw_reason = "breakpoint-hit") then
    Reason.Breakpoint (text results "bkptno") (text results "disp")
  else if decide (raw_reason = "watchpoint-trigger" \/
                  raw_reason = "read-watchpoint-trigger" \/
                  raw_reason = "access-watchpoint-trigger") then
    let fields := find_map_results results ["wpt"; "hw-rwpt"; "hw-awpt"] in
    Reason.Watchpoint (fields ≫= fun f => text f "number")
      (fields ≫= fun f => text f "exp") raw_reason
  else if decide (raw_reason = "signal-received") then
    Reason.Signal (text results "signal-name") (text results "signal-meaning")
  else if decide (raw_reason = "end-stepping-range") then Reason.EndSteppingRange
  else if decide (raw_reason = "function-finished") then Reason.FunctionFinished
  else if decide (raw_reason = "location-reached") then Reason.LocationReached
  else if decide (raw_reason = "interrupt") then Reason.Interrupt
  else Reason.Unknown raw_reason.

Definition stopped (results : list MiResult) : Event.DomainEvent :=
  let raw_reason := default "unknown" (find_str results "reason") in
  let backend_inferior := find_str results "thread-group" in
  if starts_with (bytes_of "exited") (bytes_of raw_reason) then
    Event.InferiorExited backend_inferior (find_str results "exit-code") true
  else
    Event.TargetStopped backend_inferior (find_str results "thread-id") raw_reason
      (Some (stop_reason_of results raw_reason))
      (frame_summary_fields <$> (find results "frame" ≫= value_results)).

Definition breakpoint (results : list MiResult) (modified : bool)
    : option Event.DomainEvent :=
  fields ← find results "bkpt" ≫= value_results;
  backend_number ← text fields "number";
  let enabled := match text fields "enabled" with
                 | Some v => bool_decide (v = "y")
                 | None => true
                 end in
  let pending := match text fields "pending" with
                 | Some v => bool_decide (v = "y")
                 | None => false
                 end || bool_decide (text fields "addr" = Some "<PENDING>") in
  Some (if modified then Event.BreakpointModified backend_number enabled pending
        else Event.BreakpointCreated backend_number enabled pending).

Definition notification (class : string) (results : list MiResult)
    : option Event.DomainEvent :=
  if decide (class = "thread-group-added" \/ class = "thread-group-started") then
    Some (Event.InferiorAdded (default "i1" (text results "id"))
            (find_str results "pid" ≫= number_u64))
  else if decide (class = "thread-group-removed") then
    Event.InferiorRemoved <$> text results "id"
  else if decide (class = "thread-group-exited") then
    id ← text results "id";
    Some (Event.InferiorExited (Some id) (text results "exit-code") false)
  else if decide (class = "thread-created") then
    id ← text results "id";
    Some (Event.ThreadCreated (default "i1" (text results "group-id")) id)
  else if decide (class = "thread-exited") then
    id ← text results "id";
    Some (Event.ThreadExited (text results "group-id") id)
  else if decide (class = "breakpoint-created") then breakpoint results false
  else if decide (class = "breakpoint-modified") then breakpoint results true
  else if decide (class = "breakpoint-deleted") then
    Event.BreakpointDeleted <$> text results "id"
  else if decide (class = "library-loaded") then
    id ← text results "id";
    Some (Event.LibraryLoaded id (text results "target-name") (text results "host-name")
            ((fun v => bool_decide (v = "1")) <$> text results "symbols-loaded"))
  else if decide (class = "library-unloaded") then
    Event.LibraryUnloaded <$> text results "id"
  else if decide (class = "memory-changed") then Some Event.MemoryChanged
  else if decide (class = "thread-selected" \/ class = "cmd-param-changed") then None
  else Some (Event.UnknownBackendNotification ("notify:" +:+ class)).

Definition normalize (record : MiRecord) : option Event.DomainEvent :=
  match record with
  | ExecAsync _ class results =>
      if decide (class = "running") then
        Some (Event.TargetRunning
                match find_str results "thread-group" with
                | Some group => [group]
                | None => []
                end)
      else if decide (class = "stopped") then Some (stopped results)
      else Some (Event.UnknownBackendEvent ("exec:" +:+ class))
  | NotifyAsync _ class results => notification class results
  | ConsoleStream b => Some (Event.Output Out.GdbConsoleStream b)
  | TargetStream b => Some (Event.Output Out.MiTargetStream b)
  | LogStream b => Some (Event.Output Out.GdbLogStream b)
  | RResult _ _ _ | StatusAsync _ _ _ | Prompt => None
  end.

Definition breakpoint_number (record : MiRecord) : Result Error string :=
  ok_or (fields ← find (record_results record) "bkpt" ≫= value_results;
         find_str fields "number")
    (Error_new Code.GdbError "GDB returned no breakpoint number").

(** ** Bytes as JSON *)

(** [char::is_control]: the category Cc. *)
Definition is_control (c : N) : bool := ((c <? 32) || ((127 <=? c) && (c <=? 159)))%N.

Definition readable_char (c : N) : bool :=
  negb (is_control c) || (c =? 10)%N || (c =? 13)%N || (c =? 9)%N.

Section base64.
Context (base64_encode : bytes -> string).

Definition byte_content (b : bytes) : list (string * Value) :=
  match utf8_decode b with
  | Some chars =>
      if forallb readable_char chars then
        [("encoding", Str "utf-8"); ("text", Str (string_of b))]
      else [("encoding", Str "binary"); ("data_base64", Str (base64_encode b))]
  | None => [("encoding", Str "binary"); ("data_base64", Str (base64_encode b))]
  end.

(** The three streams of a command's records, concatenated in order. *)
Definition console_bytes (records : list MiRecord) : bytes :=
  records ≫= fun r => match r with ConsoleStream b => b | _ => [] end.
Definition target_bytes (records : list MiRecord) : bytes :=
  records ≫= fun r => match r with TargetStream b => b | _ => [] end.
Definition log_bytes (records : list MiRecord) : bytes :=
  records ≫= fun r => match r with LogStream b => b | _ => [] end.

Definition command_output (records : list MiRecord) (truncated : bool)
    : list (string * Value) :=
  let field n b := match b with [] => [] | _ => [(n, Object (byte_content b))] end in
  field "console" (console_bytes records) ++ field "target" (target_bytes records) ++
  field "log" (log_bytes records) ++
  (if truncated then [("truncated", Bool true)] else []).

End base64.

(** ** Which records become events *)

(** The notifications that carry their subject in a mandatory field. *)
Definition needs_id : list string :=
  ["thread-group-removed"; "thread-group-exited"; "thread-created"; "thread-exited";
   "breakpoint-deleted"; "library-loaded"; "library-unloaded"].

Definition needs_breakpoint : list string := ["breakpoint-created"; "breakpoint-modified"].

Definition ignored_notifications : list string := ["thread-selected"; "cmd-param-changed"].

Definition reported_number (results : list MiResult) : option string :=
  (find results "bkpt" ≫= value_results) ≫= fun f => text f "number".

Lemma breakpoint_None results modified :
  breakpoint results modified = None <->
  reported_number results = None.
Proof.
  unfold breakpoint, reported_number. destruct (find results "bkpt" ≫= value_results); cbn; [|done].
  by destruct (text _ "number"), modified.
Qed.

Lemma notification_None class results :
  notification class results = None <->
  class ∈ ignored_notifications \/
  class ∈ needs_id /\ text results "id" = None \/
  class ∈ needs_breakpoint /\ reported_number results = None.
Proof.
  unfold notification, ignored_notifications, needs_id, needs_breakpoint.
  set (T := text results "id"). set (B := reported_number results).
  rewrite !elem_of_cons, !elem_of_nil.
  repeat case_decide; rewrite ?breakpoint_None; fold B; destruct T; cbn;
    intuition congruence.
Qed.

(** No debugger activity is dropped silently: every record either becomes
    an event or is one of the records that carry none (a command result, a
    status record, a prompt, a selection or parameter notification), or a
    known notification that lacks the field naming its subject.  Classes the
    program does not know always become an event. *)
Theorem no_record_is_dropped_silently record :
  normalize record = None <->
  match record with
  | RResult _ _ _ | StatusAsync _ _ _ | Prompt => True
  | NotifyAsync _ class results =>
      class ∈ ignored_notifications \/
      class ∈ needs_id /\ text results "id" = None \/
      class ∈ needs_breakpoint /\ reported_number results = None
  | _ => False
  end.
Proof.
  destruct record; cbn; [by split| |by split|apply notification_None|by split..].
  repeat case_decide; by split.
Qed.

(** ** Stops *)

(** A stop record in the shape GDB sends it. *)
Definition quoted (s : string) : MiValue := Const (bytes_of s).

Definition field (n : string) (o : option string) : list MiResult :=
  match o with Some v => [MkMiResult n (quoted v)] | None => [] end.

Definition frame_results (f : FrameSummary) : list MiResult :=
  field "level" (Some (dec (fr_level f))) ++ field "addr" (fr_address f) ++
  field "func" (fr_function f) ++ field "from" (fr_module f) ++
  field "fullname" (fr_source f) ++ field "line" (dec <$> fr_line f) ++ [].

Definition frame_field (frame : option FrameSummary) : list MiResult :=
  match frame with
  | Some f => [MkMiResult "frame" (Tuple (frame_results f))]
  | None => []
  end.

Definition stop_results (reason : string) (group thread : option string)
    (frame : option FrameSummary) : list MiResult :=
  field "reason" (Some reason) ++ frame_field frame ++
  field "thread-id" thread ++ field "thread-group" group ++ [].

Definition utf8_string (s : string) : Prop := utf8_valid (bytes_of s) = true.

Lemma quoted_str s : utf8_string s -> MiAst.as_str (quoted s) = Some s.
Proof.
  intros H. unfold MiAst.as_str, quoted. cbn. unfold from_utf8. rewrite H.
  by rewrite string_of_bytes_of.
Qed.

Lemma dec_utf8 n : utf8_string (dec n).
Proof.
  unfold utf8_string, utf8_valid. rewrite utf8_decode_ascii; [done|].
  eapply Forall_impl; [apply dec_digits|]. apply byte_implies. by vm_compute.
Qed.

(** Looking a field up in a list of optional fields. *)
Lemma find_str_field n o rest :
  (forall v, o = Some v -> utf8_string v) ->
  find_str (field n o ++ rest) n = match o with Some v => Some v | None => find_str rest n end.
Proof.
  intros Ho. destruct o as [v|]; [|done]. unfold find_str. cbn.
  rewrite decide_True by done. cbn. apply quoted_str. by apply Ho.
Qed.

Lemma find_field_ne n m o rest : n <> m -> find (field n o ++ rest) m = find rest m.
Proof. intros Hne. destruct o; [|done]. cbn. by rewrite decide_False. Qed.

Lemma find_str_field_ne n m o rest :
  n <> m -> find_str (field n o ++ rest) m = find_str rest m.
Proof. intros Hne. unfold find_str. by rewrite find_field_ne. Qed.

Lemma find_frame_field_ne m frame rest :
  m <> "frame" -> find (frame_field frame ++ rest) m = find rest m.
Proof. intros Hne. destruct frame; [|done]. cbn. by rewrite decide_False. Qed.

(** The fields of a frame that GDB prints in decimal fit their width. *)
Record printable_frame (f : FrameSummary) : Prop := {
  pf_level : (fr_level f <= U32_MAX)%N;
  pf_line : forall n, fr_line f = Some n -> (n <= U32_MAX)%N;
  pf_address : forall v, fr_address f = Some v -> utf8_string v;
  pf_function : forall v, fr_function f = Some v -> utf8_string v;
  pf_module : forall v, fr_module f = Some v -> utf8_string v;
  pf_source : forall v, fr_source f = Some v -> utf8_string v
}.

Lemma dec_field_utf8 (o : option N) v : dec <$> o = Some v -> utf8_string v.
Proof. destruct o; cbn; intros [= <-]. apply dec_utf8. Qed.

Ltac skip_fields :=
  repeat (rewrite find_str_field_ne by discriminate).

Lemma frame_round_trip f : printable_frame f -> frame_summary_fields (frame_results f) = f.
Proof.
  intros [Hl Hn Ha Hf Hm Hs]. unfold frame_summary_fields, text, frame_results.
  destruct f as [level address function module_ source line]; cbn [fr_level fr_address
    fr_function fr_module fr_source fr_line] in *.
  f_equal.
  - rewrite find_str_field by (intros ? [= <-]; apply dec_utf8).
    cbn. unfold number_u32, parse_u32. by rewrite parse_dec.
  - skip_fields. rewrite find_str_field by done. destruct address; [done|].
    by skip_fields.
  - skip_fields. rewrite find_str_field by done. destruct function; [done|].
    by skip_fields.
  - skip_fields. rewrite find_str_field by done. destruct module_; [done|].
    by skip_fields.
  - skip_fields. rewrite find_str_field by done. destruct source; [done|].
    by skip_fields.
  - skip_fields. rewrite find_str_field by (intros ? ?; by eapply dec_field_utf8).
    destruct line as [n|]; cbn; [|done]. unfold number_u32, parse_u32.
    apply parse_dec. by apply Hn.
Qed.

(** A stop is normalized without loss: for a stop record in GDB's shape
    the event carries the reported group, thread, reason and frame (level and
    line read back as numbers), and a reason that starts with "exited"
    becomes an exit proved by a stop record instead. *)
Theorem stops_are_normalized_faithfully token reason group thread frame :
  utf8_string reason -> (forall v, group = Some v -> utf8_string v) ->
  (forall v, thread = Some v -> utf8_string v) ->
  (forall f, frame = Some f -> printable_frame f) ->
  let results := stop_results reason group thread frame in
  normalize (ExecAsync token "stopped" results) =
    Some (if starts_with (bytes_of "exited") (bytes_of reason) then
            Event.InferiorExited group None true
          else Event.TargetStopped group thread reason
                 (Some (stop_reason_of results reason)) frame).
Proof.
  intros Hr Hg Ht Hf. cbn zeta. unfold normalize. cbn [decide].
  rewrite decide_False, decide_True by done.
  set (results := stop_results reason group thread frame).
  assert (find_str results "reason" = Some reason) as Er.
  { unfold results, stop_results. by rewrite find_str_field by (by intros ? [= <-]). }
  assert (find_str results "thread-group" = group) as Eg.
  { unfold results, stop_results. unfold find_str.
    rewrite find_field_ne, find_frame_field_ne, find_field_ne by done.
    change (find_str (field "thread-group" group ++ []) "thread-group" = group).
    rewrite find_str_field by done. by destruct group. }
  assert (find_str results "thread-id" = thread) as Et.
  { unfold results, stop_results. unfold find_str.
    rewrite find_field_ne, find_frame_field_ne by done.
    change (find_str (field "thread-id" thread ++ field "thread-group" group ++ [])
              "thread-id" = thread).
    rewrite find_str_field by done. destruct thread; [done|]. by skip_fields. }
  assert (find_str results "exit-code" = None) as Ee.
  { unfold results, stop_results. unfold find_str.
    by rewrite find_field_ne, find_frame_field_ne, !find_field_ne by done. }
  assert (frame_summary_fields <$> (find results "frame" ≫= value_results) = frame) as Ef.
  { unfold results, stop_results. rewrite find_field_ne by done.
    destruct frame as [f|]; cbn -[frame_results].
    - rewrite decide_True by done. cbn -[frame_results]. f_equal.
      by apply frame_round_trip, Hf.
    - by rewrite !find_field_ne. }
  unfold stopped. rewrite Er, Eg, Et, Ee, Ef. reflexivity.
Qed.

Lemma stops_are_normalized_faithfully_witness :
  let frame := MkFrameSummary 1 (Some "0x401136") (Some "main") None (Some "/src/a.c")
                 (Some 12%N) in
  let results := stop_results "breakpoint-hit" (Some "i1") (Some "1") (Some frame) in
  normalize (ExecAsync None "stopped" results) =
    Some (Event.TargetStopped (Some "i1") (Some "1") "breakpoint-hit"
            (Some (stop_reason_of results "breakpoint-hit")) (Some frame)).
Proof.
  apply (stops_are_normalized_faithfully None "breakpoint-hit" (Some "i1") (Some "1")).
  - reflexivity.
  - intros v [= <-]. reflexivity.
  - intros v [= <-]. reflexivity.
  - intros f [= <-]. split; [by vm_compute|..]; intros ? E; simplify_eq/=; by vm_compute.
Defined.

(** ** Lossless byte content *)

Section base64_laws.
Context (base64_encode : bytes -> string) (base64_decode : string -> option bytes).
Hypothesis base64_round_trip : forall b, base64_decode (base64_encode b) = Some b.

(** What a client reads back from the content object. *)
Definition content_bytes (content : list (string * Value)) : option bytes :=
  match Json.assoc "text" content ≫= Json.as_str with
  | Some t => Some (bytes_of t)
  | None => (Json.assoc "data_base64" content ≫= Json.as_str) ≫= base64_decode
  end.

(** The JSON content of target bytes is lossless whatever the bytes: the
    readable form is used exactly for valid UTF-8 without control characters
    other than newline, return and tab, and either form decodes to the bytes. *)
Theorem byte_content_is_lossless b :
  content_bytes (byte_content base64_encode b) = Some b /\
  (Json.assoc "encoding" (byte_content base64_encode b) = Some (Str "utf-8") <->
   exists chars, utf8_decode b = Some chars /\ forallb readable_char chars = true).
Proof using base64_round_trip.
  unfold byte_content. destruct (utf8_decode b) as [chars|] eqn:E.
  - destruct (forallb readable_char chars) eqn:Hr; split.
    + change (Some (bytes_of (string_of b)) = Some b). by rewrite bytes_of_string_of.
    + cbn. split; [by eexists|done].
    + unfold content_bytes. cbn. apply base64_round_trip.
    + cbn. split; [done|]. intros (c & [= <-] & H). congruence.
  - split; [unfold content_bytes; cbn; apply base64_round_trip|].
    cbn. split; [done|]. by intros (c & ? & _).
Qed.

End base64_laws.

(** Any injective text form of bytes satisfies the hypothesis; here two
    hexadecimal digits per byte stand for the engine. *)
Definition hex_text (b : bytes) : string := string_of (b ≫= fun c => hex_fixed 2 (byte_N c)).

Fixpoint hex_pairs (b : bytes) : option bytes :=
  match b with
  | [] => Some []
  | [_] => None
  | h :: l :: rest =>
      x ← digit_value 16 h; y ← digit_value 16 l; r ← hex_pairs rest;
      Some (ascii_of_N (16 * x + y) :: r)
  end.

Definition hex_untext (s : string) : option bytes := hex_pairs (bytes_of s).

Lemma hex_digits_byte c :
  (x ← digit_value 16 (hex_char ((byte_N c / 16) `mod` 16));
   y ← digit_value 16 (hex_char (byte_N c `mod` 16)); Some (ascii_of_N (16 * x + y))) = Some c.
Proof.
  pose proof (byte_check (fun c => bool_decide ((
    x ← digit_value 16 (hex_char ((byte_N c / 16) `mod` 16));
    y ← digit_value 16 (hex_char (byte_N c `mod` 16)); Some (ascii_of_N (16 * x + y))) = Some c))
    ltac:(by vm_compute) c) as H. by apply bool_decide_eq_true in H.
Qed.

Lemma hex_pairs_byte c rest :
  hex_pairs (hex_fixed 2 (byte_N c) ++ rest) = cons c <$> hex_pairs rest.
Proof.
  change (hex_fixed 2 (byte_N c) ++ rest) with
    (hex_char ((byte_N c / 16) `mod` 16) :: hex_char (byte_N c `mod` 16) :: rest).
  pose proof (hex_digits_byte c) as Hc. cbn [hex_pairs]. revert Hc.
  generalize (digit_value 16 (hex_char ((byte_N c / 16) `mod` 16)))
             (digit_value 16 (hex_char (byte_N c `mod` 16))).
  intros [x|] [y|] Hc; try discriminate. cbn -[N.mul] in Hc |- *. injection Hc as ->.
  by destruct (hex_pairs rest).
Qed.

Lemma hex_text_round_trip b : hex_untext (hex_text b) = Some b.
Proof.
  unfold hex_untext, hex_text. rewrite bytes_of_string_of.
  induction b as [|c b IH]; [done|]. rewrite bind_cons, hex_pairs_byte, IH. done.
Qed.

Lemma byte_content_is_lossless_witness :
  content_bytes hex_untext (byte_content hex_text ["000"%char; "A"%char]) =
    Some ["000"%char; "A"%char].
Proof.
  apply (byte_content_is_lossless hex_text hex_untext hex_text_round_trip).
Defined.
