(* ===== verification/Ring.v ===== *)
(** * Ring: the bounded output ring ([crates/gdb-ai-core/src/ring.rs])

    The specification of a ring is the whole stream appended to it; the ring
    keeps a suffix of it.  [VecDeque::as_slices] cuts the contents at a point
    that depends on the buffer's layout: [read] takes the cut as an argument
    and the theorems hold for every cut. *)

From S2P Require Import Prelude.

Record ByteRing := MkByteRing {
  capacity : nat;
  start_offset : N;
  end_offset : N;
  ring_bytes : bytes
}.

Record RingRead := MkRingRead {
  requested_offset : N;
  available_from : N;
  next_offset : N;
  gap : bool;
  read_bytes : bytes
}.

Definition ByteRing_new (cap : nat) : ByteRing := MkByteRing (Nat.max cap 1) 0 0 [].

Definition append (r : ByteRing) (input : bytes) : ByteRing * N :=
  let offset := end_offset r in
  let end' := u64_saturating_add (end_offset r) (lenN input) in
  if bool_decide (capacity r <= length input) then
    (MkByteRing (capacity r) (end' - N.of_nat (capacity r)) end'
       (drop (length input - capacity r) input), offset)
  else
    let evicted := length (ring_bytes r) + length input - capacity r in
    (MkByteRing (capacity r) (u64_saturating_add (start_offset r) (N.of_nat evicted)) end'
       (drop evicted (ring_bytes r) ++ input), offset).

(** [u64::clamp]. *)
Definition clamp (x lo hi : N) : N := N.max lo (N.min x hi).

Definition read (cut : nat) (r : ByteRing) (after_offset : N) (max_bytes : nat) : RingRead :=
  let actual_start := clamp after_offset (start_offset r) (end_offset r) in
  let skip := N.to_nat (actual_start - start_offset r) in
  let len := Nat.min max_bytes (length (ring_bytes r) - skip) in
  let first := take cut (ring_bytes r) in
  let second := drop cut (ring_bytes r) in
  let out :=
    if bool_decide (skip < length first) then
      let stop := Nat.min (skip + len) (length first) in
      let head := take (stop - skip) (drop skip first) in
      head ++ take (len - length head) second
    else
      let start := skip - length first in
      take len (drop start second) in
  MkRingRead after_offset (start_offset r) (actual_start + lenN out)
    (after_offset <? start_offset r)%N out.

Definition dropped_bytes (r : ByteRing) : N := start_offset r.

(** ** The ring keeps a suffix of the stream *)

(** [r] is the ring of capacity [cap] after the stream [s]. *)
Record holds (cap : nat) (s : bytes) (r : ByteRing) : Prop := {
  h_capacity : capacity r = Nat.max cap 1;
  h_bytes : ring_bytes r = drop (length s - Nat.max cap 1) s;
  h_start : start_offset r = N.of_nat (length s - Nat.max cap 1);
  h_end : end_offset r = lenN s
}.

Lemma holds_new cap : holds cap [] (ByteRing_new cap).
Proof. split; done. Qed.

Lemma drop_drop_app {A} (s t : list A) c :
  length t < c ->
  drop (length (drop (length s - c) s) + length t - c) (drop (length s - c) s) ++ t =
    drop (length (s ++ t) - c) (s ++ t).
Proof.
  intros Ht. rewrite drop_drop, length_drop, length_app.
  rewrite drop_app_le by lia. do 2 f_equal. lia.
Qed.

Lemma holds_append cap s r input :
  holds cap s r -> (lenN (s ++ input) <= U64_MAX)%N ->
  holds cap (s ++ input) (append r input).1 /\ (append r input).2 = lenN s.
Proof.
  intros [Hc Hb Hs He] Hlen. unfold append.
  assert (u64_saturating_add (end_offset r) (lenN input) = lenN (s ++ input)) as Ee.
  { unfold u64_saturating_add. rewrite He, lenN_app in *. lia. }
  rewrite Hc. case_bool_decide as Hbig; cbn [fst snd]; (split; [split; cbn [capacity
    ring_bytes start_offset end_offset]|exact He]).
  - reflexivity.
  - rewrite length_app, drop_app_ge by lia. f_equal. lia.
  - rewrite Ee. unfold lenN. rewrite length_app. lia.
  - exact Ee.
  - reflexivity.
  - rewrite Hb. apply drop_drop_app. lia.
  - rewrite Hs, Hb. unfold u64_saturating_add, lenN in *.
    rewrite length_drop, length_app in *. lia.
  - exact Ee.
Qed.

Fixpoint append_all (r : ByteRing) (inputs : list bytes) : ByteRing :=
  match inputs with
  | [] => r
  | i :: rest => append_all (append r i).1 rest
  end.

Lemma holds_append_all cap s r inputs :
  holds cap s r -> (lenN (s ++ mjoin inputs) <= U64_MAX)%N ->
  holds cap (s ++ mjoin inputs) (append_all r inputs).
Proof.
  revert s r. induction inputs as [|i rest IH]; intros s r H Hlen; cbn.
  - by rewrite app_nil_r.
  - cbn in Hlen. rewrite app_assoc in *.
    apply IH; [|done]. apply holds_append; [done|].
    rewrite !lenN_app in *. lia.
Qed.

(** Whatever the cut, a read is a slice of the contents. *)
Lemma read_cut cut r after max_bytes :
  read_bytes (read cut r after max_bytes) =
    take max_bytes
      (drop (N.to_nat (clamp after (start_offset r) (end_offset r) - start_offset r))
         (ring_bytes r)).
Proof.
  unfold read. cbn [read_bytes]. set (skip := N.to_nat _). set (b := ring_bytes r).
  set (len := Nat.min max_bytes (length b - skip)).
  assert (take max_bytes (drop skip b) = take len (drop skip b)) as ->.
  { unfold len. destruct (decide (max_bytes <= length b - skip)).
    - f_equal. lia.
    - rewrite !take_ge; [done|rewrite length_drop; lia..]. }
  rewrite length_take. case_bool_decide as Hs.
  - assert (drop skip b = drop skip (take cut b) ++ drop cut b) as ->.
    { rewrite <-(take_drop cut b) at 1. apply drop_app_le. rewrite length_take. lia. }
    rewrite take_app. f_equal.
    + destruct (decide (len <= Nat.min cut (length b) - skip)).
      * f_equal. lia.
      * by rewrite !(take_ge (drop skip (take cut b))) by (rewrite length_drop, length_take; lia).
    + f_equal. rewrite length_take, length_drop, length_take. lia.
  - rewrite drop_drop. f_equal. destruct (decide (cut <= length b)).
    + f_equal. lia.
    + by rewrite !drop_ge by lia.
Qed.

(** ** Properties *)

(** C35: the ring refines its stream: after any sequence of appends of at most
    [2^64 - 1] bytes it holds exactly the last [capacity] bytes, its offsets
    count the bytes of the stream, and a read from any cursor returns the
    bytes of the stream from that cursor on (from the oldest kept byte when
    the cursor is older, from the end when it is newer), at most [max_bytes]
    of them, with the cursor to continue at and a gap reported exactly when
    bytes after the cursor were dropped. *)
Theorem ring_refines_its_stream cap inputs cut after max_bytes :
  let s := mjoin inputs in
  let r := append_all (ByteRing_new cap) inputs in
  let oldest := length s - Nat.max cap 1 in
  let from := Nat.max oldest (N.to_nat (N.min after (lenN s))) in
  let out := read cut r after max_bytes in
  (lenN s <= U64_MAX)%N ->
  ring_bytes r = drop oldest s /\ end_offset r = lenN s /\
  dropped_bytes r = N.of_nat oldest /\
  read_bytes out = take max_bytes (drop from s) /\
  next_offset out = (N.of_nat from + lenN (read_bytes out))%N /\
  (gap out = true <-> (after < N.of_nat oldest)%N).
Proof.
  cbn zeta. intros Hlen. set (s := mjoin inputs) in *.
  destruct (holds_append_all cap [] _ inputs (holds_new cap)) as [Hc Hb Hs He]; [done|].
  fold s in Hb, Hs, He. cbn [app] in Hb, Hs, He. set (r := append_all _ _) in *.
  assert (clamp after (start_offset r) (end_offset r) =
    N.of_nat (Nat.max (length s - Nat.max cap 1) (N.to_nat (N.min after (lenN s))))) as Ecl.
  { unfold clamp. rewrite Hs, He. unfold lenN. lia. }
  split_and!; [done|done|done|..].
  - rewrite read_cut, Ecl, Hb, Hs, drop_drop. do 2 f_equal. lia.
  - trans (clamp after (start_offset r) (end_offset r) +
           lenN (read_bytes (read cut r after max_bytes)))%N; [done|by rewrite Ecl].
  - unfold read. cbn [gap]. rewrite Hs. apply N.ltb_lt.
Qed.

Lemma ring_refines_its_stream_witness :
  let r := append_all (ByteRing_new 4) [["a"; "b"; "c"]; ["d"; "e"; "f"]]%char in
  read_bytes (read 1 r 1 8) = ["c"; "d"; "e"; "f"]%char /\
  next_offset (read 1 r 1 8) = 6%N /\ gap (read 1 r 1 8) = true.
Proof.
  destruct (ring_refines_its_stream 4 [["a"; "b"; "c"]; ["d"; "e"; "f"]]%char 1 1 8)
    as (_ & _ & _ & E & En & Eg); [by vm_compute|].
  split; [exact E|]. split; [rewrite En, E; reflexivity|]. by apply Eg.
Defined.
