(* ===== verification/LiveState.v ===== *)
(** * LiveState: publication of the session state
    ([crates/gdb-ai-core/src/session/state.rs])

    The watch channel is the value it holds and the number of times its
    readers were woken.  Performance mode applies events to the watched value;
    durable mode stages them and publishes at a checkpoint.  The actor's
    callback is a function on the actor's own data. *)

From S2P Require Import Prelude Text Json Errors Domain Reducer.

Record LiveState := MkLiveState {
  published : SessionState;
  wakeups : nat;
  staged : option SessionState
}.

Definition LiveState_new (s : SessionState) (durable : bool) : LiveState :=
  MkLiveState s 0 (if durable then Some s else None).

Definition borrow (l : LiveState) : SessionState :=
  match staged l with Some s => s | None => published l end.

Section callback.
Context {A : Type} (after : A -> SessionState -> A).

Definition apply_event_with (sequence : N) (event : Event.DomainEvent) (a : A)
    (l : LiveState) : LiveState * A * Result Error bool :=
  match staged l with
  | Some s =>
      match apply_event sequence event s with
      | Ok (s', changed) =>
          (MkLiveState (published l) (wakeups l) (Some s'), after a s', Ok changed)
      | Err e => (l, a, Err e)
      end
  | None =>
      match apply_event sequence event (published l) with
      | Ok (s', changed) =>
          (MkLiveState s' (S (wakeups l)) None, after a s', Ok changed)
      | Err e => (l, a, Err e)
      end
  end.

End callback.

Definition live_apply_event (sequence : N) (event : Event.DomainEvent) (l : LiveState)
    : LiveState * Result Error bool :=
  let '(l', _, r) := apply_event_with (fun (u : unit) _ => u) sequence event tt l in (l', r).

Definition publish (l : LiveState) : LiveState :=
  match staged l with
  | Some s => MkLiveState s (S (wakeups l)) (Some s)
  | None => l
  end.

Definition live_fail_closed (l : LiveState) : LiveState * bool :=
  match staged l with
  | Some s =>
      let '(s', changed) := fail_closed s in
      (if changed then MkLiveState s' (S (wakeups l)) (Some s')
       else MkLiveState (published l) (wakeups l) (Some s'), changed)
  | None =>
      let '(s', changed) := fail_closed (published l) in
      (MkLiveState s' (if changed then S (wakeups l) else wakeups l) None, changed)
  end.

(** ** What the actor does with it *)

Inductive live_op :=
| Apply (sequence : N) (event : Event.DomainEvent)
| Publish
| FailClosed.

Definition live_step (l : LiveState) (op : live_op) : LiveState :=
  match op with
  | Apply sequence event => (live_apply_event sequence event l).1
  | Publish => publish l
  | FailClosed => (live_fail_closed l).1
  end.

Definition live_run : list live_op -> LiveState -> LiveState := fun ops l => foldl live_step l ops.

(** The reducer alone, and the state it had at the last publication. *)
Definition reduce_op (s : SessionState) (op : live_op) : SessionState :=
  match op with
  | Apply sequence event =>
      match apply_event sequence event s with Ok (s', _) => s' | Err _ => s end
  | Publish => s
  | FailClosed => (fail_closed s).1
  end.

Definition checkpoint_op (p : SessionState * SessionState) (op : live_op)
    : SessionState * SessionState :=
  let s' := reduce_op p.1 op in
  match op with
  | Apply _ _ => (s', p.2)
  | Publish => (s', s')
  | FailClosed => (s', if (fail_closed p.1).2 then s' else p.2)
  end.

Lemma durable_run ops s c w :
  exists w', live_run ops (MkLiveState c w (Some s)) =
    MkLiveState (foldl checkpoint_op (s, c) ops).2 w' (Some (foldl reduce_op s ops)) /\
    (foldl checkpoint_op (s, c) ops).1 = foldl reduce_op s ops.
Proof.
  revert s c w. induction ops as [|op ops IH]; intros s c w; [by exists w|].
  change (live_run (op :: ops) (MkLiveState c w (Some s))) with
    (live_run ops (live_step (MkLiveState c w (Some s)) op)). cbn [foldl].
  destruct op as [sequence event| |]; cbn -[apply_event fail_closed].
  - unfold live_apply_event, apply_event_with. cbn -[apply_event].
    destruct (apply_event sequence event s) as [[s' changed]|e]; apply IH.
  - apply IH.
  - unfold live_fail_closed. cbn -[fail_closed].
    destruct (fail_closed s) as [s' []]; cbn; apply IH.
Qed.

Lemma performance_run ops s w :
  exists w', live_run ops (MkLiveState s w None) = MkLiveState (foldl reduce_op s ops) w' None.
Proof.
  revert s w. induction ops as [|op ops IH]; intros s w; [by exists w|].
  change (live_run (op :: ops) (MkLiveState s w None)) with
    (live_run ops (live_step (MkLiveState s w None) op)). cbn [foldl].
  destruct op as [sequence event| |]; cbn -[apply_event fail_closed].
  - unfold live_apply_event, apply_event_with. cbn -[apply_event].
    destruct (apply_event sequence event s) as [[s' changed]|e]; apply IH.
  - apply IH.
  - unfold live_fail_closed. cbn -[fail_closed].
    destruct (fail_closed s) as [s' []]; cbn; apply IH.
Qed.

(** C33: publication does not change the session: in both modes the actor's
    state after any sequence of events, publications and fail-closed
    transitions is the state of the reducer alone.  In performance mode
    readers see that state; in durable mode they see the state at the last
    checkpoint, never a transition after it. *)
Theorem live_state_refines_the_reducer s durable ops :
  let l := live_run ops (LiveState_new s durable) in
  borrow l = foldl reduce_op s ops /\
  published l = if durable then (foldl checkpoint_op (s, s) ops).2
                else foldl reduce_op s ops.
Proof.
  cbn zeta. destruct durable; unfold LiveState_new.
  - destruct (durable_run ops s s 0) as (w & -> & _). by split.
  - destruct (performance_run ops s 0) as (w & ->). by split.
Qed.
