(* ===== verification/Journal.v ===== *)
(** * Journal: the evidence journal of a session
    ([crates/gdb-ai-core/src/journal.rs])

    The JSON encoder is a parameter.  Every call to the operating system has
    its answer in an [io] argument (a failure carries the system's message);
    the records handed to the writer successfully are kept in [recorded], in
    order.  The reused scratch buffers of the source hold no state. *)

From S2P Require Import Prelude Text Json Errors Domain.

Definition require_next_sequence (last_seq next : N) : Result Error unit :=
  if (next =? u64_wrapping_add last_seq 1)%N then Ok tt
  else Err (Error_new Code.InvalidArgument
              "journal sequence must be contiguous and start at 1").

Record JournalEntry := MkJournalEntry {
  entry_seq : N;
  entry_kind : string;
  entry_data : Value
}.

Record JournalGap := MkJournalGap {
  gap_from_seq : N;
  gap_reason : string
}.

Inductive JournalDurability := Performance | Durable.

#[export] Instance JournalDurability_eq_dec : EqDecision JournalDurability.
Proof. solve_decision. Defined.

(** The answers of the operating system during one operation: an error
    message, or [None] for success. *)
Record io := MkIo {
  io_write : option string;
  io_write_gap : option string;
  io_flush : option string;
  io_sync : option string
}.

Definition io_ok : io := MkIo None None None None.

Record Journal := MkJournal {
  recording : bool;
  recorded : list JournalEntry;
  next_seq : N;
  written_seq : N;
  flushed_seq : N;
  bytes_written : N;
  max_bytes : N;
  unflushed_records : N;
  durability : JournalDurability;
  journal_gap : option JournalGap
}.

Definition create_with_durability (max : N) (d : JournalDurability) : Journal := {|
  recording := true; recorded := []; next_seq := 1; written_seq := 0; flushed_seq := 0;
  bytes_written := 0; max_bytes := max; unflushed_records := 0; durability := d;
  journal_gap := None
|}.

Definition is_durable (j : Journal) : bool := bool_decide (durability j = Durable).

(** [stop_recording]: a durable journal reports the error instead. *)
Definition stop_recording (e : Error) (from_seq : N) (j : Journal)
    : Journal * Result Error unit :=
  if is_durable j then (j, Err e)
  else ({| recording := false; recorded := recorded j; next_seq := next_seq j;
           written_seq := written_seq j; flushed_seq := flushed_seq j;
           bytes_written := bytes_written j; max_bytes := max_bytes j;
           unflushed_records := unflushed_records j; durability := durability j;
           journal_gap := Some (MkJournalGap from_seq (error_display e)) |}, Ok tt).

Definition flush (o : io) (j : Journal) : Journal * Result Error unit :=
  if (unflushed_records j =? 0)%N || negb (recording j) then (j, Ok tt)
  else match io_flush o with
  | Some m => stop_recording (error_of_io m) (u64_wrapping_add (flushed_seq j) 1) j
  | None =>
      match (if is_durable j then io_sync o else None) with
      | Some m => (j, Err (error_of_io m))
      | None =>
          ({| recording := recording j; recorded := recorded j; next_seq := next_seq j;
              written_seq := written_seq j; flushed_seq := written_seq j;
              bytes_written := bytes_written j; max_bytes := max_bytes j;
              unflushed_records := 0; durability := durability j;
              journal_gap := journal_gap j |}, Ok tt)
      end
  end.

Definition advance_seq (j : Journal) : Journal := {|
  recording := recording j; recorded := recorded j;
  next_seq := u64_wrapping_add (next_seq j) 1;
  written_seq := written_seq j; flushed_seq := flushed_seq j;
  bytes_written := bytes_written j; max_bytes := max_bytes j;
  unflushed_records := unflushed_records j; durability := durability j;
  journal_gap := journal_gap j
|}.

(** A record the writer accepted; [count_entry] then adds it to the totals. *)
Definition record_entry (e : JournalEntry) (j : Journal) : Journal := {|
  recording := recording j; recorded := recorded j ++ [e]; next_seq := next_seq j;
  written_seq := written_seq j; flushed_seq := flushed_seq j;
  bytes_written := bytes_written j; max_bytes := max_bytes j;
  unflushed_records := unflushed_records j; durability := durability j;
  journal_gap := journal_gap j
|}.

Definition count_entry (seq len : N) (j : Journal) : Journal := {|
  recording := recording j; recorded := recorded j; next_seq := next_seq j;
  written_seq := seq; flushed_seq := flushed_seq j;
  bytes_written := bytes_written j + len; max_bytes := max_bytes j;
  unflushed_records := unflushed_records j + 1; durability := durability j;
  journal_gap := journal_gap j
|}.

Definition gap_value (g : JournalGap) : Value :=
  Object [("from_seq", uint (gap_from_seq g)); ("reason", Str (gap_reason g))].

Section encoder.
(** [serde_json::to_writer] of an entry, without the newline. *)
Context (encode : JournalEntry -> bytes).

(** The bytes an entry occupies in the file. *)
Definition entry_size (e : JournalEntry) : N := lenN (encode e) + 1.

(** The byte limit is reached: a performance journal flushes, writes a gap
    marker if it fits and stops recording; a durable one reports the error. *)
Definition limit_reached (o : io) (seq : N) (j : Journal) : Journal * Result Error N :=
  let error := Error_new Code.OutputLimit "session journal byte limit reached" in
  if is_durable j then (j, Err error)
  else
    let '(j, r) := flush o j in
    match r with
    | Err e => (j, Err e)
    | Ok _ =>
        match journal_gap j with
        | Some _ => (j, Ok seq)
        | None =>
            let g := MkJournalGap seq (error_display error) in
            let marker := MkJournalEntry seq "journal.gap" (gap_value g) in
            let fits := (u64_saturating_add (bytes_written j) (entry_size marker)
                           <=? max_bytes j)%N in
            let j := if fits && recording j && bool_decide (io_write_gap o = None)
                     then record_entry marker j else j in
            let '(j, r) := stop_recording error seq j in
            match r with Ok _ => (j, Ok seq) | Err e => (j, Err e) end
        end
    end.

Definition append (o : io) (kind : string) (data : Value) (j : Journal)
    : Journal * Result Error N :=
  let seq := next_seq j in
  let j := advance_seq j in
  if negb (recording j) then (j, Ok seq)
  else
    let e := MkJournalEntry seq kind data in
    let reserved := (if is_durable j then 0 else 256)%N in
    if (max_bytes j - reserved <? u64_saturating_add (bytes_written j) (entry_size e))%N
    then limit_reached o seq j
    else match io_write o with
    | Some m =>
        let '(j, r) := stop_recording (error_of_io m)
                         (u64_wrapping_add (flushed_seq j) 1) j in
        match r with Ok _ => (j, Ok seq) | Err e => (j, Err e) end
    | None =>
        let j := count_entry seq (entry_size e) (record_entry e j) in
        if (64 <=? unflushed_records j)%N then
          let '(j, r) := flush o j in
          match r with Ok _ => (j, Ok seq) | Err e => (j, Err e) end
        else (j, Ok seq)
    end.

(** A durable record is on disk before its operation answers. *)
Definition flush_boundary (o : io) (seq : N) (j : Journal) : Journal * Result Error N :=
  if is_durable j then
    let '(j, r) := flush o j in
    match r with Ok _ => (j, Ok seq) | Err e => (j, Err e) end
  else (j, Ok seq).

Definition append_flushed (o : io) (kind : string) (data : Value) (j : Journal)
    : Journal * Result Error N :=
  let '(j, r) := append o kind data j in
  match r with Ok seq => flush_boundary o seq j | Err e => (j, Err e) end.

Definition append_session_created (o : io) (session version : Value) (j : Journal)
    : Journal * Result Error N :=
  append o "session.created"
    (Object [("session_id", session); ("normalization_version", version)]) j.

Definition append_api (o : io) (request : Value) (j : Journal) : Journal * Result Error N :=
  append_flushed o "api.request" request j.

Definition append_base64 (o : io) (kind : string) (encoded : string) (j : Journal)
    : Journal * Result Error N :=
  append o kind (Object [("raw_base64", Str encoded)]) j.

Definition append_mi_input (o : io) (token : N) (encoded : string) (j : Journal)
    : Journal * Result Error N :=
  append o "mi.input" (Object [("raw_base64", Str encoded); ("token", uint token)]) j.

Definition append_mi_output (o : io) (encoded : string) (j : Journal)
    : Journal * Result Error N := append_base64 o "mi.output" encoded j.

Definition append_inferior_output (o : io) (offset length dropped : N) (j : Journal)
    : Journal * Result Error N :=
  append o "inferior.output"
    (Object [("offset", uint offset); ("length", uint length);
             ("dropped_bytes", uint dropped)]) j.

Definition append_domain_ref (o : io) (event : Value) (j : Journal)
    : Journal * Result Error N := append o "normalized.event" event j.

Definition append_state (o : io) (revision : N) (state : Value) (j : Journal)
    : Journal * Result Error N :=
  append_flushed o "state.revision" (Object [("revision", uint revision); ("state", state)]) j.

Definition append_snapshot (o : io) (snapshot_id : string) (snapshot : Value) (j : Journal)
    : Journal * Result Error N :=
  append_flushed o "snapshot.result"
    (Object [("snapshot_id", Str snapshot_id); ("snapshot", snapshot)]) j.

Definition finish (o : io) (j : Journal) : Journal * Result Error unit :=
  let '(j, r) := append o "journal.closed" (Object []) j in
  match r with Ok _ => flush o j | Err e => (j, Err e) end.

End encoder.

(** ** The journal on disk *)

Section journal_invariant.
#[local] Set Default Proof Using "Type".
Context (encode : JournalEntry -> bytes).

Abbreviation size := (entry_size encode).

Fixpoint total_size (es : list JournalEntry) : N :=
  match es with [] => 0 | e :: r => size e + total_size r end.

Lemma total_size_snoc es e : total_size (es ++ [e]) = (total_size es + size e)%N.
Proof. induction es as [|x es IH]; cbn; [lia|]. rewrite IH. lia. Qed.

(** The sequence numbers [1 .. n]. *)
Fixpoint numbered (from : N) (es : list JournalEntry) : Prop :=
  match es with
  | [] => True
  | e :: r => entry_seq e = from /\ numbered (from + 1) r
  end.

Lemma numbered_snoc from es e :
  numbered from (es ++ [e]) <-> numbered from es /\ entry_seq e = (from + lenN es)%N.
Proof.
  revert from. induction es as [|x es IH]; intros from; cbn.
  - rewrite lenN_nil. split; [intros [-> _]; split; [done|lia]|].
    intros [_ ->]. split; [lia|done].
  - rewrite IH, lenN_cons. split; [intros (? & ? & ->)|intros ((? & ?) & ->)];
      split_and!; try done; lia.
Qed.

(** While a journal records, its counters describe the records; once it has
    stopped, its gap starts at or before the first record it lacks. *)
Record journal_ok (j : Journal) : Prop := {
  jo_numbered : numbered 1 (recorded j);
  jo_bound : (total_size (recorded j) <= max_bytes j)%N;
  jo_max : (max_bytes j < U64_MAX)%N;
  jo_live : recording j = true ->
    journal_gap j = None /\ written_seq j = lenN (recorded j) /\
    (flushed_seq j <= written_seq j)%N /\
    bytes_written j = total_size (recorded j) /\
    (unflushed_records j = 0%N -> flushed_seq j = written_seq j);
  jo_stopped : recording j = false ->
    is_durable j = false /\
    exists g, journal_gap j = Some g /\
              (1 <= gap_from_seq g <= lenN (recorded j) + 1)%N
}.

Lemma wrapping_next n : (n < U64_MAX)%N -> u64_wrapping_add n 1 = (n + 1)%N.
Proof.
  intros H. unfold u64_wrapping_add. apply N.mod_small.
  unfold U64_MODULUS, U64_MAX in *. lia.
Qed.

(** What an operation that allocates no sequence number may change. *)
Record journal_kept (j j' : Journal) : Prop := {
  jk_next : next_seq j' = next_seq j;
  jk_durability : durability j' = durability j;
  jk_max : max_bytes j' = max_bytes j
}.

Lemma stop_recording_ok e from j j' :
  journal_ok j -> (1 <= from <= lenN (recorded j) + 1)%N ->
  stop_recording e from j = (j', Ok tt) ->
  journal_ok j' /\ recording j' = false /\ recorded j' = recorded j /\ journal_kept j j'.
Proof.
  intros [Hn Hb Hm _ _] Hf. unfold stop_recording.
  destruct (is_durable j) eqn:Hd; intros [= <-]. split; [|done].
  split; cbn; try done. intros _. split; [exact Hd|]. by eexists.
Qed.

Lemma flush_ok o j j' :
  journal_ok j -> (recording j = true -> lenN (recorded j) < U64_MAX)%N -> flush o j = (j', Ok tt) ->
  journal_ok j' /\ recorded j' = recorded j /\ journal_kept j j' /\
  (is_durable j = true -> recording j = true ->
   recording j' = true /\ (unflushed_records j <> 0%N -> flushed_seq j' = written_seq j)).
Proof.
  intros Hj Hmax. unfold flush.
  destruct (_ || _) eqn:E.
  { intros [= <-]. split_and!; [done..|]. intros _ Hr. split; [done|]. intros Hu.
    rewrite Hr, orb_false_r in E. by apply N.eqb_eq in E. }
  apply orb_false_iff in E as [_ Hr%negb_false_iff].
  specialize (Hmax Hr). destruct (jo_live _ Hj Hr) as (Hg & Hw & Hfl & Hby & Hu0).
  destruct (io_flush o).
  - intros Hs. rewrite wrapping_next in Hs by lia.
    assert (1 <= flushed_seq j + 1 <= lenN (recorded j) + 1)%N as Hf by lia.
    destruct (stop_recording_ok _ _ _ _ Hj Hf Hs) as (Hj' & Hr' & Er & Hk).
    split; [done|]. split; [done|]. split; [done|]. intros Hd. exfalso.
    destruct (jo_stopped _ Hj' Hr') as [Hd' _]. destruct Hk as [_ Hd2 _].
    assert (is_durable j' = is_durable j) by (unfold is_durable; by rewrite Hd2).
    congruence.
  - destruct (if is_durable j then _ else _); intros [= <-].
    destruct Hj as [Hn Hb Hm _ _]. split_and!; try done.
    split; cbn; try done. congruence.
Qed.

(** A record that fits keeps the invariant. *)
Lemma record_entry_ok e j :
  journal_ok j -> recording j = true -> entry_seq e = (lenN (recorded j) + 1)%N ->
  (bytes_written j + size e <= max_bytes j)%N ->
  journal_ok (count_entry (entry_seq e) (size e) (record_entry e j)).
Proof.
  intros [Hn Hb Hm Hl Hs] Hr He Hfit. destruct (Hl Hr) as (Hg & Hw & Hfl & Hby & Hu0).
  split; cbn -[entry_size]; try done.
  - apply numbered_snoc. split; [done|]. rewrite He. lia.
  - rewrite total_size_snoc. lia.
  - intros _. rewrite total_size_snoc, lenN_app. split_and!; [done|..]; cbn -[entry_size].
    + rewrite He. unfold lenN. cbn. lia.
    + lia.
    + lia.
    + lia.
  - congruence.
Qed.

(** A gap marker that fits is the last record of a journal about to stop. *)
Lemma stop_with_marker_ok e error j j' :
  numbered 1 (recorded j) -> (total_size (recorded j) + size e <= max_bytes j)%N ->
  (max_bytes j < U64_MAX)%N -> is_durable j = false ->
  entry_seq e = (lenN (recorded j) + 1)%N ->
  stop_recording error (entry_seq e) (record_entry e j) = (j', Ok tt) ->
  journal_ok j' /\ recording j' = false /\ journal_kept j j'.
Proof.
  intros Hn Hb Hm Hd He. unfold stop_recording.
  change (is_durable (record_entry e j)) with (is_durable j). rewrite Hd.
  intros [= <-]. split; [|by split]. split; cbn -[entry_size]; try done.
  - apply numbered_snoc. split; [done|]. rewrite He. lia.
  - rewrite total_size_snoc. lia.
  - intros _. split; [exact Hd|]. eexists. split; [done|]. cbn.
    rewrite lenN_app. unfold lenN at 2. cbn. rewrite He. lia.
Qed.

Lemma limit_reached_ok o seq j j' r :
  journal_ok j -> recording j = true ->
  seq = (lenN (recorded j) + 1)%N -> (seq < U64_MAX)%N ->
  limit_reached encode o seq j = (j', Ok r) ->
  r = seq /\ journal_ok j' /\ journal_kept j j' /\ recording j' = false /\
  is_durable j = false.
Proof.
  intros Hj Hr Hseq Hmax. unfold limit_reached.
  destruct (is_durable j) eqn:Hd; [done|].
  destruct (flush o j) as [j1 [[]|e]] eqn:Hf; [|done].
  destruct (flush_ok o j j1 Hj ltac:(intros _; lia) Hf) as (Hj1 & Er1 & Hk1 & _).
  assert (is_durable j1 = false) as Hd1.
  { unfold is_durable in *. by rewrite (jk_durability _ _ Hk1). }
  destruct (journal_gap j1) as [g|] eqn:Hg1.
  { intros [= <- <-]. split_and!; try done.
    destruct (recording j1) eqn:Hr1; [|done].
    destruct (jo_live _ Hj1 Hr1) as [? _]. congruence. }
  assert (recording j1 = true) as Hr1.
  { destruct (recording j1) eqn:Hr1; [done|].
    destruct (jo_stopped _ Hj1 Hr1) as (_ & g & ? & _). congruence. }
  destruct (jo_live _ Hj1 Hr1) as (_ & _ & _ & Hby & _).
  set (e := MkJournalEntry seq "journal.gap" _).
  set (error := Error_new _ _).
  assert (entry_seq e = (lenN (recorded j1) + 1)%N) as Hes by (cbn; by rewrite Er1).
  assert (forall j2 j3, (j2 = j1 \/ j2 = record_entry e j1 /\
            (total_size (recorded j1) + size e <= max_bytes j1)%N) ->
    stop_recording error seq j2 = (j3, Ok tt) ->
    journal_ok j3 /\ journal_kept j1 j3 /\ recording j3 = false) as Hstop.
  { intros j2 j3 [->|[-> Hfit]] Hst.
    - destruct (stop_recording_ok error seq j1 j3 Hj1) as (? & ? & ? & ?); [|done|by split].
      rewrite Er1. lia.
    - destruct (stop_with_marker_ok e error j1 j3) as (? & ? & ?); try done;
        [apply Hj1|apply Hj1]. }
  destruct (u64_saturating_add (bytes_written j1) (size e) <=? max_bytes j1)%N eqn:Hfit; cbn [andb];
  match goal with |- context [ stop_recording error seq ?j2 ] =>
    destruct (stop_recording error seq j2) as [j3 [[]|]] eqn:Hst; [|done];
    destruct (Hstop j2 j3) as (? & [] & ?); [|exact Hst|] end.
  - apply N.leb_le in Hfit. case_match; [right|by left]. split; [done|].
    pose proof (jo_max _ Hj1). rewrite <-Hby. unfold u64_saturating_add in Hfit. lia.
  - intros [= <- <-]. destruct Hk1. split_and!; try done. split; congruence.
  - by left.
  - intros [= <- <-]. destruct Hk1. split_and!; try done. split; congruence.
Qed.

(** While recording, the next sequence number is the one of the next record. *)
Definition aligned (j : Journal) : Prop :=
  recording j = true -> next_seq j = (lenN (recorded j) + 1)%N.

Lemma advance_ok j : journal_ok j -> journal_ok (advance_seq j).
Proof. intros [Hn Hb Hm Hl Hs]. by split. Qed.

Lemma append_ok o kind data j j' r :
  journal_ok j -> aligned j -> (next_seq j < U64_MAX)%N ->
  append encode o kind data j = (j', Ok r) ->
  r = next_seq j /\ next_seq j' = (next_seq j + 1)%N /\ journal_ok j' /\ aligned j' /\
  durability j' = durability j /\ max_bytes j' = max_bytes j /\
  (is_durable j = true ->
   recorded j' = recorded j ++ [MkJournalEntry r kind data] /\ recording j' = true).
Proof.
  intros Hj Ha Hmax. unfold append.
  assert (next_seq (advance_seq j) = (next_seq j + 1)%N) as Hnx
    by (cbn; by apply wrapping_next).
  pose proof (advance_ok j Hj) as Hj1.
  destruct (recording j) eqn:Hr; cbn [recording advance_seq]; rewrite ?Hr; cbn [negb].
  2: { intros [= <- <-]. split_and!; try done.
       - intros H. cbn in H. congruence.
       - intros Hd. destruct (jo_stopped _ Hj Hr) as [? _]. congruence. }
  specialize (Ha Hr). set (j1 := advance_seq j) in *.
  destruct (jo_live _ Hj1 Hr) as (Hg & Hw & Hfl & Hby & Hu0).
  set (e := MkJournalEntry (next_seq j) kind data).
  destruct (_ <? _)%N eqn:Hlim.
  { intros H. destruct (limit_reached_ok o (next_seq j) j1 j' r Hj1 Hr Ha Hmax H)
      as (-> & Hj' & [Kn Kd Km] & Hr' & Hd). split_and!; try done.
    - congruence.
    - intros H'. congruence.
    - intros Hd'. change (is_durable j) with (is_durable j1) in Hd'. congruence. }
  apply N.ltb_ge in Hlim.
  assert (bytes_written j1 + size e <= max_bytes j1)%N as Hfit.
  { pose proof (jo_max _ Hj1). unfold u64_saturating_add in Hlim. lia. }
  destruct (io_write o) as [m|].
  { destruct (stop_recording _ _ j1) as [j2 [[]|]] eqn:Hst; [|done].
    rewrite wrapping_next in Hst by (cbn in Hw, Hfl |- *; lia).
    assert (1 <= flushed_seq j1 + 1 <= lenN (recorded j1) + 1)%N as Hf by lia.
    destruct (stop_recording_ok _ _ _ _ Hj1 Hf Hst) as (Hj2 & Hr2 & Er & [Kn Kd Km]).
    intros [= <- <-]. split_and!; try done.
    - congruence.
    - intros H'. congruence.
    - intros Hd. destruct (jo_stopped _ Hj2 Hr2) as [Hd' _].
      assert (is_durable j2 = is_durable j) by (unfold is_durable; by rewrite Kd).
      congruence. }
  pose proof (record_entry_ok e j1 Hj1 Hr Ha Hfit) as Hj2.
  set (j2 := count_entry _ _ _) in *.
  assert (lenN (recorded j2) = (next_seq j)%N) as Hlen.
  { unfold j2. cbn. rewrite lenN_app. unfold lenN at 2. cbn. lia. }
  destruct (_ <=? _)%N.
  - destruct (flush o j2) as [j3 [[]|]] eqn:Hf; [|done]. intros [= <- <-].
    destruct (flush_ok o j2 j3 Hj2 ltac:(intros _; lia) Hf) as (Hj3 & Er & [Kn Kd Km] & Hdur).
    split_and!; try done.
    + rewrite Kn. exact Hnx.
    + intros _. rewrite Er, Hlen, Kn. exact Hnx.
    + intros Hd. rewrite Er. split; [done|]. by apply Hdur.
  - intros [= <- <-]. split_and!; try done.
    intros _. rewrite Hlen. exact Hnx.
Qed.

(** ** Runs of journal operations *)

Inductive journal_op :=
| Append (o : io) (kind : string) (data : Value)
| AppendFlushed (o : io) (kind : string) (data : Value)
| Flush (o : io).

(** The sequence numbers allocated, when no operation reports an error. *)
Fixpoint journal_run (ops : list journal_op) (j : Journal) : Result Error (list N * Journal) :=
  match ops with
  | [] => Ok ([], j)
  | Append o kind data :: rest =>
      let '(j, r) := append encode o kind data j in
      seq ← r; p ← journal_run rest j; Ok (seq :: p.1, p.2)
  | AppendFlushed o kind data :: rest =>
      let '(j, r) := append_flushed encode o kind data j in
      seq ← r; p ← journal_run rest j; Ok (seq :: p.1, p.2)
  | Flush o :: rest =>
      let '(j, r) := flush o j in
      _ ← r; journal_run rest j
  end.

Lemma append_flushed_ok o kind data j j' r :
  journal_ok j -> aligned j -> (next_seq j < U64_MAX)%N ->
  append_flushed encode o kind data j = (j', Ok r) ->
  r = next_seq j /\ next_seq j' = (next_seq j + 1)%N /\ journal_ok j' /\ aligned j' /\
  durability j' = durability j /\ max_bytes j' = max_bytes j /\
  (is_durable j = true ->
   recorded j' = recorded j ++ [MkJournalEntry r kind data] /\ recording j' = true).
Proof.
  intros Hj Ha Hmax. unfold append_flushed.
  destruct (append encode o kind data j) as [j1 [seq|]] eqn:E; [|done].
  destruct (append_ok _ _ _ _ _ _ Hj Ha Hmax E) as (-> & Hn & Hj1 & Ha1 & Hd1 & Hm1 & Hrec).
  unfold flush_boundary. destruct (is_durable j1) eqn:Hd; [|by intros [= <- <-]].
  destruct (flush o j1) as [j2 [[]|]] eqn:Hf; [|done]. intros [= <- <-].
  assert (is_durable j = true) as Hdj by (unfold is_durable in *; by rewrite <-Hd1).
  destruct (Hrec Hdj) as [Er Hr]. specialize (Ha1 Hr).
  destruct (flush_ok o j1 j2 Hj1 ltac:(intros _; lia) Hf) as (Hj2 & Er2 & [Kn Kd Km] & Hdur).
  split_and!; try done.
  - congruence.
  - intros _. rewrite Kn, Er2. done.
  - congruence.
  - congruence.
  - intros _. rewrite Er2. split; [done|]. by apply Hdur.
Qed.

Lemma flush_clears o j j' :
  flush o j = (j', Ok tt) -> recording j' = true -> unflushed_records j' = 0%N.
Proof.
  unfold flush, stop_recording. intros H Hr. repeat case_match; simplify_eq/=; try done.
  apply orb_true_iff in H0 as [?%N.eqb_eq|H0]; [done|]. by rewrite Hr in H0.
Qed.

Lemma flush_recording o j : recording (flush o j).1 = true -> recording j = true.
Proof. unfold flush, stop_recording. repeat case_match; done. Qed.

(** The numbers [from, from + 1, ...], [n] of them. *)
Fixpoint numbers (from : N) (n : nat) : list N :=
  match n with O => [] | S n => from :: numbers (from + 1) n end.

Fixpoint appends_of (ops : list journal_op) : nat :=
  match ops with
  | [] => 0
  | Flush _ :: rest => appends_of rest
  | _ :: rest => S (appends_of rest)
  end.

Lemma journal_run_ok ops j seqs j' :
  journal_ok j -> aligned j -> (next_seq j + N.of_nat (appends_of ops) <= U64_MAX)%N ->
  journal_run ops j = Ok (seqs, j') ->
  seqs = numbers (next_seq j) (appends_of ops) /\
  next_seq j' = (next_seq j + N.of_nat (appends_of ops))%N /\
  journal_ok j' /\ aligned j' /\ durability j' = durability j /\ max_bytes j' = max_bytes j.
Proof.
  revert j seqs. induction ops as [|op ops IH]; intros j seqs Hj Ha Hmax.
  { intros [= <- <-]. split_and!; try done. cbn. lia. }
  destruct op as [o kind data|o kind data|o]; cbn [journal_run];
    cbn [appends_of numbers] in Hmax |- *.
  - destruct (append encode o kind data j) as [j1 r] eqn:E.
    intros (seq & -> & ([sq j2] & Hrun & [= <- <-])%bind_Ok)%bind_Ok.
    destruct (append_ok _ _ _ _ _ _ Hj Ha ltac:(lia) E) as (-> & Hn & Hj1 & Ha1 & Hd1 & Hm1 & _).
    destruct (IH j1 sq Hj1 Ha1) as (-> & Hn' & ? & ? & ? & ?); [lia|done|].
    rewrite Hn in *. split_and!; try done; [lia|congruence..].
  - destruct (append_flushed encode o kind data j) as [j1 r] eqn:E.
    intros (seq & -> & ([sq j2] & Hrun & [= <- <-])%bind_Ok)%bind_Ok.
    destruct (append_flushed_ok _ _ _ _ _ _ Hj Ha ltac:(lia) E)
      as (-> & Hn & Hj1 & Ha1 & Hd1 & Hm1 & _).
    destruct (IH j1 sq Hj1 Ha1) as (-> & Hn' & ? & ? & ? & ?); [lia|done|].
    rewrite Hn in *. split_and!; try done; [lia|congruence..].
  - destruct (flush o j) as [j1 r] eqn:E.
    intros ([] & -> & Hrun)%bind_Ok.
    assert (recording j = true -> lenN (recorded j) < U64_MAX)%N as Hlen
      by (intros Hr; specialize (Ha Hr); lia).
    destruct (flush_ok _ _ _ Hj Hlen E) as (Hj1 & Er & [Kn Kd Km] & _).
    assert (aligned j1) as Ha1.
    { intros Hr1. pose proof (flush_recording o j) as Hr. rewrite E in Hr.
      rewrite Kn, Er. apply Ha. by apply Hr. }
    destruct (IH j1 seqs Hj1 Ha1) as (-> & ? & ? & ? & ? & ?); [lia|done|].
    rewrite Kn in *. split_and!; try done; congruence.
Qed.

Lemma create_ok max d :
  (max < U64_MAX)%N ->
  journal_ok (create_with_durability max d) /\ aligned (create_with_durability max d).
Proof. intros Hmax. split; [|done]. split; cbn; try done. lia. Qed.

(** C34: the journal is a bounded, contiguous prefix of the session's evidence:
    whatever the operating system answers, as long as no operation reports an
    error, the allocated sequence numbers are [1, 2, ...] without holes, the
    records on disk are numbered [1, 2, ...] without holes and occupy at most
    [max_bytes], and either every allocated number is on disk or a
    performance journal advertises a gap that starts no later than the first
    missing record. *)
Theorem journal_is_a_bounded_prefix max d ops seqs j :
  (max < U64_MAX)%N -> (N.of_nat (appends_of ops) < U64_MAX)%N ->
  journal_run ops (create_with_durability max d) = Ok (seqs, j) ->
  seqs = numbers 1 (appends_of ops) /\ numbered 1 (recorded j) /\
  (total_size (recorded j) <= max)%N /\
  match journal_gap j with
  | None => length (recorded j) = appends_of ops
  | Some g => d = Performance /\ (1 <= gap_from_seq g <= lenN (recorded j) + 1)%N
  end.
Proof.
  intros Hmax Hn Hrun. destruct (create_ok max d Hmax) as [Hj0 Ha0].
  destruct (journal_run_ok ops _ seqs j Hj0 Ha0) as (-> & Hnx & Hj & Ha & Hd & Hm);
    [cbn; lia|done|]. cbn in Hnx, Hd, Hm. rewrite <-Hm.
  split_and!; [done|apply Hj|apply Hj|].
  destruct (recording j) eqn:Hr.
  - destruct (jo_live _ Hj Hr) as [-> _]. specialize (Ha Hr). unfold lenN in Ha. lia.
  - destruct (jo_stopped _ Hj Hr) as (Hdur & g & -> & Hg). split; [|done].
    apply bool_decide_eq_false in Hdur. rewrite Hd in Hdur. by destruct d.
Qed.

(** A durable journal never drops evidence: an append that answers with a
    sequence number has written exactly that record, and after a flushing
    append every written record is flushed and synchronised. *)
Theorem durable_appends_are_on_disk o kind data j j' seq :
  journal_ok j -> aligned j -> (next_seq j < U64_MAX)%N -> durability j = Durable ->
  append_flushed encode o kind data j = (j', Ok seq) ->
  seq = next_seq j /\ recorded j' = recorded j ++ [MkJournalEntry seq kind data] /\
  recording j' = true /\ flushed_seq j' = seq /\ unflushed_records j' = 0%N.
Proof.
  intros Hj Ha Hmax Hd E.
  assert (is_durable j = true) as Hdj by (unfold is_durable; by rewrite Hd).
  destruct (append_flushed_ok _ _ _ _ _ _ Hj Ha Hmax E)
    as (-> & Hn & Hj' & Ha' & Hd' & _ & Hrec).
  destruct (Hrec Hdj) as [Er Hr]. specialize (Ha' Hr).
  destruct (jo_live _ Hj' Hr) as (_ & Hw & _ & _ & Hu0).
  assert (unflushed_records j' = 0%N) as Hu.
  { unfold append_flushed in E. destruct (append encode o kind data j) as [j1 [r|]]; [|done].
    unfold flush_boundary in E. destruct (is_durable j1) eqn:Hd1.
    - destruct (flush o j1) as [j2 [[]|]] eqn:Hf; simplify_eq. by eapply flush_clears.
    - simplify_eq. unfold is_durable in *. by rewrite Hd', Hdj in Hd1. }
  split_and!; [done..| |done]. rewrite Hu0 by done. rewrite Hw. lia.
Qed.

End journal_invariant.

(** A small journal whose third record does not fit. *)
Definition sample_encode (e : JournalEntry) : bytes := bytes_of (entry_kind e).

Definition sample_ops : list journal_op := [
  Append io_ok "abc" Null; AppendFlushed io_ok "def" Null; Append io_ok "ghijkl" Null].

Definition sample_journal : Journal :=
  match journal_run sample_encode sample_ops (create_with_durability 266 Performance) with
  | Ok (_, j) => j
  | Err _ => create_with_durability 266 Performance
  end.

Lemma journal_is_a_bounded_prefix_witness :
  numbered 1 (recorded sample_journal) /\
  (total_size sample_encode (recorded sample_journal) <= 266)%N /\
  gap_from_seq <$> journal_gap sample_journal = Some 3%N.
Proof.
  destruct (journal_is_a_bounded_prefix sample_encode 266 Performance sample_ops
    [1%N; 2%N; 3%N] sample_journal) as (_ & Hn & Hb & _).
  - by vm_compute.
  - by vm_compute.
  - vm_compute. reflexivity.
  - split; [exact Hn|]. split; [exact Hb|]. vm_compute. reflexivity.
Defined.

Lemma durable_appends_are_on_disk_witness :
  let j := create_with_durability 266 Durable in
  flushed_seq (append_flushed sample_encode io_ok "abc" Null j).1 = 1%N.
Proof.
  cbv zeta.
  destruct (durable_appends_are_on_disk sample_encode io_ok "abc" Null
    (create_with_durability 266 Durable)
    (append_flushed sample_encode io_ok "abc" Null (create_with_durability 266 Durable)).1 1)
    as (_ & _ & _ & E & _).
  - apply (create_ok sample_encode 266 Durable). by vm_compute.
  - apply (create_ok sample_encode 266 Durable). by vm_compute.
  - by vm_compute.
  - reflexivity.
  - vm_compute. reflexivity.
  - exact E.
Defined.
