(* ===== verification/Replay.v ===== *)
(** * Replay: rebuilding a session from its journal
    ([crates/gdb-ai-core/src/replay.rs])

    The JSON and base64 decoders are parameters.  The lines are those
    [read_line] returns; the file system is not modelled.  The reducer is the
    live one ([Reducer]), so replay and the running session share it. *)

From S2P Require Import Prelude Text MiAst MiParser MiParserSafety Json Errors Domain Reducer ReducerInv Normalize Journal.

Record ReplayReport := MkReplayReport {
  report_complete : bool;
  report_evidence_gap : option JournalGap;
  report_entries : N;
  report_parsed_mi_records : N;
  report_applied_events : N;
  report_snapshots : N;
  report_latest_snapshot : option Value;
  report_state : SessionState
}.

(** The local variables of [replay]. *)
Record replay_state := MkReplayState {
  rs_reducer : SessionState;
  rs_entries : N;
  rs_parsed : N;
  rs_applied : N;
  rs_saw_normalized : bool;
  rs_version : N;
  rs_pending : option (N * Event.DomainEvent);
  rs_first_unmatched : option N;
  rs_snapshots : N;
  rs_latest_snapshot : option Value;
  rs_last_seq : N;
  rs_complete : bool;
  rs_gap : option JournalGap
}.

Definition replay_start (session : SessionId) : replay_state :=
  MkReplayState (creating session) 0 0 0 false 1 None None 0 None 0 false None.

(** [Result] in a computation that can also panic. *)
Definition lift {E A} (r : Result E A) : outcome E A :=
  match r with Ok a => Done a | Err e => Fail e end.

Definition invalid {A} (message : string) : outcome Error A :=
  Fail (Error_new Code.InvalidArgument message).

Definition get_or_insert (o : option N) (n : N) : option N :=
  match o with Some m => Some m | None => Some n end.

(** Old journals recorded stops without the module of a frame. *)
Definition match_format (version : N) (e : Event.DomainEvent) : Event.DomainEvent :=
  match e with
  | Event.TargetStopped bi bt reason detail (Some f) =>
      if (version =? 1)%N then
        Event.TargetStopped bi bt reason detail
          (Some (MkFrameSummary (fr_level f) (fr_address f) (fr_function f) None
                   (fr_source f) (fr_line f)))
      else e
  | _ => e
  end.

Definition blank (line : bytes) : bool :=
  match utf8_decode line with
  | Some chars => forallb is_whitespace chars
  | None => false
  end.

(** The terminator [read_line] leaves. *)
Definition strip_terminator (line : bytes) : bytes :=
  match last line with
  | Some c =>
      if (c =? LF)%char then
        let line := removelast line in
        match last line with
        | Some d => if (d =? CR)%char then removelast line else line
        | None => line
        end
      else line
  | None => line
  end.

Section decoders.
Context (entry_of_line : bytes -> Result Error JournalEntry)
        (base64_decode : string -> Result string bytes)
        (event_of_value : Value -> Result Error Event.DomainEvent)
        (state_of_value : Value -> Result Error SessionState)
        (gap_of_value : Value -> Result Error JournalGap).

Definition replay_created (data : Value) (st : replay_state) : outcome Error replay_state :=
  recorded_id ← lift (ok_or (Json.get "session_id" data ≫= Json.as_str)
                 (Error_new Code.InvalidArgument "missing recorded session_id"));
  session ← lift (SessionId_parse recorded_id);
  version ← lift (ok_or
    (v ← match Json.get "normalization_version" data with
         | Some v => Json.as_u64 v
         | None => Some 1%N
         end;
     if (v =? 1)%N || (v =? NORMALIZATION_VERSION)%N then Some v else None)
    (Error_new Code.InvalidArgument "unsupported normalization version"));
  Done (MkReplayState (creating session) (rs_entries st) (rs_parsed st) (rs_applied st)
          (rs_saw_normalized st) version (rs_pending st) (rs_first_unmatched st)
          (rs_snapshots st) (rs_latest_snapshot st) (rs_last_seq st) (rs_complete st)
          (rs_gap st)).

Definition replay_mi_output (seq : N) (data : Value) (st : replay_state)
    : outcome Error replay_state :=
  encoded ← lift (ok_or (Json.get "raw_base64" data ≫= Json.as_str)
                    (Error_new Code.InvalidArgument "missing raw_base64"));
  raw ← match base64_decode encoded with
        | Ok raw => Done raw
        | Err m => invalid ("invalid base64: " +:+ m)
        end;
  record ← match parse_record raw MiLimits_default with
           | Done r => Done r
           | Fail e => Fail (error_of_mi e)
           | Panic => Panic
           | OutOfFuel => OutOfFuel
           end;
  let st := MkReplayState (rs_reducer st) (rs_entries st) (rs_parsed st + 1) (rs_applied st)
              (rs_saw_normalized st) (rs_version st) (rs_pending st) (rs_first_unmatched st)
              (rs_snapshots st) (rs_latest_snapshot st) (rs_last_seq st) (rs_complete st)
              (rs_gap st) in
  match normalize record with
  | None => Done st
  | Some event =>
      let event := match_format (rs_version st) event in
      applied ← (if rs_saw_normalized st then Done (rs_reducer st, rs_applied st)
                 else r ← lift (apply_event seq event (rs_reducer st));
                      Done (r.1, rs_applied st + 1)%N);
      let unmatched := match rs_pending st with
                       | Some (old, _) => get_or_insert (rs_first_unmatched st) old
                       | None => rs_first_unmatched st
                       end in
      Done (MkReplayState applied.1 (rs_entries st) (rs_parsed st) applied.2
              (rs_saw_normalized st) (rs_version st) (Some (seq, event)) unmatched
              (rs_snapshots st) (rs_latest_snapshot st) (rs_last_seq st) (rs_complete st)
              (rs_gap st))
  end.

Definition replay_normalized (seq : N) (data : Value) (st : replay_state)
    : outcome Error replay_state :=
  let '(reducer, applied) :=
    if rs_saw_normalized st then (rs_reducer st, rs_applied st)
    else (creating (session_id (rs_reducer st)), 0%N) in
  event ← lift (event_of_value data);
  unmatched ← match rs_pending st with
              | Some (raw_seq, derived) =>
                  if (u64_wrapping_add raw_seq 1 =? seq)%N then
                    if decide (derived = event) then Done (rs_first_unmatched st)
                    else invalid ("normalized event " +:+ dec seq +:+
                                  " differs from MI record " +:+ dec raw_seq)
                  else Done (get_or_insert (rs_first_unmatched st) raw_seq)
              | None => Done (rs_first_unmatched st)
              end;
  r ← lift (apply_event seq event reducer);
  Done (MkReplayState r.1 (rs_entries st) (rs_parsed st) (applied + 1) true (rs_version st)
          None unmatched (rs_snapshots st) (rs_latest_snapshot st) (rs_last_seq st)
          (rs_complete st) (rs_gap st)).

Definition replay_revision (seq : N) (data : Value) (st : replay_state)
    : outcome Error replay_state :=
  rev ← lift (ok_or (Json.get "revision" data ≫= Json.as_u64)
                (Error_new Code.InvalidArgument "missing state revision"));
  value ← lift (ok_or (Json.get "state" data)
                  (Error_new Code.InvalidArgument "missing revision state"));
  recorded_state ← lift (state_of_value value);
  if negb (rs_saw_normalized st) || negb (rev =? revision recorded_state)%N ||
     negb (bool_decide (rs_reducer st = recorded_state))
  then invalid ("state checkpoint " +:+ dec seq +:+ " does not match replay")
  else Done st.

Definition replay_snapshot (data : Value) (st : replay_state) : replay_state :=
  MkReplayState (rs_reducer st) (rs_entries st) (rs_parsed st) (rs_applied st)
    (rs_saw_normalized st) (rs_version st) (rs_pending st) (rs_first_unmatched st)
    (rs_snapshots st + 1) (Json.get "snapshot" data) (rs_last_seq st) (rs_complete st)
    (rs_gap st).

Definition replay_gap (seq : N) (data : Value) (st : replay_state)
    : outcome Error replay_state :=
  g ← lift (gap_of_value data);
  if negb (gap_from_seq g =? seq)%N then invalid "invalid journal gap"
  else Done (MkReplayState (rs_reducer st) (rs_entries st) (rs_parsed st) (rs_applied st)
               (rs_saw_normalized st) (rs_version st) (rs_pending st)
               (rs_first_unmatched st) (rs_snapshots st) (rs_latest_snapshot st)
               (rs_last_seq st) (rs_complete st) (Some g)).

Definition replay_closed (st : replay_state) : outcome Error replay_state :=
  if negb (rs_saw_normalized st) ||
     negb (bool_decide (lifecycle (rs_reducer st) = Lifecycle.Closed))
  then invalid "journal closed before the session"
  else Done (MkReplayState (rs_reducer st) (rs_entries st) (rs_parsed st) (rs_applied st)
               (rs_saw_normalized st) (rs_version st) (rs_pending st)
               (rs_first_unmatched st) (rs_snapshots st) (rs_latest_snapshot st)
               (rs_last_seq st) true (rs_gap st)).

(** The dispatch on the kind of an entry. *)
Definition replay_dispatch (e : JournalEntry) (st : replay_state)
    : outcome Error replay_state :=
  let kind := entry_kind e in
  if decide (kind = "session.created") then
    if (rs_entries st =? 1)%N then replay_created (entry_data e) st
    else invalid "session.created must be the first journal entry"
  else if decide (kind = "mi.output") then replay_mi_output (entry_seq e) (entry_data e) st
  else if decide (kind = "normalized.event") then
    replay_normalized (entry_seq e) (entry_data e) st
  else if decide (kind = "state.revision") then
    replay_revision (entry_seq e) (entry_data e) st
  else if decide (kind = "snapshot.result") then Done (replay_snapshot (entry_data e) st)
  else if decide (kind = "journal.gap") then replay_gap (entry_seq e) (entry_data e) st
  else if decide (kind = "journal.closed") then replay_closed st
  else Done st.

Definition count_line (seq : N) (st : replay_state) : replay_state :=
  MkReplayState (rs_reducer st) (rs_entries st + 1) (rs_parsed st) (rs_applied st)
    (rs_saw_normalized st) (rs_version st) (rs_pending st) (rs_first_unmatched st)
    (rs_snapshots st) (rs_latest_snapshot st) seq (rs_complete st) (rs_gap st).

(** The body of the loop for one journal entry. *)
Definition replay_entry (e : JournalEntry) (st : replay_state) : outcome Error replay_state :=
  if rs_complete st || bool_decide (is_Some (rs_gap st)) then
    invalid "journal has records after its terminal marker"
  else
    _ ← lift (require_next_sequence (rs_last_seq st) (entry_seq e));
    replay_dispatch e (count_line (entry_seq e) st).

Fixpoint replay_entries (es : list JournalEntry) (st : replay_state)
    : outcome Error replay_state :=
  match es with
  | [] => Done st
  | e :: rest => st ← replay_entry e st; replay_entries rest st
  end.

(** After the loop: an unmatched MI record is an error unless it lies at the
    edge of an advertised gap. *)
Definition replay_report (st : replay_state) : outcome Error ReplayReport :=
  let unmatched := match rs_first_unmatched st with
                   | Some seq => Some seq
                   | None => fst <$> rs_pending st
                   end in
  let excused seq := match rs_gap st with
                     | Some g => negb (u64_wrapping_add seq 1 <? gap_from_seq g)%N
                     | None => false
                     end in
  match (if rs_saw_normalized st then unmatched else None) with
  | Some seq =>
      if excused seq then
        Done (MkReplayReport (rs_complete st) (rs_gap st) (rs_entries st) (rs_parsed st)
                (rs_applied st) (rs_snapshots st) (rs_latest_snapshot st) (rs_reducer st))
      else invalid ("MI record " +:+ dec seq +:+ " has no matching normalized event")
  | None =>
      Done (MkReplayReport (rs_complete st) (rs_gap st) (rs_entries st) (rs_parsed st)
              (rs_applied st) (rs_snapshots st) (rs_latest_snapshot st) (rs_reducer st))
  end.

(** The lines of the file: terminators are stripped and blank lines skipped. *)
Fixpoint replay_lines (lines : list bytes) (st : replay_state) : outcome Error replay_state :=
  match lines with
  | [] => Done st
  | line :: rest =>
      let line := strip_terminator line in
      if blank line then replay_lines rest st
      else e ← lift (entry_of_line line); st ← replay_entry e st; replay_lines rest st
  end.

Definition replay (lines : list bytes) (session : SessionId) : outcome Error ReplayReport :=
  st ← replay_lines lines (replay_start session); replay_report st.

End decoders.
