(* ===== verification/ReplayLive.v ===== *)
(** * ReplayLive: replay reproduces the live session

    The journal a session writes (the creation record, then for every MI
    record its bytes followed by the event it normalizes to, events of the
    session itself, checkpoints of the state and other records, as
    [session/actor.rs] orders them) is replayed to the state the session had,
    every check of the replay passing. *)

From S2P Require Import Prelude Text MiAst MiParser Json Errors Domain Reducer ReducerInv Normalize Journal Replay.

(** What the actor journals, in order. *)
Inductive log_item :=
| LMi (raw : bytes)
| LMiEvent (raw : bytes) (event : Event.DomainEvent)
| LEvent (event : Event.DomainEvent)
| LCheckpoint
| LSnapshot (snapshot_id : string) (snapshot : Value)
| LOther (kind : string) (data : Value).

Definition handled_kinds : list string :=
  ["session.created"; "mi.output"; "normalized.event"; "state.revision";
   "snapshot.result"; "journal.gap"; "journal.closed"].

Definition live_apply (seq : N) (e : Event.DomainEvent) (s : SessionState) : SessionState :=
  match apply_event seq e s with Ok (s', _) => s' | Err _ => s end.

Section live.
#[local] Set Default Proof Using "Type".
Context (entry_of_line : bytes -> Result Error JournalEntry)
        (base64_encode : bytes -> string) (base64_decode : string -> Result string bytes)
        (value_of_event : Event.DomainEvent -> Value)
        (event_of_value : Value -> Result Error Event.DomainEvent)
        (value_of_state : SessionState -> Value)
        (state_of_value : Value -> Result Error SessionState)
        (gap_of_value : Value -> Result Error JournalGap).

Definition mi_output_entry (seq : N) (raw : bytes) : JournalEntry :=
  MkJournalEntry seq "mi.output" (Object [("raw_base64", Str (base64_encode raw))]).

Definition event_entry (seq : N) (e : Event.DomainEvent) : JournalEntry :=
  MkJournalEntry seq "normalized.event" (value_of_event e).

(** The records one item writes from sequence number [seq], and the live
    state after it. *)
Definition emit_item (seq : N) (item : log_item) (s : SessionState)
    : list JournalEntry * SessionState :=
  match item with
  | LMi raw => ([mi_output_entry seq raw], s)
  | LMiEvent raw e =>
      ([mi_output_entry seq raw; event_entry (seq + 1) e], live_apply (seq + 1) e s)
  | LEvent e => ([event_entry seq e], live_apply seq e s)
  | LCheckpoint =>
      ([MkJournalEntry seq "state.revision"
          (Object [("revision", uint (revision s)); ("state", value_of_state s)])], s)
  | LSnapshot id snapshot =>
      ([MkJournalEntry seq "snapshot.result"
          (Object [("snapshot_id", Str id); ("snapshot", snapshot)])], s)
  | LOther kind data => ([MkJournalEntry seq kind data], s)
  end.

Fixpoint emit (seq : N) (items : list log_item) (s : SessionState)
    : list JournalEntry * SessionState :=
  match items with
  | [] => ([], s)
  | item :: rest =>
      let '(es, s1) := emit_item seq item s in
      let '(es', s2) := emit (seq + lenN es) rest s1 in
      (es ++ es', s2)
  end.

(** The item can be decoded again, and what it says of the MI bytes is so. *)
Definition item_ok (s : SessionState) (item : log_item) : Prop :=
  match item with
  | LMi raw =>
      base64_decode (base64_encode raw) = Ok raw /\
      exists r, parse_record raw MiLimits_default = Done r /\ normalize r = None
  | LMiEvent raw e =>
      base64_decode (base64_encode raw) = Ok raw /\
      event_of_value (value_of_event e) = Ok e /\
      exists r, parse_record raw MiLimits_default = Done r /\ normalize r = Some e
  | LEvent e => event_of_value (value_of_event e) = Ok e
  | LCheckpoint =>
      state_of_value (value_of_state s) = Ok s /\ (revision s <= U64_MAX)%N /\
      event_seq s <> 0%N
  | LSnapshot _ _ => True
  | LOther kind _ => kind ∉ handled_kinds
  end.

Fixpoint items_ok (seq : N) (items : list log_item) (s : SessionState) : Prop :=
  match items with
  | [] => True
  | item :: rest =>
      item_ok s item /\
      items_ok (seq + lenN (emit_item seq item s).1) rest (emit_item seq item s).2
  end.

Abbreviation replay_entries' :=
  (replay_entries base64_decode event_of_value state_of_value gap_of_value).
Abbreviation replay_entry' :=
  (replay_entry base64_decode event_of_value state_of_value gap_of_value).

(** The state replay applies the next event to: before the first normalized
    event it starts over. *)
Definition base (st : replay_state) : SessionState :=
  if rs_saw_normalized st then rs_reducer st else creating (session_id (rs_reducer st)).

(** The replay is in step with the live session before the record [seq]. *)
Record synced (seq : N) (s : SessionState) (st : replay_state) : Prop := {
  sy_reducer : rs_reducer st = s;
  sy_base : base st = s;
  sy_seen : event_seq s <> 0%N -> rs_saw_normalized st = true;
  sy_version : rs_version st = NORMALIZATION_VERSION;
  sy_pending : rs_pending st = None;
  sy_unmatched : rs_first_unmatched st = None;
  sy_last : (rs_last_seq st + 1)%N = seq;
  sy_open : rs_complete st = false /\ rs_gap st = None;
  sy_event : (event_seq s < seq)%N
}.

Lemma live_apply_ok seq e s :
  (event_seq s < seq)%N ->
  exists changed, apply_event seq e s = Ok (live_apply seq e s, changed) /\
                  event_seq (live_apply seq e s) = seq /\
                  session_id (live_apply seq e s) = session_id s.
Proof.
  intros Hs. unfold live_apply.
  destruct (apply_event seq e s) as [[s' c]|err] eqn:E.
  - exists c. split; [done|]. apply apply_event_inv in E as (_ & s1 & E & ->).
    pose proof (reduce_frame e (set_event_seq seq s)) as (Hid & Hseq & _).
    rewrite E in Hseq, Hid. pose proof (bump_revision_fields (s1, c)) as (-> & -> & _). done.
  - unfold apply_event in E. destruct (N.leb_spec seq (event_seq s)); [lia|done].
Qed.

Lemma match_format_current e : match_format NORMALIZATION_VERSION e = e.
Proof. destruct e; cbn; repeat case_match; done. Qed.

Lemma next_sequence_ok last : (last < U64_MAX)%N -> require_next_sequence last (last + 1) = Ok tt.
Proof.
  intros H. unfold require_next_sequence. rewrite wrapping_next by done. by rewrite N.eqb_refl.
Qed.

(** An entry with the next number reaches the dispatch. *)
Lemma replay_entry_next e st :
  rs_complete st = false -> rs_gap st = None -> (rs_last_seq st + 1)%N = entry_seq e ->
  (entry_seq e < U64_MAX)%N ->
  replay_entry' e st =
    replay_dispatch base64_decode event_of_value state_of_value gap_of_value e
      (count_line (entry_seq e) st).
Proof.
  intros Hc Hg Hl Hmax. unfold replay_entry. rewrite Hc, Hg. cbn [orb].
  rewrite bool_decide_false by (by intros []).
  rewrite <-Hl at 1. by rewrite next_sequence_ok by lia.
Qed.

Lemma dispatch_event seq e st :
  replay_dispatch base64_decode event_of_value state_of_value gap_of_value
    (event_entry seq e) st = replay_normalized event_of_value seq (value_of_event e) st.
Proof. reflexivity. Qed.

Lemma dispatch_mi seq raw st :
  replay_dispatch base64_decode event_of_value state_of_value gap_of_value
    (mi_output_entry seq raw) st =
  replay_mi_output base64_decode seq
    (Object [("raw_base64", Str (base64_encode raw))]) st.
Proof. reflexivity. Qed.

(** One event entry, matched or not by a pending MI record just before it. *)
Lemma replay_event_entry seq e s st :
  base st = s ->
  rs_version st = NORMALIZATION_VERSION -> rs_first_unmatched st = None ->
  (rs_pending st = None \/ rs_pending st = Some (rs_last_seq st, e)) ->
  (rs_last_seq st + 1)%N = seq -> rs_complete st = false -> rs_gap st = None ->
  (event_seq s < seq)%N -> (seq < U64_MAX)%N ->
  event_of_value (value_of_event e) = Ok e ->
  exists st', replay_entry' (event_entry seq e) st = Done st' /\
              synced (seq + 1) (live_apply seq e s) st'.
Proof.
  intros Hb Hv Hu Hp Hl Hc Hg Hs Hmax Hd. rewrite replay_entry_next by done.
  rewrite dispatch_event.
  unfold replay_normalized, count_line. cbn -[live_apply apply_event u64_wrapping_add creating].
  rewrite Hd. destruct (live_apply_ok seq e s Hs) as (c & E & Eseq & Eid).
  replace (if rs_saw_normalized st then (rs_reducer st, rs_applied st)
           else (creating (session_id (rs_reducer st)), 0%N))
    with (s, if rs_saw_normalized st then rs_applied st else 0%N)
    by (unfold base in Hb; destruct (rs_saw_normalized st); congruence).
  cbn -[live_apply apply_event u64_wrapping_add].
  destruct Hp as [-> | ->]; cbn -[live_apply apply_event u64_wrapping_add].
  - rewrite E. cbn -[live_apply]. eexists. split; [done|].
    split; cbn -[live_apply]; try done. rewrite Eseq. lia.
  - rewrite wrapping_next by lia. rewrite Hl, N.eqb_refl. rewrite decide_True by done.
    cbn -[live_apply apply_event]. rewrite E. cbn -[live_apply].
    eexists. split; [done|]. split; cbn -[live_apply]; try done. rewrite Eseq. lia.
Qed.

(** One MI entry. *)
Lemma replay_mi_entry seq raw r s st :
  synced seq s st -> (seq < U64_MAX)%N -> base64_decode (base64_encode raw) = Ok raw ->
  parse_record raw MiLimits_default = Done r ->
  exists st', replay_entry' (mi_output_entry seq raw) st = Done st' /\
    base st' = s /\ (normalize r = None -> rs_reducer st' = s) /\
    rs_saw_normalized st' = rs_saw_normalized st /\
    rs_version st' = NORMALIZATION_VERSION /\ rs_first_unmatched st' = None /\
    rs_pending st' = match normalize r with Some e => Some (seq, e) | None => None end /\
    rs_last_seq st' = seq /\ rs_complete st' = false /\ rs_gap st' = None.
Proof.
  intros [Hr Hb0 Hn Hv Hp Hu Hl [Hc Hg] Hs] Hmax Hb Hparse. rewrite replay_entry_next by done.
  rewrite dispatch_mi. unfold replay_mi_output.
  change (Json.get "raw_base64" (Object [("raw_base64", Str (base64_encode raw))])
    ≫= Json.as_str) with (Some (base64_encode raw)).
  cbn -[parse_record normalize match_format MiLimits_default].
  rewrite Hb. cbn -[parse_record normalize match_format MiLimits_default].
  rewrite Hparse. cbn -[normalize match_format].
  destruct (normalize r) as [e|]; rewrite ?Hv, ?Hp; cbn -[match_format]; cycle 1.
  { eexists. split; [done|]. split_and!; done. }
  rewrite match_format_current. unfold base in *.
  destruct (rs_saw_normalized st) eqn:Hsaw.
  - eexists. split; [done|]. cbn. split_and!; done.
  - destruct (live_apply_ok seq e s Hs) as (c & E & _ & Eid). rewrite Hr, E.
    eexists. split; [done|]. cbn -[creating live_apply]. rewrite Eid, <-Hr.
    split_and!; congruence || done.
Qed.

(** An entry that only advances the line counters keeps the replay in step. *)
Lemma synced_count seq s st :
  synced seq s st -> synced (seq + 1) s (count_line seq st).
Proof. intros [Hr Hb0 Hn Hv Hp Hu Hl [Hc Hg] Hs]. split; cbn; try done. lia. Qed.

Lemma replay_entries_app es1 es2 st :
  replay_entries' (es1 ++ es2) st = (st1 ← replay_entries' es1 st; replay_entries' es2 st1).
Proof.
  revert st. induction es1 as [|e es1 IH]; intros st; [done|]. cbn -[replay_entry].
  destruct (replay_entry' e st); cbn; [apply IH|done..].
Qed.

Lemma replay_checkpoint seq s st :
  synced seq s st -> (seq < U64_MAX)%N -> item_ok s LCheckpoint ->
  exists st', replay_entries' (emit_item seq LCheckpoint s).1 st = Done st' /\
              synced (seq + 1) s st'.
Proof.
  intros Hsync Hmax (Hd & Hrev & Hne). pose proof Hsync as [Hr Hb0 Hn Hv Hp Hu Hl [Hc Hg] Hs].
  exists (count_line seq st). split; [|by apply synced_count].
  cbn [emit_item fst replay_entries]. rewrite replay_entry_next by done.
  set (data := Object _).
  change (replay_dispatch base64_decode event_of_value state_of_value gap_of_value
    (MkJournalEntry seq "state.revision" data)) with
    (replay_revision state_of_value seq data).
  unfold replay_revision.
  change (Json.get "revision" data ≫= Json.as_u64) with (Json.as_u64 (uint (revision s))).
  rewrite as_u64_uint by done.
  change (Json.get "state" data) with (Some (value_of_state s)). cbn -[uint].
  rewrite Hd. cbn. rewrite Hn, N.eqb_refl, bool_decide_true by done. done.
Qed.

Lemma replay_other seq kind data s st :
  synced seq s st -> (seq < U64_MAX)%N -> kind ∉ handled_kinds ->
  exists st', replay_entries' [MkJournalEntry seq kind data] st = Done st' /\
              synced (seq + 1) s st'.
Proof.
  intros Hsync Hmax Hk. pose proof Hsync as [Hr Hb0 Hn Hv Hp Hu Hl [Hc Hg] Hs].
  exists (count_line seq st). split; [|by apply synced_count].
  cbn [replay_entries]. rewrite replay_entry_next by done.
  unfold handled_kinds in Hk. repeat (apply not_elem_of_cons in Hk as [? Hk]).
  unfold replay_dispatch. cbn [entry_kind entry_seq]. by rewrite !decide_False by done.
Qed.

Lemma replay_snapshot_item seq id snapshot s st :
  synced seq s st -> (seq < U64_MAX)%N ->
  exists st', replay_entries' (emit_item seq (LSnapshot id snapshot) s).1 st = Done st' /\
              synced (seq + 1) s st'.
Proof.
  intros Hsync Hmax. pose proof Hsync as [Hr Hb0 Hn Hv Hp Hu Hl [Hc Hg] Hs].
  cbn [emit_item fst replay_entries]. rewrite replay_entry_next by done.
  eexists. split; [reflexivity|]. split; cbn; try done. lia.
Qed.

Lemma replay_item seq item s st :
  synced seq s st -> item_ok s item ->
  (seq + lenN (emit_item seq item s).1 < U64_MAX)%N ->
  exists st', replay_entries' (emit_item seq item s).1 st = Done st' /\
    synced (seq + lenN (emit_item seq item s).1) (emit_item seq item s).2 st'.
Proof.
  intros Hsync Hok Hmax. destruct item as [raw|raw e|e| |id snapshot|kind data].
  - destruct Hok as (Hb & r & Hp & Hno). unfold lenN in *. cbn in Hmax |- *.
    destruct (replay_mi_entry seq raw r s st Hsync ltac:(lia) Hb Hp)
      as (st1 & -> & Hb1 & Hr & Hn & Hv & Hu & Hpe & Hl & Hc & Hg).
    exists st1. split; [done|]. rewrite Hno in Hpe.
    split; try done; [by apply Hr| |lia|destruct Hsync; lia].
    rewrite Hn. apply Hsync.
  - destruct Hok as (Hb & Hd & r & Hp & Hnorm). unfold lenN in *. cbn -[live_apply] in Hmax |- *.
    destruct (replay_mi_entry seq raw r s st Hsync ltac:(lia) Hb Hp)
      as (st1 & -> & Hb1 & Hr & Hn & Hv & Hu & Hpe & Hl & Hc & Hg). cbn -[live_apply replay_entry].
    rewrite Hnorm in Hpe.
    destruct (replay_event_entry (seq + 1) e s st1) as (st2 & -> & H2);
      [done|done|done|right; by rewrite Hl|lia|done|done|destruct Hsync; lia|lia|done|].
    exists st2. split; [done|]. rewrite <-N.add_assoc in H2. exact H2.
  - unfold lenN in *. cbn -[live_apply] in Hmax |- *.
    destruct Hsync as [Hr Hb0 Hn Hv Hp Hu Hl [Hc Hg] Hs].
    destruct (replay_event_entry seq e s st) as (st2 & -> & H2);
      [done|done|done|by left|done|done|done|done|lia|done|]. by exists st2.
  - unfold lenN in *. apply replay_checkpoint; [done|cbn in Hmax; lia|done].
  - unfold lenN in *. apply replay_snapshot_item; [done|cbn in Hmax; lia].
  - unfold lenN in *. apply replay_other; [done|cbn in Hmax; lia|done].
Qed.

Lemma replay_emitted items seq s st :
  synced seq s st -> items_ok seq items s ->
  (seq + lenN (emit seq items s).1 < U64_MAX)%N ->
  exists st', replay_entries' (emit seq items s).1 st = Done st' /\
    synced (seq + lenN (emit seq items s).1) (emit seq items s).2 st'.
Proof.
  revert seq s st. induction items as [|item rest IH]; intros seq s st Hsync Hok Hmax.
  - exists st. split; [done|]. unfold lenN. cbn. by rewrite N.add_0_r.
  - destruct Hok as [Hitem Hok]. cbn [emit] in *.
    destruct (emit_item seq item s) as [es s1] eqn:Ei. cbn [fst snd] in Hok.
    destruct (emit (seq + lenN es) rest s1) as [es' s2] eqn:Ee. cbn [fst snd] in *.
    rewrite lenN_app in Hmax.
    destruct (replay_item seq item s st Hsync Hitem) as (st1 & E1 & H1);
      [rewrite Ei; cbn [fst]; lia|]. rewrite Ei in E1, H1. cbn [fst snd] in E1, H1.
    destruct (IH (seq + lenN es)%N s1 st1 H1 Hok) as (st2 & E2 & H2);
      [rewrite Ee; cbn [fst]; lia|]. rewrite Ee in E2, H2. cbn [fst snd] in E2, H2.
    exists st2. rewrite replay_entries_app, E1. cbn. split; [done|].
    by rewrite lenN_app, N.add_assoc.
Qed.

(** The first record, and the journal of a session with or without the
    closing marker of [Journal::finish]. *)
Definition created_entry (sid : SessionId) : JournalEntry :=
  MkJournalEntry 1 "session.created"
    (Object [("session_id", Str sid); ("normalization_version", uint NORMALIZATION_VERSION)]).

Definition session_journal (sid : SessionId) (items : list log_item) (closed : bool)
    : list JournalEntry :=
  let es := (emit 2 items (creating sid)).1 in
  created_entry sid :: es ++
  (if closed then [MkJournalEntry (2 + lenN es) "journal.closed" (Object [])] else []).

Definition live_state (sid : SessionId) (items : list log_item) : SessionState :=
  (emit 2 items (creating sid)).2.

(** The file holds the journal: one non-blank line per record. *)
Definition holds (lines : list bytes) (es : list JournalEntry) : Prop :=
  Forall2 (fun line e => blank (strip_terminator line) = false /\
                         entry_of_line (strip_terminator line) = Ok e) lines es.

Abbreviation replay' :=
  (replay entry_of_line base64_decode event_of_value state_of_value gap_of_value).
Abbreviation replay_lines' :=
  (replay_lines entry_of_line base64_decode event_of_value state_of_value gap_of_value).

Lemma replay_lines_hold lines es st :
  holds lines es -> replay_lines' lines st = replay_entries' es st.
Proof.
  intros H. revert st. induction H as [|line e lines es [Hb He] _ IH]; intros st; [done|].
  cbn -[replay_entry blank strip_terminator]. rewrite Hb, He. cbn -[replay_entry].
  destruct (replay_entry' e st); cbn; [apply IH|done..].
Qed.

Lemma replay_created_entry sid other :
  SessionId_parse sid = Ok sid ->
  exists st, replay_entry' (created_entry sid) (replay_start other) = Done st /\
             synced 2 (creating sid) st.
Proof.
  intros Hp. unfold replay_entry. cbn [replay_start rs_complete rs_gap orb].
  rewrite bool_decide_false by (by intros []).
  change (require_next_sequence _ _) with (Ok (E:=Error) tt). cbn [lift].
  cbn [outcome_bind mbind].
  match goal with |- context [replay_dispatch _ _ _ _ ?e ?st] =>
    change (replay_dispatch base64_decode event_of_value state_of_value gap_of_value e st)
      with (replay_created (entry_data e) st) end.
  unfold replay_created. cbn [created_entry entry_data].
  match goal with |- context [lift (ok_or (Json.get "session_id" ?d ≫= Json.as_str) ?m)] =>
    change (lift (ok_or (Json.get "session_id" d ≫= Json.as_str) m)) with (Done (E:=Error) sid)
  end.
  cbn [mbind outcome_bind]. rewrite Hp. cbn [lift mbind outcome_bind].
  eexists. split; [reflexivity|]. split; try done.
Qed.

(** The closing marker is accepted once the session is closed. *)
Lemma replay_closing seq s st :
  synced seq s st -> (seq < U64_MAX)%N -> lifecycle s = Lifecycle.Closed ->
  exists st', replay_entries' [MkJournalEntry seq "journal.closed" (Object [])] st = Done st' /\
    rs_reducer st' = s /\ rs_complete st' = true /\ rs_gap st' = None /\
    rs_first_unmatched st' = None /\ rs_pending st' = None.
Proof.
  intros [Hr Hb0 Hn Hv Hp Hu Hl [Hc Hg] Hs] Hmax Hcl. cbn [replay_entries].
  rewrite replay_entry_next by done.
  match goal with |- context [replay_dispatch _ _ _ _ ?e ?st0] =>
    change (replay_dispatch base64_decode event_of_value state_of_value gap_of_value e st0)
      with (replay_closed st0) end.
  assert (rs_saw_normalized st = true) as Hsaw.
  { unfold base in Hb0. destruct (rs_saw_normalized st); [done|].
    by rewrite <-Hb0 in Hcl. }
  unfold replay_closed. cbn [count_line rs_saw_normalized rs_reducer].
  rewrite Hsaw, bool_decide_true by (by rewrite Hr). cbn.
  eexists. split; [reflexivity|]. by split_and!.
Qed.

Lemma replay_report_matched st :
  rs_first_unmatched st = None -> rs_pending st = None ->
  replay_report st =
    Done (MkReplayReport (rs_complete st) (rs_gap st) (rs_entries st) (rs_parsed st)
            (rs_applied st) (rs_snapshots st) (rs_latest_snapshot st) (rs_reducer st)).
Proof. intros Hu Hp. unfold replay_report. rewrite Hu, Hp. by destruct (rs_saw_normalized st). Qed.

(** Replay reproduces the session: the journal a session has written (the
    creation record, then any interleaving of MI records with the events they
    normalize to, of the session's own events, checkpoints, snapshots and
    other evidence, with or without the closing marker), read back from a
    file that holds its records, replays without an error, whatever session
    identifier the caller supplies, to exactly the live state; the report says
    it is complete just when the closing marker is there. *)
Theorem replay_reproduces_the_session sid other items closed lines :
  SessionId_parse sid = Ok sid -> items_ok 2 items (creating sid) ->
  (closed = true -> lifecycle (live_state sid items) = Lifecycle.Closed) ->
  (lenN (session_journal sid items closed) + 1 < U64_MAX)%N ->
  holds lines (session_journal sid items closed) ->
  exists report, replay' lines other = Done report /\
    report_state report = live_state sid items /\ report_complete report = closed /\
    report_evidence_gap report = None.
Proof.
  intros Hid Hok Hcl Hlen Hlines. unfold replay. rewrite (replay_lines_hold _ _ _ Hlines).
  unfold session_journal, live_state in *.
  destruct (replay_created_entry sid other Hid) as (st0 & E0 & H0).
  cbn [replay_entries]. rewrite E0. cbn [mbind outcome_bind].
  destruct (emit 2 items (creating sid)) as [es s] eqn:Ee. cbn [fst snd] in *.
  unfold lenN in Hlen. cbn [length] in Hlen. rewrite length_app in Hlen.
  destruct (replay_emitted items 2 (creating sid) st0 H0 Hok) as (st1 & E1 & H1);
    [rewrite Ee; unfold lenN; cbn [fst]; destruct closed; cbn in Hlen; lia|].
  rewrite Ee in E1, H1. cbn [fst snd] in E1, H1.
  rewrite replay_entries_app, E1. cbn [mbind outcome_bind]. destruct closed.
  - destruct (replay_closing _ s st1 H1) as (st2 & E2 & Hr & Hc & Hg & Hu & Hp);
      [unfold lenN; cbn in Hlen; lia|by apply Hcl|].
    rewrite E2. cbn [mbind outcome_bind]. rewrite replay_report_matched by done.
    eexists. split; [reflexivity|]. by split_and!.
  - destruct H1 as [Hr Hb0 Hn Hv Hp Hu Hl [Hc Hg] Hs]. cbn [replay_entries mbind outcome_bind].
    rewrite replay_report_matched by done. eexists. split; [reflexivity|]. by split_and!.
Qed.

End live.

(** A session that prints a banner, starts, is checkpointed and closes. *)
Definition sample_sid : SessionId := "sess_a1".
Definition sample_raw : bytes := ["~"%char; DQUOTE; "h"%char; "i"%char; DQUOTE].
Definition sample_events : list Event.DomainEvent := [
  Event.Output Out.GdbConsoleStream ["h"%char; "i"%char];
  Event.BackendStarted; Event.SessionClosing; Event.SessionClosed].

Definition sample_items : list log_item := [
  LMiEvent sample_raw (Event.Output Out.GdbConsoleStream ["h"%char; "i"%char]);
  LEvent Event.BackendStarted; LOther "mi.input" Null; LCheckpoint;
  LSnapshot "snap_1" Null; LEvent Event.SessionClosing; LEvent Event.SessionClosed].

Definition index_of (e : Event.DomainEvent) : N :=
  match e with
  | Event.Output _ _ => 0
  | Event.BackendStarted => 1
  | Event.SessionClosing => 2
  | _ => 3
  end.

Definition sample_value_of_event (e : Event.DomainEvent) : Value := uint (index_of e).

Definition sample_event_of_value (v : Value) : Result Error Event.DomainEvent :=
  ok_or (n ← Json.as_u64 v; sample_events !! N.to_nat n) (Error_new Code.InvalidArgument "event").

Definition sample_value_of_state (_ : SessionState) : Value := Null.

(** The state at the checkpoint. *)
Definition sample_state_of_value (_ : Value) : Result Error SessionState :=
  Ok (live_state string_of sample_value_of_event sample_value_of_state sample_sid
        (take 2 sample_items)).

Definition sample_journal_entries : list JournalEntry :=
  session_journal string_of sample_value_of_event sample_value_of_state sample_sid
    sample_items true.

(** Line [i] of the file is [i] letters and a newline. *)
Definition sample_lines : list bytes :=
  (fun i => repeat "x"%char (S i) ++ [LF]) <$> seq 0 (length sample_journal_entries).

Definition sample_entry_of_line (line : bytes) : Result Error JournalEntry :=
  ok_or (sample_journal_entries !! pred (length line)) (Error_new Code.InvalidArgument "line").

Lemma replay_reproduces_the_session_witness :
  exists report,
    replay sample_entry_of_line (fun s => Ok (bytes_of s)) sample_event_of_value
      sample_state_of_value (fun _ => Err (Error_new Code.InvalidArgument "gap"))
      sample_lines "sess_other" = Done report /\
    lifecycle (report_state report) = Lifecycle.Closed /\ report_complete report = true.
Proof.
  destruct (replay_reproduces_the_session sample_entry_of_line string_of
    (fun s => Ok (bytes_of s)) sample_value_of_event sample_event_of_value
    sample_value_of_state sample_state_of_value
    (fun _ => Err (Error_new Code.InvalidArgument "gap"))
    sample_sid "sess_other" sample_items true sample_lines)
    as (report & E & Es & Ec & _).
  - vm_compute. reflexivity.
  - cbn -[creating live_apply parse_record normalize handled_kinds lenN N.add].
    split_and!; try done.
    + exists (ConsoleStream ["h"%char; "i"%char]). split; vm_compute; reflexivity.
    + unfold handled_kinds. by rewrite !elem_of_cons, elem_of_nil; intros Hk; naive_solver.
  - intros _. vm_compute. reflexivity.
  - vm_compute. reflexivity.
  - repeat (constructor; [split; vm_compute; reflexivity|]). constructor.
  - exists report. split; [exact E|]. rewrite Es. split; [vm_compute; reflexivity|exact Ec].
Defined.

(** A record nested one level deeper than the default limit allows. *)
Definition deep_record : bytes :=
  bytes_of "^done,a=" ++ repeat "["%char 129 ++ repeat "]"%char 129.

(** A session whose configured nesting limit is above the default of 128
    accepts and journals MI records that the replay of its journal, which
    always parses with the default limits, rejects: the same bytes parse under
    the limit 200, and their [mi.output] entry fails the replay. *)
Theorem replay_rejects_deeper_records seq st :
  (exists r, parse_record deep_record (MkMiLimits 8388608 200 8388608) = Done r) /\
  exists err, replay_mi_output (fun _ => Ok deep_record) seq
                (Object [("raw_base64", Str "")]) st = Fail err.
Proof.
  split.
  - destruct (parse_record deep_record (MkMiLimits 8388608 200 8388608)) as [r| | |] eqn:E;
      [by exists r|..]; exfalso; revert E; vm_compute; discriminate.
  - eexists. unfold replay_mi_output.
    assert (parse_record deep_record MiLimits_default = Fail (Limit "nesting depth" 128)) as E
      by (vm_compute; reflexivity).
    cbn -[parse_record deep_record MiLimits_default]. rewrite E. reflexivity.
Qed.
