(* ===== verification/Policy.v ===== *)
(** * Policy: canonical methods, effects and profiles
    ([crates/gdb-ai-core/src/policy.rs], the method table of [protocol.rs])

    The method enumeration with its wire names, the effect of every method,
    what each security profile authorizes, and the framing guard of raw
    console commands. *)

From S2P Require Import Prelude Text Errors.

Module Method.

Inductive CanonicalMethod :=
| SessionCreate
| SessionGet
| SessionList
| SessionClose
| SessionForceAbort
| SessionAcquireWriteLease
| SessionReleaseWriteLease
| SessionHandoff
| SessionAttemptRecovery
| SessionCapabilities
| SessionProviders
| SessionTranscript
| SessionEvent
| OperationGet
| OperationCancel
| TargetLaunch
| TargetAttach
| TargetConnectRemote
| TargetOpenCore
| TargetDetach
| TargetRestart
| TargetKill
| ExecutionControl
| ExecutionWait
| BreakpointCreate
| BreakpointUpdate
| BreakpointDelete
| BreakpointList
| InspectionGet
| InspectionSnapshot
| InspectionDiff
| InspectionBatch
| InspectionSnapshotGet
| ValueEvaluate
| ValueCreate
| ValueChildren
| ValueUpdate
| ValueRelease
| MemoryRead
| MemoryWrite
| MemorySearch
| MemoryCompare
| RegisterRead
| RegisterWrite
| DisassemblyRead
| InferiorIoRead
| InferiorIoWrite
| InferiorIoCloseStdin
| InferiorIoSendEof
| InferiorIoResize
| TrackingAddExpression
| TrackingAddMemory
| TrackingRemove
| TrackingList
| SignalGet
| SignalUpdate
| AgentHypothesisCheck
| AgentProbe
| AgentExperiment
| KernelInspect
| KernelMonitor
| ArtifactGet
| EventsWait
| RawMi
| RawConsole.

(** [CanonicalMethod::ALL]. *)
Definition ALL : list CanonicalMethod := [
  SessionCreate; SessionGet; SessionList; SessionClose; SessionForceAbort;
  SessionAcquireWriteLease; SessionReleaseWriteLease; SessionHandoff; SessionAttemptRecovery;
  SessionCapabilities; SessionProviders; SessionTranscript; SessionEvent; OperationGet;
  OperationCancel; TargetLaunch; TargetAttach; TargetConnectRemote; TargetOpenCore;
  TargetDetach; TargetRestart; TargetKill; ExecutionControl; ExecutionWait; BreakpointCreate;
  BreakpointUpdate; BreakpointDelete; BreakpointList; InspectionGet; InspectionSnapshot;
  InspectionDiff; InspectionBatch; InspectionSnapshotGet; ValueEvaluate; ValueCreate;
  ValueChildren; ValueUpdate; ValueRelease; MemoryRead; MemoryWrite; MemorySearch;
  MemoryCompare; RegisterRead; RegisterWrite; DisassemblyRead; InferiorIoRead;
  InferiorIoWrite; InferiorIoCloseStdin; InferiorIoSendEof; InferiorIoResize;
  TrackingAddExpression; TrackingAddMemory; TrackingRemove; TrackingList; SignalGet;
  SignalUpdate; AgentHypothesisCheck; AgentProbe; AgentExperiment; KernelInspect;
  KernelMonitor; ArtifactGet; EventsWait; RawMi; RawConsole].

Definition as_str (method : CanonicalMethod) : string :=
  match method with
  | SessionCreate => "session.create"
  | SessionGet => "session.get"
  | SessionList => "session.list"
  | SessionClose => "session.close"
  | SessionForceAbort => "session.force_abort"
  | SessionAcquireWriteLease => "session.acquire_write_lease"
  | SessionReleaseWriteLease => "session.release_write_lease"
  | SessionHandoff => "session.handoff"
  | SessionAttemptRecovery => "session.attempt_recovery"
  | SessionCapabilities => "session.capabilities"
  | SessionProviders => "session.providers"
  | SessionTranscript => "session.transcript"
  | SessionEvent => "session.event"
  | OperationGet => "operation.get"
  | OperationCancel => "operation.cancel"
  | TargetLaunch => "target.launch"
  | TargetAttach => "target.attach"
  | TargetConnectRemote => "target.connect_remote"
  | TargetOpenCore => "target.open_core"
  | TargetDetach => "target.detach"
  | TargetRestart => "target.restart"
  | TargetKill => "target.kill"
  | ExecutionControl => "execution.control"
  | ExecutionWait => "execution.wait"
  | BreakpointCreate => "breakpoint.create"
  | BreakpointUpdate => "breakpoint.update"
  | BreakpointDelete => "breakpoint.delete"
  | BreakpointList => "breakpoint.list"
  | InspectionGet => "inspection.get"
  | InspectionSnapshot => "inspection.snapshot"
  | InspectionDiff => "inspection.diff"
  | InspectionBatch => "inspection.batch"
  | InspectionSnapshotGet => "inspection.snapshot_get"
  | ValueEvaluate => "value.evaluate"
  | ValueCreate => "value.create"
  | ValueChildren => "value.children"
  | ValueUpdate => "value.update"
  | ValueRelease => "value.release"
  | MemoryRead => "memory.read"
  | MemoryWrite => "memory.write"
  | MemorySearch => "memory.search"
  | MemoryCompare => "memory.compare"
  | RegisterRead => "register.read"
  | RegisterWrite => "register.write"
  | DisassemblyRead => "disassembly.read"
  | InferiorIoRead => "inferior_io.read"
  | InferiorIoWrite => "inferior_io.write"
  | InferiorIoCloseStdin => "inferior_io.close_stdin"
  | InferiorIoSendEof => "inferior_io.send_eof"
  | InferiorIoResize => "inferior_io.resize"
  | TrackingAddExpression => "tracking.add_expression"
  | TrackingAddMemory => "tracking.add_memory"
  | TrackingRemove => "tracking.remove"
  | TrackingList => "tracking.list"
  | SignalGet => "signal.get"
  | SignalUpdate => "signal.update"
  | AgentHypothesisCheck => "agent.hypothesis_check"
  | AgentProbe => "agent.probe"
  | AgentExperiment => "agent.experiment"
  | KernelInspect => "kernel.inspect"
  | KernelMonitor => "kernel.monitor"
  | ArtifactGet => "artifact.get"
  | EventsWait => "events.wait"
  | RawMi => "raw.mi"
  | RawConsole => "raw.console"
  end.

End Method.
Import Method.

(** [TryFrom<&str>]: the first method of the table with that name. *)
Definition try_from (value : string) : Result Error CanonicalMethod :=
  ok_or (List.find (fun method => bool_decide (as_str method = value)) ALL)
    (Error_new Code.InvalidArgument ("unknown canonical method " +:+ value)).

Lemma as_str_found m :
  List.find (fun method => bool_decide (as_str method = as_str m)) ALL = Some m.
Proof. destruct m; vm_compute; reflexivity. Qed.

#[global] Instance as_str_inj : Inj (=) (=) as_str.
Proof.
  intros m m' E. pose proof (as_str_found m) as H. rewrite E, as_str_found in H.
  by simplify_eq.
Qed.

#[global] Instance CanonicalMethod_eq_dec : EqDecision CanonicalMethod.
Proof.
  intros m m'. destruct (decide (as_str m = as_str m')) as [E|E]; [left|right].
  - by apply (inj as_str).
  - intros ->. by apply E.
Defined.

Inductive Profile := OfflineCore | LiveObserver | DebugControl | LabMutation | RawAdmin.

Inductive Effect :=
| Read | VolatileTargetRead | Control | TargetMutation | HostMutation | Network | Raw.

#[global] Instance Profile_eq_dec : EqDecision Profile.
Proof. solve_decision. Defined.

#[global] Instance Effect_eq_dec : EqDecision Effect.
Proof. solve_decision. Defined.

(** The derived [Debug] names. *)
Definition profile_debug (p : Profile) : string :=
  match p with
  | OfflineCore => "OfflineCore"
  | LiveObserver => "LiveObserver"
  | DebugControl => "DebugControl"
  | LabMutation => "LabMutation"
  | RawAdmin => "RawAdmin"
  end.

Definition effect_debug (e : Effect) : string :=
  match e with
  | Read => "Read"
  | VolatileTargetRead => "VolatileTargetRead"
  | Control => "Control"
  | TargetMutation => "TargetMutation"
  | HostMutation => "HostMutation"
  | Network => "Network"
  | Raw => "Raw"
  end.

Definition allowed (self : Profile) (effect : Effect) : bool :=
  match self with
  | OfflineCore | LiveObserver => bool_decide (effect = Read)
  | DebugControl => match effect with Read | Control => true | _ => false end
  | LabMutation =>
      match effect with
      | Read | VolatileTargetRead | Control | TargetMutation | Network => true
      | _ => false
      end
  | RawAdmin => true
  end.

Definition authorize (self : Profile) (effect : Effect) : Result Error unit :=
  if allowed self effect then Ok tt
  else Err (Error_new Code.PolicyDenied
              ("profile " +:+ profile_debug self +:+ " does not permit effect " +:+
               effect_debug effect)).

(** The methods every profile may use on its own session. *)
Definition session_management (method : CanonicalMethod) : bool :=
  match method with
  | SessionCreate | SessionClose | SessionForceAbort | SessionAcquireWriteLease
  | SessionReleaseWriteLease | SessionHandoff | SessionAttemptRecovery | OperationCancel => true
  | _ => false
  end.

Definition authorize_method (self : Profile) (method : CanonicalMethod) (effect : Effect)
    : Result Error unit :=
  if session_management method ||
     (bool_decide (self = OfflineCore) && bool_decide (method = TargetOpenCore))
  then Ok tt
  else authorize self effect.

Definition effect_for_method (method : CanonicalMethod) : Effect :=
  match method with
  | SessionGet | SessionList | SessionCapabilities | SessionProviders | SessionTranscript
  | SessionEvent | OperationGet | InspectionGet | InspectionSnapshot | InspectionDiff
  | InspectionBatch | InspectionSnapshotGet | ValueEvaluate | ValueChildren | ValueUpdate
  | MemoryRead | MemorySearch | MemoryCompare | RegisterRead | DisassemblyRead
  | InferiorIoRead | ExecutionWait | TrackingList | BreakpointList | SignalGet
  | AgentHypothesisCheck | KernelInspect | ArtifactGet | EventsWait => Read
  | OperationCancel => Control
  | TargetConnectRemote => Network
  | MemoryWrite | RegisterWrite | InferiorIoWrite | InferiorIoCloseStdin
  | InferiorIoSendEof | InferiorIoResize => TargetMutation
  | RawMi | RawConsole | KernelMonitor => Raw
  | TargetLaunch | TargetAttach | TargetOpenCore | TargetDetach | TargetRestart | TargetKill
  | ExecutionControl | BreakpointCreate | BreakpointUpdate | BreakpointDelete
  | TrackingAddExpression | TrackingAddMemory | TrackingRemove | SignalUpdate | AgentProbe
  | AgentExperiment | ValueCreate | ValueRelease => Control
  | SessionCreate | SessionClose | SessionForceAbort | SessionAcquireWriteLease
  | SessionReleaseWriteLease | SessionHandoff | SessionAttemptRecovery => Control
  end.

(** [command] is the bytes of a [&str]. *)
Definition framing_byte (c : ascii) : bool :=
  (c =? "000")%char || (c =? CR)%char || (c =? LF)%char.

Definition validate_console_command (command : string) : Result Error unit :=
  let bytes := bytes_of command in
  if bool_decide (bytes = []) || (16 * 1024 <? lenN bytes)%N || existsb framing_byte bytes
  then Err (Error_new Code.PolicyDenied
              "raw console command is empty, oversized, or multiline")
  else Ok tt.

(** The method table is a bijection between methods and wire names: every
    name decodes to its method, and a string decodes only to the method with
    that very name; any other string is an error, never a default method. *)
Theorem method_names_round_trip m value :
  try_from (as_str m) = Ok m /\ m ∈ ALL /\
  (try_from value = Ok m <-> value = as_str m).
Proof.
  assert (try_from (as_str m) = Ok m) as H by (unfold try_from; by rewrite as_str_found).
  split; [done|]. split; [destruct m; unfold ALL; set_solver|]. split; [|by intros ->].
  unfold try_from. destruct (List.find _ ALL) as [m'|] eqn:E; cbn; [|done].
  intros ?. simplify_eq. apply List.find_some in E as [_ E]. symmetry. by apply bool_decide_eq_true in E.
Qed.

(** [p] grants no more than [q]. *)
Definition weaker (p q : Profile) : Prop :=
  forall effect, allowed p effect = true -> allowed q effect = true.

(** No profile escalates.  For every method with the effect the gateway
    gives it: a read-only profile ([OfflineCore], [LiveObserver]) reaches
    nothing but reads, the management of its own session and, offline, opening
    a core; [DebugControl] never mutates the target, opens the network or
    sends raw commands; [LabMutation] never sends raw commands; and a method
    granted to one profile is granted to every profile above it, the offline
    core aside. *)
Theorem profiles_do_not_escalate p m :
  authorize_method p m (effect_for_method m) = Ok tt ->
  (p ∈ [OfflineCore; LiveObserver] ->
     effect_for_method m = Read \/ session_management m = true \/
     (p = OfflineCore /\ m = TargetOpenCore)) /\
  (p <> LabMutation -> p <> RawAdmin -> effect_for_method m ∈ [Read; Control]) /\
  (p <> RawAdmin -> effect_for_method m <> Raw /\ effect_for_method m <> HostMutation) /\
  (forall q, weaker p q -> m <> TargetOpenCore ->
     authorize_method q m (effect_for_method m) = Ok tt).
Proof.
  intros H. split_and!.
  - intros Hp. rewrite !elem_of_cons, elem_of_nil in Hp.
    destruct Hp as [->|[->|[]]]; destruct m; try (by left); try (right; by left); try done;
      right; right; done.
  - intros Hl Hr. destruct p; try done; destruct m; try done; cbn; set_solver.
  - intros Hr. destruct p; try done; destruct m; try done; cbn; done.
  - intros q Hw Hm. unfold authorize_method in *. rewrite (bool_decide_false _ Hm) in *.
    rewrite andb_false_r, orb_false_r in *. destruct (session_management m); [done|].
    unfold authorize in *. destruct (allowed p _) eqn:E; [|done]. by rewrite (Hw _ E).
Qed.

Lemma profiles_do_not_escalate_witness :
  effect_for_method MemoryWrite <> Raw /\
  authorize_method RawAdmin MemoryWrite (effect_for_method MemoryWrite) = Ok tt.
Proof.
  destruct (profiles_do_not_escalate LabMutation MemoryWrite) as (_ & _ & H & Hup).
  - reflexivity.
  - split; [apply H; discriminate|]. apply Hup; [by intros []|discriminate].
Defined.
