(* ===== verification/Protocol.v ===== *)
(** * Protocol: the canonical envelope ([crates/gdb-ai-core/src/protocol.rs])

    Requests, responses and errors as the gateway exchanges them, the response
    of a failed request, and the journal evidence promoted from a result. *)

From S2P Require Import Prelude Text Json Errors Domain Policy.
Import Method.

Definition API_VERSION : string := "gdb.ai/v1".
Definition MAX_EVIDENCE_ENTRIES : nat := 64.

Record ApiRequest := MkApiRequest {
  req_api_version : string;
  req_request_id : string;
  req_session_id : option string;
  req_method : CanonicalMethod;
  req_expected_revision : option N;
  req_idempotency_key : option string;
  req_parameters : Value
}.

Record ObservationContext := MkObservationContext {
  oc_observation_id : option string;
  oc_stop_id : StopId;
  oc_captured_revision : N;
  oc_execution_epoch : N;
  oc_inferior_id : option InferiorId;
  oc_thread_id : option ThreadId;
  oc_frame_id : option FrameId
}.

Inductive ResultProjection := Detailed | Compact.

Record ResultSemantics := MkResultSemantics {
  sem_context : option ObservationContext;
  sem_state : option Value;
  sem_complete : bool;
  sem_historical : bool;
  sem_projection : ResultProjection
}.

Record Warning := MkWarning { warn_code : string; warn_message : string }.
Record Evidence := MkEvidence { ev_kind : string; ev_uri : string }.

Record ApiError := MkApiError {
  api_code : Code.ErrorCode;
  api_message : string;
  api_retryable : bool;
  api_details : option Value
}.

Record ApiResponse := MkApiResponse {
  resp_api_version : string;
  resp_request_id : string;
  resp_session_id : option string;
  resp_revision : option N;
  resp_state : option SessionState;
  resp_result : option Value;
  resp_semantics : option ResultSemantics;
  resp_warnings : list Warning;
  resp_truncated : bool;
  resp_continuation : option Value;
  resp_artifacts : list string;
  resp_evidence : list Evidence;
  resp_error : option ApiError
}.

(** [From<Error> for ApiError]. *)
Definition api_error_of (e : Error) : ApiError :=
  MkApiError (err_code e) (err_message e) (err_retryable e) (err_details e).

Definition remove_field (field : string) (fields : list (string * Value))
    : list (string * Value) :=
  filter (fun kv => kv.1 <> field) fields.

(** [Map::insert]. *)
Definition set_field (key : string) (v : Value) (fields : list (string * Value))
    : list (string * Value) := (key, v) :: remove_field key fields.

(** [ApiError::compact]: the transport diagnostics of a GDB error go. *)
Definition api_error_compact (self : ApiError) : ApiError :=
  match api_details self with
  | Some (Object details) =>
      if decide (api_code self = Code.GdbError) then
        let details := foldl (fun acc field => remove_field field acc) details
                         ["record"; "token"; "evidence_seq"] in
        MkApiError (api_code self) (api_message self) (api_retryable self)
          (match details with [] => None | _ => Some (Object details) end)
      else self
  | _ => self
  end.

(** [ObservationContext::from_state]. *)
Definition observation_context_from_state (state : SessionState) : option ObservationContext :=
  match stop_id state with
  | None => None
  | Some stop =>
      let frame_id :=
        match stopped_thread_id state, stopped_frame state with
        | Some thread, Some frame => Some (FrameId_new thread stop (fr_level frame))
        | _, _ => None
        end in
      Some (MkObservationContext None stop (revision state) (execution_epoch state)
              (stopped_inferior_id state) (stopped_thread_id state) frame_id)
  end.

Definition evidence_journal (session_id : string) (sequence : N) : Evidence :=
  MkEvidence "journal-entry"
    ("gdbai://session/" +:+ session_id +:+ "/event/" +:+ dec sequence).

(** The two loops of the traversal, over the fields of an object and over the
    items of an array. *)
Definition visit_fields (visit : Value -> gset N -> gset N)
    : list (string * Value) -> gset N -> gset N :=
  fix go fields output :=
    match fields with
    | [] => output
    | (key, child) :: rest =>
        go rest
          (if decide (key = "evidence_seq") then
             match Json.as_u64 child with
             | Some sequence => {[ sequence ]} ∪ output
             | None => output
             end
           else visit child output)
    end.

Definition visit_items (visit : Value -> gset N -> gset N)
    : list Value -> gset N -> gset N :=
  fix go items output :=
    match items with
    | [] => output
    | child :: rest => go rest (visit child output)
    end.

(** The sequence numbers below a value, at most eight levels deep. *)
Fixpoint collect_evidence_sequences (value : Value) (depth : nat) (output : gset N)
    : gset N :=
  if (8 <=? depth)%nat || (MAX_EVIDENCE_ENTRIES <=? size output)%nat then output
  else
    match value with
    | Object fields =>
        visit_fields (fun child => collect_evidence_sequences child (S depth)) fields output
    | Array array =>
        if (length array <=? 128)%nat then
          visit_items (fun child => collect_evidence_sequences child (S depth)) array output
        else output
    | _ => output
    end.

(** The ascending order a [BTreeSet<u64>] iterates in. *)
Definition btree_set_iter (s : gset N) : list N := merge_sort N.le (elements s).

Definition result_evidence (session_id : string) (source : Value) : list Evidence :=
  evidence_journal session_id <$> btree_set_iter (collect_evidence_sequences source 0 ∅).

Definition response_evidence (session_id : option string) (source : option Value)
    : list Evidence :=
  match session_id, source with
  | Some session_id, Some source => result_evidence session_id source
  | _, _ => []
  end.

Definition result_warning (warning : Value) : option Warning :=
  match warning with
  | Str message => Some (MkWarning "PARTIAL_RESULT" message)
  | Object fields =>
      code ← (assoc "code" fields ≫= Json.as_str);
      message ← (assoc "message" fields ≫= Json.as_str);
      Some (MkWarning code message)
  | _ => None
  end.

Definition result_warnings (result : Value) : list Warning :=
  match Json.get "warnings" result ≫= Json.as_array with
  | Some items => omap result_warning items
  | None => []
  end.

Definition is_command_reply (value : Value) : bool :=
  match Json.get "record" value with Some (Object _) => true | _ => false end &&
  match Json.get "stream_records" value with Some (Array _) => true | _ => false end &&
  match Json.get "evidence_seq" value with
  | Some v => bool_decide (is_Some (Json.as_u64 v))
  | None => false
  end.

(** GDB prints exit codes in octal; recognized codes become decimal. *)
Definition projected_exit_code (exit_code : string) : Value :=
  let b := bytes_of exit_code in
  let parsed :=
    if decide (exit_code = "0") then Some 0%N
    else match strip_prefix (bytes_of "0") b with
         | Some octal => from_str_radix U32_MAX 8 octal
         | None => from_str_radix U32_MAX 10 b
         end in
  match parsed with Some n => uint n | None => Str exit_code end.

(** [ApiResponse::failure]. *)
Definition failure (request : ApiRequest) (error : Error) (state : option SessionState)
    : ApiResponse :=
  MkApiResponse API_VERSION (req_request_id request) (req_session_id request)
    (revision <$> state) state None None [] false None []
    (response_evidence (req_session_id request) (err_details error))
    (Some (api_error_of error)).

(** ** Evidence is bounded and sourced *)

(** Every key of an object is bound once, as in a [serde_json::Map]. *)
Definition every_field (P : Value -> Prop) : list (string * Value) -> Prop :=
  fix go fields := match fields with [] => True | (_, child) :: rest => P child /\ go rest end.

Definition every_item (P : Value -> Prop) : list Value -> Prop :=
  fix go items := match items with [] => True | child :: rest => P child /\ go rest end.

Fixpoint unique_keys (v : Value) : Prop :=
  match v with
  | Object fields => NoDup fields.*1 /\ every_field unique_keys fields
  | Array items => every_item unique_keys items
  | _ => True
  end.

(** A value that records the sequence number somewhere inside. *)
Inductive cites (sequence : N) : Value -> Prop :=
| cites_here fields v :
    ("evidence_seq", v) ∈ fields -> Json.as_u64 v = Some sequence ->
    cites sequence (Object fields)
| cites_field fields key v :
    (key, v) ∈ fields -> cites sequence v -> cites sequence (Object fields)
| cites_item items v : v ∈ items -> cites sequence v -> cites sequence (Array items).

Lemma size_insert_le (n : N) (s : gset N) : size ({[n]} ∪ s) <= S (size s).
Proof. rewrite size_union_alt, size_singleton. pose proof (subseteq_size (s ∖ {[n]}) s). set_solver by lia. Qed.

(** The bound [63 + fuel] of a traversal with [fuel] levels left. *)
Definition capped (fuel : nat) (before after : gset N) : Prop :=
  size after <= max (size before) (63 + fuel).

Lemma visit_items_capped visit P fuel items out :
  (forall v out, P v -> capped fuel out (visit v out)) -> every_item P items ->
  capped fuel out (visit_items visit items out).
Proof.
  intros Hv. unfold capped in *. revert out.
  induction items as [|v items IH]; intros out Hi; cbn in *; [lia|].
  destruct Hi as [Hx Hi]. specialize (IH (visit v out) Hi). specialize (Hv v out Hx). lia.
Qed.

(** Without the marker a loop stays under its children's cap; the marker
    itself, which occurs once, adds one. *)
Lemma visit_fields_capped visit P fuel fields out :
  (forall v out, P v -> capped fuel out (visit v out)) ->
  every_field P fields -> NoDup fields.*1 ->
  size (visit_fields visit fields out) <=
    max (size out) (63 + fuel) + (if decide ("evidence_seq" ∈ fields.*1) then 1 else 0).
Proof.
  intros Hv. unfold capped in *. revert out.
  induction fields as [|[k v] fields IH]; intros out Hf Hn; cbn [visit_fields]; [lia|].
  destruct Hf as [Hx Hf]. inversion Hn as [|? ? Hk Hn']; subst.
  destruct (decide (k = "evidence_seq")) as [->|Hne].
  - rewrite (decide_True (P := "evidence_seq" ∈ _)) by (cbn; set_solver).
    set (out1 := match Json.as_u64 v with Some _ => _ | None => _ end).
    assert (size out1 <= S (size out)).
    { subst out1. destruct (Json.as_u64 v); [apply size_insert_le|lia]. }
    specialize (IH out1 Hf Hn'). rewrite decide_False in IH by done. lia.
  - specialize (IH (visit v out) Hf Hn'). specialize (Hv v out Hx).
    destruct (decide ("evidence_seq" ∈ fields.*1)).
    + rewrite (decide_True (P := "evidence_seq" ∈ _)) by (cbn; set_solver). lia.
    + lia.
Qed.

Lemma collect_capped fuel v out :
  fuel <= 8 -> unique_keys v ->
  capped fuel out (collect_evidence_sequences v (8 - fuel) out).
Proof.
  revert v out. induction fuel as [|fuel IH]; intros v out Hf Hu; unfold capped.
  { destruct v; cbn; lia. }
  assert (forall v out, unique_keys v ->
    capped fuel out (collect_evidence_sequences v (S (8 - S fuel)) out)) as Hv.
  { intros v' out' H'. replace (S (8 - S fuel)) with (8 - fuel) by lia. apply IH; [lia|done]. }
  destruct v as [| | | | |items|fields]; cbn -[MAX_EVIDENCE_ENTRIES Nat.sub Nat.leb visit_items visit_fields];
    case_match eqn:Hstop; try lia; apply orb_false_iff in Hstop as [_ Hsize];
    apply Nat.leb_gt in Hsize; unfold MAX_EVIDENCE_ENTRIES in Hsize.
  - case_match; [|lia]. pose proof (visit_items_capped
      (fun child => collect_evidence_sequences child (S (8 - S fuel))) _ fuel items out Hv Hu) as Hc.
    unfold capped in Hc. lia.
  - destruct Hu as [Hn Hu]. pose proof (visit_fields_capped
      (fun child => collect_evidence_sequences child (S (8 - S fuel))) _ fuel fields out Hv Hu Hn) as Hc.
    case_decide; lia.
Qed.

Lemma visit_items_cited visit items out n :
  (forall v out, n ∈ visit v out -> n ∈ out \/ cites n v) ->
  n ∈ visit_items visit items out -> n ∈ out \/ exists v, v ∈ items /\ cites n v.
Proof.
  intros Hv. revert out. induction items as [|v items IH]; intros out H; cbn in H; [by left|].
  destruct (IH _ H) as [H1|(w & ? & ?)]; [|right; exists w; set_solver].
  destruct (Hv _ _ H1) as [|]; [by left|right; exists v; set_solver].
Qed.

Lemma visit_fields_cited visit fields out n :
  (forall v out, n ∈ visit v out -> n ∈ out \/ cites n v) ->
  n ∈ visit_fields visit fields out -> n ∈ out \/ cites n (Object fields).
Proof.
  intros Hv. revert out.
  assert (forall k v l, cites n (Object l) -> cites n (Object ((k, v) :: l))) as Hmore.
  { intros k v l H. inversion H; subst; [eapply cites_here|eapply cites_field];
      try done; by apply elem_of_cons; right. }
  induction fields as [|[k v] fields IH]; intros out H; cbn [visit_fields] in H; [by left|].
  destruct (IH _ H) as [H1|H1]; [|right; by apply Hmore].
  destruct (decide (k = "evidence_seq")) as [->|Hne].
  - destruct (Json.as_u64 v) as [m|] eqn:Em; [|by left].
    apply elem_of_union in H1 as [->%elem_of_singleton|H1]; [right|by left].
    by eapply cites_here; [apply elem_of_cons; left|].
  - destruct (Hv _ _ H1) as [|]; [by left|right].
    by eapply cites_field; [apply elem_of_cons; left|].
Qed.

Lemma collect_cited fuel v depth out n :
  8 - depth <= fuel -> n ∈ collect_evidence_sequences v depth out -> n ∈ out \/ cites n v.
Proof.
  revert v depth out. induction fuel as [|fuel IH]; intros v depth out Hf H.
  { left. destruct v; cbn -[Nat.leb MAX_EVIDENCE_ENTRIES visit_items visit_fields] in H;
      by rewrite (proj2 (Nat.leb_le 8 depth)) in H by lia. }
  destruct (decide (8 <= depth)) as [Hd|Hd].
  { eapply IH; [|exact H]. lia. }
  assert (forall v out, n ∈ collect_evidence_sequences v (S depth) out -> n ∈ out \/ cites n v)
    as Hv by (intros; eapply IH; [|done]; lia).
  destruct v as [| | | | |items|fields]; cbn -[Nat.leb MAX_EVIDENCE_ENTRIES visit_items visit_fields] in H;
    case_match; try (by left).
  - case_match; [|by left]. destruct (visit_items_cited _ _ _ _ Hv H) as [|(w & Hw & Hc)];
      [by left|right; by eapply cites_item].
  - exact (visit_fields_cited (fun child => collect_evidence_sequences child (S depth))
      _ _ _ Hv H).
Qed.

#[global] Instance evidence_journal_inj sid : Inj (=) (=) (evidence_journal sid).
Proof.
  intros m n E. unfold evidence_journal in E. injection E as E.
  do 3 apply append_inj_l in E. by apply (inj pretty) in E.
Qed.

Lemma btree_set_iter_perm s : btree_set_iter s ≡ₚ elements s.
Proof. apply merge_sort_Permutation. Qed.

(** The evidence of a failed response is truthful and bounded: every entry
    names the journal record of a sequence number that the details of the
    error really contain, no entry is listed twice, and there are at most 71
    entries (the cap of 64 and one more for each enclosing object). *)
Theorem failure_evidence_is_sourced request error state sid details :
  req_session_id request = Some sid -> err_details error = Some details ->
  unique_keys details ->
  let evidence := resp_evidence (failure request error state) in
  length evidence <= 71 /\ NoDup evidence /\
  (forall e, e ∈ evidence -> exists n, e = evidence_journal sid n /\ cites n details).
Proof.
  intros Hs Hd Hu. cbn. rewrite Hs, Hd. cbn. unfold result_evidence.
  split_and!.
  - rewrite length_fmap, btree_set_iter_perm.
    pose proof (collect_capped 8 details ∅ ltac:(lia) Hu) as H. unfold capped in H.
    change (8 - 8) with 0 in H. rewrite size_empty in H. exact H.
  - apply NoDup_fmap; [apply _|]. rewrite btree_set_iter_perm. apply NoDup_elements.
  - intros e (n & -> & Hn)%list_elem_of_fmap. exists n. split; [done|].
    rewrite btree_set_iter_perm, elem_of_elements in Hn.
    destruct (collect_cited 8 details 0 ∅ n) as [H|H]; [lia|done| |done]. set_solver.
Qed.

Definition sample_request : ApiRequest :=
  MkApiRequest API_VERSION "r1" (Some "sess_a1") MemoryRead None None Null.

(** An error whose details hold the evidence of three commands. *)
Definition sample_details : Value :=
  Object [("commands", Array [Object [("evidence_seq", Int 7)]; Object [("evidence_seq", Int 4)]]);
          ("evidence_seq", Int 9)].

Definition sample_error : Error := with_details sample_details (Error_new Code.GdbError "e").

Lemma failure_evidence_is_sourced_witness :
  resp_evidence (failure sample_request sample_error None) =
    [evidence_journal "sess_a1" 4; evidence_journal "sess_a1" 7; evidence_journal "sess_a1" 9] /\
  length (resp_evidence (failure sample_request sample_error None)) <= 71.
Proof.
  destruct (failure_evidence_is_sourced sample_request sample_error None "sess_a1" sample_details)
    as (H & _ & _).
  - reflexivity.
  - reflexivity.
  - cbn. split_and!; try done; repeat constructor; set_solver.
  - split; [vm_compute; reflexivity|exact H].
Defined.

(** Sixty-four cited commands below an object that cites its own record. *)
Definition crowded_details : Value :=
  Object [("commands", Array ((fun n => Object [("evidence_seq", Int (Z.of_nat n))]) <$> seq 1 64));
          ("evidence_seq", Int 1000)].

(** The cap on promoted evidence can be exceeded: [MAX_EVIDENCE_ENTRIES] is
    checked on the way into a value and not before an insertion, so a result
    whose children already fill the cap adds its own record, the 65th. *)
Theorem evidence_can_exceed_the_cap :
  unique_keys crowded_details /\
  length (result_evidence "sess_a1" crowded_details) = S MAX_EVIDENCE_ENTRIES.
Proof.
  split; [|vm_compute; reflexivity].
  cbn -[seq]. split; [repeat constructor; set_solver|]. split_and!; try done.
  generalize (seq 1 64). intros l. induction l as [|n l IH]; cbn; [done|].
  split; [|exact IH]. repeat constructor. set_solver.
Qed.
