(* ===== verification/Contracts.v ===== *)
(** * Contracts: the shape of every method's parameters
    ([crates/gdb-ai-core/src/contracts.rs])

    One recursive description of a parameter drives both its validation at run
    time and the JSON Schema that is published for it. *)
From S2P Require Import Prelude Text Json Errors Policy Protocol.

Import Method.

(** ** Kinds *)

Inductive ParameterKind :=
| PString
| PBoolean
| PUnsigned
| PPositive
| PStringArray
| PShape (contract : ObjectContract)
| PArrayOf (kind : ParameterKind)
| PBoundedArray (kind : ParameterKind) (maximum : nat)
| PMapOf (kind : ParameterKind)
| POneOf (kinds : list ParameterKind)
| PBooleanOrEnum (values : list string)
| PEnum (values : list string)
with ParameterField :=
| MkParameterField (name : string) (kind : ParameterKind) (required : bool)
with ObjectContract :=
| MkObjectContract (fields : list ParameterField) (min_properties : nat)
    (exactly_one_of : list string).

Definition pf_name (f : ParameterField) : string := let 'MkParameterField n _ _ := f in n.
Definition pf_kind (f : ParameterField) : ParameterKind := let 'MkParameterField _ k _ := f in k.
Definition pf_required (f : ParameterField) : bool := let 'MkParameterField _ _ r := f in r.

Definition optional (name : string) (kind : ParameterKind) : ParameterField :=
  MkParameterField name kind false.
Definition required (name : string) (kind : ParameterKind) : ParameterField :=
  MkParameterField name kind true.

Definition ObjectContract_new (fields : list ParameterField) (min_properties : nat)
    (exactly_one_of : list string) : ObjectContract :=
  MkObjectContract fields min_properties exactly_one_of.

(** ** Acceptance *)

Definition contains_key (name : string) (object : list (string * Value)) : bool :=
  bool_decide (is_Some (assoc name object)).

(** How many of [names] the object has. *)
Definition present (names : list string) (object : list (string * Value)) : nat :=
  length (List.filter (fun name => contains_key name object) names).

Definition is_string (v : Value) : bool := bool_decide (is_Some (Json.as_str v)).
Definition is_boolean (v : Value) : bool := bool_decide (is_Some (Json.as_bool v)).

Definition in_enum (values : list string) (v : Value) : bool :=
  match Json.as_str v with Some s => bool_decide (s ∈ values) | None => false end.

(** [fields.iter().find(name).is_some_and(kind.accepts(value))] *)
Definition field_accepts (accepts : ParameterKind -> Value -> bool) (name : string) (v : Value)
    : list ParameterField -> bool :=
  fix go fields :=
    match fields with
    | [] => false
    | MkParameterField n kind _ :: r => if decide (n = name) then accepts kind v else go r
    end.

Definition missing_required (fields : list ParameterField) (object : list (string * Value)) : bool :=
  existsb (fun f => pf_required f && negb (contains_key (pf_name f) object)) fields.

(** [ObjectContract::accepts] *)
Definition object_accepts (accepts : ParameterKind -> Value -> bool) (c : ObjectContract)
    (v : Value) : bool :=
  match c with
  | MkObjectContract fields min_properties exactly_one_of =>
      match v with
      | Object object =>
          if (length object <? min_properties)%nat || missing_required fields object ||
             (negb (bool_decide (exactly_one_of = [])) &&
              negb (present exactly_one_of object =? 1)%nat)
          then false
          else forallb (fun p => field_accepts accepts p.1 p.2 fields) object
      | _ => false
      end
  end.

Definition count {A} (p : A -> bool) (l : list A) : nat := length (List.filter p l).

Fixpoint accepts (self : ParameterKind) (v : Value) {struct self} : bool :=
  match self with
  | PString => is_string v
  | PBoolean => is_boolean v
  | PUnsigned => bool_decide (is_Some (Json.as_u64 v))
  | PPositive => match Json.as_u64 v with Some n => (0 <? n)%N | None => false end
  | PStringArray =>
      match v with Array items => forallb is_string items | _ => false end
  | PShape contract => object_accepts accepts contract v
  | PArrayOf kind => match v with Array items => forallb (accepts kind) items | _ => false end
  | PBoundedArray kind maximum =>
      match v with
      | Array items => (length items <=? maximum)%nat && forallb (accepts kind) items
      | _ => false
      end
  | PMapOf kind =>
      match v with Object object => forallb (fun p => accepts kind p.2) object | _ => false end
  | POneOf kinds => (count (fun kind => accepts kind v) kinds =? 1)%nat
  | PBooleanOrEnum values => is_boolean v || in_enum values v
  | PEnum values => in_enum values v
  end.

Definition description (self : ParameterKind) : string :=
  match self with
  | PString => "a string"
  | PBoolean => "a boolean"
  | PUnsigned => "an unsigned integer"
  | PPositive => "a positive integer"
  | PStringArray => "an array of strings"
  | PShape _ => "a supported object"
  | PArrayOf _ => "an array of supported values"
  | PBoundedArray _ maximum =>
      "an array of at most " +:+ dec (N.of_nat maximum) +:+ " supported values"
  | PMapOf _ => "an object with supported values"
  | POneOf _ => "one supported shape"
  | PBooleanOrEnum values => "a boolean or one of " +:+ String.concat ", " values
  | PEnum values => "one of " +:+ String.concat ", " values
  end.

(** ** Schemas *)

Definition typed (t : string) : Value := Object [("type", Str t)].
Definition enumeration (values : list string) : Value :=
  Object [("type", Str "string"); ("enum", Array (Str <$> values))].
Definition array_schema (items : Value) : Value := Object [("type", Str "array"); ("items", items)].

(** [schema[key] = value] on an object. *)
Definition put (key : string) (v : Value) (schema : Value) : Value :=
  match schema with Object fields => Object (set_field key v fields) | _ => schema end.

(** The properties and the required names of a list of fields. *)
Definition properties_of (schema : ParameterKind -> Value)
    : list ParameterField -> list (string * Value) -> list (string * Value) :=
  fix go fields properties :=
    match fields with
    | [] => properties
    | MkParameterField name kind _ :: r => go r (set_field name (schema kind) properties)
    end.

Definition required_of (fields : list ParameterField) : list Value :=
  (fun f => Str (pf_name f)) <$> List.filter pf_required fields.

Definition require_one (name : string) : Value := Object [("required", Array [Str name])].

Definition closed_object (properties : list (string * Value)) (required : list Value) : Value :=
  Object [("type", Str "object"); ("properties", Object properties);
          ("required", Array required); ("additionalProperties", Bool false)].

(** [ObjectContract::schema] *)
Definition object_schema (schema : ParameterKind -> Value) (c : ObjectContract) : Value :=
  match c with
  | MkObjectContract fields min_properties exactly_one_of =>
      let base := closed_object (properties_of schema fields []) (required_of fields) in
      let base := if (0 <? min_properties)%nat
                  then put "minProperties" (uint (N.of_nat min_properties)) base else base in
      if bool_decide (exactly_one_of = []) then base
      else put "oneOf" (Array (require_one <$> exactly_one_of)) base
  end.

Fixpoint schema (self : ParameterKind) : Value :=
  match self with
  | PString => typed "string"
  | PBoolean => typed "boolean"
  | PUnsigned => Object [("type", Str "integer"); ("minimum", Int 0)]
  | PPositive => Object [("type", Str "integer"); ("minimum", Int 1)]
  | PStringArray => array_schema (typed "string")
  | PShape contract => object_schema schema contract
  | PArrayOf kind => array_schema (schema kind)
  | PBoundedArray kind maximum =>
      put "maxItems" (uint (N.of_nat maximum)) (array_schema (schema kind))
  | PMapOf kind => Object [("type", Str "object"); ("additionalProperties", schema kind)]
  | POneOf kinds => Object [("oneOf", Array (schema <$> kinds))]
  | PBooleanOrEnum values => Object [("oneOf", Array [typed "boolean"; enumeration values])]
  | PEnum values => enumeration values
  end.

(** ** Methods *)

Record MethodContract := MkMethodContract {
  mc_fields : list ParameterField;
  mc_context : bool;
  mc_exactly_one_of : list (list string)
}.

Definition plain (fields : list ParameterField) : MethodContract := MkMethodContract fields false [].
Definition contextual (fields : list ParameterField) : MethodContract :=
  MkMethodContract fields true [].

Definition exactly_one (fields : list string) (self : MethodContract) : MethodContract :=
  MkMethodContract (mc_fields self) (mc_context self) (mc_exactly_one_of self ++ [fields]).

Definition COMMON_FIELDS : list ParameterField := [
  optional "accept_latest_revision" PBoolean;
  optional "lease_id" PString
].

Definition CONTEXT_FIELDS : list ParameterField := [
  optional "stop_id" PString;
  optional "accept_current_stop" PBoolean;
  optional "inferior_id" PString;
  optional "thread_id" PString;
  optional "frame_id" PString;
  optional "frame_level" PUnsigned
].

Definition fields (self : MethodContract) : list ParameterField :=
  COMMON_FIELDS ++ (if mc_context self then CONTEXT_FIELDS else []) ++ mc_fields self.

(** [MethodContract::schema] *)
Definition method_schema (self : MethodContract) : Value :=
  let base := closed_object (properties_of schema (fields self) []) (required_of (fields self)) in
  if bool_decide (mc_exactly_one_of self = []) then base
  else put "allOf" (Array ((fun names => Object [("oneOf", Array (require_one <$> names))]) <$>
                             mc_exactly_one_of self)) base.

Definition find_field (name : string) (l : list ParameterField) : option ParameterField :=
  List.find (fun f => bool_decide (pf_name f = name)) l.

Definition invalid {A} (message : string) : Result Error A :=
  Err (Error_new Code.InvalidArgument message).

(** The loop over the parameters that were given. *)
Fixpoint check_given (self : MethodContract) (object : list (string * Value)) : Result Error unit :=
  match object with
  | [] => Ok tt
  | (name, value) :: rest =>
      field ← ok_or (find_field name (fields self))
        (Error_new Code.InvalidArgument ("unknown parameter " +:+ name));
      if accepts (pf_kind field) value then check_given self rest
      else invalid ("parameter " +:+ name +:+ " must be " +:+ description (pf_kind field))
  end.

Fixpoint check_required (l : list ParameterField) (object : list (string * Value))
    : Result Error unit :=
  match l with
  | [] => Ok tt
  | field :: rest =>
      if pf_required field && negb (contains_key (pf_name field) object)
      then invalid (pf_name field +:+ " is required")
      else check_required rest object
  end.

Fixpoint check_exactly_one (groups : list (list string)) (object : list (string * Value))
    : Result Error unit :=
  match groups with
  | [] => Ok tt
  | names :: rest =>
      if (present names object =? 1)%nat then check_exactly_one rest object
      else invalid ("exactly one of " +:+ String.concat ", " names +:+ " is required")
  end.

(** [MethodContract::validate] *)
Definition validate (self : MethodContract) (parameters : Value) : Result Error unit :=
  object ← ok_or (Json.as_object parameters)
    (Error_new Code.InvalidArgument "parameters must be an object");
  _ ← check_given self object;
  _ ← check_required (fields self) object;
  check_exactly_one (mc_exactly_one_of self) object.

(** ** The parameters of every canonical method
    ([crates/gdb-ai-core/src/contracts.rs])

    The constants of the source and the contract of each method, in its order. *)

Import Method.

Definition STRING_KIND : ParameterKind :=
  PString.
Definition WAIT_FIELDS : list ParameterField :=
  [required "until" (PEnum ["accepted"; "running"; "stopped"; "settled"; "snapshot";
    "exited"]); optional "timeout_ms" PPositive].
Definition WAIT_OBJECT : ObjectContract :=
  ObjectContract_new WAIT_FIELDS 0 [].
Definition WAIT_KIND : ParameterKind :=
  PShape WAIT_OBJECT.
Definition INFERIOR_INPUT_FIELDS : list ParameterField :=
  [optional "text" PString; optional "data_base64" PString].
Definition INFERIOR_INPUT_OBJECT : ObjectContract :=
  ObjectContract_new INFERIOR_INPUT_FIELDS 0 ["text"; "data_base64"].
Definition INFERIOR_INPUT_KIND : ParameterKind :=
  PShape INFERIOR_INPUT_OBJECT.
Definition PROBE_TRIGGER_FIELDS : list ParameterField :=
  [required "command" PStringArray; optional "cwd" PString].
Definition PROBE_TRIGGER_OBJECT : ObjectContract :=
  ObjectContract_new PROBE_TRIGGER_FIELDS 0 [].
Definition PROBE_TRIGGER_KIND : ParameterKind :=
  PShape PROBE_TRIGGER_OBJECT.
Definition IO_WRITE_STEP_FIELDS : list ParameterField :=
  [optional "wait_for" PString; optional "text" PString; optional "data_base64" PString].
Definition IO_WRITE_STEP_OBJECT : ObjectContract :=
  ObjectContract_new IO_WRITE_STEP_FIELDS 0 ["text"; "data_base64"].
Definition IO_WRITE_STEP_KIND : ParameterKind :=
  PShape IO_WRITE_STEP_OBJECT.
Definition IO_WRITE_STEPS_KIND : ParameterKind :=
  PArrayOf IO_WRITE_STEP_KIND.
Definition ENDPOINT_FIELDS : list ParameterField :=
  [required "host" PString; required "port" PPositive].
Definition ENDPOINT_OBJECT : ObjectContract :=
  ObjectContract_new ENDPOINT_FIELDS 0 [].
Definition ENDPOINT_KINDS : list ParameterKind :=
  [PString; (PShape ENDPOINT_OBJECT)].
Definition ENDPOINT_KIND : ParameterKind :=
  POneOf ENDPOINT_KINDS.
Definition SOURCE_FIELDS : list ParameterField :=
  [required "path" PString; required "line" PPositive].
Definition SOURCE_OBJECT : ObjectContract :=
  ObjectContract_new SOURCE_FIELDS 0 [].
Definition SOURCE_KIND : ParameterKind :=
  PShape SOURCE_OBJECT.
Definition MODULE_OFFSET_FIELDS : list ParameterField :=
  [required "module" PString; required "offset" PString].
Definition MODULE_OFFSET_OBJECT : ObjectContract :=
  ObjectContract_new MODULE_OFFSET_FIELDS 0 [].
Definition MODULE_OFFSET_KIND : ParameterKind :=
  PShape MODULE_OFFSET_OBJECT.
Definition KERNEL_MODULE_OFFSET_FIELDS : list ParameterField :=
  [required "module" PString; required "offset" PString].
Definition KERNEL_MODULE_OFFSET_OBJECT : ObjectContract :=
  ObjectContract_new KERNEL_MODULE_OFFSET_FIELDS 0 [].
Definition KERNEL_MODULE_OFFSET_KIND : ParameterKind :=
  PShape KERNEL_MODULE_OFFSET_OBJECT.
Definition LOCATION_FIELDS : list ParameterField :=
  [optional "function" PString; optional "address" PString;
    optional "expression" PString; optional "source" SOURCE_KIND;
    optional "module_offset" MODULE_OFFSET_KIND].
Definition LOCATION_OBJECT : ObjectContract :=
  ObjectContract_new LOCATION_FIELDS 1 ["function"; "address"; "expression"; "source";
    "module_offset"].
Definition LOCATION_KIND : ParameterKind :=
  PShape LOCATION_OBJECT.
Definition AROUND_FIELDS : list ParameterField :=
  [optional "expression" PString; optional "before_instructions" PUnsigned;
    optional "after_instructions" PUnsigned].
Definition AROUND_OBJECT : ObjectContract :=
  ObjectContract_new AROUND_FIELDS 0 [].
Definition AROUND_KIND : ParameterKind :=
  PShape AROUND_OBJECT.
Definition RANGE_FIELDS : list ParameterField :=
  [required "start" PString; required "end" PString].
Definition RANGE_OBJECT : ObjectContract :=
  ObjectContract_new RANGE_FIELDS 0 [].
Definition RANGE_KIND : ParameterKind :=
  PShape RANGE_OBJECT.
Definition EXPECTED_FIELDS : list ParameterField :=
  [optional "bytes_base64" PString; optional "sha256" PString].
Definition EXPECTED_OBJECT : ObjectContract :=
  ObjectContract_new EXPECTED_FIELDS 1 ["bytes_base64"; "sha256"].
Definition EXPECTED_KIND : ParameterKind :=
  PShape EXPECTED_OBJECT.
Definition PATTERN_FIELDS : list ParameterField :=
  [optional "kind" (PEnum ["bytes"; "text"]); optional "hex" PString;
    optional "data_base64" PString; optional "text" PString].
Definition PATTERN_OBJECT : ObjectContract :=
  ObjectContract_new PATTERN_FIELDS 1 ["hex"; "data_base64"; "text"].
Definition PATTERN_KIND : ParameterKind :=
  PShape PATTERN_OBJECT.
Definition BUDGET_FIELDS : list ParameterField :=
  [optional "max_calls" PPositive; optional "max_frames" PPositive;
    optional "max_values" PPositive; optional "max_memory_bytes" PPositive;
    optional "max_instructions" PPositive; optional "max_context_bytes" PPositive;
    optional "wall_time_ms" PPositive].
Definition BUDGET_OBJECT : ObjectContract :=
  ObjectContract_new BUDGET_FIELDS 0 [].
Definition BUDGET_KIND : ParameterKind :=
  PShape BUDGET_OBJECT.
Definition CAPTURE_STACK_FIELDS : list ParameterField :=
  [optional "limit" PPositive].
Definition CAPTURE_STACK_OBJECT : ObjectContract :=
  ObjectContract_new CAPTURE_STACK_FIELDS 0 [].
Definition CAPTURE_EXPRESSION_FIELDS : list ParameterField :=
  [required "expression" PString].
Definition CAPTURE_EXPRESSION_OBJECT : ObjectContract :=
  ObjectContract_new CAPTURE_EXPRESSION_FIELDS 0 [].
Definition CAPTURE_STACK_ITEM_FIELDS : list ParameterField :=
  [required "stack" (PShape CAPTURE_STACK_OBJECT)].
Definition CAPTURE_STACK_ITEM_OBJECT : ObjectContract :=
  ObjectContract_new CAPTURE_STACK_ITEM_FIELDS 0 [].
Definition CAPTURE_MEMORY_FIELDS : list ParameterField :=
  [required "address_expression" PString; required "length" PPositive].
Definition CAPTURE_MEMORY_OBJECT : ObjectContract :=
  ObjectContract_new CAPTURE_MEMORY_FIELDS 0 [].
Definition CAPTURE_MEMORY_ITEM_FIELDS : list ParameterField :=
  [required "memory" (PShape CAPTURE_MEMORY_OBJECT)].
Definition CAPTURE_MEMORY_ITEM_OBJECT : ObjectContract :=
  ObjectContract_new CAPTURE_MEMORY_ITEM_FIELDS 0 [].
Definition CAPTURE_ITEM_KINDS : list ParameterKind :=
  [(PShape CAPTURE_EXPRESSION_OBJECT); (PShape CAPTURE_STACK_ITEM_OBJECT);
    (PShape CAPTURE_MEMORY_ITEM_OBJECT)].
Definition CAPTURE_ITEM_KIND : ParameterKind :=
  POneOf CAPTURE_ITEM_KINDS.
Definition CAPTURE_KIND : ParameterKind :=
  PArrayOf CAPTURE_ITEM_KIND.
Definition ENVIRONMENT_KIND : ParameterKind :=
  PMapOf STRING_KIND.
Definition INSPECTION_VIEWS : list string :=
  ["stop_context"; "target"; "capabilities"; "providers"; "crash"; "threads"; "stack"; "frame";
    "locals"; "arguments"; "registers"; "modules"; "breakpoints"; "symbols"; "source";
    "mappings"; "signals"; "evaluate"; "memory"; "disassembly"; "tracked"; "diff"].
Definition INSPECTION_BATCH_ITEM_FIELDS : list ParameterField :=
  [optional "name" PString; required "view" (PEnum INSPECTION_VIEWS);
    optional "inferior_id" PString; optional "thread_id" PString;
    optional "frame_id" PString; optional "frame_level" PUnsigned;
    optional "limit" PUnsigned; optional "stack_depth" PPositive;
    optional "include_locals" PBoolean; optional "offset" PUnsigned;
    optional "roles" PStringArray; optional "query" PString;
    optional "kind" (PEnum ["functions"; "types"; "variables"]);
    optional "type_layout" PString; optional "path" PString; optional "line" PPositive;
    optional "before_lines" PUnsigned; optional "after_lines" PUnsigned;
    optional "profile" (PEnum ["minimal"; "brief"; "standard"; "deep"]);
    optional "around" AROUND_KIND; optional "range" RANGE_KIND;
    optional "include_bytes" PBoolean; optional "include_source" PBoolean;
    optional "expression" PString; optional "expressions" PStringArray;
    optional "address" PString; optional "address_expression" PString;
    optional "length" PPositive; optional "allow_partial" PBoolean;
    optional "encoding" (PEnum ["hex"; "base64"]); optional "before_snapshot_id" PString;
    optional "after_snapshot_id" PString].
Definition INSPECTION_BATCH_ITEM_OBJECT : ObjectContract :=
  ObjectContract_new INSPECTION_BATCH_ITEM_FIELDS 0 [].
Definition INSPECTION_BATCH_ITEM_KIND : ParameterKind :=
  PShape INSPECTION_BATCH_ITEM_OBJECT.
Definition INSPECTION_BATCH_KIND : ParameterKind :=
  PArrayOf INSPECTION_BATCH_ITEM_KIND.
Definition TURN_INSPECTION_KIND : ParameterKind :=
  INSPECTION_BATCH_KIND.
Definition SIGNAL_POLICY_FIELDS : list ParameterField :=
  [required "stop" PBoolean; required "print" PBoolean; required "pass" PBoolean].
Definition SIGNAL_POLICY_OBJECT : ObjectContract :=
  ObjectContract_new SIGNAL_POLICY_FIELDS 0 [].
Definition SIGNAL_POLICY_KIND : ParameterKind :=
  PShape SIGNAL_POLICY_OBJECT.
Definition SIGNALS_KIND : ParameterKind :=
  PMapOf SIGNAL_POLICY_KIND.
Definition RAW_MI_ARGUMENT_FIELDS : list ParameterField :=
  [optional "kind" (PEnum ["bare"; "string"]); required "value" PString].
Definition RAW_MI_ARGUMENT_OBJECT : ObjectContract :=
  ObjectContract_new RAW_MI_ARGUMENT_FIELDS 0 [].
Definition RAW_MI_ARGUMENT_KINDS : list ParameterKind :=
  [PString; (PShape RAW_MI_ARGUMENT_OBJECT)].
Definition RAW_MI_ARGUMENT_KIND : ParameterKind :=
  POneOf RAW_MI_ARGUMENT_KINDS.
Definition RAW_MI_ARGUMENTS_KIND : ParameterKind :=
  PArrayOf RAW_MI_ARGUMENT_KIND.

(** [CanonicalMethod::contract] *)
Definition contract (self : CanonicalMethod) : MethodContract :=
  match self with
  | SessionCreate =>
      plain [optional "profile" (PEnum ["offline_core"; "live_observer"; "debug_control";
        "lab_mutation"; "raw_admin"])]
  | SessionGet | SessionList | SessionClose | SessionForceAbort | SessionReleaseWriteLease 
  | SessionAttemptRecovery | SessionCapabilities | SessionProviders | TargetDetach | BreakpointList 
  | InferiorIoCloseStdin | InferiorIoSendEof | TrackingList | SignalGet =>
      plain []
  | SessionHandoff =>
      plain [required "to" PString]
  | SessionAcquireWriteLease =>
      plain [optional "force" PBoolean]
  | SessionTranscript =>
      plain [optional "offset" PUnsigned; optional "max_bytes" PUnsigned]
  | SessionEvent =>
      exactly_one ["event_seq"; "event_seqs"] (plain [optional "event_seq" PPositive;
        optional "event_seqs" (PBoundedArray PPositive MAX_EVIDENCE_ENTRIES)])
  | OperationGet =>
      plain [required "operation_id" PString]
  | OperationCancel =>
      plain [required "operation_id" PString; required "mode" (PEnum ["interrupt_target";
        "close_session"])]
  | TargetLaunch =>
      plain [required "program" PString; optional "argv" PStringArray;
        optional "cwd" PString; optional "environment" ENVIRONMENT_KIND;
        optional "environment_mode" (PEnum ["clean"; "inherited"]);
        optional "aslr" (PEnum ["preserve"; "disable"]);
        optional "stop" (PEnum ["first_instruction"; "main"; "none"; "entry"]);
        optional "follow_fork" (PEnum ["parent"; "child"]);
        optional "detach_on_fork" PBoolean;
        optional "follow_exec" (PEnum ["same-inferior"]); optional "wait" WAIT_KIND;
        optional "inspect" TURN_INSPECTION_KIND;
        optional "breakpoints" (PBoundedArray LOCATION_KIND 16)]
  | TargetAttach =>
      plain [required "pid" PUnsigned; optional "executable" PString;
        optional "wait" WAIT_KIND]
  | TargetConnectRemote =>
      plain [optional "mode" (PEnum ["remote"; "extended-remote"]);
        required "endpoint" ENDPOINT_KIND; optional "executable" PString;
        optional "wait" WAIT_KIND]
  | TargetOpenCore =>
      plain [required "executable" PString; required "core" PString]
  | TargetRestart =>
      plain [optional "stop" (PEnum ["first_instruction"; "main"; "none"; "entry"]);
        optional "stop_at_entry" PBoolean; optional "wait" WAIT_KIND;
        optional "inspect" TURN_INSPECTION_KIND]
  | TargetKill =>
      plain [optional "wait" WAIT_KIND]
  | ExecutionControl =>
      contextual [required "action" (PEnum ["continue"; "interrupt"; "step"; "next"; "finish";
        "step_instruction"; "next_instruction"; "until"]); optional "location" PString;
        optional "wait" WAIT_KIND; optional "input" INFERIOR_INPUT_KIND;
        optional "inspect" TURN_INSPECTION_KIND]
  | ExecutionWait =>
      plain [optional "operation_id" PString; required "wait" WAIT_KIND;
        optional "input" INFERIOR_INPUT_KIND; optional "inspect" TURN_INSPECTION_KIND]
  | BreakpointCreate =>
      exactly_one ["location"; "function"; "address"; "expression"; "source"; "module_offset";
        "catch"] (plain [optional "kind" (PEnum ["software"; "hardware"; "temporary";
        "instruction"; "watchpoint"; "read_watchpoint"; "access_watchpoint"; "catchpoint"]);
        optional "location" LOCATION_KIND; optional "function" PString;
        optional "address" PString; optional "expression" PString;
        optional "source" SOURCE_KIND; optional "module_offset" MODULE_OFFSET_KIND;
        optional "catch" PString; optional "temporary" PBoolean;
        optional "hardware" (PBooleanOrEnum ["auto"; "required"]);
        optional "pending" PBoolean; optional "condition" PString;
        optional "ignore_count" PUnsigned; optional "thread_id" PString;
        optional "inferior_id" PString])
  | BreakpointUpdate =>
      plain [optional "breakpoint_id" PString; optional "backend_number" PString;
        optional "enabled" PBoolean; optional "condition" PString;
        optional "ignore_count" PUnsigned]
  | BreakpointDelete =>
      plain [optional "breakpoint_id" PString; optional "backend_number" PString]
  | InspectionGet =>
      contextual [required "view" (PEnum INSPECTION_VIEWS); optional "limit" PUnsigned;
        optional "stack_depth" PPositive; optional "include_locals" PBoolean;
        optional "offset" PUnsigned; optional "roles" PStringArray;
        optional "query" PString; optional "kind" (PEnum ["functions"; "types";
        "variables"]); optional "type_layout" PString; optional "path" PString;
        optional "line" PPositive; optional "before_lines" PUnsigned;
        optional "after_lines" PUnsigned; optional "profile" (PEnum ["minimal"; "brief";
        "standard"; "deep"]); optional "around" AROUND_KIND; optional "range" RANGE_KIND;
        optional "include_bytes" PBoolean; optional "include_source" PBoolean;
        optional "expression" PString; optional "expressions" PStringArray;
        optional "address" PString; optional "address_expression" PString;
        optional "length" PPositive; optional "allow_partial" PBoolean;
        optional "encoding" (PEnum ["hex"; "base64"]);
        optional "before_snapshot_id" PString; optional "after_snapshot_id" PString]
  | InspectionSnapshot =>
      contextual [optional "profile" (PEnum ["minimal"; "brief"; "standard"; "deep"]);
        optional "limit" PUnsigned; optional "roles" PStringArray;
        optional "around" AROUND_KIND; optional "range" RANGE_KIND;
        optional "include_bytes" PBoolean; optional "include_source" PBoolean;
        optional "inspect" TURN_INSPECTION_KIND]
  | InspectionDiff =>
      plain [required "before_snapshot_id" PString; required "after_snapshot_id" PString]
  | InspectionBatch =>
      contextual [required "requests" INSPECTION_BATCH_KIND]
  | InspectionSnapshotGet =>
      plain [required "snapshot_id" PString]
  | ValueEvaluate =>
      exactly_one ["expression"; "expressions"] (contextual [optional "expression" PString;
        optional "expressions" PStringArray; optional "side_effects" (PEnum ["deny";
        "allow"])])
  | ValueCreate =>
      contextual [required "expression" PString]
  | ValueChildren =>
      contextual [required "value_id" PString; optional "offset" PUnsigned;
        optional "limit" PUnsigned]
  | ValueUpdate | ValueRelease =>
      contextual [required "value_id" PString]
  | MemoryRead =>
      exactly_one ["address"; "address_expression"] (contextual [optional "address" PString;
        optional "address_expression" PString; required "length" PUnsigned;
        optional "allow_partial" PBoolean; optional "encoding" (PEnum ["hex"; "base64"]);
        optional "acknowledge_target_effects" PBoolean; optional "volatile" PBoolean])
  | MemoryWrite =>
      exactly_one ["text"; "data_base64"] (contextual [required "address" PString;
        optional "text" PString; optional "data_base64" PString;
        required "expected" EXPECTED_KIND])
  | MemorySearch =>
      contextual [required "start" PString; required "length" PUnsigned;
        required "pattern" PATTERN_KIND; optional "max_results" PUnsigned;
        optional "acknowledge_target_effects" PBoolean; optional "volatile" PBoolean]
  | MemoryCompare =>
      contextual [required "address" PString; required "length" PUnsigned;
        required "expected" EXPECTED_KIND; optional "acknowledge_target_effects" PBoolean;
        optional "volatile" PBoolean]
  | RegisterRead =>
      contextual [optional "roles" PStringArray]
  | RegisterWrite =>
      contextual [required "register" PString; required "value" PString;
        required "reason" PString]
  | DisassemblyRead =>
      contextual [optional "around" AROUND_KIND; optional "range" RANGE_KIND;
        optional "include_bytes" PBoolean; optional "include_source" PBoolean]
  | InferiorIoRead =>
      plain [optional "stream" (PEnum ["pty"; "target"; "console"; "log"]);
        optional "after_offset" PUnsigned; optional "max_bytes" PUnsigned]
  | InferiorIoWrite =>
      exactly_one ["text"; "data_base64"; "steps"] (plain [optional "text" PString;
        optional "data_base64" PString; optional "steps" IO_WRITE_STEPS_KIND;
        optional "timeout_ms" PPositive])
  | InferiorIoResize =>
      plain [required "rows" PUnsigned; required "columns" PUnsigned]
  | TrackingAddExpression =>
      plain [required "expression" PString; optional "max_value_bytes" PUnsigned]
  | TrackingAddMemory =>
      plain [required "address_expression" PString; required "length" PUnsigned;
        optional "max_history" PUnsigned]
  | TrackingRemove =>
      plain [required "tracking_id" PString]
  | SignalUpdate =>
      plain [required "signals" SIGNALS_KIND]
  | AgentHypothesisCheck =>
      contextual [optional "claim" PString; required "expression" PString;
        optional "operator" (PEnum ["equals"; "not_equals"; "contains"; "greater_than";
        "less_than"]); required "expected" PString]
  | AgentProbe | AgentExperiment =>
      exactly_one ["location"; "function"; "address"; "expression"; "source"; "module_offset";
        "kernel_module_offset"] (contextual [optional "location" LOCATION_KIND;
        optional "function" PString; optional "address" PString;
        optional "expression" PString; optional "source" SOURCE_KIND;
        optional "module_offset" MODULE_OFFSET_KIND;
        optional "kernel_module_offset" KERNEL_MODULE_OFFSET_KIND;
        optional "condition" PString; optional "ignore_count" PUnsigned;
        optional "restart" PBoolean; optional "input" INFERIOR_INPUT_KIND;
        optional "trigger" PROBE_TRIGGER_KIND; optional "capture" CAPTURE_KIND;
        optional "max_hits" PUnsigned; optional "stop_policy" (PEnum ["on_condition";
        "continue_after_capture"; "continue_to_stop"]);
        optional "inspect" TURN_INSPECTION_KIND; optional "budget" BUDGET_KIND])
  | KernelInspect =>
      contextual [required "view" (PEnum ["bootstrap"; "capabilities"; "version"; "base";
        "page_table"; "symbols"; "current_task"; "init_task"; "tasks"; "modules"; "dmesg";
        "stack"; "panic"]); optional "limit" PUnsigned; optional "offset" PUnsigned;
        optional "address_expression" PString; optional "names" PStringArray;
        optional "roles" PStringArray; optional "around" AROUND_KIND;
        optional "range" RANGE_KIND; optional "include_bytes" PBoolean;
        optional "include_source" PBoolean]
  | KernelMonitor =>
      plain [required "command" PString]
  | ArtifactGet =>
      plain [required "uri" PString; optional "offset" PUnsigned;
        optional "max_bytes" PUnsigned]
  | EventsWait =>
      plain [optional "after_event_seq" PUnsigned; optional "timeout_ms" PUnsigned]
  | RawMi =>
      plain [required "command" PString; optional "arguments" RAW_MI_ARGUMENTS_KIND;
        optional "timeout_ms" PUnsigned]
  | RawConsole =>
      plain [required "command" PString; optional "timeout_ms" PUnsigned]
  end.

(** [validate_parameters], [parameter_schema], [requires_session] *)
Definition validate_parameters (self : CanonicalMethod) (parameters : Value) : Result Error unit :=
  validate (contract self) parameters.

Definition parameter_schema (self : CanonicalMethod) : Value := method_schema (contract self).

Definition requires_session (self : CanonicalMethod) : bool :=
  match self with
  | SessionCreate | SessionList | TargetLaunch | OperationGet | OperationCancel | ArtifactGet =>
      false
  | _ => true
  end.
