(* ===== verification/ContractProps.v ===== *)
(** * ContractProps: the published schema is the validation that runs

    JSON Schema for the keywords the contracts use, as a function of its own;
    a contract accepts a value exactly when the value is valid under the
    contract's schema, so a client that follows the published schema is never
    refused and a refused request never satisfies it. *)

From S2P Require Import Prelude Text Json Errors Policy Protocol Contracts.
Import Method.

(** ** JSON Schema *)

Section schema.
(** The integer a float literal denotes, when it denotes one ([1.0] and [1e3]
    are integers of JSON Schema). *)
Context (integral : string -> option Z).

Definition integer_of (v : Value) : option Z :=
  match v with Int z => Some z | Float l => integral l | _ => None end.

Definition has_type (t : string) (v : Value) : bool :=
  if decide (t = "string") then is_string v
  else if decide (t = "boolean") then is_boolean v
  else if decide (t = "integer") then bool_decide (is_Some (integer_of v))
  else if decide (t = "array") then bool_decide (is_Some (Json.as_array v))
  else if decide (t = "object") then bool_decide (is_Some (Json.as_object v))
  else false.

Definition names_of (arg : Value) : list string :=
  match arg with Array l => omap Json.as_str l | _ => [] end.

(** One keyword with its argument; [names] are the declared properties. *)
Definition keyword (valid : Value -> Value -> bool) (names : list string) (key : string)
    (arg v : Value) : bool :=
  if decide (key = "type") then match arg with Str t => has_type t v | _ => false end
  else if decide (key = "enum") then
    match arg with Array l => bool_decide (v ∈ l) | _ => false end
  else if decide (key = "minimum") then
    match integer_of arg, integer_of v with Some m, Some z => (m <=? z)%Z | _, _ => true end
  else if decide (key = "items") then
    match v with Array items => forallb (valid arg) items | _ => true end
  else if decide (key = "maxItems") then
    match Json.as_u64 arg, v with
    | Some n, Array items => (length items <=? N.to_nat n)%nat | _, _ => true end
  else if decide (key = "properties") then
    match arg, v with
    | Object properties, Object object =>
        forallb (fun p => match assoc p.1 object with Some x => valid p.2 x | None => true end)
          properties
    | _, _ => true
    end
  else if decide (key = "additionalProperties") then
    match v with
    | Object object => forallb (fun p => bool_decide (p.1 ∈ names) || valid arg p.2) object
    | _ => true
    end
  else if decide (key = "required") then
    match v with
    | Object object => forallb (fun name => contains_key name object) (names_of arg)
    | _ => true
    end
  else if decide (key = "minProperties") then
    match Json.as_u64 arg, v with
    | Some n, Object object => (N.to_nat n <=? length object)%nat | _, _ => true end
  else if decide (key = "oneOf") then
    match arg with Array l => (count (fun s => valid s v) l =? 1)%nat | _ => true end
  else if decide (key = "allOf") then
    match arg with Array l => forallb (fun s => valid s v) l | _ => true end
  else true.

Definition property_names (keywords : list (string * Value)) : list string :=
  match assoc "properties" keywords with Some (Object properties) => properties.*1 | _ => [] end.

Fixpoint valid (schema v : Value) {struct schema} : bool :=
  match schema with
  | Bool b => b
  | Object keywords =>
      let names := property_names keywords in
      forallb (fun kw => let '(key, arg) := kw in keyword valid names key arg v) keywords
  | _ => false
  end.

(** ** Values *)

(** Values whose objects have each key once, as a map of [serde_json] has, and
    whose integers are written without a fraction and fit 64 bits. *)
Fixpoint unambiguous (v : Value) : Prop :=
  match v with
  | Int z => (z < 18446744073709551616)%Z
  | Float l => integral l = None
  | Array items => every_item unambiguous items
  | Object fields => NoDup fields.*1 /\ every_field unambiguous fields
  | _ => True
  end.
End schema.

(** ** Contracts without a repeated name *)

Fixpoint wf_kind (k : ParameterKind) : bool :=
  match k with
  | PShape (MkObjectContract fields m _) =>
      bool_decide (NoDup (pf_name <$> fields)) && (N.of_nat m <=? U64_MAX)%N &&
      forallb (fun f => let 'MkParameterField _ kind _ := f in wf_kind kind) fields
  | PArrayOf kind | PMapOf kind => wf_kind kind
  | PBoundedArray kind n => (N.of_nat n <=? U64_MAX)%N && wf_kind kind
  | POneOf kinds => forallb wf_kind kinds
  | _ => true
  end.

Definition wf_fields (l : list ParameterField) : bool :=
  bool_decide (NoDup (pf_name <$> l)) && forallb (fun f => wf_kind (pf_kind f)) l.

Section kind_ind.
Context (P : ParameterKind -> Prop).
Context (HString : P PString) (HBoolean : P PBoolean) (HUnsigned : P PUnsigned)
  (HPositive : P PPositive) (HStringArray : P PStringArray)
  (HShape : forall fields m o, Forall (fun f => P (pf_kind f)) fields ->
     P (PShape (MkObjectContract fields m o)))
  (HArrayOf : forall k, P k -> P (PArrayOf k))
  (HBounded : forall k n, P k -> P (PBoundedArray k n))
  (HMapOf : forall k, P k -> P (PMapOf k))
  (HOneOf : forall l, Forall P l -> P (POneOf l))
  (HBooleanOrEnum : forall l, P (PBooleanOrEnum l))
  (HEnum : forall l, P (PEnum l)).

(** Induction through the nested lists of fields and alternatives. *)
Fixpoint kind_ind (k : ParameterKind) : P k :=
  match k with
  | PString => HString | PBoolean => HBoolean | PUnsigned => HUnsigned
  | PPositive => HPositive | PStringArray => HStringArray
  | PShape (MkObjectContract fields m o) =>
      HShape fields m o ((fix go (l : list ParameterField) : Forall (fun f => P (pf_kind f)) l :=
        match l with
        | [] => Forall_nil_2 _
        | MkParameterField n kind r :: l =>
            Forall_cons_2 _ (MkParameterField n kind r) l (kind_ind kind) (go l)
        end) fields)
  | PArrayOf k => HArrayOf k (kind_ind k)
  | PBoundedArray k n => HBounded k n (kind_ind k)
  | PMapOf k => HMapOf k (kind_ind k)
  | POneOf l =>
      HOneOf l ((fix go (l : list ParameterKind) : Forall P l :=
        match l with
        | [] => Forall_nil_2 _
        | k :: l => Forall_cons_2 _ k l (kind_ind k) (go l)
        end) l)
  | PBooleanOrEnum l => HBooleanOrEnum l
  | PEnum l => HEnum l
  end.
End kind_ind.

(** ** Lists *)

Lemma forallb_iff {A} (p : A -> bool) l : forallb p l = true <-> forall x, x ∈ l -> p x = true.
Proof. rewrite List.forallb_forall. by setoid_rewrite list_elem_of_In. Qed.

Lemma forallb_ext_in {A} (p q : A -> bool) l :
  (forall x, x ∈ l -> p x = q x) -> forallb p l = forallb q l.
Proof.
  induction l as [|x l IH]; [done|]. intros H. cbn. rewrite (H x) by left.
  rewrite IH; [done|]. intros y Hy. apply H. by right.
Qed.

Lemma count_ext_in {A} (p q : A -> bool) l :
  (forall x, x ∈ l -> p x = q x) -> count p l = count q l.
Proof.
  induction l as [|x l IH]; [done|]. intros H. unfold count in *. cbn. rewrite (H x) by left.
  assert (length (List.filter p l) = length (List.filter q l)) as E.
  { apply IH. intros y Hy. apply H. by right. }
  destruct (q x); cbn; by rewrite E.
Qed.

Lemma count_fmap {A B} (f : A -> B) (p : B -> bool) l : count p (f <$> l) = count (fun x => p (f x)) l.
Proof.
  induction l as [|x l IH]; [done|]. unfold count in *. cbn in *. destruct (p (f x)); cbn; by rewrite IH.
Qed.

Lemma every_item_iff P items : every_item P items <-> forall v, v ∈ items -> P v.
Proof.
  induction items as [|v items IH]; cbn; [split; [by intros _ v ?%elem_of_nil|done]|].
  rewrite IH. setoid_rewrite elem_of_cons. naive_solver.
Qed.

Lemma every_field_iff P fields : every_field P fields <-> forall p, p ∈ fields -> P p.2.
Proof.
  induction fields as [|[k v] fields IH]; cbn; [split; [by intros _ v ?%elem_of_nil|done]|].
  rewrite IH. setoid_rewrite elem_of_cons. split.
  - intros [Hv Hr] p [E|Hp]; [by subst p|auto].
  - intros Hall. split; [by apply (Hall (k, v)); left|auto].
Qed.

Lemma assoc_elem {A} key (x : A) fields : assoc key fields = Some x -> (key, x) ∈ fields.
Proof.
  induction fields as [|[k v] fields IH]; cbn; [done|]. case_decide; [intros [= ->]; subst; left|].
  intros E. right. auto.
Qed.

Lemma elem_assoc {A} key (x : A) fields :
  NoDup fields.*1 -> (key, x) ∈ fields -> assoc key fields = Some x.
Proof.
  induction fields as [|[k v] fields IH]; cbn; [by intros _ ?%elem_of_nil|].
  intros [Hn Hd]%NoDup_cons [[= -> ->]|H]%elem_of_cons; [by rewrite decide_True|].
  rewrite decide_False; [auto|]. intros ->. apply Hn, list_elem_of_fmap. by exists (key, x).
Qed.

Lemma remove_field_fresh key fields : key ∉ fields.*1 -> remove_field key fields = fields.
Proof.
  induction fields as [|[k v] fields IH]; [done|].
  rewrite fmap_cons, not_elem_of_cons. intros [Hk Hn].
  unfold remove_field. rewrite filter_cons_True by (cbn in *; congruence). f_equal. by apply IH.
Qed.

Lemma properties_of_eq s l acc :
  NoDup (pf_name <$> l) -> (forall f, f ∈ l -> pf_name f ∉ acc.*1) ->
  properties_of s l acc = reverse ((fun f => (pf_name f, s (pf_kind f))) <$> l) ++ acc.
Proof.
  revert acc. induction l as [|[n k r] l IH]; intros acc; [done|].
  cbn [fmap list_fmap]. intros [Hn Hd]%NoDup_cons Hf. cbn [properties_of].
  rewrite IH; [| done|].
  - unfold set_field. rewrite remove_field_fresh by (apply (Hf (MkParameterField n k r)); left).
    rewrite reverse_cons, <-app_assoc. done.
  - unfold set_field. rewrite remove_field_fresh by (apply (Hf (MkParameterField n k r)); left).
    intros f Hin. cbn. rewrite not_elem_of_cons. split.
    + intros E. apply Hn. rewrite list_elem_of_fmap. exists f. by split.
    + apply Hf. by right.
Qed.

(** The declared properties hold and no others are present exactly when every
    given field is accepted. *)
Section object.
Context (l : list ParameterField) (object : list (string * Value)).
Context (Hnames : NoDup (pf_name <$> l)) (Hkeys : NoDup object.*1).

Lemma field_accepts_find acc name v :
  field_accepts acc name v l =
    match find_field name l with Some f => acc (pf_kind f) v | None => false end.
Proof using Type.
  clear. unfold find_field. induction l as [|[n k r] l' IH]; [done|]. cbn.
  case_decide; case_bool_decide; done.
Qed.

Lemma find_field_elem name f : find_field name l = Some f <-> f ∈ l /\ pf_name f = name.
Proof using Hnames.
  unfold find_field. split.
  - intros H. apply List.find_some in H as [Hin E%bool_decide_eq_true]. by rewrite list_elem_of_In.
  - intros [Hin <-]. clear object Hkeys. induction l as [|g l' IH]; [by apply elem_of_nil in Hin|].
    cbn in Hnames |- *. apply NoDup_cons in Hnames as [Hn Hd].
    apply elem_of_cons in Hin as [->|Hin]; [by rewrite bool_decide_true|].
    rewrite bool_decide_false; [auto|]. intros E. apply Hn. rewrite list_elem_of_fmap.
    exists f. by split.
Qed.

Lemma properties_elem s p :
  p ∈ properties_of s l [] <-> exists f, f ∈ l /\ p = (pf_name f, s (pf_kind f)).
Proof using Hnames.
  rewrite properties_of_eq, app_nil_r by (try done; intros f _; by apply not_elem_of_nil).
  rewrite elem_of_reverse, list_elem_of_fmap. naive_solver.
Qed.

Lemma property_name_elem s name :
  name ∈ (properties_of s l []).*1 <-> exists f, f ∈ l /\ pf_name f = name.
Proof using Hnames.
  rewrite list_elem_of_fmap. split.
  - intros (p & -> & (f & Hf & ->)%properties_elem). by exists f.
  - intros (f & Hf & <-). exists (pf_name f, s (pf_kind f)). split; [done|].
    apply properties_elem. by exists f.
Qed.

Lemma shape_fields (s : ParameterKind -> Value) (valid' : Value -> Value -> bool)
    (acc : ParameterKind -> Value -> bool) :
  (forall f p, f ∈ l -> p ∈ object -> valid' (s (pf_kind f)) p.2 = acc (pf_kind f) p.2) ->
  (forall v, valid' (Bool false) v = false) ->
  forallb (fun p => match assoc p.1 object with Some x => valid' p.2 x | None => true end)
    (properties_of s l []) &&
  forallb (fun p => bool_decide (p.1 ∈ (properties_of s l []).*1) || valid' (Bool false) p.2) object
  = forallb (fun p => field_accepts acc p.1 p.2 l) object.
Proof using Hnames Hkeys.
  intros Hv Hf. apply eq_true_iff_eq. rewrite andb_true_iff, !forallb_iff. split.
  - intros [Hp Ha] [n x] Hx. cbn. rewrite field_accepts_find.
    pose proof (Ha _ Hx) as Hn. cbn in Hn. rewrite Hf, orb_false_r, bool_decide_eq_true in Hn.
    apply property_name_elem in Hn as (f & Hin & E).
    rewrite (proj2 (find_field_elem n f)) by done. pose proof (Hv f (n, x) Hin Hx) as Hvx. cbn in Hvx. rewrite <-Hvx.
    pose proof (Hp (pf_name f, s (pf_kind f))) as Hpf. cbn in Hpf.
    rewrite E, (elem_assoc n x) in Hpf by done. apply Hpf, properties_elem. exists f. by rewrite E.
  - intros Ha. split.
    + intros p (f & Hin & ->)%properties_elem. cbn.
      destruct (assoc (pf_name f) object) as [x|] eqn:Ex; [|done]. apply assoc_elem in Ex.
      pose proof (Ha _ Ex) as Hx. cbn in Hx. rewrite field_accepts_find in Hx.
      rewrite (proj2 (find_field_elem (pf_name f) f)) in Hx by done. pose proof (Hv f _ Hin Ex) as Hvx. cbn in Hvx. by rewrite Hvx.
    + intros [n x] Hx. cbn. apply orb_true_iff. left. apply bool_decide_eq_true.
      pose proof (Ha _ Hx) as Hn. cbn in Hn. rewrite field_accepts_find in Hn.
      destruct (find_field n l) as [f|] eqn:Ef; [|done]. apply find_field_elem in Ef as [Hin E].
      apply property_name_elem. by exists f.
Qed.

Lemma required_present :
  forallb (fun name => contains_key name object) (names_of (Array (required_of l))) =
  negb (missing_required l object).
Proof using Type.
  clear. unfold required_of, missing_required. induction l as [|[n k r] l' IH]; [done|].
  cbn in *. destruct r; cbn in *; [|exact IH]. rewrite IH.
  by destruct (contains_key n object).
Qed.
End object.

(** ** Schemas *)

Section valid_schema.
Context (integral : string -> option Z).
Abbreviation valid' := (valid integral).
Abbreviation keyword' := (keyword integral (valid integral)).
Abbreviation unambiguous' := (unambiguous integral).

Lemma valid_object keywords v :
  valid' (Object keywords) v =
    forallb (fun kw => keyword' (property_names keywords) kw.1 kw.2 v) keywords.
Proof.
  cbn [valid]. apply forallb_ext_in. by intros [key arg] _.
Qed.

(** The keywords of an object schema, after some of its own. *)
Definition closed_keywords (properties : list (string * Value)) (required : list Value) :=
  [("type", Str "object"); ("properties", Object properties);
   ("required", Array required); ("additionalProperties", Bool false)].

Lemma valid_closed extra l v :
  assoc "properties" extra = None -> NoDup (pf_name <$> l) ->
  (forall fields, v = Object fields -> NoDup fields.*1 /\
     forall f p, f ∈ l -> p ∈ fields -> valid' (schema (pf_kind f)) p.2 = accepts (pf_kind f) p.2) ->
  valid' (Object (extra ++ closed_keywords (properties_of schema l []) (required_of l))) v =
    match v with
    | Object object =>
        forallb (fun kw => keyword' (properties_of schema l []).*1 kw.1 kw.2 v) extra &&
        (negb (missing_required l object) &&
         forallb (fun p => field_accepts accepts p.1 p.2 l) object)
    | _ => false
    end.
Proof.
  intros He Hn Hv. rewrite valid_object, forallb_app.
  assert (property_names (extra ++ closed_keywords (properties_of schema l []) (required_of l)) =
    (properties_of schema l []).*1) as ->.
  { unfold property_names. revert He. induction extra as [|[k x] extra IH]; [done|]. cbn.
    case_decide; [done|exact IH]. }
  destruct v as [| | | | | |object]; try (rewrite andb_comm; reflexivity).
  f_equal. destruct (Hv object eq_refl) as [Hk Hvalid].
  rewrite <-required_present, <-(shape_fields l object Hn Hk schema valid' accepts Hvalid) by done.
  unfold closed_keywords. cbn [forallb fst snd].
  change (keyword' _ "type" (Str "object") (Object object)) with true.
  match goal with |- true && (?a && (?b && (?c && true))) = _ =>
    transitivity (b && (a && c)); [by destruct a, b, c|] end.
  reflexivity.
Qed.

Lemma count_present names object :
  count (fun s => valid' s (Object object)) (require_one <$> names) = present names object.
Proof.
  rewrite count_fmap. apply count_ext_in. intros name _. unfold require_one.
  rewrite valid_object. cbn [forallb fst snd]. rewrite andb_true_r.
  change (keyword' _ "required" (Array [Str name]) (Object object)) with
    (contains_key name object && true). apply andb_true_r.
Qed.

Lemma as_u64_nat n : (N.of_nat n <=? U64_MAX)%N = true -> Json.as_u64 (uint (N.of_nat n)) = Some (N.of_nat n).
Proof. intros H%N.leb_le. by apply as_u64_uint. Qed.

Lemma valid_enumeration values v : valid' (enumeration values) v = in_enum values v.
Proof.
  unfold enumeration. rewrite valid_object. cbn [forallb fst snd]. rewrite andb_true_r.
  change (keyword' _ "type" (Str "string") v) with (is_string v).
  change (keyword' _ "enum" (Array (Str <$> values)) v) with (bool_decide (v ∈ Str <$> values)).
  destruct v as [| | | |s| |]; try done. unfold in_enum, is_string. cbn [Json.as_str].
  rewrite bool_decide_true by (by eexists). apply bool_decide_ext.
  rewrite list_elem_of_fmap. naive_solver.
Qed.

Lemma valid_typed t v : valid' (typed t) v = has_type integral t v.
Proof. unfold typed. rewrite valid_object. cbn [forallb fst snd]. apply andb_true_r. Qed.

Lemma valid_integer m v :
  unambiguous' v ->
  valid' (Object [("type", Str "integer"); ("minimum", Int m)]) v =
    match v with Int z => (m <=? z)%Z | _ => false end.
Proof.
  intros Hu. rewrite valid_object. cbn [forallb fst snd]. rewrite andb_true_r.
  change (keyword' _ "type" (Str "integer") v) with (bool_decide (is_Some (integer_of integral v))).
  change (keyword' _ "minimum" (Int m) v) with
    (match integer_of integral v with Some z => (m <=? z)%Z | None => true end).
  destruct v as [| |z|lit| | |]; cbn in *; try rewrite Hu; try done.
Qed.

Lemma valid_array s v :
  valid' (array_schema s) v =
    match v with Array items => forallb (valid' s) items | _ => false end.
Proof.
  unfold array_schema. rewrite valid_object. cbn [forallb fst snd]. rewrite andb_true_r.
  by destruct v.
Qed.

Lemma forallb_kind k items :
  (forall v, unambiguous' v -> valid' (schema k) v = accepts k v) -> every_item unambiguous' items ->
  forallb (valid' (schema k)) items = forallb (accepts k) items.
Proof.
  intros H Hu. apply forallb_ext_in. intros v Hv. apply H. by eapply every_item_iff in Hu.
Qed.

Lemma valid_oneOf l v : valid' (Object [("oneOf", Array l)]) v = (count (fun s => valid' s v) l =? 1)%nat.
Proof. rewrite valid_object. cbn [forallb fst snd]. apply andb_true_r. Qed.

Lemma object_schema_agrees l m o v :
  NoDup (pf_name <$> l) -> (N.of_nat m <=? U64_MAX)%N = true -> unambiguous' v ->
  Forall (fun f => forall v, unambiguous' v -> valid' (schema (pf_kind f)) v =
                               accepts (pf_kind f) v) l ->
  valid' (object_schema schema (MkObjectContract l m o)) v =
    object_accepts accepts (MkObjectContract l m o) v.
Proof.
  intros Hn Hm Hu HF.
  assert (forall fields, v = Object fields -> NoDup fields.*1 /\
    forall f p, f ∈ l -> p ∈ fields ->
      valid' (schema (pf_kind f)) p.2 = accepts (pf_kind f) p.2) as Hv.
  { intros fields ->. destruct Hu as [Hk Hu]. split; [done|]. intros f p Hf Hp.
    rewrite Forall_forall in HF. apply HF; [done|]. by eapply every_field_iff in Hu. }
  set (extra := (if bool_decide (o = []) then [] else [("oneOf", Array (require_one <$> o))]) ++
                (if (0 <? m)%nat then [("minProperties", uint (N.of_nat m))] else [])).
  assert (object_schema schema (MkObjectContract l m o) =
    Object (extra ++ closed_keywords (properties_of schema l []) (required_of l))) as ->.
  { unfold extra. cbn [object_schema]. by destruct (bool_decide (o = [])), (0 <? m)%nat. }
  rewrite valid_closed; [| |done|done].
  2: { unfold extra. by destruct (bool_decide (o = [])), (0 <? m)%nat. }
  destruct v as [| | | | | |object]; try done. cbn [object_accepts].
  assert (forallb (fun kw => keyword' (properties_of schema l []).*1 kw.1 kw.2 (Object object)) extra
    = negb (negb (bool_decide (o = [])) && negb (present o object =? 1)%nat) &&
      negb (length object <? m)%nat) as ->.
  { unfold extra. rewrite forallb_app. f_equal.
    - destruct (bool_decide (o = [])); [done|]. cbn [forallb fst snd negb andb].
      change (keyword' _ "oneOf" (Array (require_one <$> o)) (Object object)) with
        (count (fun s => valid' s (Object object)) (require_one <$> o) =? 1)%nat.
      rewrite count_present, negb_involutive. apply andb_true_r.
    - destruct m as [|m]; [done|]. cbn [Nat.ltb Nat.leb forallb fst snd].
      change (keyword' _ "minProperties" (uint (N.of_nat (S m))) (Object object)) with
        (match Json.as_u64 (uint (N.of_nat (S m))) with
         | Some n => (N.to_nat n <=? length object)%nat | None => true end).
      rewrite as_u64_nat, Nat2N.id, andb_true_r by done.
      destruct (Nat.leb_spec (length object) m), (Nat.leb_spec (S m) (length object)); lia. }
  by destruct (negb (bool_decide (o = [])) && _), (length object <? m)%nat,
    (missing_required l object), (forallb _ object).
Qed.

Lemma schema_agrees k v :
  wf_kind k = true -> unambiguous' v -> valid' (schema k) v = accepts k v.
Proof.
  intros Hk. revert v. revert Hk. induction k as [| | | | |l m o IH|k IH|k n IH|k IH|l IH|l|l]
    using kind_ind; cbn [schema]; intros Hk v Hu.
  - rewrite valid_typed. reflexivity.
  - rewrite valid_typed. reflexivity.
  - rewrite valid_integer by done. destruct v as [| |z| | | |]; try done. cbn. cbn in Hu.
    case_decide as Hz; [|rewrite bool_decide_false by (by intros []); apply Z.leb_gt; lia].
    rewrite bool_decide_true by (by eexists). apply Z.leb_le. lia.
  - rewrite valid_integer by done. destruct v as [| |z| | | |]; try done. cbn. cbn in Hu.
    case_decide; [|apply Z.leb_gt; lia]. apply eq_true_iff_eq. rewrite Z.leb_le, N.ltb_lt. lia.
  - rewrite valid_array. destruct v; try done. cbn [accepts]. apply forallb_ext_in. intros v _.
    rewrite valid_typed. reflexivity.
  - cbn [wf_kind] in Hk. apply andb_true_iff in Hk as [[Hn%bool_decide_eq_true Hm]%andb_true_iff Hf].
    apply object_schema_agrees; [done..|]. rewrite Forall_forall in IH |- *.
    intros f Hin w Hw. apply IH; [done| |done]. rewrite forallb_iff in Hf. specialize (Hf f Hin).
    by destruct f.
  - rewrite valid_array. destruct v; try done. apply forallb_kind; auto.
  - cbn [wf_kind] in Hk. apply andb_true_iff in Hk as [Hn Hk].
    assert (put "maxItems" (uint (N.of_nat n)) (array_schema (schema k)) =
      Object [("maxItems", uint (N.of_nat n)); ("type", Str "array"); ("items", schema k)]) as ->
      by reflexivity.
    rewrite valid_object. cbn [forallb fst snd].
    change (keyword' _ "maxItems" (uint (N.of_nat n)) v) with
      (match Json.as_u64 (uint (N.of_nat n)), v with
       | Some n, Array items => (length items <=? N.to_nat n)%nat | _, _ => true end).
    rewrite as_u64_nat by done. destruct v as [| | | | |items|]; try done. rewrite Nat2N.id.
    cbn [accepts]. f_equal. change (keyword' _ "type" _ _) with true.
    change (keyword' _ "items" (schema k) (Array items)) with (forallb (valid' (schema k)) items).
    rewrite andb_true_r. cbn [andb]. apply forallb_kind; auto.
  - rewrite valid_object. cbn [forallb fst snd]. rewrite andb_true_r.
    destruct v as [| | | | | |object]; try done. destruct Hu as [_ Hu].
    change (keyword' _ "type" (Str "object") (Object object)) with true. cbn [andb accepts].
    change (forallb (fun p => bool_decide (p.1 ∈ []) || valid' (schema k) p.2) object =
      forallb (fun p => accepts k p.2) object). apply forallb_ext_in. intros p Hp.
    rewrite bool_decide_false by apply not_elem_of_nil. cbn. apply IH; [done|].
    by eapply every_field_iff in Hu.
  - rewrite valid_oneOf, count_fmap. cbn [accepts]. f_equal. apply count_ext_in.
    intros k Hin. rewrite Forall_forall in IH. apply IH; [done| |done].
    cbn [wf_kind] in Hk. rewrite forallb_iff in Hk. auto.
  - rewrite valid_oneOf. unfold count. cbn [List.filter]. rewrite valid_typed, valid_enumeration.
    destruct v; try done. cbn [accepts]. unfold is_boolean. cbn.
    by destruct (bool_decide _).
  - by rewrite valid_enumeration.
Qed.
End valid_schema.

(** ** Methods *)

Lemma contracts_wf method : wf_fields (fields (contract method)) = true.
Proof. destruct method; vm_compute; reflexivity. Qed.

Lemma check_given_spec c object :
  NoDup (pf_name <$> fields c) ->
  if forallb (fun p => field_accepts accepts p.1 p.2 (fields c)) object
  then check_given c object = Ok tt
  else exists e, check_given c object = Err e /\ err_code e = Code.InvalidArgument.
Proof.
  intros Hn. induction object as [|[name v] object IH]; [done|]. cbn [forallb check_given fst snd].
  rewrite field_accepts_find. destruct (find_field name (fields c)) as [f|]; cbn; [|by eexists].
  destruct (accepts (pf_kind f) v); [exact IH|]. by eexists.
Qed.

Lemma check_required_spec l object :
  if missing_required l object
  then exists e, check_required l object = Err e /\ err_code e = Code.InvalidArgument
  else check_required l object = Ok tt.
Proof.
  induction l as [|f l IH]; [done|]. cbn.
  destruct (pf_required f && negb (contains_key (pf_name f) object)); [by eexists|exact IH].
Qed.

Lemma check_exactly_one_spec groups object :
  if forallb (fun names => present names object =? 1)%nat groups
  then check_exactly_one groups object = Ok tt
  else exists e, check_exactly_one groups object = Err e /\ err_code e = Code.InvalidArgument.
Proof.
  induction groups as [|names groups IH]; [done|]. cbn.
  destruct (present names object =? 1)%nat; [exact IH|by eexists].
Qed.

Lemma validate_spec c v :
  NoDup (pf_name <$> fields c) ->
  let ok := match v with
    | Object object =>
        forallb (fun p => field_accepts accepts p.1 p.2 (fields c)) object &&
        negb (missing_required (fields c) object) &&
        forallb (fun names => present names object =? 1)%nat (mc_exactly_one_of c)
    | _ => false end in
  if ok then validate c v = Ok tt
  else exists e, validate c v = Err e /\ err_code e = Code.InvalidArgument.
Proof.
  intros Hn. cbn zeta. destruct v as [| | | | | |object]; try by eexists.
  pose proof (check_given_spec c object Hn) as H1.
  pose proof (check_required_spec (fields c) object) as H2.
  pose proof (check_exactly_one_spec (mc_exactly_one_of c) object) as H3.
  unfold validate. cbn [Json.as_object ok_or mbind Result_bind].
  destruct (forallb (fun p => field_accepts accepts p.1 p.2 (fields c)) object);
    [|destruct H1 as (e & E & He); exists e; by rewrite E].
  destruct (missing_required (fields c) object);
    [destruct H2 as (e & E & He); exists e; by rewrite H1; cbn [mbind Result_bind]; rewrite E|].
  rewrite H1. cbn [mbind Result_bind]. rewrite H2. exact H3.
Qed.

Section methods.
Context (integral : string -> option Z).

Lemma method_schema_agrees c v :
  wf_fields (fields c) = true -> unambiguous integral v ->
  valid integral (method_schema c) v =
    match v with
    | Object object =>
        forallb (fun p => field_accepts accepts p.1 p.2 (fields c)) object &&
        negb (missing_required (fields c) object) &&
        forallb (fun names => present names object =? 1)%nat (mc_exactly_one_of c)
    | _ => false
    end.
Proof.
  intros [Hn%bool_decide_eq_true Hw]%andb_true_iff Hu.
  set (groups := (fun names => Object [("oneOf", Array (require_one <$> names))]) <$>
    mc_exactly_one_of c).
  set (extra := if bool_decide (mc_exactly_one_of c = []) then [] else [("allOf", Array groups)]).
  assert (method_schema c = Object (extra ++
    closed_keywords (properties_of schema (fields c) []) (required_of (fields c)))) as ->.
  { unfold method_schema, extra. by destruct (bool_decide _). }
  rewrite valid_closed; [|unfold extra; by destruct (bool_decide _)|done|].
  2: { intros object ->. destruct Hu as [Hk Hu]. split; [done|]. intros f p Hf Hp.
       apply schema_agrees; [|by eapply every_field_iff in Hu].
       rewrite forallb_iff in Hw. by apply Hw. }
  destruct v as [| | | | | |object]; try done.
  assert (forallb (fun kw => keyword integral (valid integral)
      (properties_of schema (fields c) []).*1 kw.1 kw.2 (Object object)) extra =
    forallb (fun names => present names object =? 1)%nat (mc_exactly_one_of c)) as ->.
  { unfold extra. case_bool_decide as Hg; [by rewrite Hg|]. cbn [forallb fst snd].
    change (keyword integral (valid integral) _ "allOf" (Array groups) (Object object)) with
      (forallb (fun s => valid integral s (Object object)) groups).
    rewrite andb_true_r. unfold groups. clear. induction (mc_exactly_one_of c) as [|names l IH]; [done|].
    rewrite fmap_cons. cbn [forallb]. by rewrite IH, valid_oneOf, count_present. }
  by destruct (forallb _ object), (missing_required _ object), (forallb _ (mc_exactly_one_of c)).
Qed.

End methods.

Definition no_integral (_ : string) : option Z := None.

Definition sample_launch : Value := Object [
  ("program", Str "/bin/true"); ("argv", Array [Str "a"]);
  ("wait", Object [("until", Str "stopped"); ("timeout_ms", Int 100)]);
  ("breakpoints", Array [Object [("function", Str "main")]])].


(** The schema says "integer", of which [1.0] is one; the validation asks for
    an integer literal. *)
Theorem integral_floats_are_refused :
  let integral l := if decide (l = "1.0") then Some 1%Z else None in
  let parameters := Object [("offset", Float "1.0")] in
  valid integral (parameter_schema SessionTranscript) parameters = true /\
  exists e, validate_parameters SessionTranscript parameters = Err e.
Proof. split; [vm_compute; reflexivity|]. eexists. vm_compute. reflexivity. Qed.
