(* ===== verification/Access.v ===== *)
(** * Access: who may do what ([crates/gdb-ai-core/src/gateway.rs])

    The caller's principal, the effect of a request, the classification of
    requests the dispatcher uses for its fences, the request rate window and
    the preconditions of a mutation: revision, controller and lease. *)

From S2P Require Import Prelude Text Json Errors Domain Policy Protocol.
Import Method.

Record Caller := MkCaller { caller_identity : string; caller_admin : bool }.

Inductive RequestMode := Canonical | Agent.

#[global] Instance RequestMode_eq_dec : EqDecision RequestMode.
Proof. solve_decision. Defined.

Inductive Controller :=
| CAgent (owner : string)
| CLease (lease : WriteLease).

(** [Caller::local]. *)
Definition caller_local (identity : string) : Caller := MkCaller identity false.

Definition ends_with (suffix b : bytes) : bool := starts_with (reverse suffix) (reverse b).

(** [str::split_once]: the text before and after the first occurrence. *)
Fixpoint split_once (pattern b : bytes) : option (bytes * bytes) :=
  match strip_prefix pattern b with
  | Some rest => Some ([], rest)
  | None =>
      match b with
      | [] => None
      | c :: r => p ← split_once pattern r; Some (c :: p.1, p.2)
      end
  end.

Definition principal_identity (identity : string) : string :=
  match split_once (bytes_of "/mcp:") (bytes_of identity) with
  | Some part => string_of part.1
  | None => identity
  end.

Definition same_principal (left right : string) : bool :=
  bool_decide (principal_identity left = principal_identity right).

(** ** Classification of requests *)

Definition str_parameter (field : string) (parameters : Value) : option string :=
  Json.get field parameters ≫= Json.as_str.

Definition effect_for_request (request : ApiRequest) : Effect :=
  let method := req_method request in
  if bool_decide (method = ValueEvaluate) &&
     bool_decide (str_parameter "side_effects" (req_parameters request) = Some "allow")
  then TargetMutation
  else if match method with
          | ExecutionControl | ExecutionWait | AgentProbe | AgentExperiment => true
          | _ => false
          end && bool_decide (is_Some (Json.get "input" (req_parameters request)))
  then TargetMutation
  else effect_for_method method.

Definition is_interrupt (request : ApiRequest) : bool :=
  bool_decide (req_method request = ExecutionControl) &&
  bool_decide (str_parameter "action" (req_parameters request) = Some "interrupt").

Definition is_out_of_band (request : ApiRequest) : bool :=
  match req_method request with
  | InferiorIoRead | InferiorIoWrite | InferiorIoCloseStdin | InferiorIoSendEof
  | InferiorIoResize | SessionClose | SessionForceAbort | SessionAcquireWriteLease => true
  | _ => false
  end || is_interrupt request.

Definition requires_stable_target (request : ApiRequest) : bool :=
  match req_method request with
  | InspectionGet | InspectionSnapshot | InspectionBatch | ValueEvaluate | ValueCreate
  | ValueChildren | ValueUpdate | MemoryRead | MemorySearch | MemoryCompare | RegisterRead
  | DisassemblyRead | AgentHypothesisCheck | KernelInspect => true
  | _ => false
  end ||
  (bool_decide (req_method request = ExecutionWait) &&
   bool_decide (is_Some (Json.get "inspect" (req_parameters request)))).

Definition requires_structured_state (request : ApiRequest) (effect : Effect) : bool :=
  negb (is_out_of_band request) &&
  (requires_stable_target request ||
   match req_method request with BreakpointList | SessionCapabilities => true | _ => false end ||
   (negb (bool_decide (effect = Read)) &&
    negb match req_method request with
         | RawMi | RawConsole | SessionAttemptRecovery | SessionReleaseWriteLease => true
         | _ => false
         end)).

Definition reads_retained_observations (method : CanonicalMethod) : bool :=
  match method with InspectionSnapshotGet | InspectionDiff => true | _ => false end.

Definition request_allowed_with_lost_consistency (method : CanonicalMethod) : bool :=
  reads_retained_observations method ||
  match method with
  | SessionGet | SessionTranscript | SessionEvent | SessionClose | SessionForceAbort
  | SessionAcquireWriteLease | SessionAttemptRecovery | ArtifactGet => true
  | _ => false
  end.

Definition request_allowed_during_unknown_outcome (request : ApiRequest) : bool :=
  request_allowed_with_lost_consistency (req_method request) || is_interrupt request.

Definition direct_register_context (parameters : Value) : bool :=
  match Json.get "frame_level" parameters ≫= Json.as_u64 with
  | None => true
  | Some level => (level =? 0)%N
  end &&
  match str_parameter "frame_id" parameters with
  | None => true
  | Some frame => ends_with (bytes_of "_0") (bytes_of frame)
  end.

Definition shareable_view (parameters : Value) : bool :=
  match str_parameter "view" parameters with
  | Some view =>
      bool_decide (view ∈ ["capabilities"; "providers"; "mappings"; "signals"]) ||
      (bool_decide (view = "registers") && direct_register_context parameters)
  | None => false
  end.

Definition shareable_read (request : ApiRequest) : bool :=
  match req_method request with
  | RegisterRead => direct_register_context (req_parameters request)
  | InspectionGet => shareable_view (req_parameters request)
  | InspectionBatch =>
      direct_register_context (req_parameters request) &&
      match Json.get "requests" (req_parameters request) ≫= Json.as_array with
      | Some items => negb (bool_decide (length items = 0)) && forallb shareable_view items
      | None => false
      end
  | _ => false
  end.

Definition idempotency_key (request : ApiRequest) (caller : Caller) : string :=
  principal_identity (caller_identity caller) +:+ ":" +:+
  default "global" (req_session_id request) +:+ ":" +:+
  as_str (req_method request) +:+ ":" +:+
  default "" (req_idempotency_key request).

(** ** The request rate window *)

Record RateWindow := MkRateWindow { rate_started : N; rate_requests : N }.

(** One second of [std::time::Instant], in nanoseconds. *)
Definition SECOND : N := 1000000000.
Definition MAX_RATE_WINDOWS : nat := 1024.

Definition rate_limit (requests_per_second request_burst : N) : N :=
  u64_saturating_add (N.max requests_per_second 1) request_burst.

Definition check_rate (limit now : N) (identity : string) (rates : gmap string RateWindow)
    : gmap string RateWindow * Result Error unit :=
  let identity := principal_identity identity in
  let rates :=
    if (MAX_RATE_WINDOWS <=? size rates)%nat && bool_decide (rates !! identity = None)
    then match btree_first_key rates with Some k => delete k rates | None => rates end
    else rates in
  let window := default (MkRateWindow now 0) (rates !! identity) in
  let window := if (SECOND <=? now - rate_started window)%N then MkRateWindow now 0
                else window in
  let window := MkRateWindow (rate_started window)
                  (u64_saturating_add (rate_requests window) 1) in
  (<[identity := window]> rates,
   if (limit <? rate_requests window)%N
   then Err (retryable (Error_new Code.Conflict "request rate limit exceeded"))
   else Ok tt).

(** ** The preconditions of a mutation *)

(** Canonical requests name the revision they were prepared against. *)
Definition require_expected_revision (request : ApiRequest) (revision : N) (mode : RequestMode)
    : Result Error unit :=
  match mode with
  | Canonical =>
      match req_expected_revision request with
      | Some expected => require_revision revision expected
      | None =>
          if decide ((Json.get "accept_latest_revision" (req_parameters request)
                      ≫= Json.as_bool) = Some true)
          then Ok tt
          else Err (Error_new Code.StaleRevision
            "mutation requires expected_revision or accept_latest_revision=true")
      end
  | Agent => Ok tt
  end.

(** The caller holds the controller; a canonical lease is renewed near its
    half-life.  The clock, the lease duration of the configuration and the
    answer of the store to a lease update are inputs; the result is the
    controller after the call. *)
Definition require_controller (request : ApiRequest) (caller : Caller) (mode : RequestMode)
    (now write_lease_ms : N) (upsert_lease : WriteLease -> Result Error unit)
    (controller : option Controller) : option Controller * Result Error unit :=
  let missing := (controller,
    Err (Error_new Code.WriteLeaseRequired
           "caller does not hold the required session controller")) in
  match controller with
  | Some (CAgent owner) =>
      if bool_decide (mode = Agent) && bool_decide (owner = caller_identity caller)
      then (controller, Ok tt) else missing
  | Some (CLease lease) =>
      if lease_is_expired lease now then
        (controller, Err (Error_new Code.WriteLeaseExpired "write lease has expired"))
      else if negb (bool_decide (lease_owner lease = caller_identity caller)) ||
              (bool_decide (mode = Canonical) &&
               negb (bool_decide (str_parameter "lease_id" (req_parameters request) =
                                  Some (lease_id lease))))
      then (controller, Err (Error_new Code.WriteLeaseRequired
                               "write lease does not belong to this caller"))
      else
        let lease_ms := N.max write_lease_ms 1 in
        if bool_decide (mode = Canonical) &&
           (lease_expires_at_unix_ms lease - now <=? lease_ms / 2)%N
        then
          let lease := MkWriteLease (lease_id lease) (lease_session_id lease)
                         (lease_owner lease) (u64_saturating_add now lease_ms)
                         (lease_generation lease) in
          (Some (CLease lease), upsert_lease lease)
        else (controller, Ok tt)
  | None => missing
  end.

Definition require_mutation_preconditions
    (request : ApiRequest) (caller : Caller) (revision : N) (mode : RequestMode)
    (now write_lease_ms : N) (upsert_lease : WriteLease -> Result Error unit)
    (controller : option Controller) : option Controller * Result Error unit :=
  if match req_method request with
     | SessionForceAbort | SessionAttemptRecovery => true
     | _ => false
     end
  then (controller, Ok tt)
  else
    match require_expected_revision request revision mode with
    | Err e => (controller, Err e)
    | Ok _ =>
        if decide (req_method request = SessionAcquireWriteLease) then (controller, Ok tt)
        else require_controller request caller mode now write_lease_ms upsert_lease controller
    end.

(** ** Principals *)

Lemma split_once_Some pattern b before after :
  split_once pattern b = Some (before, after) -> b = before ++ pattern ++ after.
Proof.
  revert before after. induction b as [|c r IH]; intros before after E; cbn [split_once] in E.
  - destruct (strip_prefix pattern []) eqn:Es; [|done]. simplify_eq.
    by apply strip_prefix_Some in Es.
  - destruct (strip_prefix pattern (c :: r)) eqn:Es.
    + simplify_eq. by apply strip_prefix_Some in Es.
    + destruct (split_once pattern r) as [[x y]|] eqn:Er; cbn in E; [|done]. simplify_eq.
      cbn. f_equal. by apply IH.
Qed.

(** The marker overlaps itself nowhere: it is found where it was put, behind a
    text that does not contain it. *)
Lemma split_once_marker before after :
  split_once (bytes_of "/mcp:") before = None ->
  split_once (bytes_of "/mcp:") (before ++ bytes_of "/mcp:" ++ after) = Some (before, after).
Proof.
  induction before as [|c r IH]; intros E; [by destruct after|].
  change ((c :: r) ++ bytes_of "/mcp:" ++ after) with (c :: (r ++ bytes_of "/mcp:" ++ after)).
  cbn [split_once] in E |- *.
  destruct (strip_prefix (bytes_of "/mcp:") (c :: r)) eqn:Es; [done|].
  destruct (split_once (bytes_of "/mcp:") r) as [[x y]|] eqn:Er; [done|].
  rewrite IH by done.
  assert (strip_prefix (bytes_of "/mcp:") (c :: r ++ bytes_of "/mcp:" ++ after) = None) as ->;
    [|done].
  destruct (strip_prefix _ (c :: r ++ _)) as [rest|] eqn:E2; [|done]. exfalso.
  apply strip_prefix_Some in E2. cbn in E2.
  destruct r as [|c1 [|c2 [|c3 [|c4 r]]]]; cbn in E2; try discriminate.
  injection E2 as -> -> -> -> -> _. discriminate Es.
Qed.

(** The part before the first marker contains none. *)
Lemma split_once_first before after b :
  split_once (bytes_of "/mcp:") b = Some (before, after) ->
  split_once (bytes_of "/mcp:") before = None.
Proof.
  revert before after. induction b as [|c r IH]; intros before after E; cbn [split_once] in E.
  - by simplify_eq.
  - destruct (strip_prefix (bytes_of "/mcp:") (c :: r)) eqn:Es; [by simplify_eq|].
    destruct (split_once _ r) as [[x y]|] eqn:Er; cbn in E; [|done]. simplify_eq.
    cbn [split_once]. rewrite (IH _ _ eq_refl).
    destruct (strip_prefix _ (c :: x)) as [rest|] eqn:E2; [|done]. exfalso.
    apply strip_prefix_Some in E2. apply split_once_Some in Er. subst r.
    assert (strip_prefix (bytes_of "/mcp:") (c :: x ++ bytes_of "/mcp:" ++ after) =
            Some (rest ++ bytes_of "/mcp:" ++ after)) as Hs.
    { apply strip_prefix_Some. change (c :: x ++ bytes_of "/mcp:" ++ after) with
        ((c :: x) ++ bytes_of "/mcp:" ++ after). by rewrite E2, <-app_assoc. }
    congruence.
Qed.

Lemma principal_unmarked s :
  split_once (bytes_of "/mcp:") (bytes_of (principal_identity s)) = None.
Proof.
  unfold principal_identity. destruct (split_once _ (bytes_of s)) as [[x y]|] eqn:E.
  - cbn [fst]. rewrite bytes_of_string_of. by eapply split_once_first.
  - exact E.
Qed.

Lemma principal_of_client s name :
  principal_identity (principal_identity s +:+ "/mcp:" +:+ name) = principal_identity s.
Proof.
  unfold principal_identity at 1.
  rewrite !bytes_of_app, split_once_marker by apply principal_unmarked.
  apply string_of_bytes_of.
Qed.

(** The name an MCP client gives itself carries no authority: appending
    ["/mcp:"] and any client name to a principal changes neither whose
    operations it may see, nor the rate window it is counted in, nor the key
    its idempotent requests are filed under. *)
Theorem client_names_carry_no_authority s name other limit now rates request admin :
  let client := principal_identity s +:+ "/mcp:" +:+ name in
  same_principal client other = same_principal s other /\
  check_rate limit now client rates = check_rate limit now s rates /\
  idempotency_key request (MkCaller client admin) = idempotency_key request (MkCaller s admin).
Proof.
  cbn zeta. unfold same_principal, check_rate, idempotency_key. cbn [caller_identity].
  by rewrite principal_of_client.
Qed.

(** ** The rate window *)

(** A sequence of checks (time, identity): the table after it and, for one
    principal, how many of its requests were admitted. *)
Fixpoint rate_run (limit : N) (principal : string) (calls : list (N * string))
    (rates : gmap string RateWindow) : gmap string RateWindow * N :=
  match calls with
  | [] => (rates, 0%N)
  | (now, identity) :: rest =>
      let '(rates, answer) := check_rate limit now identity rates in
      let '(rates, admitted) := rate_run limit principal rest rates in
      (rates, if is_ok answer && bool_decide (principal_identity identity = principal)
              then (admitted + 1)%N else admitted)
  end.

(** What the window of a principal can still admit before [t + SECOND]: a
    window opened before [t] may be replaced once. *)
Definition allowance (limit t : N) (window : option RateWindow) : N :=
  match window with
  | None => limit
  | Some w => limit - rate_requests w + (if (rate_started w <? t)%N then limit else 0)
  end.

Definition room (calls : list (N * string)) (rates : gmap string RateWindow) : Prop :=
  size (dom rates ∪ list_to_set ((fun c => principal_identity c.2) <$> calls)
        : gset string) <= MAX_RATE_WINDOWS.

(** With room in the table nothing is evicted. *)
Lemma check_rate_kept now identity rest rates :
  room ((now, identity) :: rest) rates ->
  (MAX_RATE_WINDOWS <=? size rates)%nat &&
    bool_decide (rates !! principal_identity identity = None) = false.
Proof.
  unfold room. intros H. apply andb_false_iff.
  destruct (Nat.leb_spec MAX_RATE_WINDOWS (size rates)) as [Hs|Hs]; [right|by left].
  apply bool_decide_eq_false. intros Hn%not_elem_of_dom.
  assert (size ({[principal_identity identity]} ∪ dom rates : gset string) <= MAX_RATE_WINDOWS)
    as H2 by (etrans; [apply subseteq_size|exact H]; cbn; set_solver).
  rewrite size_union, size_singleton, size_dom in H2 by set_solver. lia.
Qed.

Lemma room_step limit now identity rest rates :
  room ((now, identity) :: rest) rates -> room rest (check_rate limit now identity rates).1.
Proof.
  intros H. pose proof (check_rate_kept _ _ _ _ H) as Hk. unfold room in *.
  unfold check_rate. rewrite Hk. cbn [fst]. etrans; [apply subseteq_size|exact H].
  cbn. set_solver.
Qed.

(** One check: the allowance pays for an admitted request. *)
Lemma check_rate_pays limit t now identity rates principal :
  (limit < U64_MAX)%N -> (t <= now < t + SECOND)%N ->
  (MAX_RATE_WINDOWS <=? size rates)%nat &&
    bool_decide (rates !! principal_identity identity = None) = false ->
  let '(rates', answer) := check_rate limit now identity rates in
  (allowance limit t (rates' !! principal) +
   (if is_ok answer && bool_decide (principal_identity identity = principal) then 1 else 0)
   <= allowance limit t (rates !! principal))%N.
Proof.
  intros Hl Ht Hk. unfold check_rate. rewrite Hk.
  destruct (decide (principal_identity identity = principal)) as [->|Hne].
  - rewrite lookup_insert_eq. rewrite (bool_decide_true (principal = principal)) by done.
    destruct (rates !! principal) as [w|] eqn:Ew; cbn -[SECOND U64_MAX];
      unfold u64_saturating_add.
    + destruct (N.leb_spec SECOND (now - rate_started w)) as [Hr|Hr]; cbn -[SECOND U64_MAX].
      * destruct (N.ltb_spec (rate_started w) t); [|lia].
        destruct (N.ltb_spec now t); [lia|].
        destruct (N.ltb_spec limit (N.min (0 + 1) U64_MAX)); cbn -[U64_MAX]; lia.
      * destruct (N.ltb_spec limit (N.min (rate_requests w + 1) U64_MAX)); cbn -[U64_MAX]; lia.
    + destruct (N.leb_spec SECOND (now - now)) as [Hr|Hr]; [unfold SECOND in Hr; lia|].
      cbn -[SECOND U64_MAX].
      destruct (N.ltb_spec now t); [lia|].
      destruct (N.ltb_spec limit (N.min (0 + 1) U64_MAX)); cbn -[U64_MAX]; lia.
  - rewrite lookup_insert_ne by done. rewrite (bool_decide_false (_ = principal)) by done.
    rewrite andb_false_r. lia.
Qed.

Lemma rate_run_allowance limit t principal calls rates :
  (limit < U64_MAX)%N -> Forall (fun c => (t <= c.1 < t + SECOND)%N) calls ->
  room calls rates ->
  ((rate_run limit principal calls rates).2 <= allowance limit t (rates !! principal))%N.
Proof.
  intros Hl Hc. revert rates. induction Hc as [|[now identity] rest Ht _ IH];
    intros rates Hroom; cbn -[check_rate allowance]; [lia|].
  pose proof (check_rate_pays limit t now identity rates principal Hl Ht
    (check_rate_kept _ _ _ _ Hroom)) as Hp.
  pose proof (room_step limit _ _ _ _ Hroom) as Hroom'.
  destruct (check_rate limit now identity rates) as [rates1 answer].
  specialize (IH rates1 Hroom').
  destruct (rate_run limit principal rest rates1) as [rates2 n]. cbn [snd] in *.
  destruct (is_ok answer && _); lia.
Qed.

(** The rate limiter bounds every second: whatever the history of the
    table, as long as the table has room for all the principals involved, any
    requests that fall within one second admit at most twice the configured
    limit for one principal, and at most the limit itself for a principal the
    table does not know yet. *)
Theorem rate_is_bounded_in_every_second limit t principal calls rates :
  (limit < U64_MAX)%N -> Forall (fun c => (t <= c.1 < t + SECOND)%N) calls ->
  room calls rates ->
  ((rate_run limit principal calls rates).2 <= 2 * limit)%N /\
  (rates !! principal = None -> ((rate_run limit principal calls rates).2 <= limit)%N).
Proof.
  intros Hl Hc Hr. pose proof (rate_run_allowance limit t principal calls rates Hl Hc Hr) as H.
  split.
  - etrans; [exact H|]. unfold allowance. destruct (rates !! principal) as [w|]; [|lia].
    destruct (rate_started w <? t)%N; lia.
  - intros Hn. by rewrite Hn in H.
Qed.

(** Five requests in one second against a limit of three. *)
Definition sample_calls : list (N * string) := [
  (10%N, "alice"); (20%N, "alice/mcp:x"); (30%N, "bob"); (40%N, "alice/mcp:y"); (50%N, "alice")].

Lemma rate_is_bounded_in_every_second_witness :
  ((rate_run 3 "alice" sample_calls ∅).2 <= 3)%N /\
  (rate_run 3 "alice" sample_calls ∅).2 = 3%N.
Proof.
  split; [|vm_compute; reflexivity].
  apply (rate_is_bounded_in_every_second 3 0 "alice" sample_calls ∅).
  - reflexivity.
  - repeat constructor; unfold SECOND; lia.
  - unfold room. vm_compute. lia.
  - reflexivity.
Defined.

(** ** Control of a session *)

(** The controller the caller must hold, with the lease it presents. *)
Definition controls (request : ApiRequest) (caller : Caller) (mode : RequestMode) (now : N)
    (controller : option Controller) : Prop :=
  match controller with
  | Some (CAgent owner) => mode = Agent /\ owner = caller_identity caller
  | Some (CLease lease) =>
      (now < lease_expires_at_unix_ms lease)%N /\ lease_owner lease = caller_identity caller /\
      (mode = Canonical ->
       str_parameter "lease_id" (req_parameters request) = Some (lease_id lease))
  | None => False
  end.

(** The same holder, for no shorter a time. *)
Definition renewed (before after : option Controller) : Prop :=
  match before, after with
  | Some (CLease l), Some (CLease l') =>
      lease_id l' = lease_id l /\ lease_owner l' = lease_owner l /\
      lease_session_id l' = lease_session_id l /\ lease_generation l' = lease_generation l /\
      (lease_expires_at_unix_ms l <= lease_expires_at_unix_ms l')%N
  | _, _ => after = before
  end.

Definition lease_fits (controller : option Controller) : Prop :=
  match controller with
  | Some (CLease l) => (lease_expires_at_unix_ms l <= U64_MAX)%N
  | _ => True
  end.

Lemma renewed_refl c : renewed c c.
Proof. destruct c as [[owner|l]|]; cbn; [done| |done]. split_and!; try done; lia. Qed.

Lemma require_controller_ok request caller mode now lease_ms upsert c c' answer :
  lease_fits c ->
  require_controller request caller mode now lease_ms upsert c = (c', answer) ->
  renewed c c' /\ (answer = Ok tt -> controls request caller mode now c).
Proof.
  intros Hfit. unfold require_controller. destruct c as [[owner|l]|]; intros E.
  - case_match eqn:Hm; simplify_eq; (split; [apply renewed_refl|]); [|done].
    apply andb_true_iff in Hm as [?%bool_decide_eq_true ?%bool_decide_eq_true]. done.
  - unfold lease_is_expired in E.
    destruct (N.leb_spec (lease_expires_at_unix_ms l) now) as [Hx|Hx];
      [simplify_eq; split; [apply renewed_refl|done]|].
    destruct (negb _ || _) eqn:Ho; [simplify_eq; split; [apply renewed_refl|done]|].
    apply orb_false_iff in Ho as [Ho%negb_false_iff%bool_decide_eq_true Hid].
    assert (controls request caller mode now (Some (CLease l))) as Hc.
    { split_and!; [done..|]. intros ->. cbn in Hid.
      by apply negb_false_iff, bool_decide_eq_true in Hid. }
    case_match eqn:Hhalf; simplify_eq; (split; [|done]); [|apply renewed_refl].
    apply andb_true_iff in Hhalf as [_ Hhalf%N.leb_le]. cbn in Hfit |- *.
    split_and!; try done. unfold u64_saturating_add.
    pose proof (N.Div0.div_le_upper_bound (N.max lease_ms 1) 2 (N.max lease_ms 1)). lia.
  - simplify_eq. by split.
Qed.

(** A mutation needs control: when the preconditions are met, then, forced
    cleanup and recovery aside, a canonical request named the current
    revision or accepted the latest one; lease acquisition aside, the caller
    holds the session as its agent or by an unexpired lease of its own that a
    canonical request names; and whether the call succeeds or fails, the
    controller stays with its holder and its lease is never shortened. *)
Theorem mutations_need_control request caller rev mode now lease_ms upsert c c' answer :
  lease_fits c ->
  require_mutation_preconditions request caller rev mode now lease_ms upsert c = (c', answer) ->
  renewed c c' /\
  (answer = Ok tt ->
   req_method request ∉ [SessionForceAbort; SessionAttemptRecovery] ->
   (mode = Canonical ->
      req_expected_revision request = Some rev \/
      (req_expected_revision request = None /\
       (Json.get "accept_latest_revision" (req_parameters request) ≫= Json.as_bool) = Some true)) /\
   (req_method request <> SessionAcquireWriteLease -> controls request caller mode now c)).
Proof.
  intros Hfit. unfold require_mutation_preconditions. case_match eqn:Hfree; intros E.
  { simplify_eq. split; [apply renewed_refl|]. intros _ Hm. exfalso. apply Hm.
    destruct (req_method request); try done; set_solver. }
  destruct (require_expected_revision request rev mode) as [[]|err] eqn:Hrev;
    [|simplify_eq; split; [apply renewed_refl|done]].
  assert (mode = Canonical ->
      req_expected_revision request = Some rev \/
      (req_expected_revision request = None /\
       (Json.get "accept_latest_revision" (req_parameters request) ≫= Json.as_bool) = Some true))
    as Hr.
  { intros ->. unfold require_expected_revision, require_revision in Hrev.
    destruct (req_expected_revision request) as [n|].
    - left. destruct (N.eqb_spec rev n); [by subst|done].
    - right. split; [done|]. by case_decide. }
  case_decide as Hacq.
  - simplify_eq. split; [apply renewed_refl|]. intros _ _. by split.
  - apply require_controller_ok in E as [Hc Ho]; [|done]. split; [done|]. intros Ha _.
    split; [done|]. intros _. by apply Ho.
Qed.

Definition sample_lease : WriteLease := MkWriteLease "lease_1" "sess_a1" "alice" 1000 1.

Definition sample_write : ApiRequest :=
  MkApiRequest API_VERSION "r1" (Some "sess_a1") MemoryWrite (Some 4%N) None
    (Object [("lease_id", Str "lease_1")]).

Lemma mutations_need_control_witness :
  require_mutation_preconditions sample_write (caller_local "alice") 4 Canonical 900 300
    (fun _ => Ok tt) (Some (CLease sample_lease)) =
    (Some (CLease (MkWriteLease "lease_1" "sess_a1" "alice" 1200 1)), Ok tt) /\
  controls sample_write (caller_local "alice") Canonical 900 (Some (CLease sample_lease)).
Proof.
  split; [vm_compute; reflexivity|].
  destruct (mutations_need_control sample_write (caller_local "alice") 4 Canonical 900 300
    (fun _ => Ok tt) (Some (CLease sample_lease))
    (Some (CLease (MkWriteLease "lease_1" "sess_a1" "alice" 1200 1))) (Ok tt)) as [_ H].
  - vm_compute. discriminate.
  - vm_compute. reflexivity.
  - destruct H as [_ H]; [reflexivity|cbn; set_solver|]. apply H. discriminate.
Defined.
