(* ===== verification/MemoryRange.v ===== *)
(** * MemoryRange: which memory reads are ordinary
    ([crates/gdb-ai-core/src/gateway.rs])

    The classification of an address range by the origin of the target and
    the mappings of a local process, and the policy it feeds.  The contents of
    [/proc/<pid>/maps] are an input. *)

From S2P Require Import Prelude Text Json Errors Domain Reducer Policy Access.
Import Method.

Inductive MemoryRangeEffect := Ordinary | Volatile | EffectUnknown.

#[global] Instance MemoryRangeEffect_eq_dec : EqDecision MemoryRangeEffect.
Proof. solve_decision. Defined.

(** The bounds of a mapping, from the first field of its line. *)
Definition map_bounds (fields : list chars) : option (N * N) :=
  match fields with
  | [] => None
  | range :: _ =>
      p ← split_once_char 45 range;
      map_start ← from_str_radix_chars U64_MAX 16 p.1;
      map_end ← from_str_radix_chars U64_MAX 16 p.2;
      Some (map_start, map_end)
  end.

(** The sixth field is the path. *)
Definition is_device (fields : list chars) : bool :=
  starts_with_chars (chars_of "/dev/") (default [] (fields !! 5)).

Fixpoint classify_lines (maps : list chars) (next last : N) (effect : MemoryRangeEffect)
    : MemoryRangeEffect :=
  match maps with
  | [] => EffectUnknown
  | line :: rest =>
      let fields := split_whitespace line in
      match map_bounds fields with
      | None => classify_lines rest next last effect
      | Some (map_start, map_end) =>
          if (map_end <=? next)%N then classify_lines rest next last effect
          else if (next <? map_start)%N then EffectUnknown
          else
            let effect := if is_device fields then Volatile else effect in
            if (last <? map_end)%N then effect
            else classify_lines rest map_end last effect
      end
  end.

Definition classify_linux_maps (maps : string) (start last : N) : MemoryRangeEffect :=
  classify_lines (lines (chars_of maps)) start last Ordinary.

(** [read_maps pid] is [std::fs::read_to_string] of the process. *)
Definition classify_memory_range (read_maps : N -> option string)
    (target_origin : Origin.TargetOrigin) (target_pid : option N) (parameters : Value)
    (address_field : string) : Result Error MemoryRangeEffect :=
  text ← ok_or (Json.get address_field parameters ≫= Json.as_str)
           (Error_new Code.InvalidArgument "memory address is required");
  address ← Address_parse text;
  start ← ok_or (from_str_radix U64_MAX 16 (drop 2 (bytes_of address)))
            (Error_new Code.InvalidArgument "invalid memory address");
  length ← ok_or (Json.get "length" parameters ≫= Json.as_u64)
             (Error_new Code.InvalidArgument "memory length is required");
  let last := (start + (length - 1))%N in
  if (U64_MAX <? last)%N then
    Err (Error_new Code.InvalidArgument "memory range overflows")
  else
    match target_origin with
    | Origin.Core => Ok Ordinary
    | Origin.Remote | Origin.Unknown => Ok EffectUnknown
    | Origin.Local | Origin.Attach =>
        match target_pid with
        | None => Ok EffectUnknown
        | Some pid =>
            match read_maps pid with
            | None => Ok EffectUnknown
            | Some maps => Ok (classify_linux_maps maps start last)
            end
        end
    end.

Fixpoint find_map {A B} (f : A -> option B) (l : list A) : option B :=
  match l with
  | [] => None
  | x :: r => match f x with Some y => Some y | None => find_map f r end
  end.

Definition authorize_observation_memory (read_maps : N -> option string) (profile : Profile)
    (state : SessionState) (parameters : Value) : Result Error unit :=
  let target_pid := find_map inf_pid (btree_values (inferiors state)) in
  effect ← classify_memory_range read_maps (target_origin state) target_pid parameters "address";
  if negb (bool_decide (effect = Ordinary))
  then authorize_method profile MemoryRead VolatileTargetRead
  else Ok tt.

(** ** What the classification means *)

(** A line that maps the address. *)
Definition maps_at (line : chars) (a : N) : Prop :=
  exists lo hi, map_bounds (split_whitespace line) = Some (lo, hi) /\ (lo <= a < hi)%N.

Lemma classify_lines_covered maps next last effect :
  classify_lines maps next last effect <> EffectUnknown ->
  forall a, (next <= a <= last)%N -> exists line, line ∈ maps /\ maps_at line a.
Proof.
  revert next effect. induction maps as [|line maps IH]; intros next effect H a Ha; [done|].
  cbn -[is_device split_whitespace] in H.
  destruct (map_bounds (split_whitespace line)) as [[lo hi]|] eqn:Eb.
  2: { destruct (IH _ _ H a Ha) as (l & ? & ?). exists l. set_solver. }
  destruct (N.leb_spec hi next).
  { destruct (IH _ _ H a Ha) as (l & ? & ?). exists l. set_solver. }
  destruct (N.ltb_spec next lo); [done|].
  destruct (decide (a < hi)%N) as [Hh|Hh].
  { exists line. split; [set_solver|]. exists lo, hi. split; [done|lia]. }
  destruct (N.ltb_spec last hi); [lia|].
  destruct (IH _ _ H a ltac:(lia)) as (l & ? & ?). exists l. set_solver.
Qed.

Lemma classify_lines_ordinary maps next last effect :
  classify_lines maps next last effect = Ordinary ->
  effect = Ordinary /\
  forall a, (next <= a <= last)%N ->
    exists line, line ∈ maps /\ maps_at line a /\ is_device (split_whitespace line) = false.
Proof.
  revert next effect. induction maps as [|line maps IH]; intros next effect H; [done|].
  cbn -[is_device split_whitespace] in H.
  destruct (map_bounds (split_whitespace line)) as [[lo hi]|] eqn:Eb.
  2: { destruct (IH _ _ H) as [-> Hc]. split; [done|]. intros a Ha.
       destruct (Hc a Ha) as (l & ? & ?). exists l. set_solver. }
  destruct (N.leb_spec hi next).
  { destruct (IH _ _ H) as [-> Hc]. split; [done|]. intros a Ha.
    destruct (Hc a Ha) as (l & ? & ?). exists l. set_solver. }
  destruct (N.ltb_spec next lo); [done|].
  destruct (is_device (split_whitespace line)) eqn:Ed.
  { destruct (last <? hi)%N; [done|]. by destruct (IH _ _ H). }
  assert (forall a, (next <= a < hi)%N -> exists line', line' ∈ line :: maps /\
    maps_at line' a /\ is_device (split_whitespace line') = false) as Hhere.
  { intros a Ha. exists line. split_and!; [set_solver| |done]. exists lo, hi. split; [done|lia]. }
  destruct (N.ltb_spec last hi).
  { split; [done|]. intros a Ha. apply Hhere. lia. }
  destruct (IH _ _ H) as [-> Hc]. split; [done|]. intros a Ha.
  destruct (decide (a < hi)%N) as [Hh|Hh]; [apply Hhere; lia|].
  destruct (Hc a ltac:(lia)) as (l & ? & ?). exists l. set_solver.
Qed.

(** The addresses a request reads. *)
Definition reads (parameters : Value) (start length : N) : Prop :=
  exists text address,
    (Json.get "address" parameters ≫= Json.as_str) = Some text /\ Address_parse text = Ok address /\
    from_str_radix U64_MAX 16 (drop 2 (bytes_of address)) = Some start /\
    (Json.get "length" parameters ≫= Json.as_u64) = Some length.

Lemma find_map_elem {A B} (f : A -> option B) l y :
  find_map f l = Some y -> exists x, x ∈ l /\ f x = Some y.
Proof.
  induction l as [|x l IH]; cbn; [done|]. destruct (f x) eqn:E; intros H.
  - simplify_eq. exists x. set_solver.
  - destruct (IH H) as (z & ? & ?). exists z. set_solver.
Qed.

(** An ordinary range, decoded from the request. *)
Lemma classify_ordinary read_maps origin pid parameters :
  classify_memory_range read_maps origin pid parameters "address" = Ok Ordinary ->
  exists start length, reads parameters start length /\ (start + (length - 1) <= U64_MAX)%N /\
    (origin = Origin.Core \/
     exists p maps, pid = Some p /\ read_maps p = Some maps /\
       classify_linux_maps maps start (start + (length - 1)) = Ordinary).
Proof.
  unfold classify_memory_range. intros H.
  apply bind_Ok in H as (text & Ht & H). apply bind_Ok in H as (address & Ha & H).
  apply bind_Ok in H as (start & Hs & H). apply bind_Ok in H as (len & Hl & H).
  exists start, len. unfold ok_or in *.
  destruct (Json.get "address" parameters ≫= Json.as_str) as [t|] eqn:Et; simplify_eq.
  destruct (from_str_radix _ _ _) as [n|] eqn:En; simplify_eq.
  destruct (Json.get "length" parameters ≫= Json.as_u64) as [m|] eqn:Em; simplify_eq.
  split; [by exists text, address|].
  destruct (N.ltb_spec U64_MAX (start + (len - 1))); [done|]. split; [lia|].
  destruct origin; simplify_eq; try (by left); right;
    destruct pid as [p|]; simplify_eq; destruct (read_maps p) as [maps|] eqn:Em'; simplify_eq;
    exists p, maps; done.
Qed.

(** C38: a profile without volatile target reads observes only mapped, ordinary
    memory: when the nested read of an observation is authorized for such a
    profile, the range does not wrap past the end of the address space, and
    either the target is a core file or the process of one of the session's
    inferiors maps every address of the range in a mapping that is not a
    device. *)
Theorem observations_read_ordinary_memory read_maps profile state parameters :
  profile ∈ [OfflineCore; LiveObserver; DebugControl] ->
  authorize_observation_memory read_maps profile state parameters = Ok tt ->
  exists start length, reads parameters start length /\ (start + (length - 1) <= U64_MAX)%N /\
    (target_origin state = Origin.Core \/
     exists key inferior pid maps,
       inferiors state !! key = Some inferior /\ inf_pid inferior = Some pid /\
       read_maps pid = Some maps /\
       forall a, (start <= a <= start + (length - 1))%N ->
         exists line, line ∈ lines (chars_of maps) /\ maps_at line a /\
                      is_device (split_whitespace line) = false).
Proof.
  intros Hp H. unfold authorize_observation_memory in H.
  apply bind_Ok in H as (effect & Hc & H).
  assert (effect = Ordinary) as ->.
  { case_bool_decide; [done|]. exfalso. revert H. rewrite !elem_of_cons, elem_of_nil in Hp.
    by destruct Hp as [->|[->|[->|[]]]]. }
  apply classify_ordinary in Hc as (start & len & Hr & Hmax & Hm).
  exists start, len. split; [done|]. split; [done|]. destruct Hm as [Hm|(p & maps & Hpid & Hmaps & Ho)];
    [by left|right].
  apply find_map_elem in Hpid as (i & Hi & Hip).
  apply elem_of_btree_values in Hi as (k & Hk). exists k, i, p, maps.
  split_and!; try done. by apply classify_lines_ordinary in Ho as [_ Ho].
Qed.

Definition sample_maps : string :=
  "00001000-00002000 r-xp 00000000 08:01 12 /usr/bin/app
00002000-00003000 rw-p 00000000 00:00 0
00003000-00004000 rw-s 00000000 00:05 9 /dev/mem".

Definition sample_state : SessionState :=
  set_target_origin Origin.Local
    (set_inferiors {[ "i1" := set_inf_pid (Some 42%N) (fresh_inferior "sess_a1" 1 "i1") ]}
       (creating "sess_a1")).

Definition sample_parameters (address : string) : Value :=
  Object [("address", Str address); ("length", Int 32)].

Definition sample_read_maps (pid : N) : option string :=
  if (pid =? 42)%N then Some sample_maps else None.

Lemma observations_read_ordinary_memory_witness :
  (exists start length, reads (sample_parameters "0x1ff0") start length /\
                        (start + (length - 1) <= U64_MAX)%N) /\
  is_ok (authorize_observation_memory sample_read_maps DebugControl sample_state
           (sample_parameters "0x2ff0")) = false.
Proof.
  split; [|vm_compute; reflexivity].
  destruct (observations_read_ordinary_memory sample_read_maps DebugControl sample_state
    (sample_parameters "0x1ff0")) as (start & len & Hr & Hm & _).
  - set_solver.
  - vm_compute. reflexivity.
  - by exists start, len.
Defined.
