(* ===== verification/Operations.v ===== *)
(** * Operations: the registry of admitted requests
    ([crates/gdb-ai-core/src/gateway/operation.rs])

    Every canonical request runs as a registered operation that outlives its
    waiter.  The registry, the critical sections of the task that runs an
    operation, of cancellation and of delivery are functions; their
    interleavings are the steps of [system_step], where the transition lock of
    an entry is held by a cancellation that waits for the session actor. *)

From S2P Require Import Prelude Text Json Errors Domain Policy Protocol Access.
Import Method.

Module Status.

Inductive RequestOperationStatus :=
| Accepted | Running | CancelRequested | Succeeded | Failed | OutcomeUnknown | Aborted.

#[global] Instance RequestOperationStatus_eq_dec : EqDecision RequestOperationStatus.
Proof. solve_decision. Defined.

End Status.

Definition terminal (status : Status.RequestOperationStatus) : bool :=
  match status with
  | Status.Succeeded | Status.Failed | Status.OutcomeUnknown | Status.Aborted => true
  | _ => false
  end.

Inductive RequestOperationCancellation := WaiterOnly | ActorScoped.

#[global] Instance RequestOperationCancellation_eq_dec : EqDecision RequestOperationCancellation.
Proof. solve_decision. Defined.

Record RequestOperationRecord := MkRecord {
  op_operation_id : OperationId;
  op_session_id : option string;
  op_method : CanonicalMethod;
  op_effect : Effect;
  op_status : Status.RequestOperationStatus;
  op_admitted_revision : option N;
  op_admitted_execution_epoch : option N;
  op_waiter_deadline_unix_ms : option N;
  op_cancellation : RequestOperationCancellation;
  op_waiter_detached : bool;
  op_result : option ApiResponse
}.

Record OperationTicket := MkTicket {
  ticket_operation_id : OperationId;
  ticket_status : Status.RequestOperationStatus;
  ticket_waitable : bool;
  ticket_cancellation : RequestOperationCancellation;
  ticket_waiter_deadline_unix_ms : option N
}.

Record OperationEntry := MkEntry {
  entry_owner : string;
  entry_record : RequestOperationRecord;
  entry_cancelled : bool;
  entry_cancellation_applied : bool
}.

Record OperationRegistry := MkRegistry {
  reg_entries : gmap string OperationEntry;
  reg_maximum : nat
}.

(** ** Setters *)

Definition set_status (status : Status.RequestOperationStatus) (r : RequestOperationRecord)
    : RequestOperationRecord :=
  MkRecord (op_operation_id r) (op_session_id r) (op_method r) (op_effect r) status
    (op_admitted_revision r) (op_admitted_execution_epoch r) (op_waiter_deadline_unix_ms r)
    (op_cancellation r) (op_waiter_detached r) (op_result r).

Definition set_detached (r : RequestOperationRecord) : RequestOperationRecord :=
  MkRecord (op_operation_id r) (op_session_id r) (op_method r) (op_effect r) (op_status r)
    (op_admitted_revision r) (op_admitted_execution_epoch r) (op_waiter_deadline_unix_ms r)
    (op_cancellation r) true (op_result r).

Definition set_result (status : Status.RequestOperationStatus) (response : ApiResponse)
    (r : RequestOperationRecord) : RequestOperationRecord :=
  MkRecord (op_operation_id r) (op_session_id r) (op_method r) (op_effect r) status
    (op_admitted_revision r) (op_admitted_execution_epoch r) (op_waiter_deadline_unix_ms r)
    (op_cancellation r) (op_waiter_detached r) (Some response).

Definition set_session (session : string) (rev epoch : N) (r : RequestOperationRecord)
    : RequestOperationRecord :=
  MkRecord (op_operation_id r) (Some session) (op_method r) (op_effect r) (op_status r)
    (Some rev) (Some epoch) (op_waiter_deadline_unix_ms r)
    (op_cancellation r) (op_waiter_detached r) (op_result r).

(** [watch::Sender::send_modify] on the record of an entry. *)
Definition modify_record (f : RequestOperationRecord -> RequestOperationRecord)
    (e : OperationEntry) : OperationEntry :=
  MkEntry (entry_owner e) (f (entry_record e)) (entry_cancelled e) (entry_cancellation_applied e).

Definition entry_terminal (e : OperationEntry) : bool := terminal (op_status (entry_record e)).

Definition with_entries (entries : gmap string OperationEntry) (r : OperationRegistry)
    : OperationRegistry := MkRegistry entries (reg_maximum r).

(** ** The registry *)

Definition registry_new (maximum : nat) : OperationRegistry := MkRegistry ∅ (Nat.max maximum 1).

(** The first completed operation in key order. *)
Definition first_completed (entries : gmap string OperationEntry) : option string :=
  fst <$> List.find (fun kv => entry_terminal kv.2) (btree_iter entries).

Definition insert (owner : string) (record : RequestOperationRecord) (r : OperationRegistry)
    : OperationRegistry * Result Error OperationEntry :=
  let entries := reg_entries r in
  let entries :=
    if (reg_maximum r <=? size entries)%nat then
      match first_completed entries with
      | Some completed => delete completed entries
      | None => entries
      end
    else entries in
  if (reg_maximum r <=? size entries)%nat then
    (with_entries entries r,
     Err (retryable (Error_new Code.Conflict "canonical operation registry is full")))
  else
    let entry := MkEntry owner record false false in
    (with_entries (<[op_operation_id record := entry]> entries) r, Ok entry).

Definition may_see (caller : Caller) (e : OperationEntry) : bool :=
  caller_admin caller || same_principal (entry_owner e) (caller_identity caller).

Definition entry (operation_id : string) (caller : Caller) (r : OperationRegistry)
    : Result Error OperationEntry :=
  let missing := Error_new Code.NotFound "operation not found" in
  e ← ok_or (reg_entries r !! operation_id) missing;
  if may_see caller e then Ok e else Err missing.

Definition remove_delivered (operation_id : string) (caller : Caller) (r : OperationRegistry)
    : OperationRegistry * bool :=
  let removable :=
    match reg_entries r !! operation_id with
    | Some e => may_see caller e && entry_terminal e &&
                negb (op_waiter_detached (entry_record e))
    | None => false
    end in
  (if removable then with_entries (delete operation_id (reg_entries r)) r else r, removable).

(** ** Outcomes *)

Definition completed_status (outcome current : Status.RequestOperationStatus)
    (cancellation_applied cooperatively_cancelled : bool) : Status.RequestOperationStatus :=
  if decide (outcome = Status.OutcomeUnknown) then Status.OutcomeUnknown
  else if bool_decide (current = Status.CancelRequested) &&
          (cancellation_applied || cooperatively_cancelled)
  then Status.Aborted
  else outcome.

(** The token of a timeout whose command may still take effect. *)
Definition unknown_token (response : ApiResponse) : option N :=
  error ← resp_error response;
  if decide (api_code error = Code.Timeout) then
    details ← api_details error;
    if decide ((Json.get "outcome_unknown" details ≫= Json.as_bool) = Some true)
    then Json.get "token" details ≫= Json.as_u64 else None
  else None.

Definition operation_status (response : ApiResponse) : Status.RequestOperationStatus :=
  let unresolved :=
    match unknown_token response, resp_state response with
    | Some token, Some state => bool_decide (token ∈ outcome_unknown_tokens state)
    | _, _ => false
    end in
  if unresolved then Status.OutcomeUnknown
  else match resp_error response with
       | Some _ => Status.Failed
       | None => Status.Succeeded
       end.

Definition cooperatively_cancelled (response : ApiResponse) : bool :=
  match resp_error response with
  | Some error => bool_decide (api_code error = Code.Cancelled)
  | None => false
  end.

Definition cancellation_for_request (request : ApiRequest) : RequestOperationCancellation :=
  let resumes := bool_decide (req_method request = ExecutionControl) &&
                 negb (bool_decide (str_parameter "action" (req_parameters request) =
                                    Some "interrupt")) in
  if resumes ||
     match req_method request with
     | TargetLaunch | TargetRestart | AgentProbe | AgentExperiment => true
     | _ => false
     end
  then ActorScoped else WaiterOnly.

(** ** Admission, the task of an operation, cancellation and delivery *)

(** The record [admit_operation_with_mode] registers: the identifier, the
    coordinates of the session and the clock are inputs. *)
Definition admitted_record (operation_id : OperationId) (request : ApiRequest)
    (coordination : option (N * N)) (now : N) (waiter_timeout_ms : option N)
    : RequestOperationRecord :=
  MkRecord operation_id (req_session_id request) (req_method request)
    (effect_for_method (req_method request)) Status.Accepted (fst <$> coordination)
    (snd <$> coordination)
    ((fun timeout => u64_saturating_add now (N.min timeout U64_MAX)) <$> waiter_timeout_ms)
    (cancellation_for_request request) false None.

Definition admit_operation (operation_id : OperationId) (request : ApiRequest) (caller : Caller)
    (coordination : option (N * N)) (now : N) (waiter_timeout_ms : option N)
    (r : OperationRegistry) : OperationRegistry * Result Error OperationTicket :=
  let record := admitted_record operation_id request coordination now waiter_timeout_ms in
  match insert (caller_identity caller) record r with
  | (r, Ok _) =>
      (r, Ok (MkTicket operation_id Status.Accepted true (op_cancellation record)
                (op_waiter_deadline_unix_ms record)))
  | (r, Err e) => (r, Err e)
  end.

Definition modify_entry (operation_id : string) (f : OperationEntry -> OperationEntry)
    (r : OperationRegistry) : OperationRegistry :=
  with_entries (alter f operation_id (reg_entries r)) r.

(** The task's first critical section. *)
Definition start_operation (operation_id : string) : OperationRegistry -> OperationRegistry :=
  modify_entry operation_id (modify_record (fun record =>
    if decide (op_status record = Status.Accepted) then set_status Status.Running record
    else record)).

(** The response of a task that panicked or was dropped. *)
Definition task_failure (request : ApiRequest) (join_error : string) : ApiResponse :=
  failure (MkApiRequest (req_api_version request) (req_request_id request)
             (req_session_id request) (req_method request) None None Null)
    (Error_new Code.Internal ("operation task failed: " +:+ join_error)) None.

(** The task's last critical section. *)
Definition complete_operation (operation_id : string) (response : ApiResponse)
    : OperationRegistry -> OperationRegistry :=
  modify_entry operation_id (fun e =>
    modify_record (fun record =>
      set_result (completed_status (operation_status response) (op_status record)
                    (entry_cancellation_applied e) (cooperatively_cancelled response))
        response record) e).

Definition bind_operation_session (operation_id : string) (session : string) (rev epoch : N)
    : OperationRegistry -> OperationRegistry :=
  modify_entry operation_id (modify_record (set_session session rev epoch)).

Definition detach_operation_waiter (operation_id : string) (caller : Caller)
    (r : OperationRegistry) : OperationRegistry * Result Error RequestOperationRecord :=
  match entry operation_id caller r with
  | Ok e => (modify_entry operation_id (modify_record set_detached) r,
             Ok (set_detached (entry_record e)))
  | Err err => (r, Err err)
  end.

Definition request_cancel (e : OperationEntry) : OperationEntry :=
  MkEntry (entry_owner e) (set_status Status.CancelRequested (entry_record e)) true
    (entry_cancellation_applied e).

(** [cancel_request_operation] up to the call of the session actor, whose
    session identifier it returns. *)
Definition cancel_begin (operation_id : string) (caller : Caller) (r : OperationRegistry)
    : Result Error (OperationRegistry * option string) :=
  e ← entry operation_id caller r;
  let record := entry_record e in
  if terminal (op_status record) then
    Err (Error_new Code.Conflict "operation already completed")
  else if decide (op_cancellation record = ActorScoped) then
    Ok (modify_entry operation_id request_cancel r, op_session_id record)
  else Err (Error_new Code.Unsupported "operation supports waiter detachment only").

Definition apply_cancel (e : OperationEntry) : OperationEntry :=
  MkEntry (entry_owner e) (entry_record e) (entry_cancelled e) true.

(** The rest of it, with the actor's answer. *)
Definition cancel_end (operation_id : string) (answer : Result Error unit)
    (r : OperationRegistry) : OperationRegistry * Result Error unit :=
  match answer with
  | Ok _ => (modify_entry operation_id apply_cancel r, Ok tt)
  | Err e => (r, if decide (err_code e = Code.Conflict) then Ok tt else Err e)
  end.

Inductive OperationCancelMode := InterruptTarget | CloseSession.

(** The parameters of [operation.cancel]. *)
Definition cancel_parameters (parameters : Value)
    : Result Error (string * OperationCancelMode) :=
  operation_id ← ok_or (str_parameter "operation_id" parameters)
                   (Error_new Code.InvalidArgument "operation_id is required");
  match str_parameter "mode" parameters with
  | Some mode =>
      if decide (mode = "interrupt_target") then Ok (operation_id, InterruptTarget)
      else if decide (mode = "close_session") then Ok (operation_id, CloseSession)
      else Err (Error_new Code.InvalidArgument "unsupported operation cancellation mode")
  | None => Err (Error_new Code.InvalidArgument "unsupported operation cancellation mode")
  end.

(** ** Interleavings *)

Inductive task_phase := Spawned | Dispatched | Finished.

#[global] Instance task_phase_eq_dec : EqDecision task_phase.
Proof. solve_decision. Defined.

(** The registry, the phase of the task of every operation ever admitted, and
    the operations whose transition lock a cancellation holds. *)
Record system := MkSystem {
  sys_registry : OperationRegistry;
  sys_tasks : gmap string task_phase;
  sys_locked : gset string
}.

Inductive system_step : system -> system -> Prop :=
| step_admit id request caller coordination now timeout r tasks locked :
    tasks !! id = None -> reg_entries r !! id = None ->
    forall r' ticket, admit_operation id request caller coordination now timeout r = (r', Ok ticket) ->
    system_step (MkSystem r tasks locked) (MkSystem r' (<[id := Spawned]> tasks) locked)
| step_full id request caller coordination now timeout r tasks locked :
    forall r' e, admit_operation id request caller coordination now timeout r = (r', Err e) ->
    system_step (MkSystem r tasks locked) (MkSystem r' tasks locked)
| step_start id r tasks locked :
    tasks !! id = Some Spawned -> id ∉ locked ->
    system_step (MkSystem r tasks locked)
      (MkSystem (start_operation id r) (<[id := Dispatched]> tasks) locked)
| step_bind id session rev epoch r tasks locked :
    tasks !! id = Some Dispatched -> id ∉ locked ->
    system_step (MkSystem r tasks locked)
      (MkSystem (bind_operation_session id session rev epoch r) tasks locked)
| step_complete id response r tasks locked :
    tasks !! id = Some Dispatched -> id ∉ locked ->
    system_step (MkSystem r tasks locked)
      (MkSystem (complete_operation id response r) (<[id := Finished]> tasks) locked)
| step_cancel id caller r tasks locked :
    id ∉ locked ->
    forall r' session, cancel_begin id caller r = Ok (r', session) ->
    system_step (MkSystem r tasks locked)
      (MkSystem r' tasks (match session with Some _ => {[id]} ∪ locked | None => locked end))
| step_cancelled id answer r tasks locked :
    id ∈ locked ->
    system_step (MkSystem r tasks locked)
      (MkSystem (cancel_end id answer r).1 tasks (locked ∖ {[id]}))
| step_detach id caller r tasks locked :
    system_step (MkSystem r tasks locked)
      (MkSystem (detach_operation_waiter id caller r).1 tasks locked)
| step_deliver id caller r tasks locked :
    system_step (MkSystem r tasks locked)
      (MkSystem (remove_delivered id caller r).1 tasks locked).

Definition system_new (maximum : nat) : system := MkSystem (registry_new maximum) ∅ ∅.

Inductive reachable (maximum : nat) : system -> Prop :=
| reach_new : reachable maximum (system_new maximum)
| reach_step s s' : reachable maximum s -> system_step s s' -> reachable maximum s'.

(** What a completed operation's status says about its response. *)
Definition outcome_ok (e : OperationEntry) (response : ApiResponse) : Prop :=
  match op_status (entry_record e) with
  | Status.Succeeded => resp_error response = None
  | Status.Failed => is_Some (resp_error response)
  | Status.OutcomeUnknown =>
      exists token state, unknown_token response = Some token /\
        resp_state response = Some state /\ token ∈ outcome_unknown_tokens state
  | Status.Aborted =>
      entry_cancelled e = true /\
      (entry_cancellation_applied e = true \/ cooperatively_cancelled response = true)
  | _ => False
  end.

(** The invariant of one entry whose task is in [phase]. *)
Record entry_ok (id : string) (phase : task_phase) (locked : bool) (e : OperationEntry)
    : Prop := {
  eo_id : op_operation_id (entry_record e) = id;
  eo_finished : entry_terminal e = true <-> phase = Finished;
  eo_result : match op_result (entry_record e) with
              | Some response => phase = Finished /\ outcome_ok e response
              | None => phase <> Finished
              end;
  eo_accepted : op_status (entry_record e) = Status.Accepted -> phase = Spawned;
  eo_cancelled : entry_cancelled e = true -> op_cancellation (entry_record e) = ActorScoped;
  eo_requested : op_status (entry_record e) = Status.CancelRequested -> entry_cancelled e = true;
  eo_applied : entry_cancellation_applied e = true -> entry_cancelled e = true;
  eo_locked : locked = true -> op_status (entry_record e) = Status.CancelRequested
}.

Record system_ok (s : system) : Prop := {
  so_maximum : 1 <= reg_maximum (sys_registry s);
  so_size : size (reg_entries (sys_registry s)) <= reg_maximum (sys_registry s);
  so_entries : forall id e, reg_entries (sys_registry s) !! id = Some e ->
    exists phase, sys_tasks s !! id = Some phase /\
                  entry_ok id phase (bool_decide (id ∈ sys_locked s)) e;
  so_live : forall id phase, sys_tasks s !! id = Some phase -> phase <> Finished ->
    is_Some (reg_entries (sys_registry s) !! id);
  so_locked : forall id, id ∈ sys_locked s -> is_Some (reg_entries (sys_registry s) !! id)
}.

(** ** Preservation *)

Lemma system_ok_modify r tasks locked id f phase phase' locked' :
  system_ok (MkSystem r tasks locked) -> tasks !! id = Some phase ->
  (forall e, reg_entries r !! id = Some e -> entry_ok id phase (bool_decide (id ∈ locked)) e ->
             entry_ok id phase' (bool_decide (id ∈ locked')) (f e)) ->
  (phase' <> Finished -> phase <> Finished) ->
  (forall j, j <> id -> j ∈ locked' <-> j ∈ locked) ->
  (id ∈ locked' -> is_Some (reg_entries r !! id)) ->
  system_ok (MkSystem (modify_entry id f r) (<[id := phase']> tasks) locked').
Proof.
  intros [Hm Hs He Hl Hk] Hp Hf Hph Hlo Hid. cbn in *. split; cbn.
  - done.
  - rewrite <-(size_dom (D:=gset string)), dom_alter_L, size_dom. exact Hs.
  - intros j e Hj. destruct (decide (j = id)) as [->|Hne].
    + rewrite lookup_alter_eq in Hj. apply fmap_Some in Hj as (e0 & He0 & ->).
      destruct (He _ _ He0) as (ph & Hph' & Hok). rewrite Hp in Hph'. simplify_eq.
      exists phase'. rewrite lookup_insert_eq. split; [done|]. by apply Hf.
    + rewrite lookup_alter_ne in Hj by done. destruct (He _ _ Hj) as (ph & Hph' & Hok).
      exists ph. rewrite lookup_insert_ne by done. split; [done|].
      by rewrite (bool_decide_ext _ _ (Hlo j Hne)).
  - intros j ph Hj Hnf. destruct (decide (j = id)) as [->|Hne].
    + rewrite lookup_insert_eq in Hj. simplify_eq. rewrite lookup_alter_eq.
      destruct (Hl id phase Hp (Hph Hnf)) as [e ->]. by eexists.
    + rewrite lookup_insert_ne in Hj by done. rewrite lookup_alter_ne by done. by eapply Hl.
  - intros j Hj. destruct (decide (j = id)) as [->|Hne].
    + rewrite lookup_alter_eq. destruct (Hid Hj) as [e ->]. by eexists.
    + rewrite lookup_alter_ne by done. apply Hk. by apply Hlo.
Qed.

(** Only completed operations leave the registry. *)
Lemma system_ok_delete r tasks locked id e :
  system_ok (MkSystem r tasks locked) -> reg_entries r !! id = Some e ->
  entry_terminal e = true ->
  system_ok (MkSystem (with_entries (delete id (reg_entries r)) r) tasks locked).
Proof.
  intros [Hm Hs He Hl Hk] Hid Ht. cbn in *.
  destruct (He _ _ Hid) as (ph & Hph & Hok).
  assert (ph = Finished) as -> by (by apply (eo_finished _ _ _ _ Hok)).
  split; cbn; [done| | | |].
  - etrans; [|exact Hs]. apply map_subseteq_size, delete_subseteq.
  - intros j e' [_ Hj]%lookup_delete_Some. by apply He.
  - intros j ph Hj Hnf. rewrite lookup_delete_ne; [by eapply Hl|]. intros ->. congruence.
  - intros j Hj. rewrite lookup_delete_ne; [by apply Hk|]. intros ->.
    pose proof (eo_locked _ _ _ _ Hok) as H. rewrite bool_decide_true in H by done.
    unfold entry_terminal in Ht. by rewrite H in Ht.
Qed.

Lemma first_completed_Some entries id :
  first_completed entries = Some id ->
  exists e, entries !! id = Some e /\ entry_terminal e = true.
Proof.
  unfold first_completed. intros ((k & e) & E & ->)%fmap_Some. apply List.find_some in E as [Hin Ht].
  exists e. split; [|done]. apply list_elem_of_In in Hin. by apply elem_of_btree_iter.
Qed.

Definition evict (r : OperationRegistry) : OperationRegistry :=
  if (reg_maximum r <=? size (reg_entries r))%nat then
    match first_completed (reg_entries r) with
    | Some completed => with_entries (delete completed (reg_entries r)) r
    | None => r
    end
  else r.

Lemma insert_evict owner record r :
  insert owner record r =
    let r := evict r in
    if (reg_maximum r <=? size (reg_entries r))%nat then
      (r, Err (retryable (Error_new Code.Conflict "canonical operation registry is full")))
    else
      let entry := MkEntry owner record false false in
      (with_entries (<[op_operation_id record := entry]> (reg_entries r)) r, Ok entry).
Proof.
  unfold insert, evict. destruct r as [entries maximum]. cbn.
  destruct (maximum <=? size entries)%nat eqn:E; cbn; [|by rewrite E].
  destruct (first_completed entries); cbn; [done|by rewrite E].
Qed.

Lemma evict_ok r tasks locked :
  system_ok (MkSystem r tasks locked) -> system_ok (MkSystem (evict r) tasks locked).
Proof.
  intros H. unfold evict. case_match; [|done].
  destruct (first_completed _) as [id|] eqn:E; [|done].
  apply first_completed_Some in E as (e & He & Ht). by eapply system_ok_delete.
Qed.

Lemma evict_fresh r id :
  reg_entries r !! id = None -> reg_entries (evict r) !! id = None.
Proof.
  intros H. unfold evict. repeat case_match; try done. cbn. by rewrite lookup_delete_None; right.
Qed.

Lemma insert_ok r tasks locked id request caller coordination now timeout r' ticket :
  system_ok (MkSystem r tasks locked) -> tasks !! id = None -> reg_entries r !! id = None ->
  admit_operation id request caller coordination now timeout r = (r', Ok ticket) ->
  system_ok (MkSystem r' (<[id := Spawned]> tasks) locked).
Proof.
  intros Hok%evict_ok Ht Hn%evict_fresh E. unfold admit_operation in E. rewrite insert_evict in E.
  cbn zeta in E. destruct (Nat.leb_spec (reg_maximum (evict r)) (size (reg_entries (evict r))));
    [done|]. simplify_eq. destruct Hok as [Hm Hs He Hl Hk]. cbn in *.
  split; cbn; [done| | | |].
  - rewrite map_size_insert_None by done. lia.
  - intros j e Hj. destruct (decide (j = id)) as [->|Hne].
    + rewrite lookup_insert_eq in Hj. simplify_eq. exists Spawned. rewrite lookup_insert_eq.
      split; [done|]. split; try done. rewrite bool_decide_false; [done|]. intros [e He']%Hk.
      congruence.
    + rewrite lookup_insert_ne in Hj by done. rewrite lookup_insert_ne by done. by apply He.
  - intros j ph Hj Hnf. destruct (decide (j = id)) as [->|Hne].
    + rewrite lookup_insert_eq. by eexists.
    + rewrite lookup_insert_ne in Hj by done. rewrite lookup_insert_ne by done. by eapply Hl.
  - intros j Hj. destruct (decide (j = id)) as [->|Hne].
    + rewrite lookup_insert_eq. by eexists.
    + rewrite lookup_insert_ne by done. by apply Hk.
Qed.

Lemma admit_full r id request caller coordination now timeout r' err :
  admit_operation id request caller coordination now timeout r = (r', Err err) -> r' = evict r.
Proof.
  intros E. unfold admit_operation in E. rewrite insert_evict in E. cbn zeta in E.
  destruct (reg_maximum (evict r) <=? size (reg_entries (evict r)))%nat; by simplify_eq.
Qed.

Lemma operation_status_terminal response : terminal (operation_status response) = true.
Proof. unfold operation_status. repeat case_match; done. Qed.

Lemma completed_status_terminal outcome current applied coop :
  terminal outcome = true -> terminal (completed_status outcome current applied coop) = true.
Proof. intros H. unfold completed_status. repeat case_match; done. Qed.

(** The status a completion writes tells the truth about the response. *)
Lemma completed_outcome_ok response current e :
  op_status (entry_record e) =
    completed_status (operation_status response) current (entry_cancellation_applied e)
      (cooperatively_cancelled response) ->
  (current = Status.CancelRequested -> entry_cancelled e = true) ->
  outcome_ok e response.
Proof.
  intros Hs Hc. unfold outcome_ok. rewrite Hs. unfold completed_status.
  case_decide as Hu.
  - unfold operation_status in Hu. destruct (unknown_token response) as [token|] eqn:Et.
    + destruct (resp_state response) as [state|] eqn:Es.
      * case_bool_decide; [by exists token, state|]. by case_match.
      * by case_match.
    + by case_match.
  - destruct (bool_decide _ && _) eqn:Ha.
    + apply andb_true_iff in Ha as [Hcur%bool_decide_eq_true Ha%orb_true_iff].
      split; [by apply Hc|done].
    + unfold operation_status in *. case_match; [done|]. by destruct (resp_error response).
Qed.

Lemma start_entry_ok id e :
  entry_ok id Spawned false e ->
  entry_ok id Dispatched false (modify_record (fun record =>
    if decide (op_status record = Status.Accepted) then set_status Status.Running record
    else record) e).
Proof.
  intros [Hid Hf Hr Ha Hc Hq Hp Hl]. destruct e as [owner r c ap]. unfold entry_terminal, modify_record in *.
  cbn [entry_record entry_owner entry_cancelled entry_cancellation_applied] in *.
  assert (match op_result r with Some _ => False | None => True end)
    by (by destruct (op_result r) as [?|]; [destruct Hr|]).
  assert (terminal (op_status r) <> true) by (by intros ?%Hf).
  case_decide as Hs; split; cbn; try done; by destruct (op_result r).
Qed.

Lemma complete_entry_ok id response e :
  entry_ok id Dispatched false e ->
  entry_ok id Finished false (modify_record (fun record =>
    set_result (completed_status (operation_status response) (op_status record)
                  (entry_cancellation_applied e) (cooperatively_cancelled response))
      response record) e).
Proof.
  intros [Hid Hf Hr Ha Hc Hq Hp Hl].
  pose proof (completed_status_terminal (operation_status response)
    (op_status (entry_record e)) (entry_cancellation_applied e)
    (cooperatively_cancelled response) (operation_status_terminal response)) as Ht.
  split; cbn; try done.
  - split; [done|]. by eapply completed_outcome_ok.
  - by intros E; rewrite E in Ht.
  - by intros E; rewrite E in Ht.
Qed.

Lemma detach_entry_ok id phase b e :
  entry_ok id phase b e -> entry_ok id phase b (modify_record set_detached e).
Proof. by intros [Hid Hf Hr Ha Hc Hq Hp Hl]; split; cbn; try done. Qed.

Lemma bind_entry_ok id phase b session rev epoch e :
  entry_ok id phase b e -> entry_ok id phase b (modify_record (set_session session rev epoch) e).
Proof. by intros [Hid Hf Hr Ha Hc Hq Hp Hl]; split; cbn; try done. Qed.

Lemma cancel_entry_ok id phase b b' e :
  entry_terminal e = false -> op_cancellation (entry_record e) = ActorScoped ->
  entry_ok id phase b e -> entry_ok id phase b' (request_cancel e).
Proof.
  intros Ht Hac [Hid Hf Hr Ha Hc Hq Hp Hl].
  assert (phase <> Finished) by (intros ?%Hf; congruence).
  split; cbn; try done. destruct (op_result _); [|done]. by destruct Hr.
Qed.

Lemma apply_entry_ok id phase e :
  entry_ok id phase true e -> entry_ok id phase false (apply_cancel e).
Proof.
  intros [Hid Hf Hr Ha Hc Hq Hp Hl]. split; cbn; try done; [|by intros _; auto].
  destruct (op_result _); [|done]. destruct Hr as [-> Ho]. exfalso.
  pose proof (proj2 Hf eq_refl) as Ht. unfold entry_terminal in Ht. by rewrite Hl in Ht.
Qed.

Lemma unlock_entry_ok id phase b e : entry_ok id phase b e -> entry_ok id phase false e.
Proof. by intros [Hid Hf Hr Ha Hc Hq Hp Hl]; split. Qed.

(** A modification that leaves the phase of the task alone. *)
Lemma system_ok_touch r tasks locked id f locked' :
  system_ok (MkSystem r tasks locked) ->
  (forall e phase, reg_entries r !! id = Some e ->
     entry_ok id phase (bool_decide (id ∈ locked)) e ->
     entry_ok id phase (bool_decide (id ∈ locked')) (f e)) ->
  (forall j, j <> id -> j ∈ locked' <-> j ∈ locked) ->
  is_Some (reg_entries r !! id) ->
  system_ok (MkSystem (modify_entry id f r) tasks locked').
Proof.
  intros Hok Hf Hl [e He]. destruct (so_entries _ Hok _ _ He) as (phase & Hp & _).
  cbn in Hp. rewrite <-(insert_id tasks id phase Hp).
  eapply system_ok_modify; try done. intros e'. apply Hf.
Qed.

Lemma modify_entry_id id r : modify_entry id (fun e => e) r = r.
Proof.
  destruct r as [entries maximum]. unfold modify_entry, with_entries. cbn. f_equal.
  apply map_eq. intros j. destruct (decide (j = id)) as [->|Hne].
  - rewrite lookup_alter_eq. by destruct (entries !! id).
  - by rewrite lookup_alter_ne.
Qed.

Lemma entry_Ok id caller r e :
  entry id caller r = Ok e -> reg_entries r !! id = Some e /\ may_see caller e = true.
Proof.
  unfold entry. destruct (reg_entries r !! id); cbn; [|done]. case_match; intros; by simplify_eq.
Qed.

Lemma cancel_begin_Ok id caller r r' session :
  cancel_begin id caller r = Ok (r', session) ->
  exists e, reg_entries r !! id = Some e /\ may_see caller e = true /\
    entry_terminal e = false /\ op_cancellation (entry_record e) = ActorScoped /\
    session = op_session_id (entry_record e) /\ r' = modify_entry id request_cancel r.
Proof.
  unfold cancel_begin. intros (e & He & H)%bind_Ok. apply entry_Ok in He as [He Hs].
  exists e. unfold entry_terminal. destruct (terminal _); [done|]. case_decide; [|done].
  by simplify_eq.
Qed.

Lemma remove_delivered_spec id caller r :
  (remove_delivered id caller r).1 = r \/
  exists e, reg_entries r !! id = Some e /\ may_see caller e = true /\
    entry_terminal e = true /\ op_waiter_detached (entry_record e) = false /\
    (remove_delivered id caller r).1 = with_entries (delete id (reg_entries r)) r.
Proof.
  unfold remove_delivered. destruct (reg_entries r !! id) as [e|] eqn:E; [|by left].
  destruct (may_see caller e && _ && _) eqn:Hr; [right|by left].
  apply andb_true_iff in Hr as [[? ?]%andb_true_iff ?%negb_true_iff]. by exists e.
Qed.

Lemma system_step_ok s s' : system_ok s -> system_step s s' -> system_ok s'.
Proof.
  intros Hok Hstep. destruct Hstep as
    [id request caller coordination now timeout r tasks locked Ht Hn r' ticket E
    |id request caller coordination now timeout r tasks locked r' e E
    |id r tasks locked Ht Hl|id session rev epoch r tasks locked Ht Hl
    |id response r tasks locked Ht Hl|id caller r tasks locked Hl r' session E
    |id answer r tasks locked Hl|id caller r tasks locked|id caller r tasks locked].
  - by eapply insert_ok.
  - apply admit_full in E as ->. by apply evict_ok.
  - eapply system_ok_modify; try done. intros e _. rewrite bool_decide_false by done.
    apply start_entry_ok.
  - apply system_ok_touch with locked; try done; [intros e ph _; apply bind_entry_ok|].
    by eapply (so_live _ Hok).
  - eapply system_ok_modify; try done. intros e _. rewrite bool_decide_false by done.
    apply complete_entry_ok.
  - apply cancel_begin_Ok in E as (e & He & _ & Ht & Hc & _ & ->).
    eapply system_ok_touch; [exact Hok| | |by eexists].
    + intros e' ph He' Hok'. simplify_eq. by eapply cancel_entry_ok.
    + intros j Hj. destruct session; set_solver.
  - assert (is_Some (reg_entries r !! id)) as Hid by by apply (so_locked _ Hok).
    destruct answer as [[]|e]; cbn.
    + eapply system_ok_touch; [exact Hok| |set_solver|done]. intros e ph _.
      rewrite bool_decide_true, bool_decide_false by set_solver. apply apply_entry_ok.
    + rewrite <-(modify_entry_id id r). eapply system_ok_touch; [exact Hok| |set_solver|done].
      intros e' ph _. rewrite (bool_decide_false (id ∈ _ ∖ _)) by set_solver.
      apply unlock_entry_ok.
  - unfold detach_operation_waiter. destruct (entry id caller r) as [e|] eqn:E; [|done].
    apply entry_Ok in E as [He _]. cbn.
    eapply system_ok_touch; [exact Hok|intros e' ph _; apply detach_entry_ok|done|by eexists].
  - destruct (remove_delivered_spec id caller r) as [->|(e & He & _ & Ht & _ & ->)]; [done|].
    by eapply system_ok_delete.
Qed.

Lemma reachable_ok maximum s : reachable maximum s -> system_ok s.
Proof.
  induction 1 as [|s s' _ IH Hstep]; [|by eapply system_step_ok].
  split; cbn; try done; [lia|apply Nat.le_0_l].
Qed.

(** ** The properties *)

Lemma system_step_maximum s s' :
  system_step s s' -> reg_maximum (sys_registry s') = reg_maximum (sys_registry s).
Proof.
  assert (forall r, reg_maximum (evict r) = reg_maximum r) as Hev
    by (intros r; unfold evict; by repeat case_match).
  destruct 1 as [? ? ? ? ? ? r ? ? _ _ ? ? E|? ? ? ? ? ? r ? ? ? ? E| | | |
                 ? ? ? ? ? _ ? ? E|? [[]|] ? ? ? _|? caller r|]; cbn; try done.
  1,2: unfold admit_operation in E; rewrite insert_evict in E; cbn zeta in E; rewrite Hev in E;
       destruct (reg_maximum r <=? _)%nat; simplify_eq; cbn; by rewrite ?Hev.
  - by apply cancel_begin_Ok in E as (_ & _ & _ & _ & _ & _ & ->).
  - unfold detach_operation_waiter. by case_match.
  - unfold remove_delivered. by repeat case_match.
Qed.

Lemma reachable_maximum maximum s :
  reachable maximum s -> reg_maximum (sys_registry s) = Nat.max maximum 1.
Proof. induction 1; [done|]. by erewrite system_step_maximum. Qed.

(** C36: an admitted operation is tracked to its outcome: in every reachable
    state the registry holds at most the configured number of operations, no
    operation whose task is still running is ever missing from it, and an
    operation is terminal exactly when its response is recorded, the status
    telling the truth about that response (succeeded: no error; outcome
    unknown: a timeout whose token is still unresolved; aborted: the operation
    was cancelled and the actor applied the cancellation or the operation
    reported it; failed: an error). *)
Theorem operations_are_tracked_to_their_outcome maximum s :
  reachable maximum s ->
  size (reg_entries (sys_registry s)) <= Nat.max maximum 1 /\
  (forall id phase, sys_tasks s !! id = Some phase -> phase <> Finished ->
     exists e, reg_entries (sys_registry s) !! id = Some e /\ entry_terminal e = false) /\
  (forall id e, reg_entries (sys_registry s) !! id = Some e ->
     (entry_terminal e = true <-> is_Some (op_result (entry_record e))) /\
     (forall response, op_result (entry_record e) = Some response -> outcome_ok e response)).
Proof.
  intros Hr. pose proof (reachable_maximum _ _ Hr) as Hm. apply reachable_ok in Hr as Hok.
  split_and!.
  - rewrite <-Hm. apply Hok.
  - intros id ph Ht Hnf. destruct (so_live _ Hok _ _ Ht Hnf) as [e He]. exists e.
    split; [done|]. destruct (so_entries _ Hok _ _ He) as (ph' & Ht' & Heo).
    rewrite Ht in Ht'. simplify_eq. apply not_true_iff_false. by intros ?%(eo_finished _ _ _ _ Heo).
  - intros id e He. destruct (so_entries _ Hok _ _ He) as (ph & _ & Heo).
    pose proof (eo_result _ _ _ _ Heo) as Hres. rewrite (eo_finished _ _ _ _ Heo).
    destruct (op_result (entry_record e)) as [resp|].
    + destruct Hres. split; [by split; [eexists|]|]. intros ? [= <-]. done.
    + split; [|done]. split; [done|]. by intros [].
Qed.

(** What a step may do to the entry of a completed operation. *)
Lemma modify_final id f r j e :
  reg_entries r !! j = Some e -> (j = id -> op_status (entry_record (f e)) = op_status (entry_record e) /\
    op_result (entry_record (f e)) = op_result (entry_record e)) ->
  exists e', reg_entries (modify_entry id f r) !! j = Some e' /\
    op_status (entry_record e') = op_status (entry_record e) /\
    op_result (entry_record e') = op_result (entry_record e).
Proof.
  intros He Hf. cbn. destruct (decide (j = id)) as [->|Hne].
  - rewrite lookup_alter_eq, He. exists (f e). split; [done|]. by apply Hf.
  - rewrite lookup_alter_ne by done. by exists e.
Qed.

Lemma evict_final r j e :
  reg_entries r !! j = Some e ->
  reg_entries (evict r) !! j = None \/ reg_entries (evict r) !! j = Some e.
Proof.
  intros He. unfold evict. repeat case_match; try (by right). cbn.
  destruct (decide (j = s)) as [->|Hne]; [left; apply lookup_delete_eq|right].
  by rewrite lookup_delete_ne.
Qed.

Lemma admit_final id request caller coordination now timeout r j e :
  reg_entries r !! j = Some e -> j <> id ->
  reg_entries (admit_operation id request caller coordination now timeout r).1 !! j = None \/
  reg_entries (admit_operation id request caller coordination now timeout r).1 !! j = Some e.
Proof.
  intros He Hne. unfold admit_operation. rewrite insert_evict. cbn zeta.
  destruct (evict_final r j e He) as [Hx|Hx]; [left|right];
    (destruct (reg_maximum (evict r) <=? _)%nat; cbn; [done|by rewrite lookup_insert_ne]).
Qed.

(** Outcomes are final: no step of any task, canceller, waiter or new
    admission changes the status or the response of a completed operation; a
    completed operation can only be dropped as a whole. *)
Theorem outcomes_are_final maximum s s' id e :
  reachable maximum s -> system_step s s' ->
  reg_entries (sys_registry s) !! id = Some e -> entry_terminal e = true ->
  reg_entries (sys_registry s') !! id = None \/
  exists e', reg_entries (sys_registry s') !! id = Some e' /\
    op_status (entry_record e') = op_status (entry_record e) /\
    op_result (entry_record e') = op_result (entry_record e).
Proof.
  intros Hok%reachable_ok Hstep He Ht.
  destruct (so_entries _ Hok _ _ He) as (ph & Hph & Heo).
  assert (ph = Finished) as -> by (by apply (eo_finished _ _ _ _ Heo)).
  destruct Hstep as
    [i request caller coordination now timeout r tasks locked Hi Hn r' ticket E
    |i request caller coordination now timeout r tasks locked r' err E
    |i r tasks locked Hi Hl|i session rev epoch r tasks locked Hi Hl
    |i response r tasks locked Hi Hl|i caller r tasks locked Hl r' session E
    |i answer r tasks locked Hl|i caller r tasks locked|i caller r tasks locked]; cbn [sys_registry sys_tasks] in *.
  - destruct (admit_final i request caller coordination now timeout r id e He) as [H|H];
      [by intros ->; rewrite Hph in Hi| |]; rewrite E in H; [by left|right; by exists e].
  - apply admit_full in E as ->. destruct (evict_final r id e He); [by left|right; by exists e].
  - right. apply modify_final; [done|]. intros ->. by rewrite Hph in Hi.
  - right. by apply modify_final.
  - right. apply modify_final; [done|]. intros ->. by rewrite Hph in Hi.
  - right. apply cancel_begin_Ok in E as (e' & He' & _ & Ht' & _ & _ & ->).
    apply modify_final; [done|]. intros ->. congruence.
  - right. destruct answer as [[]|err]; cbn; [by apply modify_final|by exists e].
  - right. unfold detach_operation_waiter. destruct (entry i caller r); cbn;
      [by apply modify_final|by exists e].
  - destruct (remove_delivered_spec i caller r) as [->|(e' & _ & _ & _ & _ & ->)];
      [right; by exists e|]. cbn. destruct (decide (id = i)) as [->|Hne].
    + left. apply lookup_delete_eq.
    + right. rewrite lookup_delete_ne by done. by exists e.
Qed.

(** The two steps that bring a task to its end, whatever cancellation holds
    the lock. *)
Lemma unlock_path s id :
  exists s', rtc system_step s s' /\ id ∉ sys_locked s' /\ sys_tasks s' = sys_tasks s.
Proof.
  destruct s as [r tasks locked]. destruct (decide (id ∈ locked)) as [Hl|Hl].
  - eexists. split; [apply rtc_once, (step_cancelled id (Ok tt)); done|]. cbn. set_solver.
  - by exists (MkSystem r tasks locked).
Qed.

Lemma start_path s id phase :
  sys_tasks s !! id = Some phase -> phase <> Finished -> id ∉ sys_locked s ->
  exists s', rtc system_step s s' /\ id ∉ sys_locked s' /\ sys_tasks s' !! id = Some Dispatched.
Proof.
  destruct s as [r tasks locked]. cbn. intros Hp Hnf Hl. destruct phase; [| |done].
  - eexists. split; [by apply rtc_once, (step_start id)|]. cbn. by rewrite lookup_insert_eq.
  - by exists (MkSystem r tasks locked).
Qed.

Lemma reachable_rtc maximum s s' :
  reachable maximum s -> rtc system_step s s' -> reachable maximum s'.
Proof. intros H Hrtc. revert H. induction Hrtc; [done|]. intros H1. apply IHHrtc. by eapply reach_step. Qed.

(** No operation gets stuck: from every reachable state, an operation whose
    task has not finished can be brought to its end with any response, whether
    or not it was started and whether or not a cancellation is under way, and
    that response is then recorded for it. *)
Theorem operations_can_complete maximum s id phase response :
  reachable maximum s -> sys_tasks s !! id = Some phase -> phase <> Finished ->
  exists s' e, rtc system_step s s' /\ sys_tasks s' !! id = Some Finished /\
    reg_entries (sys_registry s') !! id = Some e /\
    op_result (entry_record e) = Some response /\ entry_terminal e = true.
Proof.
  intros Hr Hp Hnf. destruct (unlock_path s id) as (s1 & H1 & Hl1 & Ht1).
  rewrite <-Ht1 in Hp. destruct (start_path s1 id phase Hp Hnf Hl1) as (s2 & H2 & Hl2 & Ht2).
  assert (reachable maximum s2) as Hr2 by (eapply reachable_rtc; [done|]; by etrans).
  destruct (so_live _ (reachable_ok _ _ Hr2) id Dispatched Ht2 ltac:(done)) as [e He].
  destruct s2 as [r tasks locked]. cbn in *. eexists _, _. split_and!.
  - etrans; [exact H1|]. etrans; [exact H2|]. apply rtc_once.
    by apply (step_complete id response).
  - cbn. apply lookup_insert_eq.
  - cbn. by rewrite lookup_alter_eq, He.
  - done.
  - apply completed_status_terminal, operation_status_terminal.
Qed.

(** C37: operations are visible to their owner only: to a caller that is
    neither an administrator nor the owner's principal, an operation answers
    every request exactly as if it did not exist, and no such request changes
    the registry. *)
Theorem foreign_operations_are_invisible id caller r e :
  reg_entries r !! id = Some e -> may_see caller e = false ->
  let absent := with_entries (delete id (reg_entries r)) r in
  entry id caller r = entry id caller absent /\
  cancel_begin id caller r = Err (Error_new Code.NotFound "operation not found") /\
  cancel_begin id caller absent = Err (Error_new Code.NotFound "operation not found") /\
  detach_operation_waiter id caller r =
    (r, Err (Error_new Code.NotFound "operation not found")) /\
  remove_delivered id caller r = (r, false).
Proof.
  intros He Hs. cbn zeta.
  assert (entry id caller r = Err (Error_new Code.NotFound "operation not found")) as E1
    by (unfold entry; rewrite He; cbn; by rewrite Hs).
  assert (entry id caller (with_entries (delete id (reg_entries r)) r) =
    Err (Error_new Code.NotFound "operation not found")) as E2
    by (unfold entry; cbn; by rewrite lookup_delete_eq).
  unfold cancel_begin, detach_operation_waiter, remove_delivered.
  rewrite E1, E2, He, Hs. by split_and!.
Qed.

(** ** A launch that is cancelled before it has a session *)

Definition sample_launch : ApiRequest :=
  MkApiRequest API_VERSION "r7" None TargetLaunch None None Null.

Definition sample_owner : Caller := caller_local "alice".
Definition sample_cancelled : ApiResponse :=
  failure sample_launch (Error_new Code.Cancelled "cancelled") None.

Definition sample_admitted : system :=
  MkSystem (admit_operation "op_1" sample_launch sample_owner None 5 (Some 10%N) (registry_new 1)).1
    {[ "op_1" := Spawned ]} ∅.

Definition sample_cancelling : system :=
  MkSystem
    (match cancel_begin "op_1" sample_owner (sys_registry sample_admitted) with
     | Ok (r, _) => r
     | Err _ => sys_registry sample_admitted
     end) {[ "op_1" := Spawned ]} ∅.

Definition sample_aborted : system :=
  MkSystem (complete_operation "op_1" sample_cancelled
              (start_operation "op_1" (sys_registry sample_cancelling)))
    (<[ "op_1" := Finished ]> (<[ "op_1" := Dispatched ]> {[ "op_1" := Spawned ]})) ∅.

Lemma sample_admitted_reachable : reachable 1 sample_admitted.
Proof.
  eapply reach_step; [apply reach_new|].
  eapply (step_admit "op_1" sample_launch sample_owner None 5 (Some 10%N)); try reflexivity.
Qed.

Lemma sample_cancelling_reachable : reachable 1 sample_cancelling.
Proof.
  eapply reach_step; [apply sample_admitted_reachable|].
  apply (step_cancel "op_1" sample_owner (sys_registry sample_admitted) _ ∅ ltac:(set_solver)
           (sys_registry sample_cancelling) None).
  vm_compute. reflexivity.
Qed.

Lemma sample_aborted_reachable : reachable 1 sample_aborted.
Proof.
  eapply reach_step; [eapply reach_step; [apply sample_cancelling_reachable|]|].
  - by apply (step_start "op_1").
  - by apply (step_complete "op_1" sample_cancelled).
Qed.

Definition sample_entry (s : system) : OperationEntry :=
  default (MkEntry "" (admitted_record "" sample_launch None 0 None) false false)
    (reg_entries (sys_registry s) !! "op_1").

Lemma operations_are_tracked_to_their_outcome_witness :
  op_status (entry_record (sample_entry sample_aborted)) = Status.Aborted /\
  outcome_ok (sample_entry sample_aborted) sample_cancelled.
Proof.
  split; [vm_compute; reflexivity|].
  destruct (operations_are_tracked_to_their_outcome 1 sample_aborted) as (_ & _ & H).
  - apply sample_aborted_reachable.
  - apply (H "op_1"); vm_compute; reflexivity.
Defined.

Lemma outcomes_are_final_witness :
  let s' := MkSystem (detach_operation_waiter "op_1" sample_owner (sys_registry sample_aborted)).1
              (sys_tasks sample_aborted) ∅ in
  reg_entries (sys_registry s') !! "op_1" = None \/
  exists e', reg_entries (sys_registry s') !! "op_1" = Some e' /\
    op_status (entry_record e') = op_status (entry_record (sample_entry sample_aborted)) /\
    op_result (entry_record e') = op_result (entry_record (sample_entry sample_aborted)).
Proof.
  cbv zeta. apply (outcomes_are_final 1 sample_aborted).
  - apply sample_aborted_reachable.
  - apply step_detach.
  - vm_compute. reflexivity.
  - vm_compute. reflexivity.
Defined.

Lemma operations_can_complete_witness :
  exists s' e, rtc system_step sample_cancelling s' /\ sys_tasks s' !! "op_1" = Some Finished /\
    reg_entries (sys_registry s') !! "op_1" = Some e /\
    op_result (entry_record e) = Some sample_cancelled /\ entry_terminal e = true.
Proof.
  apply (operations_can_complete 1 sample_cancelling "op_1" Spawned sample_cancelled).
  - apply sample_cancelling_reachable.
  - reflexivity.
  - discriminate.
Defined.

Lemma foreign_operations_are_invisible_witness :
  remove_delivered "op_1" (caller_local "bob") (sys_registry sample_aborted) =
    (sys_registry sample_aborted, false).
Proof.
  apply (foreign_operations_are_invisible "op_1" (caller_local "bob")
           (sys_registry sample_aborted) (sample_entry sample_aborted)).
  - vm_compute. reflexivity.
  - vm_compute. reflexivity.
Defined.
