(* ===== verification/Wait.v ===== *)
(** * Wait: waiting for a state ([crates/gdb-ai-core/src/session.rs])

    The predicates a waiter evaluates on every published state, its failure
    and timeout results, and the wait loop over the states a watch channel
    delivers. *)

From S2P Require Import Prelude Text Json Errors Domain Reducer ReducerInv ReducerProps.

Module Until.

Inductive WaitUntil := Running | Stopped | Settled | Snapshot | Exited.

#[global] Instance WaitUntil_eq_dec : EqDecision WaitUntil.
Proof. solve_decision. Defined.

End Until.

(** The derived [Debug] names and the wire names of a status. *)
Definition until_debug (u : Until.WaitUntil) : string :=
  match u with
  | Until.Running => "Running" | Until.Stopped => "Stopped" | Until.Settled => "Settled"
  | Until.Snapshot => "Snapshot" | Until.Exited => "Exited"
  end.

Definition status_debug (s : Inferior.InferiorStatus) : string :=
  match s with
  | Inferior.Empty => "Empty" | Inferior.Connecting => "Connecting"
  | Inferior.Stopped => "Stopped" | Inferior.Running => "Running"
  | Inferior.Exited => "Exited" | Inferior.Detached => "Detached"
  | Inferior.Disconnected => "Disconnected" | Inferior.Core => "Core"
  | Inferior.Unknown => "Unknown"
  end.

Definition status_wire (s : Inferior.InferiorStatus) : string :=
  match s with
  | Inferior.Empty => "EMPTY" | Inferior.Connecting => "CONNECTING"
  | Inferior.Stopped => "STOPPED" | Inferior.Running => "RUNNING"
  | Inferior.Exited => "EXITED" | Inferior.Detached => "DETACHED"
  | Inferior.Disconnected => "DISCONNECTED" | Inferior.Core => "CORE"
  | Inferior.Unknown => "UNKNOWN"
  end.

(** [Option::is_none_or]. *)
Definition is_none_or {A} (o : option A) (p : A -> bool) : bool :=
  match o with Some a => p a | None => true end.

Definition any_status (status : Inferior.InferiorStatus) (state : SessionState) : bool :=
  existsb (fun i => bool_decide (inf_status i = status)) (btree_values (inferiors state)).

Definition after_baseline (state : SessionState) (baseline : option WaitBaseline) : bool :=
  is_none_or baseline (fun b => wb_event_seq b <? event_seq state)%N.

Definition stopped_after (state : SessionState) (baseline : option WaitBaseline) : bool :=
  after_baseline state baseline && bool_decide (is_Some (stop_id state)) &&
  is_none_or baseline (fun b => negb (bool_decide (stop_id state = wb_stop_id b))) &&
  any_status Inferior.Stopped state.

(** An inferior that became terminal in a generation the baseline did not
    count as terminal. *)
Definition newly_terminal (baseline : option WaitBaseline) (backend_id : string)
    (inferior : InferiorState) : bool :=
  terminal_status (inf_status inferior) &&
  is_none_or baseline (fun b =>
    match wb_terminal_inferior_generations b !! backend_id with
    | None => negb (bool_decide (backend_id ∈ wb_terminal_inferiors b))
    | Some generation => negb (generation =? inf_generation inferior)%N
    end).

Definition terminal_after (state : SessionState) (baseline : option WaitBaseline)
    : option InferiorState :=
  snd <$> List.find (fun e => newly_terminal baseline e.1 e.2) (btree_iter (inferiors state)).

Definition exited_after (state : SessionState) (baseline : option WaitBaseline) : bool :=
  bool_decide (is_Some (terminal_after state baseline)).

Definition settled_by (state : SessionState) (baseline : option WaitBaseline) : option string :=
  if stopped_after state baseline then Some "stopped"
  else if exited_after state baseline then Some "exited" else None.

Definition wait_satisfied (state : SessionState) (until : Until.WaitUntil)
    (baseline : option WaitBaseline) : bool :=
  match until with
  | Until.Running =>
      match baseline with
      | None => any_status Inferior.Running state
      | Some b => (wb_execution_epoch b <? execution_epoch state)%N
      end
  | Until.Stopped => stopped_after state baseline
  | Until.Settled => bool_decide (is_Some (settled_by state baseline))
  | Until.Snapshot =>
      match snapshot state with
      | Some snap =>
          after_baseline state baseline &&
          bool_decide (snap_status snap = Snapshot.Ready) &&
          is_none_or baseline (fun b =>
            negb (bool_decide (Some (snap_stop_id snap) = wb_stop_id b)))
      | None => false
      end
  | Until.Exited => exited_after state baseline
  end.

Definition epoch_matches (state : SessionState) (expected : option N) : bool :=
  is_none_or expected (fun e => execution_epoch state =? e)%N.

Definition wait_timeout_result (state : SessionState) (until : Until.WaitUntil)
    (baseline : option WaitBaseline) (expected : option N) : Result Error SessionState :=
  if epoch_matches state expected && wait_satisfied state until baseline then Ok state
  else Err (retryable (Error_new Code.Timeout "state wait timed out")).

(** The error of a wait that can no longer be satisfied. *)
Definition terminal_error (inferior : InferiorState) (until : Until.WaitUntil) : Error :=
  let code := if decide (inf_status inferior = Inferior.Exited) then Code.TargetExited
              else Code.TargetDisconnected in
  with_details
    (Object [("inferior_id", Str (inf_id inferior));
             ("status", Str (status_wire (inf_status inferior)));
             ("exit_code", match inf_exit_code inferior with Some c => Str c | None => Null end)])
    (Error_new code ("target became " +:+ status_debug (inf_status inferior) +:+ " before " +:+
                     until_debug until)).

Definition inspect_wait_state (state : SessionState) (until : Until.WaitUntil)
    (baseline : option WaitBaseline) (expected : option N) : Result Error bool :=
  if match expected with Some e => (e <? execution_epoch state)%N | None => false end then
    Err (Error_new Code.StaleContext "operation state was superseded by a later execution")
  else if epoch_matches state expected && wait_satisfied state until baseline then Ok true
  else
    let impossible :=
      if epoch_matches state expected &&
         negb (bool_decide (until = Until.Settled)) && negb (bool_decide (until = Until.Exited))
      then terminal_after state baseline else None in
    match impossible with
    | Some inferior => Err (terminal_error inferior until)
    | None =>
        if bool_decide (lifecycle state = Lifecycle.Closed) ||
           bool_decide (lifecycle state = Lifecycle.Failed) ||
           bool_decide (backend state = Backend.Dead)
        then Err (Error_new Code.GdbExited "GDB session ended")
        else if bool_decide (consistency state = Consistent.Lost) then
          Err (Error_new Code.ConsistencyLost "session consistency was lost while waiting")
        else if reconciliation_required state && after_baseline state baseline then
          Err (Error_new Code.ConsistencyDirty
                 "session requires reconciliation after an unexpected backend result")
        else Ok false
    end.

(** How a wait ends when no inspected state decides it: the channel closes,
    or the timer fires while the channel holds a last state. *)
Inductive wait_end := ChannelClosed | Elapsed (current : SessionState).

(** [wait_from]: the loop over the states the channel delivers. *)
Fixpoint wait_from (until : Until.WaitUntil) (baseline : option WaitBaseline)
    (expected : option N) (observed : list SessionState) (ending : wait_end)
    : Result Error SessionState :=
  match observed with
  | [] =>
      match ending with
      | ChannelClosed => Err (Error_new Code.GdbExited "session state channel closed")
      | Elapsed current => wait_timeout_result current until baseline expected
      end
  | state :: rest =>
      match inspect_wait_state state until baseline expected with
      | Err e => Err e
      | Ok true => Ok state
      | Ok false => wait_from until baseline expected rest ending
      end
  end.

(** ** What a finished wait proves *)

Lemma steps_reachable session s s' : reachable session s -> rtc step s s' -> reachable session s'.
Proof. unfold reachable. intros. by etrans. Qed.

(** A stop that is current later on is the earlier one or a new one. *)
Lemma steps_stop_new session s s' stop :
  reachable session s -> rtc step s s' -> stop_id s' = Some stop ->
  stop_id s = Some stop \/
  exists k, (event_seq s < k <= event_seq s')%N /\ stop = StopId_from_event (session_id s) k.
Proof.
  intros Hr H. induction H as [s|s s1 s2 Hst Hrest IH]; intros Hs; [by left|].
  assert (reachable session s1) as Hr1 by (eapply steps_reachable; [done|by apply rtc_once]).
  destruct (step_frame _ _ Hst) as [Hid Hle].
  destruct (IH Hr1 Hs) as [H1|(k & Hk & ->)]; cycle 1.
  { right. exists k. rewrite Hid. split; [lia|done]. }
  destruct (step_stop_id _ _ Hst) as [E|[E|(k & Hk & E)]]; [left; congruence|congruence|].
  right. rewrite E in H1. simplify_eq. exists k. split; [|done].
  assert (issued_stop s2 (StopId_from_event (session_id s) k)) as (k' & Hk' & E')
    by (eapply current_stop_issued; [|done]; eapply reachable_wf, steps_reachable; done).
  assert (session_id s2 = session_id s) as E2.
  { rewrite <-Hid. clear -Hrest. induction Hrest as [|? ? ? Hst' _ IH']; [done|].
    by rewrite IH'; apply (step_frame _ _ Hst'). }
  rewrite E2 in E'. apply (inj _) in E'. lia.
Qed.

(** What each wait asks for, relative to the state it started from. *)
Definition new_stop (s0 s : SessionState) : Prop :=
  (exists k, (event_seq s0 < k <= event_seq s)%N /\
             stop_id s = Some (StopId_from_event (session_id s0) k)) /\
  exists key i, inferiors s !! key = Some i /\ inf_status i = Inferior.Stopped.

Definition new_exit (s0 s : SessionState) : Prop :=
  exists key i, inferiors s !! key = Some i /\ terminal_status (inf_status i) = true /\
    forall i0, inferiors s0 !! key = Some i0 -> terminal_status (inf_status i0) = true ->
      inf_generation i0 <> inf_generation i.

Definition wait_goal (until : Until.WaitUntil) (s0 s : SessionState) : Prop :=
  match until with
  | Until.Running => (execution_epoch s0 < execution_epoch s)%N
  | Until.Stopped => new_stop s0 s
  | Until.Settled => new_stop s0 s \/ new_exit s0 s
  | Until.Snapshot =>
      exists snap, snapshot s = Some snap /\ snap_status snap = Snapshot.Ready /\
        stop_id s0 <> Some (snap_stop_id snap)
  | Until.Exited => new_exit s0 s
  end.

Lemma any_status_spec status s :
  any_status status s = true -> exists key i, inferiors s !! key = Some i /\ inf_status i = status.
Proof.
  intros (i & Hi & E)%existsb_exists. apply list_elem_of_In, elem_of_btree_values in Hi as [k Hk].
  exists k, i. by apply bool_decide_eq_true in E.
Qed.

Lemma stopped_after_new session s0 s :
  reachable session s0 -> rtc step s0 s ->
  stopped_after s (Some (WaitBaseline_of s0)) = true -> new_stop s0 s.
Proof.
  intros Hr Hst H. unfold stopped_after in H.
  apply andb_true_iff in H as [[[_ Hs]%andb_true_iff Hne]%andb_true_iff Hany].
  apply bool_decide_eq_true in Hs as [stop Hs]. cbn in Hne.
  apply negb_true_iff, bool_decide_eq_false in Hne.
  split; [|by apply any_status_spec].
  destruct (steps_stop_new session s0 s stop Hr Hst Hs) as [H0|(k & Hk & ->)]; [congruence|].
  exists k. by split.
Qed.

Lemma exited_after_new s0 s :
  exited_after s (Some (WaitBaseline_of s0)) = true -> new_exit s0 s.
Proof.
  unfold exited_after, terminal_after. intros H%bool_decide_eq_true.
  destruct (List.find _ _) as [[k i]|] eqn:E; [|by destruct H].
  apply List.find_some in E as [Hin Hn]. apply list_elem_of_In, elem_of_btree_iter in Hin.
  unfold newly_terminal in Hn. cbn [fst snd] in Hn. apply andb_true_iff in Hn as [Ht Hb].
  exists k, i. split_and!; [done..|]. intros i0 Hi0 Ht0 Hg.
  cbn [is_none_or] in Hb. unfold WaitBaseline_of in Hb. cbn in Hb.
  assert (filter (fun e : string * InferiorState => terminal_status (inf_status e.2) = true)
    (inferiors s0) !! k = Some i0) as Hf by (by apply map_lookup_filter_Some).
  rewrite lookup_fmap, Hf in Hb. cbn in Hb. by rewrite Hg, N.eqb_refl in Hb.
Qed.

Lemma wait_satisfied_goal session until s0 s :
  reachable session s0 -> rtc step s0 s ->
  wait_satisfied s until (Some (WaitBaseline_of s0)) = true -> wait_goal until s0 s.
Proof.
  intros Hr Hst H. destruct until; cbn [wait_satisfied wait_goal] in *.
  - by apply N.ltb_lt in H.
  - by eapply stopped_after_new.
  - unfold settled_by in H. apply bool_decide_eq_true in H.
    destruct (stopped_after _ _) eqn:E1; [left; by eapply stopped_after_new|].
    destruct (exited_after _ _) eqn:E2; [right; by apply exited_after_new|by destruct H].
  - destruct (snapshot s) as [snap|]; [|done].
    apply andb_true_iff in H as [[_ Hr']%andb_true_iff Hne]. exists snap.
    apply bool_decide_eq_true in Hr'. cbn in Hne. apply negb_true_iff, bool_decide_eq_false in Hne.
    split_and!; [done..|]. by intros E.
  - by apply exited_after_new.
Qed.

Definition wait_candidate (observed : list SessionState) (ending : wait_end) (s : SessionState)
    : Prop := s ∈ observed \/ ending = Elapsed s.

Lemma wait_from_Ok until baseline expected observed ending s :
  wait_from until baseline expected observed ending = Ok s ->
  wait_candidate observed ending s /\ epoch_matches s expected = true /\
  wait_satisfied s until baseline = true.
Proof.
  induction observed as [|x rest IH]; cbn -[inspect_wait_state].
  - destruct ending as [|current]; [done|]. unfold wait_timeout_result.
    destruct (epoch_matches _ _ && _) eqn:E; [|done]. intros [= <-].
    apply andb_true_iff in E as []. split; [by right|done].
  - destruct (inspect_wait_state x until baseline expected) as [[]|e] eqn:E; [| |done].
    + intros [= ->]. unfold inspect_wait_state in E. case_match; [done|].
      destruct (epoch_matches s expected && _) eqn:E2; [|repeat (case_match; try done)].
      apply andb_true_iff in E2 as []. split; [left; set_solver|done].
    + intros H. destruct (IH H) as [Hc ?]. split; [|done].
      destruct Hc; [left; set_solver|by right].
Qed.

(** C40: a wait reports something new of its own execution: whatever states the
    channel delivers after the baseline was taken, a wait that succeeds
    returns one of them whose execution epoch is the expected one, and that
    state shows what was waited for as an event after the baseline: a stop
    issued later than the baseline's last event, an inferior that was not
    already terminal in that generation, a later epoch, a ready snapshot of
    another stop. *)
Theorem waits_report_new_outcomes session s0 until expected observed ending s :
  reachable session s0 ->
  (forall s', wait_candidate observed ending s' -> rtc step s0 s') ->
  wait_from until (Some (WaitBaseline_of s0)) expected observed ending = Ok s ->
  wait_candidate observed ending s /\ wait_goal until s0 s /\
  (forall epoch, expected = Some epoch -> execution_epoch s = epoch).
Proof.
  intros Hr Hc H. apply wait_from_Ok in H as (Hcand & He & Hs). split; [done|]. split.
  - eapply wait_satisfied_goal; [done|by apply Hc|done].
  - intros epoch ->. by apply N.eqb_eq in He.
Qed.

Lemma waits_report_new_outcomes_witness :
  wait_from Until.Stopped (Some (WaitBaseline_of at_first_stop)) (Some 2%N)
    [at_first_stop; resumed; at_second_stop] ChannelClosed = Ok at_second_stop /\
  new_stop at_first_stop at_second_stop.
Proof.
  assert (wait_from Until.Stopped (Some (WaitBaseline_of at_first_stop)) (Some 2%N)
    [at_first_stop; resumed; at_second_stop] ChannelClosed = Ok at_second_stop) as E
    by (vm_compute; reflexivity).
  split; [exact E|].
  apply (waits_report_new_outcomes sample_session at_first_stop Until.Stopped (Some 2%N)
    [at_first_stop; resumed; at_second_stop] ChannelClosed at_second_stop).
  - exact at_first_stop_reachable.
  - intros s' [Hs|Hs]; [|discriminate].
    rewrite !elem_of_cons, elem_of_nil in Hs. destruct Hs as [->|[->|[->|[]]]].
    + reflexivity.
    + exact resume_steps.
    + etrans; [exact resume_steps|exact second_stop_steps].
  - exact E.
Defined.

(** A waiter sleeps only while its wait can still come true: a state that
    leaves a wait undecided belongs to a session that is neither closed nor
    failed, whose backend lives and whose consistency is not lost, with no
    reconciliation outstanding since the baseline; its epoch has not passed
    the expected one; and, once the expected epoch has begun, it neither
    satisfies the wait nor has an inferior terminated since the baseline
    (unless an exit is what is waited for). *)
Theorem waiters_sleep_only_with_hope state until baseline expected :
  inspect_wait_state state until baseline expected = Ok false ->
  lifecycle state <> Lifecycle.Closed /\ lifecycle state <> Lifecycle.Failed /\
  backend state <> Backend.Dead /\ consistency state <> Consistent.Lost /\
  (after_baseline state baseline = true -> reconciliation_required state = false) /\
  (forall epoch, expected = Some epoch -> (execution_epoch state <= epoch)%N) /\
  (epoch_matches state expected = true ->
     wait_satisfied state until baseline = false /\
     (until ∈ [Until.Running; Until.Stopped; Until.Snapshot] ->
      terminal_after state baseline = None)).
Proof.
  unfold inspect_wait_state. intros H.
  destruct (match expected with Some e => _ | None => _ end) eqn:Hlate; [done|].
  destruct (epoch_matches state expected && wait_satisfied _ _ _) eqn:Hsat; [done|].
  destruct (if _ && _ && _ then terminal_after state baseline else None) eqn:Himp; [done|].
  destruct (bool_decide _ || _ || _) eqn:Hdead; [done|].
  apply orb_false_iff in Hdead as [[Hc Hf]%orb_false_iff Hd].
  apply bool_decide_eq_false in Hc, Hf, Hd.
  case_bool_decide as Hlost; [done|].
  destruct (reconciliation_required state && _) eqn:Hrec; [done|].
  split_and!; try done.
  - intros Ha. rewrite Ha, andb_true_r in Hrec. done.
  - intros epoch ->. by apply N.ltb_ge in Hlate.
  - intros He. rewrite He in *. split; [done|]. intros Hu.
    rewrite !bool_decide_false in Himp by (intros ->; set_solver). done.
Qed.

Lemma waiters_sleep_only_with_hope_witness :
  inspect_wait_state resumed Until.Stopped (Some (WaitBaseline_of at_first_stop)) (Some 2%N)
    = Ok false /\
  backend resumed <> Backend.Dead.
Proof.
  assert (inspect_wait_state resumed Until.Stopped (Some (WaitBaseline_of at_first_stop))
    (Some 2%N) = Ok false) as E by (vm_compute; reflexivity).
  split; [exact E|]. apply (waiters_sleep_only_with_hope _ _ _ _ E).
Defined.
