(* ===== verification/Effects.v ===== *)
(** * Effects: stateful computations that may fail

    A method that takes [&mut self] and returns a [Result] is a computation
    over the state of [self].  [wp m Q s] says that [m], run from [s], returns
    or reports an error (it neither panics nor runs out of fuel) and that its
    answer and final state satisfy [Q].  Records are updated by field. *)

From S2P Require Import Prelude Errors.

Definition comp (S A : Type) : Type := S -> S * outcome Error A.

#[export] Instance comp_ret {S} : MRet (comp S) := fun A a s => (s, Done a).
#[export] Instance comp_bind {S} : MBind (comp S) := fun A B f m s =>
  match m s with
  | (s', Done a) => f a s'
  | (s', Fail e) => (s', Fail e)
  | (s', Panic) => (s', Panic)
  | (s', OutOfFuel) => (s', OutOfFuel)
  end.

Section operations.
Context {S A : Type}.

Definition gets (f : S -> A) : comp S A := fun s => (s, Done (f s)).
Definition fail (e : Error) : comp S A := fun s => (s, Fail e).
Definition panic : comp S A := fun s => (s, Panic).
Definition out_of_fuel : comp S A := fun s => (s, OutOfFuel).

(** The [?] operator on a [Result]. *)
Definition lift (r : Result Error A) : comp S A := fun s =>
  match r with Ok a => (s, Done a) | Err e => (s, Fail e) end.

(** A call whose [Result] is inspected instead of returned. *)
Definition attempt (m : comp S A) : comp S (Result Error A) := fun s =>
  match m s with
  | (s', Done a) => (s', Done (Ok a))
  | (s', Fail e) => (s', Done (Err e))
  | (s', Panic) => (s', Panic)
  | (s', OutOfFuel) => (s', OutOfFuel)
  end.

End operations.

Definition modify {S} (f : S -> S) : comp S unit := fun s => (f s, Done tt).

Definition when {S} (b : bool) (m : comp S unit) : comp S unit :=
  if b then m else mret tt.

(** [Option::unwrap]. *)
Definition unwrap {S A} (o : option A) : comp S A :=
  match o with Some a => mret a | None => panic end.

(** ** Weakest preconditions *)

Definition wp {S A} (m : comp S A) (Q : Result Error A -> S -> Prop) (s : S) : Prop :=
  match m s with
  | (s', Done a) => Q (Ok a) s'
  | (s', Fail e) => Q (Err e) s'
  | _ => False
  end.

Section rules.
Context {S : Type}.
Implicit Types s : S.

Lemma wp_mono {A} (m : comp S A) (Q Q' : Result Error A -> S -> Prop) s :
  wp m Q s -> (forall r s', Q r s' -> Q' r s') -> wp m Q' s.
Proof. unfold wp. destruct (m s) as [s' []]; eauto. Qed.

Lemma wp_ret {A} (a : A) (Q : Result Error A -> S -> Prop) s :
  Q (Ok a) s -> wp (mret a) Q s.
Proof. done. Qed.

Lemma wp_bind {A B} (m : comp S A) (f : A -> comp S B) (Q : Result Error B -> S -> Prop) s :
  wp m (fun r s' => match r with Ok a => wp (f a) Q s' | Err e => Q (Err e) s' end) s ->
  wp (m ≫= f) Q s.
Proof. unfold wp, mbind, comp_bind. destruct (m s) as [s' []]; eauto. Qed.

Lemma wp_assoc {A B C} (m : comp S A) (f : A -> comp S B) (g : B -> comp S C)
    (Q : Result Error C -> S -> Prop) s :
  wp ((m ≫= f) ≫= g) Q s -> wp (m ≫= fun a => f a ≫= g) Q s.
Proof. unfold wp, mbind, comp_bind. by destruct (m s) as [s' []]. Qed.

Lemma wp_gets {A} (f : S -> A) (Q : Result Error A -> S -> Prop) s :
  Q (Ok (f s)) s -> wp (gets f) Q s.
Proof. done. Qed.

Lemma wp_modify (f : S -> S) (Q : Result Error unit -> S -> Prop) s :
  Q (Ok tt) (f s) -> wp (modify f) Q s.
Proof. done. Qed.

Lemma wp_fail {A} e (Q : Result Error A -> S -> Prop) s : Q (Err e) s -> wp (fail e) Q s.
Proof. done. Qed.

Lemma wp_lift {A} (r : Result Error A) (Q : Result Error A -> S -> Prop) s :
  Q r s -> wp (lift r) Q s.
Proof. by destruct r. Qed.

Lemma wp_attempt {A} (m : comp S A) (Q : Result Error (Result Error A) -> S -> Prop) s :
  wp m (fun r s' => Q (Ok r) s') s -> wp (attempt m) Q s.
Proof. unfold wp, attempt. destruct (m s) as [s' []]; eauto. Qed.

Lemma wp_when b (m : comp S unit) (Q : Result Error unit -> S -> Prop) s :
  (b = true -> wp m Q s) -> (b = false -> Q (Ok tt) s) -> wp (when b m) Q s.
Proof. destruct b; [intros H _; by apply H|intros _ H; by apply H]. Qed.

Lemma wp_and {A} (m : comp S A) (Q Q' : Result Error A -> S -> Prop) s :
  wp m Q s -> wp m Q' s -> wp m (fun r s' => Q r s' /\ Q' r s') s.
Proof. unfold wp. destruct (m s) as [s' []]; eauto. Qed.

(** A computation that settles anyway, under a further assumption. *)
Lemma wp_assuming {A} (P : Prop) (m : comp S A) (Q : Result Error A -> S -> Prop) s :
  wp m (fun _ _ => True) s -> (P -> wp m Q s) -> wp m (fun r s' => P -> Q r s') s.
Proof. unfold wp. destruct (m s) as [s' []]; eauto. Qed.

Lemma wp_settles {A} (m : comp S A) (Q : Result Error A -> S -> Prop) s :
  wp m Q s -> settles (m s).2.
Proof. unfold wp. by destruct (m s) as [s' []]. Qed.

Lemma wp_run {A} (m : comp S A) (Q : Result Error A -> S -> Prop) s s' a :
  wp m Q s -> m s = (s', Done a) -> Q (Ok a) s'.
Proof. unfold wp. intros H E. by rewrite E in H. Qed.

Lemma wp_run_err {A} (m : comp S A) (Q : Result Error A -> S -> Prop) s s' e :
  wp m Q s -> m s = (s', Fail e) -> Q (Err e) s'.
Proof. unfold wp. intros H E. by rewrite E in H. Qed.

End rules.

(** Symbolic execution up to the first call that needs a specification. *)
Ltac wp_pure :=
  repeat first
    [ apply wp_bind | apply wp_ret | apply wp_gets | apply wp_modify
    | apply wp_lift | apply wp_fail | apply wp_attempt ].

(** ** Field update *)

(** [update field f] is the function that replaces [field] of a record by its
    image.  The instance is computed from the eta expansion of the record. *)
Class Updatable (R : Type) := eta_record : R -> R.
Class Updater {R T : Type} (field : R -> T) := update : (T -> T) -> R -> R.
Arguments update {R T} field {_} f r.

Ltac solve_updater :=
  match goal with
  | |- @Updater ?R ?T ?field =>
      let eta := constr:(_ : Updatable R) in
      let body := eval hnf in eta in
      let abstracted := eval pattern field in body in
      match abstracted with
      | ?g _ =>
          let u := eval cbv beta in
            (fun (f : T -> T) (r : R) => g (fun r' => f (field r')) r) in
          exact u
      end
  end.

#[export] Hint Extern 1 (Updater _) => solve_updater : typeclass_instances.

Notation "r <| field := v |>" := (update field (fun _ => v) r)
  (at level 12, left associativity, field at next level, v at level 99).
