(* ===== verification/Program.v ===== *)
(** * Program: computations that interact with their surroundings

    An [async] method that reads shared state, takes locks and calls other
    tasks is a tree of operations: it performs an operation, is given its
    answer, and goes on.  Whatever other tasks do in between shows in the
    answers only, so a fact about every sequence of answers holds under every
    interleaving.  [safe ok Q m tr] says that, after the events [tr], every
    operation [m] performs is allowed by [ok] and every end satisfies [Q]. *)

From S2P Require Import Prelude Errors Effects.

(** The operations and the type of the answer to each. *)
Structure Sig := MkSig { op : Type; answer : op -> Type }.

Inductive prog (E : Sig) (A : Type) : Type :=
| Ret (a : A)
| Do (o : op E) (k : answer E o -> prog E A).
Arguments Ret {E A} a.
Arguments Do {E A} o k.

(** An operation with its answer; the last event of a trace comes first. *)
Definition event (E : Sig) : Type := { o : op E & answer E o }.
Definition trace (E : Sig) : Type := list (event E).
Definition ev {E : Sig} (o : op E) (x : answer E o) : event E := existT o x.

Fixpoint bind_prog {E A B} (m : prog E A) (f : A -> prog E B) : prog E B :=
  match m with
  | Ret a => f a
  | Do o k => Do o (fun x => bind_prog (k x) f)
  end.

(** A method with local state [S] that may fail. *)
Definition act (E : Sig) (S A : Type) : Type := S -> prog E (S * outcome Error A).

#[export] Instance act_ret {E S} : MRet (act E S) := fun A a s => Ret (s, Done a).
#[export] Instance act_bind {E S} : MBind (act E S) := fun A B f m s =>
  bind_prog (m s) (fun r =>
    match r with
    | (s', Done a) => f a s'
    | (s', Fail e) => Ret (s', Fail e)
    | (s', Panic) => Ret (s', Panic)
    | (s', OutOfFuel) => Ret (s', OutOfFuel)
    end).

Section operations.
Context {E : Sig} {S : Type}.

Definition perform (o : op E) : act E S (answer E o) := fun s =>
  Do o (fun x => Ret (s, Done x)).

(** Local reads, writes and failures of [Effects]. *)
Definition local {A} (m : comp S A) : act E S A := fun s => Ret (m s).

(** The [?] operator on a [Result]. *)
Definition check {A} (r : Result Error A) : act E S A := local (lift r).

(** An operation whose answer is a [Result] that is returned with [?]. *)
Definition attempt {A} (m : act E S A) : act E S (Result Error A) := fun s =>
  bind_prog (m s) (fun r =>
    match r with
    | (s', Done a) => Ret (s', Done (Ok a))
    | (s', Fail e) => Ret (s', Done (Err e))
    | (s', Panic) => Ret (s', Panic)
    | (s', OutOfFuel) => Ret (s', OutOfFuel)
    end).

(** [m] between two operations, the second of which is the drop of a guard:
    it happens however [m] ends. *)
Definition scoped {A} (b : bool) (first last : act E S unit) (m : act E S A) : act E S A :=
  if b then
    _ ← first;
    r ← attempt m;
    _ ← last;
    check r
  else m.

Definition perform_when (b : bool) (m : act E S unit) : act E S unit :=
  if b then m else mret tt.

End operations.

(** An operation whose answer is a [Result]. *)
Notation call o := (x ← perform o; check x) (only parsing).

(** A method without local state inside one that has some. *)
Definition lift_act {E S A} (m : act E unit A) : act E S A := fun s =>
  bind_prog (m tt) (fun r => Ret (s, r.2)).

(** ** Reasoning *)

Section safety.
Context {E : Sig} (ok : trace E -> op E -> Prop).

Fixpoint safe {A} (Q : A -> trace E -> Prop) (m : prog E A) (tr : trace E) : Prop :=
  match m with
  | Ret a => Q a tr
  | Do o k => ok tr o /\ forall x, safe Q (k x) (ev o x :: tr)
  end.

Lemma safe_mono {A} (Q Q' : A -> trace E -> Prop) m tr :
  safe Q m tr -> (forall a tr', Q a tr' -> Q' a tr') -> safe Q' m tr.
Proof.
  intros H HQ. revert tr H. induction m as [a|o k IH]; intros tr; cbn; [apply HQ|].
  intros [Ho Hk]. split; [done|]. intros x. by apply IH.
Qed.

Lemma safe_then {A B} (m : prog E A) (f : A -> prog E B) Q tr :
  safe (fun a => safe Q (f a)) m tr -> safe Q (bind_prog m f) tr.
Proof.
  revert tr. induction m as [a|o k IH]; intros tr; cbn; [done|].
  intros [Ho Hk]. split; [done|]. intros x. by apply IH.
Qed.

(** The computation reached after some events. *)
Inductive reaches {A} : prog E A -> trace E -> prog E A -> trace E -> Prop :=
| reaches_here m tr : reaches m tr m tr
| reaches_step o k x tr m' tr' :
    reaches (k x) (ev o x :: tr) m' tr' -> reaches (Do o k) tr m' tr'.

Lemma safe_reaches {A} (Q : A -> trace E -> Prop) m tr m' tr' :
  safe Q m tr -> reaches m tr m' tr' -> safe Q m' tr'.
Proof.
  intros H Hr. revert H. induction Hr as [|o k x tr m' tr' Hr IH]; [done|].
  intros [_ Hk]. by apply IH.
Qed.

(** The operations of a trace were allowed when they were performed. *)
Fixpoint happened (tr : trace E) : Prop :=
  match tr with
  | [] => True
  | e :: tr => ok tr (projT1 e) /\ happened tr
  end.

Lemma happened_reaches {A} (Q : A -> trace E -> Prop) m tr m' tr' :
  safe Q m tr -> happened tr -> reaches m tr m' tr' -> happened tr'.
Proof.
  intros H Hh Hr. revert H Hh. induction Hr as [|o k x tr m' tr' Hr IH]; [done|].
  intros [Ho Hk] Hh. by apply IH.
Qed.

(** Weakest preconditions of methods: unless a panic is let pass, they neither
    panic nor run out of fuel. *)
Context (lax : bool).

Definition wpa {S A} (m : act E S A) (Q : Result Error A -> S -> trace E -> Prop)
    (s : S) (tr : trace E) : Prop :=
  safe (fun r tr' =>
    match r with
    | (s', Done a) => Q (Ok a) s' tr'
    | (s', Fail e) => Q (Err e) s' tr'
    | _ => lax = true
    end) (m s) tr.

Section rules.
Context {S : Type}.
Implicit Types (s : S) (tr : trace E).

Lemma wpa_mono {A} (m : act E S A) (Q Q' : Result Error A -> S -> trace E -> Prop) s tr :
  wpa m Q s tr -> (forall r s' tr', Q r s' tr' -> Q' r s' tr') -> wpa m Q' s tr.
Proof. intros H HQ. apply (safe_mono _ _ _ _ H). intros [s' []] tr'; auto. Qed.

Lemma wpa_ret {A} (a : A) (Q : Result Error A -> S -> trace E -> Prop) s tr :
  Q (Ok a) s tr -> wpa (mret a) Q s tr.
Proof. done. Qed.

Lemma wpa_bind {A B} (m : act E S A) (f : A -> act E S B)
    (Q : Result Error B -> S -> trace E -> Prop) s tr :
  wpa m (fun r s' tr' =>
    match r with Ok a => wpa (f a) Q s' tr' | Err e => Q (Err e) s' tr' end) s tr ->
  wpa (m ≫= f) Q s tr.
Proof.
  intros H. unfold wpa, mbind, act_bind. apply safe_then. apply (safe_mono _ _ _ _ H).
  by intros [s' []] tr'.
Qed.

Lemma wpa_perform (o : op E) (Q : Result Error (answer E o) -> S -> trace E -> Prop) s tr :
  ok tr o -> (forall x, Q (Ok x) s (ev o x :: tr)) -> wpa (perform o) Q s tr.
Proof. intros Ho H. split; [done|]. intros x. apply H. Qed.

Lemma wpa_local {A} (m : comp S A) (Q : Result Error A -> S -> trace E -> Prop) s tr :
  wp m (fun r s' => Q r s' tr) s -> wpa (local m) Q s tr.
Proof. unfold wpa, wp, local. cbn. by destruct (m s) as [s' []]. Qed.

Lemma wpa_unwrap {A} (o : option A) (Q : Result Error A -> S -> trace E -> Prop) s tr :
  (o = None -> lax = true) -> (forall a, o = Some a -> Q (Ok a) s tr) ->
  wpa (local (unwrap o)) Q s tr.
Proof. destruct o as [a|]; intros Hn Hs; cbn; [by apply Hs|by apply Hn]. Qed.

Lemma wpa_check {A} (r : Result Error A) (Q : Result Error A -> S -> trace E -> Prop) s tr :
  Q r s tr -> wpa (check r) Q s tr.
Proof. intros H. apply wpa_local. by apply wp_lift. Qed.

Lemma wpa_attempt {A} (m : act E S A) (Q : Result Error (Result Error A) -> S -> trace E -> Prop) s tr :
  wpa m (fun r s' tr' => Q (Ok r) s' tr') s tr -> wpa (attempt m) Q s tr.
Proof.
  intros H. unfold wpa, attempt. apply safe_then. apply (safe_mono _ _ _ _ H).
  by intros [s' []] tr'.
Qed.

Lemma wpa_scoped {A} (b : bool) (first last : act E S unit) (m : act E S A)
    (Q : Result Error A -> S -> trace E -> Prop) s tr :
  (if b then
     wpa first (fun r s tr =>
       match r with
       | Ok _ => wpa m (fun r s tr =>
           wpa last (fun r' s tr => match r' with Ok _ => Q r s tr | Err e => Q (Err e) s tr end) s tr)
           s tr
       | Err e => Q (Err e) s tr
       end) s tr
   else wpa m Q s tr) ->
  wpa (scoped b first last m) Q s tr.
Proof.
  unfold scoped. destruct b; [|done]. intros H. apply wpa_bind. apply (wpa_mono _ _ _ _ _ H).
  intros [_|e] s1 tr1; [|done]. intros H1. apply wpa_bind, wpa_attempt.
  apply (wpa_mono _ _ _ _ _ H1). intros r s2 tr2 H2. apply wpa_bind.
  apply (wpa_mono _ _ _ _ _ H2). intros [_|e] s3 tr3; [|done]. intros H3. by apply wpa_check.
Qed.

Lemma wpa_lift_act {A} (m : act E unit A) (Q : Result Error A -> S -> trace E -> Prop) s tr :
  wpa m (fun r _ tr' => Q r s tr') tt tr -> wpa (lift_act m) Q s tr.
Proof.
  intros H. unfold wpa, lift_act. apply safe_then. apply (safe_mono _ _ _ _ H).
  intros [[] []] tr' Hr; exact Hr.
Qed.

End rules.
End safety.

Arguments reaches {E A} m tr m' tr'.

Lemma reaches_next {E : Sig} {A} (m : prog E A) tr o (k : answer E o -> prog E A) tr' x :
  reaches m tr (Do o k) tr' -> reaches m tr (k x) (ev o x :: tr').
Proof.
  intros H. remember (Do o k) as n eqn:En. revert k En.
  induction H as [m tr|o' k' x' tr m' tr' H IH]; intros k ->.
  - apply (reaches_step o k x), reaches_here.
  - apply (reaches_step o' k' x'). by apply IH.
Qed.

(** Symbolic execution of the parts of a method that perform no operation. *)
Ltac wpa_step :=
  first
    [ apply wpa_ret | apply wpa_bind | apply wpa_check | apply wpa_attempt
    | apply wpa_scoped; cbv beta iota ].

(** ** Execution against a deterministic surrounding *)

Fixpoint interp {E : Sig} {A W : Type} (handle : forall o : op E, W -> answer E o * W)
    (m : prog E A) (w : W) : A * W :=
  match m with
  | Ret a => (a, w)
  | Do o k => let '(x, w') := handle o w in interp handle (k x) w'
  end.

(** The events of that execution. *)
Fixpoint interp_trace {E : Sig} {A W : Type} (handle : forall o : op E, W -> answer E o * W)
    (m : prog E A) (w : W) (tr : trace E) : trace E :=
  match m with
  | Ret _ => tr
  | Do o k => let '(x, w') := handle o w in interp_trace handle (k x) w' (ev o x :: tr)
  end.

Lemma interp_reaches {E : Sig} {A W} (handle : forall o : op E, W -> answer E o * W)
    (m : prog E A) w tr :
  reaches m tr (Ret (interp handle m w).1) (interp_trace handle m w tr).
Proof.
  revert w tr. induction m as [a|o k IH]; intros w tr; cbn; [constructor|].
  destruct (handle o w) as [x w']. apply (reaches_step o k x). apply IH.
Qed.

(** The computation followed along given answers up to an operation of interest. *)
Fixpoint advance {E : Sig} {A : Type} (answers : forall o : op E, answer E o)
    (stop : op E -> bool) (m : prog E A) (tr : trace E) : prog E A * trace E :=
  match m with
  | Ret _ => (m, tr)
  | Do o k => if stop o then (m, tr) else advance answers stop (k (answers o)) (ev o (answers o) :: tr)
  end.

Lemma advance_reaches {E : Sig} {A} (answers : forall o : op E, answer E o) stop
    (m : prog E A) tr :
  reaches m tr (advance answers stop m tr).1 (advance answers stop m tr).2.
Proof.
  revert tr. induction m as [a|o k IH]; intros tr; cbn; [constructor|].
  destruct (stop o); [constructor|]. apply (reaches_step o k (answers o)). apply IH.
Qed.

(** ** Methods that perform only some operations *)

Fixpoint within {E : Sig} {A : Type} (P : op E -> Prop) (m : prog E A) : Prop :=
  match m with
  | Ret _ => True
  | Do o k => P o /\ forall x, within P (k x)
  end.

Lemma within_bind_prog {E : Sig} {A B} (P : op E -> Prop) (m : prog E A) (f : A -> prog E B) :
  within P m -> (forall a, within P (f a)) -> within P (bind_prog m f).
Proof.
  intros Hm Hf. induction m as [a|o k IH]; cbn; [apply Hf|].
  destruct Hm as [Ho Hk]. split; [done|]. intros x. by apply IH.
Qed.

(** Their operations are allowed under an invariant of the trace they keep. *)
Lemma safe_within {E : Sig} {A} (P : op E -> Prop) (ok : trace E -> op E -> Prop)
    (I : trace E -> Prop) (m : prog E A) tr :
  within P m -> I tr ->
  (forall tr o, P o -> I tr -> ok tr o) ->
  (forall tr o x, P o -> I tr -> I (ev o x :: tr)) ->
  safe ok (fun _ tr' => I tr') m tr.
Proof.
  intros Hw Hi Hok HI. revert tr Hi. induction m as [a|o k IH]; intros tr Hi; cbn; [done|].
  destruct Hw as [Ho Hk]. split; [by apply Hok|]. intros x. apply IH; [done|]. by apply HI.
Qed.

Class Within {E : Sig} {S A : Type} (P : op E -> Prop) (m : act E S A) : Prop :=
  within_all : forall s, within P (m s).

Section within.
Context {E : Sig} {S : Type} (P : op E -> Prop).

Lemma Within_ret {A} (a : A) : Within P (mret a : act E S A).
Proof. done. Qed.

Lemma Within_local {A} (m : comp S A) : Within P (local m : act E S A).
Proof. done. Qed.

Lemma Within_check {A} (r : Result Error A) : Within P (check r : act E S A).
Proof. done. Qed.

Lemma Within_perform o : P o -> Within P (perform o : act E S (answer E o)).
Proof. by intros H s; split. Qed.

Lemma Within_bind {A B} (m : act E S A) (f : A -> act E S B) :
  Within P m -> (forall a, Within P (f a)) -> Within P (m ≫= f).
Proof. intros Hm Hf s. apply within_bind_prog; [apply Hm|]. intros [s' []]; try done. apply Hf. Qed.

Lemma Within_attempt {A} (m : act E S A) : Within P m -> Within P (attempt m).
Proof. intros Hm s. apply within_bind_prog; [apply Hm|]. by intros [s' []]. Qed.

Lemma Within_scoped {A} (b : bool) (first last : act E S unit) (m : act E S A) :
  (b = true -> Within P first /\ Within P last) -> Within P m -> Within P (scoped b first last m).
Proof.
  intros Hb Hm. unfold scoped. destruct b; [|done]. destruct Hb as [Hf Hl]; [done|].
  apply Within_bind; [done|]. intros _. apply Within_bind; [by apply Within_attempt|].
  intros r. apply Within_bind; [done|]. intros _. apply Within_check.
Qed.

Lemma Within_when b (m : act E S unit) : Within P m -> Within P (perform_when b m).
Proof. intros Hm. destruct b; [done|apply Within_ret]. Qed.
End within.
