(* ===== verification/Actor.v ===== *)
(** * Actor: the session actor ([crates/gdb-ai-core/src/session/actor.rs])

    The worker owns the journal, the state, the output rings and the
    bookkeeping of a session.  What it asks of the outside (file system,
    history store, GDB process, pseudo-terminal, clock, fresh identifiers) is
    answered by [world], one answer record per question.  JSON and base64
    encoders of library code are parameters.  Metrics are left out. *)

From S2P Require Import Prelude Text MiAst Json Errors Domain Reducer Backend Normalize Ring LiveState Journal Policy Protocol Effects.

Module Cap.

Inductive CapabilityStatus :=
  Supported | Unsupported | Conditional | Limited | Unknown | TemporarilyUnavailable.

#[global] Instance CapabilityStatus_eq_dec : EqDecision CapabilityStatus.
Proof. solve_decision. Defined.

End Cap.

Record Capability := MkCapability {
  cap_status : Cap.CapabilityStatus;
  cap_scope : string;
  cap_constraints : list string;
  cap_source : string;
  cap_last_checked_revision : N
}.

Record ValueBinding := MkValueBinding {
  vb_value_id : string;
  vb_backend_name : string;
  vb_stop_id : StopId;
  vb_expression : string;
  vb_inferior_id : option string;
  vb_thread_id : option string;
  vb_frame_id : option string
}.

Record PendingModuleBreakpoint := MkPendingModuleBreakpoint {
  pmb_id : BreakpointId;
  pmb_backend_number : string;
  pmb_module : string;
  pmb_offset : N;
  pmb_enabled : bool;
  pmb_command : MiCommand
}.

Record PublishedEvent := MkPublishedEvent {
  pe_event_seq : N;
  pe_revision : N;
  pe_event : Event.DomainEvent
}.

Inductive TrackingDefinition :=
| TrackExpression (tracking_id expression : string) (max_value_bytes : N)
| TrackMemory (tracking_id address_expression : string) (length max_history : N).

Definition tracking_id (d : TrackingDefinition) : string :=
  match d with TrackExpression id _ _ | TrackMemory id _ _ _ => id end.

(** ** Requests and replies *)

Record CommandReply := MkCommandReply {
  cr_token : N;
  cr_class : string;
  cr_record : MiRecord;
  cr_stream_records : list MiRecord;
  cr_stream_truncated : bool;
  cr_evidence_seq : N
}.

Inductive OperationCancelMode := InterruptTarget | CloseSession.

#[export] Instance OperationCancelMode_eq_dec : EqDecision OperationCancelMode.
Proof. solve_decision. Defined.

(** A control request; [response] names the channel its caller waits on. *)
Inductive ControlRequest :=
| RecordOperation (operation : OperationRecord) (response : N)
| RecordApi (request : Value) (response : N)
| Interrupt (command : MiCommand) (deadline : N) (response : N)
| CancelOperation (operation_id : OperationId) (mode : OperationCancelMode) (response : N)
| Close (response : N).

(** What the [select!] of a command in flight receives. *)
Inductive ExecutionInput :=
| EControl (control : option ControlRequest)
| EBackend (input : option BackendInput)
| EDeadline.

(** The answers of the outside to one question of the worker. *)
Record answers := MkAnswers {
  a_io : io;
  a_store : option Error;
  a_ulid : string;
  a_now : N;
  a_pty_position : N * N;
  a_send : option Error;
  a_exit_status : Result Error (option Z);
  a_signal : option Error;
  a_shutdown : option Error;
  a_flush_input : option Error;
  a_cancelled : bool;
  a_module_address : Result Error (option string);
  a_evidence : Result Error Value;
  a_inferior_output : ByteRing;
  a_cut : nat;
  a_write_inferior : Result Error N;
  a_resize : option Error
}.

(** The [SessionWorker].  Channels are represented by what was sent to them:
    [sent] to GDB, [answered] to the callers of control requests; [script] is
    what a command in flight will receive, with the time it arrives. *)
Record Worker := MkWorker {
  journal : Journal;
  state : LiveState;
  profile : Profile;
  capabilities : gmap string Capability;
  features : gset string;
  target_features : gset string;
  mi_commands : gset string;
  capability_limitations : list string;
  events : list PublishedEvent;
  inferior_resets : nat;
  inferior_output_offset : N;
  inferior_output_dropped : N;
  output_evidence_finalized : bool;
  target_output : ByteRing;
  console_output : ByteRing;
  log_output : ByteRing;
  next_token : N;
  timed_out_tokens : gset N;
  interrupt_fallback_at : option N;
  stream_limit : N;
  command_timeout_ms : N;
  values : gmap string ValueBinding;
  tracking : gmap string TrackingDefinition;
  tracking_history : gmap string (list Value);
  snapshots : list (string * Value);
  stale_backend_values : list string;
  deferred_restoration : list MiCommand;
  pending_module_breakpoints : gmap string PendingModuleBreakpoint;
  active_resume_operation : option OperationId;
  module_rebind_needed : bool;
  replacing_module_breakpoint : bool;
  deferred_snapshot_ready : option (StopId * string * bool);
  tracking_memory_limit : N;
  snapshot_limit : nat;
  state_dirty : bool;
  operations : gmap string OperationRecord;
  dirty_operations : gset string;
  operation_limit : nat;
  journal_gap_reported : bool;
  store_failed : bool;
  fatal : bool;
  metric_active : bool;
  ticks : nat;
  sent : list bytes;
  controls_open : bool;
  script : list (N * ExecutionInput);
  answered : list (N * Result Error (option CommandReply))
}.

#[export] Instance Worker_eta : Updatable Worker := fun w => {|
  journal := journal w; state := state w; profile := profile w;
  capabilities := capabilities w; features := features w;
  target_features := target_features w; mi_commands := mi_commands w;
  capability_limitations := capability_limitations w; events := events w; inferior_resets := inferior_resets w;
  inferior_output_offset := inferior_output_offset w;
  inferior_output_dropped := inferior_output_dropped w;
  output_evidence_finalized := output_evidence_finalized w;
  target_output := target_output w; console_output := console_output w;
  log_output := log_output w; next_token := next_token w;
  timed_out_tokens := timed_out_tokens w; interrupt_fallback_at := interrupt_fallback_at w;
  stream_limit := stream_limit w; command_timeout_ms := command_timeout_ms w;
  values := values w; tracking := tracking w; tracking_history := tracking_history w;
  snapshots := snapshots w; stale_backend_values := stale_backend_values w;
  deferred_restoration := deferred_restoration w;
  pending_module_breakpoints := pending_module_breakpoints w;
  active_resume_operation := active_resume_operation w;
  module_rebind_needed := module_rebind_needed w;
  replacing_module_breakpoint := replacing_module_breakpoint w;
  deferred_snapshot_ready := deferred_snapshot_ready w;
  tracking_memory_limit := tracking_memory_limit w;
  snapshot_limit := snapshot_limit w; state_dirty := state_dirty w;
  operations := operations w; dirty_operations := dirty_operations w;
  operation_limit := operation_limit w; journal_gap_reported := journal_gap_reported w;
  store_failed := store_failed w; fatal := fatal w; metric_active := metric_active w;
  ticks := ticks w; sent := sent w; controls_open := controls_open w; script := script w;
  answered := answered w
|}.

Definition actor (A : Type) : Type := comp Worker A.

(** ** Bookkeeping on events *)

(** [set_capability_at]: only a known capability is updated. *)
Definition set_capability_at (revision : N) (name : string) (status : Cap.CapabilityStatus)
    (caps : gmap string Capability) : gmap string Capability :=
  alter (fun c => MkCapability status (cap_scope c) (cap_constraints c) (cap_source c) revision)
    name caps.

Definition is_stop (event : Event.DomainEvent) : bool :=
  match event with Event.TargetStopped _ _ _ _ _ => true | _ => false end.

Definition is_running (event : Event.DomainEvent) : bool :=
  match event with Event.TargetRunning _ => true | _ => false end.

Definition ends_target (event : Event.DomainEvent) : bool :=
  match event with
  | Event.TargetDisconnected | Event.TargetDetached | Event.BackendExited _ => true
  | _ => false
  end.

Definition invalidates_values (s : SessionState) (event : Event.DomainEvent) : bool :=
  attributed_exit s event || is_running event || ends_target event.

(** What the actor notes of an event before it is journaled. *)
Definition note_event (event : Event.DomainEvent) (w : Worker) : Worker :=
  let w := if attributed_exit (borrow (state w)) event || is_stop event || ends_target event
           then w <| active_resume_operation := None |> else w in
  let w := match event with
    | Event.BreakpointDeleted number =>
        w <| pending_module_breakpoints := delete number (pending_module_breakpoints w) |>
    | Event.BreakpointModified number enabled _ =>
        w <| pending_module_breakpoints :=
               alter (fun b => MkPendingModuleBreakpoint (pmb_id b) (pmb_backend_number b)
                        (pmb_module b) (pmb_offset b) enabled (pmb_command b))
                 number (pending_module_breakpoints w) |>
    | _ => w
    end in
  let loads := match event with
    | Event.LibraryLoaded _ _ _ _ | Event.TargetStopped _ _ _ _ _ => true | _ => false end in
  let w := if negb (bool_decide (pending_module_breakpoints w = ∅)) && loads
           then w <| module_rebind_needed := true |> else w in
  if is_running event then w <| inferior_resets := S (inferior_resets w) |> else w.

(** The part of the worker that [apply_event_with]'s callback updates. *)
Definition scoped_data : Type :=
  gmap string Capability * gmap string ValueBinding * list string.

Definition executes (p : Profile) : bool :=
  match p with
  | DebugControl | LabMutation | RawAdmin => true
  | _ => false
  end.

Definition event_capabilities (p : Profile) (event : Event.DomainEvent)
    (s : SessionState) (caps : gmap string Capability) : gmap string Capability :=
  let set := set_capability_at (revision s) in
  match event with
  | Event.CoreOpened _ =>
      set "memory_write" Cap.Unsupported (set "target_mutation" Cap.Unsupported
        (set "execution" Cap.Unsupported caps))
  | Event.TargetRunning _ | Event.TargetStopped _ _ _ _ _ =>
      set "execution" (if executes p then Cap.Conditional else Cap.Unsupported) caps
  | Event.TargetDetached | Event.TargetDisconnected | Event.BackendExited _ =>
      set "execution" Cap.TemporarilyUnavailable caps
  | Event.InferiorExited _ _ _ =>
      if existsb (fun i => bool_decide (inf_status i = Inferior.Disconnected))
           (btree_values (inferiors s))
      then set "execution" Cap.TemporarilyUnavailable caps else caps
  | _ => caps
  end.

Definition after_event (p : Profile) (event : Event.DomainEvent) (invalidates : bool)
    (d : scoped_data) (s : SessionState) : scoped_data :=
  let '(caps, vals, stale) := d in
  let caps := event_capabilities p event s caps in
  if invalidates then (caps, ∅, stale ++ (vb_backend_name <$> btree_values vals))
  else (caps, vals, stale).

(** ** Objects of a snapshot *)

(** The context fields an observation shares with its nested contexts. *)
Definition set_optional (fields : list (string * option Value))
    (nested : list (string * Value)) : list (string * Value) :=
  foldl (fun acc e => match e.2 with Some v => set_field e.1 v acc | None => acc end)
    nested fields.

Definition finalize_nested (snapshot_id : string) (context : list (string * option Value))
    (object : list (string * Value)) (field : string) : list (string * Value) :=
  match assoc field object with
  | Some (Object nested) =>
      set_field field
        (Object (set_optional context
                   (set_field "observation_id" (Str snapshot_id) nested))) object
  | _ => object
  end.

(** The object [store_snapshot_value] stores under a fresh identifier. *)
Definition finalize_snapshot (snapshot_id : string) (object : list (string * Value))
    : list (string * Value) :=
  let object := remove_field "snapshot_id" (remove_field "observation_id" object) in
  let object := set_field "snapshot_id" (Str snapshot_id)
                  (set_field "observation_id" (Str snapshot_id) object) in
  let context := (fun f => (f, assoc f object)) <$>
                 ["stop_id"; "captured_revision"; "execution_epoch"] in
  foldl (finalize_nested snapshot_id context) object ["context"; "observation_context"].

Definition observation_id (snapshot : Value) : Result Error string :=
  ok_or (Json.get "observation_id" snapshot ≫= Json.as_str)
    (Error_new Code.Internal "stored observation has no ID").

(** The bounded ring of retained observations: entries leave at the front
    while it is full. *)
Definition push_snapshot (limit : nat) (entry : string * Value)
    (snaps : list (string * Value)) : list (string * Value) :=
  drop (S (length snaps) - limit) snaps ++ [entry].

Section worker.
#[local] Set Default Proof Using "Type".
Context (encode : JournalEntry -> bytes) (base64_encode : bytes -> string)
        (value_of_event : Event.DomainEvent -> Value)
        (value_of_state : SessionState -> Value)
        (value_of_frame : FrameSummary -> Value)
        (world : nat -> answers).

(** One question to the outside. *)
Definition ask {A} (f : answers -> A) : actor A := fun w =>
  (w <| ticks := S (ticks w) |>, Done (f (world (ticks w)))).

(** One operation of the journal; the caller receives its [Result]. *)
Definition journaling {A} (f : io -> Journal -> Journal * Result Error A)
    : actor (Result Error A) := fun w =>
  let '(j, r) := f (a_io (world (ticks w))) (journal w) in
  (w <| journal := j |> <| ticks := S (ticks w) |>, Done r).

Definition mark_failed : actor unit := modify (fun w =>
  let '(l, changed) := live_fail_closed (state w) in
  let w := w <| state := l |> in
  let w := if changed then w <| state_dirty := true |> else w in
  if metric_active w then w <| metric_active := false |> else w).

(** [self.fatal = true; self.mark_failed()]. *)
Definition fail_worker : actor unit :=
  modify (fun w => w <| fatal := true |>) ;; mark_failed.

(** ** Functions that call [apply_event] back

    [rec] is [apply_event]. *)
Section recursive.
Context (rec : Event.DomainEvent -> actor unit).

Definition gap_event (g : JournalGap) : Event.DomainEvent :=
  Event.EvidenceGap ("journal evidence unavailable from sequence " +:+
    dec (gap_from_seq g) +:+ ": " +:+ gap_reason g).

Definition report_journal_gap : actor unit :=
  w ← gets id;
  match journal_gap (journal w) with
  | Some g =>
      if journal_gap_reported w then mret tt
      else modify (fun w => w <| journal_gap_reported := true |>) ;; rec (gap_event g)
  | None => mret tt
  end.

Definition journal_result {A} (result : Result Error A) : actor A :=
  (if is_ok result then mret tt else fail_worker) ;;
  value ← lift result;
  report_journal_gap ;;
  mret value.

(** An append whose failure is fatal. *)
Definition journaled {A} (f : io -> Journal -> Journal * Result Error A) : actor A :=
  appended ← journaling f; journal_result appended.

Definition store_result (result : option Error) : actor unit :=
  match result with
  | None => mret tt
  | Some error =>
      w ← gets id;
      if is_durable (journal w) then fail_worker ;; fail error
      else if store_failed w then mret tt
      else
        modify (fun w => w <| store_failed := true |>) ;;
        rec (Event.EvidenceGap ("SQLite history is incomplete: " +:+ error_display error))
  end.

Definition checkpoint (closing : bool) : actor unit :=
  w ← gets id;
  modify (fun w => w <| dirty_operations := ∅ |>) ;;
  let dirty := if store_failed w then ∅ else dirty_operations w in
  let checkpoint_state := state_dirty w || closing && store_failed w in
  if negb checkpoint_state && bool_decide (dirty = ∅) then mret tt
  else
    when checkpoint_state (
      modify (fun w => w <| state_dirty := false |>) ;;
      s ← gets (fun w => borrow (state w));
      _ ← journaled (fun o => append_state encode o (revision s) (value_of_state s));
      mret tt) ;;
    failed ← gets store_failed;
    when (negb failed || closing) (stored ← ask a_store; store_result stored).

Definition store_snapshot_value (snapshot : Value) : actor Value :=
  match snapshot with
  | Object fields =>
      ulid ← ask a_ulid;
      let snapshot_id := "obs_" +:+ ulid in
      let snapshot := Object (finalize_snapshot snapshot_id fields) in
      _ ← journaled (fun o => append_snapshot encode o snapshot_id snapshot);
      failed ← gets store_failed;
      when (negb failed) (stored ← ask a_store; store_result stored) ;;
      w ← gets id;
      match List.find (fun e => bool_decide (e.1 = snapshot_id)) (snapshots w) with
      | Some (_, existing) =>
          if bool_decide (existing = snapshot) then mret snapshot
          else fail (Error_new Code.Conflict "observation ID already contains different data")
      | None =>
          if bool_decide (snapshot_limit w = 0) then out_of_fuel
          else
            modify (fun w => w <| snapshots :=
              push_snapshot (snapshot_limit w) (snapshot_id, snapshot) (snapshots w) |>) ;;
            mret snapshot
      end
  | _ => fail (Error_new Code.InvalidArgument "snapshot must be an object")
  end.

(** The bounded context of a stop. *)
Definition stop_snapshot (event_seq : N) (stop : StopId) (s : SessionState) : Value :=
  let frame := stopped_frame s in
  Object [("stop_id", Str stop); ("revision", uint (revision s));
    ("captured_revision", uint (revision s));
    ("execution_epoch", uint (execution_epoch s)); ("profile", Str "minimal");
    ("reason", match stop_reason s with Some r => Str r | None => Null end);
    ("frame", match frame with Some f => value_of_frame f | None => Null end);
    ("partial", Bool (bool_decide (frame = None)));
    ("warnings", Array (match frame with
       | None => [Object [("code", Str "FRAME_UNAVAILABLE");
                          ("message", Str "GDB stop event did not include a frame")]]
       | Some _ => [] end));
    ("evidence", Array [Object [("kind", Str "mi-event");
       ("uri", Str ("gdbai://session/" +:+ session_id s +:+ "/event/" +:+
                    dec event_seq))]])].

Definition commit_stop (event_seq : N) : actor unit :=
  s ← gets (fun w => borrow (state w));
  stop ← unwrap (stop_id s);
  let partial := bool_decide (stopped_frame s = None) in
  stored ← attempt (store_snapshot_value (stop_snapshot event_seq stop s));
  match stored with
  | Err error => rec (Event.SnapshotFailed stop) ;; fail error
  | Ok snapshot =>
      snapshot_id ← lift (observation_id snapshot);
      replacing ← gets replacing_module_breakpoint;
      if (replacing : bool) then
        modify (fun w => w <| deferred_snapshot_ready := Some (stop, snapshot_id, partial) |>)
      else rec (Event.SnapshotReady stop (Some snapshot_id) partial)
  end.

(** The reducer, with the actor's data of the event's scope. *)
Definition reduce_event (invalidates : bool) (event_seq : N) (event : Event.DomainEvent)
    : actor (Result Error bool) := fun w =>
  let '(l, (caps, vals, stale), r) :=
    apply_event_with (after_event (profile w) event invalidates) event_seq event
      (capabilities w, values w, stale_backend_values w) (state w) in
  (w <| state := l |> <| capabilities := caps |> <| values := vals |>
     <| stale_backend_values := stale |>, Done r).

(** Journals, reduces and publishes one event. *)
Definition commit_event (invalidates : bool) (event : Event.DomainEvent) : actor N :=
  appended ← journaling (fun o => append_domain_ref encode o (value_of_event event));
  event_seq ← lift appended;
  reduced ← reduce_event invalidates event_seq event;
  changed ← lift reduced;
  modify (fun w => w <| state_dirty := state_dirty w || changed |>) ;;
  durable ← gets (fun w => is_durable (journal w));
  when (changed && durable) (checkpoint false) ;;
  modify (fun w => w <| state := publish (state w) |>) ;;
  modify (fun w => w <| events := events w ++
    [MkPublishedEvent event_seq (revision (borrow (state w))) event] |>) ;;
  mret event_seq.

Definition apply_event_inner (event : Event.DomainEvent) : actor unit :=
  invalidates ← gets (fun w => invalidates_values (borrow (state w)) event);
  modify (note_event event) ;;
  event_seq ← commit_event invalidates event;
  when (is_stop event) (commit_stop event_seq).

End recursive.

(** Applying an event may report a journal gap, a store failure and the
    snapshot of a stop, each at most once: four levels of fuel suffice. *)
Fixpoint apply_event_fuel (fuel : nat) (event : Event.DomainEvent) : actor unit :=
  match fuel with
  | 0 => out_of_fuel
  | S fuel =>
      result ← attempt (apply_event_inner (apply_event_fuel fuel) event ;;
                        report_journal_gap (apply_event_fuel fuel));
      (if is_ok result then mret tt else fail_worker) ;;
      lift result
  end.

Definition worker_apply_event : Event.DomainEvent -> actor unit := apply_event_fuel 4.

(** The other callers report through [worker_apply_event]. *)
Abbreviation journal_result' := (journal_result worker_apply_event).
Abbreviation journaled' := (journaled worker_apply_event).
Abbreviation store_result' := (store_result worker_apply_event).
Abbreviation checkpoint' := (checkpoint worker_apply_event).

(** ** Records of the gateway *)

Definition record_api (request : Value) : actor unit :=
  _ ← journaled' (fun o => append_api encode o request);
  mret tt.

(** [Iterator::min_by_key]: the first of the least. *)
Definition min_created (records : list OperationRecord) : option OperationRecord :=
  foldl (fun best r => match best with
    | Some b => if (op_created_revision r <? op_created_revision b)%N then Some r else best
    | None => Some r end) None records.

Definition keep_operation (operation : OperationRecord) (w : Worker) : Worker :=
  let id := op_id operation in
  let w :=
    if bool_decide (operations w !! id = None) &&
       bool_decide (operation_limit w <= size (operations w))
    then match min_created (btree_values (operations w)) with
      | Some oldest =>
          w <| operations := delete (op_id oldest) (operations w) |>
            <| dirty_operations := dirty_operations w ∖ {[op_id oldest]} |>
      | None => w
      end
    else w in
  w <| operations := <[id := operation]> (operations w) |>.

Definition record_operation (operation : OperationRecord) : actor unit :=
  durable ← gets (fun w => is_durable (journal w));
  (if (durable : bool) then stored ← ask a_store; store_result' stored
   else modify (fun w => w <| dirty_operations := {[op_id operation]} ∪ dirty_operations w |>)) ;;
  modify (keep_operation operation).

(** ** Input of the backend *)

Definition running_target (s : SessionState) : bool :=
  existsb (fun i => bool_decide (inf_status i = Inferior.Running)) (btree_values (inferiors s)).

Definition target_running (w : Worker) : bool := running_target (borrow (state w)).

(** Each stream goes to its ring before the state is reduced. *)
Definition route_output (event : Event.DomainEvent) (w : Worker) : Worker :=
  match event with
  | Event.Output Out.GdbConsoleStream b =>
      w <| console_output := (Ring.append (console_output w) b).1 |>
  | Event.Output Out.MiTargetStream b =>
      w <| target_output := (Ring.append (target_output w) b).1 |>
  | Event.Output Out.GdbLogStream b =>
      w <| log_output := (Ring.append (log_output w) b).1 |>
  | _ => w
  end.

Definition process_mi (raw : bytes) (record : MiRecord) : actor (option (MiRecord * N)) :=
  evidence_seq ← journaled' (fun o => append_mi_output encode o (base64_encode raw));
  match normalize record with
  | Some event =>
      modify (route_output event) ;;
      worker_apply_event event ;;
      modify (fun w => if target_running w then w else w <| interrupt_fallback_at := None |>)
  | None => mret tt
  end ;;
  mret (Some (record, evidence_seq)).

Definition process_stderr (data : bytes) : actor unit :=
  _ ← journaled' (fun o => append_base64 encode o "gdb.stderr" (base64_encode data));
  modify (fun w => w <| log_output := (Ring.append (log_output w) data).1 |>).

(** A coalesced notification: the position of the ring is authoritative. *)
Definition process_pty : actor unit :=
  position ← ask a_pty_position;
  let '(next_offset, dropped) := position in
  w ← gets id;
  let offset := N.min (inferior_output_offset w) next_offset in
  let length := (next_offset - offset)%N in
  if (length =? 0)%N && (dropped =? inferior_output_dropped w)%N then mret tt
  else
    _ ← journaled' (fun o => append_inferior_output encode o offset length dropped);
    modify (fun w => w <| inferior_output_offset := next_offset |>
                       <| inferior_output_dropped := dropped |>) ;;
    worker_apply_event (Event.OutputAdvanced Out.InferiorPty offset length dropped).

Definition process_protocol_error (error : Error) : actor unit :=
  modify (fun w => w <| fatal := true |>) ;;
  lost ← attempt (worker_apply_event (Event.ConsistencyLost (error_display error)));
  exited ← attempt (worker_apply_event (Event.BackendExited None));
  mark_failed ;;
  lift lost ;;
  lift exited ;;
  fail error.

Definition process_eof : actor unit :=
  status ← ask a_exit_status;
  status ← lift status;
  modify (fun w => w <| fatal := true |>) ;;
  exited ← attempt (worker_apply_event (Event.BackendExited status));
  mark_failed ;;
  lift exited ;;
  fail (Error_new Code.GdbExited "GDB stdout closed").

Definition process_input (input : BackendInput) : actor (option (MiRecord * N)) :=
  match input with
  | Mi raw record => process_mi raw record
  | GdbStderr data => process_stderr data ;; mret None
  | InferiorPty => process_pty ;; mret None
  | ProtocolError error => process_protocol_error error ;; mret None
  | GdbEof => process_eof ;; mret None
  end.

Definition token_debug (token : option N) : string :=
  match token with Some t => "Some(" +:+ dec t +:+ ")" | None => "None" end.

Definition handle_unmatched_result (record : MiRecord) : actor unit :=
  match record with
  | RResult token class _ =>
      worker_apply_event (Event.ConsistencyDirty
        ("unmatched MI result token " +:+ token_debug token +:+ " class " +:+ class))
  | _ => mret tt
  end.

(** A result that arrives after its command timed out. *)
Definition take_delayed_token (timed_out : gset N) (record : MiRecord) : option N :=
  match record with
  | RResult (Some token) _ _ => if bool_decide (token ∈ timed_out) then Some token else None
  | _ => None
  end.

(** ** Closing, flushing and starting *)

(** [finalize_output_evidence]: the status of the output spool, its artifact
    stored, comes from the outside. *)
Definition finalize_output_evidence : actor unit :=
  finalized ← gets output_evidence_finalized;
  if (finalized : bool) then mret tt
  else
    evidence ← ask a_evidence;
    evidence ← lift evidence;
    modify (fun w => w <| output_evidence_finalized := true |>) ;;
    _ ← journaled' (fun o => Journal.append encode o "inferior.output.evidence" evidence);
    mret tt.

Definition flush_journal : actor unit :=
  flushed ← attempt (checkpoint' false ;; flushed ← journaling flush; lift flushed);
  journal_result' flushed.

Definition close : actor unit :=
  closing ← attempt (worker_apply_event Event.SessionClosing);
  shutdown ← ask a_shutdown;
  lift closing ;;
  match shutdown with Some error => fail error | None => mret tt end ;;
  finalize_output_evidence ;;
  worker_apply_event Event.SessionClosed ;;
  checkpoint' true ;;
  checkpoint' false ;;
  journaled' (Journal.finish encode) ;;
  checkpoint' false ;;
  modify (fun w => if metric_active w then w <| metric_active := false |> else w).

(** How the start-up wait ends when no prompt came. *)
Inductive startup_end := StartupTimeout | StartupClosed.

(** An event that arrives before the worker exists: nothing is published. *)
Definition startup_event (event : Event.DomainEvent) : actor unit :=
  modify (route_output event) ;;
  appended ← journaling (fun o => append_domain_ref encode o (value_of_event event));
  event_seq ← lift appended;
  w ← gets id;
  let '(l, reduced) := live_apply_event event_seq event (state w) in
  modify (fun w => w <| state := l |>) ;;
  _ ← lift reduced;
  mret tt.

(** [wait_for_prompt] on the inputs the backend delivers. *)
Fixpoint wait_for_prompt (inputs : list BackendInput) (ending : startup_end) : actor unit :=
  match inputs with
  | [] =>
      match ending with
      | StartupTimeout => fail (Error_new Code.GdbUnresponsive "GDB startup timed out")
      | StartupClosed => fail (Error_new Code.GdbExited "GDB startup channel closed")
      end
  | Mi raw record :: rest =>
      appended ← journaling (fun o => append_mi_output encode o (base64_encode raw));
      _ ← lift appended;
      match normalize record with
      | Some event => startup_event event
      | None => mret tt
      end ;;
      if bool_decide (record = Prompt) then mret tt else wait_for_prompt rest ending
  | GdbStderr data :: rest =>
      appended ← journaling (fun o => append_base64 encode o "gdb.stderr" (base64_encode data));
      _ ← lift appended;
      modify (fun w => w <| log_output := (Ring.append (log_output w) data).1 |>) ;;
      wait_for_prompt rest ending
  | ProtocolError error :: _ => fail error
  | GdbEof :: _ => fail (Error_new Code.GdbExited "GDB exited")
  | InferiorPty :: rest => wait_for_prompt rest ending
  end.

(** [run] on an input that arrives while no command is in flight. *)
Definition idle_input (input : BackendInput) : actor unit :=
  processed ← attempt (process_input input);
  match processed with
  | Ok (Some (record, _)) =>
      w ← gets id;
      match take_delayed_token (timed_out_tokens w) record with
      | Some token =>
          modify (fun w => w <| timed_out_tokens := timed_out_tokens w ∖ {[token]} |>) ;;
          _ ← attempt (worker_apply_event (Event.CommandOutcomeResolved token));
          mret tt
      | None => _ ← attempt (handle_unmatched_result record); mret tt
      end
  | _ => mret tt
  end.

End worker.
