(* ===== verification/ActorFrame.v ===== *)
(** * ActorFrame: what the operations of the actor may change

    A view of the worker and a preorder on it; [stays] says that a computation
    moves the view along the preorder, however it ends.  Every operation of
    [Actor] moves the session along the reducer's transitions and leaves the
    bookkeeping of commands alone. *)
From S2P Require Import Prelude Text MiAst Json Errors Domain Reducer ReducerInv Backend Normalize Ring LiveState Journal Policy Protocol Effects Actor.

Definition stays {V A} (view : Worker -> V) (Q : relation V) (m : actor A) : Prop :=
  forall w, Q (view w) (view (m w).1).

Section stays.
Context {V : Type} (view : Worker -> V) (Q : relation V) `{!PreOrder Q}.

Lemma stays_ret {A} (a : A) : stays view Q (mret a).
Proof. by intros w. Qed.

Lemma stays_gets {A} (f : Worker -> A) : stays view Q (gets f).
Proof. by intros w. Qed.

Lemma stays_fail {A} e : stays view Q (fail (A:=A) e).
Proof. by intros w. Qed.

Lemma stays_fuel {A} : stays view Q (out_of_fuel (A:=A)).
Proof. by intros w. Qed.

Lemma stays_lift {A} (r : Result Error A) : stays view Q (lift r).
Proof. intros w. by destruct r. Qed.

Lemma stays_unwrap {A} (o : option A) : stays view Q (unwrap o).
Proof. intros w. by destruct o. Qed.

Lemma stays_modify f : (forall w, view (f w) = view w) -> stays view Q (modify f).
Proof. intros H w. change (modify f w).1 with (f w). by rewrite H. Qed.

Lemma stays_bind {A B} (m : actor A) (f : A -> actor B) :
  stays view Q m -> (forall a, stays view Q (f a)) -> stays view Q (m ≫= f).
Proof.
  intros Hm Hf w. unfold mbind, comp_bind. specialize (Hm w).
  destruct (m w) as [w' []]; try done. etrans; [exact Hm|apply Hf].
Qed.

(** The state the next computation starts from may be used. *)
Lemma stays_gets_bind {A B} (g : Worker -> A) (f : A -> actor B) :
  (forall w, Q (view w) (view (f (g w) w).1)) -> stays view Q (gets g ≫= f).
Proof. intros H w. apply H. Qed.

Lemma stays_attempt {A} (m : actor A) : stays view Q m -> stays view Q (attempt m).
Proof. intros H w. specialize (H w). unfold attempt. by destruct (m w) as [w' []]. Qed.

Lemma stays_when b (m : actor unit) : stays view Q m -> stays view Q (when b m).
Proof. destruct b; [done|]. intros _. apply stays_ret. Qed.

Lemma stays_wp {A} (m : actor A) P w :
  stays view Q m -> wp m P w -> wp m (fun r w' => P r w' /\ Q (view w) (view w')) w.
Proof. intros H. specialize (H w). unfold wp. by destruct (m w) as [w' []]. Qed.

End stays.

(** A coarser view. *)
Lemma stays_weaken {V V' A} (view : Worker -> V) (Q : relation V) (view' : Worker -> V')
    (Q' : relation V') (m : actor A) :
  (forall w w', Q (view w) (view w') -> Q' (view' w) (view' w')) ->
  stays view Q m -> stays view' Q' m.
Proof. intros H Hm w. apply H, Hm. Qed.

(** Structural steps of such a proof; hints supply the calls. *)
Create HintDb stays discriminated.

Ltac stay_step :=
  first
    [ apply stays_ret; apply _ | apply stays_gets; apply _ | apply stays_fail; apply _
    | apply stays_fuel; apply _ | apply stays_lift; apply _ | apply stays_unwrap; apply _
    | solve [auto with stays]
    | apply stays_modify; [apply _|]; intros ?;
        first [reflexivity | solve [repeat case_match; reflexivity]]
    | apply stays_attempt | apply stays_when; [apply _|]
    | apply stays_bind; [apply _| |intros ?]
    | match goal with
      | |- stays _ _ (match ?x with _ => _ end) => destruct x
      | |- stays _ _ (let '(_, _) := ?x in _) => destruct x
      end ].

Ltac stay := repeat stay_step.

(** ** The operations of the actor *)

(** What only the command layer changes. *)
Definition command_fields (w : Worker) :=
  (next_token w, timed_out_tokens w, sent w, script w, stream_limit w, command_timeout_ms w,
   profile w).

(** The session moves by transitions of the reducer; evidence that was
    finalized stays so. *)
Definition actor_view (w : Worker) :=
  (command_fields w, borrow (state w), output_evidence_finalized w).
Definition actor_move : relation _ := prod_relation (prod_relation (@eq (N * gset N *
  list bytes * list (N * ExecutionInput) * N * N * Profile)) (rtc step)) implb.

#[export] Instance implb_preorder : PreOrder implb.
Proof. split; [by intros []|]. by intros [] [] []. Qed.

#[export] Instance actor_move_preorder : PreOrder actor_move.
Proof. unfold actor_move. split; apply _. Qed.

Lemma actor_move_session w w' :
  command_fields w' = command_fields w -> rtc step (borrow (state w)) (borrow (state w')) ->
  output_evidence_finalized w' = output_evidence_finalized w ->
  actor_move (actor_view w) (actor_view w').
Proof.
  intros E H Ef. split; [split; [exact (eq_sym E)|exact H]|]. cbn. rewrite Ef.
  by destruct (output_evidence_finalized w).
Qed.

Lemma actor_move_fields w w' :
  actor_move (actor_view w) (actor_view w') ->
  script w' = script w /\ timed_out_tokens w' = timed_out_tokens w /\
  next_token w' = next_token w /\ sent w' = sent w /\ stream_limit w' = stream_limit w.
Proof.
  intros [[E _] _]. unfold actor_view, command_fields in E. cbn [fst] in E. by simplify_eq.
Qed.

Lemma actor_move_profile w w' :
  actor_move (actor_view w) (actor_view w') -> profile w' = profile w.
Proof.
  intros [[E _] _]. unfold actor_view, command_fields in E. cbn [fst] in E. by simplify_eq.
Qed.

Abbreviation acts := (stays actor_view actor_move).

Section fields.
#[local] Set Default Proof Using "Type".
Context (encode : JournalEntry -> bytes) (base64_encode : bytes -> string)
        (value_of_event : Event.DomainEvent -> Value)
        (value_of_state : SessionState -> Value)
        (value_of_frame : FrameSummary -> Value)
        (world : nat -> answers).

Lemma stays_ask {A} (f : answers -> A) : acts (ask world f).
Proof. by intros w. Qed.

Lemma stays_journaling {A} (f : io -> Journal -> Journal * Result Error A) :
  acts (journaling world f).
Proof. intros w. unfold journaling. by destruct (f _ _). Qed.

Lemma fail_closed_moves l : rtc step (borrow l) (borrow (live_fail_closed l).1).
Proof.
  apply rtc_once. replace (borrow (live_fail_closed l).1) with (fail_closed (borrow l)).1;
    [apply step_fail_closed|].
  unfold live_fail_closed, borrow. destruct (staged l) as [s|].
  - by destruct (fail_closed s) as [s' []].
  - by destruct (fail_closed (published l)) as [s' []].
Qed.

Lemma stays_mark_failed : acts mark_failed.
Proof.
  intros w. unfold mark_failed. pose proof (fail_closed_moves (state w)) as H. cbn [modify fst].
  destruct (live_fail_closed (state w)) as [l []]; cbn [fst] in H;
    case_match; by apply actor_move_session.
Qed.

Lemma apply_moves {A} (after : A -> SessionState -> A) seq e a l :
  rtc step (borrow l) (borrow (apply_event_with after seq e a l).1.1).
Proof.
  unfold apply_event_with, borrow. destruct (staged l) as [s|] eqn:Hs.
  - destruct (apply_event seq e s) as [[s' c]|] eqn:E; cbn; [|by rewrite Hs].
    apply rtc_once. by eapply step_event.
  - destruct (apply_event seq e (published l)) as [[s' c]|] eqn:E; cbn; [|by rewrite Hs].
    apply rtc_once. by eapply step_event.
Qed.

Lemma stays_reduce_event b seq e : acts (reduce_event b seq e).
Proof.
  intros w. unfold reduce_event.
  pose proof (apply_moves (after_event (profile w) e b) seq e
    (capabilities w, values w, stale_backend_values w) (state w)) as H.
  destruct (apply_event_with _ _ _ _ _) as [[l [[caps vals] stale]] r].
  by apply actor_move_session.
Qed.

Lemma stays_note_event e : acts (modify (note_event e)).
Proof.
  apply stays_modify; [apply _|]. intros w. unfold note_event.
  destruct e; cbn; repeat case_match; reflexivity.
Qed.

Lemma stays_publish : acts (modify (fun w => w <| state := publish (state w) |>)).
Proof.
  intros w. apply actor_move_session; [done| |done]. cbn. unfold publish, borrow.
  destruct (staged (state w)) as [s|] eqn:E; cbn; [done|by rewrite E].
Qed.

Hint Resolve stays_ask stays_journaling stays_mark_failed stays_reduce_event stays_note_event
  stays_publish : stays.

Lemma stays_fail_worker : acts fail_worker.
Proof. unfold fail_worker. stay. Qed.

Hint Resolve stays_fail_worker : stays.

Section recursive.
Context (rec : Event.DomainEvent -> actor unit) (Hrec : forall e, acts (rec e)).

Hint Resolve Hrec : stays.

Lemma stays_report_gap : acts (report_journal_gap rec).
Proof using Hrec. unfold report_journal_gap. stay. Qed.

Hint Resolve stays_report_gap : stays.

Lemma stays_journal_result {A} (r : Result Error A) : acts (journal_result rec r).
Proof using Hrec. unfold journal_result. stay. Qed.

Hint Resolve stays_journal_result : stays.

Lemma stays_journaled {A} (f : io -> Journal -> Journal * Result Error A) :
  acts (journaled world rec f).
Proof using Hrec. unfold journaled. stay. Qed.

Lemma stays_store_result r : acts (store_result rec r).
Proof using Hrec. unfold store_result. stay. Qed.

Hint Resolve stays_journaled stays_store_result : stays.

Lemma stays_checkpoint closing : acts (checkpoint encode value_of_state world rec closing).
Proof using Hrec. unfold checkpoint. stay. Qed.

Lemma stays_store_snapshot v : acts (store_snapshot_value encode world rec v).
Proof using Hrec. unfold store_snapshot_value. stay. Qed.

Hint Resolve stays_checkpoint stays_store_snapshot : stays.

Lemma stays_apply_inner e :
  acts (apply_event_inner encode value_of_event value_of_state value_of_frame world rec e).
Proof using Hrec. unfold apply_event_inner, commit_event, commit_stop. stay. Qed.

End recursive.

Lemma stays_apply_fuel fuel e :
  acts (apply_event_fuel encode value_of_event value_of_state value_of_frame world fuel e).
Proof.
  revert e. induction fuel as [|fuel IH]; intros e; cbn [apply_event_fuel]; [stay|].
  pose proof (stays_apply_inner _ IH). pose proof (stays_report_gap _ IH). stay.
Qed.

Lemma stays_apply e :
  acts (worker_apply_event encode value_of_event value_of_state value_of_frame world e).
Proof. apply stays_apply_fuel. Qed.

Hint Resolve stays_apply stays_report_gap stays_journal_result stays_journaled
  stays_store_result stays_checkpoint stays_store_snapshot : stays.

Lemma stays_record_api v :
  acts (record_api encode value_of_event value_of_state value_of_frame world v).
Proof. unfold record_api. stay. Qed.

Lemma stays_record_operation r :
  acts (record_operation encode value_of_event value_of_state value_of_frame world r).
Proof.
  assert (acts (modify (keep_operation r))).
  { apply stays_modify; [apply _|]. intros w. unfold keep_operation. repeat case_match; reflexivity. }
  unfold record_operation. stay.
Qed.

Lemma stays_route_output e : acts (modify (route_output e)).
Proof.
  apply stays_modify; [apply _|]. intros w. unfold route_output. repeat case_match; reflexivity.
Qed.

Hint Resolve stays_route_output : stays.

Lemma stays_process_input input :
  acts (process_input encode base64_encode value_of_event value_of_state value_of_frame world
          input).
Proof.
  unfold process_input, process_mi, process_stderr, process_pty, process_protocol_error,
    process_eof. stay.
Qed.

Lemma stays_unmatched record :
  acts (handle_unmatched_result encode value_of_event value_of_state value_of_frame world record).
Proof. unfold handle_unmatched_result. stay. Qed.

Lemma stays_finalize :
  acts (finalize_output_evidence encode value_of_event value_of_state value_of_frame world).
Proof.
  assert (acts (modify (fun w => w <| output_evidence_finalized := true |>))).
  { intros w. split; [by split|]. cbn. by destruct (output_evidence_finalized w). }
  unfold finalize_output_evidence. stay.
Qed.

Lemma stays_flush_journal :
  acts (flush_journal encode value_of_event value_of_state value_of_frame world).
Proof. unfold flush_journal. stay. Qed.

Hint Resolve stays_finalize : stays.

Lemma stays_close :
  acts (close encode value_of_event value_of_state value_of_frame world).
Proof. unfold close. stay. Qed.

Lemma stays_startup_event e : acts (startup_event encode value_of_event world e).
Proof.
  apply stays_bind; [apply _|auto with stays|]. intros [].
  apply stays_bind; [apply _|auto with stays|]. intros appended.
  apply stays_bind; [apply _|stay|]. intros seq. apply stays_gets_bind. intros w.
  pose proof (apply_moves (fun (u : unit) _ => u) seq e tt (state w)) as H.
  unfold live_apply_event. cbn [id] in *. destruct (apply_event_with _ _ _ _ _) as [[l u] r].
  cbn [fst] in H. destruct r; by apply actor_move_session.
Qed.

Hint Resolve stays_startup_event : stays.

Lemma stays_wait_for_prompt inputs ending :
  acts (wait_for_prompt encode base64_encode value_of_event world inputs ending).
Proof. induction inputs as [|[] inputs IH]; cbn [wait_for_prompt]; stay. Qed.
End fields.

#[export] Hint Resolve stays_ask stays_journaling stays_mark_failed stays_apply stays_journaled
  stays_journal_result stays_store_result stays_checkpoint stays_store_snapshot
  stays_record_api stays_record_operation stays_process_input stays_unmatched stays_finalize
  stays_flush_journal stays_close stays_wait_for_prompt : stays.

(** ** The journal's promise to the session actor

    What any appending operation of the journal does to a journal that is
    still recording, as an interface ([Appends]) that the actor's proofs use
    and the journal's operations implement. *)

Section appends.
#[local] Set Default Proof Using "Type".
Context (encode : JournalEntry -> bytes).

(** A journal with room for sequence numbers. *)
Record journal_live (j : Journal) : Prop := {
  jl_ok : journal_ok encode j;
  jl_aligned : aligned j;
  jl_room : (max_bytes j + 1 < U64_MAX)%N;
  jl_recording : recording j = true
}.

(** [f] appends one record of this kind: a stopped journal stays stopped; a
    recording one that still records afterwards has exactly that record more. *)
Class Appends (f : io -> Journal -> Journal * Result Error N) (kind : string) (data : Value) := {
  appends_frame : forall o j, let j' := (f o j).1 in
    durability j' = durability j /\ max_bytes j' = max_bytes j /\
    (recording j' = true -> recording j = true);
  appends_ok : forall o j j' seq, f o j = (j', Ok seq) -> journal_live j ->
    journal_ok encode j' /\ (is_durable j = true -> recording j' = true) /\
    (recording j' = true ->
       journal_live j' /\ seq = next_seq j /\ next_seq j' = (next_seq j + 1)%N /\
       recorded j' = recorded j ++ [MkJournalEntry seq kind data] /\
       (flushed_seq j <= flushed_seq j')%N)
}.

Lemma recorded_le_size es : (lenN es <= total_size encode es)%N.
Proof.
  induction es as [|e es IH]; [done|]. rewrite lenN_cons. cbn [total_size].
  unfold entry_size. lia.
Qed.

Lemma journal_live_next j : journal_live j -> (next_seq j < U64_MAX)%N.
Proof.
  intros [Hok Ha Hroom Hr]. rewrite (Ha Hr).
  pose proof (recorded_le_size (recorded j)). pose proof (jo_bound _ _ Hok). lia.
Qed.

Lemma journal_live_gap j : journal_live j -> journal_gap j = None.
Proof. intros [Hok _ _ Hr]. by destruct (jo_live _ _ Hok Hr). Qed.

Lemma stop_recording_frame e from j : let j' := (stop_recording e from j).1 in
  durability j' = durability j /\ max_bytes j' = max_bytes j /\
  (recording j' = true -> recording j = true).
Proof. unfold stop_recording. by case_match. Qed.

Lemma flush_frame o j : let j' := (flush o j).1 in
  durability j' = durability j /\ max_bytes j' = max_bytes j /\
  (recording j' = true -> recording j = true).
Proof.
  unfold flush. case_match; [done|]. destruct (io_flush o); [apply stop_recording_frame|].
  by case_match.
Qed.

Lemma limit_frame o seq j : let j' := (limit_reached encode o seq j).1 in
  durability j' = durability j /\ max_bytes j' = max_bytes j /\
  (recording j' = true -> recording j = true).
Proof.
  unfold limit_reached. case_match; [done|].
  pose proof (flush_frame o j) as Hf. destruct (flush o j) as [j1 [[]|]]; [|done].
  destruct (journal_gap j1); [done|]. cbn zeta.
  match goal with |- context [stop_recording ?e ?s ?j2] =>
    assert (durability j2 = durability j1 /\ max_bytes j2 = max_bytes j1 /\
            recording j2 = recording j1) as H2 by (by case_match);
    revert H2; generalize j2; intros j2' (Hd & Hm & Hr);
    destruct (stop_recording_frame e s j2') as (Hd' & Hm' & Hr');
    destruct (stop_recording e s j2') as [j3 [[]|]]; destruct Hf as (? & ? & Hf)
  end; cbn in *; split_and!; try congruence; intros H'; apply Hf; rewrite <-Hr; auto.
Qed.

Lemma append_frame o kind data j : let j' := (Journal.append encode o kind data j).1 in
  durability j' = durability j /\ max_bytes j' = max_bytes j /\
  (recording j' = true -> recording j = true).
Proof.
  unfold Journal.append. cbn zeta. case_match; [done|].
  case_match; [exact (limit_frame o (next_seq j) (advance_seq j))|].
  destruct (io_write o) as [m|].
  - pose proof (stop_recording_frame (error_of_io m)
      (u64_wrapping_add (flushed_seq (advance_seq j)) 1) (advance_seq j)) as Hs.
    destruct (stop_recording _ _ _) as [j3 [[]|]]; done.
  - match goal with |- context [if ?b then _ else _] => destruct b end; [|done].
    match goal with |- context [flush o ?j2] =>
      pose proof (flush_frame o j2) as Hf; destruct (flush o j2) as [j3 [[]|]]; done end.
Qed.

(** The record that an [append] that keeps recording has written. *)
Lemma append_records o kind data j j' seq :
  journal_live j -> Journal.append encode o kind data j = (j', Ok seq) -> recording j' = true ->
  recorded j' = recorded j ++ [MkJournalEntry seq kind data] /\
  (flushed_seq j <= flushed_seq j')%N.
Proof.
  intros Hl. pose proof (journal_live_next j Hl) as Hmax. destruct Hl as [Hok Ha _ Hr].
  pose proof (advance_ok encode j Hok) as Hok1. specialize (Ha Hr). unfold Journal.append.
  destruct (jo_live _ _ Hok1 Hr) as (_ & Hw & Hfl & _ & _).
  cbn [recording advance_seq]. rewrite Hr. cbn [negb]. case_match.
  { intros E Hr'. destruct (limit_reached_ok encode o (next_seq j) (advance_seq j) j' seq
      Hok1 Hr Ha Hmax E) as (_ & _ & _ & ? & _). congruence. }
  destruct (io_write o) as [m|].
  - unfold stop_recording. case_match; [done|]. by intros [= <- <-].
  - destruct (64 <=? _)%N; [|by intros [= <- <-]]. unfold flush, stop_recording.
    cbn in Hw, Hfl |- *. intros E Hr'. repeat case_match; simplify_eq/=; split; try done; lia.
Qed.

#[export] Instance append_appends kind data :
  Appends (fun o => Journal.append encode o kind data) kind data.
Proof.
  split; [intros; apply append_frame|]. intros o j j' seq E Hl.
  destruct (append_ok _ _ _ _ _ _ _ (jl_ok _ Hl) (jl_aligned _ Hl) (journal_live_next _ Hl) E)
    as (-> & Hn & Hj & Ha & _ & Hm & Hdur).
  split; [done|]. split; [intros Hd; by apply Hdur|]. intros Hr.
  destruct (append_records _ _ _ _ _ _ Hl E Hr). split_and!; try done.
  split; [done..| |done]. rewrite Hm. apply Hl.
Qed.

#[export] Instance append_flushed_appends kind data :
  Appends (fun o => append_flushed encode o kind data) kind data.
Proof.
  split.
  - intros o j. cbn zeta. unfold append_flushed, flush_boundary.
    pose proof (append_frame o kind data j) as Ha. cbn zeta in Ha.
    destruct (Journal.append encode o kind data j) as [j1 [seq|]]; [|done].
    case_match; [|done]. pose proof (flush_frame o j1) as Hf.
    destruct Ha as (? & ? & ?), Hf as (? & ? & ?).
    destruct (flush o j1) as [j2 [[]|]]; cbn in *; split_and!; try congruence; auto.
  - intros o j j' seq E Hl.
    destruct (append_flushed_ok _ _ _ _ _ _ _ (jl_ok _ Hl) (jl_aligned _ Hl)
      (journal_live_next _ Hl) E) as (-> & Hn & Hj & Ha & _ & Hm & Hdur).
    split; [done|]. split; [intros Hd; by apply Hdur|]. intros Hr.
    assert (recorded j' = recorded j ++ [MkJournalEntry (next_seq j) kind data] /\
            (flushed_seq j <= flushed_seq j')%N) as [].
    { unfold append_flushed in E.
      destruct (Journal.append encode o kind data j) as [j1 [seq|]] eqn:E1; [|done].
      unfold flush_boundary in E. destruct (is_durable j1) eqn:Hd1; simplify_eq.
      - destruct (flush o j1) as [j2 [[]|]] eqn:Hf; simplify_eq.
        assert (recording j1 = true) as Hr1
          by (pose proof (flush_recording o j1) as H; rewrite Hf in H; by apply H).
        destruct (append_records _ _ _ _ _ _ Hl E1 Hr1) as [Er Hfl].
        destruct (appends_ok o j j1 (next_seq j) E1 Hl) as (Hj1 & _ & H1).
        destruct (H1 Hr1) as (Hl1 & _). pose proof (journal_live_next _ Hl1).
        destruct (flush_ok encode o j1 j' Hj1) as (_ & Er2 & _ & Hdu); [|done|].
        + intros _. destruct Hl1 as [_ Ha1 _ _]. specialize (Ha1 Hr1). lia.
        + rewrite Er2. split; [done|]. destruct (jo_live _ _ Hj1 Hr1) as (_ & _ & Hle & _ & Hu0).
          destruct (Hdu Hd1 Hr1) as [_ Hfu].
          destruct (decide (unflushed_records j1 = 0%N)) as [Hu|Hu]; [|rewrite Hfu by done; lia].
          unfold flush in Hf. rewrite Hu in Hf. by simplify_eq/=.
      - by apply (append_records _ _ _ _ _ _ Hl E1). }
    split_and!; try done. split; [done..| |done]. rewrite Hm. apply Hl.
Qed.

(** A flushing append of a durable journal is on disk. *)
Lemma append_flushed_synced o kind data j j' seq :
  journal_live j -> is_durable j = true ->
  append_flushed encode o kind data j = (j', Ok seq) -> (seq <= flushed_seq j')%N.
Proof.
  intros Hl Hd E. destruct (appends_ok o j j' seq E Hl) as (Hj & Hdur & Hrec).
  specialize (Hdur Hd). destruct (Hrec Hdur) as (Hl' & -> & Hn & Er & _).
  destruct (jo_live _ _ Hj Hdur) as (_ & Hw & _ & _ & Hu0).
  rewrite Hu0, Hw, Er, lenN_app.
  - destruct Hl as [_ Ha _ Hr]. rewrite (Ha Hr). by cbn.
  - unfold append_flushed in E.
    pose proof (append_frame o kind data j) as (Hd1 & _). cbn zeta in Hd1.
    destruct (Journal.append encode o kind data j) as [j1 [sq|]] eqn:E1; [|done].
    cbn in Hd1. unfold flush_boundary in E.
    assert (is_durable j1 = true) as Hdj1 by (unfold is_durable in *; by rewrite Hd1).
    rewrite Hdj1 in E. destruct (flush o j1) as [j2 [[]|]] eqn:Hf; simplify_eq.
    by eapply flush_clears.
Qed.

(** Flushing a live journal writes no record. *)
Lemma flush_live o j j' :
  flush o j = (j', Ok tt) -> journal_live j ->
  journal_ok encode j' /\ (is_durable j = true -> recording j' = true) /\
  (recording j' = true -> journal_live j' /\ recorded j' = recorded j /\
     next_seq j' = next_seq j /\ (flushed_seq j <= flushed_seq j')%N).
Proof.
  intros E Hl. pose proof (journal_live_next _ Hl) as Hmax. destruct Hl as [Hok Ha Hroom Hr].
  destruct (flush_ok encode o j j' Hok) as (Hj & Er & [Kn Kd Km] & Hdur); [|done|].
  { intros _. specialize (Ha Hr). lia. }
  split; [done|]. split; [intros Hd; by apply Hdur|]. intros Hr'.
  split_and!; try done.
  - split; try done; [|congruence]. intros _. rewrite Kn, Er. by apply Ha.
  - destruct (jo_live _ _ Hok Hr) as (_ & _ & Hle & _). unfold flush in E.
    repeat case_match; simplify_eq/=; try done; try lia.
    unfold stop_recording in E. case_match; by simplify_eq/=.
Qed.

End appends.
