(* ===== verification/ActorProofs.v ===== *)
(** * ActorProofs: the session actor keeps its evidence

    The invariant of the worker: while it has not failed and its journal
    records, the journal is a log that replays to the worker's state, and a
    durable worker publishes only what is on disk.  Every operation of
    [Actor] keeps it, settles, and fails closed on a fatal error. *)

From S2P Require Import Prelude Text MiAst MiParser Json Errors Domain Reducer ReducerInv Backend Normalize Ring LiveState Journal Replay ReplayLive Policy Protocol Effects Actor ActorFrame.

Section evidence.
#[local] Set Default Proof Using "Type".
Context (encode : JournalEntry -> bytes) (base64_encode : bytes -> string)
        (value_of_event : Event.DomainEvent -> Value)
        (value_of_state : SessionState -> Value)
        (value_of_frame : FrameSummary -> Value)
        (world : nat -> answers) (sid : SessionId).

Abbreviation emit' := (emit base64_encode value_of_event value_of_state).
Abbreviation emit_item' := (emit_item base64_encode value_of_event value_of_state).

(** ** The log the actor has written *)

(** What the actor guarantees of an item when it writes it. *)
Definition logged_item (s : SessionState) (item : log_item) : Prop :=
  match item with
  | LMi raw => exists r, parse_record raw MiLimits_default = Done r /\ normalize r = None
  | LMiEvent raw e =>
      exists r, parse_record raw MiLimits_default = Done r /\ normalize r = Some e
  | LEvent _ | LSnapshot _ _ => True
  | LCheckpoint => (revision s <= U64_MAX)%N /\ event_seq s <> 0%N
  | LOther kind _ => kind ∉ handled_kinds
  end.

Fixpoint logged (seq : N) (items : list log_item) (s : SessionState) : Prop :=
  match items with
  | [] => True
  | item :: rest =>
      logged_item s item /\
      logged (seq + lenN (emit_item' seq item s).1) rest (emit_item' seq item s).2
  end.

Lemma emit_snoc items item seq s :
  let '(es, s1) := emit' seq items s in
  let '(es', s2) := emit_item' (seq + lenN es) item s1 in
  emit' seq (items ++ [item]) s = (es ++ es', s2).
Proof.
  revert seq s. induction items as [|i items IH]; intros seq s; cbn [emit app].
  - rewrite lenN_nil, N.add_0_r. destruct (emit_item' seq item s) as [es s1].
    cbn. by rewrite app_nil_r.
  - destruct (emit_item' seq i s) as [es s1]. specialize (IH (seq + lenN es)%N s1).
    destruct (emit' (seq + lenN es) items s1) as [es1 s2].
    rewrite lenN_app, N.add_assoc.
    destruct (emit_item' (seq + lenN es + lenN es1) item s2) as [es2 s3].
    rewrite IH. by rewrite app_assoc.
Qed.

Lemma logged_snoc items item seq s :
  logged seq (items ++ [item]) s <->
  logged seq items s /\ logged_item (emit' seq items s).2 item.
Proof.
  revert seq s. induction items as [|i items IH]; intros seq s; cbn [emit app logged].
  - cbn. tauto.
  - destruct (emit_item' seq i s) as [es s1]. cbn [fst snd]. rewrite IH.
    destruct (emit' (seq + lenN es) items s1) as [es1 s2]. cbn. tauto.
Qed.

(** The journal [es] is the log of a session in state [s], after an MI record
    whose event is still to come when [pending] holds its bytes. *)
Definition history (es : list JournalEntry) (s : SessionState) (pending : option bytes) : Prop :=
  exists items, logged 2 items (creating sid) /\ s = live_state base64_encode value_of_event
      value_of_state sid items /\
    es = session_journal base64_encode value_of_event value_of_state sid items false ++
      match pending with
      | Some raw => [mi_output_entry base64_encode
          (lenN (session_journal base64_encode value_of_event value_of_state sid items false) + 1)
          raw]
      | None => []
      end.

Lemma session_journal_open items :
  session_journal base64_encode value_of_event value_of_state sid items false =
  created_entry sid :: (emit' 2 items (creating sid)).1.
Proof. unfold session_journal. by rewrite app_nil_r. Qed.

(** One more item. *)
Lemma history_snoc es s item :
  history es s None -> logged_item s item ->
  let '(es', s') := emit_item' (lenN es + 1) item s in history (es ++ es') s' None.
Proof.
  intros (items & Hl & -> & ->) Hi. rewrite app_nil_r, session_journal_open, lenN_cons.
  pose proof (emit_snoc items item 2 (creating sid)) as He. unfold live_state in *.
  destruct (emit' 2 items (creating sid)) as [es s] eqn:E. cbn [fst snd] in *.
  replace (1 + lenN es + 1)%N with (2 + lenN es)%N by lia.
  destruct (emit_item' (2 + lenN es) item s) as [es' s'] eqn:E'. cbn [fst snd] in *.
  exists (items ++ [item]). rewrite logged_snoc, E. unfold live_state.
  rewrite session_journal_open, He, app_nil_r. by split_and!.
Qed.

(** The event of a pending MI record. *)
Definition pending_ok (pending : option bytes) (e : Event.DomainEvent) : Prop :=
  match pending with
  | Some raw => exists r, parse_record raw MiLimits_default = Done r /\ normalize r = Some e
  | None => True
  end.

Lemma history_pending es s raw :
  history es s None -> history (es ++ [mi_output_entry base64_encode (lenN es + 1) raw]) s (Some raw).
Proof. intros (items & Hl & -> & ->). exists items. rewrite app_nil_r. done. Qed.

Lemma history_event es s pending e :
  history es s pending -> pending_ok pending e ->
  history (es ++ [event_entry value_of_event (lenN es + 1) e]) (live_apply (lenN es + 1) e s) None.
Proof.
  intros H Hp. destruct pending as [raw|].
  - destruct H as (items & Hl & -> & ->).
    set (base := session_journal base64_encode value_of_event value_of_state sid items false).
    assert (history base (live_state base64_encode value_of_event value_of_state sid items) None)
      as Hb by (exists items; rewrite app_nil_r; done).
    pose proof (history_snoc _ _ (LMiEvent raw e) Hb Hp) as H2. cbn [emit_item] in H2.
    rewrite lenN_app, lenN_cons, lenN_nil, <-app_assoc.
    replace (lenN base + (1 + 0) + 1)%N with (lenN base + 1 + 1)%N by lia. exact H2.
  - exact (history_snoc es s (LEvent e) H I).
Qed.

(** ** The invariant *)

(** A checkpoint of this revision is on disk. *)
Definition on_disk (j : Journal) (rev : N) : Prop :=
  rev = 0%N \/
  exists s e, revision s = rev /\ e ∈ recorded j /\ (entry_seq e <= flushed_seq j)%N /\
    entry_kind e = "state.revision" /\
    entry_data e = Object [("revision", uint rev); ("state", value_of_state s)].

Definition session (w : Worker) : SessionState := borrow (state w).

(** [synced] says that the worker has started and its last checkpoint is up
    to date. *)
Record good (synced : bool) (pending : option bytes) (w : Worker) : Prop := {
  gd_live : journal_live encode (journal w);
  gd_history : history (recorded (journal w)) (session w) pending;
  gd_seq : (event_seq (session w) < next_seq (journal w))%N;
  gd_rev : (revision (session w) <= U64_MAX)%N;
  gd_dirty : state_dirty w = true \/ synced = true -> event_seq (session w) <> 0%N;
  gd_disk : is_durable (journal w) = true ->
    is_Some (staged (state w)) /\ on_disk (journal w) (revision (published (state w))) /\
    (synced = true -> state_dirty w = false /\ on_disk (journal w) (revision (session w)))
}.

Definition inv (synced : bool) (pending : option bytes) (w : Worker) : Prop :=
  fatal w = false ->
  (is_durable (journal w) = true -> recording (journal w) = true) /\
  (recording (journal w) = true -> good synced pending w).

(** What every operation leaves as it was or moves one way only. *)
Record frame (w w' : Worker) : Prop := {
  fr_durability : durability (journal w') = durability (journal w);
  fr_recording : recording (journal w') = true -> recording (journal w) = true;
  fr_fatal : fatal w = true -> fatal w' = true;
  fr_gap : journal_gap_reported w = true -> journal_gap_reported w' = true;
  fr_store : store_failed w = true -> store_failed w' = true;
  fr_limit : snapshot_limit w' = snapshot_limit w
}.

#[export] Instance frame_preorder : PreOrder frame.
Proof.
  split; [by intros w|]. intros w1 w2 w3 [] []. split; try congruence; auto.
Qed.

(** The worker has failed closed. *)
Definition down (w : Worker) : Prop :=
  fatal w = true /\ lifecycle (session w) = Lifecycle.Failed /\
  backend (session w) = Backend.Dead.

(** An operation that keeps the invariant, and one that also fails closed on
    every error. *)
Definition kept (w w' : Worker) : Prop :=
  frame w w' /\ (inv true None w -> inv true None w').

Definition keeps {A} (m : actor A) (w : Worker) : Prop :=
  wp m (fun _ w' => kept w w') w.

Definition strict {A} (m : actor A) (w : Worker) : Prop :=
  wp m (fun r w' => kept w w' /\ (is_ok r = false -> down w')) w.

#[export] Instance kept_preorder : PreOrder kept.
Proof.
  split; [by intros w|]. intros w1 w2 w3 [] []. split; [by etrans|auto].
Qed.

Lemma strict_keeps {A} (m : actor A) w : strict m w -> keeps m w.
Proof. intros H. eapply wp_mono; [exact H|]. by intros r w' []. Qed.

Lemma keeps_bind {A B} (m : actor A) (f : A -> actor B) w :
  keeps m w -> (forall a w', kept w w' -> keeps (f a) w') -> keeps (m ≫= f) w.
Proof.
  intros Hm Hf. apply wp_bind. eapply wp_mono; [exact Hm|]. intros [a|e] w' Hw; [|done].
  eapply wp_mono; [by apply Hf|]. intros r w'' Hw'. by etrans.
Qed.

Lemma strict_bind {A B} (m : actor A) (f : A -> actor B) w :
  strict m w -> (forall a w', kept w w' -> strict (f a) w') -> strict (m ≫= f) w.
Proof.
  intros Hm Hf. apply wp_bind. eapply wp_mono; [exact Hm|]. intros [a|e] w' [Hw He]; [|by split; auto].
  eapply wp_mono; [by apply Hf|]. intros r w'' [Hw' He']. split; [by etrans|done].
Qed.

(** The fields the invariant reads. *)
Definition core (w : Worker) :=
  (journal w, state w, fatal w, state_dirty w, store_failed w, journal_gap_reported w,
   snapshot_limit w).

Lemma frame_core w w' : core w' = core w -> frame w w'.
Proof. unfold core. intros [= Ej Es Ef Ed Est Eg El]. split; congruence. Qed.

Lemma inv_core q p w w' : core w' = core w -> inv q p w -> inv q p w'.
Proof.
  unfold core. intros [= Ej Es Ef Ed Est Eg El] H Hf. rewrite Ef in Hf. rewrite Ej.
  destruct (H Hf) as [H1 H2]. split; [done|]. intros Hr. destruct (H2 Hr) as [].
  split; unfold session in *; rewrite ?Ej, ?Es, ?Ed, ?Est in *; done.
Qed.

Lemma kept_core w w' : core w' = core w -> kept w w'.
Proof. intros E. split; [by apply frame_core|]. by apply inv_core. Qed.

Lemma strict_modify f w : core (f w) = core w -> strict (modify f) w.
Proof. intros E. apply wp_modify. split; [by apply kept_core|done]. Qed.

Lemma strict_ret {A} (a : A) w : strict (mret a) w.
Proof. by apply wp_ret. Qed.

Lemma strict_gets {A} (f : Worker -> A) w : strict (gets f) w.
Proof. by apply wp_gets. Qed.

Lemma wp_ask {A} (f : answers -> A) Q w :
  Q (Ok (f (world (ticks w)))) (w <| ticks := S (ticks w) |>) -> wp (ask world f) Q w.
Proof. done. Qed.

Lemma strict_ask {A} (f : answers -> A) w : strict (ask world f) w.
Proof. unfold strict, wp, ask. split; [by apply kept_core|done]. Qed.

Lemma strict_when b (m : actor unit) w : (b = true -> strict m w) -> strict (when b m) w.
Proof. intros H. apply wp_when; [done|]. by intros _. Qed.

(** A failed worker keeps every invariant. *)
Lemma inv_fatal q p w : fatal w = true -> inv q p w.
Proof. intros H Hf. congruence. Qed.

Lemma kept_fatal w w' : frame w w' -> fatal w' = true -> kept w w'.
Proof. intros H Hf. split; [done|]. intros _. by apply inv_fatal. Qed.

Lemma fail_closed_down s : lifecycle (fail_closed s).1 = Lifecycle.Failed /\
  backend (fail_closed s).1 = Backend.Dead.
Proof. unfold fail_closed, fail_backend, bump_revision. by case_match. Qed.

Lemma live_fail_closed_borrow l : borrow (live_fail_closed l).1 = (fail_closed (borrow l)).1.
Proof.
  unfold live_fail_closed, borrow. destruct (staged l) as [s|].
  - by destruct (fail_closed s) as [s' []].
  - by destruct (fail_closed (published l)) as [s' []].
Qed.

Lemma mark_failed_spec w :
  wp mark_failed (fun r w' => r = Ok tt /\ frame w w' /\ fatal w' = fatal w /\
    lifecycle (session w') = Lifecycle.Failed /\ backend (session w') = Backend.Dead) w.
Proof.
  apply wp_modify. pose proof (live_fail_closed_borrow (state w)) as Hb.
  destruct (fail_closed_down (borrow (state w))) as [Hl Hd]. rewrite <-Hb in Hl, Hd.
  destruct (live_fail_closed (state w)) as [l changed]. cbn [fst] in Hl, Hd. split; [done|].
  unfold session. repeat case_match; (split; [by split|done]).
Qed.

Lemma fail_worker_spec w :
  wp fail_worker (fun r w' => r = Ok tt /\ frame w w' /\ down w') w.
Proof.
  apply wp_bind, wp_modify. eapply wp_mono; [apply mark_failed_spec|].
  intros r w' (-> & Hf & Hfat & Hl & Hb). split; [done|]. split; [|done].
  etrans; [|exact Hf]. by split.
Qed.

Lemma strict_fail_worker w : strict fail_worker w.
Proof.
  eapply wp_mono; [apply fail_worker_spec|]. intros r w' (-> & Hf & Hd). split; [|done].
  by apply kept_fatal; [|apply Hd].
Qed.

(** ** Journaling *)

Lemma wp_journaling {A} (f : io -> Journal -> Journal * Result Error A) Q w :
  (forall j r, f (a_io (world (ticks w))) (journal w) = (j, r) ->
     Q (Ok r) (w <| journal := j |> <| ticks := S (ticks w) |>)) ->
  wp (journaling world f) Q w.
Proof.
  intros H. unfold wp, journaling.
  destruct (f (a_io (world (ticks w))) (journal w)) as [j r] eqn:E. by apply H.
Qed.

Lemma on_disk_mono j j' rev es :
  recorded j' = recorded j ++ es -> (flushed_seq j <= flushed_seq j')%N ->
  on_disk j rev -> on_disk j' rev.
Proof.
  intros Er Hf [->|(s & e & Hrev & He & Hs & Hk & Hd)]; [by left|]. right. exists s, e.
  rewrite Er, elem_of_app. split_and!; auto. lia.
Qed.

Lemma journal_frame w j n :
  durability j = durability (journal w) ->
  (recording j = true -> recording (journal w) = true) ->
  frame w (w <| journal := j |> <| ticks := n |>).
Proof. by split. Qed.

Lemma appends_frame_w f kind data (HA : Appends encode f kind data) w j r :
  f (a_io (world (ticks w))) (journal w) = (j, r) ->
  frame w (w <| journal := j |> <| ticks := S (ticks w) |>).
Proof.
  intros E. destruct (appends_frame encode (a_io (world (ticks w))) (journal w)) as (Hd & _ & Hr).
  rewrite E in Hd, Hr. by apply journal_frame.
Qed.

(** What a record more means for a worker in order. *)
Lemma appended f kind data (HA : Appends encode f kind data) q p w j seq :
  f (a_io (world (ticks w))) (journal w) = (j, Ok seq) -> good q p w ->
  (is_durable (journal w) = true -> recording j = true) /\
  (recording j = true ->
     journal_live encode j /\ seq = (lenN (recorded (journal w)) + 1)%N /\
     (seq < next_seq j)%N /\ (event_seq (session w) < seq)%N /\
     recorded j = recorded (journal w) ++ [MkJournalEntry seq kind data] /\
     forall rev, on_disk (journal w) rev -> on_disk j rev).
Proof.
  intros E Hg. pose proof (gd_live _ _ _ Hg) as Hl.
  destruct (appends_ok encode _ _ _ _ E Hl) as (_ & Hd & H). split; [done|]. intros Hr.
  destruct (H Hr) as (Hl' & -> & Hn & Er & Hf). pose proof (gd_seq _ _ _ Hg).
  pose proof (jl_aligned _ _ Hl (jl_recording _ _ Hl)).
  split_and!; try done; try lia. intros rev. by eapply on_disk_mono.
Qed.

Lemma inv_live q p w : inv q p w -> fatal w = false -> recording (journal w) = true -> good q p w.
Proof. intros H Hf. by apply H. Qed.

(** An item that leaves the state as it is. *)
Lemma appended_item f kind data (HA : Appends encode f kind data) item q w j seq :
  f (a_io (world (ticks w))) (journal w) = (j, Ok seq) ->
  emit_item' seq item (session w) = ([MkJournalEntry seq kind data], session w) ->
  (good q None w -> logged_item (session w) item) ->
  inv q None w -> inv q None (w <| journal := j |> <| ticks := S (ticks w) |>).
Proof.
  intros E He Hi Hinv Hf. cbn in Hf. destruct (Hinv Hf) as [Hdr Hg].
  destruct (appends_frame encode (a_io (world (ticks w))) (journal w)) as (Hd & _ & Hr0).
  rewrite E in Hd, Hr0. cbn in Hd, Hr0 |- *.
  assert (is_durable j = is_durable (journal w)) as Hdj by (unfold is_durable; by rewrite Hd).
  rewrite Hdj. split.
  { intros Hdur. specialize (Hdr Hdur).
    destruct (appended f kind data _ q None w j seq E (Hg Hdr)) as [H _]. by apply H. }
  intros Hr. specialize (Hg (Hr0 Hr)).
  destruct (appended f kind data _ q None w j seq E Hg) as [_ H].
  destruct (H Hr) as (Hl & -> & Hn & Hs & Er & Hdisk).
  pose proof (history_snoc _ _ item (gd_history _ _ _ Hg) (Hi Hg)) as Hh. rewrite He in Hh.
  destruct Hg. split; cbn; unfold session in *; cbn; try done.
  - by rewrite Er.
  - lia.
  - rewrite Hdj. intros Hdur. destruct (gd_disk0 Hdur) as (? & ? & Hs'). split_and!; auto.
    intros Hq. destruct (Hs' Hq). auto.
Qed.

Lemma inv_frozen q p q' p' w w' :
  frame w w' -> inv q p w -> fatal w = true \/ recording (journal w) = false -> inv q' p' w'.
Proof.
  intros [Hd Hr Hf _ _ _] Hinv Hfr Hf'. assert (fatal w = false) as Hfw.
  { destruct (fatal w); [|done]. by rewrite (Hf eq_refl) in Hf'. }
  destruct Hfr as [|Hrw]; [congruence|]. destruct (Hinv Hfw) as [Hdr _].
  assert (is_durable (journal w') = is_durable (journal w)) as ->
    by (unfold is_durable; by rewrite Hd).
  split; [intros Hdur; rewrite Hdr in Hrw; [done|exact Hdur]|].
  intros Hr'. rewrite (Hr Hr') in Hrw. done.
Qed.

(** Either nothing more is promised, or the worker is in order. *)
Lemma inv_cases q p w :
  inv q p w -> (fatal w = true \/ recording (journal w) = false) \/
               (fatal w = false /\ recording (journal w) = true /\ good q p w).
Proof.
  intros H. destruct (fatal w) eqn:Hf; [by left; left|].
  destruct (recording (journal w)) eqn:Hr; [|by left; right].
  right. split_and!; [done..|]. by apply H.
Qed.

Lemma good_inv q p w : good q p w -> inv q p w.
Proof. intros H _. split; [|done]. intros _. apply H. Qed.

(** The record of a checkpoint, written. *)
Lemma checkpointed q w j seq :
  append_state encode (a_io (world (ticks w))) (revision (session w))
    (value_of_state (session w)) (journal w) = (j, Ok seq) ->
  (q = true \/ state_dirty w = true) -> inv q None w ->
  inv true None (w <| state_dirty := false |> <| journal := j |> <| ticks := S (ticks w) |>).
Proof.
  set (data := Object [("revision", uint (revision (session w)));
                       ("state", value_of_state (session w))]).
  intros E Hq Hinv Hf. cbn in Hf. destruct (Hinv Hf) as [Hdr Hg].
  pose proof (append_flushed_appends encode "state.revision" data) as HA.
  destruct (appends_frame encode (a_io (world (ticks w))) (journal w)) as (Hd & _ & Hr0).
  unfold append_state in E. fold data in E. rewrite E in Hd, Hr0. cbn in Hd, Hr0 |- *.
  assert (is_durable j = is_durable (journal w)) as Hdj by (unfold is_durable; by rewrite Hd).
  rewrite Hdj. split.
  { intros Hdur. specialize (Hdr Hdur).
    destruct (appended _ _ _ HA q None w j seq E (Hg Hdr)) as [H _]. by apply H. }
  intros Hr. specialize (Hg (Hr0 Hr)).
  destruct (appended _ _ _ HA q None w j seq E Hg) as [_ H].
  destruct (H Hr) as (Hl & Hseq & Hn & Hs & Er & Hdisk).
  assert (event_seq (session w) <> 0%N) as Hne by (apply (gd_dirty _ _ _ Hg); tauto).
  assert (logged_item (session w) LCheckpoint) as Hi by (split; [apply Hg|done]).
  pose proof (history_snoc _ _ LCheckpoint (gd_history _ _ _ Hg) Hi) as Hh.
  cbn [emit_item] in Hh. rewrite <-Hseq in Hh.
  destruct Hg. split; cbn; unfold session in *; cbn; try done.
  - by rewrite Er.
  - lia.
  - rewrite Hdj. intros Hdur. destruct (gd_disk0 Hdur) as (? & ? & _). split_and!; auto.
    intros _. split; [done|]. right. eexists _, (MkJournalEntry seq "state.revision" data).
    split_and!; [reflexivity| | |reflexivity|reflexivity].
    + rewrite Er. set_solver.
    + cbn [entry_seq]. eapply append_flushed_synced; [exact gd_live0|exact Hdur|exact E].
Qed.
(** ** The reducer in the worker *)

Lemma apply_event_unchanged seq e s s' :
  apply_event seq e s = Ok (s', false) -> revision s' = revision s.
Proof.
  intros (_ & s1 & E & ->)%apply_event_inv. cbn.
  destruct (reduce_frame e (set_event_seq seq s)) as (_ & _ & Hr). by rewrite E in Hr.
Qed.

Lemma apply_event_revision seq e s s' changed :
  apply_event seq e s = Ok (s', changed) -> (revision s <= U64_MAX)%N -> (revision s' <= U64_MAX)%N.
Proof.
  intros (_ & s1 & E & ->)%apply_event_inv Hs. destruct changed; cbn.
  - unfold u64_wrapping_add, U64_MODULUS, U64_MAX.
    pose proof (N.mod_lt (revision s1 + 1) (2 ^ 64)). lia.
  - destruct (reduce_frame e (set_event_seq seq s)) as (_ & _ & Hr). rewrite E in Hr. cbn in Hr. lia.
Qed.

(** The events the actor reports of itself. *)
Definition keeps_stop (e : Event.DomainEvent) : bool :=
  match e with
  | Event.EvidenceGap _ | Event.SnapshotReady _ _ _ | Event.SnapshotFailed _ => true
  | _ => false
  end.

(** A stop leaves a current stop; the actor's own events leave it alone. *)
Lemma apply_event_stop seq e s s' changed :
  apply_event seq e s = Ok (s', changed) -> is_stop e = true -> is_Some (stop_id s').
Proof.
  intros (_ & s1 & E & ->)%apply_event_inv He.
  destruct (bump_revision_fields (s1, changed)) as (_ & _ & -> & _).
  change (fst (s1, changed)) with s1. replace s1 with (reduce e (set_event_seq seq s)).1 by (by rewrite E).
  destruct e; try done. cbn [reduce]. unfold reduce_target_stopped.
  by destruct (record_stopped_thread _ _ _ _ _).
Qed.

Lemma bump_revision_outline r :
  lifecycle (bump_revision r).1 = lifecycle r.1 /\
  outcome_unknown_tokens (bump_revision r).1 = outcome_unknown_tokens r.1.
Proof. by destruct r as [s []]. Qed.

Lemma apply_event_keeps_stop seq e s s' changed :
  apply_event seq e s = Ok (s', changed) -> keeps_stop e = true ->
  stop_id s' = stop_id s /\ lifecycle s' = lifecycle s /\
  outcome_unknown_tokens s' = outcome_unknown_tokens s.
Proof.
  intros (_ & s1 & E & ->)%apply_event_inv He.
  destruct (bump_revision_fields (s1, changed)) as (_ & _ & -> & _).
  destruct (bump_revision_outline (s1, changed)) as [-> ->].
  change (fst (s1, changed)) with s1. replace s1 with (reduce e (set_event_seq seq s)).1 by (by rewrite E).
  destruct e; try done; cbn [reduce]; clear; unfold_reduce; split_reduce; done.
Qed.

(** The worker adds events of its own to the session. *)
Definition own_step (s s' : SessionState) : Prop :=
  exists seq e changed, keeps_stop e = true /\ apply_event seq e s = Ok (s', changed).

Lemma own_steps_keep s s' : rtc own_step s s' ->
  stop_id s' = stop_id s /\ lifecycle s' = lifecycle s /\
  outcome_unknown_tokens s' = outcome_unknown_tokens s.
Proof.
  induction 1 as [|s1 s2 s3 (seq & e & c & He & Ea) _ (-> & -> & ->)]; [done|].
  by eapply apply_event_keeps_stop.
Qed.

(** Only such events happened. *)
Record same_context (w w' : Worker) : Prop := {
  sc_steps : rtc own_step (session w) (session w');
  sc_dirty : dirty_operations w = ∅ -> dirty_operations w' = ∅
}.

#[export] Instance same_context_preorder : PreOrder same_context.
Proof. split; [by intros w|]. intros w1 w2 w3 [] []. split; [by etrans|auto]. Qed.

Lemma sc_stop w w' : same_context w w' -> stop_id (session w') = stop_id (session w).
Proof. intros [H _]. apply (own_steps_keep _ _ H). Qed.

Lemma sc_lifecycle w w' : same_context w w' -> lifecycle (session w') = lifecycle (session w).
Proof. intros [H _]. apply (own_steps_keep _ _ H). Qed.

(** The event happened, then only events of the worker. *)
Record event_post (e : Event.DomainEvent) (w w' : Worker) : Prop := {
  ep_steps : exists seq s1 changed, apply_event seq e (session w) = Ok (s1, changed) /\
    rtc own_step s1 (session w');
  ep_dirty : dirty_operations w = ∅ -> dirty_operations w' = ∅
}.

Lemma event_post_trans e w w1 w2 :
  event_post e w w1 -> same_context w1 w2 -> event_post e w w2.
Proof.
  intros [(seq & s1 & c & Ea & Hs) Hd] [Hs' Hd']. split; [|auto].
  exists seq, s1, c. split; [done|by etrans].
Qed.

Lemma event_post_own e w w' : event_post e w w' -> keeps_stop e = true -> same_context w w'.
Proof.
  intros [(seq & s1 & c & Ea & Hs) Hd] He. split; [|done]. eapply rtc_l; [|exact Hs].
  by exists seq, e, c.
Qed.

Lemma apply_event_closed seq s s' changed :
  apply_event seq Event.SessionClosed s = Ok (s', changed) -> lifecycle s' = Lifecycle.Closed.
Proof. intros (_ & s1 & E & ->)%apply_event_inv. cbn in E. by simplify_eq/=. Qed.

Lemma event_post_closed w w' :
  event_post Event.SessionClosed w w' -> lifecycle (session w') = Lifecycle.Closed.
Proof.
  intros [(seq & s1 & c & Ea & Hs) _]. destruct (own_steps_keep _ _ Hs) as (_ & -> & _).
  by eapply apply_event_closed.
Qed.

Lemma reduce_event_spec invalidates seq e w :
  wp (reduce_event invalidates seq e) (fun r w' => exists r0, r = Ok r0 /\ frame w w' /\
    journal w' = journal w /\ fatal w' = fatal w /\ state_dirty w' = state_dirty w /\
    dirty_operations w' = dirty_operations w /\
    match r0 with
    | Ok changed =>
        apply_event seq e (session w) = Ok (session w', changed) /\
        (is_Some (staged (state w)) ->
         is_Some (staged (state w')) /\ published (state w') = published (state w))
    | Err _ => True
    end) w.
Proof.
  unfold wp, reduce_event, apply_event_with, session, borrow.
  destruct (staged (state w)) as [s|] eqn:Hs;
    destruct (apply_event seq e _) as [[s' changed]|err];
    (destruct (after_event _ _ _ _ _) as [[caps vals] stale] || idtac);
    eexists; (split; [reflexivity|]); (split; [by split|]); cbn; rewrite ?Hs; split_and!;
    done || eauto; by intros [].
Qed.

(** The journaled and reduced event. *)
Lemma reduced_good q q1 p w j seq e w1 changed :
  append_domain_ref encode (a_io (world (ticks w))) (value_of_event e) (journal w) = (j, Ok seq) ->
  good q p w -> recording j = true -> pending_ok p e ->
  journal w1 = j ->
  (q1 = true -> q = true /\ changed = false /\ state_dirty w1 = state_dirty w) ->
  apply_event seq e (session w) = Ok (session w1, changed) ->
  (is_Some (staged (state w)) ->
   is_Some (staged (state w1)) /\ published (state w1) = published (state w)) ->
  good q1 None w1.
Proof.
  intros E Hg Hr Hp Ej Hq1 Ea Hst.
  destruct (appended _ _ _ (append_appends encode "normalized.event" (value_of_event e))
    q p w j seq E Hg) as [_ H].
  destruct (H Hr) as (Hl & Hseq & Hn & Hs & Er & Hdisk).
  destruct (live_apply_ok seq e (session w) Hs) as (c & E1 & Es1 & _).
  rewrite Ea in E1. injection E1 as E1 _. rewrite <-E1 in Es1.
  pose proof (history_event _ _ _ _ (gd_history _ _ _ Hg) Hp) as Hh. rewrite <-Hseq, <-E1 in Hh.
  assert (is_durable j = is_durable (journal w)) as Hdj.
  { destruct (append_frame encode (a_io (world (ticks w))) "normalized.event" (value_of_event e)
      (journal w)) as (Hd & _). cbn zeta in Hd. unfold append_domain_ref in E. rewrite E in Hd.
    unfold is_durable. by rewrite <-Hd. }
  split; rewrite ?Ej.
  - done.
  - rewrite Er. exact Hh.
  - rewrite Es1. exact Hn.
  - eapply apply_event_revision; [exact Ea|apply Hg].
  - intros _. rewrite Es1. lia.
  - rewrite Hdj. intros Hdur. destruct (gd_disk _ _ _ Hg Hdur) as (Hsome & Hpub & Hsync).
    destruct (Hst Hsome) as [Hs1 ->]. split_and!; [done|auto|].
    intros Hq. destruct (Hq1 Hq) as (-> & -> & ->).
    rewrite (apply_event_unchanged _ _ _ _ Ea). destruct (Hsync eq_refl). auto.
Qed.

Lemma reduced_inv q q1 p w j seq e w1 changed :
  append_domain_ref encode (a_io (world (ticks w))) (value_of_event e) (journal w) = (j, Ok seq) ->
  inv q p w -> pending_ok p e -> frame w w1 -> journal w1 = j ->
  (q1 = true -> q = true /\ changed = false /\ state_dirty w1 = state_dirty w) ->
  apply_event seq e (session w) = Ok (session w1, changed) ->
  (is_Some (staged (state w)) ->
   is_Some (staged (state w1)) /\ published (state w1) = published (state w)) ->
  inv q1 None w1.
Proof.
  intros E Hi Hp Hf Ej Hq1 Ea Hst.
  destruct (inv_cases _ _ _ Hi) as [Hfz|(Hfat & Hr & Hg)]; [by eapply inv_frozen|].
  destruct (recording j) eqn:Hrj; [by apply good_inv; eapply reduced_good|].
  intros _. rewrite Ej. split; [|congruence]. intros Hdur.
  destruct (appended _ _ _ (append_appends encode "normalized.event" (value_of_event e))
    q p w j seq E Hg) as [Hd _]. apply Hd. unfold is_durable in *.
  by rewrite <-(fr_durability _ _ Hf), Ej.
Qed.

(** Publication. *)
Lemma borrow_publish l : borrow (publish l) = borrow l.
Proof. unfold publish, borrow. destruct (staged l) eqn:E; [done|]. by rewrite E. Qed.

Lemma publish_inv w : inv true None w -> inv true None (w <| state := publish (state w) |>).
Proof.
  intros H Hf. destruct (H Hf) as [H1 H2]. split; [done|]. intros Hr.
  pose proof (borrow_publish (state w)) as Eb.
  destruct (H2 Hr) as [Hl Hh Hs Hrev Hd Hdisk].
  split; cbn; unfold session in *; cbn; rewrite ?Eb; try done.
  intros Hdur. destruct (Hdisk Hdur) as ([s Hsome] & Hpub & Hsync).
  destruct (Hsync eq_refl) as [Hsd Hrevd]. unfold publish, borrow in *. rewrite Hsome in *.
  split_and!; eauto.
Qed.

(** Outside durable mode a started worker has nothing to synchronize. *)
Lemma inv_volatile q p w :
  is_durable (journal w) = false -> state_dirty w = true -> inv q p w -> inv true p w.
Proof.
  intros Hd Hsd H Hf. destruct (H Hf) as [H1 H2]. split; [done|]. intros Hr.
  destruct (H2 Hr) as [Hl Hh Hs Hrev Hdi _]. split; try done; [tauto|congruence].
Qed.

(** ** The functions that report events of their own *)

Definition budget (w : Worker) : nat :=
  (if journal_gap_reported w then 0 else 1) + (if store_failed w then 0 else 1).

Definition measure (w : Worker) (e : Event.DomainEvent) : nat :=
  (if is_stop e then 1 else 0) + budget w.

Lemma frame_budget w w' : frame w w' -> budget w' <= budget w.
Proof.
  intros [_ _ _ Hg Hs _]. unfold budget.
  destruct (journal_gap_reported w), (store_failed w); rewrite ?Hg, ?Hs by done;
    repeat case_match; lia.
Qed.

(** What an event may assume of the worker it is applied to, and what the
    caller of [apply_event] may rely on. *)
Definition event_spec (q : bool) (p : option bytes) (rec : Event.DomainEvent -> actor unit)
    (e : Event.DomainEvent) (w : Worker) : Prop :=
  wp (rec e) (fun r w' => frame w w' /\ (is_ok r = false -> down w') /\
    (is_ok r = true -> event_post e w w') /\
    (inv q p w -> q = true \/ e = Event.BackendStarted -> pending_ok p e ->
     inv true None w')) w.

Section recursion.
Context (rec : Event.DomainEvent -> actor unit) (n : nat).
Hypothesis rec_ok : forall q p e w,
  snapshot_limit w <> 0 -> measure w e < n -> event_spec q p rec e w.

Lemma rec_strict e w : snapshot_limit w <> 0 -> measure w e < n -> strict (rec e) w.
Proof using rec_ok.
  intros Hl Hm. eapply wp_mono; [by apply (rec_ok true None)|].
  intros r w' (Hf & Hd & _ & Hi). split; [|done]. split; [done|]. intros H. apply Hi; auto. done.
Qed.

Lemma report_gap_spec w :
  snapshot_limit w <> 0 -> budget w <= n ->
  wp (report_journal_gap rec) (fun r w' => frame w w' /\ (is_ok r = false -> down w') /\
    (is_ok r = true -> same_context w w') /\ (forall q p, inv q p w -> inv q p w')) w.
Proof using rec_ok.
  intros Hl Hb. unfold report_journal_gap. apply wp_bind, wp_gets. cbn [id].
  destruct (journal_gap (journal w)) as [g|] eqn:Hg; [|by apply wp_ret].
  destruct (journal_gap_reported w) eqn:Hrep; [by apply wp_ret|].
  apply wp_bind, wp_modify.
  set (w1 := w <| journal_gap_reported := true |>).
  assert (frame w w1) as Hf1 by (by split).
  eapply wp_mono; [apply (rec_ok true None)|].
  - exact Hl.
  - unfold measure, budget in *. rewrite Hrep in Hb. cbn in Hb |- *. lia.
  - intros r w' (Hf & Hd & Hst & _). assert (frame w w') as Hfr by (by etrans).
    split_and!; [done|done| |].
    { intros Ho. transitivity w1; [by split|]. by eapply event_post_own; [apply Hst|]. }
    intros q p Hi. eapply inv_frozen; [exact Hfr|exact Hi|].
    destruct (inv_cases _ _ _ Hi) as [|(Hfat & Hr & Hgd)]; [done|].
    by rewrite (journal_live_gap _ _ (gd_live _ _ _ Hgd)) in Hg.
Qed.

Lemma journal_result_spec {A} (result : Result Error A) w :
  snapshot_limit w <> 0 -> budget w <= n ->
  wp (journal_result rec result) (fun r w' => frame w w' /\ (is_ok r = false -> down w') /\
    (is_ok r = true -> r = result /\ same_context w w') /\
    (is_ok result = true -> forall q p, inv q p w -> inv q p w')) w.
Proof using rec_ok.
  intros Hl Hb. unfold journal_result. destruct result as [a|e]; cbn [is_ok].
  - apply wp_bind, wp_ret, wp_bind, wp_lift, wp_bind.
    eapply wp_mono; [by apply report_gap_spec|]. intros [[]|e] w' (Hf & Hd & Hst & Hi).
    + apply wp_ret. split_and!; try done. intros _. split; [done|by apply Hst].
    + by split_and!; auto.
  - apply wp_bind. eapply wp_mono; [apply fail_worker_spec|]. intros r w' (-> & Hf & Hd).
    apply wp_bind, wp_lift. by split_and!.
Qed.

(** An append whose result goes through [journal_result]. *)
Lemma strict_append f kind data (HA : Appends encode f kind data) item w :
  snapshot_limit w <> 0 -> budget w <= n ->
  (forall seq, emit_item' seq item (session w) = ([MkJournalEntry seq kind data], session w)) ->
  logged_item (session w) item ->
  strict (journaled world rec f) w.
Proof using rec_ok.
  intros Hl Hb He Hi. apply wp_bind, wp_journaling. intros j r E.
  pose proof (appends_frame_w f kind data _ w j r E) as Hf1.
  eapply wp_mono; [apply journal_result_spec; [exact Hl|]|].
  { etrans; [exact (frame_budget _ _ Hf1)|done]. }
  intros r' w' (Hf & Hd & Hok & Hinv). split; [|done]. split; [by etrans|]. intros H.
  destruct r as [seq|e]; [apply Hinv; [done|]; by eapply appended_item|].
  destruct r' as [a|e']; [by destruct (Hok eq_refl)|]. by apply inv_fatal, Hd.
Qed.

Lemma store_result_spec result w :
  snapshot_limit w <> 0 -> budget w <= n ->
  wp (store_result rec result) (fun r w' => kept w w' /\ (is_ok r = false -> down w') /\
    (is_ok r = true -> same_context w w')) w.
Proof using rec_ok.
  intros Hl Hb. destruct result as [error|]; [|by apply wp_ret]. cbn [store_result].
  apply wp_bind, wp_gets. cbn [id]. destruct (is_durable (journal w)) eqn:Hdur.
  { apply wp_bind. eapply wp_mono; [apply fail_worker_spec|]. intros r w' (-> & Hf & Hd).
    apply wp_fail. split_and!; [|done..]. by apply kept_fatal; [|apply Hd]. }
  destruct (store_failed w) eqn:Hs; [by apply wp_ret|].
  apply wp_bind, wp_modify. set (w1 := w <| store_failed := true |>).
  assert (kept w w1) as Hk.
  { split; [by split|]. intros H Hf. destruct (H Hf) as [H1 H2]. split; [done|].
    intros Hr. destruct (H2 Hr). by split. }
  eapply wp_mono; [apply (rec_ok true None)|]; [done| |].
  - unfold measure, budget in *. rewrite Hs in Hb. cbn in Hb |- *. lia.
  - intros r w' (Hf & Hd & Hst & Hi). split_and!; [|done|].
    + etrans; [exact Hk|]. split; [done|]. intros H. apply Hi; auto. done.
    + intros Ho. transitivity w1; [by split|]. by eapply event_post_own; [apply Hst|].
Qed.

Lemma checkpoint_spec q closing w :
  snapshot_limit w <> 0 -> budget w <= n ->
  wp (checkpoint encode value_of_state world rec closing) (fun r w' =>
    frame w w' /\ (is_ok r = false -> down w') /\ (is_ok r = true -> same_context w w') /\
    (inv q None w -> q = true \/ state_dirty w = true -> inv true None w')) w.
Proof using rec_ok.
  intros Hl Hb. unfold checkpoint. apply wp_bind, wp_gets. cbn [id].
  apply wp_bind, wp_modify. set (w0 := w <| dirty_operations := ∅ |>).
  assert (core w0 = core w) as Hc by done.
  assert (forall w', frame w0 w' -> frame w w') as Hfr.
  { intros w' H. etrans; [by apply frame_core|exact H]. }
  set (dirty := if store_failed w then ∅ else dirty_operations w).
  set (due := state_dirty w || closing && store_failed w).
  assert (forall w1, frame w w1 -> same_context w w1 ->
    (inv q None w -> q = true \/ state_dirty w = true -> inv true None w1) ->
    wp (failed ← gets store_failed;
        when (negb failed || closing) (stored ← ask world a_store; store_result rec stored))
      (fun r w' => frame w w' /\ (is_ok r = false -> down w') /\
        (is_ok r = true -> same_context w w') /\
        (inv q None w -> q = true \/ state_dirty w = true -> inv true None w')) w1) as Htail.
  { intros w1 Hf1 Hst1 Hi1. apply wp_bind, wp_gets. apply wp_when; [|by intros _]. intros _.
    apply wp_bind, wp_ask. set (w2 := w1 <| ticks := S (ticks w1) |>).
    assert (kept w1 w2) as [Hf2 Hk2] by (by apply kept_core).
    assert (frame w w2) as Hfw2 by (by etrans).
    eapply wp_mono; [apply store_result_spec|].
    - by rewrite (fr_limit _ _ Hfw2).
    - pose proof (frame_budget _ _ Hfw2). lia.
    - intros r w' ([Hf Hk] & Hd & Hst). split_and!; [by etrans|done| |auto].
      intros Ho. transitivity w2; [|by apply Hst]. etrans; [exact Hst1|by split]. }
  case_match eqn:Hdue.
  { apply wp_ret. split_and!; [by apply frame_core|done|done|].
    apply andb_true_iff in Hdue as [Hdue _]. apply negb_true_iff, orb_false_iff in Hdue as [Hsd _].
    intros Hi [->|Hs]; [|congruence]. by eapply inv_core. }
  apply wp_bind. destruct due eqn:Ed; cbn [when].
  - apply wp_bind, wp_modify. set (w1 := w0 <| state_dirty := false |>).
    apply wp_bind, wp_gets, wp_bind, wp_bind, wp_journaling. intros j r E.
    set (w2 := _ <| ticks := _ |>).
    assert (frame w w2) as Hf2.
    { transitivity w1; [by split|]. eapply (appends_frame_w _ _ _ _ w1 j r). exact E. }
    eapply wp_mono; [apply journal_result_spec; [done|]|].
    { etrans; [by apply frame_budget|done]. }
    intros r' w' (Hf & Hd & Hok & Hinv). assert (frame w w') as Hfw by (by etrans).
    destruct r' as [seq|e].
    + destruct (Hok eq_refl) as [<- Hst]. apply wp_ret, Htail;
        [done|transitivity w2; [by split|exact Hst]|].
      intros Hi Hq. apply Hinv; [done|].
      eapply inv_core; [|eapply (checkpointed q w0 j seq); [exact E|exact Hq|by eapply inv_core]].
      done.
    + split_and!; [done|done|done|]. intros _ _. by apply inv_fatal, Hd.
  - apply wp_ret, Htail; [by apply frame_core|done|].
    apply orb_false_iff in Ed as [Hsd _]. intros Hi [->|Hs]; [|congruence]. by eapply inv_core.
Qed.

Lemma checkpoint_strict closing w :
  snapshot_limit w <> 0 -> budget w <= n ->
  strict (checkpoint encode value_of_state world rec closing) w.
Proof using rec_ok.
  intros Hl Hb. eapply wp_mono; [by apply (checkpoint_spec true)|].
  intros r w' (Hf & Hd & _ & Hi). split; [split; [done|]|done]. intros H. auto.
Qed.
Lemma commit_event_spec q p invalidates e w :
  snapshot_limit w <> 0 -> budget w <= n ->
  wp (commit_event encode value_of_event value_of_state world rec invalidates e) (fun r w' =>
    frame w w' /\
    (is_ok r = true -> is_stop e = true -> is_Some (stop_id (session w'))) /\
    (is_ok r = true -> event_post e w w') /\
    (is_ok r = true -> inv q p w -> q = true \/ e = Event.BackendStarted -> pending_ok p e ->
     inv true None w')) w.
Proof using rec_ok.
  intros Hl Hb. unfold commit_event. apply wp_bind, wp_journaling. intros j r E.
  set (w1 := _ <| ticks := _ |>).
  pose proof (appends_frame_w _ _ _ (append_appends encode "normalized.event" (value_of_event e))
    w j r E) as Hf1. fold w1 in Hf1.
  apply wp_bind, wp_lift. destruct r as [seq|err]; [|by split_and!].
  apply wp_bind. eapply wp_mono; [apply reduce_event_spec|].
  intros ? w2 (r0 & -> & Hf2 & Ej2 & Efat2 & Esd2 & Edo2 & Hr0). apply wp_bind, wp_lift.
  assert (frame w w2) as Hfw2 by (by etrans).
  destruct r0 as [changed|err]; [|by split_and!]. destruct Hr0 as [Ea Hst].
  apply wp_bind, wp_modify. set (w3 := w2 <| state_dirty := state_dirty w2 || changed |>).
  assert (frame w w3) as Hfw3 by (etrans; [exact Hfw2|by split]).
  assert (inv q p w -> q = true \/ e = Event.BackendStarted -> pending_ok p e ->
          inv (negb changed) None w3) as Hinv3.
  { intros Hi Hq Hp. eapply (reduced_inv q _ p w j seq e w3 changed); try done.
    intros ->%negb_true_iff. unfold w3. cbn. rewrite Esd2, orb_false_r. split_and!; try done.
    destruct Hq as [|Hq]; [done|]. subst e.
    by apply apply_event_inv in Ea as (_ & s1 & Ea & _). }
  assert (is_stop e = true -> is_Some (stop_id (session w3))) as Hstop.
  { intros He. change (session w3) with (session w2).
    by eapply apply_event_stop. }
  assert (changed = true -> state_dirty w3 = true) as Hdirty.
  { intros ->. cbn. apply orb_true_r. }
  assert (event_post e w w3) as Hsame.
  { split; [by exists seq, (session w2), changed|].
    change (dirty_operations w3) with (dirty_operations w2). by rewrite Edo2. }
  clearbody w3. clear Hst Ea.
  apply wp_bind, wp_gets, wp_bind.
  assert (wp (when (changed && is_durable (journal w3))
               (checkpoint encode value_of_state world rec false)) (fun r w4 => frame w w4 /\
    (is_ok r = true -> same_context w3 w4) /\
    (is_ok r = true -> inv q p w -> q = true \/ e = Event.BackendStarted -> pending_ok p e ->
     inv true None w4)) w3) as Hck.
  { apply wp_when.
    - intros [-> Hdur]%andb_true_iff. eapply wp_mono; [apply (checkpoint_spec false)|].
      + by rewrite (fr_limit _ _ Hfw3).
      + pose proof (frame_budget _ _ Hfw3). lia.
      + intros r w4 (Hf4 & _ & Hst4 & Hi4). split_and!; [by etrans|done|]. intros _ H1 H2 H3.
        apply Hi4; [by apply Hinv3|right; by apply Hdirty].
    - intros Hnc. split_and!; [done..|]. intros _ H1 H2 H3. specialize (Hinv3 H1 H2 H3).
      destruct changed; [|done]. eapply inv_volatile; [done|by apply Hdirty|exact Hinv3]. }
  eapply wp_mono; [exact Hck|]. clear Hck. intros [[]|err] w4 (Hf4 & Hst4 & Hi4); [|by split_and!].
  apply wp_bind, wp_modify, wp_bind, wp_modify, wp_ret. split_and!.
  - etrans; [exact Hf4|by split].
  - intros _ He. unfold session. cbn. rewrite borrow_publish. 
    pose proof (sc_stop _ _ (Hst4 eq_refl)) as Hs. unfold session in Hs. rewrite Hs. by apply Hstop.
  - intros _. eapply event_post_trans; [exact Hsame|]. etrans; [by apply Hst4|].
    split; [unfold session; cbn; by rewrite borrow_publish|done].
  - intros _ H1 H2 H3. eapply inv_core; [|apply publish_inv, (Hi4 eq_refl H1 H2 H3)]. done.
Qed.
(** Steps that keep the invariant and, when they succeed, the context. *)
Definition quiet {A} (m : actor A) (w : Worker) : Prop :=
  wp m (fun r w' => kept w w' /\ (is_ok r = true -> same_context w w')) w.

Lemma quiet_bind {A B} (m : actor A) (f : A -> actor B) w :
  quiet m w -> (forall a w', kept w w' -> quiet (f a) w') -> quiet (m ≫= f) w.
Proof.
  intros Hm Hf. apply wp_bind. eapply wp_mono; [exact Hm|]. intros [a|e] w' [Hw Hs]; [|done].
  eapply wp_mono; [by apply Hf|]. intros r w'' [Hw' Hs']. split; [by etrans|].
  intros Ho. etrans; [by apply Hs|by apply Hs'].
Qed.

Lemma quiet_ask {A} (f : answers -> A) w : quiet (ask world f) w.
Proof. apply wp_ask. split; [by apply kept_core|by split]. Qed.

Lemma quiet_modify f w :
  core (f w) = core w -> dirty_operations (f w) = dirty_operations w -> quiet (modify f) w.
Proof.
  intros E Ed. apply wp_modify. split; [by apply kept_core|]. intros _.
  split; [|by rewrite Ed]. unfold core in E. unfold session. by replace (state (f w)) with (state w) by congruence.
Qed.

Lemma quiet_append f kind data (HA : Appends encode f kind data) item w :
  snapshot_limit w <> 0 -> budget w <= n ->
  (forall seq, emit_item' seq item (session w) = ([MkJournalEntry seq kind data], session w)) ->
  logged_item (session w) item -> quiet (journaled world rec f) w.
Proof using rec_ok.
  intros Hl Hb He Hi. eapply wp_mono; [apply wp_and; [by eapply strict_append|]|].
  { apply wp_bind, wp_journaling. intros j r E.
    pose proof (appends_frame_w f kind data _ w j r E) as Hf1.
    eapply wp_mono; [apply journal_result_spec; [exact Hl|]|].
    { etrans; [exact (frame_budget _ _ Hf1)|done]. }
    intros r' w' (_ & _ & Hok & _). instantiate (1 := fun r w' => is_ok r = true -> same_context w w').
    intros Ho. destruct (Hok Ho) as [_ Hs]. etrans; [|exact Hs]. by split. }
  intros r w' [[Hk _] Hs]. by split.
Qed.

Lemma store_snapshot_spec snapshot w :
  snapshot_limit w <> 0 -> budget w <= n ->
  quiet (store_snapshot_value encode world rec snapshot) w.
Proof using rec_ok.
  intros Hl Hb.
  assert (forall w', kept w w' -> snapshot_limit w' <> 0 /\ budget w' <= n) as Hok.
  { intros w' [Hf _]. rewrite (fr_limit _ _ Hf). pose proof (frame_budget _ _ Hf). split; [done|lia]. }
  destruct snapshot as [| | | | | |fields]; try by apply wp_fail.
  apply quiet_bind; [apply quiet_ask|]. intros ulid w1 Hk1.
  set (id := "obs_" +:+ ulid). set (snap := Object (finalize_snapshot id fields)).
  destruct (Hok w1 Hk1). apply quiet_bind.
  { by eapply (quiet_append _ _ _ _ (LSnapshot id snap)). }
  intros seq w2 Hk2. assert (kept w w2) as Hkw2 by (by etrans). apply quiet_bind; [by apply wp_gets|].
  intros failed w3 Hk3. assert (kept w w3) as Hkw3 by (by etrans). apply quiet_bind.
  { apply wp_when; [|by intros _]. intros _. apply quiet_bind; [apply quiet_ask|].
    intros stored w4 Hk4. destruct (Hok w4) as [? ?]; [by etrans|].
    eapply wp_mono; [by apply store_result_spec|]. by intros r w' (? & _ & ?). }
  intros [] w4 Hk4. apply wp_bind, wp_gets. cbn [id]. destruct (List.find _ _) as [[? existing]|].
  - case_bool_decide; [by apply wp_ret|by apply wp_fail].
  - rewrite bool_decide_false by (apply Hok; by etrans).
    apply quiet_bind; [by apply quiet_modify|]. intros; by apply wp_ret.
Qed.

Lemma commit_stop_spec seq w :
  snapshot_limit w <> 0 -> S (budget w) <= n -> is_Some (stop_id (session w)) ->
  quiet (commit_stop encode value_of_frame world rec seq) w.
Proof using rec_ok.
  intros Hl Hb [stop Hstop]. unfold commit_stop. apply wp_bind, wp_gets. cbn zeta.
  change (borrow (state w)) with (session w). rewrite Hstop. apply wp_bind, wp_ret.
  assert (forall w' e, kept w w' -> is_stop e = false -> keeps_stop e = true -> quiet (rec e) w') as Hrec.
  { intros w' e [Hf _] He Hk. eapply wp_mono; [apply (rec_ok true None)|].
    - by rewrite (fr_limit _ _ Hf).
    - unfold measure. rewrite He. pose proof (frame_budget _ _ Hf). lia.
    - intros r w'' (Hf' & _ & Hp & Hi). split.
      + split; [done|]. intros H. apply Hi; auto. done.
      + intros Ho. by eapply event_post_own; [apply Hp|]. }
  apply wp_bind, wp_attempt. eapply wp_mono; [apply store_snapshot_spec; [done|lia]|].
  intros stored w1 [Hk1 Hs1]. destruct stored as [snap|err].
  - eapply wp_mono; [|intros r w' H; instantiate (1 := fun r w' => kept w1 w' /\
      (is_ok r = true -> same_context w1 w')) in H; destruct H as [Hk Hs];
      split; [by etrans|intros Ho; etrans; [by apply Hs1|by apply Hs]]].
    apply quiet_bind; [by apply wp_lift|]. intros id w2 Hk2. apply wp_bind, wp_gets.
    destruct (replacing_module_breakpoint w2); [by apply quiet_modify|].
    apply Hrec; [by etrans|done..].
  - apply wp_bind. eapply wp_mono; [by apply Hrec|]. intros [[]|e] w2 [Hk2 _].
    + apply wp_fail. split; [by etrans|done].
    + split; [by etrans|done].
Qed.

Lemma note_event_core e w : core (note_event e w) = core w.
Proof. unfold note_event. destruct e; cbn; repeat case_match; reflexivity. Qed.

Lemma note_event_dirty e w : dirty_operations (note_event e w) = dirty_operations w.
Proof. unfold note_event. destruct e; cbn; repeat case_match; reflexivity. Qed.

Lemma apply_event_inner_spec q p e w :
  snapshot_limit w <> 0 -> measure w e <= n ->
  wp (apply_event_inner encode value_of_event value_of_state value_of_frame world rec e)
    (fun r w' => frame w w' /\
      (is_ok r = true -> event_post e w w') /\
      (is_ok r = true -> inv q p w -> q = true \/ e = Event.BackendStarted -> pending_ok p e ->
       inv true None w')) w.
Proof using rec_ok.
  intros Hl Hm. unfold apply_event_inner. apply wp_bind, wp_gets, wp_bind, wp_modify.
  set (w1 := note_event e w). assert (core w1 = core w) as Hc by apply note_event_core.
  assert (frame w w1) as Hf1 by (by apply frame_core).
  assert (session w1 = session w) as Hses by (unfold core in Hc; unfold session; congruence).
  assert (budget w <= n) as Hb by (unfold measure in Hm; lia).
  apply wp_bind. eapply wp_mono; [apply (commit_event_spec q p)|].
  - by rewrite (fr_limit _ _ Hf1).
  - pose proof (frame_budget _ _ Hf1). lia.
  - intros [seq|err] w2 (Hf2 & Hstop & Hsame & Hi2).
    2: { split_and!; [by etrans|done..]. }
    assert (frame w w2) as Hfw2 by (by etrans).
    assert (inv q p w -> q = true \/ e = Event.BackendStarted -> pending_ok p e ->
            inv true None w2) as Hi.
    { intros H1 H2 H3. apply Hi2; [done|by eapply inv_core|done..]. }
    assert (event_post e w w2) as Hpost.
    { destruct (Hsame eq_refl) as [Hs1 Hs2]. rewrite Hses in Hs1. unfold w1 in Hs2.
      rewrite note_event_dirty in Hs2. by split. }
    apply wp_when; intros He.
    + eapply wp_mono; [apply commit_stop_spec|].
      * by rewrite (fr_limit _ _ Hfw2).
      * unfold measure in Hm. rewrite He in Hm. pose proof (frame_budget _ _ Hfw2). lia.
      * by apply Hstop.
      * intros r w3 [[Hf3 Hk3] Hs3]. split_and!; [by etrans| |auto].
        intros Ho. eapply event_post_trans; [exact Hpost|by apply Hs3].
    + by split_and!.
Qed.

End recursion.

(** ** Applying an event *)

Lemma apply_event_fuel_spec fuel q p e w :
  snapshot_limit w <> 0 -> measure w e < fuel ->
  event_spec q p (apply_event_fuel encode value_of_event value_of_state value_of_frame world fuel)
    e w.
Proof.
  revert q p e w. induction fuel as [|fuel IH]; intros q p e w Hl Hm; [lia|].
  unfold event_spec. cbn [apply_event_fuel]. apply wp_bind, wp_attempt, wp_bind.
  eapply wp_mono; [apply (apply_event_inner_spec _ fuel IH q p); [done|lia]|].
  assert (forall (r : Result Error unit) w1, frame w w1 -> (is_ok r = true -> event_post e w w1) ->
    (is_ok r = true -> inv q p w -> q = true \/ e = Event.BackendStarted -> pending_ok p e ->
     inv true None w1) ->
    wp ((if is_ok r then mret tt else fail_worker) ;; lift r) (fun r w' =>
      frame w w' /\ (is_ok r = false -> down w') /\
      (is_ok r = true -> event_post e w w') /\
      (inv q p w -> q = true \/ e = Event.BackendStarted -> pending_ok p e ->
       inv true None w')) w1) as Hend.
  { intros r w1 Hf1 Hs1 Hi1. apply wp_bind. destruct r as [[]|err]; cbn [is_ok] in *.
    - apply wp_ret, wp_lift. split_and!; auto. done.
    - eapply wp_mono; [apply fail_worker_spec|]. intros r w2 (-> & Hf2 & Hd). apply wp_lift.
      split_and!; [by etrans|done..|]. intros _ _ _. by apply inv_fatal, Hd. }
  intros [[]|err] w1 (Hf1 & Hs1 & Hi1); [|by apply Hend].
  assert (budget w1 <= fuel) as Hb1.
  { unfold measure in Hm. pose proof (frame_budget _ _ Hf1). lia. }
  eapply wp_mono; [apply (report_gap_spec _ fuel IH); [by rewrite (fr_limit _ _ Hf1)|done]|].
  intros r w2 (Hf2 & _ & Hs2 & Hi2). apply Hend; [by etrans| |auto].
  intros Ho. eapply event_post_trans; [by apply Hs1|by apply Hs2].
Qed.

(** Every event is applied within the fuel, whatever the outside answers. *)
Lemma worker_apply_event_spec q p e w :
  snapshot_limit w <> 0 ->
  event_spec q p (worker_apply_event encode value_of_event value_of_state value_of_frame world) e w.
Proof.
  intros Hl. apply apply_event_fuel_spec; [done|]. unfold measure, budget.
  repeat case_match; lia.
Qed.

(** ** The operations of the worker *)

Abbreviation apply' :=
  (worker_apply_event encode value_of_event value_of_state value_of_frame world).

Definition ready (w : Worker) : Prop := snapshot_limit w <> 0.

Lemma kept_ready w w' : kept w w' -> ready w -> ready w'.
Proof. intros [Hf _]. unfold ready. by rewrite (fr_limit _ _ Hf). Qed.

Lemma apply_ok q p e w :
  snapshot_limit w <> 0 -> measure w e < 4 -> event_spec q p apply' e w.
Proof. intros H _. by apply worker_apply_event_spec. Qed.

Lemma budget_small w : budget w <= 4.
Proof. unfold budget. repeat case_match; lia. Qed.

Lemma apply_strict e w : ready w -> strict (apply' e) w.
Proof.
  intros H. apply (rec_strict apply' 4 apply_ok); [done|].
  unfold measure, budget. repeat case_match; lia.
Qed.

Lemma attempt_keeps {A} (m : actor A) w : keeps m w -> strict (attempt m) w.
Proof.
  intros H. apply wp_attempt. eapply wp_mono; [exact H|]. intros r w' Hk. by split.
Qed.

(** A recorded item of another kind. *)
Lemma other_strict f kind data (HA : Appends encode f kind data) w :
  ready w -> kind ∉ handled_kinds -> strict (journaled world apply' f) w.
Proof.
  intros H Hk. apply (strict_append apply' 4 apply_ok f kind data HA (LOther kind data));
    [done|apply budget_small|done|done].
Qed.

Lemma journal_result_strict {A} (result : Result Error A) w :
  ready w -> is_ok result = true -> strict (journal_result apply' result) w.
Proof.
  intros H Ho. eapply wp_mono;
    [apply (journal_result_spec apply' 4 apply_ok); [done|apply budget_small]|].
  intros r w' (Hf & Hd & _ & Hi). split; [|done]. split; [done|]. by apply Hi.
Qed.

Lemma store_strict result w : ready w -> strict (store_result apply' result) w.
Proof.
  intros H. eapply wp_mono;
    [apply (store_result_spec apply' 4 apply_ok); [done|apply budget_small]|].
  by intros r w' (? & ? & _).
Qed.

Lemma checkpoint_op_strict closing w :
  ready w -> strict (checkpoint encode value_of_state world apply' closing) w.
Proof. intros H. apply (checkpoint_strict apply' 4 apply_ok); [done|apply budget_small]. Qed.

Ltac not_handled := unfold handled_kinds; set_solver.

Lemma record_api_strict request w :
  ready w ->
  strict (record_api encode value_of_event value_of_state value_of_frame world request) w.
Proof.
  intros H. apply strict_bind; [|intros; apply strict_ret].
  eapply other_strict; [apply (append_flushed_appends encode "api.request" request)|done|].
  not_handled.
Qed.

Lemma keep_operation_core operation w : core (keep_operation operation w) = core w.
Proof. unfold keep_operation. repeat case_match; reflexivity. Qed.

Lemma record_operation_strict operation w :
  ready w ->
  strict (record_operation encode value_of_event value_of_state value_of_frame world operation) w.
Proof.
  intros H. apply strict_bind; [apply strict_gets|]. intros durable w1 Hk1.
  pose proof (kept_ready _ _ Hk1 H) as H1. apply strict_bind.
  - destruct durable; [|by apply strict_modify].
    apply strict_bind; [apply strict_ask|]. intros stored w2 Hk2.
    by apply store_strict, (kept_ready _ _ Hk2).
  - intros [] w2 _. apply strict_modify, keep_operation_core.
Qed.

(** An MI record of the wire, as the reader parsed it. *)
Definition valid_input (input : BackendInput) : Prop :=
  match input with
  | Mi raw record => parse_record raw MiLimits_default = Done record
  | _ => True
  end.

Lemma route_output_core e w : core (route_output e w) = core w.
Proof. unfold route_output. repeat case_match; reflexivity. Qed.

(** The bytes of a record whose event follows. *)
Lemma pending_inv q w j seq raw :
  append_mi_output encode (a_io (world (ticks w))) (base64_encode raw) (journal w) = (j, Ok seq) ->
  inv q None w ->
  inv q (Some raw) (w <| journal := j |> <| ticks := S (ticks w) |>).
Proof.
  set (data := Object [("raw_base64", Str (base64_encode raw))]).
  intros E Hinv Hf. cbn in Hf. destruct (Hinv Hf) as [Hdr Hg].
  pose proof (append_appends encode "mi.output" data) as HA.
  destruct (appends_frame encode (a_io (world (ticks w))) (journal w)) as (Hd & _ & Hr0).
  unfold append_mi_output, append_base64 in E. fold data in E. rewrite E in Hd, Hr0.
  cbn in Hd, Hr0 |- *.
  assert (is_durable j = is_durable (journal w)) as Hdj by (unfold is_durable; by rewrite Hd).
  rewrite Hdj. split.
  { intros Hdur. specialize (Hdr Hdur).
    destruct (appended _ _ _ HA q None w j seq E (Hg Hdr)) as [H _]. by apply H. }
  intros Hr. specialize (Hg (Hr0 Hr)).
  destruct (appended _ _ _ HA q None w j seq E Hg) as [_ H].
  destruct (H Hr) as (Hl & Hseq & Hn & Hs & Er & Hdisk).
  pose proof (history_pending _ _ raw (gd_history _ _ _ Hg)) as Hh. rewrite <-Hseq in Hh.
  destruct Hg. split; cbn; unfold session in *; cbn; try done.
  - by rewrite Er.
  - lia.
  - rewrite Hdj. intros Hdur. destruct (gd_disk0 Hdur) as (? & ? & Hs'). split_and!; auto.
    intros Hq. destruct (Hs' Hq). auto.
Qed.

Lemma process_mi_strict raw record w :
  ready w -> parse_record raw MiLimits_default = Done record ->
  strict (process_mi encode base64_encode value_of_event value_of_state value_of_frame world
            raw record) w.
Proof.
  intros H Hparse. unfold process_mi. destruct (normalize record) as [e|] eqn:Hn.
  - apply wp_bind, wp_bind, wp_journaling. intros j r E. set (w1 := _ <| ticks := _ |>).
    assert (frame w w1) as Hf1.
    { eapply (appends_frame_w _ "mi.output" _ (append_appends encode "mi.output" _) w j r). exact E. }
    eapply wp_mono; [apply (journal_result_spec apply' 4 apply_ok); [done|apply budget_small]|].
    intros r' w2 (Hf2 & Hd2 & Hok2 & Hi2). assert (frame w w2) as Hfw2 by (by etrans).
    destruct r' as [seq|err]; cycle 1.
    { split; [|done]. by apply kept_fatal; [|apply Hd2]. }
    destruct (Hok2 eq_refl) as [<- _].
    assert (inv true None w -> inv true (Some raw) w2) as Hpend.
    { intros Hi. apply Hi2; [done|]. by apply (pending_inv true w j seq raw). }
    apply wp_bind, wp_bind, wp_modify. set (w3 := route_output e w2).
    assert (core w3 = core w2) as Hc3 by apply route_output_core.
    assert (frame w w3) as Hfw3 by (etrans; [exact Hfw2|by apply frame_core]).
    apply wp_bind. eapply wp_mono; [apply (worker_apply_event_spec true (Some raw))|].
    { by rewrite (fr_limit _ _ Hfw3). }
    intros [[]|err] w4 (Hf4 & Hd4 & _ & Hi4).
    + apply wp_modify, wp_ret. split; [|done].
      etrans; [|apply kept_core; instantiate (1 := w4); by case_match].
      split; [by etrans|]. intros Hi. apply Hi4; [|by left|by exists record].
      by eapply inv_core, Hpend.
    + split; [|done]. apply kept_fatal; [by etrans|by apply Hd4].
  - apply strict_bind.
    { eapply (strict_append apply' 4 apply_ok _ _ _
        (append_appends encode "mi.output" _) (LMi raw));
        [done|apply budget_small|done|by exists record]. }
    intros seq w1 _. apply strict_bind; [apply strict_ret|]. intros [] w2 _. apply strict_ret.
Qed.

Lemma base64_strict kind raw w :
  ready w -> kind ∉ handled_kinds ->
  strict (journaled world apply' (fun o => append_base64 encode o kind (base64_encode raw))) w.
Proof. intros H Hk. eapply other_strict; [apply append_appends|done..]. Qed.

Lemma process_stderr_strict data w :
  ready w ->
  strict (process_stderr encode base64_encode value_of_event value_of_state value_of_frame world
            data) w.
Proof.
  intros H. apply strict_bind; [apply base64_strict; [done|not_handled]|]. intros seq w1 _.
  by apply strict_modify.
Qed.

Lemma process_pty_strict w :
  ready w ->
  strict (process_pty encode value_of_event value_of_state value_of_frame world) w.
Proof.
  intros H. apply strict_bind; [apply strict_ask|]. intros [next dropped] w1 Hk1.
  pose proof (kept_ready _ _ Hk1 H) as H1. apply strict_bind; [apply strict_gets|].
  intros w0 w2 Hk2. pose proof (kept_ready _ _ Hk2 H1) as H2.
  cbn zeta. destruct (_ && _); [apply strict_ret|]. apply strict_bind.
  { eapply other_strict; [apply append_appends|done|not_handled]. }
  intros seq w3 Hk3. pose proof (kept_ready _ _ Hk3 H2) as H3.
  apply strict_bind; [by apply strict_modify|]. intros [] w4 Hk4.
  by apply apply_strict, (kept_ready _ _ Hk4).
Qed.

(** Two events and the terminal transition, on a worker marked fatal. *)
Lemma fatal_run {A} (m : actor A) w :
  fatal w = true -> keeps m w ->
  wp (attempt m) (fun r w' => is_ok r = true /\ frame w w' /\ fatal w' = true) w.
Proof.
  intros Hf Hk. apply wp_attempt. eapply wp_mono; [exact Hk|]. intros r w' [Hfr _].
  split_and!; [done..|]. by apply (fr_fatal _ _ Hfr).
Qed.

Lemma mark_failed_down {A} (m : actor A) (w0 w : Worker) :
  frame w0 w -> fatal w = true ->
  (forall w', down w' -> exists r, m w' = (w', r) /\ settles r) ->
  wp (mark_failed ;; m) (fun r w' => kept w0 w' /\ down w') w.
Proof.
  intros Hfr Hf Hm. apply wp_bind. eapply wp_mono; [apply mark_failed_spec|].
  intros r w' (-> & Hfr' & Ef & Hl & Hb).
  assert (down w') as Hd by (unfold down; rewrite Ef; done).
  destruct (Hm w' Hd) as (o & Eo & Hset). unfold wp. rewrite Eo.
  assert (kept w0 w') by (apply kept_fatal; [by etrans|apply Hd]).
  by destruct o.
Qed.

Lemma lift_runs {A} (r : Result Error A) (w : Worker) : exists o, lift r w = (w, o) /\ settles o.
Proof. destruct r; by eexists. Qed.

Lemma bind_runs {A B} (m : actor A) (f : A -> actor B) w :
  (exists o, m w = (w, o) /\ settles o) -> (forall a, exists o, f a w = (w, o) /\ settles o) ->
  exists o, (m ≫= f) w = (w, o) /\ settles o.
Proof.
  intros (o & E & Hs) Hf. unfold mbind, comp_bind. rewrite E.
  destruct o as [a|e| |]; [apply Hf|by eexists|done..].
Qed.

Lemma process_protocol_error_spec error w :
  ready w ->
  wp (process_protocol_error encode value_of_event value_of_state value_of_frame world error)
    (fun r w' => kept w w' /\ down w') w.
Proof.
  intros H. apply wp_bind, wp_modify. set (w0 := w <| fatal := true |>).
  assert (frame w w0) as Hf0 by (by split).
  apply wp_bind. eapply wp_mono; [apply fatal_run; [done|apply strict_keeps, apply_strict; exact H]|].
  intros r1 w1 (Ho1 & Hf1 & Hfat1). destruct r1 as [lost|]; [|done].
  apply wp_bind. eapply wp_mono;
    [apply fatal_run; [done|apply strict_keeps, apply_strict; unfold ready;
      by rewrite (fr_limit _ _ Hf1)]|].
  intros r2 w2 (Ho2 & Hf2 & Hfat2). destruct r2 as [exited|]; [|done].
  apply mark_failed_down; [etrans; [exact Hf0|by etrans]|done|]. intros w' _.
  apply bind_runs; [apply lift_runs|]. intros []. apply bind_runs; [apply lift_runs|].
  intros []. by eexists.
Qed.

Lemma process_eof_keeps w :
  ready w ->
  keeps (process_eof encode value_of_event value_of_state value_of_frame world) w.
Proof.
  intros H. apply keeps_bind; [apply strict_keeps, strict_ask|]. intros status w1 Hk1.
  apply keeps_bind; [by apply wp_lift|]. intros code w2 Hk2.
  assert (ready w2) as H2 by (eapply kept_ready; [exact Hk2|by eapply kept_ready]).
  apply wp_bind, wp_modify. set (w3 := w2 <| fatal := true |>).
  assert (frame w2 w3) as Hf3 by (by split).
  apply wp_bind. eapply wp_mono; [apply fatal_run; [done|apply strict_keeps, apply_strict; exact H2]|].
  intros r w4 (Ho & Hf4 & Hfat). destruct r as [exited|]; [|done].
  eapply wp_mono; [apply (mark_failed_down _ w2); [by etrans|done|]|by intros r w' []].
  intros w' _. apply bind_runs; [apply lift_runs|]. intros []. by eexists.
Qed.

Lemma process_input_keeps input w :
  ready w -> valid_input input ->
  keeps (process_input encode base64_encode value_of_event value_of_state value_of_frame world
           input) w.
Proof.
  intros H Hv. destruct input as [raw record|error|data| |]; cbn [process_input].
  - by apply strict_keeps, process_mi_strict.
  - apply keeps_bind; [|intros; by apply wp_ret].
    eapply wp_mono; [by apply process_protocol_error_spec|]. by intros r w' [].
  - apply keeps_bind; [by apply strict_keeps, process_stderr_strict|]. intros; by apply wp_ret.
  - apply keeps_bind; [by apply strict_keeps, process_pty_strict|]. intros; by apply wp_ret.
  - apply keeps_bind; [by apply process_eof_keeps|]. intros; by apply wp_ret.
Qed.

Lemma handle_unmatched_strict record w :
  ready w ->
  strict (handle_unmatched_result encode value_of_event value_of_state value_of_frame world
            record) w.
Proof. intros H. destruct record; try apply strict_ret. by apply apply_strict. Qed.

Lemma attempt_ignored {A} (m : actor A) w : keeps m w -> strict (_ ← attempt m; mret tt) w.
Proof. intros H. apply strict_bind; [by apply attempt_keeps|]. intros; apply strict_ret. Qed.

Lemma idle_input_strict input w :
  ready w -> valid_input input ->
  strict (idle_input encode base64_encode value_of_event value_of_state value_of_frame world
            input) w.
Proof.
  intros H Hv. apply strict_bind; [by apply attempt_keeps, process_input_keeps|].
  intros processed w1 Hk1. pose proof (kept_ready _ _ Hk1 H) as H1.
  destruct processed as [[[record seq]|]|e]; try apply strict_ret.
  apply strict_bind; [apply strict_gets|]. intros w0 w2 Hk2.
  pose proof (kept_ready _ _ Hk2 H1) as H2. destruct (take_delayed_token _ _) as [token|].
  - apply strict_bind; [by apply strict_modify|]. intros [] w3 Hk3.
    by apply attempt_ignored, strict_keeps, apply_strict, (kept_ready _ _ Hk3).
  - by apply attempt_ignored, strict_keeps, handle_unmatched_strict.
Qed.

(** ** Flushing and closing *)

Lemma flushed_inv q p w j :
  flush (a_io (world (ticks w))) (journal w) = (j, Ok tt) -> inv q p w ->
  inv q p (w <| journal := j |> <| ticks := S (ticks w) |>).
Proof.
  intros E Hi Hf. cbn in Hf. destruct (Hi Hf) as [Hdr Hg].
  pose proof (flush_frame (a_io (world (ticks w))) (journal w)) as (Hd & _ & Hr0).
  rewrite E in Hd, Hr0. cbn in Hd, Hr0 |- *.
  assert (is_durable j = is_durable (journal w)) as Hdj by (unfold is_durable; by rewrite Hd).
  rewrite Hdj. split.
  { intros Hdur. specialize (Hdr Hdur).
    destruct (flush_live encode _ _ _ E (gd_live _ _ _ (Hg Hdr))) as (_ & H & _). by apply H. }
  intros Hr. specialize (Hg (Hr0 Hr)).
  destruct (flush_live encode _ _ _ E (gd_live _ _ _ Hg)) as (_ & _ & H).
  destruct (H Hr) as (Hl & Er & En & Hfl).
  assert (forall rev, on_disk (journal w) rev -> on_disk j rev) as Hdisk.
  { intros rev. apply (on_disk_mono _ _ _ []); [by rewrite app_nil_r|done]. }
  destruct Hg. split; cbn; unfold session in *; cbn; rewrite ?Er, ?En; try done.
  rewrite Hdj. intros Hdur. destruct (gd_disk0 Hdur) as (? & ? & Hs). split_and!; auto.
  intros Hq. destruct (Hs Hq). auto.
Qed.

Lemma flush_journal_strict w :
  ready w ->
  strict (flush_journal encode value_of_event value_of_state value_of_frame world) w.
Proof.
  intros H. apply wp_bind, wp_attempt, wp_bind.
  eapply wp_mono; [by apply checkpoint_op_strict|]. intros [[]|err] w1 [Hk1 Hd1]; cycle 1.
  { eapply wp_mono; [apply (journal_result_spec apply' 4 apply_ok);
      [exact (kept_ready _ _ Hk1 H)|apply budget_small]|].
    intros r w2 (Hf2 & Hd2 & _). split; [|done].
    apply kept_fatal; [etrans; [apply Hk1|done]|]. apply (fr_fatal _ _ Hf2). by apply Hd1. }
  pose proof (kept_ready _ _ Hk1 H) as H1. apply wp_bind, wp_journaling. intros j r E.
  apply wp_lift. set (w2 := _ <| ticks := _ |>).
  assert (frame w1 w2) as Hf2.
  { pose proof (flush_frame (a_io (world (ticks w1))) (journal w1)) as (Hd & _ & Hr).
    rewrite E in Hd, Hr. by apply journal_frame. }
  eapply wp_mono; [apply (journal_result_spec apply' 4 apply_ok);
      [exact H1|apply budget_small]|].
  intros r' w3 (Hf3 & Hd3 & Hok3 & Hi3). split; [|done]. etrans; [exact Hk1|].
  split; [by etrans|]. intros Hi. destruct r as [[]|e].
  - apply Hi3; [done|]. by apply flushed_inv.
  - destruct r' as [a|e']; [by destruct (Hok3 eq_refl)|]. by apply inv_fatal, Hd3.
Qed.

Lemma finalize_output_keeps w :
  ready w ->
  keeps (finalize_output_evidence encode value_of_event value_of_state value_of_frame world) w.
Proof.
  intros H. apply keeps_bind; [by apply wp_gets|]. intros finalized w1 Hk1.
  destruct finalized; [by apply wp_ret|].
  apply keeps_bind; [apply strict_keeps, strict_ask|]. intros evidence w2 Hk2.
  apply keeps_bind; [by apply wp_lift|]. intros value w3 Hk3.
  apply keeps_bind; [by apply strict_keeps, strict_modify|]. intros [] w4 Hk4.
  apply keeps_bind; [|intros; by apply wp_ret]. apply strict_keeps.
  eapply other_strict; [apply append_appends| |not_handled].
  eapply kept_ready; [|exact H]. do 3 (etrans; [done|]). done.
Qed.

(** The journal takes no more records, or the worker has failed. *)
Definition shut (w : Worker) : Prop := fatal w = true \/ recording (journal w) = false.

Lemma frame_shut w w' : frame w w' -> shut w -> shut w'.
Proof.
  intros [_ Hr Hf _ _ _] [H|H]; [left; auto|right].
  destruct (recording (journal w')); [by rewrite Hr in H|done].
Qed.

Definition clean (w : Worker) : Prop := state_dirty w = false /\ dirty_operations w = ∅.

Abbreviation checkpoint_op := (checkpoint encode value_of_state world apply').

Lemma checkpoint_clean w :
  clean w -> wp (checkpoint_op false) (fun r w' => r = Ok tt /\ w' = w <| dirty_operations := ∅ |>) w.
Proof.
  intros [Hs Hd]. apply wp_bind, wp_gets. cbn [id]. apply wp_bind, wp_modify. cbn zeta.
  rewrite Hs, Hd. cbn [orb andb negb]. destruct (store_failed w); by apply wp_ret.
Qed.

Lemma journal_result_live {A} (a : A) w :
  journal_gap (journal w) = None ->
  wp (journal_result apply' (Ok a)) (fun r w' => r = Ok a /\ w' = w) w.
Proof.
  intros Hg. apply wp_bind, wp_ret, wp_bind, wp_lift, wp_bind, wp_bind, wp_gets. cbn [id].
  rewrite Hg. apply wp_ret. by apply wp_ret.
Qed.

Lemma store_result_mark result w :
  ready w -> wp (store_result apply' result) (fun r w' => frame w w' /\
    (is_ok r = true -> w' = w \/
       store_failed w = false /\ store_failed w' = true /\ same_context w w')) w.
Proof using base64_encode encode sid value_of_event value_of_frame value_of_state world.
  intros H. destruct result as [error|]; [|apply wp_ret; split; [done|by left]].
  apply wp_bind, wp_gets. cbn [id]. destruct (is_durable (journal w)).
  { apply wp_bind. eapply wp_mono; [apply fail_worker_spec|]. intros r w' (-> & Hf & _).
    by apply wp_fail. }
  destruct (store_failed w) eqn:Hs; [apply wp_ret; split; [done|by left]|].
  apply wp_bind, wp_modify. eapply wp_mono; [apply (worker_apply_event_spec true None); exact H|].
  intros r w' (Hf & _ & Hp & _). assert (frame w (w <| store_failed := true |>)) as Hf1 by (by split).
  split; [by etrans|]. intros Ho. right. split_and!; [done|by apply (fr_store _ _ Hf)|].
  transitivity (w <| store_failed := true |>); [by split|].
  by eapply event_post_own; [apply Hp|].
Qed.

Lemma checkpoint_quiet closing w :
  ready w -> inv true None w ->
  wp (checkpoint_op closing) (fun r w' => is_ok r = true -> shut w' \/
    dirty_operations w' = ∅ /\
    (state_dirty w' = false \/ store_failed w' = true /\ (closing = true \/ store_failed w = false)))
    w.
Proof.
  intros H Hi. apply wp_bind, wp_gets. cbn [id]. apply wp_bind, wp_modify. cbn zeta.
  set (w0 := w <| dirty_operations := ∅ |>).
  assert (forall w1, ready w1 -> frame w w1 -> shut w1 \/
      (dirty_operations w1 = ∅ /\ state_dirty w1 = false /\ store_failed w1 = store_failed w) ->
    wp (failed ← gets store_failed;
        when (negb failed || closing) (stored ← ask world a_store; store_result apply' stored))
      (fun r w' => is_ok r = true -> shut w' \/
        dirty_operations w' = ∅ /\
        (state_dirty w' = false \/
         store_failed w' = true /\ (closing = true \/ store_failed w = false))) w1) as Htail.
  { intros w1 H1 Hf1 Hc. apply wp_bind, wp_gets. apply wp_when; [|intros _ _; tauto].
    intros _. apply wp_bind, wp_ask. set (w2 := w1 <| ticks := S (ticks w1) |>).
    eapply wp_mono; [apply store_result_mark; exact H1|]. intros r w' [Hf Hm] Ho.
    assert (frame w1 w') as Hf' by (etrans; [|exact Hf]; by split).
    destruct Hc as [Hsh|(Hdo & Hsd & Hsf)]; [left; exact (frame_shut _ _ Hf' Hsh)|].
    right. destruct (Hm Ho) as [->|(Hs0 & Hs1 & Hctx)]; [by split; [|left]|].
    split; [by apply (sc_dirty _ _ Hctx)|]. right. split; [done|]. right.
    rewrite <-Hsf. exact Hs0. }
  destruct (_ && bool_decide _) eqn:Hdue.
  { apply wp_ret. intros _. right. split; [done|]. left.
    apply andb_true_iff in Hdue as [Hdue _]. by apply negb_true_iff, orb_false_iff in Hdue as []. }
  apply wp_bind, wp_when.
  - intros Hd. apply wp_bind, wp_modify, wp_bind, wp_gets, wp_bind, wp_bind, wp_journaling.
    intros j r E. set (w2 := _ <| ticks := _ |>).
    assert (frame w w2) as Hf2.
    { transitivity (w0 <| state_dirty := false |>); [by split|].
      eapply (appends_frame_w _ _ _ _ (w0 <| state_dirty := false |>) j r). exact E. }
    destruct r as [seq|e]; cycle 1.
    { eapply wp_mono; [apply (journal_result_spec apply' 4 apply_ok);
        [exact H|apply budget_small]|]. intros [a|e'] w' (_ & _ & Hok & _); [|done].
      by destruct (Hok eq_refl). }
    assert (inv true None w2) as Hi2.
    { eapply inv_core; [|apply (checkpointed true w0 j seq E (or_introl eq_refl)),
        (inv_core true None w w0 eq_refl Hi)]. done. }
    destruct (inv_cases _ _ _ Hi2) as [Hsh|(_ & _ & Hg)].
    + eapply wp_mono; [apply (journal_result_spec apply' 4 apply_ok);
        [exact H|apply budget_small]|]. intros [a|e'] w' (Hf & _ & _ & _); [|done].
      assert (frame w w') as Hfw by (by etrans).
      apply wp_ret, Htail; [unfold ready; by rewrite (fr_limit _ _ Hfw)|done|].
      left. exact (frame_shut _ _ Hf Hsh).
    + eapply wp_mono; [apply journal_result_live, (journal_live_gap encode), (gd_live _ _ _ Hg)|].
      intros r w' [-> ->]. apply wp_ret, Htail; [exact H|done|]. by right.
  - intros Hd. apply Htail; [exact H|by split|]. right.
    by apply orb_false_iff in Hd as [Hd _].
Qed.

(** ** The closed journal *)

(** The log ends with the closing marker of a closed session. *)
Definition closed_log (w : Worker) : Prop :=
  exists items, logged 2 items (creating sid) /\
    session w = live_state base64_encode value_of_event value_of_state sid items /\
    recorded (journal w) =
      session_journal base64_encode value_of_event value_of_state sid items true /\
    lifecycle (session w) = Lifecycle.Closed /\ clean w /\ journal_ok encode (journal w) /\
    aligned (journal w) /\ (max_bytes (journal w) + 1 < U64_MAX)%N.

Lemma finish_frame o j : let j' := (Journal.finish encode o j).1 in
  durability j' = durability j /\ max_bytes j' = max_bytes j /\
  (recording j' = true -> recording j = true).
Proof.
  cbn zeta. unfold Journal.finish.
  pose proof (append_frame encode o "journal.closed" (Object []) j) as (Hd & Hm & Hr).
  destruct (Journal.append encode o "journal.closed" (Object []) j) as [j1 [seq|]]; [|done].
  pose proof (flush_frame o j1) as (Hd1 & Hm1 & Hr1). cbn in Hd, Hm, Hr.
  split_and!; [congruence..|auto].
Qed.

Lemma finish_live o j j' :
  Journal.finish encode o j = (j', Ok tt) -> journal_live encode j -> recording j' = true ->
  journal_live encode j' /\
  recorded j' = recorded j ++ [MkJournalEntry (lenN (recorded j) + 1) "journal.closed" (Object [])].
Proof.
  unfold Journal.finish. intros E Hl Hr.
  destruct (Journal.append encode o "journal.closed" (Object []) j) as [j1 [seq|]] eqn:E1; [|done].
  assert (recording j1 = true) as Hr1.
  { pose proof (flush_recording o j1) as H. rewrite E in H. by apply H. }
  destruct (appends_ok encode o j j1 seq E1 Hl) as (_ & _ & H).
  destruct (H Hr1) as (Hl1 & -> & _ & Er & _).
  destruct (flush_live encode o j1 j' E Hl1) as (_ & _ & H2).
  destruct (H2 Hr) as (Hl2 & Er2 & _). split; [done|].
  by rewrite Er2, Er, (jl_aligned _ _ Hl (jl_recording _ _ Hl)).
Qed.

(** The marker and what follows it. *)
Lemma finish_closes w :
  ready w -> inv true None w -> shut w \/ clean w -> lifecycle (session w) = Lifecycle.Closed ->
  wp (journaled world apply' (Journal.finish encode) ;; checkpoint_op false) (fun r w' =>
    is_ok r = true -> shut w' \/ closed_log w') w.
Proof.
  intros H Hi Hc Hlife. apply wp_bind, wp_bind, wp_journaling. intros j r E.
  set (w1 := _ <| ticks := _ |>).
  assert (frame w w1) as Hf1.
  { pose proof (finish_frame (a_io (world (ticks w))) (journal w)) as (Hd & _ & Hr).
    rewrite E in Hd, Hr. by apply journal_frame. }
  assert (forall w2, frame w w2 -> shut w2 -> wp (checkpoint_op false) (fun r w' =>
    is_ok r = true -> shut w' \/ closed_log w') w2) as Hshut.
  { intros w2 Hf2 Hsh. eapply wp_mono; [apply checkpoint_op_strict; unfold ready;
      by rewrite (fr_limit _ _ Hf2)|]. intros r' w' [[Hf _] _] _. left. exact (frame_shut _ _ Hf Hsh). }
  assert (shut w1 -> wp (journal_result apply' r) (fun r' w2 => match r' with
    | Ok _ => wp (checkpoint_op false) (fun r w' => is_ok r = true -> shut w' \/ closed_log w') w2
    | Err e => is_ok (Err e : Result Error unit) = true -> shut w2 \/ closed_log w2 end) w1) as Hsh1.
  { intros Hsh. eapply wp_mono; [apply (journal_result_spec apply' 4 apply_ok);
      [exact H|apply budget_small]|]. intros [a|e] w2 (Hf2 & _ & _); [|done].
    apply Hshut; [by etrans|exact (frame_shut _ _ Hf2 Hsh)]. }
  destruct (recording j) eqn:Hrj; [|apply Hsh1; by right].
  destruct (fatal w) eqn:Hfat; [apply Hsh1; by left|].
  destruct r as [[]|e]; cycle 1.
  { eapply wp_mono; [apply (journal_result_spec apply' 4 apply_ok);
      [exact H|apply budget_small]|]. intros [a|e'] w' (_ & _ & Hok & _); [|done].
    by destruct (Hok eq_refl). }
  destruct (Hi Hfat) as [_ Hg]. specialize (Hg (fr_recording _ _ Hf1 Hrj)).
  destruct (finish_live _ _ _ E (gd_live _ _ _ Hg) Hrj) as [Hl Er].
  eapply wp_mono; [apply journal_result_live, (journal_live_gap encode); exact Hl|].
  intros r w2 [-> ->]. destruct Hc as [[Hc|Hc]|Hc];
    [congruence|pose proof (jl_recording _ _ (gd_live _ _ _ Hg)); congruence|].
  eapply wp_mono; [apply checkpoint_clean; exact Hc|]. intros r' w' [-> ->] _. right.
  destruct (gd_history _ _ _ Hg) as (items & Hlog & Es & Erec). rewrite app_nil_r in Erec.
  exists items. split_and!; [done|exact Es| |exact Hlife|split; [apply Hc|done]|apply Hl..].
  cbn. rewrite Er, Erec. unfold session_journal. cbn [app]. rewrite app_nil_r, lenN_cons.
  match goal with |- context [(1 + ?n + 1)%N] => replace (1 + n + 1)%N with (2 + n)%N by lia end.
  done.
Qed.

Abbreviation close' := (close encode value_of_event value_of_state value_of_frame world).

(** The end of [close], after the last event. *)
Definition close_tail : actor unit :=
  checkpoint_op true ;; checkpoint_op false ;; journaled world apply' (Journal.finish encode) ;;
  checkpoint_op false ;;
  modify (fun w => if metric_active w then w <| metric_active := false |> else w).

Lemma close_tail_frame w :
  ready w -> wp close_tail (fun r w' => frame w w' /\ (is_ok r = false -> down w')) w.
Proof using base64_encode encode sid value_of_event value_of_frame value_of_state world.
  intros H. unfold close_tail.
  assert (forall w' closing, frame w w' ->
    wp (checkpoint_op closing) (fun r w'' => frame w w'' /\ (is_ok r = false -> down w'')) w') as Hck.
  { intros w' closing Hf. eapply wp_mono; [apply checkpoint_op_strict; unfold ready;
      by rewrite (fr_limit _ _ Hf)|]. intros r w'' [[Hf' _] Hd]. split; [by etrans|done]. }
  apply wp_bind. eapply wp_mono; [by apply Hck|]. intros [[]|e] w1 [Hf1 Hd1]; [|by split; auto].
  apply wp_bind. eapply wp_mono; [by apply Hck|]. intros [[]|e] w2 [Hf2 Hd2]; [|by split; auto].
  apply wp_bind, wp_bind, wp_journaling. intros j r E. set (w3 := _ <| ticks := _ |>).
  assert (frame w w3) as Hf3.
  { etrans; [exact Hf2|]. apply journal_frame;
      pose proof (finish_frame (a_io (world (ticks w2))) (journal w2)) as (Hd & _ & Hr);
      by rewrite E in Hd, Hr. }
  eapply wp_mono; [apply (journal_result_spec apply' 4 apply_ok);
    [by rewrite (fr_limit _ _ Hf3)|apply budget_small]|].
  intros [[]|e] w4 (Hf4 & Hd4 & _); assert (frame w w4) as Hfw4 by (by etrans); [|by split; auto].
  apply wp_bind. eapply wp_mono; [by apply Hck|]. intros [[]|e] w5 [Hf5 Hd5]; [|by split; auto].
  apply wp_modify. split; [|done]. etrans; [exact Hf5|]. apply frame_core. by case_match.
Qed.

Lemma close_tail_closes w :
  ready w -> inv true None w -> lifecycle (session w) = Lifecycle.Closed ->
  wp close_tail (fun r w' => is_ok r = true -> shut w' \/ closed_log w') w.
Proof.
  intros H Hi Hlife. unfold close_tail.
  assert (forall w' closing, ready w' -> inv true None w' ->
    wp (checkpoint_op closing) (fun r w'' => (frame w' w'' /\ (is_ok r = true -> same_context w' w'') /\
      inv true None w'') /\ (is_ok r = true -> shut w'' \/
        dirty_operations w'' = ∅ /\ (state_dirty w'' = false \/
          store_failed w'' = true /\ (closing = true \/ store_failed w' = false)))) w') as Hck.
  { intros w' closing H' Hi'. apply wp_and; [|by apply checkpoint_quiet].
    eapply wp_mono; [apply (checkpoint_spec apply' 4 apply_ok true); [done|apply budget_small]|].
    intros r w'' (Hf & _ & Hs & Hin). split_and!; [done|done|]. apply Hin; auto. }
  apply wp_bind. eapply wp_mono; [by apply Hck|].
  intros [[]|e] w1 [(Hf1 & Hs1 & Hi1) Hq1]; [|done]. specialize (Hs1 eq_refl). specialize (Hq1 eq_refl).
  assert (ready w1) as H1 by (unfold ready; by rewrite (fr_limit _ _ Hf1)).
  apply wp_bind. eapply wp_mono; [apply wp_and; [by apply Hck|]|].
  { apply (wp_assuming (clean w1)); [|apply checkpoint_clean].
    eapply wp_mono; [by apply checkpoint_op_strict|done]. }
  intros [[]|e] w2 [[(Hf2 & Hs2 & Hi2) Hq2] Hcl]; [|done].
  specialize (Hs2 eq_refl). specialize (Hq2 eq_refl).
  assert (ready w2) as H2 by (unfold ready; by rewrite (fr_limit _ _ Hf2)).
  assert (shut w2 \/ clean w2) as Hsc.
  { destruct Hq1 as [Hsh|(Hd1 & [Hsd1|(Hsf1 & _)])]; [left; exact (frame_shut _ _ Hf2 Hsh)| |].
    - right. destruct (Hcl (conj Hsd1 Hd1)) as [_ ->]. by split.
    - destruct Hq2 as [|(Hd2 & [Hsd2|(_ & [|])])]; [by left|by right|done|congruence]. }
  assert (lifecycle (session w2) = Lifecycle.Closed) as Hl2.
  { by rewrite (sc_lifecycle _ _ Hs2), (sc_lifecycle _ _ Hs1). }
  apply wp_assoc, wp_bind. eapply wp_mono; [by apply finish_closes|].
  intros [[]|e] w3 Hc3; [|done]. specialize (Hc3 eq_refl). apply wp_modify. intros _.
  destruct (metric_active w3); exact Hc3.
Qed.

(** Closing settles; a close that succeeds leaves a closed journal, or one
    that had stopped recording; one that fails keeps the invariant. *)
Lemma close_spec w :
  ready w ->
  wp close' (fun r w' => frame w w' /\ (inv true None w ->
    if is_ok r then shut w' \/ closed_log w' else inv true None w')) w.
Proof.
  intros H. unfold close.
  assert (forall (e : Error) w', kept w w' -> frame w w' /\ (inv true None w ->
    if is_ok (Err e : Result Error unit) then shut w' \/ closed_log w' else inv true None w')) as Herr.
  { by intros e w' [Hf Hi]. }
  apply wp_bind, wp_attempt. eapply wp_mono; [by apply apply_strict|]. intros closing w1 [Hk1 Hd1].
  pose proof (kept_ready _ _ Hk1 H) as H1. apply wp_bind, wp_ask.
  set (w2 := w1 <| ticks := S (ticks w1) |>).
  assert (kept w w2) as Hk2 by (etrans; [exact Hk1|by apply kept_core]).
  apply wp_bind, wp_lift. destruct closing as [[]|e]; [|by apply Herr].
  apply wp_bind. destruct (a_shutdown (world (ticks w1))); [by apply wp_fail, Herr|].
  apply wp_ret, wp_bind.
  eapply wp_mono; [apply finalize_output_keeps; exact H1|]. intros [[]|e] w3 Hk3;
    assert (kept w w3) as Hkw3 by (by etrans); [|by apply Herr].
  pose proof (kept_ready _ _ Hkw3 H) as H3.
  apply wp_bind. eapply wp_mono; [apply (worker_apply_event_spec true None); exact H3|].
  intros [[]|e] w4 (Hf4 & Hd4 & Hp4 & Hi4);
    assert (frame w w4) as Hfw4 by (etrans; [apply Hkw3|done]);
    [|by apply Herr, kept_fatal, Hd4].
  assert (ready w4) as H4 by (unfold ready; by rewrite (fr_limit _ _ Hfw4)).
  pose proof (event_post_closed _ _ (Hp4 eq_refl)) as Hlife4.
  assert (inv true None w -> inv true None w4) as Hinv4.
  { intros Hi. apply Hi4; [by apply Hkw3|by left|done]. }
  pose proof (close_tail_frame w4 H4) as Htf.
  eapply wp_mono; [apply wp_and; [exact Htf|apply (wp_assuming (inv true None w4))]|].
  - eapply wp_mono; [exact Htf|done].
  - intros Hi. by apply close_tail_closes.
  - intros r w' [[Hf Hd] Hc]. split; [by etrans|]. intros Hi.
    destruct r as [a|e]; [apply Hc; [by apply Hinv4|done]|]. by apply inv_fatal, Hd.
Qed.

(** ** Starting *)

Abbreviation wait_for_prompt' :=
  (wait_for_prompt encode base64_encode value_of_event world).

(** The reducer applied while no worker exists yet. *)
Lemma live_apply_borrow seq e l :
  match live_apply_event seq e l with
  | (l', Ok changed) => apply_event seq e (borrow l) = Ok (borrow l', changed) /\
      (is_Some (staged l) -> is_Some (staged l') /\ published l' = published l)
  | (l', Err _) => l' = l
  end.
Proof.
  unfold live_apply_event, apply_event_with, borrow. destruct (staged l) as [s|] eqn:Hs.
  - destruct (apply_event seq e s) as [[s' c]|]; [|done]. by rewrite ?Hs.
  - destruct (apply_event seq e (published l)) as [[s' c]|]; [|done]. cbn. split; [done|].
    by intros [].
Qed.

Lemma startup_event_spec e raw w :
  wp (startup_event encode value_of_event world e) (fun r w' => frame w w' /\
    (is_ok r = true -> inv false (Some raw) w -> pending_ok (Some raw) e -> inv false None w')) w.
Proof.
  unfold startup_event. apply wp_bind, wp_modify. set (w1 := route_output e w).
  assert (core w1 = core w) as Hc by apply route_output_core.
  assert (frame w w1) as Hf1 by (by apply frame_core).
  apply wp_bind, wp_journaling. intros j r E. set (w2 := _ <| ticks := _ |>).
  assert (frame w1 w2) as Hf12.
  { eapply (appends_frame_w _ _ _
      (append_appends encode "normalized.event" (value_of_event e)) w1 j r). exact E. }
  assert (frame w w2) as Hf2 by (by etrans).
  apply wp_bind, wp_lift. destruct r as [seq|err]; [|by split].
  apply wp_bind, wp_gets. cbn [id]. pose proof (live_apply_borrow seq e (state w2)) as Hl.
  destruct (live_apply_event seq e (state w2)) as [l [changed|err]]; apply wp_bind, wp_modify;
    apply wp_bind, wp_lift; [apply wp_ret|by split; [etrans; [exact Hf2|by split]|]].
  set (w3 := w2 <| state := l |>). assert (frame w w3) as Hf3 by (etrans; [exact Hf2|by split]).
  split; [done|]. intros _ Hi Hp. destruct Hl as [Ea Hst].
  eapply (reduced_inv false false (Some raw) w1 j seq e w3 changed); try done.
  - by eapply inv_core.
  - etrans; [exact Hf12|by split].
Qed.

Lemma wait_for_prompt_spec inputs ending w :
  Forall valid_input inputs ->
  wp (wait_for_prompt' inputs ending) (fun r w' => frame w w' /\
    (is_ok r = true -> inv false None w -> inv false None w')) w.
Proof.
  intros Hv. revert w. induction Hv as [|input inputs Hin Hv IH]; intros w.
  { cbn. by destruct ending; apply wp_fail. }
  assert (forall w1, frame w w1 -> (inv false None w -> inv false None w1) ->
    wp (wait_for_prompt' inputs ending) (fun r w' => frame w w' /\
      (is_ok r = true -> inv false None w -> inv false None w')) w1) as Hnext.
  { intros w1 Hf1 Hi1. eapply wp_mono; [apply IH|]. intros r w' [Hf Hi].
    split; [by etrans|auto]. }
  destruct input as [raw record|error|data| |]; cbn [wait_for_prompt];
    [| by apply wp_fail| | by apply Hnext| by apply wp_fail].
  - apply wp_bind, wp_journaling. intros j r E. set (w1 := _ <| ticks := _ |>).
    assert (frame w w1) as Hf1.
    { eapply (appends_frame_w _ "mi.output" _ (append_appends encode "mi.output" _) w j r). exact E. }
    apply wp_bind, wp_lift. destruct r as [seq|e]; [|by split].
    apply wp_bind.
    match goal with |- wp ?m ?Q w1 => assert (wp m (fun r w2 => frame w w2 /\
      (is_ok r = true -> inv false None w -> inv false None w2)) w1) as Hev end.
    { destruct (normalize record) as [e|] eqn:Hn.
      - eapply wp_mono; [apply (startup_event_spec e raw)|]. intros r w2 [Hf2 Hi2].
        split; [by etrans|]. intros Ho Hi. apply Hi2; [done| |by exists record].
        by apply (pending_inv false w j seq raw).
      - apply wp_ret. split; [done|]. intros _ Hi.
        eapply (appended_item _ _ _ (append_appends encode "mi.output" _) (LMi raw));
          [exact E|done|intros _; by exists record|exact Hi]. }
    eapply wp_mono; [exact Hev|]. intros [[]|e] w2 [Hf2 Hi2]; [|by split].
    case_bool_decide; [apply wp_ret; by split|]. apply Hnext; auto.
  - apply wp_bind, wp_journaling. intros j r E. set (w1 := _ <| ticks := _ |>).
    pose proof (append_appends encode "gdb.stderr" (Object [("raw_base64", Str (base64_encode data))])) as HA.
    assert (frame w w1) as Hf1.
    { eapply (appends_frame_w _ _ _ HA w j r). exact E. }
    apply wp_bind, wp_lift. destruct r as [seq|e]; [|by split].
    apply wp_bind, wp_modify. apply Hnext.
    + etrans; [exact Hf1|]. by apply frame_core.
    + intros Hi. eapply inv_core; [|eapply (appended_item _ _ _ HA (LOther "gdb.stderr" _));
        [exact E|done|intros _; cbn; not_handled|exact Hi]]. done.
Qed.

(** A worker about to start: its journal holds the creation record. *)
Record opened (w : Worker) : Prop := {
  op_journal : exists o max d seq, (max + 1 < U64_MAX)%N /\
    append_session_created encode o (Str sid) (uint NORMALIZATION_VERSION)
      (create_with_durability max d) = (journal w, Ok seq);
  op_state : state w = LiveState_new (creating sid) (is_durable (journal w));
  op_fresh : state_dirty w = false;
  op_ready : ready w
}.

Lemma opened_inv w : opened w -> inv false None w.
Proof.
  intros [(o & max & d & seq & Hmax & E) Hst Hsd _] Hf.
  destruct (create_ok encode max d) as [Hj Ha]; [lia|].
  assert (journal_live encode (create_with_durability max d)) as Hl by (by split).
  unfold append_session_created in E.
  pose proof (append_appends encode "session.created" (Object [("session_id", Str sid);
    ("normalization_version", uint NORMALIZATION_VERSION)])) as HA.
  destruct (appends_frame encode o (create_with_durability max d)) as (Hd & _).
  rewrite E in Hd. cbn in Hd.
  destruct (appends_ok encode _ _ _ _ E Hl) as (_ & Hdur & Hrec). split.
  { intros H. apply Hdur. unfold is_durable in *. by rewrite Hd in H. }
  intros Hr. destruct (Hrec Hr) as (Hl' & -> & Hn & Er & _).
  assert (session w = creating sid) as Hses.
  { unfold session, borrow. rewrite Hst. unfold LiveState_new. cbn.
    by destruct (is_durable (journal w)). }
  split; rewrite ?Hses; try done.
  - exists []. by rewrite Er.
  - rewrite Hn. cbn. lia.
  - intros [H|H]; congruence.
  - intros Hdu. rewrite Hst, Hdu. cbn. split_and!; [by eexists|by left|done].
Qed.

End evidence.
