(* ===== verification/Commands.v ===== *)
(** * Commands: executing MI commands ([crates/gdb-ai-core/src/session/actor.rs])

    One ordinary command is in flight at a time.  While it is, the worker
    receives inputs of the backend, control requests and deadlines; [script]
    lists them in the order they arrive, and the input channel closes after
    the last.  Times are milliseconds. *)

From S2P Require Import Prelude Text MiAst Json Errors Domain Reducer Backend Normalize Ring LiveState Journal Policy Protocol Effects Actor.

(** ** Commands and their replies *)

Definition command_starts_fresh_inferior (c : MiCommand) : bool :=
  bool_decide (command_name c = bytes_of "-exec-run") ||
  match command_arguments c with
  | [Bare interpreter; StringArgument console_command] =>
      bool_decide (command_name c = bytes_of "-interpreter-exec") &&
      bool_decide (interpreter = bytes_of "console") &&
      bool_decide (console_command = bytes_of "starti")
  | _ => false
  end.

Definition resuming_commands : list bytes :=
  bytes_of <$> ["-exec-run"; "-exec-continue"; "-exec-step"; "-exec-next"; "-exec-finish";
    "-exec-step-instruction"; "-exec-next-instruction"; "-exec-until"; "-exec-jump";
    "-exec-return"].

Definition command_resumes_target (c : MiCommand) : bool :=
  command_starts_fresh_inferior c || bool_decide (command_name c ∈ resuming_commands).

Definition resume_failed_definitively {A} (result : Result Error A) (outcome_unknown : bool)
    : bool := negb (is_ok result) && negb outcome_unknown.

Definition operation_owns_resume (active : option OperationId) (requested : OperationId) : bool :=
  bool_decide (active = Some requested).

Definition command_timeout (token : N) : Error :=
  retryable (with_details
    (Object [("outcome_unknown", Bool true); ("token", uint token)])
    (Error_new Code.Timeout
       ("MI token " +:+ dec token +:+ " timed out; command completion is unknown"))).

Definition stream_len (record : MiRecord) : N :=
  match record with
  | ConsoleStream b | TargetStream b | LogStream b => lenN b
  | _ => 0
  end.

Definition is_stream (record : MiRecord) : bool :=
  match record with ConsoleStream _ | TargetStream _ | LogStream _ => true | _ => false end.

Section replies.
(** base64 and the derived JSON form of a record. *)
Context (base64_encode : bytes -> string) (value_of_record : MiRecord -> Value).

Definition command_reply (token : N) (record : MiRecord) (evidence_seq : N)
    (streams : list MiRecord) (truncated : bool) : Result Error CommandReply :=
  match record with
  | RResult (Some result_token) class results =>
      if negb (result_token =? token)%N then
        Err (Error_new Code.Internal "matched MI command token changed")
      else if decide (class = "error") then
        let message := default "GDB command failed" (find_str results "msg") in
        let details := foldl (fun acc e => set_field e.1 e.2 acc)
          [("token", uint token); ("record", value_of_record record);
           ("evidence_seq", uint evidence_seq)]
          (command_output base64_encode streams truncated) in
        Err (with_details (Object details) (Error_new Code.GdbError message))
      else Ok (MkCommandReply token class record streams truncated evidence_seq)
  | _ => Err (Error_new Code.Internal "matched MI command record is not a result")
  end.

End replies.

(** ** A command in flight *)

Record PendingControl := MkPendingControl {
  pc_token : N;
  pc_deadline : N;
  pc_escalate_at : N;
  pc_escalated : bool;
  pc_interrupt : bool;
  pc_response : N
}.

Record Execution := MkExecution {
  ex_streams : list MiRecord;
  ex_stream_bytes : N;
  ex_stream_truncated : bool;
  ex_normal_result : option (Result Error CommandReply);
  ex_pending_control : option PendingControl
}.

#[export] Instance Execution_eta : Updatable Execution := fun x => {|
  ex_streams := ex_streams x; ex_stream_bytes := ex_stream_bytes x;
  ex_stream_truncated := ex_stream_truncated x; ex_normal_result := ex_normal_result x;
  ex_pending_control := ex_pending_control x
|}.

Definition execution_start : Execution := MkExecution [] 0 false None None.

(** A stream record of the command, kept while the limit allows. *)
Definition keep_stream (limit : N) (record : MiRecord) (x : Execution) : Execution :=
  match ex_normal_result x with
  | Some _ => x
  | None =>
      if is_stream record then
        if (u64_saturating_add (ex_stream_bytes x) (stream_len record) <=? limit)%N
        then x <| ex_stream_bytes := (ex_stream_bytes x + stream_len record)%N |>
               <| ex_streams := ex_streams x ++ [record] |>
        else x <| ex_stream_truncated := true |>
      else x
  end.

Definition result_token (record : MiRecord) : option N :=
  match record with RResult token _ _ => token | _ => None end.

Definition tokens_debug (tokens : gset N) : string :=
  "{" +:+ String.concat ", " (dec <$> elements tokens) +:+ "}".

Section commands.
#[local] Set Default Proof Using "Type".
Context (encode : JournalEntry -> bytes) (base64_encode : bytes -> string)
        (value_of_event : Event.DomainEvent -> Value)
        (value_of_state : SessionState -> Value)
        (value_of_frame : FrameSummary -> Value)
        (value_of_record : MiRecord -> Value)
        (world : nat -> answers).

Abbreviation apply' :=
  (worker_apply_event encode value_of_event value_of_state value_of_frame world).
Abbreviation close' := (close encode value_of_event value_of_state value_of_frame world).
Abbreviation command_reply' := (command_reply base64_encode value_of_record).

(** Only interruption may cross the fence of an unknown outcome. *)
Definition require_known_outcome_name (name : bytes) : actor unit :=
  w ← gets id;
  if negb (bool_decide (timed_out_tokens w = ∅)) &&
     negb (bool_decide (name = bytes_of "-exec-interrupt"))
  then fail (Error_new Code.GdbUnresponsive
    ("MI command outcome is unknown for token(s) " +:+ tokens_debug (timed_out_tokens w) +:+
     "; interrupt or close the session"))
  else mret tt.

Definition require_known_outcome (c : MiCommand) : actor unit :=
  require_known_outcome_name (command_name c).

Definition from_option_error (answer : option Error) : actor unit :=
  match answer with Some error => fail error | None => mret tt end.

Definition begin_command (c : MiCommand) : actor N :=
  require_known_outcome c ;;
  token ← gets next_token;
  (if (token =? U64_MAX)%N then fail (Error_new Code.Internal "MI token counter exhausted")
   else mret tt) ;;
  modify (fun w => w <| next_token := (token + 1)%N |>) ;;
  let raw := encoded c token in
  _ ← journaled world apply' (fun o => append_mi_input encode o token (base64_encode raw));
  modify (fun w => w <| sent := sent w ++ [raw] |>) ;;
  answer ← ask world a_send;
  from_option_error answer ;;
  mret token.

Definition respond (response : N) (result : Result Error (option CommandReply)) : actor unit :=
  modify (fun w => w <| answered := answered w ++ [(response, result)] |>).

Definition no_reply {A} (result : Result Error A) : Result Error (option CommandReply) :=
  match result with Ok _ => Ok None | Err e => Err e end.

Definition control_reply (control : PendingControl) (result : Result Error CommandReply)
    : actor unit :=
  respond (pc_response control)
    (match result with
     | Ok reply => Ok (if pc_interrupt control then Some reply else None)
     | Err e => Err e
     end).

(** The grace period of an acknowledged interrupt. *)
Definition finish_interrupt (now : N) (result : Result Error CommandReply)
    : actor (Result Error CommandReply) :=
  w ← gets id;
  when (is_ok result && target_running w)
    (modify (fun w => w <| interrupt_fallback_at := Some (now + 250)%N |>)) ;;
  mret result.

Definition escalate_acknowledged_interrupt (now : N) : actor unit :=
  w ← gets id;
  match interrupt_fallback_at w with
  | Some deadline =>
      if (now <? deadline)%N then mret tt
      else
        modify (fun w => w <| interrupt_fallback_at := None |>) ;;
        when (target_running w) (answer ← ask world a_signal; from_option_error answer)
  | None => mret tt
  end.

Definition require_active_resume (operation_id : OperationId) : actor unit :=
  w ← gets id;
  if operation_owns_resume (active_resume_operation w) operation_id then mret tt
  else fail (Error_new Code.Conflict "operation no longer owns the active target resume").

Definition owned_interrupt_command (operation_id : OperationId) : actor MiCommand :=
  require_active_resume operation_id ;;
  lift (MiCommand_new (bytes_of "-exec-interrupt")).

(** A token whose outcome is no longer known. *)
Definition time_out_token (token : N) : actor unit :=
  modify (fun w => w <| timed_out_tokens := {[token]} ∪ timed_out_tokens w |>) ;;
  apply' (Event.CommandOutcomeUnknown token).

(** The control request is sent; its reply is awaited. *)
Definition begin_control (now deadline : N) (interrupt : bool) (response : N)
    (command : MiCommand) (x : Execution) : actor Execution :=
  begun ← attempt (begin_command command);
  match begun with
  | Ok token =>
      mret (x <| ex_pending_control :=
        Some (MkPendingControl token deadline (now + 250) false interrupt response) |>)
  | Err error => respond response (Err error) ;; mret x
  end.

(** One control request while a command is in flight. *)
Definition execute_control (now : N) (control : ControlRequest) (x : Execution)
    : actor Execution :=
  match control with
  | RecordApi request response =>
      recorded ← attempt (record_api encode value_of_event value_of_state value_of_frame world
                            request);
      respond response (no_reply recorded) ;;
      failed ← gets fatal;
      if (failed : bool) then fail (Error_new Code.GdbExited "required journal failed")
      else mret x
  | RecordOperation operation response =>
      recorded ← attempt (record_operation encode value_of_event value_of_state value_of_frame
                            world operation);
      respond response (no_reply recorded) ;;
      failed ← gets fatal;
      if (failed : bool) then fail (Error_new Code.GdbExited "required history failed")
      else mret x
  | Close response =>
      closed ← attempt close';
      respond response (no_reply closed) ;;
      modify (fun w => w <| fatal := true |>) ;;
      fail (Error_new Code.GdbExited "session closed")
  | CancelOperation operation_id CloseSession response =>
      closed ← attempt (require_active_resume operation_id ;; close');
      respond response (no_reply closed) ;;
      if is_ok closed then
        modify (fun w => w <| fatal := true |>) ;;
        fail (Error_new Code.Cancelled "operation closed session")
      else mret x
  | CancelOperation operation_id InterruptTarget response =>
      match ex_pending_control x with
      | Some _ =>
          respond response (Err (Error_new Code.Conflict "an interrupt is already pending")) ;;
          mret x
      | None =>
          owned ← attempt (owned_interrupt_command operation_id);
          match owned with
          | Err error => respond response (Err error) ;; mret x
          | Ok command =>
              timeout ← gets command_timeout_ms;
              begin_control now (now + N.max timeout 1) false response command x
          end
      end
  | Interrupt command deadline response =>
      match ex_pending_control x with
      | Some _ =>
          respond response (Err (Error_new Code.Conflict "an interrupt is already pending")) ;;
          mret x
      | None =>
          if (deadline <=? now)%N then
            respond response (Err (retryable
              (Error_new Code.Timeout "interrupt deadline expired while queued"))) ;;
            mret x
          else begin_control now deadline true response command x
      end
  end.

(** A timer fired. *)
Definition escalate_control (now : N) (x : Execution) : actor Execution :=
  match ex_pending_control x with
  | Some control =>
      if negb (pc_escalated control) && (pc_escalate_at control <=? now)%N then
        answer ← ask world a_signal;
        match answer with
        | Some error =>
            control_reply control (Err error) ;;
            mret (x <| ex_pending_control := None |>)
        | None =>
            mret (x <| ex_pending_control :=
              Some (MkPendingControl (pc_token control) (pc_deadline control)
                      (pc_escalate_at control) true (pc_interrupt control)
                      (pc_response control)) |>)
        end
      else mret x
  | None => mret x
  end.

Definition time_out_control (now : N) (x : Execution) : actor Execution :=
  match ex_pending_control x with
  | Some control =>
      if (pc_deadline control <=? now)%N then
        time_out_token (pc_token control) ;;
        control_reply control (Err (command_timeout (pc_token control))) ;;
        mret (x <| ex_pending_control := None |>)
      else mret x
  | None => mret x
  end.

Definition execute_deadline (token deadline now : N) (x : Execution) : actor Execution :=
  escalate_acknowledged_interrupt now ;;
  x ← escalate_control now x;
  x ← time_out_control now x;
  match ex_normal_result x with
  | None =>
      if (deadline <=? now)%N then
        time_out_token token ;;
        mret (x <| ex_normal_result := Some (Err (command_timeout token)) |>)
      else mret x
  | Some _ => mret x
  end.

(** A late result clears its token before anything else is made of it. *)
Definition resolve_delayed (record : MiRecord) : actor (option N) :=
  w ← gets id;
  match take_delayed_token (timed_out_tokens w) record with
  | Some delayed =>
      modify (fun w => w <| timed_out_tokens := timed_out_tokens w ∖ {[delayed]} |>) ;;
      apply' (Event.CommandOutcomeResolved delayed) ;;
      mret (Some delayed)
  | None => mret None
  end.

Definition execute_record (token now : N) (record : MiRecord) (evidence_seq : N) (x : Execution)
    : actor Execution :=
  delayed ← resolve_delayed record;
  let answers_control := match ex_pending_control x with
    | Some control => bool_decide (result_token record = Some (pc_token control))
    | None => false end in
  match ex_pending_control x, answers_control with
  | Some control, true =>
      result ← finish_interrupt now
                 (command_reply' (pc_token control) record evidence_seq [] false);
      control_reply control result ;;
      mret (x <| ex_pending_control := None |>)
  | _, _ =>
      if bool_decide (result_token record = Some token) then
        mret (x <| ex_normal_result := Some (command_reply' token record evidence_seq
                     (ex_streams x) (ex_stream_truncated x)) |>
                <| ex_streams := [] |>)
      else
        (match delayed with
         | None => handle_unmatched_result encode value_of_event value_of_state value_of_frame
                     world record
         | Some _ => mret tt
         end) ;;
        limit ← gets stream_limit;
        mret (keep_stream limit record x)
  end.

Definition execute_input (token deadline now : N) (input : ExecutionInput) (x : Execution)
    : actor Execution :=
  match input with
  | EControl None => modify (fun w => w <| controls_open := false |>) ;; mret x
  | EControl (Some control) => execute_control now control x
  | EDeadline => execute_deadline token deadline now x
  | EBackend None => fail (Error_new Code.GdbExited "GDB input channel closed")
  | EBackend (Some input) =>
      processed ← process_input encode base64_encode value_of_event value_of_state
                    value_of_frame world input;
      match processed with
      | None => mret x
      | Some (record, evidence_seq) => execute_record token now record evidence_seq x
      end
  end.

(** The next input, and the time it arrives; none when the channel closed. *)
Definition next_input : actor (N * ExecutionInput) :=
  w ← gets id;
  match script w with
  | [] => mret (0%N, EBackend None)
  | (now, input) :: rest =>
      modify (fun w => w <| script := rest |>) ;; mret (now, input)
  end.

Fixpoint execute_loop (fuel : nat) (token deadline : N) (x : Execution) : actor CommandReply :=
  match fuel with
  | 0 => out_of_fuel
  | S fuel =>
      match ex_pending_control x, ex_normal_result x with
      | None, Some result => lift result
      | _, _ =>
          input ← next_input;
          x ← execute_input token deadline input.1 input.2 x;
          execute_loop fuel token deadline x
      end
  end.

Definition execute_until_inner (c : MiCommand) (deadline : N) : actor CommandReply :=
  now ← ask world a_now;
  if (deadline <=? now)%N then
    fail (retryable (Error_new Code.Timeout "MI command deadline expired while queued"))
  else
    token ← begin_command c;
    length ← gets (fun w => length (script w));
    execute_loop (S (S length)) token deadline execution_start.

(** ** Commands built on one another *)

(** The number GDB reports when an insertion fails. *)
Definition failed_insertion_line (line : list N) : option string :=
  rest ← strip_prefix_chars (chars_of "Cannot insert breakpoint ") line;
  number ← (match reverse rest with
            | c :: r => if (c =? 46)%N then Some (reverse r) else None
            | [] => None end);
  n ← from_str_radix_chars U64_MAX 10 number;
  if (0 <? n)%N then Some (dec n) else None.

Definition failed_insertion (message : string) : option string :=
  foldr (fun line acc => match failed_insertion_line line with
                         | Some n => Some n | None => acc end) None
    (lines (chars_of message)).

(** The breakpoints that existed before an insertion, when they are known. *)
Definition breakpoints_before (c : MiCommand) (w : Worker) : option (gset string) :=
  let s := borrow (state w) in
  if bool_decide (command_name c = bytes_of "-break-insert") &&
     bool_decide (consistency s = Consistent.Clean) && negb (reconciliation_required s)
  then Some (dom (breakpoints s)) else None.

Definition new_failed_insertion (before : option (gset string)) (reply : Result Error CommandReply)
    : option string :=
  match reply, before with
  | Err error, Some before =>
      if decide (err_code error = Code.GdbError) then
        number ← failed_insertion (err_message error);
        if bool_decide (number ∈ before) then None else Some number
      else None
  | _, _ => None
  end.

Definition build_command (name : string) (bares : list bytes) : Result Error MiCommand :=
  foldl (fun c value => c ≫= fun c => bare c value) (MiCommand_new (bytes_of name)) bares.

Definition clean_up_insertion (number : string) (deadline : N) : actor unit :=
  known ← attempt (require_known_outcome_name (bytes_of "-break-delete"));
  cleanup ← (match known with
    | Ok _ =>
        c ← lift (build_command "-break-delete" [bytes_of number]);
        attempt (execute_until_inner c deadline)
    | Err error => mret (Err error)
    end);
  let removed := match cleanup with
    | Ok _ => true
    | Err error => bool_decide (err_code error = Code.GdbError) &&
        bool_decide (err_message error = "No breakpoint number " +:+ number +:+ ".")
    end in
  w ← gets id;
  if (removed : bool) then
    when (bool_decide (is_Some (breakpoints (borrow (state w)) !! number)))
      (apply' (Event.BreakpointDeleted number))
  else match cleanup with
  | Ok _ => mret tt
  | Err error =>
      modify (fun w => w <| module_rebind_needed := false |>) ;;
      when (negb (fatal w)) (apply' (Event.ConsistencyDirty
        ("failed breakpoint insertion cleanup: " +:+ error_display error)))
  end.

Definition execute_until (c : MiCommand) (deadline : N) : actor CommandReply :=
  before ← gets (breakpoints_before c);
  reply ← attempt (execute_until_inner c deadline);
  failed ← gets fatal;
  (match new_failed_insertion before reply with
   | Some number => if (failed : bool) then mret tt else clean_up_insertion number deadline
   | None => mret tt
   end) ;;
  lift reply.

Definition require_active (operation : option OperationId) : actor unit :=
  match operation with
  | Some _ =>
      cancelled ← ask world a_cancelled;
      if (cancelled : bool) then fail (Error_new Code.Cancelled "operation was cancelled")
      else mret tt
  | None => mret tt
  end.

Definition execute_operation_until (c : MiCommand) (operation : option OperationId)
    (deadline : N) : actor CommandReply :=
  require_active operation ;;
  when (command_starts_fresh_inferior c)
    (answer ← ask world a_flush_input; from_option_error answer) ;;
  let resumes := command_resumes_target c in
  when resumes (modify (fun w => w <| active_resume_operation := operation |>)) ;;
  result ← attempt (execute_until c deadline);
  modify (fun w =>
    if resumes &&
       resume_failed_definitively result (negb (bool_decide (timed_out_tokens w = ∅))) &&
       bool_decide (active_resume_operation w = operation)
    then w <| active_resume_operation := None |> else w) ;;
  lift result.

Fixpoint run_restoration (commands : list MiCommand) (deadline : N) : actor unit :=
  match commands with
  | [] => mret tt
  | c :: rest => _ ← execute_until c deadline; run_restoration rest deadline
  end.

Definition restore_deferred_commands (deadline : N) : actor unit :=
  commands ← gets deferred_restoration;
  match commands with
  | [] => mret tt
  | _ =>
      restored ← attempt (run_restoration commands deadline);
      match restored with
      | Ok _ => modify (fun w => w <| deferred_restoration := [] |>)
      | Err error => fail (Error_new Code.ConsistencyDirty
          ("deferred GDB setting restoration failed: " +:+ error_display error))
      end
  end.

(** After a timeout the restoration waits for a known outcome. *)
Definition restore_or_defer (after : list MiCommand) (deadline : N) (waiting failed : string)
    : actor (Result Error unit) :=
  w ← gets id;
  if negb (bool_decide (timed_out_tokens w = ∅)) then
    modify (fun w => w <| deferred_restoration := after |>) ;;
    attempt (apply' (Event.ConsistencyDirty waiting))
  else
    restored ← attempt (run_restoration after deadline);
    match restored with
    | Ok _ => mret (Ok tt)
    | Err error =>
        _ ← attempt (apply' (Event.ConsistencyDirty (failed +:+ error_display error)));
        mret (Err (Error_new Code.ConsistencyDirty
          "temporary GDB settings could not be restored"))
    end.

Fixpoint run_setup (before : list MiCommand) (operation : option OperationId) (deadline : N)
    : actor unit :=
  match before with
  | [] => mret tt
  | c :: rest =>
      require_active operation ;;
      _ ← execute_until c deadline;
      run_setup rest operation deadline
  end.

(** The middle of a [Transaction]: setup, command, restoration. *)
Definition execute_transaction (before : list MiCommand) (c : MiCommand)
    (after : list MiCommand) (operation : option OperationId) (deadline : N)
    : actor CommandReply :=
  result ← attempt (run_setup before operation deadline ;;
                    execute_operation_until c operation deadline);
  match after with
  | [] => lift result
  | _ =>
      restored ← restore_or_defer after deadline
        "temporary GDB settings await a known command outcome"
        "failed to restore temporary GDB settings: ";
      lift restored ;;
      lift result
  end.

(** Deletes one stale variable object of GDB, when that is safe. *)
Definition cleanup_one_stale_value : actor unit :=
  w ← gets id;
  let idle := bool_decide (timed_out_tokens w = ∅) &&
    existsb (fun i => bool_decide (inf_status i = Inferior.Stopped) ||
                      bool_decide (inf_status i = Inferior.Core))
      (btree_values (inferiors (borrow (state w)))) in
  match reverse (stale_backend_values w) with
  | name :: _ =>
      if idle then
        modify (fun w => w <| stale_backend_values := removelast (stale_backend_values w) |>) ;;
        match build_command "-var-delete" [bytes_of name] with
        | Err _ => mret tt
        | Ok c =>
            now ← ask world a_now;
            deleted ← attempt (execute_until c (now + 250));
            match deleted with
            | Err error =>
                when (bool_decide (err_code error = Code.Timeout) ||
                      bool_decide (err_code error = Code.GdbUnresponsive))
                  (modify (fun w => w <| stale_backend_values :=
                     stale_backend_values w ++ [name] |>))
            | Ok _ => mret tt
            end
        end
      else mret tt
  | [] => mret tt
  end.

(** ** Module breakpoints *)

Definition with_backend_number (number : string) (enabled : bool) (b : PendingModuleBreakpoint)
    : PendingModuleBreakpoint :=
  MkPendingModuleBreakpoint (pmb_id b) number (pmb_module b) (pmb_offset b) enabled
    (pmb_command b).

(** The replacement proper: insert, rename the logical breakpoint, delete. *)
Definition replace_steps (breakpoint : PendingModuleBreakpoint) (enabled : bool)
    (c : MiCommand) (address : option string) (deadline : N) : actor unit :=
  let old_number := pmb_backend_number breakpoint in
  reply ← execute_until c deadline;
  new_number ← lift (breakpoint_number (cr_record reply));
  when (negb enabled)
    (c ← lift (build_command "-break-disable" [bytes_of new_number]);
     _ ← execute_until c deadline; mret tt) ;;
  apply' (Event.BreakpointRebound (pmb_id breakpoint) old_number new_number enabled address) ;;
  modify (fun w => w <| pending_module_breakpoints :=
    <[new_number := with_backend_number new_number enabled breakpoint]>
      (delete old_number (pending_module_breakpoints w)) |>) ;;
  c ← lift (build_command "-break-delete" [bytes_of old_number]);
  deleted ← attempt (execute_until c deadline);
  match deleted with
  | Ok _ => mret tt
  | Err error =>
      apply' (Event.ConsistencyDirty ("module breakpoint moved to " +:+ new_number +:+
        ", but old breakpoint " +:+ old_number +:+ " could not be deleted: " +:+
        error_display error)) ;;
      fail error
  end.

Definition replace_module_breakpoint (breakpoint : PendingModuleBreakpoint) (enabled : bool)
    (c : MiCommand) (address : option string) (deadline : N) : actor unit :=
  modify (fun w => w <| replacing_module_breakpoint := true |>) ;;
  result ← attempt (replace_steps breakpoint enabled c address deadline);
  modify (fun w => w <| replacing_module_breakpoint := false |>) ;;
  w ← gets id;
  modify (fun w => w <| deferred_snapshot_ready := None |>) ;;
  published ← (match deferred_snapshot_ready w with
    | Some (stop, snapshot_id, partial) =>
        if negb (fatal w) && bool_decide (stop_id (borrow (state w)) = Some stop) then
          attempt (apply' (if is_ok result then Event.SnapshotReady stop (Some snapshot_id) partial
                           else Event.SnapshotFailed stop))
        else mret (Ok tt)
    | None => mret (Ok tt)
    end);
  lift result ;;
  lift published.

Fixpoint replace_each (breakpoints : list (PendingModuleBreakpoint * bool)) (deadline : N)
    : actor unit :=
  match breakpoints with
  | [] => mret tt
  | (breakpoint, enabled) :: rest =>
      c ← lift (build_command "-break-insert" [bytes_of "-f"]);
      replace_module_breakpoint breakpoint enabled
        (string_argument c (bytes_of ("__gdb_ai_pending_" +:+ pmb_id breakpoint))) None deadline ;;
      replace_each rest deadline
  end.

(** A materialized module breakpoint becomes a pending placeholder before a
    fresh run. *)
Definition park_module_breakpoints (deadline : N) : actor unit :=
  w ← gets id;
  let materialized := omap (fun b =>
    match breakpoints (borrow (state w)) !! pmb_backend_number b with
    | Some s => if bp_pending s then None else Some (b, bp_enabled s)
    | None => None
    end) (btree_values (pending_module_breakpoints w)) in
  replace_each materialized deadline ;;
  modify (fun w => if bool_decide (pending_module_breakpoints w = ∅) then w
                   else w <| module_rebind_needed := true |>).

Fixpoint rebind_each (pending : list PendingModuleBreakpoint) : actor unit :=
  match pending with
  | [] => mret tt
  | breakpoint :: rest =>
      found ← ask world a_module_address;
      found ← lift found;
      match found with
      | None => rebind_each rest
      | Some address =>
          now ← ask world a_now;
          timeout ← gets command_timeout_ms;
          replace_module_breakpoint breakpoint (pmb_enabled breakpoint)
            (string_argument (pmb_command breakpoint) (bytes_of ("*" +:+ address)))
            (Some address) (now + N.max timeout 1) ;;
          rebind_each rest
      end
  end.

Definition rebind_pending_module_breakpoints : actor unit :=
  w ← gets id;
  let s := borrow (state w) in
  if running_target s &&
     bool_decide (cap_status <$> capabilities w !! "module_offset_rebinding" =
                  Some Cap.Unsupported)
  then mret tt
  else rebind_each (List.filter (fun b =>
    match breakpoints s !! pmb_backend_number b with
    | Some st => bp_pending st | None => false end)
    (btree_values (pending_module_breakpoints w))).

(** ** Safe evaluation *)

Definition SETTINGS : list string :=
  ["may-call-functions"; "may-write-memory"; "may-write-registers"].

Definition safe_evaluation_settings (p : Profile) (settings : list string)
    : list string * bool :=
  match p with
  | RawAdmin => (settings, true)
  | DebugControl | LabMutation => (drop 1 settings, false)
  | OfflineCore | LiveObserver => ([], false)
  end.

(** The values to restore; a raw session's are read from GDB. *)
Fixpoint read_originals (settings : list string) (operation : option OperationId) (deadline : N)
    : actor (list (string * string)) :=
  match settings with
  | [] => mret []
  | setting :: rest =>
      require_active operation ;;
      c ← lift (build_command "-gdb-show" [bytes_of setting]);
      reply ← execute_until c deadline;
      value ← lift (ok_or (find_str (record_results (cr_record reply)) "value")
                      (Error_new Code.GdbError "GDB setting has no value"));
      others ← read_originals rest operation deadline;
      mret ((setting, value) :: others)
  end.

(** Turns the settings off until one cannot be; the settings turned off, and
    the error that ended the setup. *)
Fixpoint guard_settings (settings : list string) (operation : option OperationId) (deadline : N)
    : actor (list string * option Error) :=
  match settings with
  | [] => mret ([], None)
  | setting :: rest =>
      active ← attempt (require_active operation);
      match active with
      | Err error => mret ([], Some error)
      | Ok _ =>
          c ← lift (build_command "-gdb-set" [bytes_of setting; bytes_of "off"]);
          set ← attempt (execute_until c deadline);
          match set with
          | Ok _ =>
              others ← guard_settings rest operation deadline;
              mret (setting :: others.1, others.2)
          | Err error =>
              if bool_decide (setting = "may-write-registers") &&
                 bool_decide (err_code error = Code.GdbError)
              then guard_settings rest operation deadline
              else mret ([], Some error)
          end
      end
  end.

(** The reads, each but the first with a deadline of its own; only independent
    failures continue.  The last deadline is returned too. *)
Fixpoint safe_reads (commands : list MiCommand) (first : bool) (operation : option OperationId)
    (deadline : N) : actor (Result Error (list (Result Error CommandReply)) * N) :=
  match commands with
  | [] => mret (Ok [], deadline)
  | c :: rest =>
      allowed ← attempt (require_active operation ;; require_known_outcome c);
      match allowed with
      | Err error => mret (Err error, deadline)
      | Ok _ =>
          now ← ask world a_now;
          timeout ← gets command_timeout_ms;
          let deadline := if first then deadline else (now + N.max timeout 1)%N in
          reply ← attempt (execute_until c deadline);
          match reply with
          | Err error =>
              if is_independent_read_failure (err_code error) then
                others ← safe_reads rest false operation deadline;
                mret ((fun rs => reply :: rs) <$> others.1, others.2)
              else mret (Err error, deadline)
          | Ok _ =>
              others ← safe_reads rest false operation deadline;
              mret ((fun rs => reply :: rs) <$> others.1, others.2)
          end
      end
  end.

Definition restoration_commands (originals : list (string * string)) (guarded : list string)
    : Result Error (list MiCommand) :=
  foldr (fun sv acc =>
    c ← build_command "-gdb-set" [bytes_of sv.1; bytes_of sv.2]; cs ← acc; Ok (c :: cs))
    (Ok []) (filter (fun sv => sv.1 ∈ guarded) originals).

Definition execute_safe (commands : list MiCommand) (operation : option OperationId)
    (deadline : N) : actor (list (Result Error CommandReply)) :=
  p ← gets profile;
  let '(settings, inspect_originals) := safe_evaluation_settings p SETTINGS in
  originals ← (if inspect_originals then read_originals settings operation deadline
               else mret ((fun s => (s, "on")) <$> settings));
  guarded ← guard_settings settings operation deadline;
  read ← (match guarded.2 with
          | Some error => mret (Err error, deadline)
          | None => safe_reads commands true operation deadline
          end);
  let '(result, deadline) := read in
  restoration ← lift (restoration_commands originals guarded.1);
  w ← gets id;
  if negb (bool_decide (timed_out_tokens w = ∅)) then
    modify (fun w => w <| deferred_restoration := restoration |>) ;;
    apply' (Event.ConsistencyDirty "safe-evaluation settings await a known command outcome") ;;
    lift result
  else
    restored ← attempt (run_restoration restoration deadline);
    match restored with
    | Err error =>
        apply' (Event.ConsistencyDirty
          ("failed to restore safe-evaluation settings: " +:+ error_display error)) ;;
        fail (Error_new Code.ConsistencyDirty "safe-evaluation settings could not be restored")
    | Ok _ => lift result
    end.

(** ** The requests that run commands *)

(** Commands of a request run behind the fence and after deferred work. *)
Definition prepare_command (c : MiCommand) (deadline : N) : actor unit :=
  require_known_outcome c ;;
  restore_deferred_commands deadline ;;
  when (command_starts_fresh_inferior c) (park_module_breakpoints deadline).

Definition run_command (c : MiCommand) (operation : option OperationId) (deadline : N)
    : actor CommandReply :=
  result ← attempt (execute_operation_until c operation deadline);
  cleanup_one_stale_value ;;
  lift result.

Definition run_transaction (before : list MiCommand) (c : MiCommand) (after : list MiCommand)
    (operation : option OperationId) (deadline : N) : actor CommandReply :=
  result ← attempt (execute_transaction before c after operation deadline);
  cleanup_one_stale_value ;;
  lift result.

Fixpoint require_known_outcomes (commands : list MiCommand) : actor unit :=
  match commands with
  | [] => mret tt
  | c :: rest => require_known_outcome c ;; require_known_outcomes rest
  end.

Definition prepare_safe (commands : list MiCommand) (deadline : N) : actor unit :=
  require_known_outcomes commands ;;
  restore_deferred_commands deadline.

Definition run_safe_evaluate (commands : list MiCommand) (operation : option OperationId)
    (deadline : N) : actor (list (Result Error CommandReply)) :=
  result ← attempt (execute_safe commands operation deadline);
  cleanup_one_stale_value ;;
  lift result.

(** [handle_control] while no command is in flight; the answer says whether the
    worker ends. *)
Definition handle_control (control : ControlRequest) : actor bool :=
  match control with
  | RecordApi request response =>
      recorded ← attempt (record_api encode value_of_event value_of_state value_of_frame world
                            request);
      respond response (no_reply recorded) ;;
      gets fatal
  | RecordOperation operation response =>
      recorded ← attempt (record_operation encode value_of_event value_of_state value_of_frame
                            world operation);
      respond response (no_reply recorded) ;;
      gets fatal
  | Interrupt c deadline response =>
      result ← attempt (
        require_known_outcome c ;;
        now ← ask world a_now;
        if (deadline <=? now)%N then
          fail (retryable (Error_new Code.Timeout "interrupt deadline expired while queued"))
        else execute_until c deadline);
      now ← ask world a_now;
      result ← finish_interrupt now result;
      respond response (match result with Ok r => Ok (Some r) | Err e => Err e end) ;;
      gets fatal
  | CancelOperation operation_id mode response =>
      result ← attempt (
        match mode with
        | InterruptTarget =>
            c ← owned_interrupt_command operation_id;
            now ← ask world a_now;
            timeout ← gets command_timeout_ms;
            result ← attempt (execute_until c (now + N.max timeout 1));
            now ← ask world a_now;
            result ← finish_interrupt now result;
            _ ← lift result;
            mret tt
        | CloseSession => require_active_resume operation_id ;; close'
        end);
      respond response (no_reply result) ;;
      mret (is_ok result && bool_decide (mode = CloseSession))
  | Close response =>
      result ← attempt close';
      respond response (no_reply result) ;;
      mret true
  end.

End commands.
