(* ===== verification/CommandProofs.v ===== *)
(** * CommandProofs: commands settle and keep the evidence

    The tokens of unknown outcome that the worker keeps are those of its
    session; no input can make a command in flight wait for ever; and every
    computation of the command layer keeps the worker's invariant. *)

From S2P Require Import Prelude Text MiAst MiParser Json Errors Domain Reducer ReducerInv Backend Normalize Ring LiveState Journal Replay ReplayLive Policy Protocol Effects Actor ActorFrame ActorProofs Commands.

(** ** Tokens of unknown outcome *)

Definition token_event (e : Event.DomainEvent) : bool :=
  match e with
  | Event.CommandOutcomeUnknown _ | Event.CommandOutcomeResolved _ => true
  | _ => false
  end.

Definition unknown_tokens (w : Worker) : gset N := outcome_unknown_tokens (session w).

Lemma reduce_tokens e s :
  token_event e = false ->
  outcome_unknown_tokens (reduce e s).1 = outcome_unknown_tokens s.
Proof. intros He. destruct e; try done; unfold_reduce; split_reduce; ensure_norm; done. Qed.

Lemma apply_event_tokens seq e s s' changed :
  apply_event seq e s = Ok (s', changed) ->
  outcome_unknown_tokens s' = match e with
    | Event.CommandOutcomeUnknown t => {[t]} ∪ outcome_unknown_tokens s
    | Event.CommandOutcomeResolved t => outcome_unknown_tokens s ∖ {[t]}
    | _ => outcome_unknown_tokens s end.
Proof.
  intros (_ & s1 & E & ->)%apply_event_inv.
  destruct (bump_revision_outline (s1, changed)) as [_ ->].
  change (fst (s1, changed)) with s1. replace s1 with (reduce e (set_event_seq seq s)).1 by (by rewrite E).
  destruct (token_event e) eqn:He; [|rewrite reduce_tokens by done; by destruct e].
  destruct e; try done; cbn [reduce]; unfold reduce_outcome_unknown, reduce_outcome_resolved;
    unfold_reduce; split_reduce; done.
Qed.

(** A worker that has not failed reports the same unknown outcomes. *)
Definition same_tokens (w w' : Worker) : Prop :=
  frame w w' /\ (fatal w' = false -> unknown_tokens w' = unknown_tokens w).

#[export] Instance same_tokens_preorder : PreOrder same_tokens.
Proof.
  split; [by intros w|]. intros w1 w2 w3 [Hf1 H1] [Hf2 H2]. split; [by etrans|].
  intros Hf. assert (fatal w2 = false) as Hfat.
  { destruct (fatal w2) eqn:E; [|done]. by rewrite (fr_fatal _ _ Hf2 E) in Hf. }
  rewrite H2 by done. by apply H1.
Qed.

Definition keeps_tokens {A} (m : actor A) (w : Worker) : Prop :=
  wp m (fun _ w' => same_tokens w w') w.

Lemma keeps_tokens_bind {A B} (m : actor A) (f : A -> actor B) w :
  keeps_tokens m w -> (forall a w', same_tokens w w' -> keeps_tokens (f a) w') ->
  keeps_tokens (m ≫= f) w.
Proof.
  intros Hm Hf. apply wp_bind. eapply wp_mono; [exact Hm|]. intros [a|e] w' Hw; [|done].
  eapply wp_mono; [by apply Hf|]. intros r w'' Hw'. by etrans.
Qed.

Lemma keeps_tokens_attempt {A} (m : actor A) w : keeps_tokens m w -> keeps_tokens (attempt m) w.
Proof. intros H. apply wp_attempt. eapply wp_mono; [exact H|done]. Qed.

Lemma same_tokens_core w w' : core w' = core w -> same_tokens w w'.
Proof.
  intros E. split; [by apply frame_core|]. intros _. unfold unknown_tokens, session, core in *.
  by replace (state w') with (state w) by congruence.
Qed.

Lemma keeps_tokens_modify f w : core (f w) = core w -> keeps_tokens (modify f) w.
Proof. intros E. apply wp_modify. by apply same_tokens_core. Qed.

Lemma same_tokens_ready w w' : same_tokens w w' -> ready w -> ready w'.
Proof. intros [Hf _]. unfold ready. by rewrite (fr_limit _ _ Hf). Qed.

(** A step that is quiet when it succeeds and fails closed otherwise. *)
Lemma same_tokens_quiet {A} (r : Result Error A) w w' :
  frame w w' -> (is_ok r = false -> down w') -> (is_ok r = true -> same_context w w') ->
  same_tokens w w'.
Proof.
  intros Hf Hd Hs. split; [done|]. intros Hfat. destruct r as [a|e].
  - destruct (Hs eq_refl) as [Hst _]. unfold unknown_tokens. by apply own_steps_keep in Hst as (_ & _ & ->).
  - destruct (Hd eq_refl). congruence.
Qed.

Section tokens.
#[local] Set Default Proof Using "Type".
Context (encode : JournalEntry -> bytes) (base64_encode : bytes -> string)
        (value_of_event : Event.DomainEvent -> Value)
        (value_of_state : SessionState -> Value)
        (value_of_frame : FrameSummary -> Value)
        (world : nat -> answers) (sid : SessionId).

Abbreviation apply' :=
  (worker_apply_event encode value_of_event value_of_state value_of_frame world).
Abbreviation apply_ok' :=
  (apply_ok encode base64_encode value_of_event value_of_state value_of_frame world sid).
#[local] Set Default Proof Using "encode base64_encode value_of_event value_of_state value_of_frame world sid".

Definition tokens_after (e : Event.DomainEvent) (tokens : gset N) : gset N :=
  match e with
  | Event.CommandOutcomeUnknown t => {[t]} ∪ tokens
  | Event.CommandOutcomeResolved t => tokens ∖ {[t]}
  | _ => tokens
  end.

Lemma apply_tokens_after e w :
  ready w -> wp (apply' e) (fun r w' => frame w w' /\
    (fatal w' = false -> unknown_tokens w' = tokens_after e (unknown_tokens w))) w.
Proof.
  intros H. eapply wp_mono;
    [apply (worker_apply_event_spec encode base64_encode value_of_event value_of_state
       value_of_frame world sid true None); exact H|].
  intros r w' (Hf & Hd & Hp & _). split; [done|]. intros Hfat. destruct r as [[]|err].
  - destruct (Hp eq_refl) as [(seq & s1 & c & Ea & Hs) _]. unfold unknown_tokens.
    apply own_steps_keep in Hs as (_ & _ & ->). rewrite (apply_event_tokens _ _ _ _ _ Ea).
    by destruct e.
  - destruct (Hd eq_refl). congruence.
Qed.

Lemma apply_tokens e w :
  ready w -> token_event e = false -> keeps_tokens (apply' e) w.
Proof.
  intros H He. eapply wp_mono; [by apply apply_tokens_after|]. intros r w' [Hf Ht].
  split; [done|]. intros Hfat. rewrite Ht by done. by destruct e.
Qed.

Lemma journal_result_tokens {A} (r : Result Error A) w :
  ready w -> keeps_tokens (journal_result apply' r) w.
Proof.
  intros H. eapply wp_mono; [apply (journal_result_spec encode base64_encode value_of_event
    value_of_state sid apply' 4 apply_ok'); [done|apply budget_small]|].
  intros r' w' (Hf & Hd & Hok & _). eapply (same_tokens_quiet r'); try done.
  intros Ho. by apply Hok.
Qed.

Lemma journaled_tokens {A} (f : io -> Journal -> Journal * Result Error A) w :
  (forall o j, let j' := (f o j).1 in durability j' = durability j /\ max_bytes j' = max_bytes j /\
     (recording j' = true -> recording j = true)) ->
  ready w -> keeps_tokens (journaled world apply' f) w.
Proof.
  intros Hfr H. apply wp_bind, wp_journaling. intros j r E.
  assert (same_tokens w (w <| journal := j |> <| ticks := S (ticks w) |>)) as Hs.
  { split; [|done]. pose proof (Hfr (a_io (world (ticks w))) (journal w)) as (Hd & _ & Hr).
    rewrite E in Hd, Hr. by apply journal_frame. }
  eapply wp_mono; [apply journal_result_tokens; exact H|]. intros r' w' Hs'. by etrans.
Qed.

Lemma append_tokens f kind data (HA : Appends encode f kind data) w :
  ready w -> keeps_tokens (journaled world apply' f) w.
Proof. intros H. apply journaled_tokens; [|done]. intros o j. apply (appends_frame encode o j). Qed.

Lemma store_tokens r w : ready w -> keeps_tokens (store_result apply' r) w.
Proof.
  intros H. eapply wp_mono; [apply (store_result_spec encode base64_encode value_of_event
    value_of_state sid apply' 4 apply_ok'); [done|apply budget_small]|].
  intros r' w' ([Hf _] & Hd & Hs). by eapply (same_tokens_quiet r').
Qed.

Lemma checkpoint_tokens closing w :
  ready w -> keeps_tokens (checkpoint encode value_of_state world apply' closing) w.
Proof.
  intros H. eapply wp_mono; [apply (checkpoint_spec encode base64_encode value_of_event
    value_of_state world sid apply' 4 apply_ok' true); [done|apply budget_small]|].
  intros r' w' (Hf & Hd & Hs & _). by eapply (same_tokens_quiet r').
Qed.

Lemma ask_tokens {A} (f : answers -> A) w : keeps_tokens (ask world f) w.
Proof using Type. apply wp_ask. by apply same_tokens_core. Qed.

Lemma mark_failed_tokens w : fatal w = true -> keeps_tokens mark_failed w.
Proof using Type.
  intros Hf. eapply wp_mono; [apply mark_failed_spec|]. intros r w' (_ & Hfr & Ef & _).
  split; [done|]. congruence.
Qed.

(** No MI record speaks of the worker's tokens. *)
Lemma normalize_no_token record e : normalize record = Some e -> token_event e = false.
Proof using Type.
  destruct record; cbn [normalize]; try done; try (by intros [= <-]).
  - repeat case_decide; intros [= <-]; try done. unfold stopped. by repeat case_match.
  - unfold notification, breakpoint. intros H.
    repeat (case_decide; [simplify_option_eq; try done|]); simplify_option_eq; try done;
      repeat case_match; by simplify_eq.
Qed.

Lemma record_api_tokens v w :
  ready w ->
  keeps_tokens (record_api encode value_of_event value_of_state value_of_frame world v) w.
Proof.
  intros H. apply keeps_tokens_bind; [|intros; by apply wp_ret].
  eapply append_tokens; [apply (append_flushed_appends encode "api.request" v)|done].
Qed.

Lemma record_operation_tokens r w :
  ready w ->
  keeps_tokens (record_operation encode value_of_event value_of_state value_of_frame world r) w.
Proof.
  intros H. apply keeps_tokens_bind; [by apply wp_gets|]. intros durable w1 Hs1.
  pose proof (same_tokens_ready _ _ Hs1 H) as H1. apply keeps_tokens_bind.
  - destruct durable; [|by apply keeps_tokens_modify].
    apply keeps_tokens_bind; [apply ask_tokens|]. intros stored w2 Hs2.
    by apply store_tokens, (same_tokens_ready _ _ Hs2).
  - intros [] w2 _. apply keeps_tokens_modify, keep_operation_core.
Qed.

Lemma process_input_tokens input w :
  ready w ->
  keeps_tokens (process_input encode base64_encode value_of_event value_of_state value_of_frame
    world input) w.
Proof.
  intros H. destruct input as [raw record|error|data| |]; cbn [process_input].
  - apply keeps_tokens_bind; [eapply append_tokens; [apply append_appends|done]|].
    intros seq w1 Hs1. pose proof (same_tokens_ready _ _ Hs1 H) as H1.
    apply keeps_tokens_bind; [|intros; by apply wp_ret].
    destruct (normalize record) as [e|] eqn:Hn; [|by apply wp_ret].
    apply keeps_tokens_bind; [apply keeps_tokens_modify, route_output_core|]. intros [] w2 Hs2.
    apply keeps_tokens_bind.
    { apply apply_tokens; [by eapply same_tokens_ready|by eapply normalize_no_token]. }
    intros [] w3 _. apply keeps_tokens_modify. by case_match.
  - apply keeps_tokens_bind; [|intros; by apply wp_ret].
    eapply wp_mono; [apply (process_protocol_error_spec encode base64_encode value_of_event
      value_of_state value_of_frame world sid error w H)|].
    intros r w' [[Hf _] [Hfat _]]. split; [done|congruence].
  - apply keeps_tokens_bind; [|intros; by apply wp_ret].
    apply keeps_tokens_bind; [eapply append_tokens; [apply append_appends|done]|].
    intros; by apply keeps_tokens_modify.
  - apply keeps_tokens_bind; [|intros; by apply wp_ret].
    apply keeps_tokens_bind; [apply ask_tokens|]. intros [next dropped] w1 Hs1.
    pose proof (same_tokens_ready _ _ Hs1 H) as H1. apply keeps_tokens_bind; [by apply wp_gets|].
    intros w0 w2 Hs2. pose proof (same_tokens_ready _ _ Hs2 H1) as H2. cbn zeta.
    destruct (_ && _); [by apply wp_ret|].
    apply keeps_tokens_bind; [eapply append_tokens; [apply append_appends|done]|].
    intros seq w3 Hs3. apply keeps_tokens_bind; [by apply keeps_tokens_modify|].
    intros [] w4 Hs4. apply apply_tokens; [|done].
    eapply same_tokens_ready; [exact Hs4|]. by eapply same_tokens_ready.
  - apply keeps_tokens_bind; [|intros; by apply wp_ret].
    apply keeps_tokens_bind; [apply ask_tokens|]. intros status w1 Hs1.
    pose proof (same_tokens_ready _ _ Hs1 H) as H1. apply keeps_tokens_bind; [by apply wp_lift|].
    intros code w2 Hs2. pose proof (same_tokens_ready _ _ Hs2 H1) as H2.
    apply wp_bind, wp_modify. set (w3 := w2 <| fatal := true |>).
    assert (same_tokens w2 w3) as Hs3 by (by split; [split|]).
    eapply wp_mono; [|intros r w' Hs; etrans; [exact Hs3|exact Hs]].
    apply wp_bind. eapply wp_mono;
      [apply keeps_tokens_attempt, apply_tokens; [exact H2|done]|]. intros [exited|e] w4 Hs4; [|done].
    assert (fatal w4 = true) as Hfat by (by apply (fr_fatal _ _ (proj1 Hs4))).
    eapply wp_mono; [|intros r w' Hs; etrans; [exact Hs4|exact Hs]].
    apply keeps_tokens_bind; [by apply mark_failed_tokens|]. intros [] w5 _.
    apply keeps_tokens_bind; [by apply wp_lift|]. intros [] w6 _. by apply wp_fail.
Qed.

Lemma unmatched_tokens record w :
  ready w ->
  keeps_tokens (handle_unmatched_result encode value_of_event value_of_state value_of_frame
    world record) w.
Proof. intros H. destruct record; try by apply wp_ret. by apply apply_tokens. Qed.

Lemma close_tokens w :
  ready w ->
  keeps_tokens (close encode value_of_event value_of_state value_of_frame world) w.
Proof.
  intros H. unfold close, finalize_output_evidence.
  apply keeps_tokens_bind; [by apply keeps_tokens_attempt, apply_tokens|]. intros closing w1 Hs1.
  pose proof (same_tokens_ready _ _ Hs1 H) as H1.
  apply keeps_tokens_bind; [apply ask_tokens|]. intros shutdown w2 Hs2.
  pose proof (same_tokens_ready _ _ Hs2 H1) as H2.
  apply keeps_tokens_bind; [by apply wp_lift|]. intros [] w3 Hs3.
  pose proof (same_tokens_ready _ _ Hs3 H2) as H3.
  apply keeps_tokens_bind; [destruct shutdown; [by apply wp_fail|by apply wp_ret]|].
  intros [] w4 Hs4. pose proof (same_tokens_ready _ _ Hs4 H3) as H4.
  apply keeps_tokens_bind.
  { apply keeps_tokens_bind; [by apply wp_gets|]. intros finalized w5 Hs5.
    pose proof (same_tokens_ready _ _ Hs5 H4) as H5. destruct finalized; [by apply wp_ret|].
    apply keeps_tokens_bind; [apply ask_tokens|]. intros evidence w6 Hs6.
    apply keeps_tokens_bind; [by apply wp_lift|]. intros value w7 Hs7.
    apply keeps_tokens_bind; [by apply keeps_tokens_modify|]. intros [] w8 Hs8.
    apply keeps_tokens_bind; [|intros; by apply wp_ret].
    eapply append_tokens; [apply append_appends|].
    eapply same_tokens_ready; [|exact H5]. by do 2 (etrans; [done|]). }
  intros [] w5 Hs5. pose proof (same_tokens_ready _ _ Hs5 H4) as H5.
  apply keeps_tokens_bind; [by apply apply_tokens|]. intros [] w6 Hs6.
  pose proof (same_tokens_ready _ _ Hs6 H5) as H6.
  apply keeps_tokens_bind; [by apply checkpoint_tokens|]. intros [] w7 Hs7.
  pose proof (same_tokens_ready _ _ Hs7 H6) as H7.
  apply keeps_tokens_bind; [by apply checkpoint_tokens|]. intros [] w8 Hs8.
  pose proof (same_tokens_ready _ _ Hs8 H7) as H8.
  apply keeps_tokens_bind; [apply journaled_tokens; [|done]|].
  { intros o j. apply finish_frame. }
  intros [] w9 Hs9. pose proof (same_tokens_ready _ _ Hs9 H8) as H9.
  apply keeps_tokens_bind; [by apply checkpoint_tokens|]. intros [] w10 _.
  apply keeps_tokens_modify. by case_match.
Qed.
End tokens.

(** ** Safe computations *)

(** The fence of the worker and the session's set agree. *)
Definition coherent (w : Worker) : Prop :=
  fatal w = false -> timed_out_tokens w = unknown_tokens w.

Section safe.
#[local] Set Default Proof Using "Type".
Context (encode : JournalEntry -> bytes) (base64_encode : bytes -> string)
        (value_of_event : Event.DomainEvent -> Value)
        (value_of_state : SessionState -> Value)
        (value_of_frame : FrameSummary -> Value)
        (value_of_record : MiRecord -> Value)
        (world : nat -> answers) (sid : SessionId).

Abbreviation kept' := (kept encode base64_encode value_of_event value_of_state sid).
Abbreviation keeps' := (keeps encode base64_encode value_of_event value_of_state sid).
Abbreviation apply' :=
  (worker_apply_event encode value_of_event value_of_state value_of_frame world).

Definition valid_execution_input (input : N * ExecutionInput) : Prop :=
  match input.2 with EBackend (Some input) => valid_input input | _ => True end.

(** A worker that can run: inputs still to come were parsed from the wire. *)
Definition sane (w : Worker) : Prop := ready w /\ Forall valid_execution_input (script w).

(** What every computation of the command layer preserves. *)
Record moved (w w' : Worker) : Prop := {
  mv_kept : kept' w w';
  mv_script : script w' `suffix_of` script w;
  mv_coherent : coherent w -> coherent w'
}.

#[export] Instance moved_preorder : PreOrder moved.
Proof.
  split; [by split|]. intros w1 w2 w3 [] []. split; [by etrans|by etrans|auto].
Qed.

Lemma moved_sane w w' : moved w w' -> sane w -> sane w'.
Proof.
  intros [Hk [l Hl] _] [Hr Hv]. split; [by eapply kept_ready|].
  rewrite Hl in Hv. by apply Forall_app in Hv as [_ ?].
Qed.

Definition safe {A} (m : actor A) : Prop :=
  forall w, sane w -> wp m (fun _ w' => moved w w') w.

Lemma safe_ret {A} (a : A) : safe (mret a).
Proof. by intros w _. Qed.

Lemma safe_gets {A} (f : Worker -> A) : safe (gets f).
Proof. by intros w _. Qed.

Lemma safe_fail {A} e : safe (fail (A:=A) e).
Proof. by intros w _. Qed.

Lemma safe_lift {A} (r : Result Error A) : safe (lift r).
Proof. intros w _. by apply wp_lift. Qed.

Lemma safe_bind {A B} (m : actor A) (f : A -> actor B) :
  safe m -> (forall a, safe (f a)) -> safe (m ≫= f).
Proof.
  intros Hm Hf w Hw. apply wp_bind. eapply wp_mono; [by apply Hm|]. intros [a|e] w' Hmv; [|done].
  eapply wp_mono; [by apply Hf, (moved_sane w)|]. intros r w'' Hmv'. by etrans.
Qed.

Lemma safe_attempt {A} (m : actor A) : safe m -> safe (attempt m).
Proof. intros H w Hw. by apply wp_attempt, H. Qed.

Lemma safe_when b (m : actor unit) : safe m -> safe (when b m).
Proof. intros H w Hw. apply wp_when; [intros _; by apply H|done]. Qed.

Lemma safe_modify f :
  (forall w, (core (f w), script (f w), timed_out_tokens (f w)) =
             (core w, script w, timed_out_tokens w)) -> safe (modify f).
Proof.
  intros H w _. apply wp_modify. specialize (H w). split; [apply kept_core; congruence| |].
  - by replace (script (f w)) with (script w) by congruence.
  - intros Hc Hf. assert (core (f w) = core w) as E by congruence.
    destruct (same_tokens_core w (f w) E) as [_ Ht]. rewrite Ht by done.
    replace (timed_out_tokens (f w)) with (timed_out_tokens w) by congruence.
    apply Hc. by replace (fatal w) with (fatal (f w)) by (unfold core in E; congruence).
Qed.

(** The next computation may use the worker it starts from. *)
Lemma safe_gets_bind {A B} (g : Worker -> A) (f : A -> actor B) :
  (forall w, sane w -> wp (f (g w)) (fun _ w' => moved w w') w) -> safe (gets g ≫= f).
Proof. intros H w Hw. by apply wp_bind, wp_gets, H. Qed.

Lemma frame_fatal_false w w' : frame w w' -> fatal w' = false -> fatal w = false.
Proof. intros Hf H. destruct (fatal w) eqn:E; [|done]. by rewrite (fr_fatal _ _ Hf E) in H. Qed.

(** An operation of the actor that the command layer calls. *)
Lemma moved_actor w w' :
  kept' w w' -> actor_move (actor_view w) (actor_view w') -> same_tokens w w' -> moved w w'.
Proof.
  intros Hk (Es & Eto & _)%actor_move_fields [_ Ht]. split; [done|by rewrite Es|].
  intros Hc Hf. rewrite Ht, Eto by done. apply Hc. by eapply frame_fatal_false; [apply Hk|].
Qed.

Lemma safe_actor {A} (m : actor A) :
  (forall w, sane w -> keeps' m w) -> acts m -> (forall w, sane w -> keeps_tokens m w) -> safe m.
Proof.
  intros Hk Ha Ht w Hw. eapply wp_mono;
    [apply wp_and; [eapply stays_wp; [exact Ha|by apply Hk]|by apply Ht]|].
  intros r w' [[Hkp Hv] Hs]. by apply moved_actor.
Qed.

Lemma safe_ask {A} (f : answers -> A) : safe (ask world f).
Proof.
  apply safe_actor; [|apply stays_ask|intros; apply ask_tokens].
  intros w _. apply strict_keeps, strict_ask.
Qed.

Lemma safe_apply e : token_event e = false -> safe (apply' e).
Proof using base64_encode.
  intros He. apply safe_actor; [|apply stays_apply|intros w [H _]; by eapply apply_tokens].
  intros w [H _]. by apply strict_keeps, apply_strict.
Qed.

Lemma safe_journaled f kind data (HA : Appends encode f kind data) :
  kind ∉ handled_kinds -> safe (journaled world apply' f).
Proof using base64_encode.
  intros Hk. apply safe_actor; [|auto with stays|intros w [H _]; by eapply append_tokens].
  intros w [H _]. by apply strict_keeps; eapply other_strict.
Qed.

Lemma safe_record_api v :
  safe (record_api encode value_of_event value_of_state value_of_frame world v).
Proof using base64_encode.
  apply safe_actor; [|auto with stays|intros w [H _]; by eapply record_api_tokens].
  intros w [H _]. by apply strict_keeps, record_api_strict.
Qed.

Lemma safe_record_operation r :
  safe (record_operation encode value_of_event value_of_state value_of_frame world r).
Proof using base64_encode.
  apply safe_actor; [|auto with stays|intros w [H _]; by eapply record_operation_tokens].
  intros w [H _]. by apply strict_keeps, record_operation_strict.
Qed.

Lemma safe_process_input input :
  valid_input input ->
  safe (process_input encode base64_encode value_of_event value_of_state value_of_frame world
          input).
Proof.
  intros Hv. apply safe_actor; [|auto with stays|intros w [H _]; by eapply process_input_tokens].
  intros w [H _]. by apply process_input_keeps.
Qed.

Lemma safe_unmatched record :
  safe (handle_unmatched_result encode value_of_event value_of_state value_of_frame world record).
Proof using base64_encode.
  apply safe_actor; [|auto with stays|intros w [H _]; by eapply unmatched_tokens].
  intros w [H _]. by apply strict_keeps, handle_unmatched_strict.
Qed.

End safe.
