(* ===== verification/CommandSafe.v ===== *)
(** * CommandSafe: the command layer keeps the evidence and settles

    Every computation of [Commands] is [safe]: run from a worker whose inputs
    come from the wire it returns or reports an error within its fuel, keeps
    the invariant of the evidence, and keeps the worker's fence equal to the
    session's set of unknown outcomes. *)

From S2P Require Import Prelude Text MiAst MiParser Json Errors Domain Reducer ReducerInv Backend Normalize Ring LiveState Journal Replay ReplayLive Policy Protocol Effects Actor ActorFrame ActorProofs Commands CommandProofs.

Create HintDb safe discriminated.

Ltac safe_step :=
  lazymatch goal with
  | |- safe _ _ _ _ _ ?m =>
      lazymatch m with
      | mret _ => apply safe_ret
      | gets _ => apply safe_gets
      | fail _ => apply safe_fail
      | lift _ => apply safe_lift
      | ask _ _ => apply safe_ask
      | attempt _ => apply safe_attempt
      | when _ _ => apply safe_when
      | mbind _ _ => apply safe_bind; [|intros ?]
      | match ?x with _ => _ end => destruct x
      | worker_apply_event _ _ _ _ _ _ => apply safe_apply; reflexivity
      | modify _ => apply safe_modify; intros ?;
          first [reflexivity | solve [repeat case_match; reflexivity]]
      | _ => solve [auto with safe]
      end
  end.

Ltac safely := repeat safe_step.

Section safety.
#[local] Set Default Proof Using "Type".
Context (encode : JournalEntry -> bytes) (base64_encode : bytes -> string)
        (value_of_event : Event.DomainEvent -> Value)
        (value_of_state : SessionState -> Value)
        (value_of_frame : FrameSummary -> Value)
        (value_of_record : MiRecord -> Value)
        (world : nat -> answers) (sid : SessionId).

Abbreviation apply' :=
  (worker_apply_event encode value_of_event value_of_state value_of_frame world).
Abbreviation close' := (close encode value_of_event value_of_state value_of_frame world).
Abbreviation kept' := (kept encode base64_encode value_of_event value_of_state sid).
Abbreviation moved' := (moved encode base64_encode value_of_event value_of_state sid).
Abbreviation safe' := (safe encode base64_encode value_of_event value_of_state sid).
Abbreviation with_commands f := (f encode base64_encode value_of_event value_of_state
  value_of_frame value_of_record world) (only parsing).

Hint Resolve safe_record_api safe_record_operation safe_unmatched safe_process_input : safe.

(** ** Tokens and the fence *)

Lemma safe_require_name name : safe' (require_known_outcome_name name).
Proof. unfold require_known_outcome_name. safely. Qed.

Hint Resolve safe_require_name : safe.

Lemma safe_require c : safe' (require_known_outcome c).
Proof. apply safe_require_name. Qed.

Hint Resolve safe_require : safe.

Lemma safe_begin_command c :
  safe' (begin_command encode base64_encode value_of_event value_of_state value_of_frame world c).
Proof.
  assert (forall token, safe' (journaled world apply' (fun o => append_mi_input encode o token
    (base64_encode (encoded c token))))) as Hj.
  { intros token. eapply (safe_journaled _ _ _ _ _ _ _ _ "mi.input" _
      (append_appends encode "mi.input" _)). unfold handled_kinds. set_solver. }
  unfold begin_command, from_option_error. safely.
Qed.

Hint Resolve safe_begin_command : safe.

(** A change of the fence followed by its event. *)
Lemma safe_fence_event e f w :
  sane w -> (forall w, core (f w) = core w /\ script (f w) = script w /\
    timed_out_tokens (f w) = tokens_after e (timed_out_tokens w)) ->
  wp (modify f ;; apply' e) (fun _ w' => moved' w w') w.
Proof.
  intros [Hr Hv] Hf. destruct (Hf w) as (Ec & Es & Et). apply wp_bind, wp_modify.
  assert (ready (f w)) as Hr1.
  { unfold ready. by replace (snapshot_limit (f w)) with (snapshot_limit w)
      by (unfold core in Ec; congruence). }
  eapply wp_mono; [apply wp_and; [eapply stays_wp; [apply stays_apply|
    apply (strict_keeps encode base64_encode value_of_event value_of_state sid), apply_strict, Hr1]|
    apply (apply_tokens_after encode base64_encode value_of_event value_of_state value_of_frame
      world sid), Hr1]|].
  intros r w' [[Hk (Es' & Et' & _)%actor_move_fields] [Hfr Htk]]. split.
  - etrans; [|exact Hk]. by apply kept_core.
  - by rewrite Es', Es.
  - intros Hc Hfat. rewrite Htk, Et', Et by done. f_equal. rewrite Hc.
    + unfold unknown_tokens, session. by replace (state (f w)) with (state w)
        by (unfold core in Ec; congruence).
    + replace (fatal w) with (fatal (f w)) by (unfold core in Ec; congruence).
      by eapply frame_fatal_false.
Qed.

Lemma safe_time_out token :
  safe' (time_out_token encode value_of_event value_of_state value_of_frame world token).
Proof. intros w Hw. by apply (safe_fence_event (Event.CommandOutcomeUnknown token)). Qed.

Lemma safe_resolve_delayed record :
  safe' (resolve_delayed encode value_of_event value_of_state value_of_frame world record).
Proof.
  unfold resolve_delayed. apply safe_bind; [apply safe_gets|]. intros w0.
  destruct (take_delayed_token _ _) as [t|]; [|apply safe_ret].
  intros w Hw. apply wp_assoc, wp_bind.
  eapply wp_mono; [by apply (safe_fence_event (Event.CommandOutcomeResolved t))|].
  intros [[]|e] w' Hm; [by apply wp_ret|done].
Qed.

Hint Resolve safe_time_out safe_resolve_delayed : safe.

(** ** Closing while a command is in flight *)

Lemma moved_fatal w w' :
  frame w w' -> script w' `suffix_of` script w -> fatal w' = true -> moved' w w'.
Proof.
  intros Hf Hs Hfat. split; [by apply kept_fatal|done|]. intros _ H. congruence.
Qed.

Lemma close_moves w :
  ready w -> wp close' (fun r w' => frame w w' /\ script w' = script w /\
    (coherent w -> coherent w') /\ (is_ok r = false -> moved' w w')) w.
Proof.
  intros Hr. eapply wp_mono; [apply wp_and; [eapply stays_wp; [apply stays_close|
    by apply (close_spec encode base64_encode value_of_event value_of_state value_of_frame
      world sid)]|
    by apply (close_tokens encode base64_encode value_of_event value_of_state value_of_frame
      world sid)]|].
  intros r w' [[[Hf Hi] (Hs & Et & _)%actor_move_fields] [_ Ht]].
  assert (coherent w -> coherent w') as Hc.
  { intros Hc Hfat. rewrite Ht, Et by done. apply Hc. by eapply frame_fatal_false. }
  split_and!; try done. intros Hr'. split; [split; [done|]|by rewrite Hs|done].
  intros Hinv. specialize (Hi Hinv). by rewrite Hr' in Hi.
Qed.

(** A computation that closes the session when it succeeds. *)
Definition closing w (r : Result Error unit) w' : Prop :=
  frame w w' /\ script w' `suffix_of` script w /\ (coherent w -> coherent w') /\
  (is_ok r = false -> moved' w w').

Definition closes (m : actor unit) : Prop := forall w, sane w -> wp m (closing w) w.

Lemma closes_close : closes close'.
Proof.
  intros w [Hr _]. eapply wp_mono; [by apply close_moves|]. intros r w' (Hf & Hs & Hc & Hm).
  split_and!; try done. by rewrite Hs.
Qed.

Lemma closes_bind (pre : actor unit) : safe' pre -> closes (pre ;; close').
Proof.
  intros Hpre w Hw. apply wp_bind. eapply wp_mono; [by apply Hpre|]. intros [[]|e] w1 Hm1.
  - eapply wp_mono; [by apply closes_close, (moved_sane encode base64_encode value_of_event
      value_of_state sid w)|]. intros r w2 (Hf & Hs & Hc & Hm). destruct Hm1 as [Hk1 Hs1 Hc1].
    split_and!; [etrans; [apply Hk1|done]|by etrans|auto|].
    intros Ho. etrans; [by split|by apply Hm].
  - split_and!; try apply Hm1. done.
Qed.

(** What follows fails the worker when the session is closed. *)
Lemma safe_closing {A} m (k : Result Error unit -> actor A) :
  closes m ->
  (forall r w w', closing w r w' -> wp (k r) (fun _ w'' => moved' w w'') w') ->
  safe' (closed ← attempt m; k closed).
Proof.
  intros Hm Hk w Hw. apply wp_bind, wp_attempt. eapply wp_mono; [by apply Hm|].
  intros r w' Hc. by apply Hk.
Qed.

Lemma closing_fails {A} (e : Error) r w w' :
  closing w r w' ->
  wp (modify (fun w => w <| fatal := true |>) ;; fail e) (fun (_ : Result Error A) w'' => moved' w w'') w'.
Proof.
  intros (Hf & Hs & _). apply wp_bind, wp_modify, wp_fail. apply moved_fatal; [|done|done].
  etrans; [exact Hf|]. by split.
Qed.

Lemma safe_require_active_resume id : safe' (require_active_resume id).
Proof. unfold require_active_resume. safely. Qed.

Hint Resolve safe_require_active_resume : safe.

Lemma safe_owned_interrupt id : safe' (owned_interrupt_command id).
Proof. unfold owned_interrupt_command. safely. Qed.

Hint Resolve safe_owned_interrupt : safe.

Lemma safe_begin_control now deadline interrupt response c x :
  safe' (begin_control encode base64_encode value_of_event value_of_state value_of_frame world
           now deadline interrupt response c x).
Proof. unfold begin_control, respond. safely. Qed.

Hint Resolve safe_begin_control : safe.

Lemma closing_respond response result r w w' :
  closing w r w' -> wp (respond response result) (fun a w'' => a = Ok tt /\ closing w r w'') w'.
Proof.
  intros (Hf & Hs & Hc & Hm). apply wp_modify. split; [done|].
  split_and!; [etrans; [exact Hf|by apply frame_core]|done|exact Hc|].
  intros Ho. etrans; [by apply Hm|]. split; [by apply kept_core|done|done].
Qed.

Lemma safe_execute_control now control x :
  safe' (execute_control encode base64_encode value_of_event value_of_state value_of_frame world
           now control x).
Proof.
  destruct control as [operation response|request response|c deadline response|
    id [] response|response]; cbn [execute_control]; unfold respond; try by safely.
  - apply safe_closing; [apply closes_bind, safe_require_active_resume|]. intros r w w' Hc.
    apply wp_bind. eapply wp_mono; [by apply (closing_respond response (no_reply r))|].
    intros a w'' [-> Hc']. destruct (is_ok r) eqn:Ho; [by apply (closing_fails _ r)|].
    apply wp_ret. by apply Hc'.
  - apply safe_closing; [apply closes_close|]. intros r w w' Hc.
    apply wp_bind. eapply wp_mono; [by apply (closing_respond response (no_reply r))|].
    intros a w'' [-> Hc']. by apply (closing_fails _ r).
Qed.

Hint Resolve safe_execute_control : safe.

(** ** The command in flight *)

Lemma safe_escalate_acknowledged now : safe' (escalate_acknowledged_interrupt world now).
Proof. unfold escalate_acknowledged_interrupt, from_option_error. safely. Qed.

Lemma safe_control_reply control result : safe' (control_reply control result).
Proof. unfold control_reply, respond. safely. Qed.

Hint Resolve safe_escalate_acknowledged safe_control_reply : safe.

Lemma safe_execute_deadline token deadline now x :
  safe' (execute_deadline encode value_of_event value_of_state value_of_frame world token deadline
           now x).
Proof. unfold execute_deadline, escalate_control, time_out_control. safely. Qed.

Lemma safe_finish_interrupt now result : safe' (finish_interrupt now result).
Proof. unfold finish_interrupt. safely. Qed.

Hint Resolve safe_execute_deadline safe_finish_interrupt : safe.

Lemma safe_execute_record token now record seq x :
  safe' (with_commands execute_record token now record seq x).
Proof. unfold execute_record. safely. Qed.

Hint Resolve safe_execute_record : safe.

Lemma safe_execute_input token deadline now input x :
  valid_execution_input (now, input) ->
  safe' (with_commands execute_input token deadline now input x).
Proof.
  intros Hv. destruct input as [control|[input|]|]; cbn [execute_input]; safely.
Qed.

(** The loop ends with its inputs. *)
Lemma execute_loop_safe fuel token deadline x w :
  sane w -> length (script w) < fuel ->
  wp (with_commands execute_loop fuel token deadline x) (fun _ w' => moved' w w') w.
Proof.
  revert x w. induction fuel as [|fuel IH]; intros x w Hw Hf; [lia|]. cbn [execute_loop].
  assert (wp (input ← next_input;
              x ← with_commands execute_input token deadline input.1 input.2 x;
              with_commands execute_loop fuel token deadline x)
            (fun _ w' => moved' w w') w) as Hstep.
  { apply wp_bind, wp_bind, wp_gets. cbn [id].
    destruct (script w) as [|[now input] rest] eqn:Hs; [by apply wp_ret, wp_bind, wp_fail|].
    apply wp_bind, wp_modify, wp_ret. set (w1 := w <| script := rest |>).
    destruct Hw as [Hr Hv]. rewrite Hs in Hv. apply Forall_cons in Hv as [Hv1 Hv2].
    assert (moved' w w1) as Hm1.
    { split; [by apply kept_core| |done]. rewrite Hs. by exists [(now, input)]. }
    apply wp_bind. eapply wp_mono; [apply safe_execute_input; [exact Hv1|by split]|].
    intros [x'|e] w2 Hm2; assert (moved' w w2) as Hm by (by etrans); [|done].
    eapply wp_mono; [apply IH|].
    - apply (moved_sane _ _ _ _ _ _ _ Hm2). by split.
    - destruct (mv_script _ _ _ _ _ _ _ Hm2) as [l Hl]. cbn in *.
      apply (f_equal length) in Hl. rewrite length_app in Hl. lia.
    - intros r w3 Hm3. by etrans. }
  destruct (ex_pending_control x), (ex_normal_result x); try exact Hstep. by apply wp_lift.
Qed.

Lemma safe_execute_until_inner c deadline : safe' (with_commands execute_until_inner c deadline).
Proof.
  unfold execute_until_inner. apply safe_bind; [apply safe_ask|]. intros now.
  destruct (deadline <=? now)%N; [apply safe_fail|].
  apply safe_bind; [apply safe_begin_command|]. intros token. apply safe_gets_bind.
  intros w Hw. apply execute_loop_safe; [done|lia].
Qed.

Hint Resolve safe_execute_until_inner : safe.

(** ** Commands built on one another *)

Lemma safe_clean_up_insertion number deadline :
  safe' (with_commands clean_up_insertion number deadline).
Proof. unfold clean_up_insertion. safely. Qed.

Hint Resolve safe_clean_up_insertion : safe.

Lemma safe_execute_until c deadline : safe' (with_commands execute_until c deadline).
Proof. unfold execute_until. safely. Qed.

Lemma safe_require_active operation : safe' (require_active world operation).
Proof. unfold require_active. safely. Qed.

Hint Resolve safe_execute_until safe_require_active : safe.

Lemma safe_execute_operation_until c operation deadline :
  safe' (with_commands execute_operation_until c operation deadline).
Proof. unfold execute_operation_until, from_option_error. safely. Qed.

Lemma safe_run_restoration commands deadline :
  safe' (with_commands run_restoration commands deadline).
Proof. induction commands; cbn [run_restoration]; safely. Qed.

Hint Resolve safe_execute_operation_until safe_run_restoration : safe.

Lemma safe_restore_deferred deadline : safe' (with_commands restore_deferred_commands deadline).
Proof. unfold restore_deferred_commands. safely. Qed.

Lemma safe_restore_or_defer after deadline waiting failed :
  safe' (with_commands restore_or_defer after deadline waiting failed).
Proof. unfold restore_or_defer. safely. Qed.

Lemma safe_run_setup before operation deadline :
  safe' (with_commands run_setup before operation deadline).
Proof. induction before; cbn [run_setup]; safely. Qed.

Hint Resolve safe_restore_deferred safe_restore_or_defer safe_run_setup : safe.

Lemma safe_execute_transaction before c after operation deadline :
  safe' (with_commands execute_transaction before c after operation deadline).
Proof. unfold execute_transaction. safely. Qed.

Lemma safe_cleanup_stale : safe' (with_commands cleanup_one_stale_value).
Proof. unfold cleanup_one_stale_value. safely. Qed.

Hint Resolve safe_execute_transaction safe_cleanup_stale : safe.

Lemma safe_replace_steps breakpoint enabled c address deadline :
  safe' (with_commands replace_steps breakpoint enabled c address deadline).
Proof. unfold replace_steps. safely. Qed.

Hint Resolve safe_replace_steps : safe.

Lemma safe_replace_module breakpoint enabled c address deadline :
  safe' (with_commands replace_module_breakpoint breakpoint enabled c address deadline).
Proof.
  unfold replace_module_breakpoint. safely. all: destruct (is_ok _); by apply safe_apply.
Qed.

Hint Resolve safe_replace_module : safe.

Lemma safe_replace_each breakpoints deadline :
  safe' (with_commands replace_each breakpoints deadline).
Proof. induction breakpoints as [|[]]; cbn [replace_each]; safely. Qed.

Hint Resolve safe_replace_each : safe.

Lemma safe_park deadline : safe' (with_commands park_module_breakpoints deadline).
Proof. unfold park_module_breakpoints. safely. Qed.

Lemma safe_rebind_each pending : safe' (with_commands rebind_each pending).
Proof. induction pending; cbn [rebind_each]; safely. Qed.

Hint Resolve safe_park safe_rebind_each : safe.

Lemma safe_rebind : safe' (with_commands rebind_pending_module_breakpoints).
Proof. unfold rebind_pending_module_breakpoints. safely. Qed.

(** ** Safe evaluation and the requests *)

Lemma safe_read_originals settings operation deadline :
  safe' (with_commands read_originals settings operation deadline).
Proof. induction settings; cbn [read_originals]; safely. Qed.

Lemma safe_guard_settings settings operation deadline :
  safe' (with_commands guard_settings settings operation deadline).
Proof. induction settings; cbn [guard_settings]; safely. Qed.

Lemma safe_safe_reads commands first operation deadline :
  safe' (with_commands safe_reads commands first operation deadline).
Proof. revert first deadline. induction commands; intros; cbn [safe_reads]; safely. Qed.

Hint Resolve safe_read_originals safe_guard_settings safe_safe_reads : safe.

Lemma safe_execute_safe commands operation deadline :
  safe' (with_commands execute_safe commands operation deadline).
Proof. unfold execute_safe. safely. Qed.

Lemma safe_prepare_command c deadline : safe' (with_commands prepare_command c deadline).
Proof. unfold prepare_command. safely. Qed.

Lemma safe_require_known_outcomes commands : safe' (require_known_outcomes commands).
Proof. induction commands; cbn [require_known_outcomes]; safely. Qed.

Hint Resolve safe_execute_safe safe_prepare_command safe_require_known_outcomes : safe.

Lemma safe_prepare_safe commands deadline : safe' (with_commands prepare_safe commands deadline).
Proof. unfold prepare_safe. safely. Qed.

Lemma safe_run_command c operation deadline :
  safe' (with_commands run_command c operation deadline).
Proof. unfold run_command. safely. Qed.

Lemma safe_run_transaction before c after operation deadline :
  safe' (with_commands run_transaction before c after operation deadline).
Proof. unfold run_transaction. safely. Qed.

Lemma safe_run_safe_evaluate commands operation deadline :
  safe' (with_commands run_safe_evaluate commands operation deadline).
Proof. unfold run_safe_evaluate. safely. Qed.

End safety.

#[export] Hint Resolve safe_prepare_command safe_prepare_safe safe_run_command
  safe_run_transaction safe_run_safe_evaluate safe_rebind safe_cleanup_stale safe_require_active
  safe_require_name safe_restore_deferred safe_execute_operation_until safe_execute_until
  safe_require safe_owned_interrupt safe_finish_interrupt safe_require_active_resume
  safe_escalate_acknowledged safe_record_api safe_record_operation safe_unmatched : safe.
