(* ===== verification/Tracking.v ===== *)
(** * Tracking: tracked expressions and memory ([crates/gdb-ai-core/src/session/actor.rs])

    The budget of tracking definitions, the bounded history of each, and the
    difference reported between two observations.  base64 and the size of a
    JSON text are library code. *)

From S2P Require Import Prelude Text Json Errors Domain Effects Actor.

(** ** Definitions within the session's budget *)

Definition requested_memory (d : TrackingDefinition) : N :=
  match d with TrackMemory _ _ length _ => length | TrackExpression _ _ _ => 0 end.

Definition tracked_memory (tracking : gmap string TrackingDefinition) : N :=
  foldr N.add 0%N (requested_memory <$> btree_values tracking).

Definition tracking_refusal (limit : N) (d : TrackingDefinition)
    (tracking : gmap string TrackingDefinition) : option Error :=
  if (limit <? u64_saturating_add (tracked_memory tracking) (requested_memory d))%N then
    Some (Error_new Code.OutputLimit "tracked memory exceeds the session memory budget")
  else if (128 <=? size tracking)%nat then
    Some (Error_new Code.OutputLimit "session tracking-definition limit reached")
  else if bool_decide (is_Some (tracking !! tracking_id d)) then
    Some (Error_new Code.AlreadyExists "tracking definition already exists")
  else None.

(** ** The difference of two observations *)

(** The first offset from [offset] where the buffers agree, or the maximum. *)
Fixpoint differing (fuel : nat) (before after : bytes) (maximum offset : nat) : nat :=
  match fuel with
  | 0 => offset
  | S fuel =>
      if (offset <? maximum)%nat && negb (bool_decide (before !! offset = after !! offset))
      then differing fuel before after maximum (S offset) else offset
  end.

Record diff_scan := MkDiffScan {
  ds_ranges : list (nat * nat);
  ds_offset : nat;
  ds_truncated : bool
}.

Definition DIFF_BYTES : nat := 4096.

Fixpoint scan_ranges (fuel : nat) (before after : bytes) (maximum offset emitted : nat)
    (ranges : list (nat * nat)) : diff_scan :=
  match fuel with
  | 0 => MkDiffScan ranges offset false
  | S fuel =>
      if (offset <? maximum)%nat && (length ranges <? 128)%nat && (emitted <? DIFF_BYTES)%nat then
        if bool_decide (before !! offset = after !! offset)
        then scan_ranges fuel before after maximum (S offset) emitted ranges
        else
          let start := offset in
          let offset := differing (maximum - start) before after maximum start in
          let visible_end := offset `min` (start + (DIFF_BYTES - emitted)) in
          let ranges := ranges ++ [(start, visible_end)] in
          if (visible_end <? offset)%nat then MkDiffScan ranges offset true
          else scan_ranges fuel before after maximum offset (emitted + (visible_end - start))
                 ranges
      else MkDiffScan ranges offset false
  end.

Definition slice (b : bytes) (start stop : nat) : bytes :=
  drop (start `min` length b) (take (stop `min` length b) b).

Section difference.
Context (base64_encode : bytes -> string) (base64_decode : string -> option bytes)
        (to_vec : Value -> option bytes).

Definition decoded (v : Value) : option bytes :=
  data ← Json.get "data_base64" v;
  encoded ← Json.as_str data;
  base64_decode encoded.

Definition range_value (before after : bytes) (r : nat * nat) : Value :=
  Object [("offset", uint (N.of_nat r.1));
          ("before_base64", Str (base64_encode (slice before r.1 r.2)));
          ("after_base64", Str (base64_encode (slice after r.1 r.2)))].

Definition nullable (v : option Value) : Value := default Null v.

Definition scan_change (before after : bytes) : diff_scan :=
  let maximum := length before `max` length after in
  scan_ranges (S maximum) before after maximum 0 0 [].

Definition tracking_change (before after : Value) : Value :=
  match decoded before, decoded after with
  | Some before_bytes, Some after_bytes =>
      let maximum := length before_bytes `max` length after_bytes in
      let scan := scan_change before_bytes after_bytes in
      Object [("before_sha256", nullable (Json.get "sha256" before));
              ("after_sha256", nullable (Json.get "sha256" after));
              ("changed_ranges",
                Array (range_value before_bytes after_bytes <$> ds_ranges scan));
              ("truncated", Bool (ds_truncated scan || (ds_offset scan <? maximum)%nat))]
  | _, _ => Object [("before", before); ("after", after)]
  end.

(** ** The bounded history of a definition *)

Definition history_maximum (d : TrackingDefinition) : N :=
  N.max 1 (N.min 256 (match d with
    | TrackExpression _ _ _ => 32
    | TrackMemory _ _ _ max_history => max_history end)).

Definition bounded_maximum (d : TrackingDefinition) (current : Value) : nat :=
  let size := match to_vec current with Some b => N.max (lenN b) 1 | None => 1%N end in
  N.to_nat (N.min (history_maximum d) (N.max (1024 * 1024 / size) 1)).

(** Appends and drops from the front while the history is too long. *)
Definition push_history (maximum : nat) (current : Value) (history : list Value) : list Value :=
  drop (S (length history) - maximum) (history ++ [current]).

(** One observation: the new histories, and the changes reported. *)
Definition record_observation (tracking : gmap string TrackingDefinition)
    (acc : gmap string (list Value) * gmap string Value) (observation : string * Value)
    : gmap string (list Value) * gmap string Value :=
  let '(histories, changes) := acc in
  let '(id, current) := observation in
  match tracking !! id with
  | None => acc
  | Some d =>
      let history := default [] (histories !! id) in
      let changes := match List.last history Null, history with
        | _, [] => changes
        | previous, _ =>
            if bool_decide (previous = current) then changes
            else <[id := tracking_change previous current]> changes
        end in
      (<[id := push_history (bounded_maximum d current) current history]> histories, changes)
  end.

Definition record_observations (tracking : gmap string TrackingDefinition)
    (observations : gmap string Value) (histories : gmap string (list Value))
    : gmap string (list Value) * gmap string Value :=
  foldl (record_observation tracking) (histories, ∅) (btree_iter observations).

End difference.

(** ** The difference covers every change *)

Section scan_facts.
Context (before after : bytes).

Definition differ (i : nat) : Prop := before !! i <> after !! i.

Definition covered (ranges : list (nat * nat)) (i : nat) : Prop :=
  exists r, r ∈ ranges /\ r.1 <= i < r.2.

Lemma covered_snoc ranges r i :
  covered (ranges ++ [r]) i <-> covered ranges i \/ r.1 <= i < r.2.
Proof.
  unfold covered. setoid_rewrite elem_of_app. setoid_rewrite list_elem_of_singleton. naive_solver.
Qed.

Lemma differing_spec fuel maximum offset :
  maximum - offset <= fuel -> offset <= maximum ->
  let stop := differing fuel before after maximum offset in
  offset <= stop <= maximum /\ (forall i, offset <= i < stop -> differ i) /\
  (stop < maximum -> ~ differ stop) /\ (offset < maximum -> differ offset -> offset < stop).
Proof.
  revert offset. induction fuel as [|fuel IH]; intros offset Hf Hle; cbn [differing].
  { split_and!; [lia|lia|intros i Hi; lia|lia|lia]. }
  destruct (offset <? maximum)%nat eqn:Hlt; [apply Nat.ltb_lt in Hlt|apply Nat.ltb_ge in Hlt].
  - case_bool_decide as Hd; cbn [andb negb].
    + split_and!; [lia|lia|intros i Hi; lia|by intros _ []|by intros _ []].
    + destruct (IH (S offset)) as (? & Hin & Hout & _); [lia|lia|]. split_and!; try lia; auto.
      intros i Hi. destruct (decide (i = offset)) as [->|]; [done|]. apply Hin. lia.
  - cbn [andb]. split_and!; [lia|lia|intros i Hi; lia|lia|lia].
Qed.

(** What a scan has found when it reaches [offset]. *)
Record scanned (offset emitted : nat) (ranges : list (nat * nat)) : Prop := {
  sc_covered : forall i, i < offset -> differ i <-> covered ranges i;
  sc_before : forall r, r ∈ ranges -> r.1 < r.2 <= offset;
  sc_count : length ranges <= 128;
  sc_bytes : emitted = foldr (fun r n => r.2 - r.1 + n) 0 ranges;
  sc_limit : emitted <= DIFF_BYTES
}.

Lemma sum_app ranges r :
  foldr (fun r n => r.2 - r.1 + n) 0 (ranges ++ [r]) =
  foldr (fun r n => r.2 - r.1 + n) 0 ranges + (r.2 - r.1).
Proof. induction ranges as [|x ranges IH]; cbn in *; lia. Qed.

(** What the whole scan reports. *)
Record scan_result (maximum : nat) (s : diff_scan) : Prop := {
  sr_sound : forall i, covered (ds_ranges s) i -> differ i /\ i < maximum;
  sr_complete : ds_truncated s = false -> forall i, i < ds_offset s -> differ i ->
    covered (ds_ranges s) i;
  sr_offset : ds_offset s <= maximum;
  sr_count : length (ds_ranges s) <= 128;
  sr_bytes : foldr (fun r n => r.2 - r.1 + n) 0 (ds_ranges s) <= DIFF_BYTES
}.

Lemma scanned_result maximum offset emitted ranges :
  offset <= maximum -> scanned offset emitted ranges ->
  scan_result maximum (MkDiffScan ranges offset false).
Proof.
  intros Hle [Hc Hb Hn He Hl]. split; cbn; try done; [| |lia].
  - intros i Hi. assert (i < offset) as Hlt by (destruct Hi as (r & Hr & ?); apply Hb in Hr; lia).
    split; [by apply Hc|lia].
  - intros _ i Hi. by apply Hc.
Qed.

Lemma scan_ranges_spec fuel maximum offset emitted ranges :
  maximum - offset < fuel -> offset <= maximum -> scanned offset emitted ranges ->
  scan_result maximum (scan_ranges fuel before after maximum offset emitted ranges).
Proof.
  revert offset emitted ranges. induction fuel as [|fuel IH]; intros offset emitted ranges Hf Hle Hs;
    [lia|]. cbn [scan_ranges].
  destruct (_ && _ && _) eqn:Hgo; [|by eapply scanned_result].
  rewrite !andb_true_iff, !Nat.ltb_lt in Hgo. destruct Hgo as [[Hlt Hcount] Hem].
  destruct Hs as [Hc Hb Hn He Hl]. case_bool_decide as Hd.
  { apply IH; [lia|lia|]. split; try done.
    - intros i Hi. destruct (decide (i = offset)) as [->|]; [|apply Hc; lia].
      split; [by intros []|]. intros (r & Hr & ?). apply Hb in Hr. lia.
    - intros r Hr. apply Hb in Hr. lia. }
  destruct (differing_spec (maximum - offset) maximum offset) as (Hr & Hin & _ & Hadv); [lia|lia|].
  set (stop := differing _ _ _ _ _) in *. specialize (Hadv Hlt Hd).
  set (vis := stop `min` _).
  assert (offset < vis <= stop) as Hvis by lia.
  assert (vis - offset <= DIFF_BYTES - emitted) as Hfit by lia.
  destruct (vis <? stop)%nat eqn:Hv; [apply Nat.ltb_lt in Hv|apply Nat.ltb_ge in Hv].
  - split; cbn; [|done|lia|rewrite length_app; cbn; lia|rewrite sum_app; cbn; lia].
    intros i [Hi|Hi]%covered_snoc; cbn in *; [|split; [apply Hin|]; lia].
    assert (i < offset) by (destruct Hi as (r & Hrr & ?); apply Hb in Hrr; lia).
    split; [by apply Hc|lia].
  - apply IH; [lia|lia|]. split.
    + intros i Hi. rewrite covered_snoc. cbn. destruct (decide (i < offset)) as [Hio|Hio].
      * rewrite Hc by done. split; [by left|]. intros [|]; [done|lia].
      * split; [intros _; right; lia|]. intros _. apply Hin. lia.
    + intros r [Hrr|Hrr%list_elem_of_singleton]%elem_of_app; [apply Hb in Hrr; lia|].
      subst r. cbn. lia.
    + rewrite length_app. cbn. lia.
    + rewrite sum_app. cbn. lia.
    + lia.
Qed.

Lemma scan_change_spec :
  scan_result (length before `max` length after) (scan_change before after).
Proof.
  apply scan_ranges_spec; [lia|lia|].
  split; [intros i Hi; lia|by intros r ?%elem_of_nil|cbn; lia|done|lia].
Qed.

End scan_facts.

(** A reported difference is exact and bounded: every byte inside a changed
    range differs between the two buffers; when the report is not marked
    truncated every byte that differs lies in a reported range; there are at
    most 128 ranges of at most 4096 bytes together. *)
Theorem tracked_changes_are_exact before after :
  let maximum := length before `max` length after in
  let scan := scan_change before after in
  (forall i, covered (ds_ranges scan) i -> before !! i <> after !! i) /\
  (ds_truncated scan || (ds_offset scan <? maximum)%nat = false ->
   forall i, before !! i <> after !! i -> covered (ds_ranges scan) i) /\
  length (ds_ranges scan) <= 128 /\
  foldr (fun r n => r.2 - r.1 + n) 0 (ds_ranges scan) <= DIFF_BYTES.
Proof.
  cbn zeta. destruct (scan_change_spec before after) as [Hs Hc Ho Hn Hb].
  split_and!; try done; [intros i Hi; by apply Hs|].
  intros [Ht Hoff%Nat.ltb_ge]%orb_false_iff i Hi. apply Hc; [done| |done].
  assert (i < length before `max` length after); [|lia].
  destruct (decide (i < length before `max` length after)); [done|].
  destruct Hi. rewrite !lookup_ge_None_2 by lia. done.
Qed.

(** ** Budgets *)

Definition tracking_ok (limit : N) (tracking : gmap string TrackingDefinition) : Prop :=
  (tracked_memory tracking <= limit)%N /\ size tracking <= 128 /\
  forall id d, tracking !! id = Some d -> tracking_id d = id.

Lemma foldr_add_perm (l l' : list N) : l ≡ₚ l' -> foldr N.add 0%N l = foldr N.add 0%N l'.
Proof. induction 1; cbn; lia. Qed.

Lemma tracked_memory_list tracking :
  tracked_memory tracking = foldr N.add 0%N (requested_memory <$> (map_to_list tracking).*2).
Proof.
  unfold tracked_memory, btree_values. apply foldr_add_perm.
  by rewrite (btree_iter_perm tracking).
Qed.

Lemma tracked_memory_insert id d tracking :
  tracking !! id = None ->
  tracked_memory (<[id := d]> tracking) = (requested_memory d + tracked_memory tracking)%N.
Proof.
  intros Hn. rewrite !tracked_memory_list.
  rewrite (foldr_add_perm _ (requested_memory <$> ((id, d) :: map_to_list tracking).*2));
    [done|]. by rewrite (map_to_list_insert tracking id d Hn).
Qed.

Lemma tracked_memory_delete id d tracking :
  tracking !! id = Some d ->
  tracked_memory tracking = (requested_memory d + tracked_memory (delete id tracking))%N.
Proof.
  intros Hs. rewrite <-(insert_delete_id tracking id d Hs) at 1.
  apply tracked_memory_insert, lookup_delete_eq.
Qed.

Lemma tracking_add limit d tracking :
  (limit < U64_MAX)%N -> tracking_ok limit tracking ->
  tracking_refusal limit d tracking = None ->
  tracking_ok limit (<[tracking_id d := d]> tracking).
Proof.
  unfold tracking_refusal. intros Hmax (Hm & Hs & Hk) H.
  destruct (_ <? _)%N eqn:Hb; [done|apply N.ltb_ge in Hb].
  destruct (128 <=? size tracking)%nat eqn:Hz; [done|apply Nat.leb_gt in Hz].
  case_bool_decide as Hn; [done|]. apply eq_None_not_Some in Hn.
  unfold u64_saturating_add in Hb. split_and!.
  - rewrite tracked_memory_insert by done. lia.
  - rewrite map_size_insert_None by done. lia.
  - intros id d'. destruct (decide (id = tracking_id d)) as [->|].
    + rewrite lookup_insert_eq. by intros [= <-].
    + rewrite lookup_insert_ne by done. apply Hk.
Qed.

Lemma tracking_remove limit id tracking :
  tracking_ok limit tracking -> tracking_ok limit (delete id tracking).
Proof.
  intros (Hm & Hs & Hk). destruct (tracking !! id) as [d|] eqn:E.
  - split_and!.
    + pose proof (tracked_memory_delete id d tracking E). lia.
    + rewrite map_size_delete_Some by (by eexists). lia.
    + intros id' d' [_ H]%lookup_delete_Some. by apply Hk.
  - by rewrite delete_id.
Qed.

(** A history never exceeds its bound. *)
Lemma push_history_bounded maximum current history :
  0 < maximum -> length (push_history maximum current history) <= maximum.
Proof. intros H. unfold push_history. rewrite length_drop, length_app. cbn. lia. Qed.

Lemma bounded_maximum_pos to_vec d v : 0 < bounded_maximum to_vec d v <= 256.
Proof. unfold bounded_maximum, history_maximum. lia. Qed.
