(* ===== verification/Requests.v ===== *)
(** * Requests: what the actor does with each request, and its loop
    ([crates/gdb-ai-core/src/session/actor.rs])

    Every request of a session handle, the answer it receives and whether the
    worker ends; the worker's loop over all its inputs and its epilogue. *)

From S2P Require Import Prelude Text MiAst Json Errors Domain Reducer Backend Normalize Ring LiveState Journal Policy Protocol Effects Actor Commands Tracking.

Inductive OutputRing := InferiorRing | TargetRing | ConsoleRing | LogRing.

Inductive WorkerRequest :=
| Command (command : MiCommand) (operation : option OperationId) (deadline : N)
| Transaction (before : list MiCommand) (command : MiCommand) (after : list MiCommand)
    (operation : option OperationId) (deadline : N)
| SafeEvaluate (commands : list MiCommand) (operation : option OperationId) (deadline : N)
| RecordEvent (event : Event.DomainEvent)
| RegisterPendingModuleBreakpoint (breakpoint : PendingModuleBreakpoint)
| GetOperation (operation_id : string)
| FlushJournal
| RefreshTargetCapabilities (operation : option OperationId) (deadline : N)
| RegisterValue (binding : ValueBinding)
| GetValue (value_id : string)
| RemoveValue (value_id : string)
| AddTracking (definition : TrackingDefinition)
| RemoveTracking (tracking_id : string)
| ListTracking
| RecordTracking (observations : gmap string Value) (expected_stop_id : StopId)
    (expected_execution_epoch : N) (operation : option OperationId)
| CommitSnapshot (snapshot : Value) (expected_stop_id : StopId) (expected_execution_epoch : N)
    (partial publish_snapshot : bool) (operation : option OperationId)
| ReadOutput (ring : OutputRing) (after_offset : N) (max_bytes : nat)
| WriteInferior (data : bytes) (eof : bool) (deadline : N)
| ResizeInferior (rows columns : N).

(** What the response channel of a request receives. *)
Inductive Answer :=
| AReply (result : Result Error CommandReply)
| AReplies (result : Result Error (list (Result Error CommandReply)))
| AUnit (result : Result Error unit)
| AOperation (result : Result Error OperationRecord)
| ACapabilities (result : Result Error (gset string * gmap string Capability))
| AValue (result : Result Error ValueBinding)
| ATracking (result : Result Error TrackingDefinition)
| ATrackings (definitions : list TrackingDefinition)
| AChanges (result : Result Error (gmap string Value))
| ASnapshot (result : Result Error Value)
| AOutput (read : RingRead)
| AWritten (result : Result Error N).

(** ** Capabilities of the target *)

Definition extract_string_list (record : MiRecord) (name : string) : gset string :=
  match find (record_results record) name with
  | Some (ValueList items) => list_to_set (omap MiAst.as_str items)
  | _ => ∅
  end.

(** ** Value objects *)

Fixpoint contains_bytes (needle haystack : bytes) : bool :=
  starts_with needle haystack ||
  match haystack with [] => false | _ :: rest => contains_bytes needle rest end.

Definition register_value (binding : ValueBinding) (bindings : gmap string ValueBinding)
    : Result Error (gmap string ValueBinding) :=
  if (1024 <=? size bindings)%nat then
    Err (Error_new Code.OutputLimit "session value-object limit reached")
  else if bool_decide (is_Some (bindings !! vb_value_id binding)) then
    Err (Error_new Code.AlreadyExists "value object already exists")
  else Ok (<[vb_value_id binding := binding]> bindings).

Definition get_value (value_id : string) (s : SessionState) (bindings : gmap string ValueBinding)
    : Result Error ValueBinding :=
  match bindings !! value_id with
  | Some binding => Ok binding
  | None =>
      let id := bytes_of value_id in
      if starts_with (bytes_of "v") id &&
         match stop_id s with
         | None => true
         | Some stop => negb (contains_bytes (bytes_of stop) id)
         end
      then Err (Error_new Code.StaleContext "value object belongs to an earlier stop")
      else Err (Error_new Code.NotFound "value object not found")
  end.

(** [snapshot[key] = v]: panics on a value that is neither object nor null. *)
Definition index_set (key : string) (v : Value) (target : Value) : option Value :=
  match target with
  | Object fields => Some (Object (set_field key v fields))
  | Null => Some (Object [(key, v)])
  | _ => None
  end.

Section requests.
#[local] Set Default Proof Using "Type".
Context (encode : JournalEntry -> bytes) (base64_encode : bytes -> string)
        (base64_decode : string -> option bytes) (to_vec : Value -> option bytes)
        (value_of_event : Event.DomainEvent -> Value)
        (value_of_state : SessionState -> Value)
        (value_of_frame : FrameSummary -> Value)
        (value_of_record : MiRecord -> Value)
        (world : nat -> answers).

Abbreviation apply' :=
  (worker_apply_event encode value_of_event value_of_state value_of_frame world).
Abbreviation close' := (close encode value_of_event value_of_state value_of_frame world).
Abbreviation store_result' := (store_result apply').
Abbreviation with_commands f := (f encode base64_encode value_of_event value_of_state
  value_of_frame value_of_record world) (only parsing).

(** ** The requests that do not run commands *)

Definition get_operation (operation_id : string) : actor OperationRecord :=
  w ← gets id;
  lift (ok_or (operations w !! operation_id)
    (Error_new Code.NotFound "operation not found in this session")).

(** Whether the breakpoint was accepted. *)
Definition register_module_breakpoint (breakpoint : PendingModuleBreakpoint) : actor bool :=
  w ← gets id;
  let unsupported := bool_decide
    (cap_status <$> capabilities w !! "module_offset_rebinding" = Some Cap.Unsupported) in
  let pending := match breakpoints (borrow (state w)) !! pmb_backend_number breakpoint with
    | Some b => bp_pending b | None => false end in
  if unsupported && pending then mret false
  else
    modify (fun w => w <| pending_module_breakpoints :=
      <[pmb_backend_number breakpoint := breakpoint]> (pending_module_breakpoints w) |>) ;;
    modify (fun w => w <| module_rebind_needed := true |>) ;;
    mret true.

Definition remove_value (value_id : string) : actor ValueBinding :=
  w ← gets id;
  match values w !! value_id with
  | Some binding => modify (fun w => w <| values := delete value_id (values w) |>) ;; mret binding
  | None => fail (Error_new Code.NotFound "value object not found")
  end.

Definition add_tracking (d : TrackingDefinition) : actor unit :=
  w ← gets id;
  match tracking_refusal (tracking_memory_limit w) d (tracking w) with
  | Some error => fail error
  | None =>
      (if store_failed w then mret tt else stored ← ask world a_store; store_result' stored) ;;
      modify (fun w => w <| tracking := <[Actor.tracking_id d := d]> (tracking w) |>)
  end.

Definition remove_tracking (tracking_id : string) : actor TrackingDefinition :=
  w ← gets id;
  match tracking w !! tracking_id with
  | None => fail (Error_new Code.NotFound "tracking definition not found")
  | Some d =>
      when (negb (store_failed w)) (removed ← ask world a_store; store_result' removed) ;;
      modify (fun w => w <| tracking := delete tracking_id (tracking w) |>) ;;
      modify (fun w => w <| tracking_history := delete tracking_id (tracking_history w) |>) ;;
      mret d
  end.

(** The context a queued capture was made in. *)
Definition matches_context (expected_stop_id : StopId) (expected_execution_epoch : N)
    (s : SessionState) : bool :=
  bool_decide (stop_id s = Some expected_stop_id) &&
  (execution_epoch s =? expected_execution_epoch)%N.

Definition record_tracking (observations : gmap string Value) (expected_stop_id : StopId)
    (expected_execution_epoch : N) (operation : option OperationId)
    : actor (gmap string Value) :=
  require_active world operation ;;
  w ← gets id;
  if negb (matches_context expected_stop_id expected_execution_epoch (borrow (state w)))
  then fail (Error_new Code.StaleContext "target stop changed before tracking commit")
  else
    let '(histories, changes) :=
      record_observations base64_encode base64_decode to_vec (tracking w) observations
        (tracking_history w) in
    modify (fun w => w <| tracking_history := histories |>) ;;
    mret changes.

Definition commit_snapshot (snapshot : Value) (expected_stop_id : StopId)
    (expected_execution_epoch : N) (partial publish_snapshot : bool)
    (operation : option OperationId) : actor Value :=
  require_active world operation ;;
  w ← gets id;
  if negb (matches_context expected_stop_id expected_execution_epoch (borrow (state w)))
  then fail (Error_new Code.StaleContext "target stop changed before snapshot commit")
  else
    snapshot ← unwrap (index_set "stop_id" (Str expected_stop_id) snapshot);
    snapshot ← unwrap (index_set "execution_epoch" (uint expected_execution_epoch) snapshot);
    snapshot ← unwrap (index_set "captured_revision" (uint (revision (borrow (state w)))) snapshot);
    snapshot ← unwrap (index_set "partial" (Bool partial) snapshot);
    snapshot ← store_snapshot_value encode world apply' snapshot;
    snapshot_id ← lift (observation_id snapshot);
    when publish_snapshot
      (apply' (Event.SnapshotReady expected_stop_id (Some snapshot_id) partial)) ;;
    mret snapshot.

Definition read_output (ring : OutputRing) (after_offset : N) (max_bytes : nat)
    : actor RingRead :=
  w ← gets id;
  cut ← ask world a_cut;
  match ring with
  | InferiorRing =>
      inferior ← ask world a_inferior_output;
      mret (Ring.read cut inferior after_offset max_bytes)
  | TargetRing => mret (Ring.read cut (target_output w) after_offset max_bytes)
  | ConsoleRing => mret (Ring.read cut (console_output w) after_offset max_bytes)
  | LogRing => mret (Ring.read cut (log_output w) after_offset max_bytes)
  end.

Definition write_inferior (data : bytes) : actor N :=
  _ ← journaled world apply' (fun o => append_base64 encode o "inferior.input"
                                         (base64_encode data));
  written ← ask world a_write_inferior;
  lift written.

Definition refresh_target_capabilities (operation : option OperationId) (deadline : N)
    : actor (gset string * gmap string Capability) :=
  require_known_outcome_name (bytes_of "-list-target-features") ;;
  with_commands restore_deferred_commands deadline ;;
  c ← lift (MiCommand_new (bytes_of "-list-target-features"));
  reply ← with_commands execute_operation_until c operation deadline;
  let features := extract_string_list (cr_record reply) "features" in
  let reverse := if bool_decide ("reverse" ∈ features) then Cap.Conditional
                 else Cap.Unsupported in
  modify (fun w => w <| target_features := features |>) ;;
  modify (fun w => w <| capabilities :=
    set_capability_at (revision (borrow (state w))) "reverse" reverse (capabilities w) |>) ;;
  gets (fun w => (target_features w, capabilities w)).

(** ** Dispatch *)

(** The worker ends with its first fatal failure. *)
Definition finish_request : actor bool :=
  failed ← gets fatal;
  when failed (_ ← ask world a_shutdown; mret tt) ;;
  mret (failed : bool).

Definition serve {A} (wrap : Result Error A -> Answer) (m : actor A) : actor (Answer * bool) :=
  result ← attempt m;
  ends ← finish_request;
  mret (wrap result, ends).

(** A request whose preparation fails is answered and nothing else happens. *)
Definition serve_prepared {A} (wrap : Result Error A -> Answer) (prepare : actor unit)
    (m : actor A) : actor (Answer * bool) :=
  prepared ← attempt prepare;
  match prepared with
  | Err error => mret (wrap (Err error), false)
  | Ok _ => serve wrap m
  end.

Definition handle_request (request : WorkerRequest) : actor (Answer * bool) :=
  match request with
  | Command c operation deadline =>
      serve_prepared AReply (with_commands prepare_command c deadline)
        (with_commands run_command c operation deadline)
  | Transaction before c after operation deadline =>
      serve_prepared AReply (with_commands prepare_command c deadline)
        (with_commands run_transaction before c after operation deadline)
  | SafeEvaluate commands operation deadline =>
      serve_prepared AReplies (with_commands prepare_safe commands deadline)
        (with_commands run_safe_evaluate commands operation deadline)
  | RecordEvent event => serve AUnit (apply' event)
  | RegisterPendingModuleBreakpoint breakpoint =>
      registered ← register_module_breakpoint breakpoint;
      if (registered : bool) then serve AUnit (mret tt)
      else mret (AUnit (Err (Error_new Code.CapabilityMissing
        "GDB 9/10 require the module to be mapped at a stopped target")), false)
  | GetOperation operation_id => serve AOperation (get_operation operation_id)
  | FlushJournal =>
      serve AUnit (flush_journal encode value_of_event value_of_state value_of_frame world)
  | RefreshTargetCapabilities operation deadline =>
      serve ACapabilities (
        result ← attempt (refresh_target_capabilities operation deadline);
        with_commands cleanup_one_stale_value ;;
        lift result)
  | RegisterValue binding =>
      serve AUnit (
        registered ← gets (fun w => register_value binding (values w));
        bindings ← lift registered;
        modify (fun w => w <| values := bindings |>))
  | GetValue value_id =>
      serve AValue (
        found ← gets (fun w => get_value value_id (borrow (state w)) (values w));
        lift found)
  | RemoveValue value_id => serve AValue (remove_value value_id)
  | AddTracking d => serve AUnit (add_tracking d)
  | RemoveTracking tracking_id => serve ATracking (remove_tracking tracking_id)
  | ListTracking =>
      serve (fun r => ATrackings (match r with Ok ds => ds | Err _ => [] end))
        (gets (fun w => btree_values (tracking w)))
  | RecordTracking observations stop epoch operation =>
      serve AChanges (record_tracking observations stop epoch operation)
  | CommitSnapshot snapshot stop epoch partial publish_snapshot operation =>
      serve ASnapshot (commit_snapshot snapshot stop epoch partial publish_snapshot operation)
  | ReadOutput ring after_offset max_bytes =>
      read ← read_output ring after_offset max_bytes;
      ends ← finish_request;
      mret (AOutput read, ends)
  | WriteInferior data eof deadline => serve AWritten (write_inferior data)
  | ResizeInferior rows columns =>
      serve AUnit (answer ← ask world a_resize; from_option_error answer)
  end.

(** ** The loop *)

(** What the [select!] of the idle worker receives. *)
Inductive WorkerInput :=
| IFlush
| IControl (control : option ControlRequest)
| IRequest (request : option WorkerRequest)
| IBackend (input : option BackendInput)
| IFallback (now : N).

Definition shut_down : actor unit := _ ← ask world a_shutdown; mret tt.

Definition rebind_when_due : actor unit :=
  w ← gets id;
  when (module_rebind_needed w && bool_decide (timed_out_tokens w = ∅) &&
        negb (reconciliation_required (borrow (state w))))
    (modify (fun w => w <| module_rebind_needed := false |>) ;;
     _ ← attempt (with_commands rebind_pending_module_breakpoints);
     mret tt).

(** One input of the idle worker; whether the loop ends. *)
Definition serve_input (input : WorkerInput) : actor bool :=
  match input with
  | IFlush =>
      flushed ← attempt (flush_journal encode value_of_event value_of_state value_of_frame world);
      match flushed with
      | Ok _ => mret false
      | Err _ => mark_failed ;; shut_down ;; mret true
      end
  | IControl control =>
      open ← gets controls_open;
      if (open : bool) then
        match control with
        | Some control => with_commands handle_control control
        | None => modify (fun w => w <| controls_open := false |>) ;; mret false
        end
      else mret false
  | IRequest (Some request) =>
      answer ← handle_request request;
      mret answer.2
  | IRequest None =>
      _ ← attempt close';
      mret true
  | IBackend (Some input) =>
      idle_input encode base64_encode value_of_event value_of_state value_of_frame world input ;;
      failed ← gets fatal;
      when failed shut_down ;;
      mret (failed : bool)
  | IBackend None =>
      _ ← attempt (apply' (Event.BackendExited None));
      mark_failed ;;
      shut_down ;;
      mret true
  | IFallback now =>
      escalated ← attempt (escalate_acknowledged_interrupt world now);
      match escalated with
      | Ok _ => mret false
      | Err _ => mark_failed ;; mret false
      end
  end.

(** Each turn of the loop: what its commands will receive while in flight, and
    the input it serves; whether the loop ended. *)
Fixpoint run_loop (turns : list (list (N * ExecutionInput) * WorkerInput)) : actor bool :=
  match turns with
  | [] => mret false
  | (inputs, input) :: rest =>
      modify (fun w => w <| script := inputs |>) ;;
      rebind_when_due ;;
      ends ← serve_input input;
      if (ends : bool) then mret true else run_loop rest
  end.

(** After the loop. *)
Definition run_end : actor unit :=
  finalized ← gets output_evidence_finalized;
  when (negb finalized) (
    shut_down ;;
    stored ← attempt (finalize_output_evidence encode value_of_event value_of_state
                        value_of_frame world);
    when (negb (is_ok stored)) mark_failed) ;;
  failed ← gets fatal;
  (if (failed : bool) then _ ← ask world a_store; mret tt
   else _ ← attempt (checkpoint encode value_of_state world apply' false); mret tt) ;;
  _ ← journaling world flush;
  mret tt.

(** The whole life of a worker; after the last turn every handle is dropped. *)
Definition run (turns : list (list (N * ExecutionInput) * WorkerInput)) : actor unit :=
  ended ← run_loop turns;
  when (negb ended) (_ ← serve_input (IRequest None); mret tt) ;;
  run_end.

End requests.
