(* ===== verification/Bootstrap.v ===== *)
(** * Bootstrap: how a worker comes to life ([crates/gdb-ai-core/src/session/actor.rs])

    GDB is started with the preferred MI version and, when that fails, with
    the fallback; the handshake fixes GDB's settings and probes what it can
    do; an optional extension is checked and loaded.  Process creation, files
    and SHA-256 are parameters. *)

From S2P Require Import Prelude Text MiAst Json Errors Domain Reducer Backend Normalize Ring LiveState Journal Policy Protocol Effects Actor Commands Requests.

(** One MI version: whether GDB could be started, and what it says. *)
Record Attempt := MkAttempt {
  at_version : string;
  at_spawn : Result Error unit;
  at_inputs : list BackendInput;
  at_ending : startup_end
}.

(** The configured extension: its path, what reading it gives (the canonical
    path as printed, and the contents) and the hash it must have. *)
Record Extension := MkExtension {
  ext_absolute : bool;
  ext_file : Result Error (bytes * bytes);
  ext_sha256 : option string
}.

(** ** Capabilities *)

Definition capability (status : Cap.CapabilityStatus) (scope : string)
    (constraints : list string) (source : string) (revision : N) : Capability :=
  MkCapability status scope constraints source revision.

Definition mutates (p : Profile) : bool :=
  match p with LabMutation | RawAdmin => true | _ => false end.

Definition initial_capabilities (p : Profile) (filesystem_hardened network_isolated : bool)
    : gmap string Capability :=
  let conditional (b : bool) := if b then Cap.Conditional else Cap.Unsupported in
  let supported (b : bool) := if b then Cap.Supported else Cap.Unsupported in
  list_to_map [
    ("async_execution", capability Cap.Unknown "backend" [] "handshake" 0);
    ("non_stop", capability Cap.Unsupported "session" ["version 1 is all-stop"]
       "configuration" 0);
    ("inferior_tty", capability Cap.Supported "session" [] "pty" 0);
    ("memory_read", capability Cap.Unknown "current_target"
       ["target must be stopped; volatile ranges may have target-defined effects"] "probe" 0);
    ("memory_write", capability Cap.Unknown "current_target"
       ["requires lab_mutation policy and stopped target"] "probe" 0);
    ("watchpoints", capability Cap.Unknown "current_target"
       ["hardware resources are target-dependent"] "probe" 0);
    ("module_offset_rebinding", capability Cap.Unknown "backend"
       ["GDB 9/10 require a stopped target with the module mapped; automatic rebinding requires GDB 11 or newer"]
       "gdb-version" 0);
    ("reverse", capability Cap.Unknown "current_target"
       ["target must advertise reverse execution"] "target-features" 0);
    ("execution", capability (conditional (executes p)) "current_target"
       ["requires a live target"] "policy" 0);
    ("target_mutation", capability (conditional (mutates p)) "current_target"
       ["requires lab_mutation or raw_admin"] "policy" 0);
    ("custom_extension", capability Cap.Unsupported "backend"
       ["optional trusted extension is not configured"] "configuration" 0);
    ("thread_scoped_commands", capability Cap.Supported "backend" [] "mi" 0);
    ("hardening.filesystem", capability (supported filesystem_hardened) "session"
       ["does not provide PID, user, cgroup, or seccomp isolation"] "bubblewrap" 0);
    ("hardening.network_namespace", capability (supported network_isolated) "session" []
       "bubblewrap" 0);
    ("sandbox.seccomp", capability Cap.Unsupported "deployment"
       ["no portable GDB seccomp profile is enabled"] "runtime" 0)].

Definition mi_command_exists (record : MiRecord) : bool :=
  bool_decide (
    (command ← MiAst.find (record_results record) "command";
     results ← value_results command;
     find_str results "exists") = Some "true").

(** The first component of the last word of the version line. *)
Definition gdb_major (output : string) : option N :=
  line ← List.find (starts_with_chars (chars_of "GNU gdb ")) (lines (chars_of output));
  version ← last (split_whitespace line);
  let major := match split_once_char 46 version with
               | Some (major, _) => major | None => version end in
  from_str_radix_chars U32_MAX 10 major.

Definition module_rebinding_status (output : string) : Cap.CapabilityStatus :=
  match gdb_major output with
  | Some major => if (major <=? 10)%N then Cap.Unsupported else Cap.Conditional
  | None => Cap.Unknown
  end.

Definition command_status (commands : gset string) (command : string) : Cap.CapabilityStatus :=
  if bool_decide (command ∈ commands) then Cap.Conditional else Cap.Unsupported.

(** ** The settings of the handshake *)

Definition handshake_settings : list (list string) :=
  [["mi-async"; "on"]; ["non-stop"; "off"]; ["pagination"; "off"]; ["confirm"; "off"];
   ["style"; "enabled"; "off"]; ["print"; "elements"; "200"]; ["may-call-functions"; "off"]].

Definition guarded_settings : list string :=
  ["may-write-memory"; "may-write-registers"; "may-insert-breakpoints"; "may-interrupt"].

Definition probed_commands : list string :=
  ["-data-read-memory-bytes"; "-data-write-memory-bytes"; "-data-disassemble"; "-break-watch";
   "-thread-info"].

Definition to_ascii_lowercase (b : bytes) : bytes :=
  map_chars (fun c => if is_ascii_upper c then ascii_of_N (byte_N c + 32) else c) b.

Definition eq_ignore_ascii_case (a b : string) : bool :=
  bool_decide (to_ascii_lowercase (bytes_of a) = to_ascii_lowercase (bytes_of b)).

Section bootstrap.
#[local] Set Default Proof Using "Type".
Context (encode : JournalEntry -> bytes) (base64_encode : bytes -> string)
        (sha256_hex : bytes -> string)
        (value_of_event : Event.DomainEvent -> Value)
        (value_of_state : SessionState -> Value)
        (value_of_frame : FrameSummary -> Value)
        (value_of_record : MiRecord -> Value)
        (world : nat -> answers).

Abbreviation apply' :=
  (worker_apply_event encode value_of_event value_of_state value_of_frame world).
Abbreviation with_commands f := (f encode base64_encode value_of_event value_of_state
  value_of_frame value_of_record world) (only parsing).

(** [execute]: with the configured timeout. *)
Definition execute (c : Result Error MiCommand) : actor CommandReply :=
  c ← lift c;
  now ← ask world a_now;
  timeout ← gets command_timeout_ms;
  with_commands execute_until c (now + N.max timeout 1)%N.

Definition set_capability (name : string) (status : Cap.CapabilityStatus) : actor unit :=
  modify (fun w => w <| capabilities :=
    set_capability_at (revision (borrow (state w))) name status (capabilities w) |>).

Definition note_command (command : string) (reply : CommandReply) : actor unit :=
  when (mi_command_exists (cr_record reply))
    (modify (fun w => w <| mi_commands := {[command]} ∪ mi_commands w |>)).

Definition probe_command (command : string) : Result Error MiCommand :=
  c ← MiCommand_new (bytes_of "-info-gdb-mi-command");
  Ok (string_argument c (bytes_of command)).

Fixpoint execute_all (commands : list (Result Error MiCommand)) : actor unit :=
  match commands with
  | [] => mret tt
  | c :: rest => _ ← execute c; execute_all rest
  end.

Fixpoint probe_all (commands : list string) : actor unit :=
  match commands with
  | [] => mret tt
  | command :: rest =>
      reply ← execute (probe_command command);
      note_command command reply ;;
      probe_all rest
  end.

(** GDB's own correction of breakpoint scripts, where MI3 needs it. *)
Definition fix_breakpoint_scripts : actor unit :=
  let command := "-fix-breakpoint-script-output" in
  reply ← execute (probe_command command);
  if mi_command_exists (cr_record reply) then
    _ ← execute (MiCommand_new (bytes_of command));
    modify (fun w => w <| mi_commands := {[command]} ∪ mi_commands w |>)
  else mret tt.

Definition version_text (reply : CommandReply) : string :=
  default "" (
    console ← assoc "console" (command_output base64_encode (cr_stream_records reply)
                                  (cr_stream_truncated reply));
    text ← Json.get "text" console;
    Json.as_str text).

Definition handshake (mi_version : string) (pty_path : bytes) : actor unit :=
  when (bool_decide (mi_version = "mi3")) fix_breakpoint_scripts ;;
  execute_all ((fun arguments => build_command "-gdb-set" (bytes_of <$> arguments)) <$>
                 handshake_settings) ;;
  p ← gets profile;
  execute_all ((fun setting => build_command "-gdb-set"
                  [bytes_of setting; bytes_of (if executes p then "on" else "off")]) <$>
                 guarded_settings) ;;
  reply ← execute (MiCommand_new (bytes_of "-list-features"));
  modify (fun w => w <| features := extract_string_list (cr_record reply) "features" |>) ;;
  set_capability "async_execution" Cap.Supported ;;
  set_capability "thread_scoped_commands" Cap.Supported ;;
  version ← execute (MiCommand_new (bytes_of "-gdb-version"));
  set_capability "module_offset_rebinding" (module_rebinding_status (version_text version)) ;;
  probe_all probed_commands ;;
  commands ← gets mi_commands;
  set_capability "memory_read" (command_status commands "-data-read-memory-bytes") ;;
  set_capability "memory_write"
    (if mutates p then command_status commands "-data-write-memory-bytes"
     else Cap.Unsupported) ;;
  set_capability "watchpoints" (command_status commands "-break-watch") ;;
  _ ← execute (c ← MiCommand_new (bytes_of "-inferior-tty-set"); Ok (string_argument c pty_path));
  mret tt.

Definition add_limitation (text : string) : actor unit :=
  modify (fun w => w <| capability_limitations := capability_limitations w ++ [text] |>).

Definition load_extension (extension : option Extension) : actor unit :=
  match extension with
  | None => mret tt
  | Some x =>
      (if ext_absolute x then mret tt
       else fail (Error_new Code.InvalidArgument
              "gdb.python_extension must be an absolute path")) ;;
      file ← lift (ext_file x);
      expected ← lift (ok_or (ext_sha256 x) (Error_new Code.PolicyDenied
        "configured Python extension requires python_extension_sha256"));
      (if eq_ignore_ascii_case (sha256_hex file.2) expected then mret tt
       else fail (Error_new Code.PolicyDenied
              "configured Python extension hash does not match")) ;;
      loaded ← attempt (execute (
        c ← build_command "-interpreter-exec" [bytes_of "console"];
        Ok (string_argument c (bytes_of "source " ++ file.1))));
      match loaded with
      | Err error =>
          add_limitation ("trusted Python extension failed to load: " +:+ error_display error)
      | Ok _ =>
          reply ← attempt (execute (MiCommand_new (bytes_of "-gdb-ai-capabilities")));
          match reply with
          | Ok reply =>
              if bool_decide (find_str (record_results (cr_record reply)) "protocol" = Some "1")
              then set_capability "custom_extension" Cap.Supported
              else add_limitation "trusted Python extension protocol mismatch"
          | Err error =>
              add_limitation ("trusted Python extension probe failed: " +:+ error_display error)
          end
      end
  end.

(** The first version whose GDB reaches its prompt. *)
Fixpoint select_backend (attempts : list Attempt) (last_error : option Error) : actor string :=
  match attempts with
  | [] => fail (default (Error_new Code.GdbExited "GDB startup failed") last_error)
  | a :: rest =>
      lift (at_spawn a) ;;
      prompted ← attempt (wait_for_prompt encode base64_encode value_of_event world
                            (at_inputs a) (at_ending a));
      match prompted with
      | Ok _ => mret (at_version a)
      | Err error => _ ← ask world a_shutdown; select_backend rest (Some error)
      end
  end.

Definition bootstrap (attempts : list Attempt) (hardened isolated : bool) (pty_path : bytes)
    (extension : option Extension) : actor unit :=
  version ← select_backend attempts None;
  modify (fun w => w <| capabilities := initial_capabilities (profile w) hardened isolated |>) ;;
  modify (fun w => w <| capability_limitations :=
    ["untrusted targets require an external container or VM supervisor for PID, user, cgroup, and seccomp isolation"] |>) ;;
  apply' Event.BackendStarted ;;
  handshake version pty_path ;;
  load_extension extension ;;
  checkpoint encode value_of_state world apply' true.

End bootstrap.
