(* ===== verification/CommandFence.v ===== *)
(** * CommandFence: what the actor writes to GDB

    An abstract machine of the MI channel: tokens are issued in order, a token
    can be lost when its command times out and learnt when its result arrives
    late, and while a token is lost nothing but an interrupt may be written.
    Every computation of the command layer is a path of this machine and a
    path of the reducer. *)

From S2P Require Import Prelude Text MiAst Json Errors Domain Reducer ReducerInv Backend Normalize Ring LiveState Journal Policy Protocol Effects Actor ActorFrame Commands Tracking Requests.

(** ** The abstract machine *)

Module Fence.

Record t := MkFence {
  unknown : gset N;
  next : N;
  written : list bytes
}.

Inductive step : t -> t -> Prop :=
| Issue c (write : bool) f :
    unknown f = ∅ \/ command_name c = bytes_of "-exec-interrupt" ->
    next f <> U64_MAX ->
    step f (MkFence (unknown f) (next f + 1)
              (if write then written f ++ [encoded c (next f)] else written f))
| Lose token f : step f (MkFence ({[token]} ∪ unknown f) (next f) (written f))
| Learn token f : step f (MkFence (unknown f ∖ {[token]}) (next f) (written f)).

(** Tokens on the wire are fresh and increasing. *)
Lemma path_tokens f f' :
  rtc step f f' ->
  (next f <= next f')%N /\
  exists issued : list (MiCommand * N),
    written f' = written f ++ ((fun p => encoded p.1 p.2) <$> issued) /\
    Sorted N.lt issued.*2 /\
    Forall (fun t => next f <= t < next f')%N issued.*2.
Proof.
  induction 1 as [f|f1 f2 f3 Hs _ (Hle & issued & Hw & Hso & Hall)].
  { split; [lia|]. exists []. rewrite app_nil_r. by split_and!. }
  destruct Hs as [c write f Hg Hn|t f|t f]; cbn in *; [|split; [lia|by exists issued]..].
  split; [lia|]. destruct write.
  - exists ((c, next f) :: issued). cbn. rewrite Hw, <-app_assoc. split_and!; [done| |].
    + constructor; [done|]. destruct issued as [|p issued]; constructor.
      apply Forall_cons in Hall as [? _]. lia.
    + constructor; [lia|]. eapply Forall_impl; [exact Hall|]. cbn. lia.
  - exists issued. split_and!; [done..|]. eapply Forall_impl; [exact Hall|]. cbn. lia.
Qed.

(** While an outcome is unknown only interrupts are written. *)
Lemma step_fenced f f' :
  step f f' -> unknown f <> ∅ ->
  written f' = written f \/ exists c, command_name c = bytes_of "-exec-interrupt" /\
    written f' = written f ++ [encoded c (next f)].
Proof.
  intros [c [] f0 [Hg|Hg] Hn|t f0|t f0] Hu; cbn in *; try done; auto. right. by exists c.
Qed.

End Fence.

(** ** The actor's view of it *)

Definition fence (w : Worker) : Fence.t :=
  Fence.MkFence (timed_out_tokens w) (next_token w) (sent w).

(** The limit of stream records and the profile are fixed. *)
Definition settings (w : Worker) := (stream_limit w, profile w).
Definition channel_view (w : Worker) := (fence w, borrow (state w), settings w).
Definition channel_move : relation (Fence.t * SessionState * (N * Profile)) :=
  prod_relation (prod_relation (rtc Fence.step) (rtc step)) eq.

#[export] Instance channel_move_preorder : PreOrder channel_move.
Proof. unfold channel_move. split; apply _. Qed.

Abbreviation speaks := (stays channel_view channel_move).

Lemma acts_speaks {A} (m : actor A) : acts m -> speaks m.
Proof.
  apply stays_weaken. intros w w' H. destruct (actor_move_fields _ _ H) as (_ & Et & En & Es & El).
  pose proof (actor_move_profile _ _ H) as Ep. destruct H as [[_ H] _].
  split; [split; [|exact H]|unfold channel_view, settings; cbn; by rewrite El, Ep].
  unfold channel_view, fence. cbn. by rewrite Et, En, Es.
Qed.

Lemma speaks_modify f x :
  (forall w, fence (f w) = x (fence w) /\ state (f w) = state w /\
     settings (f w) = settings w) ->
  (forall a, rtc Fence.step a (x a)) -> speaks (modify f).
Proof.
  intros Hf Hx w. destruct (Hf w) as (E & Es & El). split; [split|exact (eq_sym El)].
  - change (rtc Fence.step (fence w) (fence (f w))). rewrite E. apply Hx.
  - change (rtc step (borrow (state w)) (borrow (state (f w)))). by rewrite Es.
Qed.

(** Structural steps; the operations of the actor come from [stays]. *)
Create HintDb speaks discriminated.

Ltac speak_step :=
  lazymatch goal with
  | |- stays _ _ ?m =>
      lazymatch m with
      | mret _ => apply stays_ret; apply _
      | gets _ => apply stays_gets; apply _
      | fail _ => apply stays_fail; apply _
      | lift _ => apply stays_lift; apply _
      | unwrap _ => apply stays_unwrap; apply _
      | out_of_fuel => apply stays_fuel; apply _
      | ask _ _ => apply acts_speaks, stays_ask
      | attempt _ => apply stays_attempt
      | when _ _ => apply stays_when; [apply _|]
      | mbind _ _ => apply stays_bind; [apply _| |intros ?]
      | match ?x with _ => _ end => destruct x
      | worker_apply_event _ _ _ _ _ _ => apply acts_speaks, stays_apply
      | modify _ => first
          [ apply stays_modify; [apply _|]; intros ?;
              first [reflexivity | solve [repeat case_match; reflexivity]]
          | solve [auto with speaks] | apply acts_speaks; solve [auto with stays] ]
      | _ => first [solve [auto with speaks] | apply acts_speaks; solve [auto with stays]]
      end
  end.

Ltac speak := repeat speak_step.

Section speech.
#[local] Set Default Proof Using "Type".
Context (encode : JournalEntry -> bytes) (base64_encode : bytes -> string)
        (base64_decode : string -> option bytes) (to_vec : Value -> option bytes)
        (value_of_event : Event.DomainEvent -> Value)
        (value_of_state : SessionState -> Value)
        (value_of_frame : FrameSummary -> Value)
        (value_of_record : MiRecord -> Value)
        (world : nat -> answers).

Abbreviation with_commands f := (f encode base64_encode value_of_event value_of_state
  value_of_frame value_of_record world) (only parsing).

Lemma speaks_require_name name : speaks (require_known_outcome_name name).
Proof. unfold require_known_outcome_name. speak. Qed.

Lemma speaks_require c : speaks (require_known_outcome c).
Proof. apply speaks_require_name. Qed.

Hint Resolve speaks_require_name speaks_require : speaks.

Lemma acts_journaled c token :
  acts (journaled world
    (worker_apply_event encode value_of_event value_of_state value_of_frame world)
    (fun o => append_mi_input encode o token (base64_encode (encoded c token)))).
Proof. apply stays_journaled, stays_apply. Qed.

Lemma speaks_begin_command c :
  speaks (begin_command encode base64_encode value_of_event value_of_state value_of_frame world c).
Proof.
  intros w. unfold begin_command, require_known_outcome, require_known_outcome_name.
  unfold mbind, comp_bind. cbn [gets id]. destruct (_ && _) eqn:Hg; [done|]. cbn [mret comp_ret].
  destruct (next_token w =? U64_MAX)%N eqn:Hn; [done|].
  unfold mret, comp_ret. cbn [modify].
  assert (Fence.unknown (fence w) = ∅ \/ command_name c = bytes_of "-exec-interrupt") as Hf.
  { apply andb_false_iff in Hg. rewrite !negb_false_iff, !bool_decide_eq_true in Hg. exact Hg. }
  set (w1 := w <| next_token := (next_token w + 1)%N |>).
  assert (forall write : bool, rtc Fence.step (fence w) (Fence.MkFence (timed_out_tokens w)
    (next_token w + 1) (if write then sent w ++ [encoded c (next_token w)] else sent w))) as Hi.
  { intros write. apply rtc_once. apply (Fence.Issue c write (fence w) Hf). by apply N.eqb_neq. }
  pose proof (acts_journaled c (next_token w) w1) as Hj.
  destruct (journaled _ _ _ w1) as [w2 a]. cbn [fst] in Hj.
  destruct (actor_move_fields _ _ Hj) as (_ & Et & En & Es & El).
  pose proof (actor_move_profile _ _ Hj) as Ep. destruct Hj as [[_ Hj] _].
  assert (forall w3 (write : bool), state w3 = state w2 -> settings w3 = settings w2 ->
    fence w3 = Fence.MkFence (timed_out_tokens w) (next_token w + 1)
      (if write then sent w ++ [encoded c (next_token w)] else sent w) ->
    channel_move (channel_view w) (channel_view w3)) as Hgoal.
  { intros w3 write Est Esl Ef. split; [split|]; cbn; [rewrite Ef; apply Hi|by rewrite Est|].
    rewrite Esl. unfold settings. by rewrite El, Ep. }
  assert (fence w2 = Fence.MkFence (timed_out_tokens w) (next_token w + 1) (sent w)) as Ef2.
  { unfold fence. by rewrite Et, En, Es. }
  destruct a as [seq|e| |]; try by apply (Hgoal w2 false).
  assert (fence (w2 <| sent := sent w2 ++ [encoded c (next_token w)] |>) =
    Fence.MkFence (timed_out_tokens w) (next_token w + 1)
      (sent w ++ [encoded c (next_token w)])) as Ef3.
  { unfold fence. cbn. by rewrite Et, En, Es. }
  cbn [ask from_option_error]. unfold from_option_error.
  destruct (a_send _); by apply (Hgoal _ true).
Qed.

Hint Resolve speaks_begin_command : speaks.

Lemma speaks_time_out token :
  speaks (time_out_token encode value_of_event value_of_state value_of_frame world token).
Proof.
  apply stays_bind; [apply _| |intros; speak].
  apply (speaks_modify _ (fun a => Fence.MkFence ({[token]} ∪ Fence.unknown a) (Fence.next a)
    (Fence.written a))); [done|]. intros a. apply rtc_once. constructor.
Qed.

Lemma speaks_learn token :
  speaks (modify (fun w => w <| timed_out_tokens := timed_out_tokens w ∖ {[token]} |>)).
Proof.
  apply (speaks_modify _ (fun a => Fence.MkFence (Fence.unknown a ∖ {[token]}) (Fence.next a)
    (Fence.written a))); [done|]. intros a. apply rtc_once. constructor.
Qed.

Hint Resolve speaks_time_out speaks_learn : speaks.

Lemma speaks_execute_record token now record seq x :
  speaks (with_commands execute_record token now record seq x).
Proof.
  unfold execute_record, resolve_delayed, finish_interrupt, control_reply, respond. speak.
Qed.

Lemma speaks_execute_control now control x :
  speaks (execute_control encode base64_encode value_of_event value_of_state value_of_frame world
            now control x).
Proof.
  unfold execute_control, begin_control, respond, require_active_resume,
    owned_interrupt_command. speak. all: unfold require_active_resume; speak.
Qed.

Lemma speaks_escalate now : speaks (escalate_acknowledged_interrupt world now).
Proof. unfold escalate_acknowledged_interrupt, from_option_error. speak. Qed.

Hint Resolve speaks_execute_record speaks_execute_control speaks_escalate : speaks.

Lemma speaks_execute_input token deadline now input x :
  speaks (with_commands execute_input token deadline now input x).
Proof.
  unfold execute_input, execute_deadline, escalate_control, time_out_control, control_reply,
    respond. speak.
Qed.

Hint Resolve speaks_execute_input : speaks.

Lemma speaks_execute_loop fuel token deadline x :
  speaks (with_commands execute_loop fuel token deadline x).
Proof.
  revert x. induction fuel; intros x; cbn [execute_loop]; unfold next_input; speak.
Qed.

Hint Resolve speaks_execute_loop : speaks.

Lemma speaks_execute_until_inner c deadline :
  speaks (with_commands execute_until_inner c deadline).
Proof. unfold execute_until_inner. speak. Qed.

Hint Resolve speaks_execute_until_inner : speaks.

Lemma speaks_execute_until c deadline : speaks (with_commands execute_until c deadline).
Proof. unfold execute_until, clean_up_insertion. speak. Qed.

Lemma speaks_require_active operation : speaks (require_active world operation).
Proof. unfold require_active. speak. Qed.

Hint Resolve speaks_execute_until speaks_require_active : speaks.

Lemma speaks_execute_operation_until c operation deadline :
  speaks (with_commands execute_operation_until c operation deadline).
Proof. unfold execute_operation_until, from_option_error. speak. Qed.

Lemma speaks_run_restoration commands deadline :
  speaks (with_commands run_restoration commands deadline).
Proof. induction commands; cbn [run_restoration]; speak. Qed.

Hint Resolve speaks_execute_operation_until speaks_run_restoration : speaks.

Lemma speaks_restore_deferred deadline :
  speaks (with_commands restore_deferred_commands deadline).
Proof. unfold restore_deferred_commands. speak. Qed.

Lemma speaks_run_setup before operation deadline :
  speaks (with_commands run_setup before operation deadline).
Proof. induction before; cbn [run_setup]; speak. Qed.

Hint Resolve speaks_restore_deferred speaks_run_setup : speaks.

Lemma speaks_execute_transaction before c after operation deadline :
  speaks (with_commands execute_transaction before c after operation deadline).
Proof. unfold execute_transaction, restore_or_defer. speak. Qed.

Lemma speaks_cleanup_stale : speaks (with_commands cleanup_one_stale_value).
Proof. unfold cleanup_one_stale_value. speak. Qed.

Hint Resolve speaks_execute_transaction speaks_cleanup_stale : speaks.

Lemma speaks_replace_module breakpoint enabled c address deadline :
  speaks (with_commands replace_module_breakpoint breakpoint enabled c address deadline).
Proof. unfold replace_module_breakpoint, replace_steps. speak. Qed.

Hint Resolve speaks_replace_module : speaks.

Lemma speaks_replace_each breakpoints deadline :
  speaks (with_commands replace_each breakpoints deadline).
Proof. induction breakpoints as [|[]]; cbn [replace_each]; speak. Qed.

Lemma speaks_rebind_each pending : speaks (with_commands rebind_each pending).
Proof. induction pending; cbn [rebind_each]; speak. Qed.

Hint Resolve speaks_replace_each speaks_rebind_each : speaks.

Lemma speaks_rebind : speaks (with_commands rebind_pending_module_breakpoints).
Proof. unfold rebind_pending_module_breakpoints. speak. Qed.

Lemma speaks_prepare_command c deadline : speaks (with_commands prepare_command c deadline).
Proof. unfold prepare_command, park_module_breakpoints. speak. Qed.

Lemma speaks_read_originals settings operation deadline :
  speaks (with_commands read_originals settings operation deadline).
Proof. induction settings; cbn [read_originals]; speak. Qed.

Lemma speaks_guard_settings settings operation deadline :
  speaks (with_commands guard_settings settings operation deadline).
Proof. induction settings; cbn [guard_settings]; speak. Qed.

Lemma speaks_safe_reads commands first operation deadline :
  speaks (with_commands safe_reads commands first operation deadline).
Proof. revert first deadline. induction commands; intros; cbn [safe_reads]; speak. Qed.

Lemma speaks_require_known_outcomes commands : speaks (require_known_outcomes commands).
Proof. induction commands; cbn [require_known_outcomes]; speak. Qed.

Hint Resolve speaks_rebind speaks_prepare_command speaks_read_originals speaks_guard_settings
  speaks_safe_reads speaks_require_known_outcomes : speaks.

Lemma speaks_execute_safe commands operation deadline :
  speaks (with_commands execute_safe commands operation deadline).
Proof. unfold execute_safe. speak. Qed.

Hint Resolve speaks_execute_safe : speaks.

Lemma speaks_handle_control control : speaks (with_commands handle_control control).
Proof.
  unfold handle_control, respond, owned_interrupt_command, require_active_resume,
    finish_interrupt. speak.
Qed.

(** ** Requests and the loop *)

Lemma speaks_idle_input input :
  speaks (idle_input encode base64_encode value_of_event value_of_state value_of_frame world input).
Proof. unfold idle_input. speak. Qed.

Lemma speaks_serve {A} (wrap : Result Error A -> Answer) m :
  speaks m -> speaks (serve world wrap m).
Proof. intros H. unfold serve, finish_request. speak. Qed.

Lemma speaks_serve_prepared {A} (wrap : Result Error A -> Answer) prepare m :
  speaks prepare -> speaks m -> speaks (serve_prepared world wrap prepare m).
Proof.
  intros Hp Hm. pose proof (speaks_serve wrap m Hm). unfold serve_prepared. speak.
Qed.

Lemma speaks_run_command c operation deadline :
  speaks (with_commands run_command c operation deadline).
Proof. unfold run_command. speak. Qed.

Lemma speaks_run_transaction before c after operation deadline :
  speaks (with_commands run_transaction before c after operation deadline).
Proof. unfold run_transaction. speak. Qed.

Lemma speaks_run_safe_evaluate commands operation deadline :
  speaks (with_commands run_safe_evaluate commands operation deadline).
Proof. unfold run_safe_evaluate. speak. Qed.

Lemma speaks_prepare_safe commands deadline :
  speaks (with_commands prepare_safe commands deadline).
Proof. unfold prepare_safe. speak. Qed.

Lemma speaks_refresh operation deadline :
  speaks (with_commands refresh_target_capabilities operation deadline).
Proof. unfold refresh_target_capabilities. speak. Qed.

Hint Resolve speaks_handle_control speaks_idle_input speaks_run_command speaks_run_transaction
  speaks_run_safe_evaluate speaks_prepare_safe speaks_refresh : speaks.

Lemma speaks_handle_request request :
  speaks (handle_request encode base64_encode base64_decode to_vec value_of_event value_of_state
            value_of_frame value_of_record world request).
Proof.
  destruct request; cbn [handle_request]; try apply speaks_serve_prepared; speak;
    try apply speaks_serve; unfold register_module_breakpoint, get_operation, remove_value,
      add_tracking, remove_tracking, record_tracking, commit_snapshot, read_output,
      write_inferior, finish_request, from_option_error; speak.
Qed.

Hint Resolve speaks_handle_request : speaks.

Lemma speaks_serve_input input :
  speaks (serve_input encode base64_encode base64_decode to_vec value_of_event value_of_state
            value_of_frame value_of_record world input).
Proof. destruct input; cbn [serve_input]; unfold shut_down; speak. Qed.

Hint Resolve speaks_serve_input : speaks.

Lemma speaks_run_loop turns :
  speaks (run_loop encode base64_encode base64_decode to_vec value_of_event value_of_state
            value_of_frame value_of_record world turns).
Proof.
  induction turns as [|[inputs input] turns IH]; cbn [run_loop]; unfold rebind_when_due; speak.
Qed.

Lemma speaks_run turns :
  speaks (run encode base64_encode base64_decode to_vec value_of_event value_of_state
            value_of_frame value_of_record world turns).
Proof.
  pose proof (speaks_run_loop turns). unfold run, run_end, shut_down. speak.
Qed.

End speech.
