(* ===== verification/CommandReplies.v ===== *)
(** * CommandReplies: replies belong to their commands

    A command is answered by a result record that GDB sent with the command's
    own token; its stream records are those received while it was in flight,
    within the configured limit. *)
From S2P Require Import Prelude Text MiAst Json Errors Domain Reducer Backend Normalize Ring LiveState Journal Policy Protocol Effects Actor ActorFrame ActorProofs Commands CommandProofs CommandSafe Tracking Requests CommandFence.

Definition streams_len (records : list MiRecord) : N :=
  foldr (fun r n => (stream_len r + n)%N) 0%N records.

Lemma streams_len_app l1 l2 : streams_len (l1 ++ l2) = (streams_len l1 + streams_len l2)%N.
Proof. induction l1 as [|r l1 IH]; cbn in *; [done|]. unfold streams_len in *. cbn. lia. Qed.

(** The record arrived from GDB. *)
Definition received (inputs : list (N * ExecutionInput)) (record : MiRecord) : Prop :=
  exists now raw, (now, EBackend (Some (Mi raw record))) ∈ inputs.

Record reply_ok (limit token : N) (inputs : list (N * ExecutionInput)) (reply : CommandReply)
    : Prop := {
  ro_token : cr_token reply = token;
  ro_record : exists results, cr_record reply = RResult (Some token) (cr_class reply) results;
  ro_class : cr_class reply <> "error";
  ro_received : received inputs (cr_record reply);
  ro_streams : Forall (fun r => is_stream r = true /\ received inputs r) (cr_stream_records reply);
  ro_limit : (streams_len (cr_stream_records reply) <= limit)%N
}.

Record execution_ok (limit token : N) (inputs : list (N * ExecutionInput)) (x : Execution)
    : Prop := {
  eo_bytes : ex_normal_result x = None -> ex_stream_bytes x = streams_len (ex_streams x);
  eo_limit : (streams_len (ex_streams x) <= limit)%N;
  eo_streams : Forall (fun r => is_stream r = true /\ received inputs r) (ex_streams x);
  eo_result : forall reply, ex_normal_result x = Some (Ok reply) ->
    reply_ok limit token inputs reply
}.

(** The same execution but for its pending control. *)
Definition same_execution (x x' : Execution) : Prop :=
  ex_streams x' = ex_streams x /\ ex_stream_bytes x' = ex_stream_bytes x /\
  ex_stream_truncated x' = ex_stream_truncated x /\ ex_normal_result x' = ex_normal_result x.

Lemma same_execution_ok limit token inputs x x' :
  same_execution x x' -> execution_ok limit token inputs x -> execution_ok limit token inputs x'.
Proof. intros (Es & Eb & Et & En) []. split; rewrite ?Es, ?Eb, ?En; done. Qed.

Lemma keep_stream_ok limit token inputs record x :
  (limit < U64_MAX)%N -> received inputs record ->
  execution_ok limit token inputs x -> execution_ok limit token inputs (keep_stream limit record x).
Proof.
  intros Hm Hr [Hb Hl Hs Hres]. unfold keep_stream. destruct (ex_normal_result x) eqn:En; [by split; rewrite ?En|].
  destruct (is_stream record) eqn:Hst; [|by split; rewrite ?En].
  specialize (Hb eq_refl). unfold u64_saturating_add.
  destruct (_ <=? limit)%N eqn:Hle; [apply N.leb_le in Hle|by split; cbn; rewrite ?En].
  split; cbn; rewrite ?En; try done.
  - intros _. rewrite Hb, streams_len_app. cbn. lia.
  - rewrite streams_len_app. cbn. lia.
  - apply Forall_app. split; [done|]. by repeat constructor.
Qed.

Lemma command_reply_ok base64_encode value_of_record limit token inputs record seq streams truncated
    reply :
  received inputs record -> (streams_len streams <= limit)%N ->
  Forall (fun r => is_stream r = true /\ received inputs r) streams ->
  command_reply base64_encode value_of_record token record seq streams truncated = Ok reply ->
  reply_ok limit token inputs reply.
Proof.
  intros Hr Hl Hs. destruct record as [[t|] class results| | | | | | |]; try done. cbn [command_reply].
  destruct (t =? token)%N eqn:Ht; [apply N.eqb_eq in Ht as ->|done]. cbn [negb].
  case_decide; [done|]. intros [= <-]. split; cbn; try done. by eexists.
Qed.

(** ** Partial correctness of what answers with an execution *)

Section ensures.
Context (limit : N).

(** Started under the limit, [m] answers with a value in [R]. *)
Definition ensures {A} (R : A -> Prop) (m : actor A) : Prop :=
  forall w w' a, stream_limit w = limit -> m w = (w', Done a) -> R a.

Lemma ensures_ret {A} (R : A -> Prop) a : R a -> ensures R (mret a).
Proof. by intros H w w' a' _ [= <- <-]. Qed.

Lemma ensures_fail {A} (R : A -> Prop) e : ensures R (fail e).
Proof. by intros w w' a _. Qed.

Lemma ensures_bind {A B} (P : A -> Prop) (R : B -> Prop) (m : actor A) (f : A -> actor B) :
  ensures P m -> speaks m -> (forall a, P a -> ensures R (f a)) -> ensures R (m ≫= f).
Proof.
  intros Hm Hs Hf w w' b Hw. unfold mbind, comp_bind. specialize (Hs w).
  destruct (m w) as [w1 [a| | |]] eqn:E; try done. intros E'.
  eapply Hf; [by eapply Hm| |exact E']. destruct Hs as [_ Hs]. injection Hs as Hs _. by rewrite <-Hs.
Qed.

Lemma ensures_next {A B} (R : B -> Prop) (m : actor A) (f : A -> actor B) :
  speaks m -> (forall a, ensures R (f a)) -> ensures R (m ≫= f).
Proof.
  intros Hs Hf. apply (ensures_bind (fun _ => True)); [done|done|]. intros a _. apply Hf.
Qed.

Lemma ensures_limit : ensures (fun l => l = limit) (gets stream_limit).
Proof. by intros w w' a Hw [= <- <-]. Qed.

End ensures.

Section replies.
#[local] Set Default Proof Using "Type".
Context (encode : JournalEntry -> bytes) (base64_encode : bytes -> string)
        (value_of_event : Event.DomainEvent -> Value)
        (value_of_state : SessionState -> Value)
        (value_of_frame : FrameSummary -> Value)
        (value_of_record : MiRecord -> Value)
        (world : nat -> answers) (limit : N).

Abbreviation with_commands f := (f encode base64_encode value_of_event value_of_state
  value_of_frame value_of_record world) (only parsing).
Abbreviation ensures' := (ensures limit).

Ltac ensure_steps :=
  repeat first
    [ apply ensures_fail
    | apply ensures_ret; solve [by repeat split]
    | apply ensures_next; [solve [speak]|intros ?]
    | match goal with |- ensures _ _ (match ?x with _ => _ end) => destruct x end ].

Lemma begin_control_same now deadline interrupt response c x :
  ensures' (same_execution x) (begin_control encode base64_encode value_of_event value_of_state
    value_of_frame world now deadline interrupt response c x).
Proof.
  pose proof (speaks_begin_command encode base64_encode value_of_event value_of_state
    value_of_frame world c). unfold begin_control, respond. ensure_steps.
Qed.

Lemma execute_control_same now control x :
  ensures' (same_execution x) (execute_control encode base64_encode value_of_event value_of_state
    value_of_frame world now control x).
Proof.
  destruct control as [operation response|request response|c deadline response|
    id [] response|response]; cbn [execute_control]; unfold respond, owned_interrupt_command,
    require_active_resume; ensure_steps; try apply begin_control_same.
Qed.

Lemma execute_deadline_ok token deadline now inputs x :
  execution_ok limit token inputs x ->
  ensures' (execution_ok limit token inputs)
    (execute_deadline encode value_of_event value_of_state value_of_frame world token deadline
       now x).
Proof.
  pose proof (speaks_escalate world now). pose proof (fun t => speaks_time_out encode value_of_event
    value_of_state value_of_frame world t). intros Hx. unfold execute_deadline.
  apply ensures_next; [done|]. intros _.
  apply (ensures_bind limit (same_execution x)).
  { unfold escalate_control, control_reply, respond. ensure_steps. }
  { unfold escalate_control, control_reply, respond. speak. }
  intros x1 H1. apply (ensures_bind limit (same_execution x1)).
  { unfold time_out_control, control_reply, respond. ensure_steps. }
  { unfold time_out_control, control_reply, respond. speak. }
  intros x2 H2. assert (execution_ok limit token inputs x2) as Hx2.
  { eapply same_execution_ok; [exact H2|]. by eapply same_execution_ok. }
  destruct (ex_normal_result x2) eqn:En; [by apply ensures_ret|].
  destruct (deadline <=? now)%N; [|by apply ensures_ret].
  apply ensures_next; [done|]. intros _. apply ensures_ret. destruct Hx2. by split.
Qed.

Lemma execute_record_ok token now record seq inputs x :
  (limit < U64_MAX)%N -> received inputs record -> execution_ok limit token inputs x ->
  ensures' (execution_ok limit token inputs) (with_commands execute_record token now record seq x).
Proof.
  intros Hm Hr Hx. unfold execute_record. apply ensures_next.
  { pose proof (fun t => speaks_learn t). unfold resolve_delayed. speak. }
  intros delayed.
  assert (ensures' (execution_ok limit token inputs)
    (if bool_decide (result_token record = Some token) then
        mret (x <| ex_normal_result := Some (command_reply base64_encode value_of_record token
                record seq (ex_streams x) (ex_stream_truncated x)) |> <| ex_streams := [] |>)
      else
        (match delayed with
         | None => handle_unmatched_result encode value_of_event value_of_state value_of_frame
                     world record
         | Some _ => mret tt
         end) ;;
        limit ← gets stream_limit;
        mret (keep_stream limit record x))) as Hnormal.
  { case_bool_decide.
    - apply ensures_ret. destruct Hx as [Hb Hl Hs Hres]. split; cbn; [done|lia|done|].
      intros reply [= E]. by eapply command_reply_ok.
    - apply ensures_next; [speak|]. intros _.
      apply (ensures_bind limit (fun l => l = limit)); [apply ensures_limit|speak|].
      intros l ->. apply ensures_ret. by apply keep_stream_ok. }
  destruct (ex_pending_control x) as [control|]; [|exact Hnormal].
  destruct (bool_decide (result_token record = Some (pc_token control))); [|exact Hnormal].
  unfold finish_interrupt, control_reply, respond.
  do 2 (apply ensures_next; [speak|intros ?]). apply ensures_ret.
  eapply same_execution_ok; [|exact Hx]. done.
Qed.

Lemma process_input_record input w w' record seq :
  process_input encode base64_encode value_of_event value_of_state value_of_frame world input w =
    (w', Done (Some (record, seq))) -> exists raw, input = Mi raw record.
Proof.
  destruct input as [raw r|e|d| |]; cbn [process_input]; unfold mbind, comp_bind.
  - intros E. exists raw. f_equal. revert E. unfold process_mi. unfold mbind, comp_bind.
    destruct (journaled _ _ _ w) as [w1 []]; try done.
    match goal with |- context [match ?m w1 with _ => _ end] => destruct (m w1) as [w2 []] end;
      try done. by intros [= _ -> _].
  - destruct (process_protocol_error _ _ _ _ _ _ _) as [? []]; try done.
  - destruct (process_stderr _ _ _ _ _ _ _ _) as [? []]; try done.
  - destruct (process_pty _ _ _ _ _ _) as [? []]; try done.
  - destruct (process_eof _ _ _ _ _ _) as [? []]; try done.
Qed.

Lemma execute_input_ok token deadline now input inputs x :
  (limit < U64_MAX)%N -> (now, input) ∈ inputs -> execution_ok limit token inputs x ->
  ensures' (execution_ok limit token inputs)
    (with_commands execute_input token deadline now input x).
Proof.
  intros Hm Hin Hx. destruct input as [[control|]|[input|]|]; cbn [execute_input].
  - intros w w' x' Hw E. eapply same_execution_ok; [|exact Hx]. by eapply execute_control_same.
  - apply ensures_next; [speak|]. intros _. by apply ensures_ret.
  - apply (ensures_bind limit (fun processed => match processed with
      | Some (record, seq) => exists raw, input = Mi raw record | None => True end)).
    + intros w w' [[record seq]|] _ E; [|done]. by eapply process_input_record.
    + speak.
    + intros [[record seq]|] Hp; [|by apply ensures_ret]. apply execute_record_ok; [done| |done].
      destruct Hp as [raw ->]. by exists now, raw.
  - apply ensures_fail.
  - by apply execute_deadline_ok.
Qed.

Lemma execute_loop_ok fuel token deadline inputs x w :
  (limit < U64_MAX)%N -> stream_limit w = limit -> sane w ->
  (forall i, i ∈ script w -> i ∈ inputs) -> execution_ok limit token inputs x ->
  forall w' reply, with_commands execute_loop fuel token deadline x w = (w', Done reply) ->
  reply_ok limit token inputs reply.
Proof.
  intros Hm. revert x w. induction fuel as [|fuel IH]; intros x w Hl Hw Hin Hx w' reply; [done|].
  cbn [execute_loop].
  assert ((input ← next_input;
           x ← with_commands execute_input token deadline input.1 input.2 x;
           with_commands execute_loop fuel token deadline x) w = (w', Done reply) ->
          reply_ok limit token inputs reply) as Hstep.
  { unfold next_input. unfold mbind, comp_bind. cbn [gets id].
    destruct (script w) as [|[now input] rest] eqn:Hs; [done|]. cbn [modify mret comp_ret fst snd].
    unfold mret, comp_ret. set (w1 := w <| script := rest |>).
    assert (sane w1) as Hw1.
    { destruct Hw as [Hr Hv]. rewrite Hs in Hv. apply Forall_cons in Hv as [_ ?]. by split. }
    assert (valid_execution_input (now, input)) as Hvi.
    { destruct Hw as [_ Hv]. rewrite Hs in Hv. by apply Forall_cons in Hv as [? _]. }
    pose proof (execute_input_ok token deadline now input inputs x Hm) as Hok.
    pose proof (speaks_execute_input encode base64_encode value_of_event value_of_state
      value_of_frame value_of_record world token deadline now input x w1) as Hsp.
    pose proof (safe_execute_input encode base64_encode value_of_event value_of_state
      value_of_frame value_of_record world "" token deadline now input x Hvi w1 Hw1) as Hsafe.
    unfold wp in Hsafe.
    destruct (with_commands execute_input token deadline now input x w1) as [w2 [x'| | |]] eqn:E;
      try done. destruct Hsp as [_ Hsp]. injection Hsp as Hsp _.
    apply IH.
    - by rewrite <-Hsp.
    - by eapply moved_sane.
    - intros i Hi. apply Hin. rewrite elem_of_cons. right.
      destruct (mv_script _ _ _ _ _ _ _ Hsafe) as [l El]. cbn in El. rewrite El.
      apply elem_of_app. by right.
    - eapply Hok; [|exact Hx| |exact E]; [|exact Hl]. apply Hin. by left. }
  destruct (ex_pending_control x), (ex_normal_result x) as [result|] eqn:En; try exact Hstep.
  destruct result as [r|e]; [|done]. intros [= _ <-]. by apply (eo_result _ _ _ _ Hx).
Qed.

End replies.

(** ** Whole commands *)

Section commands.
#[local] Set Default Proof Using "Type".
Context (encode : JournalEntry -> bytes) (base64_encode : bytes -> string)
        (value_of_event : Event.DomainEvent -> Value)
        (value_of_state : SessionState -> Value)
        (value_of_frame : FrameSummary -> Value)
        (value_of_record : MiRecord -> Value)
        (world : nat -> answers).

Lemma begin_command_spec c w :
  let m := begin_command encode base64_encode value_of_event value_of_state value_of_frame world c in
  forall w' token, m w = (w', Done token) ->
  token = next_token w /\ sent w' = sent w ++ [encoded c (next_token w)] /\
  script w' = script w /\ stream_limit w' = stream_limit w.
Proof.
  cbn zeta. intros w' token. unfold begin_command, require_known_outcome,
    require_known_outcome_name. unfold mbind, comp_bind. cbn [gets id].
  destruct (_ && _); [done|]. unfold mret, comp_ret. destruct (_ =? _)%N; [done|]. cbn [modify].
  set (w1 := w <| next_token := (next_token w + 1)%N |>).
  pose proof (acts_journaled encode base64_encode value_of_event value_of_state value_of_frame
    world c (next_token w) w1) as Hj. destruct (journaled _ _ _ w1) as [w2 [seq| | |]]; try done.
  cbn [fst] in Hj. destruct (actor_move_fields _ _ Hj) as (Es & _ & _ & Ese & El).
  cbn [ask]. unfold from_option_error. destruct (a_send _); [done|]. unfold mret, comp_ret.
  intros [= <- <-]. cbn. by rewrite Ese.
Qed.

Lemma execute_until_inner_reply c deadline w :
  sane w -> (stream_limit w < U64_MAX)%N ->
  forall w' reply,
  execute_until_inner encode base64_encode value_of_event value_of_state value_of_frame
    value_of_record world c deadline w = (w', Done reply) ->
  reply_ok (stream_limit w) (next_token w) (script w) reply /\
  exists lines, sent w' = sent w ++ encoded c (next_token w) :: lines.
Proof.
  intros Hw Hl w' reply. unfold execute_until_inner. unfold mbind, comp_bind. cbn [ask].
  set (w0 := w <| ticks := S (ticks w) |>). destruct (_ <=? _)%N; [done|].
  pose proof (begin_command_spec c w0) as Hb. cbn zeta in Hb.
  pose proof (safe_begin_command encode base64_encode value_of_event value_of_state
    value_of_frame world "" c w0 Hw) as Hs. unfold wp in Hs.
  destruct (begin_command _ _ _ _ _ _ _ w0) as [w1 [token| | |]]; try done. cbn [gets].
  destruct (Hb w1 token eq_refl) as (-> & Ese & Esc & El). intros E. split.
  - eapply (execute_loop_ok encode base64_encode value_of_event value_of_state value_of_frame
      value_of_record world (stream_limit w)); [exact Hl|exact El| | | |exact E].
    + apply (moved_sane _ _ _ _ _ _ _ Hs). exact Hw.
    + by rewrite Esc.
    + split; cbn; try done. lia.
  - match type of E with ?m = _ => change m with (execute_loop encode base64_encode
      value_of_event value_of_state value_of_frame value_of_record world
      (S (S (length (script w1)))) (next_token w0) deadline execution_start w1) in E end.
    pose proof (speaks_execute_loop encode base64_encode value_of_event value_of_state
      value_of_frame value_of_record world (S (S (length (script w1)))) (next_token w0) deadline
      execution_start w1) as [[Hp _] _]. rewrite E in Hp. cbn in Hp.
    apply Fence.path_tokens in Hp as (_ & issued & Ew & _). cbn in Ew.
    rewrite Ew, Ese, <-app_assoc. by eexists.
Qed.

Lemma execute_until_reply c deadline w w' reply :
  sane w -> (stream_limit w < U64_MAX)%N ->
  execute_until encode base64_encode value_of_event value_of_state value_of_frame
    value_of_record world c deadline w = (w', Done reply) ->
  reply_ok (stream_limit w) (next_token w) (script w) reply /\
  exists lines, sent w' = sent w ++ encoded c (next_token w) :: lines.
Proof.
  intros Hw Hl. unfold execute_until. unfold mbind, comp_bind. cbn [gets].
  pose proof (execute_until_inner_reply c deadline w Hw Hl) as Hi. unfold attempt.
  destruct (execute_until_inner _ _ _ _ _ _ _ _ _ w) as [w1 [r|e| |]]; try done.
  - destruct (Hi w1 r eq_refl) as [Hok [lines El]]. cbn [new_failed_insertion].
    unfold mret, comp_ret. intros [= <- <-]. split; [done|]. by exists lines.
  - repeat case_match; simplify_eq/=; try done.
Qed.

End commands.

(** ** A command ends at its deadline

    While a command is in flight the worker takes one input after the other;
    when its deadline passes it reads no further, whatever GDB said or did not
    say before, unless a control request is still waiting for its own answer. *)

(** *** Computations that take no input *)

Abbreviation silent := (stays script (@eq (list (N * ExecutionInput)))).

Lemma acts_silent {A} (m : actor A) : acts m -> silent m.
Proof.
  apply stays_weaken. intros w w' H. by destruct (actor_move_fields _ _ H) as [-> _].
Qed.

Create HintDb silent discriminated.

Ltac silent_step :=
  lazymatch goal with
  | |- stays _ _ ?m =>
      lazymatch m with
      | mret _ => apply stays_ret; apply _
      | gets _ => apply stays_gets; apply _
      | fail _ => apply stays_fail; apply _
      | lift _ => apply stays_lift; apply _
      | ask _ _ => apply acts_silent, stays_ask
      | attempt _ => apply stays_attempt
      | when _ _ => apply stays_when; [apply _|]
      | mbind _ _ => apply stays_bind; [apply _| |intros ?]
      | match ?x with _ => _ end => destruct x
      | worker_apply_event _ _ _ _ _ _ => apply acts_silent, stays_apply
      | modify _ => apply stays_modify; [apply _|reflexivity]
      | _ => first [solve [auto with silent] | apply acts_silent; solve [auto with stays]]
      end
  end.

Ltac silently := repeat silent_step.

(** *** What a computation answers with *)

Definition gives {A} (R : A -> Prop) (m : actor A) : Prop :=
  forall w w' a, m w = (w', Done a) -> R a.

Lemma gives_ret {A} (R : A -> Prop) a : R a -> gives R (mret a).
Proof. by intros H w w' a' [= _ <-]. Qed.

Lemma gives_fail {A} (R : A -> Prop) e : gives R (fail e).
Proof. done. Qed.

Lemma gives_bind {A B} (S : A -> Prop) (R : B -> Prop) (m : actor A) (f : A -> actor B) :
  gives S m -> (forall a, S a -> gives R (f a)) -> gives R (m ≫= f).
Proof.
  intros Hm Hf w w' b. unfold mbind, comp_bind. destruct (m w) as [w1 [a| | |]] eqn:E; try done.
  apply Hf. by eapply Hm.
Qed.

Lemma gives_next {A B} (R : B -> Prop) (m : actor A) (f : A -> actor B) :
  (forall a, gives R (f a)) -> gives R (m ≫= f).
Proof. intros H. by apply (gives_bind (fun _ => True)); [|intros a _]. Qed.

(** *** The loop *)

(** No control request waits for an answer of GDB. *)
Definition free (x : Execution) : Prop := ex_pending_control x = None.

(** An input that is not the interruption of the target. *)
Definition leaves_running (input : ExecutionInput) : Prop :=
  match input with
  | EControl (Some (Interrupt _ _ _)) | EControl (Some (CancelOperation _ _ _)) => False
  | _ => True
  end.

Section deadline.
#[local] Set Default Proof Using "Type".
Context (encode : JournalEntry -> bytes) (base64_encode : bytes -> string)
        (value_of_event : Event.DomainEvent -> Value)
        (value_of_state : SessionState -> Value)
        (value_of_frame : FrameSummary -> Value)
        (value_of_record : MiRecord -> Value)
        (world : nat -> answers).

Abbreviation with_commands f := (f encode base64_encode value_of_event value_of_state
  value_of_frame value_of_record world) (only parsing).

Lemma silent_begin_command c :
  silent (begin_command encode base64_encode value_of_event value_of_state value_of_frame world c).
Proof.
  unfold begin_command, require_known_outcome, require_known_outcome_name, from_option_error.
  silently.
Qed.

Hint Resolve silent_begin_command : silent.

Lemma silent_execute_input token deadline now input x :
  silent (with_commands execute_input token deadline now input x).
Proof.
  destruct input as [[control|]|[input|]|]; cbn [execute_input];
    [destruct control; cbn [execute_control]|..];
    unfold execute_deadline, escalate_acknowledged_interrupt, escalate_control, time_out_control,
      time_out_token, execute_record, resolve_delayed, finish_interrupt, begin_control,
      owned_interrupt_command, require_active_resume, control_reply, respond, from_option_error;
    silently.
Qed.

Ltac give_steps :=
  repeat first
    [ apply gives_fail | apply gives_ret; solve [done]
    | apply gives_next; intros ?
    | match goal with |- gives _ (match ?x with _ => _ end) => destruct x end ].

(** At its deadline the command has a result. *)
Lemma execute_deadline_gives token deadline now x :
  free x ->
  gives (fun x' => free x' /\ ((deadline <=? now)%N = true -> is_Some (ex_normal_result x')))
    (execute_deadline encode value_of_event value_of_state value_of_frame world token deadline
       now x).
Proof.
  unfold free. intros Hx. unfold execute_deadline. apply gives_next. intros _.
  apply (gives_bind (fun x' => x' = x)).
  { unfold escalate_control. rewrite Hx. by apply gives_ret. }
  intros ? ->. apply (gives_bind (fun x' => x' = x)).
  { unfold time_out_control. rewrite Hx. by apply gives_ret. }
  intros ? ->. destruct (ex_normal_result x) eqn:En; [apply gives_ret; by rewrite En|].
  destruct (deadline <=? now)%N; [|by apply gives_ret]. apply gives_next. intros _.
  apply gives_ret. by split.
Qed.

Lemma execute_input_free token deadline now input x :
  leaves_running input -> free x ->
  gives free (with_commands execute_input token deadline now input x).
Proof.
  unfold free. intros Hi Hx. destruct input as [[control|]|[input|]|]; cbn [execute_input].
  - destruct control; cbn [execute_control]; try done; give_steps.
  - give_steps.
  - apply gives_next. intros [[record seq]|]; [|by apply gives_ret]. unfold execute_record.
    rewrite Hx. give_steps. apply gives_ret. unfold keep_stream. by repeat case_match.
  - give_steps.
  - intros w w' x' E. by apply (execute_deadline_gives _ _ _ _ Hx _ _ _ E).
Qed.

Lemma execute_loop_deadline fuel token deadline now pre rest x w :
  script w = pre ++ (now, EDeadline) :: rest -> (deadline <= now)%N ->
  Forall (fun i => leaves_running i.2) pre -> free x ->
  rest `suffix_of` script (with_commands execute_loop fuel token deadline x w).1.
Proof.
  intros Hs Hd Hp Hx. assert (rest `suffix_of` script w) as Hrest.
  { rewrite Hs. by apply suffix_app_r, suffix_cons_r. }
  revert pre x w Hs Hp Hx Hrest. induction fuel as [|fuel IH]; intros pre x w Hs Hp Hx Hrest; [done|].
  cbn [execute_loop]. rewrite Hx. destruct (ex_normal_result x) as [[]|]; [done..|].
  unfold mbind, comp_bind, next_input. unfold mbind, comp_bind. cbn [gets id]. rewrite Hs.
  destruct pre as [|[at_ input] pre]; cbn [app modify]; unfold mret, comp_ret;
    cbn [fst snd].
  - set (w1 := w <| script := rest |>).
    pose proof (silent_execute_input token deadline now EDeadline x w1) as Hq.
    pose proof (execute_deadline_gives token deadline now x Hx w1) as Hg.
    change (with_commands execute_input token deadline now EDeadline x w1) with
      (execute_deadline encode value_of_event value_of_state value_of_frame world token deadline
         now x w1) in *.
    destruct (execute_deadline _ _ _ _ _ _ _ _ _ w1) as [w2 [x'| | |]]; cbn [fst] in Hq |- *;
      change (script w1) with rest in Hq; [|by rewrite <-Hq..].
    destruct (Hg w2 x' eq_refl) as [Hf Hr]. destruct Hr as [r Hr]; [by apply N.leb_le|].
    assert (rest `suffix_of` script w2) as Hr2 by (by rewrite <-Hq).
    destruct fuel; cbn [execute_loop]; [exact Hr2|]. rewrite Hf, Hr.
    by destruct r.
  - apply Forall_cons in Hp as [Hi Hp]. set (w1 := w <| script := _ |>).
    pose proof (silent_execute_input token deadline at_ input x w1) as Hq.
    pose proof (execute_input_free token deadline at_ input x Hi Hx w1) as Hg.
    assert (rest `suffix_of` script w1) as Hr1 by (by apply suffix_app_r, suffix_cons_r).
    destruct (with_commands execute_input token deadline at_ input x w1) as [w2 [x'| | |]];
      cbn [fst] in Hq |- *; [|by rewrite <-Hq..].
    eapply IH; [by rewrite <-Hq|done|by eapply Hg|by rewrite <-Hq].
Qed.

Lemma execute_until_inner_deadline c deadline now pre rest w :
  script w = pre ++ (now, EDeadline) :: rest -> (deadline <= now)%N ->
  Forall (fun i => leaves_running i.2) pre ->
  rest `suffix_of` script (with_commands execute_until_inner c deadline w).1.
Proof.
  intros Hs Hd Hp. unfold execute_until_inner. unfold mbind, comp_bind. cbn [ask].
  set (w0 := w <| ticks := S (ticks w) |>). assert (rest `suffix_of` script w0) as Hr0.
  { cbn. rewrite Hs. by apply suffix_app_r, suffix_cons_r. }
  destruct (_ <=? _)%N; [done|]. pose proof (silent_begin_command c w0) as Hq.
  destruct (begin_command _ _ _ _ _ _ _ w0) as [w1 [token| | |]]; cbn [fst gets] in Hq |- *;
    [|by rewrite <-Hq..].
  apply (execute_loop_deadline _ _ _ now pre); [by rewrite <-Hq|done|done|done].
Qed.

End deadline.
