(* ===== verification/RequestProofs.v ===== *)
(** * RequestProofs: the worker's requests and loop keep the evidence

    Every request is safe; the loop settles on every sequence of inputs, and,
    while signals and the output spool work, leaves a journal that is the log
    of the session it ends with. *)

From S2P Require Import Prelude Text MiAst MiParser Json Errors Domain Reducer ReducerInv Backend Normalize Ring LiveState Journal Replay ReplayLive Policy Protocol Effects Actor ActorFrame ActorProofs Commands CommandProofs CommandSafe Tracking Requests CommandFence.

(** Requests whose arguments are what the gateway sends. *)
Definition valid_request (request : WorkerRequest) : Prop :=
  match request with
  | RecordEvent event => token_event event = false
  | CommitSnapshot snapshot _ _ _ _ _ => is_Some (index_set "stop_id" Null snapshot)
  | _ => True
  end.

Definition valid_worker_input (input : WorkerInput) : Prop :=
  match input with
  | IRequest (Some request) => valid_request request
  | IBackend (Some input) => valid_input input
  | _ => True
  end.

Definition valid_turn (turn : list (N * ExecutionInput) * WorkerInput) : Prop :=
  Forall valid_execution_input turn.1 /\ valid_worker_input turn.2.

Section loop.
#[local] Set Default Proof Using "Type".
Context (encode : JournalEntry -> bytes) (base64_encode : bytes -> string)
        (base64_decode : string -> option bytes) (to_vec : Value -> option bytes)
        (value_of_event : Event.DomainEvent -> Value)
        (value_of_state : SessionState -> Value)
        (value_of_frame : FrameSummary -> Value)
        (value_of_record : MiRecord -> Value)
        (world : nat -> answers) (sid : SessionId).

Abbreviation apply' :=
  (worker_apply_event encode value_of_event value_of_state value_of_frame world).
Abbreviation close' := (close encode value_of_event value_of_state value_of_frame world).
Abbreviation inv' := (inv encode base64_encode value_of_event value_of_state sid).
Abbreviation kept' := (kept encode base64_encode value_of_event value_of_state sid).
Abbreviation moved' := (moved encode base64_encode value_of_event value_of_state sid).
Abbreviation safe' := (safe encode base64_encode value_of_event value_of_state sid).
Abbreviation closed_log' :=
  (closed_log encode base64_encode value_of_event value_of_state sid).
Abbreviation with_commands f := (f encode base64_encode value_of_event value_of_state
  value_of_frame value_of_record world) (only parsing).
Abbreviation with_requests f := (f encode base64_encode base64_decode to_vec value_of_event
  value_of_state value_of_frame value_of_record world) (only parsing).

(** ** More operations of the actor *)

Lemma safe_store_result r : safe' (store_result apply' r).
Proof.
  apply safe_actor; [|auto with stays|intros w [H _]; by eapply store_tokens].
  intros w [H _]. by apply strict_keeps, store_strict.
Qed.

Lemma safe_checkpoint closing : safe' (checkpoint encode value_of_state world apply' closing).
Proof.
  apply safe_actor; [|auto with stays|intros w [H _]; by eapply checkpoint_tokens].
  intros w [H _]. by apply strict_keeps, checkpoint_op_strict.
Qed.

Lemma flush_journal_tokens w :
  ready w -> keeps_tokens (flush_journal encode value_of_event value_of_state value_of_frame world) w.
Proof using base64_encode sid.
  intros H. apply keeps_tokens_bind.
  - apply keeps_tokens_attempt, keeps_tokens_bind; [by eapply checkpoint_tokens|].
    intros [] w1 Hs1. apply keeps_tokens_bind; [|intros; by apply wp_lift].
    apply wp_journaling. intros j r E. split; [|done].
    pose proof (flush_frame (a_io (world (ticks w1))) (journal w1)) as (Hd & _ & Hr).
    rewrite E in Hd, Hr. by apply journal_frame.
  - intros r w1 Hs1. by eapply journal_result_tokens, same_tokens_ready.
Qed.

Lemma safe_flush_journal :
  safe' (flush_journal encode value_of_event value_of_state value_of_frame world).
Proof.
  apply safe_actor; [|auto with stays|intros w [H _]; by apply flush_journal_tokens].
  intros w [H _]. by apply strict_keeps, flush_journal_strict.
Qed.

Hint Resolve safe_store_result safe_checkpoint safe_flush_journal : safe.

Lemma store_snapshot_tokens v w :
  ready w -> keeps_tokens (store_snapshot_value encode world apply' v) w.
Proof using base64_encode sid.
  intros H. destruct v as [| | | | | |fields]; try by apply wp_fail.
  apply keeps_tokens_bind; [apply ask_tokens|]. intros ulid w1 Hs1.
  pose proof (same_tokens_ready _ _ Hs1 H) as H1.
  apply keeps_tokens_bind; [by apply (append_tokens encode base64_encode value_of_event value_of_state value_of_frame
    world sid _ _ _ (append_flushed_appends encode "snapshot.result" _))|].
  intros seq w2 Hs2. pose proof (same_tokens_ready _ _ Hs2 H1) as H2.
  apply keeps_tokens_bind; [by apply wp_gets|]. intros failed w3 Hs3.
  pose proof (same_tokens_ready _ _ Hs3 H2) as H3. apply keeps_tokens_bind.
  { apply wp_when; [|done]. intros _. apply keeps_tokens_bind; [apply ask_tokens|].
    intros stored w4 Hs4. pose proof (same_tokens_ready _ _ Hs4 H3) as H4.
    exact (store_tokens encode base64_encode value_of_event value_of_state value_of_frame world sid
      stored w4 H4). }
  intros [] w4 Hs4. apply wp_bind, wp_gets. cbn [id].
  destruct (List.find _ _) as [[? existing]|].
  - case_bool_decide; [by apply wp_ret|by apply wp_fail].
  - rewrite bool_decide_false by (by eapply same_tokens_ready).
    apply keeps_tokens_bind; [by apply keeps_tokens_modify|]. intros; by apply wp_ret.
Qed.

Lemma safe_store_snapshot v : safe' (store_snapshot_value encode world apply' v).
Proof.
  apply safe_actor; [|auto with stays|intros w [H _]; by apply store_snapshot_tokens].
  intros w [H _]. eapply wp_mono; [apply (store_snapshot_spec encode base64_encode value_of_event
    value_of_state world sid apply' 4 (apply_ok encode base64_encode value_of_event
    value_of_state value_of_frame world sid)); [done|apply budget_small]|].
  by intros r w' [? _].
Qed.

Hint Resolve safe_store_snapshot : safe.

(** ** Requests *)

Lemma safe_unwrap_index {A} key v target (f : Value -> actor A) :
  is_Some (index_set key v target) ->
  (forall fields, safe' (f (Object fields))) -> safe' (unwrap (index_set key v target) ≫= f).
Proof.
  intros [x E] Hf w Hw. rewrite E. apply wp_bind, wp_ret.
  destruct target; simplify_eq/=; by apply Hf.
Qed.

Lemma safe_commit_snapshot snapshot stop epoch partial publish operation :
  is_Some (index_set "stop_id" Null snapshot) ->
  safe' (commit_snapshot encode value_of_event value_of_state value_of_frame world snapshot stop
           epoch partial publish operation).
Proof.
  intros Hs. unfold commit_snapshot. apply safe_bind; [apply safe_require_active|]. intros _.
  apply safe_bind; [apply safe_gets|]. intros w. destruct (negb _); [apply safe_fail|].
  apply safe_unwrap_index; [by destruct snapshot; destruct Hs|]. intros f1.
  do 3 (apply safe_unwrap_index; [by eexists|]; intros ?). safely.
Qed.

Lemma safe_write_inferior data :
  safe' (write_inferior encode base64_encode value_of_event value_of_state value_of_frame world
           data).
Proof.
  apply safe_bind; [|intros; safely].
  eapply (safe_journaled _ _ _ _ _ _ _ _ "inferior.input" _
    (append_appends encode "inferior.input" _)). clear. unfold handled_kinds. set_solver.
Qed.

Hint Resolve safe_commit_snapshot safe_write_inferior : safe.

Lemma safe_finish_request : safe' (finish_request world).
Proof. unfold finish_request. safely. Qed.

Hint Resolve safe_finish_request : safe.

Lemma safe_serve {A} (wrap : Result Error A -> Answer) m : safe' m -> safe' (serve world wrap m).
Proof. intros H. unfold serve. safely. Qed.

Lemma safe_serve_prepared {A} (wrap : Result Error A -> Answer) prepare m :
  safe' prepare -> safe' m -> safe' (serve_prepared world wrap prepare m).
Proof.
  intros Hp Hm. pose proof (safe_serve wrap m Hm). unfold serve_prepared. safely.
Qed.

Lemma safe_refresh operation deadline :
  safe' (with_commands refresh_target_capabilities operation deadline).
Proof. unfold refresh_target_capabilities. safely. Qed.

Hint Resolve safe_refresh : safe.

Lemma safe_handle_request request :
  valid_request request -> safe' (with_requests handle_request request).
Proof.
  intros Hv. destruct request; cbn [handle_request];
    try (apply safe_serve_prepared; by auto with safe);
    try apply safe_serve; unfold register_module_breakpoint, get_operation, remove_value,
      add_tracking, remove_tracking, record_tracking, read_output, from_option_error; safely.
  - by apply safe_apply.
  - apply safe_serve, safe_ret.
Qed.

Hint Resolve safe_handle_request : safe.

(** ** Closing *)

(** Computations whose success establishes [P]. *)
Definition yields {A} (P : Worker -> Prop) (m : actor A) : Prop :=
  forall w w' a, m w = (w', Done a) -> P w'.

Lemma yields_after {A B} P (m : actor A) (f : A -> actor B) :
  (forall a, yields P (f a)) -> yields P (m ≫= f).
Proof.
  intros H w w' b. unfold mbind, comp_bind. destruct (m w) as [w1 []]; try done. apply H.
Qed.

Abbreviation finalized := (fun w => output_evidence_finalized w = true).

Lemma yields_then {A B} (m : actor A) (f : A -> actor B) :
  yields finalized m -> (forall a, acts (f a)) -> yields finalized (m ≫= f).
Proof.
  intros Hm Hf w w' b. unfold mbind, comp_bind. destruct (m w) as [w1 [a| | |]] eqn:E; try done.
  intros E'. specialize (Hf a w1). rewrite E' in Hf. destruct Hf as [_ Hf]. cbn in Hf.
  rewrite (Hm _ _ _ E) in Hf. by destruct (output_evidence_finalized w').
Qed.

Lemma finalize_yields :
  yields finalized (finalize_output_evidence encode value_of_event value_of_state value_of_frame
                      world).
Proof.
  intros w w' []. unfold finalize_output_evidence. unfold mbind at 1, comp_bind at 1. cbn [gets].
  destruct (output_evidence_finalized w) eqn:E; [by intros [= <-]|]. revert w w' E.
  intros w w' _. cut (yields finalized (evidence ← ask world a_evidence; evidence ← lift evidence;
    modify (fun w => w <| output_evidence_finalized := true |>) ;;
    _ ← journaled world apply' (fun o => Journal.append encode o "inferior.output.evidence"
      evidence); mret tt)); [intros H Hw; exact (H w w' tt Hw)|].
  apply yields_after. intros r. apply yields_after. intros v. apply yields_then; [|intros; stay].
  by intros w1 w2 a [= <- <-].
Qed.

Lemma close_yields : yields finalized close'.
Proof.
  unfold close. apply yields_after. intros closing. apply yields_after. intros shutdown.
  apply yields_after. intros []. apply yields_after. intros [].
  apply yields_then; [apply finalize_yields|]. intros []. stay.
Qed.

(** The session is over: the journal takes no more records, or is closed. *)
Definition finished (w : Worker) : Prop :=
  shut w \/ closed_log' w /\ output_evidence_finalized w = true.

Lemma close_finishes w :
  ready w -> wp close' (fun r w' => (frame w w' /\ (coherent w -> coherent w')) /\
    (is_ok r = false -> moved' w w') /\ (is_ok r = true -> inv' true None w -> finished w')) w.
Proof.
  intros Hw. pose proof (close_moves encode base64_encode value_of_event value_of_state
    value_of_frame world sid w Hw) as Hm.
  pose proof (close_spec encode base64_encode value_of_event value_of_state value_of_frame world
    sid w Hw) as Hs. pose proof (close_yields w) as Hy.
  unfold wp in *. destruct (close' w) as [w' [[]|e| |]]; try done.
  - destruct Hm as (Hf & _ & Hc & Hm). destruct Hs as [_ Hs]. split_and!; try done.
    intros _ Hi. destruct (Hs Hi) as [|Hcl]; [by left|right]. split; [done|].
    by apply (Hy w' tt).
  - by destruct Hm as (Hf & _ & Hc & Hm).
Qed.

(** ** One turn of the loop *)

(** The signals and the output spool the worker relies on while idle. *)
Record steady : Prop := {
  st_signal : forall n, a_signal (world n) = None;
  st_evidence : forall n, is_ok (a_evidence (world n)) = true
}.

Record served (ends : bool) (w w' : Worker) : Prop := {
  sv_frame : frame w w';
  sv_coherent : coherent w -> coherent w';
  sv_inv : steady -> wf (session w) -> inv' true None w ->
    inv' true None w' \/ ends = true /\ finished w'
}.

Lemma moved_served ends w w' : moved' w w' -> served ends w w'.
Proof. intros [[Hf Hi] _ Hc]. split; [done|done|]. intros _ _ H. left. auto. Qed.

(** A worker that has failed satisfies it. *)
Lemma fatal_served ends w w' : frame w w' -> fatal w' = true -> served ends w w'.
Proof.
  intros Hf Hfat. split; [done|intros _ H; congruence|]. intros _ _ _. left. by apply inv_fatal.
Qed.

Lemma wf_moves w w' :
  channel_move (channel_view w) (channel_view w') -> wf (session w) -> wf (session w').
Proof.
  intros [[_ Hs] _]. unfold session. cbn in Hs. clear -Hs.
  induction Hs as [|s1 s2 s3 H12 _ IH]; [done|]. intros Hw. by eapply IH, step_wf.
Qed.

Lemma served_trans ends w w1 w2 :
  moved' w w1 -> channel_move (channel_view w) (channel_view w1) -> served ends w1 w2 ->
  served ends w w2.
Proof.
  intros [[Hf Hi] _ Hc] Hs [Hf' Hc' Hi']. split; [by etrans|auto|].
  intros Hst Hw H. apply Hi'; [done|by eapply wf_moves|auto].
Qed.

Lemma served_tick ends w w' n : served ends w w' -> served ends w (w' <| ticks := n |>).
Proof.
  intros [Hf Hc Hi]. split; [etrans; [exact Hf|by apply frame_core]|exact Hc|].
  intros H1 H2 H3. destruct (Hi H1 H2 H3) as [H|H]; [left|by right].
  by apply (inv_core encode base64_encode value_of_event value_of_state sid true None w').
Qed.

Lemma fail_closed_tokens l : outcome_unknown_tokens (borrow (live_fail_closed l).1) =
  outcome_unknown_tokens (borrow l).
Proof.
  rewrite live_fail_closed_borrow. unfold fail_closed.
  destruct (bump_revision_outline (fail_backend (borrow l))) as [_ ->]. done.
Qed.

(** Marking a worker failed says nothing new of a dead session. *)
Lemma mark_failed_served ends w0 w :
  frame w0 w -> (coherent w0 -> coherent w) ->
  (steady -> wf (session w0) -> inv' true None w0 ->
     inv' true None w /\ (fatal w = true \/ fail_closed (session w) = (session w, false))) ->
  wp mark_failed (fun r w' => r = Ok tt /\ served ends w0 w') w.
Proof.
  intros Hf0 Hc0 Hi0. apply wp_modify.
  pose proof (fail_closed_tokens (state w)) as Ht.
  destruct (live_fail_closed (state w)) as [l changed] eqn:El. cbn [fst] in Ht.
  set (w' := if metric_active _ then _ else _).
  assert (frame w w') as Hf by (subst w'; by destruct changed; case_match).
  assert (state w' = l /\ timed_out_tokens w' = timed_out_tokens w /\ fatal w' = fatal w)
    as (Es & Et & Ef) by (subst w'; by destruct changed; case_match).
  split; [done|]. split; [by etrans| |].
  - intros Hc Hfat. rewrite Et. unfold unknown_tokens, session. rewrite Es, Ht.
    apply Hc0; [done|]. congruence.
  - intros Hst Hw Hi. left. destruct (Hi0 Hst Hw Hi) as [Hi1 [Hfat|Hd]].
    { apply inv_fatal. congruence. }
    assert (l = state w /\ changed = false) as [-> ->].
    { unfold live_fail_closed, session, borrow in *. destruct (state w) as [pub n [st|]];
        cbn [published wakeups staged] in *; rewrite Hd in El; by simplify_eq. }
    eapply inv_core; [|exact Hi1]. subst w'. by case_match.
Qed.

Lemma served_fatal_mark ends w0 w :
  frame w0 w -> fatal w = true ->
  wp mark_failed (fun r w' => r = Ok tt /\ served ends w0 w') w.
Proof.
  intros Hf Hfat. apply mark_failed_served; [done|intros _ H; congruence|].
  intros _ _ _. split; [by apply inv_fatal|by left].
Qed.

Lemma apply_event_dead seq status s s' changed :
  apply_event seq (Event.BackendExited status) s = Ok (s', changed) -> dead s'.
Proof.
  intros (_ & s1 & E & ->)%apply_event_inv. apply bump_revision_dead.
  cbn [reduce] in E. change (dead (fst (s1, changed))). rewrite <-E. apply fail_backend_dead.
Qed.

Lemma own_step_dead s s' : dead s -> own_step s s' -> dead s'.
Proof.
  intros Hd (seq & e & c & He & (_ & s1 & E & ->)%apply_event_inv).
  apply bump_revision_dead. change (dead (fst (s1, c))). rewrite <-E. clear E.
  destruct e; try done; cbn [reduce]; unfold_reduce; split_reduce; exact Hd.
Qed.

(** The backend's input channel closed. *)
Lemma backend_gone w :
  sane w -> wp (_ ← attempt (apply' (Event.BackendExited None)); mark_failed ;;
                shut_down world ;; mret true) (fun r w' => r = Ok true /\ served true w w') w.
Proof.
  intros Hw. apply wp_bind, wp_attempt.
  eapply wp_mono; [apply wp_and; [apply wp_and; [by apply (safe_apply encode base64_encode
      value_of_event value_of_state value_of_frame world sid (Event.BackendExited None) eq_refl)|
    eapply (stays_wp _ _ _ (fun _ _ => True)); [apply stays_apply|]]|
    apply (worker_apply_event_spec encode base64_encode value_of_event value_of_state
      value_of_frame world sid true None); apply Hw]|].
  { eapply wp_mono; [apply (apply_strict encode base64_encode value_of_event value_of_state
      value_of_frame world sid); apply Hw|done]. }
  intros r w1 [[Hm [_ Hs]] (Hf & Hd & Hp & _)].
  assert (wp mark_failed (fun r w' => r = Ok tt /\ served true w w') w1) as Hmark.
  { destruct r as [[]|e]; cycle 1.
    { apply served_fatal_mark; [done|]. by destruct (Hd eq_refl). }
    apply mark_failed_served; [done|apply Hm|]. intros _ Hwf Hi. split; [by apply Hm|]. right.
    apply dead_final.
    - destruct Hs as [[_ Hs] _]. cbn in Hs. unfold session in *. clear -Hs Hwf. revert Hwf.
      induction Hs as [|s1 s2 s3 H12 _ IH]; [done|]. intros Hwf. by eapply IH, step_wf.
    - destruct (Hp eq_refl) as [(seq & s1 & c & Ea & Ho) _]. apply apply_event_dead in Ea.
      clear -Ea Ho. induction Ho as [|s1 s2 s3 H12 _ IH]; [done|]. by eapply IH, own_step_dead. }
  apply wp_bind. eapply wp_mono; [exact Hmark|]. intros r' w2 [-> Hsv].
  apply wp_bind, wp_bind, wp_ask, wp_ret, wp_ret. split; [done|]. by apply served_tick.
Qed.


(** An ignored result after a change of the fence. *)
Lemma safe_fence_ignored e f :
  (forall w, core (f w) = core w /\ script (f w) = script w /\
    timed_out_tokens (f w) = tokens_after e (timed_out_tokens w)) ->
  safe' (modify f ;; _ ← attempt (apply' e); mret tt).
Proof.
  intros Hf w Hw. pose proof (safe_fence_event encode base64_encode value_of_event
    value_of_state value_of_frame world sid e f w Hw Hf) as H.
  unfold wp, attempt, mbind, comp_bind, modify in *.
  destruct (apply' e (f w)) as [w' []]; exact H.
Qed.

Lemma safe_idle_input input :
  valid_input input ->
  safe' (idle_input encode base64_encode value_of_event value_of_state value_of_frame world input).
Proof.
  intros Hv. apply safe_bind; [by apply safe_attempt, safe_process_input|].
  intros [[[record seq]|]|e]; [|apply safe_ret..].
  apply safe_bind; [apply safe_gets|]. intros w. destruct (take_delayed_token _ _) as [t|].
  - by apply (safe_fence_ignored (Event.CommandOutcomeResolved t)).
  - safely.
Qed.

Hint Resolve safe_idle_input : safe.

(** A computation that ends the session when it succeeds. *)
Definition finishes (m : actor unit) : Prop := forall w, sane w ->
  wp m (fun r w' => (frame w w' /\ (coherent w -> coherent w')) /\
    (is_ok r = false -> moved' w w') /\ (is_ok r = true -> inv' true None w -> finished w')) w.

Lemma finishes_after (pre : actor unit) : safe' pre -> finishes (pre ;; close').
Proof.
  intros Hp w Hw. apply wp_bind. eapply wp_mono; [by apply Hp|]. intros [[]|e] w1 Hm1.
  - eapply wp_mono; [by apply close_finishes, (moved_sane encode base64_encode value_of_event
      value_of_state sid w)|].
    intros r w2 ([Hf Hc] & He & Ho). pose proof Hm1 as [[Hf1 Hi1] _ Hc1]. split_and!.
    + by etrans.
    + auto.
    + intros Hr. etrans; [exact Hm1|by apply He].
    + auto.
  - split_and!; [apply Hm1|apply Hm1|done|done].
Qed.

Lemma attempt_finishes m w :
  finishes m -> sane w ->
  wp (attempt m) (fun r w' => exists c, r = Ok c /\ served (is_ok c) w w') w.
Proof.
  intros Hm Hw. apply wp_attempt. eapply wp_mono; [by apply Hm|].
  intros r w' ([Hf Hc] & He & Ho). exists r. split; [done|].
  destruct (is_ok r) eqn:E; [|by apply moved_served, He].
  split; [done|done|]. intros _ _ Hi. right. split; [done|auto].
Qed.

Lemma served_answered ends w w' x : served ends w w' -> served ends w (w' <| answered := x |>).
Proof.
  intros [Hf Hc Hi]. split; [etrans; [exact Hf|by apply frame_core]|exact Hc|].
  intros H1 H2 H3. destruct (Hi H1 H2 H3) as [H|H]; [left|by right].
  by apply (inv_core encode base64_encode value_of_event value_of_state sid true None w').
Qed.

Lemma served_any b ends w w' : (b = true -> ends = true) -> served b w w' -> served ends w w'.
Proof.
  intros H [Hf Hc Hi]. split; [done|done|]. intros H1 H2 H3.
  destruct (Hi H1 H2 H3) as [|[]]; [by left|right; auto].
Qed.

Lemma handle_control_served control w :
  sane w -> wp (with_commands handle_control control)
    (fun r w' => exists ends, r = Ok ends /\ served ends w w') w.
Proof.
  intros Hw.
  assert (forall m : actor bool, safe' m -> wp m (fun r _ => is_ok r = true) w ->
    wp m (fun r w' => exists ends, r = Ok ends /\ served ends w w') w) as Hsafe.
  { intros m Hm Hr. eapply wp_mono; [apply wp_and; [by apply Hm|exact Hr]|].
    intros [b|e] w' [Hmv H]; [|done]. exists b. split; [done|by apply moved_served]. }
  assert (forall {A} (m : actor A) (k : Result Error A -> actor bool), safe' m ->
    (forall r, safe' (k r)) -> (forall r w', wp (k r) (fun r _ => is_ok r = true) w') ->
    wp (attempt m ≫= k) (fun r w' => exists ends, r = Ok ends /\ served ends w w') w) as Hatt.
  { intros A m k Hm Hk Hr. apply Hsafe; [safely|]. apply wp_bind, wp_attempt.
    eapply wp_mono; [by apply Hm|]. intros r w' _. apply Hr. }
  destruct control as [operation response|request response|c deadline response|
    id [] response|response]; cbn [handle_control]; unfold respond.
  - apply Hatt; [safely|intros; safely|done].
  - apply Hatt; [safely|intros; safely|done].
  - apply Hatt; [safely|intros; safely|]. intros r w'. unfold finish_interrupt.
    apply wp_bind, wp_ask, wp_bind, wp_bind, wp_gets, wp_bind, wp_when; [intros _; apply wp_modify|intros _];
      apply wp_ret; done.
  - apply Hatt; [safely|intros; safely|done].
  - apply wp_bind. eapply wp_mono;
      [by apply (attempt_finishes (require_active_resume id ;; close')), Hw;
         apply finishes_after; safely|].
    intros r w' (c & -> & Hs). apply wp_bind, wp_modify, wp_ret. eexists. split; [done|].
    rewrite andb_true_r. by apply served_answered.
  - apply wp_bind. eapply wp_mono; [apply (attempt_finishes close'), Hw; intros w0 [H0 _]; by apply close_finishes|].
    intros r w' (c & -> & Hs). apply wp_bind, wp_modify, wp_ret. eexists. split; [done|].
    by apply served_answered, (served_any (is_ok c)).
Qed.

(** These answer even when the worker fails. *)
Lemma serve_answers {A} (wrap : Result Error A -> Answer) m w :
  wp m (fun _ _ => True) w -> wp (serve world wrap m) (fun r _ => is_ok r = true) w.
Proof.
  intros Hm. apply wp_bind, wp_attempt. eapply wp_mono; [exact Hm|]. intros r w' _.
  apply wp_bind, wp_bind, wp_gets, wp_bind, wp_when;
    [intros _; apply wp_bind, wp_ask, wp_ret|intros _]; by apply wp_ret, wp_ret.
Qed.

Lemma safe_settles {A} (m : actor A) w : safe' m -> sane w -> wp m (fun _ _ => True) w.
Proof. intros Hm Hw. eapply wp_mono; [by apply Hm|done]. Qed.

Lemma serve_prepared_answers {A} (wrap : Result Error A -> Answer) prepare m w :
  safe' prepare -> safe' m -> sane w ->
  wp (serve_prepared world wrap prepare m) (fun r _ => is_ok r = true) w.
Proof.
  intros Hp Hm Hw. apply wp_bind, wp_attempt. eapply wp_mono; [by apply Hp|].
  intros [[]|e] w' Hmv; [|by apply wp_ret]. apply serve_answers, safe_settles; [done|].
  by apply (moved_sane encode base64_encode value_of_event value_of_state sid w).
Qed.

Lemma handle_request_answers request w :
  sane w -> valid_request request ->
  wp (with_requests handle_request request) (fun r _ => is_ok r = true) w.
Proof using sid.
  intros Hw Hv. destruct request; cbn [handle_request];
    try (apply serve_prepared_answers; by auto with safe);
    try (apply serve_answers, safe_settles; [|exact Hw];
         unfold get_operation, remove_value, add_tracking, remove_tracking, record_tracking,
           from_option_error; solve [safely | by apply safe_apply]).
  - unfold register_module_breakpoint. apply wp_bind, wp_bind, wp_gets. cbn [id].
    destruct (_ && _); [by apply wp_ret, wp_ret|].
    apply wp_bind, wp_modify, wp_bind, wp_modify, wp_ret, serve_answers. by apply wp_ret.
  - unfold read_output. apply wp_bind, wp_bind, wp_gets, wp_bind, wp_ask.
    assert (forall (r : RingRead) w, wp (ends ← finish_request world; mret (AOutput r, ends))
      (fun r _ => is_ok r = true) w) as Hend.
    { intros r w1. apply wp_bind, wp_bind, wp_gets, wp_bind, wp_when;
        [intros _; apply wp_bind, wp_ask, wp_ret|intros _]; by apply wp_ret, wp_ret. }
    destruct ring; [apply wp_bind, wp_ask|..]; apply wp_ret, Hend.
Qed.

Lemma idle_input_answers input w :
  ready w -> valid_input input ->
  wp (idle_input encode base64_encode value_of_event value_of_state value_of_frame world input)
    (fun r _ => is_ok r = true) w.
Proof using sid.
  intros H Hv. pose proof (process_input_keeps encode base64_encode value_of_event value_of_state
    value_of_frame world sid input w H Hv) as Hp.
  apply wp_bind, wp_attempt. eapply wp_mono; [exact Hp|]. intros r w1 Hk.
  pose proof (kept_ready _ _ _ _ _ _ _ Hk H) as H1.
  destruct r as [[[record seq]|]|e]; [|by apply wp_ret..].
  apply wp_bind, wp_gets. cbn [id]. destruct (take_delayed_token _ _) as [t|].
  - apply wp_bind, wp_modify, wp_bind, wp_attempt. eapply wp_mono;
      [apply (apply_strict encode base64_encode value_of_event value_of_state value_of_frame
        world sid); exact H1|]. intros; by apply wp_ret.
  - apply wp_bind, wp_attempt. eapply wp_mono; [apply (handle_unmatched_strict encode
      base64_encode value_of_event value_of_state value_of_frame world sid); exact H1|].
    intros; by apply wp_ret.
Qed.

Lemma escalate_settles now w :
  wp (escalate_acknowledged_interrupt world now) (fun r w' => core w' = core w /\
    timed_out_tokens w' = timed_out_tokens w /\ (steady -> is_ok r = true)) w.
Proof.
  apply wp_bind, wp_gets. cbn [id]. destruct (interrupt_fallback_at w) as [deadline|];
    [|by apply wp_ret]. destruct (now <? deadline)%N; [by apply wp_ret|].
  apply wp_bind, wp_modify, wp_when; [|done]. intros _. apply wp_bind, wp_ask.
  unfold from_option_error. destruct (a_signal _) as [e|] eqn:E; [|by apply wp_ret].
  apply wp_fail. split_and!; [done..|]. intros Hst. by rewrite (st_signal Hst) in E.
Qed.

Lemma serve_input_served input w :
  sane w -> valid_worker_input input ->
  wp (with_requests serve_input input)
    (fun r w' => exists ends, r = Ok ends /\ served ends w w') w.
Proof.
  intros Hw Hv. destruct input as [|control|[request|]|[input|]|now]; cbn [serve_input].
  - apply wp_bind, wp_attempt.
    eapply wp_mono; [apply wp_and; [by apply safe_flush_journal|by apply (flush_journal_strict
      encode base64_encode value_of_event value_of_state value_of_frame world sid), Hw]|].
    intros [[]|e] w1 [Hm [_ Hd]].
    { apply wp_ret. exists false. split; [done|by apply moved_served]. }
    destruct (Hd eq_refl) as [Hfat _]. apply wp_bind.
    eapply wp_mono; [apply (served_fatal_mark true w); [apply Hm|done]|].
    intros r w2 [-> Hs]. apply wp_bind, wp_bind, wp_ask, wp_ret, wp_ret. exists true.
    split; [done|by apply served_tick].
  - apply wp_bind, wp_gets. destruct (controls_open w).
    + destruct control as [control|]; [by apply handle_control_served|].
      apply wp_bind, wp_modify, wp_ret. exists false. split; [done|].
      apply moved_served. by split; [apply kept_core| |].
    + apply wp_ret. exists false. split; [done|by apply moved_served].
  - apply wp_bind. pose proof (safe_handle_request request Hv w Hw) as H.
    eapply wp_mono; [apply wp_and; [exact H|by apply handle_request_answers]|].
    intros [[answer ends]|e] w' [Hm Ho]; [|done]. apply wp_ret. exists ends. split; [done|].
    by apply moved_served.
  - apply wp_bind. eapply wp_mono;
      [apply (attempt_finishes close'), Hw; intros w0 [H0 _]; by apply close_finishes|].
    intros r w' (c & -> & Hs). apply wp_ret. exists true. split; [done|].
    by apply (served_any (is_ok c)).
  - apply wp_bind. eapply wp_mono; [apply wp_and; [by apply safe_idle_input|apply idle_input_answers; [apply Hw|done]]|].
    intros [[]|e] w1 [Hm Ho]; [|done]. apply wp_bind, wp_gets.
    apply wp_bind, wp_when; [intros _; apply wp_bind, wp_ask, wp_ret|intros _]; apply wp_ret;
      eexists; (split; [done|]); [apply served_tick|]; by apply moved_served.
  - eapply wp_mono; [by apply backend_gone|]. intros r w' [-> Hs]. by exists true.
  - apply wp_bind, wp_attempt. eapply wp_mono; [apply wp_and; [by apply
      (safe_escalate_acknowledged encode base64_encode value_of_event value_of_state world sid)|
      apply escalate_settles]|].
    intros [[]|e] w1 [Hm (Ec & Et & Ho)].
    { apply wp_ret. exists false. split; [done|by apply moved_served]. }
    apply wp_bind. eapply wp_mono; [apply (mark_failed_served false w); [apply Hm|apply Hm|]|].
    { intros Hst. by specialize (Ho Hst). }
    intros r w2 [-> Hs]. apply wp_ret. by exists false.
Qed.

(** ** The loop *)

Lemma safe_rebind_when_due : safe' (with_commands rebind_when_due).
Proof. unfold rebind_when_due. safely. Qed.

Lemma rebind_answers w :
  sane w -> wp (with_commands rebind_when_due) (fun r _ => is_ok r = true) w.
Proof using sid.
  intros Hw. apply wp_bind, wp_gets, wp_when; [|done]. intros _.
  apply wp_bind, wp_modify, wp_bind, wp_attempt.
  eapply wp_mono; [apply (safe_rebind encode base64_encode value_of_event value_of_state
    value_of_frame value_of_record world sid); exact Hw|]. intros; by apply wp_ret.
Qed.

Lemma speaks_rebind_when_due : speaks (with_commands rebind_when_due).
Proof. pose proof (speaks_rebind encode base64_encode value_of_event value_of_state value_of_frame
  value_of_record world). unfold rebind_when_due. speak. Qed.

Lemma run_loop_served turns w :
  ready w -> Forall valid_turn turns ->
  wp (with_requests run_loop turns)
    (fun r w' => exists ended, r = Ok ended /\ served ended w w') w.
Proof.
  intros Hr Hv. revert w Hr. induction Hv as [|[inputs input] turns [Hs Hi] _ IH]; intros w Hr.
  { apply wp_ret. exists false. split; [done|by apply moved_served]. }
  cbn [run_loop]. apply wp_bind, wp_modify. set (w0 := w <| script := inputs |>).
  assert (sane w0) as Hw0 by (by split).
  (* the new script is the only difference *)
  cut (wp (with_commands rebind_when_due ;; ends ← with_requests serve_input input;
           if (ends : bool) then mret true else with_requests run_loop turns)
         (fun r w' => exists ended, r = Ok ended /\ served ended w0 w') w0).
  { intros H. eapply wp_mono; [exact H|]. intros r w' (ended & -> & Hsv). exists ended.
    split; [done|]. destruct Hsv as [Hf Hc Hin]. split; [etrans; [|exact Hf]; by apply frame_core|
      exact Hc|]. intros H1 H2 H3. apply Hin; [done|done|].
    by apply (inv_core encode base64_encode value_of_event value_of_state sid true None w). }
  apply wp_bind. eapply wp_mono; [apply wp_and; [by apply rebind_answers|
    eapply stays_wp; [apply speaks_rebind_when_due|by apply safe_rebind_when_due]]|].
  intros [[]|e] w1 [Ho [Hm1 Hs1]]; [|done].
  pose proof (moved_sane _ _ _ _ _ _ _ Hm1 Hw0) as Hw1. apply wp_bind.
  eapply wp_mono; [eapply (stays_wp channel_view channel_move);
    [apply speaks_serve_input|by apply serve_input_served]|].
  intros r w2 [(ends & -> & Hsv) Hs2].
  assert (served ends w0 w2) as Hsv0 by (by eapply served_trans). destruct ends.
  { apply wp_ret. by exists true. }
  eapply wp_mono; [apply IH; unfold ready; by rewrite (fr_limit _ _ (sv_frame _ _ _ Hsv0))|].
  intros r w3 (ended & -> & Hsv3). exists ended. split; [done|].
  split; [etrans; [apply Hsv0|apply Hsv3]| |].
  - intros Hc. by apply (sv_coherent _ _ _ Hsv3), (sv_coherent _ _ _ Hsv0).
  - intros Hst Hwf Hin. destruct (sv_inv _ _ _ Hsv0 Hst Hwf Hin) as [Hin2|[? _]]; [|done].
    apply (sv_inv _ _ _ Hsv3 Hst); [|done]. eapply wf_moves; [|exact Hwf].
    etrans; [exact Hs1|exact Hs2].
Qed.

(** ** The epilogue *)

(** The journal is the log of the session. *)
Definition evidence (w : Worker) : Prop :=
  exists items closed, logged base64_encode value_of_event value_of_state 2 items (creating sid) /\
    session w = live_state base64_encode value_of_event value_of_state sid items /\
    recorded (journal w) =
      session_journal base64_encode value_of_event value_of_state sid items closed /\
    (closed = true -> lifecycle (session w) = Lifecycle.Closed) /\
    (lenN (recorded (journal w)) + 1 < U64_MAX)%N.

Lemma journal_room j :
  journal_ok encode j -> (max_bytes j + 1 < U64_MAX)%N -> (lenN (recorded j) + 1 < U64_MAX)%N.
Proof.
  intros Hj Hm. pose proof (recorded_le_size encode (recorded j)). pose proof (jo_bound _ _ Hj). lia.
Qed.

Lemma inv_evidence w :
  inv' true None w -> fatal w = false -> recording (journal w) = true -> evidence w.
Proof.
  intros Hi Hf Hr. destruct (Hi Hf) as [_ Hg]. destruct (Hg Hr) as [Hl (items & Hlog & Es & Er) _ _ _ _].
  rewrite app_nil_r in Er. exists items, false. split_and!; [done..|].
  destruct Hl. by apply journal_room.
Qed.

Lemma finished_evidence w :
  finished w -> fatal w = false -> recording (journal w) = true -> evidence w.
Proof.
  intros [[H|H]|[(items & Hlog & Es & Er & Hc & _ & Hj & _ & Hm) _]] Hf Hr; [congruence..|].
  exists items, true. split_and!; [done..|]. by apply journal_room.
Qed.

Lemma flush_recorded o j : recorded (flush o j).1 = recorded j.
Proof.
  unfold flush, stop_recording. repeat case_match; done.
Qed.

Lemma evidence_flush w j n :
  recorded j = recorded (journal w) -> evidence w ->
  evidence (w <| journal := j |> <| ticks := n |>).
Proof.
  intros E (items & closed & Hl & Es & Er & Hc & Hm). exists items, closed. cbn.
  rewrite E. by split_and!.
Qed.

Lemma finalize_strict w :
  ready w ->
  wp (finalize_output_evidence encode value_of_event value_of_state value_of_frame world)
    (fun r w' => kept' w w' /\ (steady -> is_ok r = false -> fatal w' = true)) w.
Proof.
  intros H. pose proof (finalize_output_keeps encode base64_encode value_of_event value_of_state
    value_of_frame world sid w H) as Hk. apply wp_and; [exact Hk|]. clear Hk.
  apply wp_bind, wp_gets. destruct (output_evidence_finalized w); [by apply wp_ret|].
  apply wp_bind, wp_ask, wp_bind, wp_lift.
  destruct (a_evidence (world (ticks w))) as [v|e] eqn:Ea; cycle 1.
  { intros Hst. pose proof (st_evidence Hst (ticks w)) as Hb. by rewrite Ea in Hb. }
  apply wp_bind, wp_modify, wp_bind.
  eapply wp_mono; [apply (other_strict encode base64_encode value_of_event value_of_state
    value_of_frame world sid _ _ _ (append_appends encode "inferior.output.evidence" v))|].
  - exact H.
  - clear. unfold handled_kinds. set_solver.
  - intros [seq|e] w' [_ Hd]; [by apply wp_ret|]. intros _ _. by apply Hd.
Qed.

(** In order, or over. *)
Definition settled (w : Worker) : Prop := inv' true None w \/ finished w.

Lemma settled_evidence w :
  settled w -> fatal w = false -> recording (journal w) = true -> evidence w.
Proof. intros [H|H]; [by apply inv_evidence|by apply finished_evidence]. Qed.

Lemma settled_shut w w' : frame w w' -> shut w -> settled w'.
Proof. intros Hf Hs. right. left. by eapply frame_shut. Qed.

Lemma finalize_stage w :
  ready w ->
  wp (finalized ← gets output_evidence_finalized;
      when (negb finalized) (
        shut_down world ;;
        stored ← attempt (finalize_output_evidence encode value_of_event value_of_state
                            value_of_frame world);
        when (negb (is_ok stored)) mark_failed))
    (fun r w' => r = Ok tt /\ frame w w' /\ (steady -> settled w -> settled w')) w.
Proof.
  intros H. apply wp_bind, wp_gets.
  destruct (output_evidence_finalized w) eqn:Hfin; [by apply wp_ret|]. cbn [negb when].
  apply wp_bind, wp_bind, wp_ask, wp_ret, wp_bind, wp_attempt.
  set (w0 := w <| ticks := S (ticks w) |>).
  assert (frame w w0) as Hf0 by (by apply frame_core).
  eapply wp_mono; [apply finalize_strict; exact H|]. intros r w1 [[Hf Hi] Hfat].
  assert (frame w w1) as Hf1 by (by etrans).
  assert (forall w2, frame w1 w2 -> (steady -> inv' true None w -> inv' true None w2) ->
    steady -> settled w -> settled w2) as Hset.
  { intros w2 Hf2 Hi2 Hst [Hin|[Hsh|[_ Hcl]]]; [left; auto| |congruence].
    eapply settled_shut; [|exact Hsh]. by etrans. }
  assert (inv' true None w -> inv' true None w0) as Hi0.
  { by apply (inv_core encode base64_encode value_of_event value_of_state sid true None w). }
  destruct r as [[]|e]; cbn [is_ok negb when].
  - apply wp_ret. split_and!; [done|done|]. apply Hset; [done|auto].
  - eapply wp_mono; [apply mark_failed_spec|]. intros r w2 (-> & Hf2 & Ef & _).
    split_and!; [done|by etrans|]. apply Hset; [done|]. intros Hst _. apply inv_fatal.
    rewrite Ef. by apply Hfat.
Qed.

Lemma checkpoint_stage w :
  ready w ->
  wp (failed ← gets fatal;
      if (failed : bool) then _ ← ask world a_store; mret tt
      else _ ← attempt (checkpoint encode value_of_state world apply' false); mret tt)
    (fun r w' => r = Ok tt /\ frame w w' /\ (settled w -> settled w')) w.
Proof.
  intros H. apply wp_bind, wp_gets. destruct (fatal w) eqn:Hfat.
  { apply wp_bind, wp_ask, wp_ret. split_and!; [done|by apply frame_core|]. intros _.
    left. by apply inv_fatal. }
  apply wp_bind, wp_attempt.
  assert (wp (checkpoint encode value_of_state world apply' false) (fun r w' =>
    kept' w w' /\ (clean w -> w' = w <| dirty_operations := ∅ |>)) w) as Hck.
  { apply wp_and.
    - eapply wp_mono; [by apply (checkpoint_op_strict encode base64_encode value_of_event
        value_of_state value_of_frame world sid)|]. by intros r w' [? _].
    - apply wp_assuming; [eapply wp_mono; [by apply (checkpoint_op_strict encode base64_encode
        value_of_event value_of_state value_of_frame world sid)|done]|].
      intros Hc. eapply wp_mono; [by apply checkpoint_clean|]. by intros r w' [_ ?]. }
  eapply wp_mono; [exact Hck|]. intros r w' [[Hf Hi] Hc]. apply wp_ret. split_and!; [done|done|].
  intros [Hin|[Hsh|[Hcl Hfin]]]; [left; auto|by eapply settled_shut|].
  right. right. destruct Hcl as (items & Hlog & Es & Er & Hl & Hcn & Hj & Ha & Hm).
  rewrite (Hc Hcn). split; [|exact Hfin]. exists items. destruct Hcn.
  split_and!; [done..|by split|done|done|done].
Qed.

Lemma run_end_spec w :
  ready w ->
  wp (run_end encode value_of_event value_of_state value_of_frame world)
    (fun r w' => r = Ok tt /\ frame w w' /\ (steady -> settled w -> fatal w' = false ->
       recording (journal w') = true -> evidence w')) w.
Proof.
  intros H. unfold run_end. apply wp_assoc, wp_bind. eapply wp_mono; [by apply finalize_stage|].
  intros r w1 (-> & Hf1 & Hs1). apply wp_assoc, wp_bind. eapply wp_mono;
    [apply checkpoint_stage; unfold ready; by rewrite (fr_limit _ _ Hf1)|].
  intros r w2 (-> & Hf2 & Hs2). apply wp_bind, wp_journaling. intros j r E. apply wp_ret.
  assert (frame w2 (w2 <| journal := j |> <| ticks := S (ticks w2) |>)) as Hf3.
  { pose proof (flush_frame (a_io (world (ticks w2))) (journal w2)) as (Hd & _ & Hr).
    rewrite E in Hd, Hr. by apply journal_frame. }
  split_and!; [done|do 2 (etrans; [done|]); done|]. intros Hst Hset Hfat Hrec.
  apply evidence_flush.
  - pose proof (flush_recorded (a_io (world (ticks w2))) (journal w2)) as Hr. by rewrite E in Hr.
  - apply settled_evidence; [auto|exact Hfat|]. by apply (fr_recording _ _ Hf3).
Qed.

(** The worker's life: it always ends, and leaves its evidence in order. *)
Lemma run_spec turns w :
  ready w -> Forall valid_turn turns ->
  wp (with_requests run turns)
    (fun r w' => r = Ok tt /\ frame w w' /\ (steady -> wf (session w) -> inv' true None w ->
       fatal w' = false -> recording (journal w') = true -> evidence w')) w.
Proof.
  intros Hr Hv. unfold run. apply wp_bind. eapply wp_mono; [by apply run_loop_served|].
  intros r w1 (ended & -> & Hs1).
  assert (ready w1) as Hr1 by (unfold ready; by rewrite (fr_limit _ _ (sv_frame _ _ _ Hs1))).
  assert (wp (when (negb ended) (_ ← with_requests serve_input (IRequest None); mret tt))
    (fun r w' => r = Ok tt /\ frame w w' /\
       (steady -> wf (session w) -> inv' true None w -> settled w')) w1) as Hend.
  { destruct ended; cbn [negb when].
    - apply wp_ret. split_and!; [done|apply Hs1|]. intros H1 H2 H3.
      destruct (sv_inv _ _ _ Hs1 H1 H2 H3) as [|[_ ?]]; [by left|by right].
    - apply wp_bind, wp_bind, wp_attempt.
      assert (forall w2, frame w1 w2 -> (inv' true None w1 -> settled w2) -> frame w w2 /\
        (steady -> wf (session w) -> inv' true None w -> settled w2)) as Hc.
      { intros w2 Hf Hi. split; [etrans; [apply Hs1|done]|]. intros H1 H2 H3.
        destruct (sv_inv _ _ _ Hs1 H1 H2 H3) as [|[]]; [auto|done]. }
      eapply wp_mono; [by apply close_finishes|]. intros r w2 ([Hf _] & He & Ho).
      apply wp_ret, wp_ret. split; [done|]. apply Hc; [done|]. intros Hi.
      destruct (is_ok r); [right; auto|left; by apply He]. }
  apply wp_bind. eapply wp_mono; [exact Hend|]. intros r w2 (-> & Hf2 & Hset).
  eapply wp_mono; [apply run_end_spec; unfold ready; by rewrite (fr_limit _ _ Hf2)|].
  intros r w3 (-> & Hf3 & Hev). split_and!; [done|by etrans|]. auto.
Qed.

End loop.
