(* ===== verification/BootstrapProofs.v ===== *)
(** * BootstrapProofs: a worker that has come to life

    What holds when the bootstrap of a worker succeeds: its journal is the log
    of its session, and GDB has acknowledged every setting of the handshake. *)

From S2P Require Import Prelude Text MiAst MiParser Json Errors Domain Reducer ReducerInv Backend Normalize Ring LiveState Journal Replay ReplayLive Policy Protocol Effects Actor ActorFrame ActorProofs Commands CommandProofs CommandSafe Tracking Requests Bootstrap CommandFence CommandReplies RequestProofs.

(** GDB received [c] and answered it with a result that is no error. *)
Definition acknowledged (inputs : list (N * ExecutionInput)) (w : Worker) (c : MiCommand) : Prop :=
  exists token class results, encoded c token ∈ sent w /\ class <> "error" /\
    received inputs (RResult (Some token) class results).

Section bootstrap.
#[local] Set Default Proof Using "Type".
Context (encode : JournalEntry -> bytes) (base64_encode : bytes -> string)
        (sha256_hex : bytes -> string)
        (value_of_event : Event.DomainEvent -> Value)
        (value_of_state : SessionState -> Value)
        (value_of_frame : FrameSummary -> Value)
        (value_of_record : MiRecord -> Value)
        (world : nat -> answers) (sid : SessionId).

Abbreviation apply' :=
  (worker_apply_event encode value_of_event value_of_state value_of_frame world).
Abbreviation inv' := (inv encode base64_encode value_of_event value_of_state sid).
Abbreviation safe' := (safe encode base64_encode value_of_event value_of_state sid).
Abbreviation moved' := (moved encode base64_encode value_of_event value_of_state sid).
Abbreviation with_commands f := (f encode base64_encode value_of_event value_of_state
  value_of_frame value_of_record world) (only parsing).

(** ** The session and the channel only move *)

Lemma speaks_execute c : speaks (with_commands execute c).
Proof.
  pose proof (speaks_execute_until encode base64_encode value_of_event value_of_state
    value_of_frame value_of_record world). unfold execute. speak.
Qed.

Hint Resolve speaks_execute : speaks.

Lemma speaks_execute_all commands : speaks (with_commands execute_all commands).
Proof. induction commands; cbn [execute_all]; speak. Qed.

Lemma speaks_probe_all commands : speaks (with_commands probe_all commands).
Proof. induction commands; cbn [probe_all]; unfold note_command; speak. Qed.

Lemma speaks_fix_scripts : speaks (with_commands fix_breakpoint_scripts).
Proof. unfold fix_breakpoint_scripts. speak. Qed.

Hint Resolve speaks_execute_all speaks_probe_all speaks_fix_scripts : speaks.

Lemma speaks_handshake version pty : speaks (with_commands handshake version pty).
Proof. unfold handshake, set_capability. speak. Qed.

Lemma speaks_load_extension extension :
  speaks (load_extension encode base64_encode sha256_hex value_of_event value_of_state
            value_of_frame value_of_record world extension).
Proof. unfold load_extension, set_capability, add_limitation. speak. Qed.

Lemma speaks_select attempts last :
  speaks (select_backend encode base64_encode value_of_event world attempts last).
Proof. revert last. induction attempts; intros last; cbn [select_backend]; speak. Qed.

Hint Resolve speaks_handshake speaks_load_extension speaks_select : speaks.

Lemma speaks_bootstrap attempts hardened isolated pty extension :
  speaks (bootstrap encode base64_encode sha256_hex value_of_event value_of_state
            value_of_frame value_of_record world attempts hardened isolated pty extension).
Proof. unfold bootstrap. speak. Qed.

(** ** The evidence *)

Lemma safe_execute c : safe' (with_commands execute c).
Proof.
  pose proof (safe_execute_until encode base64_encode value_of_event value_of_state
    value_of_frame value_of_record world sid) as H. unfold execute. safely.
Qed.

Hint Resolve safe_execute : safe.

Lemma safe_execute_all commands : safe' (with_commands execute_all commands).
Proof. induction commands; cbn [execute_all]; safely. Qed.

Lemma safe_probe_all commands : safe' (with_commands probe_all commands).
Proof. induction commands; cbn [probe_all]; unfold note_command; safely. Qed.

Lemma safe_fix_scripts : safe' (with_commands fix_breakpoint_scripts).
Proof. unfold fix_breakpoint_scripts. safely. Qed.

Hint Resolve safe_execute_all safe_probe_all safe_fix_scripts safe_checkpoint : safe.

Lemma safe_handshake version pty : safe' (with_commands handshake version pty).
Proof. unfold handshake, set_capability. safely. Qed.

Lemma safe_load_extension extension :
  safe' (load_extension encode base64_encode sha256_hex value_of_event value_of_state
            value_of_frame value_of_record world extension).
Proof. unfold load_extension, set_capability, add_limitation. safely. Qed.

Hint Resolve safe_handshake safe_load_extension : safe.

Lemma prompt_sane inputs ending w :
  sane w -> Forall valid_input inputs ->
  wp (wait_for_prompt encode base64_encode value_of_event world inputs ending)
    (fun r w' => (sane w' /\ script w' = script w) /\
       (is_ok r = true -> inv' false None w -> inv' false None w')) w.
Proof.
  intros [Hr Hs] Hv. eapply wp_mono; [eapply stays_wp; [apply stays_wait_for_prompt|
    by apply wait_for_prompt_spec]|].
  intros r w1 [[Hf Hk] Hm]. apply actor_move_fields in Hm as [Es _].
  split; [split; [split|exact Es]|exact Hk].
  - unfold ready. by rewrite (fr_limit _ _ Hf).
  - by rewrite Es.
Qed.

Lemma select_sane attempts last w :
  sane w -> Forall (fun a => Forall valid_input (at_inputs a)) attempts ->
  wp (select_backend encode base64_encode value_of_event world attempts last)
    (fun _ w' => sane w' /\ script w' = script w) w.
Proof using value_of_state sid.
  intros Hw Hv. revert last w Hw. induction Hv as [|a attempts Ha Hv IH]; intros last w Hw.
  { by apply wp_fail. }
  cbn [select_backend]. apply wp_bind, wp_lift. destruct (at_spawn a); [|done].
  apply wp_bind, wp_attempt. eapply wp_mono; [by apply prompt_sane|]. intros r w1 [[Hw1 E1] _].
  destruct r as [[]|e]; [by apply wp_ret|]. apply wp_bind, wp_ask.
  eapply wp_mono; [by apply IH|]. intros _ w2 [? E2]. split; [done|]. by rewrite E2.
Qed.

(** The first version GDB is started with reaches its prompt. *)
Lemma select_spec a w :
  sane w -> Forall valid_input (at_inputs a) -> inv' false None w ->
  wp (select_backend encode base64_encode value_of_event world [a] None)
    (fun r w' => is_ok r = true -> sane w' /\ inv' false None w') w.
Proof.
  intros Hw Hv Hi. cbn [select_backend]. apply wp_bind, wp_lift.
  destruct (at_spawn a); [|done]. apply wp_bind, wp_attempt.
  eapply wp_mono; [by apply prompt_sane|]. intros [[]|e] w1 [[Hw1 _] Hk].
  - apply wp_ret. intros _. split; [done|by apply Hk].
  - apply wp_bind, wp_ask. by apply wp_fail.
Qed.

Lemma started_sane e w :
  sane w -> wp (apply' e) (fun r w' => (sane w' /\ script w' = script w) /\
    (e = Event.BackendStarted -> inv' false None w -> inv' true None w')) w.
Proof.
  intros [Hr Hs]. eapply wp_mono; [eapply stays_wp; [apply stays_apply|
    apply (worker_apply_event_spec encode base64_encode value_of_event value_of_state
      value_of_frame world sid false None); exact Hr]|].
  intros r w1 [(Hf & _ & _ & Hi) Hm]. apply actor_move_fields in Hm as [Es _].
  split; [split; [split|exact Es]|].
  - unfold ready. by rewrite (fr_limit _ _ Hf).
  - by rewrite Es.
  - intros ? H. apply Hi; [done|by right|done].
Qed.

Lemma bootstrap_spec a hardened isolated pty extension w :
  sane w -> Forall valid_input (at_inputs a) -> inv' false None w ->
  wp (bootstrap encode base64_encode sha256_hex value_of_event value_of_state
        value_of_frame value_of_record world [a] hardened isolated pty extension)
    (fun r w' => is_ok r = true -> sane w' /\ inv' true None w') w.
Proof.
  intros Hw Hv Hi. unfold bootstrap. apply wp_bind.
  eapply wp_mono; [by apply select_spec|]. intros [version|e] w1 H1; [|done].
  destruct (H1 eq_refl) as [Hw1 Hi1]. do 2 apply wp_bind, wp_modify.
  set (w2 := _ <| capability_limitations := _ |>).
  assert (sane w2) as Hw2 by exact Hw1. assert (inv' false None w2) as Hi2 by (eapply inv_core; [|exact Hi1]; reflexivity).
  apply wp_bind. eapply wp_mono; [apply started_sane; exact Hw2|].
  intros [[]|e] w3 [[Hw3 _] Hi3]; [|done]. assert (inv' true None w3) as Hinv by (by apply Hi3).
  eapply wp_mono; [apply (safe_bind encode base64_encode value_of_event value_of_state sid);
    [apply safe_handshake|intros ?; safely|exact Hw3]|].
  intros r w4 Hmv _. split; [exact (moved_sane _ _ _ _ _ _ _ Hmv Hw3)|].
  by apply (mv_kept _ _ _ _ _ _ _ Hmv).
Qed.

(** ** Acknowledged settings *)

Lemma acknowledged_mono inputs inputs' w w' c :
  inputs ⊆ inputs' -> sent w `prefix_of` sent w' ->
  acknowledged inputs w c -> acknowledged inputs' w' c.
Proof.
  intros Hi [l Hl] (token & class & results & Hc & Hn & now & raw & Hr). exists token, class, results.
  rewrite Hl, elem_of_app. split_and!; [by left|done|]. exists now, raw. by apply Hi.
Qed.

Lemma speaks_sent {A} (m : actor A) w : speaks m -> sent w `prefix_of` sent (m w).1.
Proof.
  intros H. destruct (H w) as [[Hp _] _]. apply Fence.path_tokens in Hp as (_ & issued & E & _).
  cbn in E. rewrite E. by apply prefix_app_r.
Qed.

Lemma speaks_limit {A} (m : actor A) w : speaks m -> stream_limit (m w).1 = stream_limit w.
Proof. intros H. destruct (H w) as [_ E]. by injection E. Qed.

Lemma speaks_profile {A} (m : actor A) w : speaks m -> profile (m w).1 = profile w.
Proof. intros H. destruct (H w) as [_ E]. by injection E. Qed.

Section answers.
Context (p : Profile).

(** A success of [m] means that every command of [C] was acknowledged. *)
Definition answers_all {A} (C : list MiCommand) (m : actor A) : Prop :=
  forall w w' a, sane w -> (stream_limit w < U64_MAX)%N -> profile w = p -> m w = (w', Done a) ->
  Forall (acknowledged (script w) w') C.

(** [m] leaves a sane worker and reads on in its script. *)
Definition ongoing {A} (m : actor A) : Prop :=
  forall w, sane w -> wp m (fun _ w' => sane w' /\ script w' `suffix_of` script w) w.

Lemma safe_ongoing {A} (m : actor A) : safe' m -> ongoing m.
Proof.
  intros H w Hw. eapply wp_mono; [by apply H|]. intros r w' Hm.
  split; [exact (moved_sane _ _ _ _ _ _ _ Hm Hw)|apply Hm].
Qed.

Lemma answers_nothing {A} (m : actor A) : answers_all [] m.
Proof. by constructor. Qed.

Lemma answers_bind {A B} C1 C2 (m : actor A) (f : A -> actor B) :
  ongoing m -> speaks m -> (forall a, speaks (f a)) ->
  answers_all C1 m -> (forall a, answers_all C2 (f a)) -> answers_all (C1 ++ C2) (m ≫= f).
Proof.
  intros Hs Hm Hf H1 H2 w w' b Hw Hl Hp. unfold mbind, comp_bind.
  pose proof (Hs w Hw) as Hmv. unfold wp in Hmv.
  pose proof (speaks_limit m w Hm) as El. pose proof (speaks_profile m w Hm) as Ep.
  destruct (m w) as [w1 [a| | |]] eqn:E; try done. destruct Hmv as [Hw1 [l Hsc]]. intros E'.
  pose proof (speaks_sent (f a) w1 (Hf a)) as Hse. rewrite E' in Hse. cbn in El, Ep, Hse.
  apply Forall_app. split.
  - eapply Forall_impl; [exact (H1 w w1 a Hw Hl Hp E)|]. intros c. by apply acknowledged_mono.
  - eapply Forall_impl; [eapply (H2 a w1); [exact Hw1|by rewrite El|by rewrite Ep|exact E']|].
    intros c. apply acknowledged_mono; [|done].
    intros x Hx. rewrite Hsc. apply elem_of_app. by right.
Qed.

(** Its first and its second part. *)
Lemma answers_first {A B} C (m : actor A) (f : A -> actor B) :
  ongoing m -> speaks m -> (forall a, speaks (f a)) -> answers_all C m -> answers_all C (m ≫= f).
Proof.
  intros. rewrite <-(app_nil_r C). apply answers_bind; [done..|]. intros. apply answers_nothing.
Qed.

Lemma answers_second {A B} C (m : actor A) (f : A -> actor B) :
  ongoing m -> speaks m -> (forall a, speaks (f a)) ->
  (forall a, answers_all C (f a)) -> answers_all C (m ≫= f).
Proof. intros. apply (answers_bind []); [done..|apply answers_nothing|done]. Qed.

Lemma answers_profile {A} C (f : Profile -> actor A) :
  answers_all C (f p) -> answers_all C (gets profile ≫= f).
Proof. intros H w w' a Hw Hl Hp E. eapply H; [done..|]. rewrite <-Hp. exact E. Qed.

Lemma execute_answers c : answers_all [c] (with_commands execute (Ok c)).
Proof.
  intros w w' a Hw Hl _. unfold execute. unfold mbind, comp_bind. cbn [lift ask gets].
  intros E. unfold mret, comp_ret in E. cbn in E.
  apply execute_until_reply in E as [Hr [lines Es]]; [|done..]. cbn in Es.
  destruct Hr as [_ [results Er] Hc Hin _ _]. rewrite Er in Hin. apply Forall_singleton.
  exists (next_token w), (cr_class a), results. split_and!; [|done|done].
  rewrite Es. apply elem_of_app. right. by left.
Qed.

Lemma execute_all_answers commands C :
  commands = Ok <$> C -> answers_all C (with_commands execute_all commands).
Proof using sid.
  revert C. induction commands as [|r commands IH]; intros [|c C] E; try done;
    [apply answers_nothing|]. cbn in E. simplify_eq. cbn [execute_all].
  apply (answers_bind [c]); [apply safe_ongoing, safe_execute|apply speaks_execute|intros; apply speaks_execute_all
    |apply execute_answers|]. intros _. by apply IH.
Qed.

End answers.

(** What the handshake fixes for a profile. *)
Definition session_settings (p : Profile) : list (list string) :=
  handshake_settings ++
  ((fun setting => [setting; if executes p then "on" else "off"]) <$> guarded_settings).

Definition setting_command (arguments : list string) : MiCommand :=
  MkMiCommand (bytes_of "-gdb-set") ((fun a => Bare (bytes_of a)) <$> arguments).

Lemma handshake_answers p version pty :
  answers_all p (setting_command <$> session_settings p) (with_commands handshake version pty).
Proof using sid.
  unfold handshake, session_settings. rewrite fmap_app.
  apply answers_second; [apply safe_ongoing; safely|speak|intros; unfold set_capability; speak|].
  intros _. apply answers_bind; [apply safe_ongoing; safely|speak|
    intros; unfold set_capability; speak|by apply execute_all_answers|].
  intros _. apply answers_profile, answers_first;
    [apply safe_ongoing; safely|speak|intros; unfold set_capability; speak|].
  apply execute_all_answers. by destruct p.
Qed.

Lemma bootstrap_answers p attempts hardened isolated pty extension :
  Forall (fun a => Forall valid_input (at_inputs a)) attempts ->
  answers_all p (setting_command <$> session_settings p)
    (bootstrap encode base64_encode sha256_hex value_of_event value_of_state
       value_of_frame value_of_record world attempts hardened isolated pty extension).
Proof using sid.
  intros Hv. unfold bootstrap. apply answers_second; [|speak|intros; speak|intros version].
  { intros w Hw. eapply wp_mono; [by apply select_sane|]. by intros _ w' [? ->]. }
  apply answers_second; [apply safe_ongoing; safely|speak|intros; speak|intros _].
  apply answers_second; [apply safe_ongoing; safely|speak|intros; speak|intros _].
  apply answers_second; [|speak|intros; speak|intros _].
  { intros w Hw. eapply wp_mono; [by apply started_sane|]. by intros r w' [[? ->] _]. }
  apply answers_first; [apply safe_ongoing; safely|speak|intros; speak|]. apply handshake_answers.
Qed.

End bootstrap.
