(* ===== verification/Codec.v ===== *)
(** * Codec: a lossless encoding of events and states

    Encodings that satisfy the round trips required of the JSON serializers:
    every event and every session state is written as a number and read back.
    They instantiate the serializer parameters of the theorems on journals. *)

From S2P Require Import Prelude Text Json Errors Domain.

(** An element is its constructor's number and the encodings of its fields. *)

Definition SessionLifecycle_parts (x : Lifecycle.SessionLifecycle) : nat * list positive :=
  match x with
  | Lifecycle.Creating => (0, [])
  | Lifecycle.Ready => (1, [])
  | Lifecycle.Active => (2, [])
  | Lifecycle.Closing => (3, [])
  | Lifecycle.Closed => (4, [])
  | Lifecycle.Failed => (5, [])
  end.

Definition SessionLifecycle_join (p : nat * list positive) : option Lifecycle.SessionLifecycle :=
  match p with
  | (0, []) => Some Lifecycle.Creating
  | (1, []) => Some Lifecycle.Ready
  | (2, []) => Some Lifecycle.Active
  | (3, []) => Some Lifecycle.Closing
  | (4, []) => Some Lifecycle.Closed
  | (5, []) => Some Lifecycle.Failed
  | _ => None
  end.

#[export] Instance SessionLifecycle_countable : Countable Lifecycle.SessionLifecycle.
Proof.
  refine (inj_countable SessionLifecycle_parts SessionLifecycle_join _). by intros []; cbn; rewrite ?decode_encode.
Defined.

Definition BackendHealth_parts (x : Backend.BackendHealth) : nat * list positive :=
  match x with
  | Backend.Starting => (0, [])
  | Backend.Healthy => (1, [])
  | Backend.Busy => (2, [])
  | Backend.Unresponsive => (3, [])
  | Backend.Dead => (4, [])
  end.

Definition BackendHealth_join (p : nat * list positive) : option Backend.BackendHealth :=
  match p with
  | (0, []) => Some Backend.Starting
  | (1, []) => Some Backend.Healthy
  | (2, []) => Some Backend.Busy
  | (3, []) => Some Backend.Unresponsive
  | (4, []) => Some Backend.Dead
  | _ => None
  end.

#[export] Instance BackendHealth_countable : Countable Backend.BackendHealth.
Proof.
  refine (inj_countable BackendHealth_parts BackendHealth_join _). by intros []; cbn; rewrite ?decode_encode.
Defined.

Definition InferiorStatus_parts (x : Inferior.InferiorStatus) : nat * list positive :=
  match x with
  | Inferior.Empty => (0, [])
  | Inferior.Connecting => (1, [])
  | Inferior.Stopped => (2, [])
  | Inferior.Running => (3, [])
  | Inferior.Exited => (4, [])
  | Inferior.Detached => (5, [])
  | Inferior.Disconnected => (6, [])
  | Inferior.Core => (7, [])
  | Inferior.Unknown => (8, [])
  end.

Definition InferiorStatus_join (p : nat * list positive) : option Inferior.InferiorStatus :=
  match p with
  | (0, []) => Some Inferior.Empty
  | (1, []) => Some Inferior.Connecting
  | (2, []) => Some Inferior.Stopped
  | (3, []) => Some Inferior.Running
  | (4, []) => Some Inferior.Exited
  | (5, []) => Some Inferior.Detached
  | (6, []) => Some Inferior.Disconnected
  | (7, []) => Some Inferior.Core
  | (8, []) => Some Inferior.Unknown
  | _ => None
  end.

#[export] Instance InferiorStatus_countable : Countable Inferior.InferiorStatus.
Proof.
  refine (inj_countable InferiorStatus_parts InferiorStatus_join _). by intros []; cbn; rewrite ?decode_encode.
Defined.

Definition TargetOrigin_parts (x : Origin.TargetOrigin) : nat * list positive :=
  match x with
  | Origin.Unknown => (0, [])
  | Origin.Local => (1, [])
  | Origin.Attach => (2, [])
  | Origin.Remote => (3, [])
  | Origin.Core => (4, [])
  end.

Definition TargetOrigin_join (p : nat * list positive) : option Origin.TargetOrigin :=
  match p with
  | (0, []) => Some Origin.Unknown
  | (1, []) => Some Origin.Local
  | (2, []) => Some Origin.Attach
  | (3, []) => Some Origin.Remote
  | (4, []) => Some Origin.Core
  | _ => None
  end.

#[export] Instance TargetOrigin_countable : Countable Origin.TargetOrigin.
Proof.
  refine (inj_countable TargetOrigin_parts TargetOrigin_join _). by intros []; cbn; rewrite ?decode_encode.
Defined.

Definition Consistency_parts (x : Consistent.Consistency) : nat * list positive :=
  match x with
  | Consistent.Clean => (0, [])
  | Consistent.ManagedDirty => (1, [])
  | Consistent.Reconciling => (2, [])
  | Consistent.Tainted => (3, [])
  | Consistent.Lost => (4, [])
  end.

Definition Consistency_join (p : nat * list positive) : option Consistent.Consistency :=
  match p with
  | (0, []) => Some Consistent.Clean
  | (1, []) => Some Consistent.ManagedDirty
  | (2, []) => Some Consistent.Reconciling
  | (3, []) => Some Consistent.Tainted
  | (4, []) => Some Consistent.Lost
  | _ => None
  end.

#[export] Instance Consistency_countable : Countable Consistent.Consistency.
Proof.
  refine (inj_countable Consistency_parts Consistency_join _). by intros []; cbn; rewrite ?decode_encode.
Defined.

Definition SnapshotStatus_parts (x : Snapshot.SnapshotStatus) : nat * list positive :=
  match x with
  | Snapshot.Building => (0, [])
  | Snapshot.Ready => (1, [])
  | Snapshot.Failed => (2, [])
  end.

Definition SnapshotStatus_join (p : nat * list positive) : option Snapshot.SnapshotStatus :=
  match p with
  | (0, []) => Some Snapshot.Building
  | (1, []) => Some Snapshot.Ready
  | (2, []) => Some Snapshot.Failed
  | _ => None
  end.

#[export] Instance SnapshotStatus_countable : Countable Snapshot.SnapshotStatus.
Proof.
  refine (inj_countable SnapshotStatus_parts SnapshotStatus_join _). by intros []; cbn; rewrite ?decode_encode.
Defined.

Definition OutputSource_parts (x : Out.OutputSource) : nat * list positive :=
  match x with
  | Out.InferiorPty => (0, [])
  | Out.MiTargetStream => (1, [])
  | Out.GdbConsoleStream => (2, [])
  | Out.GdbLogStream => (3, [])
  | Out.ServerDiagnostic => (4, [])
  end.

Definition OutputSource_join (p : nat * list positive) : option Out.OutputSource :=
  match p with
  | (0, []) => Some Out.InferiorPty
  | (1, []) => Some Out.MiTargetStream
  | (2, []) => Some Out.GdbConsoleStream
  | (3, []) => Some Out.GdbLogStream
  | (4, []) => Some Out.ServerDiagnostic
  | _ => None
  end.

#[export] Instance OutputSource_countable : Countable Out.OutputSource.
Proof.
  refine (inj_countable OutputSource_parts OutputSource_join _). by intros []; cbn; rewrite ?decode_encode.
Defined.

Definition StopReason_parts (x : Reason.StopReason) : nat * list positive :=
  match x with
  | Reason.Breakpoint x0 x1 => (0, [encode x0; encode x1])
  | Reason.Watchpoint x0 x1 x2 => (1, [encode x0; encode x1; encode x2])
  | Reason.Signal x0 x1 => (2, [encode x0; encode x1])
  | Reason.EndSteppingRange => (3, [])
  | Reason.FunctionFinished => (4, [])
  | Reason.LocationReached => (5, [])
  | Reason.Interrupt => (6, [])
  | Reason.Core => (7, [])
  | Reason.Unknown x0 => (8, [encode x0])
  end.

Definition StopReason_join (p : nat * list positive) : option Reason.StopReason :=
  match p with
  | (0, [p0; p1]) => x0 ← decode p0; x1 ← decode p1; Some (Reason.Breakpoint x0 x1)
  | (1, [p0; p1; p2]) =>
      x0 ← decode p0; x1 ← decode p1; x2 ← decode p2; Some (Reason.Watchpoint x0 x1 x2)
  | (2, [p0; p1]) => x0 ← decode p0; x1 ← decode p1; Some (Reason.Signal x0 x1)
  | (3, []) => Some Reason.EndSteppingRange
  | (4, []) => Some Reason.FunctionFinished
  | (5, []) => Some Reason.LocationReached
  | (6, []) => Some Reason.Interrupt
  | (7, []) => Some Reason.Core
  | (8, [p0]) => x0 ← decode p0; Some (Reason.Unknown x0)
  | _ => None
  end.

#[export] Instance StopReason_countable : Countable Reason.StopReason.
Proof.
  refine (inj_countable StopReason_parts StopReason_join _). by intros []; cbn; rewrite ?decode_encode.
Defined.

Definition FrameSummary_parts (x : FrameSummary) : nat * list positive :=
  match x with
  | MkFrameSummary x0 x1 x2 x3 x4 x5 => (0, [encode x0; encode x1; encode x2; encode x3; encode x4; encode x5])
  end.

Definition FrameSummary_join (p : nat * list positive) : option FrameSummary :=
  match p with
  | (0, [p0; p1; p2; p3; p4; p5]) =>
      x0 ← decode p0; x1 ← decode p1; x2 ← decode p2; x3 ← decode p3; x4 ← decode p4; x5 ← decode p5; Some (MkFrameSummary x0 x1 x2 x3 x4 x5)
  | _ => None
  end.

#[export] Instance FrameSummary_countable : Countable FrameSummary.
Proof.
  refine (inj_countable FrameSummary_parts FrameSummary_join _). by intros []; cbn; rewrite ?decode_encode.
Defined.

Definition ThreadState_parts (x : ThreadState) : nat * list positive :=
  match x with
  | MkThreadState x0 x1 x2 x3 => (0, [encode x0; encode x1; encode x2; encode x3])
  end.

Definition ThreadState_join (p : nat * list positive) : option ThreadState :=
  match p with
  | (0, [p0; p1; p2; p3]) =>
      x0 ← decode p0; x1 ← decode p1; x2 ← decode p2; x3 ← decode p3; Some (MkThreadState x0 x1 x2 x3)
  | _ => None
  end.

#[export] Instance ThreadState_countable : Countable ThreadState.
Proof.
  refine (inj_countable ThreadState_parts ThreadState_join _). by intros []; cbn; rewrite ?decode_encode.
Defined.

Definition InferiorState_parts (x : InferiorState) : nat * list positive :=
  match x with
  | MkInferiorState x0 x1 x2 x3 x4 x5 x6 => (0, [encode x0; encode x1; encode x2; encode x3; encode x4; encode x5; encode x6])
  end.

Definition InferiorState_join (p : nat * list positive) : option InferiorState :=
  match p with
  | (0, [p0; p1; p2; p3; p4; p5; p6]) =>
      x0 ← decode p0; x1 ← decode p1; x2 ← decode p2; x3 ← decode p3; x4 ← decode p4;
      x5 ← decode p5; x6 ← decode p6;
      Some (MkInferiorState x0 x1 x2 x3 x4 x5 x6)
  | _ => None
  end.

#[export] Instance InferiorState_countable : Countable InferiorState.
Proof.
  refine (inj_countable InferiorState_parts InferiorState_join _). by intros []; cbn; rewrite ?decode_encode.
Defined.

Definition SnapshotRef_parts (x : SnapshotRef) : nat * list positive :=
  match x with
  | MkSnapshotRef x0 x1 x2 x3 => (0, [encode x0; encode x1; encode x2; encode x3])
  end.

Definition SnapshotRef_join (p : nat * list positive) : option SnapshotRef :=
  match p with
  | (0, [p0; p1; p2; p3]) =>
      x0 ← decode p0; x1 ← decode p1; x2 ← decode p2; x3 ← decode p3; Some (MkSnapshotRef x0 x1 x2 x3)
  | _ => None
  end.

#[export] Instance SnapshotRef_countable : Countable SnapshotRef.
Proof.
  refine (inj_countable SnapshotRef_parts SnapshotRef_join _). by intros []; cbn; rewrite ?decode_encode.
Defined.

Definition BreakpointLocationState_parts (x : BreakpointLocationState) : nat * list positive :=
  match x with
  | MkBreakpointLocationState x0 x1 x2 x3 => (0, [encode x0; encode x1; encode x2; encode x3])
  end.

Definition BreakpointLocationState_join (p : nat * list positive) : option BreakpointLocationState :=
  match p with
  | (0, [p0; p1; p2; p3]) =>
      x0 ← decode p0; x1 ← decode p1; x2 ← decode p2; x3 ← decode p3; Some (MkBreakpointLocationState x0 x1 x2 x3)
  | _ => None
  end.

#[export] Instance BreakpointLocationState_countable : Countable BreakpointLocationState.
Proof.
  refine (inj_countable BreakpointLocationState_parts BreakpointLocationState_join _). by intros []; cbn; rewrite ?decode_encode.
Defined.

Definition BreakpointState_parts (x : BreakpointState) : nat * list positive :=
  match x with
  | MkBreakpointState x0 x1 x2 x3 x4 => (0, [encode x0; encode x1; encode x2; encode x3; encode x4])
  end.

Definition BreakpointState_join (p : nat * list positive) : option BreakpointState :=
  match p with
  | (0, [p0; p1; p2; p3; p4]) =>
      x0 ← decode p0; x1 ← decode p1; x2 ← decode p2; x3 ← decode p3; x4 ← decode p4; Some (MkBreakpointState x0 x1 x2 x3 x4)
  | _ => None
  end.

#[export] Instance BreakpointState_countable : Countable BreakpointState.
Proof.
  refine (inj_countable BreakpointState_parts BreakpointState_join _). by intros []; cbn; rewrite ?decode_encode.
Defined.

Definition ModuleState_parts (x : ModuleState) : nat * list positive :=
  match x with
  | MkModuleState x0 x1 x2 x3 => (0, [encode x0; encode x1; encode x2; encode x3])
  end.

Definition ModuleState_join (p : nat * list positive) : option ModuleState :=
  match p with
  | (0, [p0; p1; p2; p3]) =>
      x0 ← decode p0; x1 ← decode p1; x2 ← decode p2; x3 ← decode p3; Some (MkModuleState x0 x1 x2 x3)
  | _ => None
  end.

#[export] Instance ModuleState_countable : Countable ModuleState.
Proof.
  refine (inj_countable ModuleState_parts ModuleState_join _). by intros []; cbn; rewrite ?decode_encode.
Defined.

Definition SignalPolicyState_parts (x : SignalPolicyState) : nat * list positive :=
  match x with
  | MkSignalPolicyState x0 x1 x2 => (0, [encode x0; encode x1; encode x2])
  end.

Definition SignalPolicyState_join (p : nat * list positive) : option SignalPolicyState :=
  match p with
  | (0, [p0; p1; p2]) =>
      x0 ← decode p0; x1 ← decode p1; x2 ← decode p2; Some (MkSignalPolicyState x0 x1 x2)
  | _ => None
  end.

#[export] Instance SignalPolicyState_countable : Countable SignalPolicyState.
Proof.
  refine (inj_countable SignalPolicyState_parts SignalPolicyState_join _). by intros []; cbn; rewrite ?decode_encode.
Defined.

Definition SessionState_parts (x : SessionState) : nat * list positive :=
  match x with
  | MkSessionState x0 x1 x2 x3 x4 x5 x6 x7 x8 x9 x10 x11 x12 x13 x14 x15 x16 x17 x18 x19 x20 => (0, [encode x0; encode x1; encode x2; encode x3; encode x4; encode x5; encode x6; encode x7; encode x8; encode x9; encode x10; encode x11; encode x12; encode x13; encode x14; encode x15; encode x16; encode x17; encode x18; encode x19; encode x20])
  end.

Definition SessionState_join (p : nat * list positive) : option SessionState :=
  match p with
  | (0, [p0; p1; p2; p3; p4; p5; p6; p7; p8; p9; p10; p11; p12; p13; p14; p15; p16; p17; p18; p19; p20]) =>
      x0 ← decode p0; x1 ← decode p1; x2 ← decode p2; x3 ← decode p3; x4 ← decode p4;
      x5 ← decode p5; x6 ← decode p6; x7 ← decode p7; x8 ← decode p8; x9 ← decode p9;
      x10 ← decode p10; x11 ← decode p11; x12 ← decode p12; x13 ← decode p13; x14 ← decode p14;
      x15 ← decode p15; x16 ← decode p16; x17 ← decode p17; x18 ← decode p18; x19 ← decode p19;
      x20 ← decode p20;
      Some (MkSessionState x0 x1 x2 x3 x4 x5 x6 x7 x8 x9 x10 x11 x12 x13 x14 x15 x16 x17 x18 x19 x20)
  | _ => None
  end.

#[export] Instance SessionState_countable : Countable SessionState.
Proof.
  refine (inj_countable SessionState_parts SessionState_join _). by intros []; cbn; rewrite ?decode_encode.
Defined.

Definition DomainEvent_parts (x : Event.DomainEvent) : nat * list positive :=
  match x with
  | Event.SessionClosing => (0, [])
  | Event.SessionClosed => (1, [])
  | Event.BackendStarted => (2, [])
  | Event.BackendExited x0 => (3, [encode x0])
  | Event.TargetRunning x0 => (4, [encode x0])
  | Event.TargetStopped x0 x1 x2 x3 x4 => (5, [encode x0; encode x1; encode x2; encode x3; encode x4])
  | Event.InferiorAdded x0 x1 => (6, [encode x0; encode x1])
  | Event.InferiorRemoved x0 => (7, [encode x0])
  | Event.InferiorExited x0 x1 x2 => (8, [encode x0; encode x1; encode x2])
  | Event.ThreadCreated x0 x1 => (9, [encode x0; encode x1])
  | Event.ThreadExited x0 x1 => (10, [encode x0; encode x1])
  | Event.BreakpointCreated x0 x1 x2 => (11, [encode x0; encode x1; encode x2])
  | Event.BreakpointModified x0 x1 x2 => (12, [encode x0; encode x1; encode x2])
  | Event.BreakpointDeleted x0 => (13, [encode x0])
  | Event.BreakpointLocations x0 x1 => (14, [encode x0; encode x1])
  | Event.BreakpointRebound x0 x1 x2 x3 x4 => (15, [encode x0; encode x1; encode x2; encode x3; encode x4])
  | Event.LibraryLoaded x0 x1 x2 x3 => (16, [encode x0; encode x1; encode x2; encode x3])
  | Event.LibraryUnloaded x0 => (17, [encode x0])
  | Event.MemoryChanged => (18, [])
  | Event.RegisterChanged x0 => (19, [encode x0])
  | Event.ControllerChanged x0 => (20, [encode x0])
  | Event.EvidenceGap x0 => (21, [encode x0])
  | Event.SignalPolicyChanged x0 x1 => (22, [encode x0; encode x1])
  | Event.SnapshotStarted x0 => (23, [encode x0])
  | Event.SnapshotReady x0 x1 x2 => (24, [encode x0; encode x1; encode x2])
  | Event.SnapshotFailed x0 => (25, [encode x0])
  | Event.CommandOutcomeUnknown x0 => (26, [encode x0])
  | Event.CommandOutcomeResolved x0 => (27, [encode x0])
  | Event.ConsistencyDirty x0 => (28, [encode x0])
  | Event.ConsistencyReconciling => (29, [])
  | Event.ConsistencyTainted x0 => (30, [encode x0])
  | Event.ConsistencyRestored x0 => (31, [encode x0])
  | Event.ConsistencyLost x0 => (32, [encode x0])
  | Event.TargetDisconnected => (33, [])
  | Event.TargetDetached => (34, [])
  | Event.CoreOpened x0 => (35, [encode x0])
  | Event.TargetConfigured x0 => (36, [encode x0])
  | Event.Output x0 x1 => (37, [encode x0; encode x1])
  | Event.OutputAdvanced x0 x1 x2 x3 => (38, [encode x0; encode x1; encode x2; encode x3])
  | Event.UnknownBackendEvent x0 => (39, [encode x0])
  | Event.UnknownBackendNotification x0 => (40, [encode x0])
  end.

Definition DomainEvent_join (p : nat * list positive) : option Event.DomainEvent :=
  match p with
  | (0, []) => Some Event.SessionClosing
  | (1, []) => Some Event.SessionClosed
  | (2, []) => Some Event.BackendStarted
  | (3, [p0]) => x0 ← decode p0; Some (Event.BackendExited x0)
  | (4, [p0]) => x0 ← decode p0; Some (Event.TargetRunning x0)
  | (5, [p0; p1; p2; p3; p4]) =>
      x0 ← decode p0; x1 ← decode p1; x2 ← decode p2; x3 ← decode p3; x4 ← decode p4; Some (Event.TargetStopped x0 x1 x2 x3 x4)
  | (6, [p0; p1]) => x0 ← decode p0; x1 ← decode p1; Some (Event.InferiorAdded x0 x1)
  | (7, [p0]) => x0 ← decode p0; Some (Event.InferiorRemoved x0)
  | (8, [p0; p1; p2]) =>
      x0 ← decode p0; x1 ← decode p1; x2 ← decode p2; Some (Event.InferiorExited x0 x1 x2)
  | (9, [p0; p1]) => x0 ← decode p0; x1 ← decode p1; Some (Event.ThreadCreated x0 x1)
  | (10, [p0; p1]) => x0 ← decode p0; x1 ← decode p1; Some (Event.ThreadExited x0 x1)
  | (11, [p0; p1; p2]) =>
      x0 ← decode p0; x1 ← decode p1; x2 ← decode p2; Some (Event.BreakpointCreated x0 x1 x2)
  | (12, [p0; p1; p2]) =>
      x0 ← decode p0; x1 ← decode p1; x2 ← decode p2; Some (Event.BreakpointModified x0 x1 x2)
  | (13, [p0]) => x0 ← decode p0; Some (Event.BreakpointDeleted x0)
  | (14, [p0; p1]) => x0 ← decode p0; x1 ← decode p1; Some (Event.BreakpointLocations x0 x1)
  | (15, [p0; p1; p2; p3; p4]) =>
      x0 ← decode p0; x1 ← decode p1; x2 ← decode p2; x3 ← decode p3; x4 ← decode p4; Some (Event.BreakpointRebound x0 x1 x2 x3 x4)
  | (16, [p0; p1; p2; p3]) =>
      x0 ← decode p0; x1 ← decode p1; x2 ← decode p2; x3 ← decode p3; Some (Event.LibraryLoaded x0 x1 x2 x3)
  | (17, [p0]) => x0 ← decode p0; Some (Event.LibraryUnloaded x0)
  | (18, []) => Some Event.MemoryChanged
  | (19, [p0]) => x0 ← decode p0; Some (Event.RegisterChanged x0)
  | (20, [p0]) => x0 ← decode p0; Some (Event.ControllerChanged x0)
  | (21, [p0]) => x0 ← decode p0; Some (Event.EvidenceGap x0)
  | (22, [p0; p1]) => x0 ← decode p0; x1 ← decode p1; Some (Event.SignalPolicyChanged x0 x1)
  | (23, [p0]) => x0 ← decode p0; Some (Event.SnapshotStarted x0)
  | (24, [p0; p1; p2]) =>
      x0 ← decode p0; x1 ← decode p1; x2 ← decode p2; Some (Event.SnapshotReady x0 x1 x2)
  | (25, [p0]) => x0 ← decode p0; Some (Event.SnapshotFailed x0)
  | (26, [p0]) => x0 ← decode p0; Some (Event.CommandOutcomeUnknown x0)
  | (27, [p0]) => x0 ← decode p0; Some (Event.CommandOutcomeResolved x0)
  | (28, [p0]) => x0 ← decode p0; Some (Event.ConsistencyDirty x0)
  | (29, []) => Some Event.ConsistencyReconciling
  | (30, [p0]) => x0 ← decode p0; Some (Event.ConsistencyTainted x0)
  | (31, [p0]) => x0 ← decode p0; Some (Event.ConsistencyRestored x0)
  | (32, [p0]) => x0 ← decode p0; Some (Event.ConsistencyLost x0)
  | (33, []) => Some Event.TargetDisconnected
  | (34, []) => Some Event.TargetDetached
  | (35, [p0]) => x0 ← decode p0; Some (Event.CoreOpened x0)
  | (36, [p0]) => x0 ← decode p0; Some (Event.TargetConfigured x0)
  | (37, [p0; p1]) => x0 ← decode p0; x1 ← decode p1; Some (Event.Output x0 x1)
  | (38, [p0; p1; p2; p3]) =>
      x0 ← decode p0; x1 ← decode p1; x2 ← decode p2; x3 ← decode p3; Some (Event.OutputAdvanced x0 x1 x2 x3)
  | (39, [p0]) => x0 ← decode p0; Some (Event.UnknownBackendEvent x0)
  | (40, [p0]) => x0 ← decode p0; Some (Event.UnknownBackendNotification x0)
  | _ => None
  end.

#[export] Instance DomainEvent_countable : Countable Event.DomainEvent.
Proof.
  refine (inj_countable DomainEvent_parts DomainEvent_join _). by intros []; cbn; rewrite ?decode_encode.
Defined.

(** ** As JSON values *)

Definition number_of {A} `{Countable A} (x : A) : Value := Int (Zpos (encode x)).

Definition of_number {A} `{Countable A} (v : Value) : Result Error A :=
  match v with
  | Int (Zpos p) => ok_or (decode p) (Error_new Code.InvalidArgument "not an encoding")
  | _ => Err (Error_new Code.InvalidArgument "not a number")
  end.

Lemma of_number_of {A} `{Countable A} (x : A) : of_number (number_of x) = Ok x.
Proof. unfold of_number, number_of. by rewrite decode_encode. Qed.
