(* ===== verification/ActorProps.v ===== *)
(** * ActorProps: what the session actor guarantees

    The guarantees of the worker over its whole life, from the first prompt of
    GDB to the end of its loop, for every order of inputs and every behaviour
    of the outside. *)

From S2P Require Import Prelude Text MiAst MiParser Json Errors Domain Reducer ReducerInv Backend Normalize Ring LiveState Journal Replay ReplayLive Policy Protocol Effects Actor ActorFrame ActorProofs Commands CommandProofs CommandSafe Tracking Requests Bootstrap CommandFence CommandReplies RequestProofs BootstrapProofs Codec.

Section guarantees.
#[local] Set Default Proof Using "Type".
Context (entry_of_line : bytes -> Result Error JournalEntry)
        (encode : JournalEntry -> bytes)
        (sha256_hex : bytes -> string)
        (base64_encode : bytes -> string) (base64_decode : string -> Result string bytes)
        (to_vec : Value -> option bytes)
        (value_of_event : Event.DomainEvent -> Value)
        (event_of_value : Value -> Result Error Event.DomainEvent)
        (value_of_state : SessionState -> Value)
        (state_of_value : Value -> Result Error SessionState)
        (gap_of_value : Value -> Result Error JournalGap)
        (value_of_frame : FrameSummary -> Value)
        (value_of_record : MiRecord -> Value)
        (world : nat -> answers) (sid : SessionId).

Definition decode_option (s : string) : option bytes :=
  match base64_decode s with Ok b => Some b | Err _ => None end.

Abbreviation bootstrap' := (bootstrap encode base64_encode sha256_hex value_of_event
  value_of_state value_of_frame value_of_record world).
Abbreviation run_loop' := (run_loop encode base64_encode decode_option to_vec value_of_event
  value_of_state value_of_frame value_of_record world).
Abbreviation run' := (run encode base64_encode decode_option to_vec value_of_event
  value_of_state value_of_frame value_of_record world).
Abbreviation execute_until' := (execute_until encode base64_encode value_of_event value_of_state
  value_of_frame value_of_record world).
Abbreviation opened' := (opened encode sid).

(** C23: the worker always ends: on every finite sequence of turns, whatever
    arrives while its commands are in flight and whatever the outside answers,
    the loop with its epilogue returns; no panic is reached, no request, event
    or command waits for ever. *)
Theorem worker_always_ends turns w :
  snapshot_limit w <> 0 -> Forall valid_turn turns -> (run' turns w).2 = Done tt.
Proof using sid.
  intros Hr Hv. pose proof (run_spec encode base64_encode decode_option to_vec value_of_event
    value_of_state value_of_frame value_of_record world sid turns w Hr Hv) as H.
  unfold wp in H. destruct (run' turns w) as [w' []]; try done; by destruct H as [[= ->] _].
Qed.

(** ** Evidence *)

Definition serializers_round_trip : Prop :=
  (forall raw, base64_decode (base64_encode raw) = Ok raw) /\
  (forall e, event_of_value (value_of_event e) = Ok e) /\
  (forall s, state_of_value (value_of_state s) = Ok s).

Lemma logged_items_ok seq items s :
  serializers_round_trip -> logged base64_encode value_of_event value_of_state seq items s ->
  items_ok base64_encode base64_decode value_of_event event_of_value value_of_state
    state_of_value seq items s.
Proof.
  intros (H64 & He & Hs). revert seq s. induction items as [|item items IH]; intros seq s; [done|].
  cbn [logged items_ok]. intros [Hi Hl]. split; [|by apply IH].
  destruct item; cbn [logged_item item_ok] in *; [by split|by split_and!|done|by split|done|done].
Qed.

Lemma opened_session w : opened' w -> session w = creating sid.
Proof.
  intros [_ Hst _ _]. unfold session, borrow. rewrite Hst. unfold LiveState_new. cbn.
  by destruct (is_durable (journal w)).
Qed.

Lemma bootstrapped_session attempts hardened isolated pty extension w :
  rtc step (session w) (session (bootstrap' attempts hardened isolated pty extension w).1).
Proof.
  destruct (speaks_bootstrap encode base64_encode sha256_hex value_of_event value_of_state
    value_of_frame value_of_record world attempts hardened isolated pty extension w)
    as [[_ H] _]. exact H.
Qed.

Lemma bootstrapped_inv a hardened isolated pty extension w w' :
  opened' w -> Forall valid_execution_input (script w) -> Forall valid_input (at_inputs a) ->
  bootstrap' [a] hardened isolated pty extension w = (w', Done tt) ->
  ready w' /\ inv encode base64_encode value_of_event value_of_state sid true None w' /\
  wf (session w').
Proof.
  intros Ho Hs Hv E. pose proof (bootstrap_spec encode base64_encode sha256_hex value_of_event
    value_of_state value_of_frame value_of_record world sid a hardened isolated pty extension w
    (conj (op_ready _ _ _ Ho) Hs) Hv (opened_inv _ _ _ _ _ w Ho)) as H.
  destruct (wp_run _ _ _ _ _ H E eq_refl) as [[Hr _] Hi]. split_and!; [done..|].
  apply (reachable_wf sid). unfold reachable. rewrite <-(opened_session w Ho).
  pose proof (bootstrapped_session [a] hardened isolated pty extension w) as Hm. by rewrite E in Hm.
Qed.

(** C1: the evidence of a whole session replays to the session: a worker is
    bootstrapped on a fresh journal (the prompt, the handshake, the
    extension), serves any turns and ends; if it has not failed and its journal still records, the file that
    holds its records replays without error, whatever identifier the caller
    supplies, to exactly the worker's final state, with no gap, and is reported
    complete only when the session was closed.  Serializers round trip; the
    signals and the output spool of the idle worker work. *)
Theorem session_evidence_replays a hardened isolated pty extension turns w w1 w2 lines other :
  serializers_round_trip -> SessionId_parse sid = Ok sid -> steady world -> opened' w ->
  Forall valid_execution_input (script w) -> Forall valid_input (at_inputs a) ->
  Forall valid_turn turns ->
  bootstrap' [a] hardened isolated pty extension w = (w1, Done tt) -> run' turns w1 = (w2, Done tt) ->
  fatal w2 = false -> recording (journal w2) = true ->
  holds entry_of_line lines (recorded (journal w2)) ->
  exists report,
    replay entry_of_line base64_decode event_of_value state_of_value gap_of_value lines other =
      Done report /\
    report_state report = session w2 /\ report_evidence_gap report = None /\
    (report_complete report = true -> lifecycle (session w2) = Lifecycle.Closed).
Proof.
  intros Hrt Hid Hst Ho Hsc Hv Ht E1 E2 Hf Hr Hl.
  destruct (bootstrapped_inv _ _ _ _ _ w w1 Ho Hsc Hv E1) as (Hr1 & Hi1 & Hw1).
  pose proof (run_spec encode base64_encode decode_option to_vec value_of_event value_of_state
    value_of_frame value_of_record world sid turns w1 Hr1 Ht) as H.
  destruct (wp_run _ _ _ _ _ H E2) as (_ & _ & Hev).
  destruct (Hev Hst Hw1 Hi1 Hf Hr) as (items & closed & Hlog & Es & Er & Hc & Hm).
  rewrite Er in Hl, Hm. rewrite Es in Hc.
  destruct (replay_reproduces_the_session entry_of_line base64_encode base64_decode value_of_event
    event_of_value value_of_state state_of_value gap_of_value sid other items closed lines Hid
    (logged_items_ok _ _ _ Hrt Hlog) Hc Hm Hl) as (report & Ep & Est & Eco & Egap).
  exists report. rewrite Es. split_and!; [done..|]. rewrite Eco. exact Hc.
Qed.


(** ** The session the actor owns *)

(** C24: the actor changes its session only by transitions of the reducer: from
    the creation of the session to any later moment its state is reachable and
    coherent, whatever its requests, its commands and the outside did. *)
Theorem actor_sessions_are_coherent attempts hardened isolated pty extension turns w w1 :
  opened' w -> bootstrap' attempts hardened isolated pty extension w = (w1, Done tt) ->
  let w2 := (run_loop' turns w1).1 in
  reachable sid (session w2) /\ wf (session w2).
Proof.
  intros Ho E. cbn zeta.
  assert (reachable sid (session (run_loop' turns w1).1)) as H; [|by split; [|eapply reachable_wf]].
  unfold reachable. rewrite <-(opened_session w Ho). etrans.
  - pose proof (bootstrapped_session attempts hardened isolated pty extension w) as Hs.
    rewrite E in Hs. exact Hs.
  - destruct (speaks_run_loop encode base64_encode decode_option to_vec value_of_event
      value_of_state value_of_frame value_of_record world turns w1) as [[_ H] _]. exact H.
Qed.

(** C25: an event the worker cannot record ends the session: when applying an
    event, journaling a request, recording an operation or flushing reports an
    error, the worker is marked to end, its session has failed and its backend
    is dead. *)
Theorem lost_evidence_fails_closed event request operation w :
  snapshot_limit w <> 0 ->
  let fails_closed (m : actor unit) := forall w' e, m w = (w', Fail e) -> down w' in
  fails_closed (worker_apply_event encode value_of_event value_of_state value_of_frame world
                  event) /\
  fails_closed (record_api encode value_of_event value_of_state value_of_frame world request) /\
  fails_closed (record_operation encode value_of_event value_of_state value_of_frame world
                  operation) /\
  fails_closed (flush_journal encode value_of_event value_of_state value_of_frame world).
Proof using base64_encode sid.
  intros H. cbn zeta.
  assert (forall m : actor unit,
    strict encode base64_encode value_of_event value_of_state sid m w ->
    forall w' e, m w = (w', Fail e) -> down w') as Hst.
  { intros m Hm w' e E. by apply (wp_run_err _ _ _ _ _ Hm E). }
  split_and!; apply Hst.
  - by apply apply_strict.
  - by apply record_api_strict.
  - by apply record_operation_strict.
  - by apply flush_journal_strict.
Qed.

(** ** The MI channel *)

(** C6: no request is served before GDB is locked down: when the bootstrap of a
    worker succeeds, whatever MI version it ended with, GDB has been sent every
    setting of the handshake and has answered each with a result of its own
    token that is no error: all-stop, no confirmation, no inferior calls, and
    no writes to memory or registers, no breakpoints and no interrupts unless
    the profile executes. *)
Theorem settings_are_acknowledged attempts hardened isolated pty extension w w' arguments :
  sane w -> (stream_limit w < U64_MAX)%N ->
  Forall (fun a => Forall valid_input (at_inputs a)) attempts ->
  bootstrap' attempts hardened isolated pty extension w = (w', Done tt) ->
  arguments ∈ handshake_settings \/
    (exists setting, setting ∈ guarded_settings /\
       arguments = [setting; if executes (profile w) then "on" else "off"]) ->
  exists token class results,
    encoded (MkMiCommand (bytes_of "-gdb-set") ((fun a => Bare (bytes_of a)) <$> arguments)) token
      ∈ sent w' /\
    received (script w) (RResult (Some token) class results) /\ class <> "error".
Proof using sid.
  intros Hw Hl Hv E Ha.
  pose proof (bootstrap_answers encode base64_encode sha256_hex value_of_event value_of_state
    value_of_frame value_of_record world sid _ attempts hardened isolated pty extension Hv
    w w' tt Hw Hl eq_refl E) as H.
  rewrite Forall_fmap, Forall_forall in H. destruct (H arguments) as (t & class & results & Hs & Hc & Hr).
  - unfold session_settings. rewrite elem_of_app, list_elem_of_fmap.
    destruct Ha as [Ha|(setting & Hg & ->)]; [by left|right]. by exists setting.
  - by exists t, class, results.
Qed.


(** The fence is visible: while the worker serves, the tokens whose outcome
    it waits for are exactly those its session reports as unknown. *)
Theorem unknown_outcomes_are_reported turns w w' ended :
  snapshot_limit w <> 0 -> Forall valid_turn turns ->
  timed_out_tokens w = outcome_unknown_tokens (session w) ->
  run_loop' turns w = (w', Done ended) -> fatal w' = false ->
  timed_out_tokens w' = outcome_unknown_tokens (session w').
Proof using sid.
  intros Hr Hv Hc E Hf.
  pose proof (run_loop_served encode base64_encode decode_option to_vec value_of_event
    value_of_state value_of_frame value_of_record world sid turns w Hr Hv) as H.
  destruct (wp_run _ _ _ _ _ H E) as (b & _ & Hsv). apply (sv_coherent _ _ _ _ _ _ _ _ _ Hsv);
    [|done]. by intros _.
Qed.

(** C3: a reply belongs to its command: when a command succeeds, the bytes
    written first are the command with the next token; its reply is a result
    record of exactly that token and not of class error, received from GDB
    while the command was in flight; and the stream records handed out with it
    were received in that time too and hold at most the configured number of
    bytes. *)
Theorem replies_answer_their_command c deadline w w' reply :
  sane w -> (stream_limit w < U64_MAX)%N ->
  execute_until' c deadline w = (w', Done reply) ->
  reply_ok (stream_limit w) (next_token w) (script w) reply /\
  exists lines, sent w' = sent w ++ encoded c (next_token w) :: lines.
Proof. apply execute_until_reply. Qed.

(** C4: a command ends by its deadline: whatever GDB sent or did not send before,
    once the deadline of a command in flight has passed, and no interruption of
    the target was asked for meanwhile, the command returns its reply or an
    error and takes no further input. *)
Theorem commands_end_by_their_deadline c deadline now before after w :
  sane w -> script w = before ++ (now, EDeadline) :: after -> (deadline <= now)%N ->
  Forall (fun i => leaves_running i.2) before ->
  let r := execute_until_inner encode base64_encode value_of_event value_of_state value_of_frame
             value_of_record world c deadline w in
  after `suffix_of` script r.1 /\
  ((exists reply, r.2 = Done reply) \/ (exists e, r.2 = Fail e)).
Proof using sid.
  intros Hw Hs Hd Hb. cbn zeta. split; [by eapply execute_until_inner_deadline|].
  pose proof (safe_execute_until_inner encode base64_encode value_of_event value_of_state
    value_of_frame value_of_record world sid c deadline w Hw) as H. unfold wp in H.
  destruct (execute_until_inner _ _ _ _ _ _ _ _ _ w) as [w' []]; try done; eauto.
Qed.

End guarantees.
