(* ===== verification/ActorScenarios.v ===== *)
(** * ActorScenarios: the actor on concrete sessions

    A session that starts, runs a command and closes, with serializers that
    round trip; it instantiates the guarantees of [ActorProps].  Then sessions
    in which the worker does less than it means to. *)

From S2P Require Import Prelude Text MiAst MiParser Json Errors Domain Reducer ReducerInv Backend Normalize Ring LiveState Journal Replay ReplayLive Policy Protocol Effects Actor ActorFrame ActorProofs Commands CommandProofs CommandSafe Tracking Requests Bootstrap CommandFence CommandReplies RequestProofs BootstrapProofs Codec ActorProps.

(** ** Serializers and the outside *)

Definition s_encode (e : JournalEntry) : bytes := bytes_of (entry_kind e).
Definition s_decode (s : string) : Result string bytes := Ok (bytes_of s).
Definition s_frame (_ : FrameSummary) : Value := Null.
Definition s_record (_ : MiRecord) : Value := Null.
Definition s_to_vec (_ : Value) : option bytes := Some [].
Definition s_gap (_ : Value) : Result Error JournalGap :=
  Err (Error_new Code.InvalidArgument "gap").

Definition calm : answers :=
  MkAnswers io_ok None "01" 0 (0%N, 0%N) None (Ok None) None None None false (Ok None)
    (Ok Null) (ByteRing_new 16) 0 (Ok 0%N) None.

Definition calm_world (_ : nat) : answers := calm.

Definition s_sid : SessionId := "sess_a1".

Definition s_journal (d : JournalDurability) : Journal :=
  (append_session_created s_encode io_ok (Str s_sid) (uint NORMALIZATION_VERSION)
     (create_with_durability 100000 d)).1.

Definition mi (raw : string) (record : MiRecord) : BackendInput := Mi (bytes_of raw) record.

Definition done_reply (token : N) : BackendInput :=
  mi (dec token +:+ "^done") (RResult (Some token) "done" []).

(** GDB acknowledges the nineteen commands of a handshake in MI2. *)
Definition handshake_script : list (N * ExecutionInput) :=
  (fun i => let n := N.of_nat i in (n, EBackend (Some (done_reply n)))) <$> seq 1 19.

Definition s_worker (d : JournalDurability) (p : Profile) : Worker := {|
  journal := s_journal d;
  state := LiveState_new (creating s_sid) (is_durable (s_journal d));
  profile := p; capabilities := ∅; features := ∅; target_features := ∅;
  mi_commands := ∅; capability_limitations := []; events := []; inferior_resets := 0;
  inferior_output_offset := 0; inferior_output_dropped := 0; output_evidence_finalized := false;
  target_output := ByteRing_new 64; console_output := ByteRing_new 64;
  log_output := ByteRing_new 64; next_token := 1; timed_out_tokens := ∅;
  interrupt_fallback_at := None; stream_limit := 1000; command_timeout_ms := 1000;
  values := ∅; tracking := ∅; tracking_history := ∅; snapshots := [];
  stale_backend_values := []; deferred_restoration := []; pending_module_breakpoints := ∅;
  active_resume_operation := None; module_rebind_needed := false;
  replacing_module_breakpoint := false; deferred_snapshot_ready := None;
  tracking_memory_limit := 1000; snapshot_limit := 8; state_dirty := false; operations := ∅;
  dirty_operations := ∅; operation_limit := 8; journal_gap_reported := false;
  store_failed := false; fatal := false; metric_active := true; ticks := 0; sent := [];
  controls_open := true; script := handshake_script; answered := []
|}.

Abbreviation s_bootstrap :=
  (bootstrap s_encode string_of string_of number_of number_of s_frame s_record).
Abbreviation s_run_loop := (run_loop s_encode string_of (decode_option s_decode) s_to_vec
  number_of number_of s_frame s_record).
Abbreviation s_run := (run s_encode string_of (decode_option s_decode) s_to_vec
  number_of number_of s_frame s_record).

Definition prompt : list BackendInput := [Mi (bytes_of "(gdb)") Prompt].

Definition s_attempt : Attempt := MkAttempt "mi2" (Ok tt) prompt StartupTimeout.

Definition started (world : nat -> answers) (d : JournalDurability) (p : Profile) : Worker :=
  (s_bootstrap world [s_attempt] false false (bytes_of "/dev/pts/1") None (s_worker d p)).1.

Definition command_of (name : string) : MiCommand := MkMiCommand (bytes_of name) [].

Definition stream_line : bytes := ["~"%char; DQUOTE; "h"%char; "i"%char; DQUOTE].

(** A command answered after one line of console output, then a close. *)
Definition s_turns : list (list (N * ExecutionInput) * WorkerInput) :=
  [ ([(1%N, EBackend (Some (Mi stream_line (ConsoleStream ["h"%char; "i"%char]))));
      (2%N, EBackend (Some (done_reply 20)))],
     IRequest (Some (Command (command_of "-list-features") None 100)));
    ([], IControl (Some (Close 9))) ].

(** Line [i] of the file is [i] letters and a newline. *)
Definition lines_of {A} (es : list A) : list bytes :=
  (fun i => repeat "x"%char (S i) ++ [LF]) <$> seq 0 (length es).

Definition line_entry (es : list JournalEntry) (line : bytes) : Result Error JournalEntry :=
  ok_or (es !! pred (length line)) (Error_new Code.InvalidArgument "line").

Lemma lines_hold es : holds (line_entry es) (lines_of es) es.
Proof.
  assert (forall i, strip_terminator (repeat "x"%char (S i) ++ [LF]) = repeat "x"%char (S i)) as Hs.
  { intros i. unfold strip_terminator. rewrite last_snoc, removelast_last. cbn [Ascii.eqb].
    change (repeat "x"%char (S i)) with ("x"%char :: repeat "x"%char i).
    rewrite repeat_cons, last_snoc. done. }
  assert (forall i, blank (repeat "x"%char (S i)) = false) as Hb.
  { intros i. unfold blank. cbn. by destruct (utf8_decode _). }
  unfold holds, lines_of. apply Forall2_lookup. intros i. rewrite list_lookup_fmap.
  destruct (decide (i < length es)) as [Hi|Hi].
  - rewrite lookup_seq_lt by done. cbn [fmap option_fmap option_map].
    destruct (lookup_lt_is_Some_2 es i Hi) as [e He]. rewrite He. constructor.
    rewrite Nat.add_0_l, Hs. split; [apply Hb|]. unfold line_entry.
    rewrite repeat_length. cbn. by rewrite He.
  - rewrite lookup_seq_ge, lookup_ge_None_2 by lia. constructor.
Qed.

Lemma s_round_trip : serializers_round_trip string_of s_decode number_of of_number number_of
  of_number.
Proof.
  split_and!.
  - intros raw. unfold s_decode. by rewrite bytes_of_string_of.
  - apply of_number_of.
  - apply of_number_of.
Qed.

Lemma calm_steady : steady calm_world.
Proof. by split. Qed.

Lemma s_opened d p : opened s_encode s_sid (s_worker d p).
Proof.
  split; [|done|done|done]. exists io_ok, 100000%N, d, 1%N. split; [done|]. by destruct d.
Qed.

Lemma prompt_valid : Forall valid_input prompt.
Proof. repeat constructor. Qed.

Lemma script_valid : Forall valid_execution_input handshake_script.
Proof. repeat constructor; vm_compute; reflexivity. Qed.

Lemma s_turns_valid : Forall valid_turn s_turns.
Proof. repeat constructor; vm_compute; reflexivity. Qed.

(** ** The guarantees at work *)

Lemma worker_always_ends_witness :
  (s_run calm_world s_turns (started calm_world Performance DebugControl)).2 = Done tt.
Proof.
  apply (worker_always_ends s_encode string_of s_decode s_to_vec number_of number_of s_frame
    s_record calm_world s_sid s_turns).
  - vm_compute. discriminate.
  - exact s_turns_valid.
Defined.

Definition s_final : Worker :=
  (s_run calm_world s_turns (started calm_world Performance DebugControl)).1.

Lemma session_evidence_replays_witness :
  exists report,
    replay (line_entry (recorded (journal s_final))) s_decode of_number of_number s_gap
      (lines_of (recorded (journal s_final))) "sess_other" = Done report /\
    report_state report = session s_final /\ lifecycle (session s_final) = Lifecycle.Closed.
Proof.
  destruct (session_evidence_replays (line_entry (recorded (journal s_final))) s_encode string_of string_of
    s_decode s_to_vec number_of of_number number_of of_number s_gap s_frame s_record calm_world
    s_sid s_attempt false false
    (bytes_of "/dev/pts/1") None s_turns (s_worker Performance DebugControl)
    (started calm_world Performance DebugControl) s_final
    (lines_of (recorded (journal s_final))) "sess_other" s_round_trip) as (report & E & Es & _ & _).
  - vm_compute. reflexivity.
  - exact calm_steady.
  - apply s_opened.
  - exact script_valid.
  - exact prompt_valid.
  - exact s_turns_valid.
  - vm_compute. reflexivity.
  - vm_compute. reflexivity.
  - vm_compute. reflexivity.
  - vm_compute. reflexivity.
  - apply lines_hold.
  - exists report. split; [exact E|]. split; [exact Es|]. vm_compute. reflexivity.
Defined.


Lemma actor_sessions_are_coherent_witness :
  wf (session (s_run_loop calm_world s_turns (started calm_world Performance DebugControl)).1).
Proof.
  apply (actor_sessions_are_coherent s_encode string_of string_of s_decode s_to_vec number_of number_of
    s_frame s_record calm_world s_sid [s_attempt] false false
    (bytes_of "/dev/pts/1") None s_turns
    (s_worker Performance DebugControl)).
  - apply s_opened.
  - vm_compute. reflexivity.
Defined.

(** From question [n] on, the file system refuses to flush. *)
Definition failing_world (n : nat) (i : nat) : answers :=
  if decide (i < n) then calm
  else MkAnswers (MkIo None None (Some "disk") None) None "01" 0 (0%N, 0%N) None (Ok None) None
         None None false (Ok None) (Ok Null) (ByteRing_new 16) 0 (Ok 0%N) None.

Lemma lost_evidence_fails_closed_witness :
  down (worker_apply_event s_encode number_of number_of s_frame (failing_world 0)
          (Event.InferiorAdded "i1" None) (started calm_world Durable DebugControl)).1.
Proof.
  destruct (worker_apply_event s_encode number_of number_of s_frame (failing_world 0)
    (Event.InferiorAdded "i1" None) (started calm_world Durable DebugControl))
    as [w' [u|e| |]] eqn:E.
  - exfalso. revert E. vm_compute. discriminate.
  - refine (proj1 (lost_evidence_fails_closed s_encode string_of number_of number_of s_frame
      (failing_world 0) s_sid (Event.InferiorAdded "i1" None) Null
      (MkOperationRecord "op_1" s_sid "k" Op.Accepted 0 None None None None None)
      (started calm_world Durable DebugControl) _) w' e E). vm_compute. discriminate.
  - exfalso. revert E. vm_compute. discriminate.
  - exfalso. revert E. vm_compute. discriminate.
Defined.

Lemma settings_are_acknowledged_witness :
  bytes_of "8-gdb-set may-write-memory off" ++ [LF] ∈ sent (started calm_world Performance LiveObserver) /\
  exists token class results,
    encoded (setting_command ["may-write-memory"; "off"]) token
      ∈ sent (started calm_world Performance LiveObserver) /\
    received handshake_script (RResult (Some token) class results) /\ class <> "error".
Proof.
  split; [apply (list_elem_of_lookup_2 _ 7); vm_compute; reflexivity|].
  apply (settings_are_acknowledged s_encode string_of string_of number_of number_of s_frame
    s_record calm_world s_sid [s_attempt] false false (bytes_of "/dev/pts/1") None
    (s_worker Performance LiveObserver) _ ["may-write-memory"; "off"]).
  - split; [vm_compute; discriminate|exact script_valid].
  - vm_compute. reflexivity.
  - apply Forall_singleton. exact prompt_valid.
  - vm_compute. reflexivity.
  - right. exists "may-write-memory". split; [left|vm_compute; reflexivity].
Defined.

(** A command whose deadline passes. *)
Definition timeout_turns : list (list (N * ExecutionInput) * WorkerInput) :=
  [ ([(1000%N, EDeadline)], IRequest (Some (Command (command_of "-list-features") None 100))) ].

Lemma unknown_outcomes_are_reported_witness :
  let w := (s_run_loop calm_world timeout_turns (started calm_world Performance DebugControl)).1 in
  timed_out_tokens w = outcome_unknown_tokens (session w) /\ timed_out_tokens w = {[20%N]}.
Proof.
  cbn zeta. split; [|vm_compute; reflexivity].
  eapply (unknown_outcomes_are_reported s_encode string_of s_decode s_to_vec number_of number_of
    s_frame s_record calm_world s_sid timeout_turns
    (started calm_world Performance DebugControl) _ false).
  - vm_compute. discriminate.
  - repeat constructor.
  - vm_compute. reflexivity.
  - vm_compute. reflexivity.
  - vm_compute. reflexivity.
Defined.

Lemma commands_end_by_their_deadline_witness :
  let w := started calm_world Performance DebugControl <| script :=
    [(50%N, EBackend (Some (done_reply 99))); (100%N, EDeadline); (101%N, EDeadline)] |> in
  [(101%N, EDeadline)] `suffix_of` script (execute_until_inner s_encode string_of number_of
    number_of s_frame s_record calm_world (command_of "-list-features") 100 w).1.
Proof.
  cbn zeta. apply (commands_end_by_their_deadline s_encode string_of number_of number_of s_frame
    s_record calm_world s_sid (command_of "-list-features") 100 100
    [(50%N, EBackend (Some (done_reply 99)))]).
  - split; [vm_compute; discriminate|]. repeat constructor; vm_compute; reflexivity.
  - vm_compute. reflexivity.
  - vm_compute. discriminate.
  - repeat constructor.
Defined.

(** A command in flight. *)
Definition in_flight : Worker :=
  started calm_world Performance DebugControl <| script :=
    [(1%N, EBackend (Some (Mi stream_line (ConsoleStream ["h"%char; "i"%char]))));
     (2%N, EBackend (Some (done_reply 20)))] |>.

Lemma replies_answer_their_command_witness :
  exists reply, reply_ok 1000 20 (script in_flight) reply /\
    cr_stream_records reply = [ConsoleStream ["h"%char; "i"%char]].
Proof.
  destruct (execute_until s_encode string_of number_of number_of s_frame s_record calm_world
    (command_of "-list-features") 100 in_flight) as [w' [reply|e| |]] eqn:E;
    try (exfalso; revert E; vm_compute; discriminate).
  exists reply. split.
  - apply (replies_answer_their_command s_encode string_of number_of number_of s_frame
      s_record calm_world (command_of "-list-features") 100 in_flight w' reply).
    + split; [vm_compute; discriminate|]. repeat constructor; vm_compute; reflexivity.
    + vm_compute. reflexivity.
    + exact E.
  - assert (match (execute_until s_encode string_of number_of number_of s_frame s_record calm_world
      (command_of "-list-features") 100 in_flight).2 with
      | Done r => cr_stream_records r = [ConsoleStream ["h"%char; "i"%char]] | _ => False end)
      as H by (vm_compute; reflexivity).
    rewrite E in H. exact H.
Defined.

(** ** Where the worker does less than it means to *)

(** A transaction with a restoring command is in flight when the session is
    closed. *)
Definition closing_turns : list (list (N * ExecutionInput) * WorkerInput) :=
  [ ([(1%N, EControl (Some (Close 7)))],
     IRequest (Some (Transaction [] (command_of "-list-features")
       [MkMiCommand (bytes_of "-gdb-set") [Bare (bytes_of "x"); Bare (bytes_of "on")]]
       None 100))) ].

Definition closing_final : Worker :=
  (s_run calm_world closing_turns (started calm_world Performance DebugControl)).1.

Definition replay_of (w : Worker) : outcome Error ReplayReport :=
  replay (line_entry (recorded (journal w))) s_decode of_number of_number s_gap
    (lines_of (recorded (journal w))) s_sid.

(** A close that arrives while a transaction is in flight succeeds, and then
    the transaction's restoration still journals its command after the closing
    marker: the journal of a session that was closed in order no longer
    replays. *)
Theorem close_in_flight_spoils_the_journal :
  answered closing_final = [(7%N, Ok None)] /\
  lifecycle (session closing_final) = Lifecycle.Closed /\
  recording (journal closing_final) = true /\
  (exists before after, recorded (journal closing_final) =
     before ++ [MkJournalEntry (lenN before + 1) "journal.closed" (Object [])] ++ after /\
     entry_kind <$> take 1 after = ["mi.input"]) /\
  replay_of closing_final = Fail (Error_new Code.InvalidArgument
    "journal has records after its terminal marker").
Proof.
  split_and!; [vm_compute; reflexivity..| |].
  - exists (take 47 (recorded (journal closing_final))), (drop 48 (recorded (journal closing_final))).
    vm_compute. split; reflexivity.
  - vm_compute. reflexivity.
Qed.

(** The process group cannot be signalled. *)
Definition signal_world (_ : nat) : answers :=
  MkAnswers io_ok None "01" 0 (0%N, 0%N) None (Ok None)
    (Some (Error_new Code.Internal "kill")) None None false (Ok None) (Ok Null)
    (ByteRing_new 16) 0 (Ok 0%N) None.

(** An inferior runs; an interrupt is acknowledged but the target keeps
    running, and the fallback signal fails; then the journal is flushed. *)
Definition fallback_turns : list (list (N * ExecutionInput) * WorkerInput) :=
  [ ([], IRequest (Some (RecordEvent (Event.InferiorAdded "i1" (Some 7%N)))));
    ([], IRequest (Some (RecordEvent (Event.TargetRunning ["i1"]))));
    ([(1%N, EBackend (Some (done_reply 20)))],
     IControl (Some (Interrupt (command_of "-exec-interrupt") 100 5)));
    ([], IFallback 300);
    ([], IFlush) ].

Definition fallback_final : Worker :=
  (s_run_loop signal_world fallback_turns (started signal_world Performance DebugControl)).1.

(** A fallback signal that fails marks the session failed without an event:
    the worker keeps serving a failed session, and the checkpoint it writes
    next contradicts the journal, whose replay fails. *)
Theorem failed_signal_spoils_the_journal :
  fatal fallback_final = false /\
  lifecycle (session fallback_final) = Lifecycle.Failed /\
  recording (journal fallback_final) = true /\
  exists e, replay_of fallback_final = Fail e.
Proof. split_and!; [vm_compute; reflexivity..|]. eexists. vm_compute. reflexivity. Qed.

(** GDB exits while the disk refuses to flush. *)
Definition exit_turns : list (list (N * ExecutionInput) * WorkerInput) :=
  [ ([], IBackend (Some GdbEof)) ].

Definition exit_final : Worker :=
  let w := started calm_world Durable DebugControl in
  (s_run (failing_world (ticks w)) exit_turns w).1.

(** In durable mode a failure whose checkpoint cannot be written is never
    published: the worker ends with a failed session and a dead backend, and
    its readers keep the state of a healthy session. *)
Theorem durable_failure_is_not_published :
  fatal exit_final = true /\
  lifecycle (session exit_final) = Lifecycle.Failed /\
  lifecycle (published (state exit_final)) = Lifecycle.Ready /\
  backend (published (state exit_final)) = Backend.Healthy.
Proof. vm_compute. split_and!; reflexivity. Qed.

(** A safe evaluation whose first guard times out and succeeds late, then an
    ordinary command. *)
Definition guard_turns : list (list (N * ExecutionInput) * WorkerInput) :=
  [ ([(1000%N, EDeadline)],
     IRequest (Some (SafeEvaluate [command_of "-data-evaluate-expression"] None 100)));
    ([], IBackend (Some (done_reply 20)));
    ([(1%N, EBackend (Some (done_reply 21)))],
     IRequest (Some (Command (command_of "-list-features") None 100))) ].

Definition guard_final : Worker :=
  (s_run_loop calm_world guard_turns (started calm_world Performance DebugControl)).1.

(** A guard of safe evaluation that times out and is then executed stays in
    force: it is not among the settings to restore, so the memory writes of
    the session remain disabled although the fence is open again. *)
Theorem late_guard_is_never_restored :
  drop 19 (sent guard_final) = [bytes_of "20-gdb-set may-write-memory off" ++ [LF];
                                bytes_of "21-list-features" ++ [LF]] /\
  timed_out_tokens guard_final = ∅ /\ deferred_restoration guard_final = [] /\
  fatal guard_final = false.
Proof. split_and!; vm_compute; reflexivity. Qed.
