(* ===== verification/Wire.v ===== *)
(** * Wire: the derived JSON forms of the exchanged types

    What [#[derive(Serialize)]] with the attributes of [domain.rs],
    [protocol.rs], [session.rs], [error.rs] and [ast.rs] makes of their types:
    the renaming rules of the variants, tags, [transparent] handles, [null] for
    an absent option unless the field is skipped. *)

From S2P Require Import Prelude Text MiAst Json Errors Domain Policy Protocol Wait Actor.

(** ** Variant names *)

(** [rename_all = "snake_case"]: an underscore before every capital but the
    first, and lower case. *)
Definition to_lower (c : ascii) : ascii :=
  if is_ascii_upper c then ascii_of_N (byte_N c + 32) else c.
Definition to_upper (c : ascii) : ascii :=
  if is_ascii_lower c then ascii_of_N (byte_N c - 32) else c.

Fixpoint separated (first : bool) (b : bytes) : bytes :=
  match b with
  | [] => []
  | c :: rest =>
      (if is_ascii_upper c && negb first then ["_"%char; c] else [c]) ++ separated false rest
  end.

Definition snake_case (name : string) : string :=
  string_of (to_lower <$> separated true (bytes_of name)).
Definition screaming_snake_case (name : string) : string :=
  string_of (to_upper <$> separated true (bytes_of name)).

Definition code_wire (c : Code.ErrorCode) : string := screaming_snake_case (code_name c).

Definition lifecycle_wire (x : Lifecycle.SessionLifecycle) : string :=
  screaming_snake_case match x with
  | Lifecycle.Creating => "Creating" | Lifecycle.Ready => "Ready" | Lifecycle.Active => "Active"
  | Lifecycle.Closing => "Closing" | Lifecycle.Closed => "Closed" | Lifecycle.Failed => "Failed"
  end.

Definition backend_wire (x : Backend.BackendHealth) : string :=
  screaming_snake_case match x with
  | Backend.Starting => "Starting" | Backend.Healthy => "Healthy" | Backend.Busy => "Busy"
  | Backend.Unresponsive => "Unresponsive" | Backend.Dead => "Dead"
  end.

Definition inferior_wire (x : Inferior.InferiorStatus) : string :=
  screaming_snake_case (status_debug x).

Definition origin_wire (x : Origin.TargetOrigin) : string :=
  screaming_snake_case match x with
  | Origin.Unknown => "Unknown" | Origin.Local => "Local" | Origin.Attach => "Attach"
  | Origin.Remote => "Remote" | Origin.Core => "Core"
  end.

Definition consistency_wire (x : Consistent.Consistency) : string :=
  screaming_snake_case match x with
  | Consistent.Clean => "Clean" | Consistent.ManagedDirty => "ManagedDirty"
  | Consistent.Reconciling => "Reconciling" | Consistent.Tainted => "Tainted"
  | Consistent.Lost => "Lost"
  end.

Definition snapshot_wire (x : Snapshot.SnapshotStatus) : string :=
  screaming_snake_case match x with
  | Snapshot.Building => "Building" | Snapshot.Ready => "Ready" | Snapshot.Failed => "Failed"
  end.

Definition capability_wire (x : Cap.CapabilityStatus) : string :=
  snake_case match x with
  | Cap.Supported => "Supported" | Cap.Unsupported => "Unsupported"
  | Cap.Conditional => "Conditional" | Cap.Limited => "Limited" | Cap.Unknown => "Unknown"
  | Cap.TemporarilyUnavailable => "TemporarilyUnavailable"
  end.

(** ** Fields *)

Definition nullable {A} (f : A -> Value) (o : option A) : Value :=
  match o with Some a => f a | None => Null end.

(** [skip_serializing_if = "Option::is_none"]. *)
Definition skipped {A} (key : string) (f : A -> Value) (o : option A) : list (string * Value) :=
  match o with Some a => [(key, f a)] | None => [] end.

Definition map_value {A} (f : A -> Value) (m : gmap string A) : Value :=
  Object (prod_map id f <$> btree_iter m).

Definition strings_value (l : list string) : Value := Array (Str <$> l).

(** ** Domain types *)

Definition frame_value (f : FrameSummary) : Value :=
  Object ([("level", uint (fr_level f)); ("address", nullable Str (fr_address f));
           ("function", nullable Str (fr_function f))] ++
          skipped "module" Str (fr_module f) ++
          [("source", nullable Str (fr_source f)); ("line", nullable uint (fr_line f))]).

(** [tag = "kind"]. *)
Definition stop_reason_value (r : Reason.StopReason) : Value :=
  let tagged name fields := Object (("kind", Str (snake_case name)) :: fields) in
  match r with
  | Reason.Breakpoint n d => tagged "Breakpoint"
      [("backend_number", nullable Str n); ("disposition", nullable Str d)]
  | Reason.Watchpoint n e a => tagged "Watchpoint"
      [("backend_number", nullable Str n); ("expression", nullable Str e); ("access", Str a)]
  | Reason.Signal n m => tagged "Signal" [("name", nullable Str n); ("meaning", nullable Str m)]
  | Reason.EndSteppingRange => tagged "EndSteppingRange" []
  | Reason.FunctionFinished => tagged "FunctionFinished" []
  | Reason.LocationReached => tagged "LocationReached" []
  | Reason.Interrupt => tagged "Interrupt" []
  | Reason.Core => tagged "Core" []
  | Reason.Unknown raw => tagged "Unknown" [("raw_reason", Str raw)]
  end.

Definition thread_value (t : ThreadState) : Value :=
  Object [("id", Str (th_id t)); ("backend_id", Str (th_backend_id t));
          ("running", Bool (th_running t)); ("frame", nullable frame_value (th_frame t))].

Definition inferior_value (i : InferiorState) : Value :=
  Object [("id", Str (inf_id i)); ("backend_id", Str (inf_backend_id i));
          ("pid", nullable uint (inf_pid i)); ("generation", uint (inf_generation i));
          ("status", Str (inferior_wire (inf_status i)));
          ("exit_code", nullable Str (inf_exit_code i));
          ("threads", map_value thread_value (inf_threads i))].

Definition snapshot_value (s : SnapshotRef) : Value :=
  Object [("snapshot_id", Str (snap_id s)); ("stop_id", Str (snap_stop_id s));
          ("status", Str (snapshot_wire (snap_status s))); ("partial", Bool (snap_partial s))].

Definition location_value (l : BreakpointLocationState) : Value :=
  Object [("id", Str (loc_id l)); ("backend_number", Str (loc_backend_number l));
          ("address", nullable Str (loc_address l)); ("function", nullable Str (loc_function l))].

Definition breakpoint_value (b : BreakpointState) : Value :=
  Object [("id", Str (bp_id b)); ("backend_number", Str (bp_backend_number b));
          ("enabled", Bool (bp_enabled b)); ("pending", Bool (bp_pending b));
          ("locations", Array (location_value <$> bp_locations b))].

Definition module_value (m : ModuleState) : Value :=
  Object [("id", Str (mod_id m)); ("target_name", nullable Str (mod_target_name m));
          ("host_name", nullable Str (mod_host_name m));
          ("symbols_loaded", nullable Bool (mod_symbols_loaded m))].

Definition signal_policy_value (p : SignalPolicyState) : Value :=
  Object [("stop", Bool (sig_stop p)); ("print", Bool (sig_print p)); ("pass", Bool (sig_pass p))].

Definition state_value (s : SessionState) : Value :=
  Object [
    ("session_id", Str (session_id s));
    ("lifecycle", Str (lifecycle_wire (lifecycle s)));
    ("backend", Str (backend_wire (backend s)));
    ("consistency", Str (consistency_wire (consistency s)));
    ("reconciliation_required", Bool (reconciliation_required s));
    ("event_seq", uint (event_seq s));
    ("revision", uint (revision s));
    ("execution_epoch", uint (execution_epoch s));
    ("outcome_unknown_tokens", Array (uint <$> btree_set_iter (outcome_unknown_tokens s)));
    ("stop_id", nullable Str (stop_id s));
    ("stop_reason", nullable Str (stop_reason s));
    ("stop_reason_detail", nullable stop_reason_value (stop_reason_detail s));
    ("stopped_inferior_id", nullable Str (stopped_inferior_id s));
    ("stopped_thread_id", nullable Str (stopped_thread_id s));
    ("target_origin", Str (origin_wire (target_origin s)));
    ("inferiors", map_value inferior_value (inferiors s));
    ("breakpoints", map_value breakpoint_value (breakpoints s));
    ("modules", map_value module_value (modules s));
    ("signal_policies", map_value signal_policy_value (signal_policies s));
    ("snapshot", nullable snapshot_value (snapshot s));
    ("limitations", strings_value (limitations s))].

Definition lease_value (l : WriteLease) : Value :=
  Object [("lease_id", Str (lease_id l)); ("session_id", Str (lease_session_id l));
          ("owner", Str (lease_owner l));
          ("expires_at_unix_ms", uint (lease_expires_at_unix_ms l));
          ("generation", uint (lease_generation l))].

(** ** MI records: adjacent tags, bytes as arrays of numbers *)

Definition byte_array (b : bytes) : Value := Array ((fun c => uint (byte_N c)) <$> b).

Fixpoint mi_value (v : MiValue) : Value :=
  let result (r : MiResult) : Value :=
    Object [("name", Str (name r)); ("value", mi_value (value r))] in
  let tagged kind content := Object [("kind", Str (snake_case kind)); ("value", content)] in
  match v with
  | Const b => tagged "Const" (byte_array b)
  | Tuple results => tagged "Tuple" (Array (result <$> results))
  | ValueList values => tagged "ValueList" (Array (mi_value <$> values))
  | ResultList results => tagged "ResultList" (Array (result <$> results))
  end.

Definition mi_result (r : MiResult) : Value :=
  Object [("name", Str (name r)); ("value", mi_value (value r))].

Definition record_value (r : MiRecord) : Value :=
  let tagged record content := Object [("record", Str (snake_case record)); ("data", content)] in
  let fields token class results :=
    Object [("token", nullable uint token); ("class", Str class);
            ("results", Array (mi_result <$> results))] in
  match r with
  | RResult token class results => tagged "Result" (fields token class results)
  | ExecAsync token class results => tagged "ExecAsync" (fields token class results)
  | StatusAsync token class results => tagged "StatusAsync" (fields token class results)
  | NotifyAsync token class results => tagged "NotifyAsync" (fields token class results)
  | ConsoleStream b => tagged "ConsoleStream" (byte_array b)
  | TargetStream b => tagged "TargetStream" (byte_array b)
  | LogStream b => tagged "LogStream" (byte_array b)
  | Prompt => Object [("record", Str (snake_case "Prompt"))]
  end.

Definition reply_value (r : CommandReply) : Value :=
  Object [("token", uint (cr_token r)); ("class", Str (cr_class r));
          ("record", record_value (cr_record r));
          ("stream_records", Array (record_value <$> cr_stream_records r));
          ("stream_truncated", Bool (cr_stream_truncated r));
          ("evidence_seq", uint (cr_evidence_seq r))].

Definition capability_value (c : Capability) : Value :=
  Object [("status", Str (capability_wire (cap_status c))); ("scope", Str (cap_scope c));
          ("constraints", strings_value (cap_constraints c)); ("source", Str (cap_source c));
          ("last_checked_revision", uint (cap_last_checked_revision c))].

(** ** The envelope *)

Definition warning_value (w : Warning) : Value :=
  Object [("code", Str (warn_code w)); ("message", Str (warn_message w))].
Definition evidence_value (e : Evidence) : Value :=
  Object [("kind", Str (ev_kind e)); ("uri", Str (ev_uri e))].

Definition api_error_value (e : ApiError) : Value :=
  Object ([("code", Str (code_wire (api_code e))); ("message", Str (api_message e));
           ("retryable", Bool (api_retryable e))] ++ skipped "details" id (api_details e)).

Definition context_value (c : ObservationContext) : Value :=
  Object (skipped "observation_id" Str (oc_observation_id c) ++
          [("stop_id", Str (oc_stop_id c)); ("captured_revision", uint (oc_captured_revision c));
           ("execution_epoch", uint (oc_execution_epoch c))] ++
          skipped "inferior_id" Str (oc_inferior_id c) ++
          skipped "thread_id" Str (oc_thread_id c) ++ skipped "frame_id" Str (oc_frame_id c)).

Definition semantics_value (s : ResultSemantics) : Value :=
  Object (skipped "context" context_value (sem_context s) ++ skipped "state" id (sem_state s) ++
          [("complete", Bool (sem_complete s)); ("historical", Bool (sem_historical s));
           ("projection", Str (snake_case match sem_projection s with
                                          | Detailed => "Detailed" | Compact => "Compact" end))]).

Definition request_value (r : ApiRequest) : Value :=
  Object [("api_version", Str (req_api_version r)); ("request_id", Str (req_request_id r));
          ("session_id", nullable Str (req_session_id r));
          ("method", Str (Method.as_str (req_method r)));
          ("expected_revision", nullable uint (req_expected_revision r));
          ("idempotency_key", nullable Str (req_idempotency_key r));
          ("parameters", req_parameters r)].

Definition response_value (r : ApiResponse) : Value :=
  Object ([("api_version", Str (resp_api_version r)); ("request_id", Str (resp_request_id r))] ++
          skipped "session_id" Str (resp_session_id r) ++
          skipped "revision" uint (resp_revision r) ++
          skipped "state" state_value (resp_state r) ++
          skipped "result" id (resp_result r) ++
          skipped "semantics" semantics_value (resp_semantics r) ++
          [("warnings", Array (warning_value <$> resp_warnings r));
           ("truncated", Bool (resp_truncated r))] ++
          skipped "continuation" id (resp_continuation r) ++
          [("artifacts", strings_value (resp_artifacts r));
           ("evidence", Array (evidence_value <$> resp_evidence r))] ++
          skipped "error" api_error_value (resp_error r)).
