(* ===== verification/Results.v ===== *)
(** * Results: semantic results and their envelopes
    ([crates/gdb-ai-core/src/protocol.rs])

    Facts with the metadata collected from them, diagnostics that only the
    detailed projection serializes, and the responses of successful requests
    in both projections.  The message of a [serde_json::Error] is a
    parameter. *)

From S2P Require Import Prelude Text MiAst Json Errors Domain Policy Protocol Wait Effects Actor Wire.
Import Method.

Record ResultMetadata := MkResultMetadata {
  semantics : ResultSemantics;
  warnings : list Warning;
  truncated : bool;
  continuation : option Value;
  artifacts : list string;
  evidence : list Evidence
}.

#[export] Instance ResultSemantics_updatable : Updatable ResultSemantics := fun r =>
  MkResultSemantics (sem_context r) (sem_state r) (sem_complete r) (sem_historical r)
    (sem_projection r).
#[export] Instance ResultMetadata_updatable : Updatable ResultMetadata := fun r =>
  MkResultMetadata (semantics r) (warnings r) (truncated r) (continuation r) (artifacts r)
    (evidence r).

(** [ResultMetadata::new]. *)
Definition metadata_new (context : option ObservationContext) : ResultMetadata :=
  MkResultMetadata (MkResultSemantics context None true false Detailed) [] false None [] [].

Record SessionCapabilities := MkSessionCapabilities {
  sc_backend : Value;
  sc_features : gset string;
  sc_target_features : gset string;
  sc_commands : gset string;
  sc_capabilities : gmap string Capability;
  sc_limitations : list string
}.

Inductive Diagnostic :=
| DCommand (reply : CommandReply)
| DCommands (replies : list CommandReply)
| DState (state : SessionState)
| DCapabilities (capabilities : SessionCapabilities)
| DValue (v : Value)
| DFailures (failures : gmap string ApiError)
| DError (error : ApiError).

(** The ascending order of a [BTreeSet<String>]. *)
Definition btree_strings (s : gset string) : list string := merge_sort String.le (elements s).

Definition capabilities_value (c : SessionCapabilities) : Value :=
  Object [("backend", sc_backend c);
          ("features", strings_value (btree_strings (sc_features c)));
          ("target_features", strings_value (btree_strings (sc_target_features c)));
          ("commands", strings_value (btree_strings (sc_commands c)));
          ("capabilities", map_value capability_value (sc_capabilities c));
          ("limitations", strings_value (sc_limitations c))].

(** [#[serde(untagged)]]. *)
Definition diagnostic_value (d : Diagnostic) : Value :=
  match d with
  | DCommand reply => reply_value reply
  | DCommands replies => Array (reply_value <$> replies)
  | DState state => state_value state
  | DCapabilities c => capabilities_value c
  | DValue v => v
  | DFailures failures => map_value api_error_value failures
  | DError error => api_error_value error
  end.

Record SemanticResult := MkSemanticResult {
  facts : Value;
  metadata : ResultMetadata;
  diagnostics : gmap string Diagnostic
}.

#[export] Instance SemanticResult_updatable : Updatable SemanticResult := fun r =>
  MkSemanticResult (facts r) (metadata r) (diagnostics r).

(** [value[key] = v]: [null] becomes an object, another value panics. *)
Definition set_index (key : string) (v : Value) (value : Value) : option Value :=
  match value with
  | Null => Some (Object [(key, v)])
  | Object fields => Some (Object (set_field key v fields))
  | _ => None
  end.

Definition semantic_new (facts : Value) (context : option ObservationContext) : SemanticResult :=
  MkSemanticResult facts (metadata_new context) ∅.

Definition push_evidence (e : list Evidence) (r : SemanticResult) : SemanticResult :=
  r <| metadata := metadata r <| evidence := evidence (metadata r) ++ e |> |>.

Definition insert_diagnostic (key : string) (d : Diagnostic) (r : SemanticResult)
    : SemanticResult := r <| diagnostics := <[key := d]> (diagnostics r) |>.

(** [SemanticResult::command], [commands], [detail], [capabilities]. *)
Definition with_command (session_id key : string) (reply : CommandReply) (r : SemanticResult)
    : SemanticResult :=
  insert_diagnostic key (DCommand reply)
    (push_evidence [evidence_journal session_id (cr_evidence_seq reply)] r).

Definition with_commands (session_id : string) (replies : list CommandReply)
    (r : SemanticResult) : SemanticResult :=
  insert_diagnostic "commands" (DCommands replies)
    (push_evidence ((fun reply => evidence_journal session_id (cr_evidence_seq reply)) <$> replies)
       r).

Definition detail (key : string) (v : Value) : SemanticResult -> SemanticResult :=
  insert_diagnostic key (DValue v).

Definition with_capabilities (c : SessionCapabilities) : SemanticResult -> SemanticResult :=
  insert_diagnostic "capabilities" (DCapabilities c).

(** ** What facts say about themselves *)

(** The flags and artifacts below a value, at most eight levels deep. *)
Definition metadata_fields (visit : Value -> bool * gset string -> bool * gset string)
    : list (string * Value) -> bool * gset string -> bool * gset string :=
  fix go fields acc :=
    match fields with
    | [] => acc
    | (key, child) :: rest =>
        go rest
          (if bool_decide (key = "truncated") && bool_decide (child = Bool true)
           then (true, acc.2)
           else if bool_decide (key = "artifact") || bool_decide (key = "raw_artifact")
           then match Json.as_str child with
                | Some uri => (acc.1, {[ uri ]} ∪ acc.2)
                | None => acc
                end
           else visit child acc)
    end.

Definition metadata_items (visit : Value -> bool * gset string -> bool * gset string)
    : list Value -> bool * gset string -> bool * gset string :=
  fix go items acc :=
    match items with
    | [] => acc
    | child :: rest => go rest (visit child acc)
    end.

Fixpoint collect_result_metadata (value : Value) (depth : nat) (acc : bool * gset string)
    : bool * gset string :=
  if (8 <=? depth)%nat || (64 <=? size acc.2)%nat then acc
  else
    match value with
    | Object fields =>
        metadata_fields (fun child => collect_result_metadata child (S depth)) fields acc
    | Array items =>
        if (length items <=? 128)%nat then
          metadata_items (fun child => collect_result_metadata child (S depth)) items acc
        else acc
    | _ => acc
    end.

(** [serde_json::from_value::<Evidence>]: an object with both fields, or the
    sequence of them. *)
Definition decode_evidence (v : Value) : option Evidence :=
  match v with
  | Object fields =>
      kind ← (assoc "kind" fields ≫= Json.as_str);
      uri ← (assoc "uri" fields ≫= Json.as_str);
      Some (MkEvidence kind uri)
  | Array [Str kind; Str uri] => Some (MkEvidence kind uri)
  | _ => None
  end.

(** Evidence by address, a later entry replacing an earlier one. *)
Definition by_uri (l : list Evidence) (m : gmap string Evidence) : gmap string Evidence :=
  foldl (fun m e => <[ev_uri e := e]> m) m l.

Definition field_evidence (facts : Value) (field : string) : list Evidence :=
  match Json.get field facts ≫= Json.as_array with
  | Some items => omap decode_evidence (take MAX_EVIDENCE_ENTRIES items)
  | None => []
  end.

Definition present_continuation (facts : Value) : option Value :=
  match Json.get "continuation" facts with
  | Some v => if decide (v = Null) then None else Some v
  | None => None
  end.

(** [SemanticResult::read]. *)
Definition semantic_read (facts : Value) (context : option ObservationContext)
    (session_id : string) : SemanticResult :=
  let evidence :=
    by_uri (field_evidence facts "evidence" ++ field_evidence facts "observation_evidence")
      (by_uri (result_evidence session_id facts) ∅) in
  let '(truncated, artifacts) := collect_result_metadata facts 0 (false, ∅) in
  let complete :=
    negb (bool_decide (Json.get "gap" facts = Some (Bool true))) &&
    negb (bool_decide (Json.get "partial" facts = Some (Bool true))) &&
    negb (bool_decide (Json.get "complete" facts = Some (Bool false))) in
  let historical := bool_decide (Json.get "historical" facts = Some (Bool true)) in
  let metadata :=
    MkResultMetadata (MkResultSemantics context None complete historical Detailed)
      (result_warnings facts) truncated (present_continuation facts)
      (btree_strings artifacts) (take MAX_EVIDENCE_ENTRIES (btree_values evidence)) in
  match Json.get "evidence_seq" facts ≫= Json.as_u64, facts with
  | Some sequence, Object fields =>
      detail "evidence_seq" (uint sequence)
        (MkSemanticResult (Object (remove_field "evidence_seq" fields)) metadata ∅)
  | _, _ => MkSemanticResult facts metadata ∅
  end.

(** [observation_details]: the capture context moves out of the facts. *)
Definition OBSERVATION_FIELDS : list string :=
  ["context"; "observation_context"; "evidence"; "observation_evidence"].

Definition move_detail (r : SemanticResult) (field : string) : SemanticResult :=
  match facts r with
  | Object fields =>
      match assoc field fields with
      | Some v => insert_diagnostic field (DValue v)
                    (r <| facts := Object (remove_field field fields) |>)
      | None => r
      end
  | _ => r
  end.

Definition observation_details (r : SemanticResult) : SemanticResult :=
  foldl move_detail r OBSERVATION_FIELDS.

(** ** The coordination state *)

Definition field_if (b : bool) (key : string) (v : Value) : list (string * Value) :=
  if b then [(key, v)] else [].

Definition drop_nulls (v : Value) : Value :=
  match v with
  | Object fields => Object (filter (fun kv => kv.2 <> Null) fields)
  | _ => v
  end.

(** The inferior the summary describes: the stopped one, else the only one. *)
Definition coordination_inferior (state : SessionState) : option InferiorState :=
  match
    id ← stopped_inferior_id state;
    List.find (fun i => bool_decide (inf_id i = id)) (btree_values (inferiors state))
  with
  | Some i => Some i
  | None => match btree_values (inferiors state) with [i] => Some i | _ => None end
  end.

Definition summary_frame (f : FrameSummary) : Value :=
  match drop_nulls (frame_value f) with
  | Object fields =>
      Object (if decide (assoc "function" fields ≫= Json.as_str = Some "??")
              then remove_field "function" fields else fields)
  | v => v
  end.

Definition summary_reason (state : SessionState) : list (string * Value) :=
  match stop_reason_detail state with
  | Some reason =>
      match drop_nulls (stop_reason_value reason) with
      | Object fields =>
          [("stop_reason",
            Object (if decide (assoc "disposition" fields ≫= Json.as_str = Some "keep")
                    then remove_field "disposition" fields else fields))]
      | v => [("stop_reason", v)]
      end
  | None => skipped "stop_reason" Str (stop_reason state)
  end.

Definition summary_snapshot (state : SessionState) : list (string * Value) :=
  match snapshot state with
  | Some s =>
      field_if (snap_partial s || negb (bool_decide (snap_status s = Snapshot.Ready)) ||
                negb (bool_decide (stop_id state = Some (snap_stop_id s))))
        "snapshot" (snapshot_value s)
  | None => []
  end.

Definition coordination_fields (state : SessionState) : list (string * Value) :=
  field_if (negb (bool_decide (lifecycle state = Lifecycle.Active)))
    "lifecycle" (Str (lifecycle_wire (lifecycle state))) ++
  field_if (negb (bool_decide (backend state = Backend.Healthy)))
    "backend" (Str (backend_wire (backend state))) ++
  field_if (negb (bool_decide (consistency state = Consistent.Clean)))
    "consistency" (Str (consistency_wire (consistency state))) ++
  field_if (reconciliation_required state) "reconciliation_required" (Bool true) ++
  field_if (negb (bool_decide (target_origin state = Origin.Unknown)))
    "target_origin" (Str (origin_wire (target_origin state))) ++
  match coordination_inferior state with
  | Some i =>
      [("status", Str (inferior_wire (inf_status i)))] ++ skipped "pid" uint (inf_pid i) ++
      skipped "exit_code" projected_exit_code (inf_exit_code i)
  | None => []
  end ++
  field_if (negb (bool_decide (outcome_unknown_tokens state = ∅)))
    "outcome_unknown_tokens" (Array (uint <$> btree_set_iter (outcome_unknown_tokens state))) ++
  skipped "stop_id" Str (stop_id state) ++
  summary_reason state ++
  skipped "inferior_id" Str (stopped_inferior_id state) ++
  skipped "thread_id" Str (stopped_thread_id state) ++
  skipped "frame" summary_frame (stopped_frame state) ++
  summary_snapshot state.

Definition session_coordination_state (state : SessionState) : Value :=
  Object (coordination_fields state).

(** [SemanticResult::state]. *)
Definition with_state (key : string) (state : SessionState) (r : SemanticResult)
    : SemanticResult :=
  let m := metadata r in
  insert_diagnostic key (DState state)
    (r <| metadata := m <| semantics :=
            semantics m <| sem_state := Some (session_coordination_state state) |> |> |>).

(** The first state among the diagnostics, in key order. *)
Definition matched_state (r : SemanticResult) : option SessionState :=
  head (omap (fun d => match d with DState s => Some s | _ => None end)
          (btree_values (diagnostics r))).

Definition same_outside_snapshot (left right : list (string * Value)) : bool :=
  bool_decide ((delete "snapshot" (list_to_map left) : gmap string Value) =
               delete "snapshot" (list_to_map right)).

(** [refresh_state_progress]: only the snapshot of the same stop moves on. *)
Definition refresh_state_progress (current : SessionState) (r : SemanticResult)
    : SemanticResult :=
  match matched_state r with
  | None => r
  | Some matched =>
      if negb (bool_decide (stop_id matched = stop_id current)) ||
         negb (execution_epoch matched =? execution_epoch current)%N ||
         bool_decide (snapshot matched = snapshot current)
      then r
      else
        let m := metadata r in
        match sem_state (semantics m) with
        | Some (Object summary) =>
            let latest := coordination_fields current in
            if same_outside_snapshot summary latest then
              r <| metadata := m <| semantics :=
                     semantics m <| sem_state := Some (Object latest) |> |> |>
            else r
        | _ => r
        end
  end.

(** ** Failures of parts *)

Definition with_failures (key : string) (failures : gmap string ApiError) (r : SemanticResult)
    : option SemanticResult :=
  facts' ← set_index key (map_value (api_error_value ∘ api_error_compact) failures) (facts r);
  Some (insert_diagnostic key (DFailures failures) (r <| facts := facts' |>)).

Definition with_error (key : string) (error : ApiError) (r : SemanticResult)
    : option SemanticResult :=
  facts' ← set_index key (api_error_value (api_error_compact error)) (facts r);
  Some (insert_diagnostic key (DError error) (r <| facts := facts' |>)).

Definition project_diagnostics (facts : Value) (diagnostics : gmap string Diagnostic)
    : option Value :=
  foldl (fun facts kd => facts ← facts; set_index kd.1 (diagnostic_value kd.2) facts)
    (Some facts) (btree_iter diagnostics).

Definition into_value (detailed : bool) (r : SemanticResult) : option Value :=
  if detailed then project_diagnostics (facts r) (diagnostics r) else Some (facts r).

(** ** Observation contexts read back *)

(** A missing or null optional string; another value is an error. *)
Definition opt_string (v : option Value) : option (option string) :=
  match v with
  | None | Some Null => Some None
  | Some (Str s) => Some (Some s)
  | Some _ => None
  end.

Definition decode_context_fields (get : string -> option Value) : option ObservationContext :=
  observation_id ← opt_string (get "observation_id");
  stop_id ← (get "stop_id" ≫= Json.as_str);
  captured_revision ← (get "captured_revision" ≫= Json.as_u64);
  execution_epoch ← (get "execution_epoch" ≫= Json.as_u64);
  inferior_id ← opt_string (get "inferior_id");
  thread_id ← opt_string (get "thread_id");
  frame_id ← opt_string (get "frame_id");
  Some (MkObservationContext observation_id stop_id captured_revision execution_epoch
          inferior_id thread_id frame_id).

Definition CONTEXT_NAMES : list string :=
  ["observation_id"; "stop_id"; "captured_revision"; "execution_epoch"; "inferior_id";
   "thread_id"; "frame_id"].

(** [serde_json::from_value::<ObservationContext>]. *)
Definition decode_context (v : Value) : option ObservationContext :=
  match v with
  | Object fields => decode_context_fields (fun key => assoc key fields)
  | Array items =>
      if decide (length items = length CONTEXT_NAMES) then
        decode_context_fields (fun key => assoc key (zip CONTEXT_NAMES items))
      else None
  | _ => None
  end.

Definition or_else {A} (o o' : option A) : option A :=
  match o with Some a => Some a | None => o' end.

Section messages.
Variable json_error : Value -> string.

Definition observation_context_from_observation (value : Value)
    : Result Error (option ObservationContext) :=
  match or_else (Json.get "observation_context" value) (Json.get "context" value) with
  | Some context =>
      match decode_context context with
      | Some c => Ok (Some c)
      | None => Err (Error_new Code.Internal (json_error context))
      end
  | None =>
      Ok (stop_id ← (Json.get "stop_id" value ≫= Json.as_str);
          captured_revision ←
            (or_else (Json.get "captured_revision" value) (Json.get "revision" value)
             ≫= Json.as_u64);
          execution_epoch ← (Json.get "execution_epoch" value ≫= Json.as_u64);
          Some (MkObservationContext
                  (or_else (Json.get "observation_id" value) (Json.get "snapshot_id" value)
                   ≫= Json.as_str)
                  stop_id captured_revision execution_epoch None None None))
  end.
End messages.

(** ** Results of operations and their responses *)

Inductive OperationResult :=
| Semantic (result : SemanticResult)
| Legacy (result : Value).

Definition result_facts (r : OperationResult) : Value :=
  match r with Semantic result => facts result | Legacy result => result end.

Definition detailed_value (r : OperationResult) : option Value :=
  match r with
  | Semantic result => project_diagnostics (facts result) (diagnostics result)
  | Legacy result => Some result
  end.

(** [Value::pointer] along field names. *)
Definition pointer (path : list string) (v : Value) : option Value :=
  foldl (fun v key => v ≫= Json.get key) (Some v) path.

(** [ApiResponse::success]. *)
Definition success (request : ApiRequest) (state : option SessionState) (result : Value)
    : ApiResponse :=
  let '(session_id, state) :=
    match req_method request with
    | OperationGet | OperationCancel =>
        let session_id :=
          or_else (pointer ["operation"; "result"; "session_id"] result ≫= Json.as_str)
                  (pointer ["operation"; "session_id"] result ≫= Json.as_str) in
        (session_id,
         state ≫= fun s => if decide (Some (Domain.session_id s) = session_id) then Some s else None)
    | _ => (or_else (Domain.session_id <$> state) (req_session_id request), state)
    end in
  let '(truncated, artifacts) := collect_result_metadata result 0 (false, ∅) in
  MkApiResponse API_VERSION (req_request_id request) session_id (revision <$> state) state
    (Some result) None (result_warnings result) truncated (present_continuation result)
    (btree_strings artifacts) (response_evidence session_id (Some result)) None.

(** The aliases of the promoted context at the root of compact facts. *)
Definition root_aliases (semantics : ResultSemantics) (context : ObservationContext)
    : list (string * Value) :=
  [("stop_id", Str (oc_stop_id context));
   ("observation_id", nullable Str (oc_observation_id context));
   ("snapshot_id", nullable Str (oc_observation_id context));
   ("revision", uint (oc_captured_revision context));
   ("execution_epoch", uint (oc_execution_epoch context));
   ("complete", Bool (sem_complete semantics));
   ("observation_complete", Bool (sem_complete semantics));
   ("partial", Bool (negb (sem_complete semantics)));
   ("historical", Bool (sem_historical semantics))].

Definition remove_alias (fields : list (string * Value)) (alias : string * Value)
    : list (string * Value) :=
  if decide (assoc alias.1 fields = Some alias.2) then remove_field alias.1 fields else fields.

(** Every fact is marked captured, and the marks name exactly the captured facts. *)
Definition repeated_availability (fields : list (string * Value)) (availability captured : string)
    : bool :=
  match assoc availability fields ≫= Json.as_object, assoc captured fields ≫= Json.as_object with
  | Some availability, Some captured =>
      bool_decide (length availability = length captured) &&
      forallb (fun kv => bool_decide (kv.2 = Str "captured") &&
                         bool_decide (is_Some (assoc kv.1 captured))) availability
  | _, _ => false
  end.

Definition remove_availability (fields : list (string * Value)) (names : string * string)
    : list (string * Value) :=
  if repeated_availability fields names.1 names.2 then remove_field names.1 fields else fields.

Definition compact_facts (semantics : ResultSemantics) (facts : Value) : Value :=
  match sem_context semantics, facts with
  | Some context, Object fields =>
      let fields := foldl remove_alias fields (root_aliases semantics context) in
      Object (if sem_complete semantics
              then foldl remove_availability fields
                     [("availability", "results"); ("observation_availability", "observations")]
              else fields)
  | _, _ => facts
  end.

(** [ApiResponse::semantic_success]. *)
Definition semantic_success (request : ApiRequest) (state : option SessionState)
    (result : SemanticResult) (detailed : bool) : option ApiResponse :=
  let m := metadata result in
  let semantics :=
    semantics m <| sem_projection := if detailed then Detailed else Compact |> in
  facts ← (if detailed then project_diagnostics (facts result) (diagnostics result)
           else Some (compact_facts semantics (facts result)));
  Some (MkApiResponse API_VERSION (req_request_id request) (req_session_id request)
          (revision <$> state) state (Some facts) (Some semantics) (warnings m) (truncated m)
          (continuation m) (artifacts m) (evidence m) None).
