(* ===== verification/Config.v ===== *)
(** * Config: the configuration of a daemon
    ([crates/gdb-ai-core/src/config.rs])

    The sections with their defaults and the validation at startup.  Parsing
    a socket address is the standard library's and a parameter; so are the
    process environment and its working directory. *)

From S2P Require Import Prelude Text Json Errors Domain Journal Policy.

Inductive OutputEvidenceMode := EphemeralRing | BoundedSpool | ArtifactMode.

#[global] Instance OutputEvidenceMode_eq_dec : EqDecision OutputEvidenceMode.
Proof. solve_decision. Defined.

Record OutputConfig := MkOutputConfig { evidence_mode : OutputEvidenceMode; max_bytes : N }.
Definition OutputConfig_default : OutputConfig := MkOutputConfig EphemeralRing (8 * 1024 * 1024).

Record StorageConfig := MkStorageConfig {
  max_closed_sessions : N;
  closed_session_retention_ms : N;
  max_audit_rows : N;
  audit_retention_ms : N;
  max_snapshots_per_session : N;
  max_operations_per_session : N
}.

Definition StorageConfig_default : StorageConfig :=
  MkStorageConfig 256 (7 * 24 * 60 * 60 * 1000) 100000 (30 * 24 * 60 * 60 * 1000) 256 4096.

Record ServerConfig := MkServerConfig {
  max_sessions : N;
  max_http_sessions : N;
  http_session_idle_ms : N;
  command_timeout_ms : N;
  wait_timeout_ms : N;
  write_lease_ms : N;
  unix_socket : option string;
  requests_per_second : N;
  request_burst : N
}.

Definition ServerConfig_default : ServerConfig :=
  MkServerConfig 8 128 (15 * 60 * 1000) 15000 5000 (5 * 60 * 1000) None 100 200.

Record GdbConfig := MkGdbConfig {
  gdb_path : string;
  preferred_mi : string;
  fallback_mi : string;
  python_extension : option string;
  python_extension_sha256 : option string
}.

Definition GdbConfig_default : GdbConfig := MkGdbConfig "gdb" "mi4" "mi3" None None.

Record Limits := MkLimits {
  mi_record_bytes : N;
  mi_depth : N;
  tool_response_bytes : N;
  inline_memory_bytes : N;
  memory_read_bytes : N;
  inferior_output_ring_bytes : N;
  console_output_ring_bytes : N;
  stack_frames : N;
  value_children : N;
  value_depth : N;
  session_artifact_bytes : N;
  owner_artifact_bytes : N;
  total_artifact_bytes : N;
  journal_bytes : N;
  process_memory_bytes : N;
  process_cpu_seconds : N;
  process_file_bytes : N;
  process_open_files : N;
  process_count : N
}.

Definition Limits_default : Limits :=
  MkLimits (8 * 1024 * 1024) 128 (256 * 1024) (4 * 1024) (16 * 1024 * 1024) (8 * 1024 * 1024)
    (2 * 1024 * 1024) 64 1000 8 (512 * 1024 * 1024) (1024 * 1024 * 1024)
    (4 * 1024 * 1024 * 1024) (64 * 1024 * 1024) 0 0 0 0 0.

Inductive SandboxMode := Auto | Required | Disabled.
Record SourceMap := MkSourceMap { from : string; to : string }.

Record SecurityConfig := MkSecurityConfig {
  default_profile : Profile;
  workspace_roots : list string;
  remote_allowlist : list string;
  attach_allowlist : list N;
  environment_allowlist : list string;
  source_map : list SourceMap;
  sandbox : SandboxMode;
  kernel_enabled : bool;
  monitor_allowlist : list string
}.

Definition SecurityConfig_default (current_dir : option string) : SecurityConfig :=
  MkSecurityConfig LabMutation [default "." current_dir] [] [] [] [] Disabled true [].

Record Config := MkConfig {
  server : ServerConfig;
  gdb : GdbConfig;
  limits : Limits;
  journal_durability : JournalDurability;
  output : OutputConfig;
  storage : StorageConfig;
  artifacts_path : string;
  sqlite : string;
  sessions_path : string;
  security : SecurityConfig
}.

(** [PathBuf::join]. *)
Definition join (base path : string) : string :=
  if starts_with (bytes_of "/") (bytes_of path) then path
  else if decide (base = "") then path
  else if starts_with (bytes_of "/") (reverse (bytes_of base)) then base +:+ path
  else base +:+ "/" +:+ path.

Definition default_state_directory (temp_dir : string) (process_id : N)
    (xdg home : option string) : string :=
  match xdg with
  | Some path => join path "gdb-ai"
  | None =>
      match home with
      | Some path => join path ".local/state/gdb-ai"
      | None => join temp_dir ("gdb-ai-" +:+ dec process_id)
      end
  end.

Definition Config_default (temp_dir : string) (process_id : N) (xdg home current_dir : option string)
    : Config :=
  let data := default_state_directory temp_dir process_id xdg home in
  MkConfig ServerConfig_default GdbConfig_default Limits_default Performance OutputConfig_default
    StorageConfig_default (join data "artifacts") (join data "gdb-ai.sqlite")
    (join data "sessions") (SecurityConfig_default current_dir).

Definition I64_MAX : N := 9223372036854775807.

Definition timeouts_valid (c : Config) : bool :=
  ((0 <? command_timeout_ms (server c)) && (command_timeout_ms (server c) <=? 300000) &&
   (0 <? wait_timeout_ms (server c)) && (wait_timeout_ms (server c) <=? 300000) &&
   (0 <? write_lease_ms (server c)) && (1000 <=? http_session_idle_ms (server c)) &&
   (1000 <=? closed_session_retention_ms (storage c)) &&
   (1000 <=? audit_retention_ms (storage c)))%N.

Definition limits_valid (c : Config) : bool :=
  let s := server c in let l := limits c in let st := storage c in let o := output c in
  ((0 <? max_sessions s) && (max_sessions s <=? 1024) &&
   (0 <? max_http_sessions s) && (max_http_sessions s <=? 16384) &&
   (1024 <=? mi_record_bytes l) && (0 <? mi_depth l) &&
   (1024 <=? tool_response_bytes l) && (0 <? inline_memory_bytes l) &&
   (inline_memory_bytes l <=? memory_read_bytes l) && (0 <? memory_read_bytes l) &&
   (0 <? inferior_output_ring_bytes l) && (0 <? console_output_ring_bytes l) &&
   (0 <? stack_frames l) && (0 <? value_children l) && (0 <? value_depth l) &&
   (0 <? session_artifact_bytes l) && (session_artifact_bytes l <=? owner_artifact_bytes l) &&
   (owner_artifact_bytes l <=? total_artifact_bytes l) &&
   (session_artifact_bytes l <=? total_artifact_bytes l) &&
   (total_artifact_bytes l <=? I64_MAX) && (0 <? journal_bytes l) &&
   ((process_open_files l =? 0) || (32 <=? process_open_files l)) &&
   (0 <? max_closed_sessions st) && (0 <? max_audit_rows st) && (max_audit_rows st <=? I64_MAX) &&
   (0 <? max_snapshots_per_session st) && (0 <? max_operations_per_session st) &&
   (0 <? max_bytes o) && (max_bytes o <=? session_artifact_bytes l))%N.

Definition validate (is_socket_addr : string -> bool) (c : Config) : Result Error unit :=
  if negb (timeouts_valid c) || negb (limits_valid c) ||
     bool_decide (workspace_roots (security c) = [])
  then Err (Error_new Code.InvalidArgument
    "configuration contains an invalid timeout, limit, or empty workspace policy")
  else if existsb (fun e => negb (is_socket_addr e)) (remote_allowlist (security c))
  then Err (Error_new Code.InvalidArgument
    "remote_allowlist entries must be pinned IP addresses and ports")
  else
    match python_extension_sha256 (gdb c) with
    | Some hash =>
        if negb (lenN (bytes_of hash) =? 64)%N || negb (forallb is_ascii_hexdigit (bytes_of hash))
        then Err (Error_new Code.InvalidArgument
          "python_extension_sha256 must contain 64 hexadecimal digits")
        else Ok tt
    | None => Ok tt
    end.

(** Milliseconds. *)
Definition command_timeout (s : ServerConfig) : N := N.max (command_timeout_ms s) 1.
Definition wait_timeout (s : ServerConfig) : N := N.max (wait_timeout_ms s) 1.

(** The built-in configuration starts, whatever the environment. *)
Theorem default_configuration_is_valid is_socket_addr temp_dir process_id xdg home current_dir :
  validate is_socket_addr (Config_default temp_dir process_id xdg home current_dir) = Ok tt.
Proof. reflexivity. Qed.

(** What the other components rely on in a configuration that was accepted. *)
Theorem accepted_configurations_are_usable is_socket_addr c :
  validate is_socket_addr c = Ok tt ->
  (0 < max_sessions (server c) <= 1024)%N /\ (0 < command_timeout_ms (server c) <= 300000)%N /\
  (0 < wait_timeout_ms (server c) <= 300000)%N /\
  (0 < inline_memory_bytes (limits c) <= memory_read_bytes (limits c))%N /\
  (0 < session_artifact_bytes (limits c) <= owner_artifact_bytes (limits c))%N /\
  (owner_artifact_bytes (limits c) <= total_artifact_bytes (limits c) <= I64_MAX)%N /\
  (0 < max_bytes (output c) <= session_artifact_bytes (limits c))%N /\
  Forall (fun e => is_socket_addr e = true) (remote_allowlist (security c)) /\
  workspace_roots (security c) <> [].
Proof.
  unfold validate. case_match eqn:H1; [done|]. case_match eqn:H2; [done|]. intros _.
  apply orb_false_iff in H1 as [[Ht%negb_false_iff Hl%negb_false_iff]%orb_false_iff Hw].
  unfold timeouts_valid, limits_valid in Ht, Hl.
  repeat match goal with
  | H : _ && _ = true |- _ => apply andb_true_iff in H as [? ?]
  | H : (_ <? _)%N = true |- _ => apply N.ltb_lt in H
  | H : (_ <=? _)%N = true |- _ => apply N.leb_le in H
  end.
  apply bool_decide_eq_false in Hw. split_and!; try lia; [|done].
  apply Forall_forall. intros e He. apply not_true_iff_false in H2.
  destruct (is_socket_addr e) eqn:Ee; [done|]. exfalso. apply H2.
  apply existsb_exists. exists e. split; [by apply list_elem_of_In|by rewrite Ee].
Qed.

Lemma accepted_configurations_are_usable_witness :
  (0 < max_sessions (server (Config_default "/tmp" 7 None (Some "/home/u") None)) <= 1024)%N.
Proof.
  apply (accepted_configurations_are_usable (fun _ => true)
    (Config_default "/tmp" 7 None (Some "/home/u") None)). reflexivity.
Defined.
