(* ===== verification/Gateway.v ===== *)
(** * Gateway: the shared state of the daemon and what a request does to it
    ([crates/gdb-ai-core/src/gateway.rs])

    The operations a request performs on what it shares with other requests:
    the session table, the locks of an entry, its controller, the idempotency
    and rate tables, the store and the session actors.  A session entry is an
    [Arc]: its reference and its immutable fields. *)

From S2P Require Import Prelude Text Json Errors Domain Policy Protocol Contracts Access Effects Program Actor Wire Results Config.
Import Method.

Record SessionEntry := MkSessionEntry {
  se_ref : positive;
  se_id : SessionId;
  se_owner : string;
  se_profile : Profile
}.

#[export] Instance SessionEntry_eq_dec : EqDecision SessionEntry.
Proof. solve_decision. Defined.

Record SharedReads := MkSharedReads {
  fence : option (N * N);
  results : gmap string OperationResult;
  shared_bytes : N
}.

Definition SharedReads_default : SharedReads := MkSharedReads None ∅ 0.

(** The locks of the gateway and of an entry; the idempotency lock of a key is
    the mutex behind an [Arc]. *)
Inductive lock :=
| LCreation
| LRetry (mutex : positive)
| LTarget (entry : positive)
| LOutOfBand (entry : positive)
| LController (entry : positive)
| LShared (entry : positive).

#[export] Instance lock_eq_dec : EqDecision lock.
Proof. solve_decision. Defined.

(** [read] of an [RwLock]; [write], or [lock] of a [Mutex]. *)
Inductive access := Shared | Exclusive.

#[export] Instance access_eq_dec : EqDecision access.
Proof. solve_decision. Defined.

Record AuditRecord := MkAuditRecord {
  audit_caller : string;
  audit_session : option SessionId;
  audit_method : CanonicalMethod;
  audit_effect : Effect;
  audit_allowed : bool;
  audit_revision : option N;
  audit_request : Value;
  audit_outcome : string
}.

Module Op.

Inductive op :=
(* locks *)
| Lock (l : lock) (a : access)
| LockWithin (l : lock)
| Unlock (l : lock) (a : access)
(* idempotency *)
| RetryEntry (key : string)
| RetryRelease (key : string) (mutex : positive)
| RetryDrop (mutex : positive)
| CachedResponse (key : string)
| CacheResponse (key hash : string) (response : ApiResponse)
| StoredResponse (key hash : string)
| StoreResponse (key hash : string) (response : ApiResponse)
(* the session table and its entries *)
| FindSession (id : string)
| SessionEntries
| InsertSession (e : SessionEntry)
| RemoveSession (id : string) (e : SessionEntry)
| TakeSessions
| RetireState (id : string) (state : SessionState)
| RetiredState (id : string)
| TryAcquireSlot
| DropSlot
| TakeSlot (e : SessionEntry)
| NewEntry (id : SessionId) (owner : string) (profile : Profile) (c : Controller)
| GetController (e : SessionEntry)
| SetController (e : SessionEntry) (c : option Controller)
| NextLeaseGeneration (e : SessionEntry)
| BumpMutation (e : SessionEntry)
| MutationGeneration (e : SessionEntry)
| GetShared (e : SessionEntry)
| SetShared (e : SessionEntry) (s : SharedReads)
| SetShuttingDown
| ShuttingDown
(* the session actors *)
| State (e : SessionEntry)
| Capabilities (e : SessionEntry)
| OutputEvidence (e : SessionEntry)
| IsFinished (e : SessionEntry)
| StartSession (profile : Profile)
| CloseStarted (id : SessionId)
| CloseSession (e : SessionEntry)
| RecordApi (e : SessionEntry) (request : Value)
| RecordEvent (e : SessionEntry) (event : Event.DomainEvent)
| FlushJournal (e : SessionEntry)
| Reconcile (e : SessionEntry)
| BindOperation (e : SessionEntry) (caller : Caller)
| Execute (request : ApiRequest) (caller : Caller) (mode : RequestMode)
(* tasks, clock, files *)
| RequireActive
| CheckRate (identity : string)
| NowMs
| NewLeaseId
| ReadMaps (pid : N)
| PutArtifact (session : option SessionId) (content sensitivity : string)
| ScanJournal (id : SessionId) (event_seqs : list N)
| ReadTranscript (id : SessionId) (offset maximum : N)
(* the store *)
| SessionOwner (id : SessionId)
| GetSession (id : SessionId)
| ListSessionOwners
| SetSessionOwner (id : SessionId) (owner : string)
| UpsertLease (l : WriteLease)
| DeleteLease (id : SessionId)
| MaintainStorage (live : list string)
| Audit (r : AuditRecord)
| AuditResult (session : SessionId) (method : CanonicalMethod) (result : Value).

Definition answer (o : op) : Type :=
  match o with
  | Lock _ _ | Unlock _ _ => unit
  | LockWithin _ => bool
  | RetryEntry _ => positive
  | RetryRelease _ _ | RetryDrop _ => unit
  | CachedResponse _ => option (string * ApiResponse)
  | CacheResponse _ _ _ => unit
  | StoredResponse _ _ => Result Error (option ApiResponse)
  | StoreResponse _ _ _ => Result Error unit
  | FindSession _ => option SessionEntry
  | SessionEntries | TakeSessions => list SessionEntry
  | InsertSession _ => unit
  | RemoveSession _ _ => bool * list string
  | RetireState _ _ => unit
  | RetiredState _ => option SessionState
  | TryAcquireSlot => bool
  | DropSlot | TakeSlot _ => unit
  | NewEntry _ _ _ _ => SessionEntry
  | GetController _ => option Controller
  | SetController _ _ => unit
  | NextLeaseGeneration _ => N
  | BumpMutation _ => unit
  | MutationGeneration _ => N
  | GetShared _ => SharedReads
  | SetShared _ _ => unit
  | SetShuttingDown => unit
  | ShuttingDown => bool
  | State _ => SessionState
  | Capabilities _ => Results.SessionCapabilities
  | OutputEvidence _ => Value
  | IsFinished _ => bool
  | StartSession _ => Result Error SessionId
  | CloseStarted _ | CloseSession _ | RecordApi _ _ | RecordEvent _ _ | FlushJournal _ =>
      Result Error unit
  | Reconcile _ => Result Error Value
  | BindOperation _ _ => Result Error unit
  | Execute _ _ _ => Result Error OperationResult
  | RequireActive | CheckRate _ => Result Error unit
  | NowMs => N
  | NewLeaseId => LeaseId
  | ReadMaps _ => option string
  | PutArtifact _ _ _ => Result Error string
  | ScanJournal _ _ => Result Error Value
  | ReadTranscript _ _ _ => Result Error (N * bytes * N)
  | SessionOwner _ => Result Error (option string)
  | GetSession _ => Result Error (option SessionState)
  | ListSessionOwners => Result Error (list (SessionState * option string))
  | SetSessionOwner _ _ | UpsertLease _ | DeleteLease _ | MaintainStorage _ | Audit _
  | AuditResult _ _ _ => Result Error unit
  end.

End Op.

Definition GatewaySig : Sig := MkSig Op.op Op.answer.

Definition method (S A : Type) : Type := act GatewaySig S A.

Definition do (o : Op.op) {S : Type} : method S (Op.answer o) := perform (E := GatewaySig) o.

(** An operation that answers with a [Result], returned with [?]. *)
Definition ask {S A : Type} (m : method S (Result Error A)) : method S A := m ≫= check.

(** ** Requests and entries *)

Section requests.
Context {S : Type}.

Definition entry_for_request (request : ApiRequest) : method S (option SessionEntry) :=
  match req_session_id request with
  | Some id => do (Op.FindSession id)
  | None => mret None
  end.

Definition entry (session_id : string) : method S SessionEntry :=
  found ← do (Op.FindSession session_id);
  check (ok_or found (Error_new Code.NotFound "session not found")).

Definition required_session (request : ApiRequest) : Result Error string :=
  ok_or (req_session_id request) (Error_new Code.InvalidArgument "method requires session_id").

End requests.

(** ** Validation of the envelope *)

Definition length_between (low high : N) (s : string) : bool :=
  ((low <=? lenN (bytes_of s)) && (lenN (bytes_of s) <=? high))%N.

Definition validate_request (request : ApiRequest) : Result Error unit :=
  let invalid message := Err (Error_new Code.InvalidArgument message) in
  if negb (bool_decide (req_api_version request = API_VERSION)) then
    Err (Error_new Code.Unsupported
           ("unsupported api_version " +:+ req_api_version request +:+ "; expected " +:+ API_VERSION))
  else if negb (length_between 1 128 (req_request_id request)) then
    invalid "request_id must contain 1 to 128 bytes"
  else if negb (length_between 1 128 (Method.as_str (req_method request))) then
    invalid "method must contain 1 to 128 bytes"
  else if match req_idempotency_key request with
          | Some key => negb (length_between 1 256 key)
          | None => false
          end then
    invalid "idempotency_key must contain 1 to 256 bytes"
  else if negb (bool_decide (is_Some (Json.as_object (req_parameters request)))) then
    invalid "parameters must be an object"
  else if requires_session (req_method request) &&
          bool_decide (req_session_id request = None) then
    invalid "method requires session_id"
  else if bool_decide (req_method request = TargetLaunch) &&
          bool_decide (req_session_id request = None) &&
          (bool_decide (is_Some (req_expected_revision request)) ||
           bool_decide (is_Some (Json.get "lease_id" (req_parameters request)))) then
    invalid "new-session launch cannot reference an existing revision or lease"
  else
    _ ← validate_parameters (req_method request) (req_parameters request);
    match req_session_id request with
    | Some session_id => _ ← SessionId_parse session_id; Ok tt
    | None => Ok tt
    end.

(** ** Defaults of agent requests *)

Definition default_encoding (parameters : Value) : Value :=
  match parameters with
  | Object fields =>
      match assoc "encoding" fields with
      | Some _ => parameters
      | None => Object (set_field "encoding" (Str "hex") fields)
      end
  | _ => parameters
  end.

Definition with_parameters (parameters : Value) (r : ApiRequest) : ApiRequest :=
  MkApiRequest (req_api_version r) (req_request_id r) (req_session_id r) (req_method r)
    (req_expected_revision r) (req_idempotency_key r) parameters.

Definition views_memory (v : Value) : bool :=
  bool_decide (Json.get "view" v = Some (Str "memory")).

(** The field that holds nested read requests. *)
Definition nested_requests (method : CanonicalMethod) : option string :=
  match method with
  | InspectionBatch => Some "requests"
  | TargetLaunch | TargetRestart | ExecutionControl | ExecutionWait | InspectionSnapshot =>
      Some "inspect"
  | _ => None
  end.

Definition default_nested (field : string) (parameters : Value) : Value :=
  match parameters with
  | Object fields =>
      match assoc field fields ≫= Json.as_array with
      | Some items =>
          Object (set_field field
            (Array ((fun item => if views_memory item then default_encoding item else item) <$> items))
            fields)
      | None => parameters
      end
  | _ => parameters
  end.

Definition default_agent_memory_encoding (request : ApiRequest) : ApiRequest :=
  if bool_decide (req_method request = MemoryRead) ||
     (bool_decide (req_method request = InspectionGet) && views_memory (req_parameters request))
  then with_parameters (default_encoding (req_parameters request)) request
  else
    match nested_requests (req_method request) with
    | Some field => with_parameters (default_nested field (req_parameters request)) request
    | None => request
    end.

(** The synchronous wait an agent asks for. *)
Definition agent_timeout (request : ApiRequest) : option N :=
  or_else (pointer ["wait"; "timeout_ms"] (req_parameters request) ≫= Json.as_u64)
    (if decide (req_method request = InferiorIoWrite)
     then Json.get "timeout_ms" (req_parameters request) ≫= Json.as_u64 else None).

Definition check_agent_timeout (command_timeout_ms : N) (request : ApiRequest)
    : Result Error unit :=
  match agent_timeout request with
  | Some timeout =>
      if (command_timeout_ms <? timeout)%N then
        Err (with_details (Object [("maximum_timeout_ms", uint command_timeout_ms)])
               (Error_new Code.InvalidArgument
                  ("Agent synchronous timeout exceeds the server command budget of " +:+
                   dec command_timeout_ms +:+ " ms")))
      else Ok tt
  | None => Ok tt
  end.

(** ** Classification of results *)

Definition self_attributed_observation (request : ApiRequest) (result : Value) : bool :=
  match req_method request with
  | InspectionBatch | InspectionSnapshot | InspectionSnapshotGet => true
  | InspectionGet | ValueEvaluate | MemoryRead | MemorySearch | MemoryCompare | RegisterRead
  | DisassemblyRead =>
      match Json.get "stop_id" result with
      | Some v => negb (bool_decide (v = Null))
      | None => false
      end
  | ExecutionControl | ExecutionWait =>
      bool_decide (is_Some (Json.get "observation_context" result))
  | _ => false
  end.

Definition evidence_gap (prefix limitation : string) : bool :=
  starts_with (bytes_of prefix) (bytes_of limitation).

Definition has_sqlite_evidence_gap (state : SessionState) : bool :=
  existsb (evidence_gap "evidence gap: SQLite ") (limitations state).

(** The warnings of the evidence gaps of a session. *)
Definition gap_warnings (state : SessionState) : list Warning :=
  MkWarning "EVIDENCE_GAP" <$> filter (fun l => evidence_gap "evidence gap: " l = true)
    (limitations state).

(** ** Bounded responses *)

Definition set_result (result : option Value) (r : ApiResponse) : ApiResponse :=
  MkApiResponse (resp_api_version r) (resp_request_id r) (resp_session_id r) (resp_revision r)
    (resp_state r) result (resp_semantics r) (resp_warnings r) (resp_truncated r)
    (resp_continuation r) (resp_artifacts r) (resp_evidence r) (resp_error r).

Definition add_warnings (w : list Warning) (r : ApiResponse) : ApiResponse :=
  MkApiResponse (resp_api_version r) (resp_request_id r) (resp_session_id r) (resp_revision r)
    (resp_state r) (resp_result r) (resp_semantics r) (resp_warnings r ++ w) (resp_truncated r)
    (resp_continuation r) (resp_artifacts r) (resp_evidence r) (resp_error r).

Definition set_error_details (details : Value) (r : ApiResponse) : ApiResponse :=
  MkApiResponse (resp_api_version r) (resp_request_id r) (resp_session_id r) (resp_revision r)
    (resp_state r) (resp_result r) (resp_semantics r) (resp_warnings r) (resp_truncated r)
    (resp_continuation r) (resp_artifacts r) (resp_evidence r)
    ((fun e => MkApiError (api_code e) (api_message e) (api_retryable e) (Some details))
       <$> resp_error r).

Definition remove_repeated_state (response : ApiResponse) : ApiResponse :=
  match resp_state response, resp_result response with
  | Some state, Some (Object fields) =>
      if decide (assoc "state" fields = Some (state_value state))
      then set_result (Some (Object (remove_field "state" fields))) response
      else response
  | _, _ => response
  end.

(** What remains of a response that does not fit inline. *)
Definition spilled_response (uri : string) (size : N) (r : ApiResponse) : ApiResponse :=
  let '(result, error) :=
    match resp_error r with
    | Some _ =>
        (None, Some (MkApiError Code.OutputLimit "error response exceeded inline limit" false
                       (Some (Object [("artifact", Str uri); ("size", uint size)]))))
    | None =>
        (Some (Object [("artifact", Str uri); ("size", uint size);
                       ("message", Str "response exceeded inline limit")]), None)
    end in
  MkApiResponse (resp_api_version r) (resp_request_id r) (resp_session_id r) (resp_revision r)
    None result (resp_semantics r) [] true None [uri] [] error.

Definition unspilled_response (r : ApiResponse) : ApiResponse :=
  MkApiResponse (resp_api_version r) (resp_request_id r) (resp_session_id r) (resp_revision r)
    None None (resp_semantics r) [] true None [] []
    (Some (MkApiError Code.OutputLimit
             "response exceeded inline limit and artifact creation failed" false None)).

Section bounding.
Context {S : Type} (to_string : Value -> string) (config : Config).

Definition response_session (request : ApiRequest) (response : ApiResponse) : option SessionId :=
  id ← or_else (resp_session_id response) (req_session_id request);
  match SessionId_parse id with Ok id => Some id | Err _ => None end.

Definition bound_response (request : ApiRequest) (response : ApiResponse)
    : method S ApiResponse :=
  let response := remove_repeated_state response in
  let serialized := to_string (response_value response) in
  let size := lenN (bytes_of serialized) in
  if (size <=? tool_response_bytes (limits config))%N then mret response
  else
    uri ← do (Op.PutArtifact (response_session request response) serialized "protocol-response");
    match uri with
    | Ok uri => mret (spilled_response uri size response)
    | Err _ => mret (unspilled_response response)
    end.

Definition MAX_AGENT_INLINE_RESPONSE_BYTES : N := 64 * 1024.

Definition spill_response (session_id : option string) (response : Value)
    : method S (option Value) :=
  let serialized := to_string response in
  let size := lenN (bytes_of serialized) in
  if (size <=? N.min (tool_response_bytes (limits config)) MAX_AGENT_INLINE_RESPONSE_BYTES)%N
  then mret None
  else
    session ← (match session_id with
               | Some id => id ← check (SessionId_parse id); mret (Some id)
               | None => mret None
               end);
    uri ← ask (do (Op.PutArtifact session serialized "protocol-response"));
    mret (Some (Object [("artifact", Str uri); ("size", uint size)])).
End bounding.
