(* ===== verification/Sessions.v ===== *)
(** * Sessions: the session table and the control of a session
    ([crates/gdb-ai-core/src/gateway.rs], [gateway/operations/lifecycle.rs])

    Creation, listing, closing and retirement of sessions, the write lease and
    the handoff of control, evidence reads.  The message of a
    [serde_json::Error] is a parameter. *)

From S2P Require Import Prelude Text Json Errors Domain Normalize Policy Protocol Access Effects Program Actor Wire Results Config Gateway.
Import Method.

(** The wire name of a profile and its inverse. *)
Definition ALL_PROFILES : list Profile := [OfflineCore; LiveObserver; DebugControl; LabMutation; RawAdmin].
Definition profile_wire (p : Profile) : string := snake_case (profile_debug p).
Definition profile_of (s : string) : option Profile :=
  List.find (fun p => bool_decide (profile_wire p = s)) ALL_PROFILES.

Section sessions.
Context {S : Type} (config : Config) (json_error : Value -> string).

(** ** Retirement *)

Definition retire_state_if_gap (session_id : string) (e : SessionEntry) : method S unit :=
  state ← do (Op.State e);
  if has_sqlite_evidence_gap state then do (Op.RetireState session_id state) else mret tt.

(** The controller goes, with its durable lease; the text of a failure. *)
Definition drop_controller (e : SessionEntry) : method S (option string) :=
  scoped true (do (Op.Lock (LController (se_ref e)) Exclusive))
    (do (Op.Unlock (LController (se_ref e)) Exclusive))
    (controller ← do (Op.GetController e);
     _ ← do (Op.SetController e None);
     match controller with
     | Some (CLease _) =>
         answer ← do (Op.DeleteLease (se_id e));
         mret (match answer with Ok _ => None | Err err => Some (error_display err) end)
     | _ => mret None
     end).

Definition retire_session (session_id : string) (e : SessionEntry) : method S (option string) :=
  _ ← retire_state_if_gap session_id e;
  lease_warning ← drop_controller e;
  '(retired, live) ← do (Op.RemoveSession session_id e);
  _ ← perform_when retired (do (Op.TakeSlot e));
  _ ← do (Op.MaintainStorage live);
  mret lease_warning.

Definition is_retirable (e : SessionEntry) : method S bool :=
  finished ← do (Op.IsFinished e);
  if finished : bool then
    state ← do (Op.State e);
    mret (negb (has_sqlite_evidence_gap state))
  else mret false.

Fixpoint finished_among (entries : list SessionEntry) : method S (list SessionEntry) :=
  match entries with
  | [] => mret []
  | e :: rest =>
      b ← is_retirable e;
      rest ← finished_among rest;
      mret (if b : bool then e :: rest else rest)
  end.

Fixpoint retire_all (entries : list SessionEntry) : method S unit :=
  match entries with
  | [] => mret tt
  | e :: rest => _ ← retire_session (se_id e) e; retire_all rest
  end.

Definition retire_finished_sessions : method S unit :=
  entries ← do Op.SessionEntries;
  finished ← finished_among entries;
  retire_all finished.

(** ** Creation *)

Definition create_profile (request : ApiRequest) (caller : Caller) : Result Error Profile :=
  requested ←
    match req_parameters request with
    | Object fields =>
        match assoc "profile" fields with
        | None | Some Null => Ok None
        | Some v =>
            match Json.as_str v ≫= profile_of with
            | Some p => Ok (Some p)
            | None => Err (Error_new Code.InvalidArgument (json_error v))
            end
        end
    | v => Err (Error_new Code.InvalidArgument (json_error v))
    end;
  let profile :=
    default (if caller_admin caller then RawAdmin else default_profile (security config)) requested in
  if negb (bool_decide (profile = default_profile (security config))) && negb (caller_admin caller)
  then Err (Error_new Code.PolicyDenied
              "selecting a non-default profile requires an administrative caller")
  else Ok profile.

Definition acquire_slot : method S unit :=
  slot ← do Op.TryAcquireSlot;
  if slot : bool then mret tt
  else
    _ ← retire_finished_sessions;
    slot ← do Op.TryAcquireSlot;
    if slot : bool then mret tt
    else check (Err (Error_new Code.Conflict
      "maximum sessions reached; list and close or force_abort an unused session before retrying")).

(** A failure drops the slot that no entry owns yet. *)
Definition or_drop_slot {A} (r : Result Error A) : method S A :=
  match r with
  | Ok a => mret a
  | Err e => _ ← do Op.DropSlot; check (Err e)
  end.

Definition creation_lease (id : SessionId) (caller : Caller) (mode : RequestMode)
    : method S (option WriteLease) :=
  match mode with
  | Canonical =>
      lease_id ← do Op.NewLeaseId;
      now ← do Op.NowMs;
      mret (Some (MkWriteLease lease_id id (caller_identity caller)
                    (u64_saturating_add now (N.max (write_lease_ms (server config)) 1)) 1))
  | Agent => mret None
  end.

(** The owner and the lease of a new session, in the store. *)
Definition store_ownership (id : SessionId) (caller : Caller) (lease : option WriteLease)
    : method S (Result Error unit) :=
  owner ← do (Op.SetSessionOwner id (caller_identity caller));
  match owner, lease with
  | Ok _, Some lease => do (Op.UpsertLease lease)
  | r, _ => mret r
  end.

Definition created_value (id : SessionId) (caller : Caller) (profile : Profile)
    (state : SessionState) (capabilities : Results.SessionCapabilities) (lease : option WriteLease)
    : Value :=
  Object ([("session_id", Str id); ("caller_identity", Str (caller_identity caller));
           ("controller", Str (caller_identity caller));
           ("resource", Str ("gdbai://session/" +:+ id +:+ "/status"));
           ("state", state_value state); ("backend", sc_backend capabilities);
           ("profile", Str (profile_wire profile));
           ("capabilities", capabilities_value capabilities)] ++
          skipped "write_lease" lease_value lease).

Definition session_create (request : ApiRequest) (caller : Caller) (mode : RequestMode)
    : method S (SessionEntry * Value) :=
  scoped true (do (Op.Lock LCreation Shared)) (do (Op.Unlock LCreation Shared))
    (shutting_down ← do Op.ShuttingDown;
     if shutting_down : bool
     then check (Err (Error_new Code.InvalidState "gateway is shutting down"))
     else
       _ ← ask (do Op.RequireActive);
       profile ← check (create_profile request caller);
       _ ← acquire_slot;
       id ← (r ← do (Op.StartSession profile); or_drop_slot r);
       lease ← creation_lease id caller mode;
       stored ← store_ownership id caller lease;
       match stored with
       | Err error =>
           _ ← do (Op.CloseStarted id);
           or_drop_slot (Err error)
       | Ok _ =>
           let controller := match lease with
                             | Some lease => CLease lease
                             | None => CAgent (caller_identity caller)
                             end in
           e ← do (Op.NewEntry id (caller_identity caller) profile controller);
           _ ← do (Op.InsertSession e);
           recorded ← do (Op.RecordApi e (request_value request));
           match recorded with
           | Err error =>
               _ ← do (Op.CloseSession e);
               _ ← retire_session id e;
               check (Err error)
           | Ok _ =>
               state ← do (Op.State e);
               capabilities ← do (Op.Capabilities e);
               mret (e, created_value id caller profile state capabilities lease)
           end
       end).

(** ** Control *)

(** [entry.controller.lock().await], up to the drop of the guard. *)
Definition with_controller {A} (e : SessionEntry) (body : option Controller -> method S A)
    : method S A :=
  scoped true (do (Op.Lock (LController (se_ref e)) Exclusive))
    (do (Op.Unlock (LController (se_ref e)) Exclusive))
    (controller ← do (Op.GetController e); body controller).

Definition held_by_other (caller : Caller) (now : N) (controller : option Controller) : bool :=
  match controller with
  | Some (CAgent owner) => negb (bool_decide (owner = caller_identity caller))
  | Some (CLease lease) =>
      negb (lease_is_expired lease now) &&
      negb (bool_decide (lease_owner lease = caller_identity caller))
  | None => false
  end.

Definition session_acquire_write_lease (request : ApiRequest) (caller : Caller) : method S Value :=
  id ← check (required_session request);
  e ← entry id;
  now ← do Op.NowMs;
  lease ← with_controller e (fun current =>
    let force := bool_decide ((Json.get "force" (req_parameters request) ≫= Json.as_bool) =
                              Some true) && caller_admin caller in
    if held_by_other caller now current && negb force
    then check (Err (Error_new Code.Conflict "another caller holds session control"))
    else
      generation ← do (Op.NextLeaseGeneration e);
      lease_id ← do Op.NewLeaseId;
      let lease := MkWriteLease lease_id (se_id e) (caller_identity caller)
                     (u64_saturating_add now (N.max (write_lease_ms (server config)) 1))
                     (u64_wrapping_add generation 1) in
      _ ← ask (do (Op.UpsertLease lease));
      _ ← do (Op.SetController e (Some (CLease lease)));
      mret lease);
  _ ← ask (do (Op.RecordEvent e (Event.ControllerChanged "write_lease_acquired")));
  mret (lease_value lease).

Definition session_release_write_lease (request : ApiRequest) (caller : Caller) : method S Value :=
  id ← check (required_session request);
  e ← entry id;
  released ← with_controller e (fun current =>
    match current with
    | Some (CLease lease) =>
        if negb (bool_decide (lease_owner lease = caller_identity caller)) ||
           match str_parameter "lease_id" (req_parameters request) with
           | Some id => negb (bool_decide (id = lease_id lease))
           | None => false
           end
        then check (Err (Error_new Code.WriteLeaseRequired "write lease changed before release"))
        else
          _ ← ask (do (Op.DeleteLease (se_id e)));
          _ ← do (Op.SetController e None);
          mret (lease_id lease)
    | _ => check (Err (Error_new Code.NotFound "write lease not found"))
    end);
  _ ← ask (do (Op.RecordEvent e (Event.ControllerChanged "write_lease_released")));
  mret (Object [("released", Str released)]).

(** [request::string]. *)
Definition string_field (value : Value) (name : string) : Result Error string :=
  ok_or (s ← (Json.get name value ≫= Json.as_str); if decide (s = "") then None else Some s)
    (Error_new Code.InvalidArgument (name +:+ " is required")).

(** The controller the caller hands over. *)
Definition holds_for_handoff (request : ApiRequest) (caller : Caller)
    (controller : option Controller) : bool :=
  match controller with
  | Some (CAgent owner) => bool_decide (owner = caller_identity caller)
  | Some (CLease lease) =>
      bool_decide (lease_owner lease = caller_identity caller) &&
      bool_decide (str_parameter "lease_id" (req_parameters request) = Some (lease_id lease))
  | None => false
  end.

Definition session_handoff (request : ApiRequest) (caller : Caller) : method S Value :=
  id ← check (required_session request);
  e ← entry id;
  to ← check (string_field (req_parameters request) "to");
  if bool_decide (to = "") || (256 <? lenN (bytes_of to))%N then
    check (Err (Error_new Code.InvalidArgument "handoff identity must contain 1 to 256 bytes"))
  else if negb (same_principal (se_owner e) (caller_identity caller)) ||
          negb (same_principal to (caller_identity caller)) then
    check (Err (Error_new Code.PolicyDenied
                  "controller handoff must remain within the session owner principal"))
  else
    generation ← with_controller e (fun current =>
      if holds_for_handoff request caller current then
        _ ← match current with
            | Some (CLease _) => ask (do (Op.DeleteLease (se_id e)))
            | _ => mret tt
            end;
        _ ← do (Op.SetController e (Some (CAgent to)));
        generation ← do (Op.NextLeaseGeneration e);
        mret (u64_wrapping_add generation 1)
      else check (Err (Error_new Code.WriteLeaseRequired
                         "caller no longer holds the session controller")));
    recorded ← do (Op.RecordEvent e (Event.ControllerChanged "controller_handoff"));
    mret (Object ([("controller", Str to); ("generation", uint generation)] ++
      match recorded with
      | Ok _ => []
      | Err error =>
          [("warnings", Array [Object [("code", Str "CONTROLLER_EVENT_NOT_RECORDED");
                                       ("message", Str (error_display error))]])]
      end)).

Definition session_attempt_recovery (request : ApiRequest) : method S Value :=
  id ← check (required_session request);
  e ← entry id;
  ask (do (Op.Reconcile e)).

(** ** Reading sessions *)

Definition is_final (state : SessionState) : bool :=
  match lifecycle state with Lifecycle.Closed | Lifecycle.Failed => true | _ => false end.

Definition retained_session_state (id : SessionId) : method S (option SessionState) :=
  stored ← ask (do (Op.GetSession id));
  retired ← do (Op.RetiredState id);
  mret (state ← stored;
        let state := default state retired in
        if is_final state then Some state else None).

Definition controller_identity (controller : Controller) : string :=
  match controller with CAgent identity => identity | CLease lease => lease_owner lease end.

Definition set_fields (new : list (string * Value)) (v : Value) : Value :=
  match v with Object fields => Object (foldr (fun kv => set_field kv.1 kv.2) fields new) | _ => v end.

Definition session_get (request : ApiRequest) (caller : Caller) : method S Value :=
  id ← check (required_session request);
  session_id ← check (SessionId_parse id);
  found ← attempt (entry session_id);
  match found with
  | Ok e =>
      controller ← with_controller e (fun controller => mret (controller_identity <$> controller));
      state ← do (Op.State e);
      mret (set_fields [("caller_identity", Str (caller_identity caller));
                        ("controller", nullable Str controller)] (state_value state))
  | Err _ =>
      state ← retained_session_state session_id;
      state ← check (ok_or state (Error_new Code.NotFound "session not found"));
      mret (set_fields [("caller_identity", Str (caller_identity caller)); ("controller", Null)]
              (state_value state))
  end.

Definition owned_by (caller : Caller) (owner : option string) : bool :=
  caller_admin caller ||
  match owner with Some owner => same_principal owner (caller_identity caller) | None => false end.

Fixpoint states_of (entries : list SessionEntry) (m : gmap string SessionState)
    : method S (gmap string SessionState) :=
  match entries with
  | [] => mret m
  | e :: rest =>
      state ← do (Op.State e);
      states_of rest (<[session_id state := state]> m)
  end.

(** A retained final state replaces the stored one. *)
Fixpoint with_retired (stored : list (string * SessionState)) : method S (gmap string SessionState) :=
  match stored with
  | [] => mret ∅
  | (id, state) :: rest =>
      m ← with_retired rest;
      retired ← do (Op.RetiredState id);
      let state := default state retired in
      mret (if is_final state then <[id := state]> m else m)
  end.

Definition session_list (caller : Caller) : method S Value :=
  entries ← do Op.SessionEntries;
  let entries := filter (fun e => owned_by caller (Some (se_owner e)) = true) entries in
  stored ← ask (do Op.ListSessionOwners);
  let mine := filter (fun so => owned_by caller so.2 = true) stored in
  m ← with_retired (map_to_list
        (list_to_map (reverse ((fun so => (session_id so.1, so.1)) <$> mine))
           : gmap string SessionState));
  m ← states_of entries m;
  mret (Array (state_value <$> btree_values m)).

(** ** Closing *)

Definition finish_session (request : ApiRequest) (forced : bool) : method S Value :=
  id ← check (required_session request);
  e ← entry id;
  closed ← do (Op.CloseSession e);
  close_error ←
    match closed with
    | Ok _ => mret None
    | Err error =>
        state ← do (Op.State e);
        if negb forced && negb (bool_decide (lifecycle state = Lifecycle.Failed))
        then check (Err error)
        else mret (Some (error_display error))
    end;
  state ← do (Op.State e);
  output_evidence ← do (Op.OutputEvidence e);
  lease_warning ← retire_session id e;
  mret (Object [
    ("closed", Bool true);
    ("clean_shutdown", Bool (negb forced && bool_decide (close_error = None)));
    ("termination_warning", nullable Str close_error);
    ("warnings", Array match lease_warning with
                       | Some message =>
                           [Object [("code", Str "LEASE_CLEANUP_FAILED"); ("message", Str message)]]
                       | None => []
                       end);
    ("state", state_value state);
    ("inferior_output_evidence", output_evidence)]).

Definition session_close (request : ApiRequest) : method S Value := finish_session request false.
Definition session_force_abort (request : ApiRequest) : method S Value := finish_session request true.

Fixpoint close_all (entries : list SessionEntry) : method S unit :=
  match entries with
  | [] => mret tt
  | e :: rest => _ ← do (Op.CloseSession e); close_all rest
  end.

Definition shutdown : method S unit :=
  _ ← do Op.SetShuttingDown;
  scoped true (do (Op.Lock LCreation Exclusive)) (do (Op.Unlock LCreation Exclusive))
    (sessions ← do Op.TakeSessions; close_all sessions).

(** ** Transcripts *)

(** The journal a live actor flushes first, or the retained one. *)
Definition session_journal (id : SessionId) : method S unit :=
  found ← attempt (entry id);
  match found with
  | Ok e => ask (do (Op.FlushJournal e))
  | Err error =>
      stored ← ask (do (Op.GetSession id));
      match stored with Some _ => mret tt | None => check (Err error) end
  end.

Definition TRANSCRIPT_BYTES : N := 64 * 1024.

Definition session_transcript (encode_content : bytes -> list (string * Value))
    (request : ApiRequest) : method S Value :=
  id ← check (required_session request);
  session_id ← check (SessionId_parse id);
  _ ← session_journal session_id;
  let offset := default 0%N (Json.get "offset" (req_parameters request) ≫= Json.as_u64) in
  let max_bytes :=
    N.min (N.max (default TRANSCRIPT_BYTES
                    (Json.get "max_bytes" (req_parameters request) ≫= Json.as_u64)) 1)
      TRANSCRIPT_BYTES in
  '(offset, content, length) ← ask (do (Op.ReadTranscript session_id offset max_bytes));
  let next := (offset + lenN content)%N in
  let result := [("offset", uint offset); ("next_offset", uint next);
                 ("total_bytes", uint length); ("truncated", Bool (next <? length)%N)] ++
                encode_content content in
  found ← attempt (entry session_id);
  match found with
  | Ok _ => mret (Object result)
  | Err _ =>
      state ← retained_session_state session_id;
      let gaps := match state with
                  | Some state => filter (fun l => evidence_gap "evidence gap: " l = true)
                                    (limitations state)
                  | None => []
                  end in
      mret (Object (match gaps with
                    | [] => result
                    | _ => set_field "warnings"
                             (Array ((fun m => Object [("code", Str "EVIDENCE_GAP"); ("message", Str m)])
                                       <$> gaps)) result
                    end))
  end.

End sessions.
