(* ===== verification/Dispatch.v ===== *)
(** * Dispatch: the path of a request through the gateway
    ([crates/gdb-ai-core/src/gateway.rs])

    [dispatch_inner] with its idempotency lock and cache, [dispatch_checked]
    with validation, rate, ownership, policy, guards, fences, journal and
    audit, and the shared read in front of a handler.  The handler itself is
    the operation [Execute]; JSON printing and SHA-256 are parameters. *)

From S2P Require Import Prelude Text Json Errors Domain Journal Policy Protocol Access MemoryRange Effects Program Actor Wire Results Config Gateway Sessions.
Import Method.

(** What [dispatch_checked] changes behind the references it is given. *)
Record Dispatching := MkDispatching {
  d_request : ApiRequest;
  d_created : option (SessionEntry * Value)
}.

#[export] Instance Dispatching_updatable : Updatable Dispatching := fun d =>
  MkDispatching (d_request d) (d_created d).

Definition dispatching (A : Type) : Type := method Dispatching A.

Definition request_now : dispatching ApiRequest := local (gets d_request).
Definition set_request (r : ApiRequest) : dispatching unit :=
  local (modify (fun d => d <| d_request := r |>)).

Section dispatch.
Context (config : Config) (json_error : Value -> string) (to_string : Value -> string)
  (sha256 : string -> string).

Definition execute_method {S} (request : ApiRequest) (caller : Caller) (mode : RequestMode)
    : method S OperationResult := ask (do (Op.Execute request caller mode)).

Definition is_durable : bool := bool_decide (journal_durability config = Durable).

Definition audit {S} (caller : string) (session : option SessionId) (m : CanonicalMethod)
    (effect : Effect) (allowed : bool) (revision : option N) (request : Value) (outcome : string)
    : method S unit :=
  if is_durable
  then ask (do (Op.Audit (MkAuditRecord caller session m effect allowed revision request outcome)))
  else mret tt.

Definition entry_revision {S} (e : option SessionEntry) : method S (option N) :=
  match e with
  | Some e => state ← do (Op.State e); mret (Some (revision state))
  | None => mret None
  end.

(** ** Admission *)

Definition check_ownership {S} (request : ApiRequest) (caller : Caller) (effect : Effect)
    (e : option SessionEntry) : method S unit :=
  match req_session_id request with
  | None => mret tt
  | Some id =>
      session_id ← check (SessionId_parse id);
      owner ← match e with
              | Some e => mret (Some (se_owner e))
              | None => ask (do (Op.SessionOwner session_id))
              end;
      known ← match e with
              | Some _ => mret true
              | None => stored ← ask (do (Op.GetSession session_id));
                        mret (bool_decide (is_Some stored))
              end;
      if known && negb (caller_admin caller) &&
         negb match owner with
              | Some owner => same_principal owner (caller_identity caller)
              | None => false
              end
      then
        rev ← entry_revision e;
        _ ← audit (caller_identity caller) (Some session_id) (req_method request) effect false rev
              (request_value request) "denied";
        check (Err (Error_new Code.PolicyDenied "session belongs to another principal"))
      else mret tt
  end.

Definition request_profile (request : ApiRequest) (caller : Caller) (e : option SessionEntry)
    : Profile :=
  match e with
  | Some e => se_profile e
  | None =>
      if bool_decide (req_method request = TargetLaunch) &&
         bool_decide (req_session_id request = None) && caller_admin caller
      then RawAdmin else default_profile (security config)
  end.

Definition is_memory_observation (m : CanonicalMethod) : bool :=
  match m with MemoryRead | MemorySearch | MemoryCompare => true | _ => false end.

Definition mutates_memory (p : Profile) : bool :=
  match p with LabMutation | RawAdmin => true | _ => false end.

(** [classify_memory_range]: the mappings are read when the range needs them. *)
Definition range_effect {S} (request : ApiRequest) (state : SessionState)
    : method S MemoryRangeEffect :=
  let pid := find_map inf_pid (btree_values (inferiors state)) in
  let field := if decide (req_method request = MemorySearch) then "start" else "address" in
  let classify maps :=
    classify_memory_range (fun _ => maps) (target_origin state) pid (req_parameters request) field in
  let local := match target_origin state with Origin.Local | Origin.Attach => true | _ => false end in
  match classify None, pid with
  | Ok _, Some pid =>
      if local then maps ← do (Op.ReadMaps pid); check (classify maps) else check (classify None)
  | _, _ => check (classify None)
  end.

(** The effect after the classification of an observation profile's memory range. *)
Definition classified_effect {S} (request : ApiRequest) (profile : Profile) (effect : Effect)
    (e : option SessionEntry) : method S Effect :=
  match e with
  | Some e =>
      if is_memory_observation (req_method request) && negb (mutates_memory profile) then
        state ← do (Op.State e);
        range ← range_effect request state;
        mret (if decide (range = Ordinary) then effect else VolatileTargetRead)
      else mret effect
  | None => mret effect
  end.

Definition authorization (request : ApiRequest) (caller : Caller) (profile : Profile)
    (effect : Effect) : Result Error unit :=
  if bool_decide (profile = RawAdmin) && negb (caller_admin caller) then
    Err (Error_new Code.PolicyDenied "raw_admin requires an authenticated administrative caller")
  else authorize_method profile (req_method request) effect.

Definition check_authorization {S} (request : ApiRequest) (caller : Caller) (profile : Profile)
    (effect : Effect) (e : option SessionEntry) : method S unit :=
  match authorization request caller profile effect with
  | Ok _ => mret tt
  | Err error =>
      rev ← entry_revision e;
      _ ← audit (caller_identity caller) (se_id <$> e) (req_method request) effect false rev
            (request_value request) "denied";
      check (Err error)
  end.

(** Everything before the first target command: the entry and the effect. *)
Definition admit_request (caller : Caller) (admitted : bool) (mode : RequestMode)
    : dispatching (option SessionEntry * Effect) :=
  request ← request_now;
  _ ← (if admitted then mret tt else check (validate_request request));
  _ ← match mode with
      | Agent =>
          let request := default_agent_memory_encoding request in
          _ ← set_request request;
          check (check_agent_timeout (command_timeout_ms (server config)) request)
      | Canonical => mret tt
      end;
  _ ← ask (do (Op.CheckRate (caller_identity caller)));
  request ← request_now;
  let effect := effect_for_request request in
  e ← entry_for_request request;
  _ ← check_ownership request caller effect e;
  let profile := request_profile request caller e in
  effect ← classified_effect request profile effect e;
  _ ← check_authorization request caller profile effect e;
  mret (e, effect).

(** ** The session of a launch without one *)

Definition creation_request (request : ApiRequest) : ApiRequest :=
  MkApiRequest (req_api_version request) (req_request_id request) None SessionCreate None None
    (Object []).

Definition created_field (field : string) : bool :=
  bool_decide (field ∈ ["session_id"; "profile"; "caller_identity"; "controller"; "write_lease"]).

Definition retain_created (created : Value) : option Value :=
  match created with
  | Object fields => Some (Object (filter (fun kv => created_field kv.1 = true) fields))
  | _ => None
  end.

Definition index (key : string) (v : Value) : Value := default Null (Json.get key v).

Definition target_created (request : ApiRequest) (e : SessionEntry) (created : Value)
    (mode : RequestMode) : option ApiRequest :=
  let request := MkApiRequest (req_api_version request) (req_request_id request) (Some (se_id e))
                   (req_method request) (req_expected_revision request)
                   (req_idempotency_key request) (req_parameters request) in
  match mode with
  | Canonical =>
      parameters ← set_index "lease_id" (index "lease_id" (index "write_lease" created))
                     (req_parameters request);
      Some (MkApiRequest (req_api_version request) (req_request_id request)
              (req_session_id request) (req_method request)
              (Json.as_u64 (index "revision" (index "state" created)))
              (req_idempotency_key request) parameters)
  | Agent => Some request
  end.

Definition with_session (caller : Caller) (mode : RequestMode) (e : option SessionEntry)
    : dispatching (option SessionEntry) :=
  request ← request_now;
  if bool_decide (req_method request = TargetLaunch) &&
     bool_decide (req_session_id request = None)
  then
    '(e, created) ← session_create config json_error (creation_request request) caller mode;
    request ← local (unwrap (target_created request e created mode));
    _ ← set_request request;
    created ← local (unwrap (retain_created created));
    _ ← local (modify (fun d => d <| d_created := Some (e, created) |>));
    bound ← do (Op.BindOperation e caller);
    match bound with
    | Ok _ => mret (Some e)
    | Err error =>
        _ ← do (Op.CloseSession e);
        _ ← retire_session (se_id e) e;
        check (Err error)
    end
  else mret e.

(** ** Guards *)

(** A shared guard for observations, upgraded when the cached state must be
    refreshed; an exclusive one for mutations; a mutex for out-of-band ones. *)
Definition guarded {S A} (request : ApiRequest) (effect : Effect) (e : option SessionEntry)
    (body : method S A) : method S A :=
  match e with
  | None => body
  | Some e =>
      let target := LTarget (se_ref e) in
      let oob := is_out_of_band request in
      let reads := bool_decide (effect = Read) in
      if reads && requires_structured_state request effect then
        _ ← do (Op.Lock target Shared);
        state ← do (Op.State e);
        if reconciliation_required state then
          _ ← do (Op.Unlock target Shared);
          scoped true (do (Op.Lock target Exclusive)) (do (Op.Unlock target Exclusive)) body
        else
          r ← attempt body;
          _ ← do (Op.Unlock target Shared);
          check r
      else if negb reads && negb oob then
        scoped true (do (Op.Lock target Exclusive)) (do (Op.Unlock target Exclusive)) body
      else
        scoped (negb reads && oob) (do (Op.Lock (LOutOfBand (se_ref e)) Exclusive))
          (do (Op.Unlock (LOutOfBand (se_ref e)) Exclusive)) body
  end.

(** ** Fences *)

Definition unknown_outcome (tokens : gset N) : Error :=
  Error_new Code.GdbUnresponsive
    ("MI command outcome is unknown for token(s) {" +:+
     String.concat ", " (dec <$> btree_set_iter tokens) +:+
     "}; interrupt or close the session").

(** A canonical lease is renewed from its half-life on. *)
Definition renewal_due (mode : RequestMode) (now : N) (controller : option Controller) : bool :=
  match controller with
  | Some (CLease lease) =>
      bool_decide (mode = Canonical) &&
      (lease_expires_at_unix_ms lease - now <=? N.max (write_lease_ms (server config)) 1 / 2)%N
  | _ => false
  end.

(** The mutation preconditions, under the controller's lock. *)
Definition preconditions {S} (request : ApiRequest) (caller : Caller) (e : SessionEntry)
    (revision : N) (mode : RequestMode) : method S unit :=
  if match req_method request with
     | SessionForceAbort | SessionAttemptRecovery => true
     | _ => false
     end
  then mret tt
  else
    _ ← check (require_expected_revision request revision mode);
    if decide (req_method request = SessionAcquireWriteLease) then mret tt
    else
      with_controller e (fun controller =>
        now ← do Op.NowMs;
        let '(renewed, answer) := require_controller request caller mode now
          (write_lease_ms (server config)) (fun _ => Ok tt) controller in
        match answer with
        | Err error => check (Err error)
        | Ok _ =>
            if negb (renewal_due mode now controller) then mret tt
            else
              _ ← do (Op.SetController e renewed);
              match renewed with
              | Some (CLease lease) => ask (do (Op.UpsertLease lease))
              | _ => mret tt
              end
        end).

Definition fences {S} (request : ApiRequest) (caller : Caller) (mode : RequestMode)
    (effect : Effect) (e : SessionEntry) : method S unit :=
  state ← do (Op.State e);
  _ ← (if negb (bool_decide (outcome_unknown_tokens state = ∅)) &&
          negb (request_allowed_during_unknown_outcome request)
       then check (Err (unknown_outcome (outcome_unknown_tokens state)))
       else mret tt);
  _ ← (if bool_decide (effect = Read) then mret tt
       else
         met ← attempt (preconditions request caller e (revision state) mode);
         match met with
         | Ok _ => mret tt
         | Err error =>
             _ ← audit (caller_identity caller) (Some (se_id e)) (req_method request) effect false
                   (Some (revision state)) (request_value request) "rejected";
             check (Err error)
         end);
  consistency ←
    (if reconciliation_required state && requires_structured_state request effect then
       _ ← ask (do (Op.Reconcile e));
       state ← do (Op.State e);
       mret (consistency state)
     else mret (consistency state));
  if bool_decide (consistency = Consistent.Lost) &&
     negb (request_allowed_with_lost_consistency (req_method request))
  then check (Err (Error_new Code.ConsistencyLost
    "session consistency is lost; only status, evidence, recovery, or close is allowed"))
  else mret tt.

(** ** The shared read *)

Definition shared_key (request : ApiRequest) : string :=
  Method.as_str (req_method request) +:+ ":" +:+ to_string (req_parameters request).

(** Facts that do not cover what was asked for are not reused. *)
Definition is_partial (r : OperationResult) : bool :=
  bool_decide (Json.get "partial" (result_facts r) = Some (Bool true)) ||
  bool_decide (Json.get "complete" (result_facts r) = Some (Bool false)) ||
  match r with Semantic result => negb (sem_complete (semantics (metadata result))) | Legacy _ => false end.

Definition MAX_SHARED_READS : nat := 16.

Definition current_reads (f : N * N) (s : SharedReads) : SharedReads :=
  if decide (fence s = Some f) then s else SharedReads_default.

(** What the cache holds after a completed read. *)
Definition remember_read (maximum : N) (f : N * N) (key : string) (size : N)
    (result : OperationResult) (s : SharedReads) : SharedReads :=
  if (size <=? maximum)%N then
    let s :=
      if negb (bool_decide (fence s = Some f)) || (MAX_SHARED_READS <=? base.size (results s))%nat ||
         (maximum <? u64_saturating_add (shared_bytes s) size)%N
      then SharedReads_default else s in
    MkSharedReads (Some f) (<[key := result]> (results s)) (shared_bytes s + size)
  else s.

Definition same_context (stop : option StopId) (epoch : N) (state : SessionState) : bool :=
  bool_decide (stop_id state = stop) && (execution_epoch state =? epoch)%N.

Definition shared_read {S} (request : ApiRequest) (caller : Caller) (mode : RequestMode)
    (e : SessionEntry) : method S OperationResult :=
  _ ← ask (do Op.RequireActive);
  state ← do (Op.State e);
  generation ← do (Op.MutationGeneration e);
  shared ← do (Op.GetShared e);
  let shared := current_reads (revision state, generation) shared in
  _ ← do (Op.SetShared e shared);
  let key := shared_key request in
  match results shared !! key with
  | Some result => mret result
  | None =>
      result ← execute_method request caller mode;
      _ ← ask (do Op.RequireActive);
      current ← do (Op.State e);
      if negb (same_context (stop_id state) (execution_epoch state) current)
      then check (Err (Error_new Code.StaleContext "target stop changed during shared read"))
      else if is_partial result then mret result
      else
        let size := u64_saturating_add (lenN (bytes_of (to_string (result_facts result))))
                      (lenN (bytes_of key)) in
        _ ← do (Op.SetShared e (remember_read (tool_response_bytes (limits config))
                                  (revision current, generation) key size result shared));
        mret result
  end.

Definition execute_shared_read {S} (request : ApiRequest) (caller : Caller) (mode : RequestMode)
    (e : option SessionEntry) : method S OperationResult :=
  match e with
  | Some e =>
      stopped ← (if shareable_read request then
                   state ← do (Op.State e); mret (bool_decide (is_Some (stop_id state)))
                 else mret false);
      if stopped : bool then
        acquired ← do (Op.LockWithin (LShared (se_ref e)));
        if acquired : bool then
          r ← attempt (shared_read request caller mode e);
          _ ← do (Op.Unlock (LShared (se_ref e)) Exclusive);
          check r
        else check (Err (retryable (Error_new Code.Timeout "shared read admission timed out")))
      else execute_method request caller mode
  | None => execute_method request caller mode
  end.

(** ** Execution of an admitted request *)

Definition api_evidence (request : ApiRequest) (e : option SessionEntry) : bool :=
  bool_decide (is_Some e) && negb (reads_retained_observations (req_method request)).

(** The journal record, then the durable admission record. *)
Definition record_admission {S} (request : ApiRequest) (caller : Caller) (effect : Effect)
    (durable_audit : bool) (e : option SessionEntry) : method S unit :=
  _ ← match e with
      | Some e' =>
          if api_evidence request e then ask (do (Op.RecordApi e' (request_value request)))
          else mret tt
      | None => mret tt
      end;
  if durable_audit then
    rev ← entry_revision e;
    audit (caller_identity caller) (se_id <$> e) (req_method request) effect true rev
      (request_value request) "accepted"
  else mret tt.

Definition observes_stable (request : ApiRequest) (effect : Effect) : bool :=
  bool_decide (effect = Read) && requires_stable_target request &&
  negb (is_out_of_band request) && negb (bool_decide (req_method request = ExecutionWait)).

Definition baseline_of {S} (request : ApiRequest) (effect : Effect) (e : option SessionEntry)
    : method S (option (option StopId * N)) :=
  match e with
  | Some e =>
      if observes_stable request effect then
        state ← do (Op.State e); mret (Some (stop_id state, execution_epoch state))
      else mret None
  | None => mret None
  end.

(** An observation whose stop changed under it is not reported as one. *)
Definition confirm_baseline {S} (e : option SessionEntry) (baseline : option (option StopId * N))
    (result : Result Error OperationResult) : method S (Result Error OperationResult) :=
  match result, e, baseline with
  | Ok _, Some e, Some (stop, epoch) =>
      state ← do (Op.State e);
      mret (if same_context stop epoch state then result
            else Err (Error_new Code.StaleContext "target stop changed during observation"))
  | _, _, _ => mret result
  end.

Definition completed_entry {S} (request : ApiRequest) (e : option SessionEntry)
    (result : Result Error OperationResult) : method S (option SessionEntry) :=
  match e, result with
  | Some e, _ => mret (Some e)
  | None, Ok result =>
      if decide (req_method request = SessionCreate) then
        match Json.get "session_id" (result_facts result) ≫= Json.as_str with
        | Some id => do (Op.FindSession id)
        | None => mret None
        end
      else mret None
  | None, Err _ => mret None
  end.

Definition audit_result_value (result : Result Error OperationResult) : option Value :=
  match result with
  | Ok result => v ← detailed_value result; Some (Object [("result", v)])
  | Err error =>
      Some (Object [("error", Object [("code", Str (code_wire (err_code error)));
                                      ("message", Str (err_message error));
                                      ("retryable", Bool (err_retryable error))])])
  end.

Definition completion_warning (code : string) (result : Result Error OperationResult)
    (answer : Result Error unit) : list Warning :=
  match answer with
  | Err error => if is_ok result then [MkWarning code (error_display error)] else []
  | Ok _ => []
  end.

Definition record_completion {S} (request : ApiRequest) (caller : Caller) (effect : Effect)
    (e : SessionEntry) (result : Result Error OperationResult) : method S (list Warning) :=
  state ← do (Op.State e);
  audited ← attempt (audit (caller_identity caller) (Some (se_id e)) (req_method request) effect
                       (is_ok result) (Some (revision state)) (request_value request)
                       (if is_ok result then "completed" else "failed"));
  value ← local (unwrap (audit_result_value result));
  stored ← do (Op.AuditResult (se_id e) (req_method request) value);
  mret (completion_warning "AUDIT_COMPLETION_FAILED" result audited ++
        completion_warning "AUDIT_RESULT_FAILED" result stored).

Definition response_state {S} (request : ApiRequest) (mode : RequestMode)
    (e : option SessionEntry) (result : OperationResult) (warnings : list Warning)
    : method S (option SessionState * OperationResult * list Warning) :=
  match e with
  | None => mret (None, result, warnings)
  | Some e =>
      state ← do (Op.State e);
      if bool_decide (mode = Agent) &&
         (match result with Semantic _ => true | Legacy _ => false end ||
          self_attributed_observation request (result_facts result))
      then
        mret (None,
              match result with
              | Semantic r => Semantic (refresh_state_progress state r)
              | Legacy _ => result
              end,
              warnings ++ gap_warnings state)
      else mret (Some state, result, warnings)
  end.

Definition execute_admitted {S} (request : ApiRequest) (caller : Caller) (mode : RequestMode)
    (effect : Effect) (e : option SessionEntry)
    : method S (option SessionState * OperationResult * list Warning) :=
  let durable_audit := negb (bool_decide (effect = Read)) && is_durable in
  baseline ← baseline_of request effect e;
  _ ← match e with Some e => fences request caller mode effect e | None => mret tt end;
  _ ← match e with
      | Some e => perform_when (negb (bool_decide (effect = Read))) (do (Op.BumpMutation e))
      | None => mret tt
      end;
  _ ← record_admission request caller effect durable_audit e;
  result ← attempt (execute_shared_read request caller mode e);
  result ← confirm_baseline e baseline result;
  completed ← completed_entry request e result;
  warnings ← match completed with
             | Some e => if durable_audit then record_completion request caller effect e result
                         else mret []
             | None => mret []
             end;
  result ← check result;
  response_state request mode completed result warnings.

Definition dispatch_checked (caller : Caller) (admitted : bool) (mode : RequestMode)
    : dispatching (option SessionState * OperationResult * list Warning) :=
  '(e, effect) ← admit_request caller admitted mode;
  e ← with_session caller mode e;
  request ← request_now;
  guarded request effect e (execute_admitted request caller mode effect e).

(** ** Idempotent requests *)

Definition idempotency_fingerprint (request : ApiRequest) : string :=
  sha256 (to_string (Object [
    ("api_version", Str (req_api_version request)); ("request_id", Str "");
    ("session_id", nullable Str (req_session_id request));
    ("method", Str (Method.as_str (req_method request)));
    ("expected_revision", nullable uint (req_expected_revision request));
    ("idempotency_key", Null); ("parameters", req_parameters request)])).

Definition retry_key (request : ApiRequest) (caller : Caller) (mode : RequestMode) : string :=
  let key := idempotency_key request caller in
  match mode with Canonical => key | Agent => "agent:" +:+ key end.

Definition session_state {S} (request : ApiRequest) : method S (option SessionState) :=
  e ← entry_for_request request;
  match e with Some e => state ← do (Op.State e); mret (Some state) | None => mret None end.

(** The retained response of the key, from memory or from the store. *)
Definition cached_response {S} (request : ApiRequest) (key hash : string)
    : method S (option ApiResponse) :=
  memory ← do (Op.CachedResponse key);
  cached ← match memory with
           | Some (stored, response) =>
               mret (if decide (stored = hash) then Ok (Some response)
                     else Err (Error_new Code.Conflict
                       "idempotency key was already used with different parameters"))
           | None => do (Op.StoredResponse key hash)
           end;
  match cached with
  | Ok response => mret response
  | Err error => state ← session_state request; mret (Some (failure request error state))
  end.

Definition object_or_cause (details : option Value) : list (string * Value) :=
  match details with
  | Some (Object fields) => fields
  | Some cause => [("cause", cause)]
  | None => []
  end.

(** The session a launch created is reported with its outcome. *)
Definition report_created (created : option (SessionEntry * Value)) (response : ApiResponse)
    : option ApiResponse :=
  match created with
  | None => Some response
  | Some (_, session) =>
      match resp_error response, resp_result response with
      | Some error, _ =>
          Some (set_error_details
                  (Object (set_field "session" session (object_or_cause (api_details error))))
                  response)
      | None, Some result =>
          result ← set_index "session" session result;
          Some (set_result (Some result) response)
      | None, None => Some response
      end
  end.

Definition success_response (request : ApiRequest) (mode : RequestMode)
    (outcome : option SessionState * OperationResult * list Warning) : option ApiResponse :=
  let '(state, result, warnings) := outcome in
  response ← match result with
             | Semantic result =>
                 semantic_success request state result (bool_decide (mode = Canonical))
             | Legacy result => Some (success request state result)
             end;
  Some (add_warnings warnings response).

(** The state reported with a failure: that after it, where it can be had. *)
Definition failure_state (initial : option SessionEntry)
    : dispatching (option SessionState) :=
  request ← request_now;
  created ← local (gets d_created);
  e ← entry_for_request request;
  match or_else e (or_else initial (fst <$> created)) with
  | Some e => state ← do (Op.State e); mret (Some state)
  | None => mret None
  end.

(** The request once: no retained response answers it. *)
Definition dispatch_once (caller : Caller) (admitted : bool) (mode : RequestMode)
    : dispatching ApiResponse :=
  request ← request_now;
  initial ← entry_for_request request;
  result ← attempt (dispatch_checked caller admitted mode);
  request ← request_now;
  response ← match result with
             | Ok outcome => local (unwrap (success_response request mode outcome))
             | Err error => state ← failure_state initial; mret (failure request error state)
             end;
  created ← local (gets d_created);
  response ← local (unwrap (report_created created response));
  match mode with
  | Canonical => bound_response to_string config request response
  | Agent => mret response
  end.

Definition remember_response (key hash : string) (response : ApiResponse)
    : dispatching ApiResponse :=
  stored ← do (Op.StoreResponse key hash response);
  let response := match stored with
                  | Err error => add_warnings [MkWarning "IDEMPOTENCY_NOT_DURABLE"
                                                 (error_display error)] response
                  | Ok _ => response
                  end in
  _ ← do (Op.CacheResponse key hash response);
  mret response.

Definition dispatch_inner (caller : Caller) (admitted : bool) (mode : RequestMode)
    : dispatching ApiResponse :=
  request ← request_now;
  match req_idempotency_key request with
  | None => dispatch_once caller admitted mode
  | Some _ =>
      let key := retry_key request caller mode in
      let hash := idempotency_fingerprint request in
      mutex ← do (Op.RetryEntry key);
      _ ← do (Op.Lock (LRetry mutex) Exclusive);
      cached ← cached_response request key hash;
      response ← match cached with
                 | Some response => mret response
                 | None =>
                     response ← dispatch_once caller admitted mode;
                     remember_response key hash response
                 end;
      _ ← do (Op.Unlock (LRetry mutex) Exclusive);
      _ ← do (Op.RetryRelease key mutex);
      _ ← do (Op.RetryDrop mutex);
      mret response
  end.

Definition dispatch (request : ApiRequest) (caller : Caller) (admitted : bool) (mode : RequestMode)
    : prog GatewaySig (Dispatching * outcome Error ApiResponse) :=
  dispatch_inner caller admitted mode (MkDispatching request None).

End dispatch.
