(* ===== verification/DispatchProofs.v ===== *)
(** * DispatchProofs: what holds whenever a handler runs

    Methods that neither run a handler nor touch the locks a handler relies on
    ([Quiet]); then, stage by stage, the facts the trace of a request contains
    when its handler starts. *)
From S2P Require Import Prelude Text Json Errors Domain Journal Policy Protocol Access MemoryRange Effects Program Actor Wire Results Config Gateway Sessions Dispatch.

Import Method.

Definition gev (o : Op.op) (x : Op.answer o) : event GatewaySig := ev (E := GatewaySig) o x.

Lemma wpa_do {S : Type} (ok : trace GatewaySig -> Op.op -> Prop) lax o
    (Q : Result Error (Op.answer o) -> S -> trace GatewaySig -> Prop) s tr :
  ok tr o -> (forall x, Q (Ok x) s (gev o x :: tr)) -> wpa ok lax (do o) Q s tr.
Proof. intros Ho H. split; [done|]. intros x. apply H. Qed.

(** ** Quiet methods *)

Definition quiet_lock (l : lock) : bool :=
  match l with LCreation | LController _ => true | _ => false end.

Definition quiet (o : Op.op) : bool :=
  match o with
  | Op.Execute _ _ _ => false
  | Op.Lock l _ | Op.Unlock l _ | Op.LockWithin l => quiet_lock l
  | Op.RetryEntry _ | Op.RetryRelease _ _ | Op.RetryDrop _ | Op.CachedResponse _
  | Op.CacheResponse _ _ _ | Op.StoredResponse _ _ | Op.StoreResponse _ _ _
  | Op.BumpMutation _ | Op.MutationGeneration _ | Op.GetShared _ | Op.SetShared _ _ => false
  | _ => true
  end.

Definition quiet_event (e : event GatewaySig) : Prop := quiet (projT1 e) = true.

(** A trace continued by quiet events. *)
Inductive grows (tr : list (event GatewaySig)) : list (event GatewaySig) -> Prop :=
| grows_refl : grows tr tr
| grows_cons e tr' : quiet_event e -> grows tr tr' -> grows tr (e :: tr').

Lemma grows_trans tr tr1 tr2 : grows tr tr1 -> grows tr1 tr2 -> grows tr tr2.
Proof. intros H. induction 1; [done|by apply grows_cons]. Qed.

Lemma grows_elem x tr tr' : grows tr tr' -> x ∈ tr -> x ∈ tr'.
Proof. induction 1; [done|]. intros. apply list_elem_of_further. auto. Qed.

Lemma grows_incl tr tr' : grows tr tr' -> tr ⊆ tr'.
Proof. intros H x. by apply grows_elem. Qed.

#[export] Instance grows_preorder : PreOrder grows.
Proof. split; [exact grows_refl|exact grows_trans]. Qed.

Ltac grow :=
  first [ assumption | apply grows_refl
        | apply grows_cons; [reflexivity|]; grow
        | match goal with
          | H : grows ?tr1 ?tr' |- grows _ ?tr' => apply (grows_trans _ tr1 _); [grow | exact H]
          end ].

(** Memberships, along the growth of a trace. *)
Ltac in_trace :=
  first [ assumption
        | apply list_elem_of_here
        | apply list_elem_of_further; in_trace
        | match goal with
          | H : grows ?tr ?tr' |- _ ∈ ?tr' => apply (grows_elem _ _ _ H); in_trace
          | H : ?tr ⊆ ?tr' |- _ ∈ ?tr' => apply H; in_trace
          end ].

Class Quiet {S A} (m : method S A) : Prop :=
  quiet_wpa : forall (ok : trace GatewaySig -> Op.op -> Prop) lax s tr
      (Q : Result Error A -> S -> trace GatewaySig -> Prop),
    (forall tr o, quiet o = true -> ok tr o) ->
    (forall r tr', grows tr tr' -> Q r s tr') ->
    wpa ok lax m Q s tr.

Section quiet.
Context {S : Type}.

#[export] Instance Quiet_ret {A} (a : A) : Quiet (S := S) (mret a).
Proof. intros ok lax s tr Q Hok HQ. apply wpa_ret, HQ. grow. Qed.

#[export] Instance Quiet_check {A} (r : Result Error A) : Quiet (S := S) (check r).
Proof. intros ok lax s tr Q Hok HQ. apply wpa_check, HQ. grow. Qed.

Lemma Quiet_bind {A B} (m : method S A) (f : A -> method S B) :
  Quiet m -> (forall a, Quiet (f a)) -> Quiet (m ≫= f).
Proof.
  intros Hm Hf ok lax s tr Q Hok HQ. apply wpa_bind, Hm; [done|].
  intros [a|e] tr1 H1; [|by apply HQ]. apply Hf; [done|].
  intros r tr2 H2. apply HQ. grow.
Qed.

Lemma Quiet_do o : quiet o = true -> Quiet (S := S) (do o).
Proof.
  intros Ho ok lax s tr Q Hok HQ. apply wpa_do; [by apply Hok|].
  intros x. apply HQ. by apply grows_cons; [|grow].
Qed.

Lemma Quiet_attempt {A} (m : method S A) : Quiet m -> Quiet (attempt m).
Proof.
  intros Hm ok lax s tr Q Hok HQ. apply wpa_attempt, Hm; [done|]. intros r tr1 H1. by apply HQ.
Qed.

Lemma Quiet_ask {A} (m : method S (Result Error A)) : Quiet m -> Quiet (ask m).
Proof. intros Hm. apply Quiet_bind; [done|]. intros a. apply _. Qed.

Lemma Quiet_scoped {A} b (first last : method S unit) (m : method S A) :
  Quiet first -> Quiet last -> Quiet m -> Quiet (scoped b first last m).
Proof.
  intros Hf Hl Hm. unfold scoped. destruct b; [|done].
  apply Quiet_bind; [done|]. intros _. apply Quiet_bind; [by apply Quiet_attempt|].
  intros r. apply Quiet_bind; [done|]. intros _. apply _.
Qed.

Lemma Quiet_when b (m : method S unit) : Quiet m -> Quiet (perform_when b m).
Proof. intros Hm. destruct b; [done|apply Quiet_ret]. Qed.

End quiet.

Ltac quiet_step :=
  lazymatch goal with
  | |- forall _, _ => intros ?
  | |- Quiet (mret _) => apply Quiet_ret
  | |- Quiet (check _) => apply Quiet_check
  | |- Quiet (do ?o) => exact (Quiet_do o eq_refl)
  | |- Quiet (ask _) => apply Quiet_ask
  | |- Quiet (attempt _) => apply Quiet_attempt
  | |- Quiet (scoped _ _ _ _) => apply Quiet_scoped
  | |- Quiet (perform_when _ _) => apply Quiet_when
  | |- Quiet (mbind _ _) => apply Quiet_bind
  | |- Quiet (match ?x with _ => _ end) => destruct x
  | |- Quiet (let _ := _ in _) => cbv zeta
  | |- Quiet _ => apply _
  end.
Ltac quiet_tac := cbv beta; repeat quiet_step.

Section instances.
Context {S : Type} (config : Config) (json_error : Value -> string).

#[export] Instance Quiet_entry_for_request r : Quiet (S := S) (entry_for_request r).
Proof. unfold entry_for_request. quiet_tac. Qed.

#[export] Instance Quiet_entry id : Quiet (S := S) (entry id).
Proof. unfold entry. quiet_tac. Qed.

#[export] Instance Quiet_retire_session id e : Quiet (S := S) (retire_session id e).
Proof. unfold retire_session, retire_state_if_gap, drop_controller. quiet_tac. Qed.

#[export] Instance Quiet_finished_among l : Quiet (S := S) (finished_among l).
Proof. induction l; cbn [finished_among]; unfold is_retirable; quiet_tac. Qed.

#[export] Instance Quiet_retire_all l : Quiet (S := S) (retire_all l).
Proof. induction l; cbn [retire_all]; quiet_tac. Qed.

#[export] Instance Quiet_acquire_slot : Quiet (S := S) acquire_slot.
Proof. unfold acquire_slot, retire_finished_sessions. quiet_tac. Qed.

#[export] Instance Quiet_or_drop_slot {A} (r : Result Error A) : Quiet (S := S) (or_drop_slot r).
Proof. unfold or_drop_slot. quiet_tac. Qed.

#[export] Instance Quiet_creation_lease id c m :
  Quiet (S := S) (creation_lease config id c m).
Proof. unfold creation_lease. quiet_tac. Qed.

#[export] Instance Quiet_store_ownership id c l : Quiet (S := S) (store_ownership id c l).
Proof. unfold store_ownership. quiet_tac. Qed.

#[export] Instance Quiet_session_create r c m :
  Quiet (S := S) (session_create config json_error r c m).
Proof. unfold session_create. quiet_tac. Qed.

#[export] Instance Quiet_audit c se m ef al rv rq oc :
  Quiet (S := S) (audit config c se m ef al rv rq oc).
Proof. unfold audit. quiet_tac. Qed.

#[export] Instance Quiet_entry_revision e : Quiet (S := S) (entry_revision e).
Proof. unfold entry_revision. quiet_tac. Qed.

#[export] Instance Quiet_with_controller {A} e (body : option Controller -> method S A) :
  (forall c, Quiet (body c)) -> Quiet (with_controller e body).
Proof. intros H. unfold with_controller. quiet_tac. Qed.

#[export] Instance Quiet_check_ownership r c ef e : Quiet (S := S) (check_ownership config r c ef e).
Proof. unfold check_ownership. quiet_tac. Qed.

#[export] Instance Quiet_classified_effect r p ef e :
  Quiet (S := S) (classified_effect r p ef e).
Proof. unfold classified_effect, range_effect. quiet_tac. Qed.

#[export] Instance Quiet_check_authorization r c p ef e :
  Quiet (S := S) (check_authorization config r c p ef e).
Proof. unfold check_authorization. quiet_tac. Qed.

#[export] Instance Quiet_preconditions r c e rv m : Quiet (S := S) (preconditions config r c e rv m).
Proof. unfold preconditions. repeat (quiet_tac; try apply Quiet_with_controller). Qed.

#[export] Instance Quiet_fences r c m ef e : Quiet (S := S) (fences config r c m ef e).
Proof. unfold fences. quiet_tac. Qed.

#[export] Instance Quiet_record_admission r c ef d e :
  Quiet (S := S) (record_admission config r c ef d e).
Proof. unfold record_admission. quiet_tac. Qed.

#[export] Instance Quiet_baseline_of r ef e : Quiet (S := S) (baseline_of r ef e).
Proof. unfold baseline_of. quiet_tac. Qed.

#[export] Instance Quiet_confirm_baseline e b r : Quiet (S := S) (confirm_baseline e b r).
Proof. unfold confirm_baseline. quiet_tac. Qed.

#[export] Instance Quiet_completed_entry r e res : Quiet (S := S) (completed_entry r e res).
Proof. unfold completed_entry. quiet_tac. Qed.

#[export] Instance Quiet_response_state r m e res w : Quiet (S := S) (response_state r m e res w).
Proof. unfold response_state. quiet_tac. Qed.

End instances.

(** ** What a trace shows *)

Notation "x '∈ₑ' tr" := (x ∈ (tr : list (event GatewaySig))) (at level 70, only parsing).

(** The guards of a kind the request holds: acquired and not yet released. *)
Definition holds (l : lock) (a : access) (e : event GatewaySig) : Z :=
  match e with
  | existT (Op.Lock l' a') _ => if decide (l' = l /\ a' = a) then 1 else 0
  | existT (Op.LockWithin l') true => if decide (l' = l /\ Exclusive = a) then 1 else 0
  | existT (Op.Unlock l' a') _ => if decide (l' = l /\ a' = a) then -1 else 0
  | _ => 0
  end.

Fixpoint held (l : lock) (a : access) (tr : list (event GatewaySig)) : Z :=
  match tr with
  | [] => 0
  | e :: tr => holds l a e + held l a tr
  end.

Lemma held_lock l a l' a' x tr :
  held l a (gev (Op.Lock l' a') x :: tr) =
    ((if decide (l' = l /\ a' = a) then 1 else 0) + held l a tr)%Z.
Proof. done. Qed.

Lemma held_unlock l a l' a' x tr :
  held l a (gev (Op.Unlock l' a') x :: tr) =
    ((if decide (l' = l /\ a' = a) then -1 else 0) + held l a tr)%Z.
Proof. done. Qed.

Lemma held_state l a e x tr : held l a (gev (Op.State e) x :: tr) = held l a tr.
Proof. done. Qed.

Lemma held_grows l a tr tr' :
  quiet_lock l = false -> grows tr tr' -> held l a tr' = held l a tr.
Proof.
  intros Hl. induction 1 as [|[o x] tr' He _ IH]; cbn [held]; [done|]. rewrite IH.
  unfold holds. cbn. unfold quiet_event in He. cbn in He.
  destruct o; try done; try (destruct x; [|done]); (case_decide as E; [|done]);
    destruct E as [-> _]; cbn in He; congruence.
Qed.

(** The facts that let a request in: what was validated, counted, looked up,
    compared and allowed. *)
Definition owns (request : ApiRequest) (caller : Caller) (e : option SessionEntry)
    (tr : trace GatewaySig) : Prop :=
  req_session_id request = None \/ caller_admin caller = true \/
  match e with
  | Some e => same_principal (se_owner e) (caller_identity caller) = true
  | None =>
      exists id, (gev (Op.GetSession id) (Ok None) ∈ₑ tr) \/
        exists owner, (gev (Op.SessionOwner id) (Ok (Some owner)) ∈ₑ tr) /\
          same_principal owner (caller_identity caller) = true
  end.

(** An observation profile reads memory under its own effect only where the
    classification found an ordinary range. *)
Definition ordinary_memory (request : ApiRequest) (caller : Caller) (e : option SessionEntry)
    (effect : Effect) (tr : trace GatewaySig) : Prop :=
  match e with
  | Some e =>
      is_memory_observation (req_method request) = true ->
      mutates_memory (se_profile e) = false -> effect <> VolatileTargetRead ->
      exists state maps, (gev (Op.State e) state ∈ₑ tr) /\
        classify_memory_range (fun _ => maps) (target_origin state)
          (find_map inf_pid (btree_values (inferiors state))) (req_parameters request)
          (if decide (req_method request = MemorySearch) then "start" else "address") = Ok Ordinary
  | None => True
  end.

Record granted (config : Config) (original : ApiRequest) (caller : Caller) (admitted : bool)
    (mode : RequestMode) (request : ApiRequest) (e : option SessionEntry) (effect : Effect)
    (tr : trace GatewaySig) : Prop := {
  granted_valid : admitted = true \/ validate_request original = Ok tt;
  granted_request : request = match mode with
                              | Agent => default_agent_memory_encoding original
                              | Canonical => original
                              end;
  granted_timeout : mode = Agent ->
    check_agent_timeout (command_timeout_ms (server config)) request = Ok tt;
  granted_rate : gev (Op.CheckRate (caller_identity caller)) (Ok tt) ∈ₑ tr;
  granted_entry : match req_session_id request with
                  | Some id => gev (Op.FindSession id) e ∈ₑ tr
                  | None => e = None
                  end;
  granted_owner : owns request caller e tr;
  granted_effect : effect = effect_for_request request \/ effect = VolatileTargetRead;
  granted_memory : ordinary_memory request caller e effect tr;
  granted_policy :
    authorization request caller (request_profile config request caller e) effect = Ok tt
}.

Lemma owns_incl request caller e tr tr' :
  tr ⊆ tr' -> owns request caller e tr -> owns request caller e tr'.
Proof.
  unfold owns. intros Hg [H|[H|H]]; [by left|by right; left|right; right]. destruct e; [done|].
  destruct H as (id & [H|(owner & H & Hs)]); exists id; [left; in_trace|].
  right. exists owner. split; [in_trace|done].
Qed.

Lemma ordinary_memory_incl request caller e effect tr tr' :
  tr ⊆ tr' -> ordinary_memory request caller e effect tr ->
  ordinary_memory request caller e effect tr'.
Proof.
  unfold ordinary_memory. intros Hg. destruct e; [|done]. intros H H1 H2 H3.
  destruct (H H1 H2 H3) as (st & maps & Hin & Hc). exists st, maps. split; [in_trace|done].
Qed.

Lemma granted_incl config original caller admitted mode request e effect tr tr' :
  tr ⊆ tr' -> granted config original caller admitted mode request e effect tr ->
  granted config original caller admitted mode request e effect tr'.
Proof.
  intros Hg [H1 H2 H3 H4 H5 H6 H7 H8 H9]. split; try done.
  - in_trace.
  - destruct (req_session_id request); [in_trace|done].
  - by eapply owns_incl.
  - by eapply ordinary_memory_incl.
Qed.

(** ** Symbolic execution *)


Ltac wpa_go :=
  cbv beta iota zeta;
  lazymatch goal with
  | |- wpa _ _ (mret _) _ _ _ => apply wpa_ret
  | |- wpa _ _ (check _) _ _ _ => apply wpa_check
  | |- wpa _ _ (mbind _ _) _ _ _ => apply wpa_bind
  | |- wpa _ _ (attempt _) _ _ _ => apply wpa_attempt
  | |- wpa _ _ (ask _) _ _ _ => unfold ask at 1
  | |- wpa _ _ request_now _ _ _ => apply wpa_local, wp_gets
  | |- wpa _ _ (local (gets _)) _ _ _ => apply wpa_local, wp_gets
  | |- wpa _ _ (set_request _) _ _ _ => apply wpa_local, wp_modify
  | |- wpa _ _ (local (modify _)) _ _ _ => apply wpa_local, wp_modify
  | |- wpa _ _ (do ?o) _ _ _ => refine (wpa_do _ _ o _ _ _ _ _); [|let x := fresh "x" in intro x]
  end.

Section stages.
Context (config : Config) (json_error to_string : Value -> string) (sha256 : string -> string).
Context (ok : trace GatewaySig -> Op.op -> Prop) (lax : bool).
Context (ok_quiet : forall tr o, quiet o = true -> ok tr o).

Ltac by_quiet := apply quiet_wpa; [exact ok_quiet|].
Ltac go := wpa_go; try (apply ok_quiet; reflexivity).

Lemma check_ownership_spec {S : Type} request caller effect e (s : S) tr
    (Q : Result Error unit -> S -> trace GatewaySig -> Prop) :
  (forall r tr', grows tr tr' -> (r = Ok tt -> owns request caller e tr') -> Q r s tr') ->
  wpa ok lax (check_ownership config request caller effect e) Q s tr.
Proof.
  intros HQ. unfold check_ownership. destruct (req_session_id request) as [id|] eqn:Eid.
  2: { go. apply HQ; [grow|]. intros _. by left. }
  go. go. destruct (SessionId_parse id) as [sid|err]; [|by apply HQ; [grow|]].
  assert (forall known owner tr1, grows tr tr1 ->
    (negb (known && negb (caller_admin caller) &&
           negb match owner with
                | Some owner => same_principal owner (caller_identity caller)
                | None => false end) = true -> owns request caller e tr1) ->
    wpa ok lax
      (if known && negb (caller_admin caller) &&
          negb match owner with
               | Some owner => same_principal owner (caller_identity caller)
               | None => false end
       then
         rev ← entry_revision e;
         _ ← audit config (caller_identity caller) (Some sid) (req_method request) effect false rev
               (request_value request) "denied";
         check (Err (Error_new Code.PolicyDenied "session belongs to another principal"))
       else mret tt) Q s tr1) as Hend.
  { intros known owner tr1 H1 Ho. destruct (known && _ && _).
    - go. by_quiet. intros [rev|err] tr2 H2; [|apply HQ; [grow|discriminate]].
      go. by_quiet. intros [[]|err] tr3 H3; [go|]; (apply HQ; [grow|discriminate]).
    - go. apply HQ; [grow|]. intros _. by apply Ho. }
  go. destruct e as [e|].
  - repeat go. apply (Hend true (Some (se_owner e))); [grow|]. intros H. right. cbn in H.
    destruct (caller_admin caller); [by left|right]. cbn in H.
    by destruct (same_principal _ _).
  - repeat go. destruct x as [owner|err]; [|apply HQ; [grow|discriminate]].
    repeat go. destruct x as [stored|err]; [|apply HQ; [grow|discriminate]].
    repeat go. apply (Hend _ owner); [grow|]. intros H. right.
    destruct (caller_admin caller); [by left|right]. cbn in H.
    destruct stored as [st|]; cbn in H.
    + destruct owner as [owner|]; cbn in H; [|done].
      destruct (same_principal owner _) eqn:E; [|done]. exists sid. right. exists owner.
      split; [in_trace|done].
    + exists sid. left. in_trace.
Qed.

Lemma classified_effect_spec {S : Type} request caller profile effect e (s : S) tr
    (Q : Result Error Effect -> S -> trace GatewaySig -> Prop) :
  (forall e', e = Some e' -> profile = se_profile e') ->
  (forall r tr', grows tr tr' ->
    (forall ef, r = Ok ef -> (ef = effect \/ ef = VolatileTargetRead) /\
      ordinary_memory request caller e ef tr') -> Q r s tr') ->
  wpa ok lax (classified_effect request profile effect e) Q s tr.
Proof.
  intros Hp HQ. unfold classified_effect. destruct e as [e|].
  2: { go. apply HQ; [grow|]. intros ef [= <-]. split; [by left|done]. }
  rewrite (Hp e eq_refl). destruct (is_memory_observation _ && _) eqn:Em.
  2: { go. apply HQ; [grow|]. intros ef [= <-]. split; [by left|].
       intros H1 H2. by rewrite H1, H2 in Em. }
  repeat go. unfold range_effect. cbv zeta.
  set (pid := find_map inf_pid _).
  set (field := if decide (req_method request = MemorySearch) then _ else _).
  set (tr0 := gev (Op.State e) x :: tr).
  assert (forall maps tr1, grows tr0 tr1 ->
    wpa ok lax (check (classify_memory_range (fun _ => maps) (target_origin x) pid (req_parameters request) field))
      (fun r s' tr' => match r with
        | Ok a => wpa ok lax (mret (if decide (a = Ordinary) then effect else VolatileTargetRead)) Q s' tr'
        | Err e => Q (Err e) s' tr' end) s tr1) as Hend.
  { intros maps tr1 H1. assert (grows tr tr1) by (eapply grows_trans; [|exact H1]; subst tr0; grow).
    assert (gev (Op.State e) x ∈ tr1).
    { apply (grows_elem _ _ _ H1). subst tr0. in_trace. }
    go. destruct (classify_memory_range _ _ _ _ _) as [a|err] eqn:Hr; [|by apply HQ].
    go. apply HQ; [done|]. intros ef [= <-]. split; [case_decide; auto|]. intros _ _ Hv.
    case_decide as Ha; [subst a|done]. by exists x, maps. }
  destruct (classify_memory_range (fun _ => None) _ _ _ _) as [a|err] eqn:Ec; rewrite <-?Ec.
  - destruct pid as [p|] eqn:Ep; [|apply (Hend None); subst tr0; grow].
    destruct (match target_origin x with Origin.Local | Origin.Attach => true | _ => false end).
    + go. go. apply (Hend x0). grow.
    + apply (Hend None). subst tr0; grow.
  - apply (Hend None). subst tr0; grow.
Qed.

Lemma check_authorization_spec {S : Type} request caller profile effect e (s : S) tr
    (Q : Result Error unit -> S -> trace GatewaySig -> Prop) :
  (forall r tr', grows tr tr' ->
    (r = Ok tt -> authorization request caller profile effect = Ok tt) -> Q r s tr') ->
  wpa ok lax (check_authorization config request caller profile effect e) Q s tr.
Proof.
  intros HQ. unfold check_authorization. destruct (authorization _ _ _ _) as [[]|err].
  - go. by apply HQ; [grow|].
  - go. by_quiet. intros [rev|er] tr1 H1; [|apply HQ; [grow|discriminate]].
    go. by_quiet. intros [[]|er] tr2 H2; [go|]; (apply HQ; [grow|discriminate]).
Qed.

Definition after_rate (caller : Caller) : dispatching (option SessionEntry * Effect) :=
  request ← request_now;
  let effect := effect_for_request request in
  e ← entry_for_request request;
  _ ← check_ownership config request caller effect e;
  let profile := request_profile config request caller e in
  effect ← classified_effect request profile effect e;
  _ ← check_authorization config request caller profile effect e;
  mret (e, effect).

Lemma after_rate_spec original caller admitted mode d tr
    (Q : Result Error (option SessionEntry * Effect) -> Dispatching -> trace GatewaySig -> Prop) :
  (admitted = true \/ validate_request original = Ok tt) ->
  d_request d = match mode with
                | Agent => default_agent_memory_encoding original
                | Canonical => original
                end ->
  (mode = Agent -> check_agent_timeout (command_timeout_ms (server config)) (d_request d) = Ok tt) ->
  gev (Op.CheckRate (caller_identity caller)) (Ok tt) ∈ₑ tr ->
  (forall r tr', grows tr tr' ->
    (forall e effect, r = Ok (e, effect) ->
      granted config original caller admitted mode (d_request d) e effect tr') -> Q r d tr') ->
  wpa ok lax (after_rate caller) Q d tr.
Proof.
  intros Hv Hreq Ht Hrate HQ. unfold after_rate. go. go. set (request := d_request d) in *. go.
  assert (forall e tr0, grows tr tr0 ->
    match req_session_id request with
    | Some id => gev (Op.FindSession id) e ∈ₑ tr0
    | None => e = None
    end ->
    wpa ok lax (
      _ ← check_ownership config request caller (effect_for_request request) e;
      let profile := request_profile config request caller e in
      effect ← classified_effect request profile (effect_for_request request) e;
      _ ← check_authorization config request caller profile effect e;
      mret (e, effect)) Q d tr0) as Hend.
  { intros e tr0 H0 He. go. apply check_ownership_spec. intros [[]|err] tr1 H1 Ho.
    2: { apply HQ; [grow|discriminate]. }
    cbv beta iota zeta. go. apply (classified_effect_spec _ caller); [by intros e' ->|].
    intros [ef|err] tr2 H2 Hef; [|apply HQ; [grow|discriminate]].
    destruct (Hef ef eq_refl) as [Heff Hmem]. go. apply check_authorization_spec.
    intros [[]|err] tr3 H3 Ha; [|apply HQ; [grow|discriminate]].
    go. apply HQ; [grow|]. intros e' effect' [= <- <-]. split; try done.
    - in_trace.
    - destruct (req_session_id request); [in_trace|done].
    - eapply owns_incl; [apply grows_incl|by apply Ho]. grow.
    - eapply ordinary_memory_incl; [by apply grows_incl|done].
    - by apply Ha. }
  unfold entry_for_request. destruct (req_session_id request) as [id|] eqn:Eid.
  - go. apply (Hend x); [grow|in_trace].
  - go. by apply (Hend None); [grow|].
Qed.

Lemma admit_spec caller admitted mode d tr
    (Q : Result Error (option SessionEntry * Effect) -> Dispatching -> trace GatewaySig -> Prop) :
  (forall r d' tr', grows tr tr' -> d_created d' = d_created d ->
    (forall e effect, r = Ok (e, effect) ->
      granted config (d_request d) caller admitted mode (d_request d') e effect tr') ->
    Q r d' tr') ->
  wpa ok lax (admit_request config caller admitted mode) Q d tr.
Proof.
  intros HQ. unfold admit_request. go. go.
  set (original := d_request d).
  assert (forall d', d_created d' = d_created d ->
    (admitted = true \/ validate_request original = Ok tt) ->
    d_request d' = match mode with
                   | Agent => default_agent_memory_encoding original
                   | Canonical => original
                   end ->
    (mode = Agent ->
      check_agent_timeout (command_timeout_ms (server config)) (d_request d') = Ok tt) ->
    wpa ok lax (_ ← ask (do (Op.CheckRate (caller_identity caller))); after_rate caller) Q d' tr)
    as Hafter.
  { intros d' Hc Hv Hr Ht. repeat go. destruct x as [[]|err].
    2: { apply HQ; [grow|done|discriminate]. }
    apply (after_rate_spec original caller admitted mode); try done; [in_trace|].
    intros r tr' Hg Hgr. apply HQ; [grow|done|exact Hgr]. }
  go. set (Qv := fun (r : Result Error unit) (s' : Dispatching) (tr' : trace GatewaySig) => _).
  assert ((admitted = true \/ validate_request original = Ok tt) -> Qv (Ok tt) d tr) as Hv.
  { intros Hv. unfold Qv. go. destruct mode.
    - go. by apply Hafter.
    - do 3 go. destruct (check_agent_timeout _ _) as [[]|err] eqn:Et; [by apply Hafter|].
      apply HQ; [grow|done|discriminate]. }
  destruct admitted.
  - go. apply Hv. by left.
  - go. destruct (validate_request original) as [[]|err] eqn:Ev; [apply Hv; by right|].
    apply HQ; [grow|done|discriminate].
Qed.

(** A session is created for its caller, under a profile it may choose. *)
Definition created_for (request : ApiRequest) (caller : Caller) (e : SessionEntry)
    (tr : trace GatewaySig) : Prop :=
  exists id profile controller,
    (gev (Op.NewEntry id (caller_identity caller) profile controller) e ∈ₑ tr) /\
    (gev (Op.InsertSession e) tt ∈ₑ tr) /\
    create_profile config json_error request caller = Ok profile.

Lemma created_for_incl request caller e tr tr' :
  tr ⊆ tr' -> created_for request caller e tr -> created_for request caller e tr'.
Proof.
  intros Hg (id & p & c & H1 & H2 & H3). exists id, p, c. split_and!; [in_trace..|done].
Qed.

Lemma session_create_spec {S : Type} request caller mode (s : S) tr
    (Q : Result Error (SessionEntry * Value) -> S -> trace GatewaySig -> Prop) :
  (forall r tr', grows tr tr' ->
    (forall e v, r = Ok (e, v) -> created_for request caller e tr') -> Q r s tr') ->
  wpa ok lax (session_create config json_error request caller mode) Q s tr.
Proof.
  intros HQ. unfold session_create. apply wpa_scoped. go.
  set (Qin := fun (r : Result Error (SessionEntry * Value)) (s : S) tr => _).
  set (tr0 := gev (Op.Lock LCreation Shared) x :: tr).
  assert (forall r tr', grows tr0 tr' ->
    (forall e v, r = Ok (e, v) -> created_for request caller e tr') -> Qin r s tr') as HQin.
  { intros r tr' Hg Hc. unfold Qin. go. subst tr0.
    assert (grows tr tr') by (eapply grows_trans; [|exact Hg]; grow).
    apply HQ; [grow|]. intros e v Hr. eapply created_for_incl; [apply grows_incl|by eapply Hc]. grow. }
  clearbody Qin tr0. go. go. destruct x0.
  { go. apply HQin; [grow|discriminate]. }
  do 4 go. go. destruct x0 as [[]|err]; [|apply HQin; [grow|discriminate]].
  go. go. destruct (create_profile _ _ _ _) as [profile|err] eqn:Ep;
    [|apply HQin; [grow|discriminate]].
  go. by_quiet. intros [[]|err] tr1 H1; [|apply HQin; [grow|discriminate]].
  do 3 go. by_quiet. intros [id|err] tr2 H2; [|apply HQin; [grow|discriminate]].
  go. by_quiet. intros [lease|err] tr3 H3; [|apply HQin; [grow|discriminate]].
  go. by_quiet. intros [[[]|error]|err] tr4 H4; [| |apply HQin; [grow|discriminate]].
  2: { go. go. unfold or_drop_slot. go. go. go. apply HQin; [grow|discriminate]. }
  go. go. rename x1 into e. go. go. go. go. destruct x2 as [[]|error].
  2: { go. go. go. by_quiet. intros [w|err] tr5 H5; [go|]; (apply HQin; [grow|discriminate]). }
  do 5 go. apply HQin; [grow|]. intros e' v' [= <- _].
  exists id, profile, (match lease with Some lease => CLease lease | None => CAgent (caller_identity caller) end).
  destruct x1. split_and!; [in_trace..|done].
Qed.

(** The session the request runs in: the one that was looked up, or, for a
    launch that named none, one created for the caller. *)
Definition bound_session (r1 : ApiRequest) (caller : Caller) (e1 : option SessionEntry)
    (r2 : ApiRequest) (e2 : option SessionEntry) (tr : trace GatewaySig) : Prop :=
  (r2 = r1 /\ e2 = e1) \/
  (req_method r1 = TargetLaunch /\ req_session_id r1 = None /\
   exists e, e2 = Some e /\ created_for (creation_request r1) caller e tr /\
     req_session_id r2 = Some (se_id e) /\ req_method r2 = TargetLaunch).

Lemma bound_session_incl r1 caller e1 r2 e2 tr tr' :
  tr ⊆ tr' -> bound_session r1 caller e1 r2 e2 tr -> bound_session r1 caller e1 r2 e2 tr'.
Proof.
  intros Hi [H|(H1 & H2 & e & H3 & H4 & H5)]; [by left|right]. split_and!; [done..|].
  exists e. split_and!; try done; [|apply H5..]. by eapply created_for_incl.
Qed.

Context (Hlax : lax = true).

Lemma with_session_spec caller mode e d tr
    (Q : Result Error (option SessionEntry) -> Dispatching -> trace GatewaySig -> Prop) :
  (forall r d' tr', grows tr tr' ->
    (forall e', r = Ok e' -> bound_session (d_request d) caller e (d_request d') e' tr') ->
    Q r d' tr') ->
  wpa ok lax (with_session config json_error caller mode e) Q d tr.
Proof.
  intros HQ. unfold with_session. go. go. destruct (_ && _) eqn:El.
  2: { go. apply HQ; [grow|]. intros e' [= <-]. by left. }
  apply andb_true_iff in El as [Hm%bool_decide_eq_true Hs%bool_decide_eq_true].
  go. apply session_create_spec. intros [[ent v]|err] tr1 H1 Hc; [|apply HQ; [grow|discriminate]].
  specialize (Hc ent v eq_refl). go. apply wpa_unwrap; [done|]. intros r2 Hr2.
  assert (req_session_id r2 = Some (se_id ent) /\ req_method r2 = TargetLaunch) as [Hr2s Hr2m].
  { unfold target_created in Hr2. destruct mode; [|by simplify_eq/=].
    destruct (set_index _ _ _); cbn in Hr2; by simplify_eq/=. }
  go. go. go. apply wpa_unwrap; [done|]. intros created _. go. go. go. go. destruct x as [[]|err].
  - go. apply HQ; [grow|]. intros e' [= <-]. right. split_and!; [done..|]. exists ent.
    split_and!; try done. eapply created_for_incl; [|done]. apply grows_incl. grow.
  - go. go. go. by_quiet. intros [w|er] tr2 H2; [go|]; (apply HQ; [grow|discriminate]).
Qed.

(** ** Guards *)

Definition guard_held (request : ApiRequest) (effect : Effect) (e : option SessionEntry)
    (tr : trace GatewaySig) : Prop :=
  match e with
  | None => True
  | Some e =>
      (effect <> Read -> is_out_of_band request = false ->
       held (LTarget (se_ref e)) Exclusive tr = 1%Z) /\
      (effect <> Read -> is_out_of_band request = true ->
       held (LOutOfBand (se_ref e)) Exclusive tr = 1%Z) /\
      (effect = Read -> requires_structured_state request effect = true ->
       held (LTarget (se_ref e)) Shared tr = 1%Z \/ held (LTarget (se_ref e)) Exclusive tr = 1%Z)
  end.

Lemma guard_held_grows request effect e tr tr' :
  grows tr tr' -> guard_held request effect e tr -> guard_held request effect e tr'.
Proof.
  intros Hg. unfold guard_held. destruct e as [e|]; [|done].
  by rewrite !(fun l a (Hl : quiet_lock l = false) => held_grows l a _ _ Hl Hg) by done.
Qed.

Definition unguarded (e : option SessionEntry) (tr : trace GatewaySig) : Prop :=
  match e with
  | None => True
  | Some e => forall a, held (LTarget (se_ref e)) a tr = 0%Z /\ held (LOutOfBand (se_ref e)) a tr = 0%Z
  end.

Context (ok_locks : forall tr l a, ok tr (Op.Lock l a) /\ ok tr (Op.Unlock l a)).

Ltac lock_go := wpa_go; [first [apply ok_locks | apply ok_quiet; reflexivity]|].

Lemma guarded_spec {S A : Type} request effect e (body : method S A) (s : S) tr :
  unguarded e tr ->
  (forall tr', tr ⊆ tr' -> guard_held request effect e tr' ->
    wpa ok lax body (fun _ _ _ => True) s tr') ->
  wpa ok lax (guarded request effect e body) (fun _ _ _ => True) s tr.
Proof.
  intros Hu Hb. unfold guarded. destruct e as [e|]; [|by apply Hb]. cbv zeta.
  cbn in Hu. unfold guard_held in Hb.
  assert (forall l a tr0 x, held l a (gev (Op.Lock l a) x :: tr0) = (1 + held l a tr0)%Z) as Hadd.
  { intros l a tr0 x. rewrite held_lock. by rewrite decide_True. }
  destruct (bool_decide (effect = Read)) eqn:Er; cbn [negb andb].
  - apply bool_decide_eq_true in Er. destruct (requires_structured_state request effect) eqn:Es.
    + go. lock_go. go. lock_go. destruct (reconciliation_required x0).
      * go. lock_go. apply wpa_scoped. lock_go. eapply wpa_mono.
        -- apply Hb; [set_solver|]. split_and!; [done..|]. intros _ _. right.
           rewrite Hadd, held_unlock, held_state, held_lock, !decide_False
             by (intros [? ?]; congruence). by destruct (Hu Exclusive) as [-> _].
        -- intros r s' tr' _. by lock_go.
      * go. go. eapply wpa_mono.
        -- apply Hb; [set_solver|]. split_and!; [done..|]. intros _ _. left.
           rewrite held_state, held_lock, decide_True by done. by destruct (Hu Shared) as [-> _].
        -- intros r s' tr' _. go. lock_go. by go.
    + apply wpa_scoped. apply Hb; [done|]. by split_and!.
  - apply bool_decide_eq_false in Er. destruct (is_out_of_band request) eqn:Eo; cbn [negb andb].
    + apply wpa_scoped. lock_go. eapply wpa_mono.
      * apply Hb; [set_solver|]. split_and!; [done| |done]. intros _ _. rewrite Hadd.
        destruct (Hu Exclusive) as [_ ->]. done.
      * intros r s' tr' _. by lock_go.
    + apply wpa_scoped. lock_go. eapply wpa_mono.
      * apply Hb; [set_solver|]. split_and!; [|done..]. intros _ _. rewrite Hadd.
        destruct (Hu Exclusive) as [-> _]. done.
      * intros r s' tr' _. by lock_go.
Qed.

(** ** Fences *)

Lemma require_controller_controls request caller mode now lease_ms upsert c c' :
  require_controller request caller mode now lease_ms upsert c = (c', Ok tt) ->
  controls request caller mode now c.
Proof.
  unfold require_controller. destruct c as [[owner|l]|]; [..|done].
  - case_match eqn:Hm; [|done]. intros _.
    apply andb_true_iff in Hm as [?%bool_decide_eq_true ?%bool_decide_eq_true]. done.
  - unfold lease_is_expired. destruct (N.leb_spec (lease_expires_at_unix_ms l) now); [done|].
    destruct (negb _ || _) eqn:Ho; [done|]. intros _.
    apply orb_false_iff in Ho as [Ho%negb_false_iff%bool_decide_eq_true Hid].
    split_and!; [done..|]. intros ->. cbn in Hid. by apply negb_false_iff, bool_decide_eq_true in Hid.
Qed.

Definition preconditions_met (request : ApiRequest) (caller : Caller) (mode : RequestMode)
    (rev : N) (e : SessionEntry) (tr : trace GatewaySig) : Prop :=
  req_method request <> SessionForceAbort -> req_method request <> SessionAttemptRecovery ->
  require_expected_revision request rev mode = Ok tt /\
  (req_method request <> SessionAcquireWriteLease ->
   exists c now, (gev (Op.GetController e) c ∈ₑ tr) /\ (gev Op.NowMs now ∈ₑ tr) /\
     controls request caller mode now c).

Lemma preconditions_spec {S : Type} request caller e rev mode (s : S) tr
    (Q : Result Error unit -> S -> trace GatewaySig -> Prop) :
  (forall r tr', grows tr tr' ->
    (r = Ok tt -> preconditions_met request caller mode rev e tr') -> Q r s tr') ->
  wpa ok lax (preconditions config request caller e rev mode) Q s tr.
Proof.
  intros HQ. unfold preconditions. case_match eqn:Hfree.
  { go. apply HQ; [grow|]. intros _ H1 H2. by destruct (req_method request). }
  go. go. destruct (require_expected_revision request rev mode) as [[]|err] eqn:Hrev;
    [|apply HQ; [grow|discriminate]].
  case_decide as Hacq.
  { go. apply HQ; [grow|]. intros _ _ _. split; [done|]. intros H. by destruct H. }
  unfold with_controller. apply wpa_scoped. go. go. go. rename x0 into c.
  assert (forall r tr', grows (gev (Op.GetController e) c ::
      gev (Op.Lock (LController (se_ref e)) Exclusive) x :: tr) tr' ->
    (r = Ok tt -> exists now, (gev Op.NowMs now ∈ₑ tr') /\ controls request caller mode now c) ->
    wpa ok lax (do (Op.Unlock (LController (se_ref e)) Exclusive))
      (fun (r' : Result Error unit) s tr' => match r' with Ok _ => Q r s tr' | Err e => Q (Err e) s tr' end)
      s tr') as Hend.
  { intros r tr' Hg Hc. go. apply HQ; [grow|]. intros Hr _ _. split; [done|]. intros _.
    destruct (Hc Hr) as (now & Hn & Hcc). exists c, now. split_and!; [in_trace..|done]. }
  go. go. rename x0 into now. destruct (require_controller _ _ _ _ _ _ c) as [renewed [[]|err]] eqn:Ereq.
  - apply require_controller_controls in Ereq.
    destruct (negb (renewal_due config mode now c)).
    + go. apply Hend; [grow|]. intros _. exists now. split; [in_trace|done].
    + do 2 go. destruct renewed as [[owner|lease]|].
      * go. apply Hend; [grow|]. intros _. exists now. split; [in_trace|done].
      * do 3 go. go. apply Hend; [grow|]. intros _. exists now. split; [in_trace|done].
      * go. apply Hend; [grow|]. intros _. exists now. split; [in_trace|done].
  - go. apply Hend; [grow|discriminate].
Qed.

(** What the fences saw of the session. *)
Definition fenced (request : ApiRequest) (caller : Caller) (mode : RequestMode)
    (effect : Effect) (e : SessionEntry) (tr : trace GatewaySig) : Prop :=
  exists state, (gev (Op.State e) state ∈ₑ tr) /\
    (outcome_unknown_tokens state = ∅ \/ request_allowed_during_unknown_outcome request = true) /\
    (effect <> Read -> preconditions_met request caller mode (revision state) e tr) /\
    exists final, (gev (Op.State e) final ∈ₑ tr) /\
      (consistency final <> Consistent.Lost \/
       request_allowed_with_lost_consistency (req_method request) = true).

Lemma preconditions_met_incl request caller mode rev e tr tr' :
  tr ⊆ tr' -> preconditions_met request caller mode rev e tr ->
  preconditions_met request caller mode rev e tr'.
Proof.
  intros Hi H H1 H2. destruct (H H1 H2) as [Hr Hc]. split; [done|]. intros H3.
  destruct (Hc H3) as (c & now & Hin1 & Hin2 & ?). exists c, now. split_and!; [in_trace..|done].
Qed.

Lemma fenced_incl request caller mode effect e tr tr' :
  tr ⊆ tr' -> fenced request caller mode effect e tr -> fenced request caller mode effect e tr'.
Proof.
  intros Hi (st & H1 & H2 & H3 & fin & H4 & H5). exists st. split_and!; [in_trace|done| |].
  - intros He. eapply preconditions_met_incl; [done|by apply H3].
  - exists fin. split; [in_trace|done].
Qed.

Lemma fences_spec {S : Type} request caller mode effect e (s : S) tr
    (Q : Result Error unit -> S -> trace GatewaySig -> Prop) :
  (forall r tr', grows tr tr' ->
    (r = Ok tt -> fenced request caller mode effect e tr') -> Q r s tr') ->
  wpa ok lax (fences config request caller mode effect e) Q s tr.
Proof.
  intros HQ. unfold fences. do 2 go. rename x into st.
  go. destruct (negb (bool_decide (outcome_unknown_tokens st = ∅)) && _) eqn:Hu.
  { go. apply HQ; [grow|discriminate]. }
  assert (outcome_unknown_tokens st = ∅ \/ request_allowed_during_unknown_outcome request = true) as Hu'.
  { apply andb_false_iff in Hu as [Hu|Hu]; apply negb_false_iff in Hu; [left|by right].
    by apply bool_decide_eq_true in Hu. }
  go. go.
  set (Qr := fun (r : Result Error unit) (s : S) tr => _).
  assert (forall tr', grows (gev (Op.State e) st :: tr) tr' ->
    (effect <> Read -> preconditions_met request caller mode (revision st) e tr') ->
    Qr (Ok tt) s tr') as Hrest.
  { intros tr1 H1 Hp. unfold Qr. go.
    assert (forall state tr2, grows tr1 tr2 -> gev (Op.State e) state ∈ₑ tr2 ->
      wpa ok lax (if bool_decide (consistency state = Consistent.Lost) &&
                     negb (request_allowed_with_lost_consistency (req_method request))
                  then check (Err (Error_new Code.ConsistencyLost
                    "session consistency is lost; only status, evidence, recovery, or close is allowed"))
                  else mret tt) Q s tr2) as Hend.
    { intros state tr2 H2 Hin. destruct (bool_decide _ && _) eqn:Hl.
      - go. apply HQ; [grow|discriminate].
      - go. apply HQ; [grow|]. intros _. exists st. split_and!; [in_trace|done| |].
        + intros He. eapply preconditions_met_incl; [|by apply Hp]. by apply grows_incl.
        + exists state. split; [done|]. apply andb_false_iff in Hl as [Hl|Hl].
          * left. by apply bool_decide_eq_false in Hl.
          * right. by apply negb_false_iff in Hl. }
    destruct (reconciliation_required st && _).
    - do 4 go. go. destruct x as [v|err]; [|apply HQ; [grow|discriminate]].
      do 3 go. apply Hend; [grow|in_trace].
    - go. apply Hend; [grow|in_trace]. }
  destruct (bool_decide (effect = Read)) eqn:Er.
  - apply bool_decide_eq_true in Er. go. apply Hrest; [grow|done].
  - go. go. apply preconditions_spec. intros [[]|err] tr1 H1 Hp.
    + go. apply Hrest; [grow|]. intros _. by apply Hp.
    + go. by_quiet. intros [[]|er] tr2 H2; [go|]; (apply HQ; [grow|discriminate]).
Qed.

(** ** Records *)

(** The request is in the session's journal, and the acceptance of a durable
    mutation in the audit table, before the handler runs. *)
Definition recorded (request : ApiRequest) (caller : Caller) (effect : Effect)
    (e : option SessionEntry) (tr : trace GatewaySig) : Prop :=
  match e with
  | Some e' => reads_retained_observations (req_method request) = true \/
               (gev (Op.RecordApi e' (request_value request)) (Ok tt) ∈ₑ tr)
  | None => True
  end /\
  (effect <> Read -> journal_durability config = Durable ->
   exists rev, gev (Op.Audit (MkAuditRecord (caller_identity caller) (se_id <$> e)
     (req_method request) effect true rev (request_value request) "accepted")) (Ok tt) ∈ₑ tr).

Lemma recorded_incl request caller effect e tr tr' :
  tr ⊆ tr' -> recorded request caller effect e tr -> recorded request caller effect e tr'.
Proof.
  intros Hi [H1 H2]. split.
  - destruct e; [|done]. destruct H1; [by left|right; in_trace].
  - intros H3 H4. destruct (H2 H3 H4) as [rev H]. exists rev. in_trace.
Qed.

Lemma record_admission_spec {S : Type} request caller effect e (s : S) tr
    (Q : Result Error unit -> S -> trace GatewaySig -> Prop) :
  (forall r tr', grows tr tr' ->
    (r = Ok tt -> recorded request caller effect e tr') -> Q r s tr') ->
  wpa ok lax (record_admission config request caller effect
    (negb (bool_decide (effect = Read)) && is_durable config) e) Q s tr.
Proof.
  intros HQ. unfold record_admission, is_durable. go.
  set (journaled := fun tr' : trace GatewaySig => match e with
    | Some e' => reads_retained_observations (req_method request) = true \/
                 (gev (Op.RecordApi e' (request_value request)) (Ok tt) ∈ₑ tr')
    | None => True end).
  set (Qj := fun (r : Result Error unit) (s : S) tr => _).
  assert (forall tr1, grows tr tr1 -> journaled tr1 -> Qj (Ok tt) s tr1) as Hrest.
  { intros tr1 H1 Hj. unfold Qj. destruct (negb (bool_decide (effect = Read))) eqn:Er; cbn [andb].
    2: { go. apply HQ; [grow|]. intros _. split; [done|]. intros He.
         apply negb_false_iff, bool_decide_eq_true in Er. done. }
    destruct (bool_decide (journal_durability config = Durable)) eqn:Ed.
    - go. by_quiet. intros [rev|err] tr2 H2; [|apply HQ; [grow|discriminate]].
      unfold audit, is_durable. rewrite Ed. do 3 go. go. apply HQ; [grow|]. intros ->. split.
      + unfold journaled in Hj. destruct e; [|done]. destruct Hj; [by left|right]. in_trace.
      + intros _ _. exists rev. in_trace.
    - go. apply HQ; [grow|]. intros _. split; [done|]. intros _ Hd.
      by apply bool_decide_eq_false in Ed. }
  subst journaled. cbv beta in Hrest. unfold api_evidence. destruct e as [e'|].
  - rewrite bool_decide_true by eauto. cbn [andb].
    destruct (negb (reads_retained_observations (req_method request))) eqn:Err.
    + do 3 go. go. destruct x as [[]|err]; [apply Hrest; [grow|right; in_trace]|].
      apply HQ; [grow|discriminate].
    + go. apply Hrest; [grow|left]. by apply negb_false_iff in Err.
  - go. apply Hrest; [grow|done].
Qed.
End stages.

(** ** The whole path *)

(** What holds whenever a handler starts. *)
Definition may_run (config : Config) (json_error : Value -> string) (original : ApiRequest)
    (caller : Caller) (admitted : bool) (mode : RequestMode) (request : ApiRequest)
    (tr : trace GatewaySig) : Prop :=
  exists looked_up e1 effect e,
    granted config original caller admitted mode looked_up e1 effect tr /\
    bound_session config json_error looked_up caller e1 request e tr /\
    guard_held request effect e tr /\
    match e with Some e => fenced request caller mode effect e tr | None => True end /\
    recorded config request caller effect e tr.

(** Events that take or release no guard of a session. *)
Definition calm (e : event GatewaySig) : Prop :=
  match projT1 e with
  | Op.Lock (LTarget _ | LOutOfBand _) _ | Op.Unlock (LTarget _ | LOutOfBand _) _
  | Op.LockWithin (LTarget _ | LOutOfBand _) => False
  | _ => True
  end.

Inductive calms (tr : list (event GatewaySig)) : list (event GatewaySig) -> Prop :=
| calms_refl : calms tr tr
| calms_cons e tr' : calm e -> calms tr tr' -> calms tr (e :: tr').

Lemma calms_incl tr tr' : calms tr tr' -> tr ⊆ tr'.
Proof. induction 1; [done|]. set_solver. Qed.

Lemma grows_calms tr tr' : grows tr tr' -> calms tr tr'.
Proof.
  induction 1 as [|[o x] tr' He _ IH]; [constructor|]. constructor; [|done].
  unfold calm. cbn in He |- *. destruct o; try exact I; by destruct l.
Qed.

Lemma calms_trans tr tr1 tr2 : calms tr tr1 -> calms tr1 tr2 -> calms tr tr2.
Proof. intros H. induction 1; [done|by constructor]. Qed.

Lemma held_calms l a tr tr' :
  (exists e, l = LTarget e \/ l = LOutOfBand e) -> calms tr tr' -> held l a tr' = held l a tr.
Proof.
  intros Hl. induction 1 as [|[o x] tr' He _ IH]; cbn [held]; [done|]. rewrite IH.
  unfold holds. cbn in *. unfold calm in He. cbn in He.
  destruct o; try done; try (destruct x; [|done]); (case_decide as E; [|done]);
    destruct E as [-> _]; by destruct Hl as (e & [->| ->]).
Qed.

Lemma guard_held_calms request effect e tr tr' :
  calms tr tr' -> guard_held request effect e tr -> guard_held request effect e tr'.
Proof.
  intros Hg. unfold guard_held. destruct e as [e|]; [|done].
  rewrite !(fun l a (Hl : exists e, l = LTarget e \/ l = LOutOfBand e) => held_calms l a _ _ Hl Hg)
    by eauto. done.
Qed.

Lemma may_run_calms config json_error original caller admitted mode request tr tr' :
  calms tr tr' -> may_run config json_error original caller admitted mode request tr ->
  may_run config json_error original caller admitted mode request tr'.
Proof.
  intros Hc (r1 & e1 & ef & e & H1 & H2 & H3 & H4 & H5). pose proof (calms_incl _ _ Hc) as Hi.
  exists r1, e1, ef, e. split_and!.
  - by eapply granted_incl.
  - by eapply bound_session_incl.
  - by eapply guard_held_calms.
  - destruct e; [|done]. by eapply fenced_incl.
  - by eapply recorded_incl.
Qed.

Section whole.
Context (config : Config) (json_error to_string : Value -> string) (sha256 : string -> string).
Context (original : ApiRequest) (caller : Caller) (admitted : bool) (mode : RequestMode).

Definition executes_admitted (tr : trace GatewaySig) (o : Op.op) : Prop :=
  match o with
  | Op.Execute r c m =>
      c = caller /\ m = mode /\ may_run config json_error original caller admitted mode r tr
  | _ => True
  end.

Lemma ea_quiet tr o : quiet o = true -> executes_admitted tr o.
Proof. by destruct o. Qed.

Lemma ea_locks tr l a : executes_admitted tr (Op.Lock l a) /\ executes_admitted tr (Op.Unlock l a).
Proof. done. Qed.

Notation wpx := (wpa executes_admitted true).
Ltac gox := wpa_go; try exact I.
Ltac calmly := first [assumption | apply calms_refl | apply calms_cons; [exact I|]; calmly
  | match goal with
    | H : grows ?a ?b |- calms _ ?b => apply (calms_trans _ a _); [calmly|by apply grows_calms]
    | H : calms ?a ?b |- calms _ ?b => apply (calms_trans _ a _); [calmly|exact H]
    end ].

Lemma execute_shared_read_runs {S : Type} request e (s : S) tr :
  may_run config json_error original caller admitted mode request tr ->
  wpx (execute_shared_read config to_string request caller mode e) (fun _ _ tr' => calms tr tr') s tr.
Proof.
  intros Hm. assert (forall tr1 (Q : Result Error OperationResult -> S -> trace GatewaySig -> Prop),
    calms tr tr1 -> (forall r tr2, calms tr tr2 -> Q r s tr2) ->
    wpx (execute_method request caller mode) Q s tr1) as Hx.
  { intros tr1 Q H1 HQ. unfold execute_method. gox. gox. gox.
    - cbn. split_and!; [done..|]. by eapply may_run_calms.
    - gox. apply HQ. calmly. }
  unfold execute_shared_read. destruct e as [e|]; [|apply Hx; [calmly|done]].
  gox. set (Qr := fun (r : Result Error bool) (s : S) tr => _).
  assert (forall b tr1, calms tr tr1 -> Qr (Ok b) s tr1) as Hr.
  { intros b tr1 H1. unfold Qr. destruct b; [|apply Hx; [done|]; intros; calmly].
    gox. gox. destruct x; [|gox; calmly].
    gox. gox. set (Qe := fun (r : Result Error OperationResult) (s : S) tr => _).
    assert (forall r tr2, calms tr tr2 -> Qe r s tr2) as He.
    { intros r tr2 H2. unfold Qe. do 3 gox. calmly. }
    clearbody Qe. clear Qr. unfold shared_read.
    gox. do 3 gox. gox. destruct x as [[]|err]; [|apply He; calmly]. do 7 gox. gox.
    destruct (results _ !! _); [gox; apply He; calmly|]. gox. apply Hx; [calmly|].
    intros [res|err] tr2 H2; [|by apply He]. gox. do 3 gox. gox. destruct x3 as [[]|err]; [|apply He; calmly].
    gox. gox. destruct (negb _); [gox; apply He; calmly|].
    destruct (is_partial res); [gox; apply He; calmly|]. do 3 gox. apply He. calmly. }
  destruct (shareable_read request).
  - do 3 gox. apply Hr. calmly.
  - gox. apply Hr. calmly.
Qed.

Ltac quietly := apply quiet_wpa; [apply ea_quiet|].

Lemma execute_admitted_runs {S : Type} looked_up e1 request effect e (s : S) tr :
  granted config original caller admitted mode looked_up e1 effect tr ->
  bound_session config json_error looked_up caller e1 request e tr ->
  guard_held request effect e tr ->
  wpx (execute_admitted config to_string request caller mode effect e) (fun _ _ _ => True) s tr.
Proof.
  intros Hg Hb Hh. unfold execute_admitted. gox. quietly. intros [baseline|err] tr1 H1; [|done].
  gox. set (Qf := fun (r : Result Error unit) (s : S) tr => _).
  assert (forall tr2, grows tr1 tr2 ->
    match e with Some e => fenced request caller mode effect e tr2 | None => True end ->
    Qf (Ok tt) s tr2) as Hf.
  { intros tr2 H2 Hfen. unfold Qf. gox.
    set (Qb := fun (r : Result Error unit) (s : S) tr => _).
    assert (forall tr3, calms tr2 tr3 -> Qb (Ok tt) s tr3) as Hbump.
    { intros tr3 H3. unfold Qb. gox.
      apply (record_admission_spec config _ _ ea_quiet).
      intros [[]|err] tr4 H4 Hrec; [|done]. gox. gox. eapply wpa_mono.
      - apply execute_shared_read_runs. exists looked_up, e1, effect, e.
        assert (calms tr tr4) as Hc by calmly. pose proof (calms_incl _ _ Hc) as Hi. split_and!.
        + by eapply granted_incl.
        + by eapply bound_session_incl.
        + by eapply guard_held_calms.
        + destruct e; [|done]. eapply fenced_incl; [|done]. apply calms_incl. calmly.
        + by apply Hrec.
      - intros result s' tr5 _. gox. quietly. intros [result'|err] tr6 H6; [|done].
        gox. quietly. intros [completed|err] tr7 H7; [|done]. gox.
        set (Qw := fun (r : Result Error (list Warning)) (s : S) tr => _).
        assert (forall r tr8, Qw r s' tr8) as Hw.
        { intros [w|err] tr8; unfold Qw; [|done]. gox. gox. destruct result' as [res|err]; [|done].
          quietly. done. }
        destruct completed as [ce|]; [|gox; apply Hw].
        destruct (negb _ && _); [|gox; apply Hw].
        unfold record_completion. gox. gox. gox. gox. quietly. intros r tr8 H8.
        gox. apply wpa_unwrap; [done|]. intros v _. gox. gox. gox. apply Hw. }
    destruct e as [e|].
    - unfold perform_when. destruct (negb _); [gox|gox]; apply Hbump; calmly.
    - gox. apply Hbump. calmly. }
  destruct e as [e|].
  - apply (fences_spec config _ _ ea_quiet).
    intros [[]|err] tr2 H2 Hfen; [|done]. apply Hf; [done|]. by apply Hfen.
  - gox. apply Hf; [grow|done].
Qed.

Lemma dispatch_checked_runs created tr :
  (forall l a, (exists e, l = LTarget e \/ l = LOutOfBand e) -> held l a tr = 0%Z) ->
  wpx (dispatch_checked config json_error to_string caller admitted mode) (fun _ _ _ => True)
    (MkDispatching original created) tr.
Proof.
  intros Hz. unfold dispatch_checked. gox.
  apply (admit_spec config _ _ ea_quiet).
  intros [[e1 effect]|err] d1 tr1 H1 _ Hg; [|done]. specialize (Hg e1 effect eq_refl). cbn in Hg.
  gox. apply (with_session_spec config json_error _ _ ea_quiet eq_refl).
  intros [e|err] d2 tr2 H2 Hb; [|done]. specialize (Hb e eq_refl). gox. gox.
  apply (guarded_spec _ _ ea_quiet eq_refl ea_locks).
  - destruct e as [e|]; [|done]. intros a.
    assert (calms tr tr2) as Hc by calmly.
    split; (rewrite (held_calms _ _ tr tr2); [|by eauto|done]; apply Hz; by eauto).
  - intros tr3 H3 Hh. eapply execute_admitted_runs; [| |done].
    + eapply granted_incl; [|exact Hg]. etrans; [|exact H3]. by apply grows_incl.
    + by eapply bound_session_incl.
Qed.

Definition no_guards (tr : trace GatewaySig) : Prop :=
  forall l a, (exists e, l = LTarget e \/ l = LOutOfBand e) -> held l a tr = 0%Z.

Lemma no_guards_calms tr tr' : calms tr tr' -> no_guards tr -> no_guards tr'.
Proof. intros Hc Hz l a Hl. rewrite (held_calms l a tr tr' Hl Hc). by apply Hz. Qed.

Lemma dispatch_once_runs created tr :
  no_guards tr ->
  wpx (dispatch_once config json_error to_string caller admitted mode) (fun _ _ _ => True)
    (MkDispatching original created) tr.
Proof.
  intros Hz. unfold dispatch_once. gox. gox. gox. quietly. intros [initial|err] tr1 H1; [|done].
  gox. gox. eapply wpa_mono.
  { apply dispatch_checked_runs. apply (no_guards_calms tr); [calmly|done]. }
  intros result d tr2 _. gox. gox. gox.
  set (Qr := fun (r : Result Error ApiResponse) (s : Dispatching) tr => _).
  assert (forall response d tr, Qr (Ok response) d tr) as Hr.
  { intros response d' tr'. unfold Qr. gox. gox. gox. apply wpa_unwrap; [done|]. intros response' _.
    destruct mode; [|gox; done]. unfold bound_response. destruct (_ <=? _)%N; [gox; done|].
    gox. gox. destruct x; gox; done. }
  destruct result as [out|error].
  - apply wpa_unwrap; [done|]. intros a _. apply Hr.
  - gox. unfold failure_state. do 4 gox. gox. quietly. intros [e|err] tr3 H3; [|done].
    destruct (or_else _ _).
    + do 3 gox. gox. apply Hr.
    + gox. gox. apply Hr.
Qed.

Lemma dispatch_inner_runs :
  wpx (dispatch_inner config json_error to_string sha256 caller admitted mode) (fun _ _ _ => True)
    (MkDispatching original None) [].
Proof.
  unfold dispatch_inner. gox. gox. cbn [d_request]. destruct (req_idempotency_key original) as [user_key|].
  2: { apply dispatch_once_runs. by intros ? ? ?. }
  do 4 gox. gox.
  set (Qc := fun (r : Result Error (option ApiResponse)) (s : Dispatching) tr => _).
  set (tr0 := gev (Op.Lock (LRetry x) Exclusive) x0 :: _).
  assert (forall r tr, calms tr0 tr -> Qc r (MkDispatching original None) tr) as Hc.
  { intros [cached|err] tr H; unfold Qc; [|done]. gox.
    set (Qr := fun (r : Result Error ApiResponse) (s : Dispatching) tr => _).
    assert (forall response d tr, Qr (Ok response) d tr) as Hr.
    { intros response d' tr'. unfold Qr. by repeat gox. }
    assert (forall err d tr, Qr (Err err) d tr) as He by done.
    destruct cached as [response|].
    - gox. apply Hr.
    - gox. eapply wpa_mono.
      + apply dispatch_once_runs. apply (no_guards_calms tr0); [done|].
        apply (no_guards_calms []); [|by intros ? ? ?]. subst tr0. calmly.
      + intros [response|err] d tr1 _; [|apply He]. unfold remember_response. repeat gox. apply Hr. }
  clearbody Qc. unfold cached_response. gox. gox. gox.
  set (Qm := fun (r : Result Error _) (s : Dispatching) tr => _).
  assert (forall r tr, calms tr0 tr -> Qm (Ok r) (MkDispatching original None) tr) as Hm.
  { intros r tr H. unfold Qm. destruct r as [response|error].
    - gox. by apply Hc.
    - gox. unfold session_state. gox. quietly. intros [e|err] tr1 H1; [|apply Hc; calmly].
      destruct e as [e|].
      + do 3 gox. gox. apply Hc. calmly.
      + gox. gox. apply Hc. calmly. }
  destruct x1 as [[stored response]|].
  - gox. apply Hm. calmly.
  - gox. apply Hm. calmly.
Qed.
End whole.

(** ** What holds whenever a handler runs, on concrete requests *)

Import Method.

(** The handler a task is about to run. *)
Definition executing {A} (m : prog GatewaySig A) : option (ApiRequest * Caller * RequestMode) :=
  match m with
  | Do (Op.Execute r c mode) _ => Some (r, c, mode)
  | _ => None
  end.

Lemma executing_Some {A} (m : prog GatewaySig A) r c mode :
  executing m = Some (r, c, mode) ->
  exists k, m = Do (E := GatewaySig) (Op.Execute r c mode) k.
Proof. destruct m as [a|[] k]; cbn; intros H; try discriminate. simplify_eq. by exists k. Qed.

(** C7: no handler runs unadmitted: whatever the store, the session actors and
    the other requests answer, when the handler of a request starts, the
    envelope and the parameters were validated, the rate limiter admitted the
    caller, the session belongs to the caller's principal, the profile allows
    the effect of the request (and the range, where an observation profile
    reads memory), the guard of the effect is held, no unknown outcome or lost
    consistency stands in the way, a mutation named the current revision and
    holds control of the session, and the request is in the session's journal
    and, in durable mode, a mutation in the audit table. *)
Theorem handlers_run_admitted config json_error to_string sha256 request caller admitted mode
    m tr r c mode' :
  reaches (dispatch config json_error to_string sha256 request caller admitted mode) [] m tr ->
  executing m = Some (r, c, mode') ->
  c = caller /\ mode' = mode /\ may_run config json_error request caller admitted mode r tr.
Proof.
  intros Hr (k & ->)%executing_Some.
  pose proof (dispatch_inner_runs config json_error to_string sha256 request caller admitted mode) as H.
  unfold wpa in H. by destruct (safe_reaches _ _ _ _ _ _ H Hr) as [Ho _].
Qed.

(** A canonical kill by the holder of a lease. *)
Definition sample_entry : SessionEntry := MkSessionEntry 1 "sess_0123456789abcdef" "alice" LabMutation.
Definition sample_config : Config := Config_default "/tmp" 7 None (Some "/home/u") None.
Definition durable_config : Config :=
  MkConfig (server sample_config) (gdb sample_config) (limits sample_config) Durable
    (output sample_config) (storage sample_config) (artifacts_path sample_config)
    (sqlite sample_config) (sessions_path sample_config) (security sample_config).

Definition sample_write : ApiRequest :=
  MkApiRequest API_VERSION "r1" (Some (se_id sample_entry)) TargetKill (Some 0%N) None
    (Object [("lease_id", Str "lease_1")]).

Definition sample_state : SessionState := creating (se_id sample_entry).
Definition sample_lease : WriteLease :=
  MkWriteLease "lease_1" (se_id sample_entry) "alice" 1000000 1.

(** A quiet surrounding that knows one session. *)
Definition sample_answers (o : Op.op) : Op.answer o :=
  match o return Op.answer o with
  | Op.Lock _ _ | Op.Unlock _ _ => tt
  | Op.LockWithin _ => true
  | Op.RetryEntry _ => 1%positive
  | Op.RetryRelease _ _ | Op.RetryDrop _ => tt
  | Op.CachedResponse _ => None
  | Op.CacheResponse _ _ _ => tt
  | Op.StoredResponse _ _ => Ok None
  | Op.StoreResponse _ _ _ => Ok tt
  | Op.FindSession id => if decide (id = se_id sample_entry) then Some sample_entry else None
  | Op.SessionEntries | Op.TakeSessions => []
  | Op.InsertSession _ => tt
  | Op.RemoveSession _ _ => (false, [])
  | Op.RetireState _ _ => tt
  | Op.RetiredState _ => None
  | Op.TryAcquireSlot => true
  | Op.DropSlot | Op.TakeSlot _ => tt
  | Op.NewEntry id owner profile _ => MkSessionEntry 2 id owner profile
  | Op.GetController _ => Some (CLease sample_lease)
  | Op.SetController _ _ => tt
  | Op.NextLeaseGeneration _ => 1%N
  | Op.BumpMutation _ => tt
  | Op.MutationGeneration _ => 1%N
  | Op.GetShared _ => SharedReads_default
  | Op.SetShared _ _ => tt
  | Op.SetShuttingDown => tt
  | Op.ShuttingDown => false
  | Op.State _ => sample_state
  | Op.Capabilities _ => Results.MkSessionCapabilities Null ∅ ∅ ∅ ∅ []
  | Op.OutputEvidence _ => Null
  | Op.IsFinished _ => false
  | Op.StartSession _ => Ok (se_id sample_entry)
  | Op.CloseStarted _ | Op.CloseSession _ | Op.RecordApi _ _ | Op.RecordEvent _ _
  | Op.FlushJournal _ => Ok tt
  | Op.Reconcile _ => Ok Null
  | Op.BindOperation _ _ => Ok tt
  | Op.Execute _ _ _ => Ok (Legacy (Object []))
  | Op.RequireActive | Op.CheckRate _ => Ok tt
  | Op.NowMs => 900%N
  | Op.NewLeaseId => "lease_1"
  | Op.ReadMaps _ => None
  | Op.PutArtifact _ _ _ => Ok "a"
  | Op.ScanJournal _ _ => Ok Null
  | Op.ReadTranscript _ _ _ => Ok (0%N, [], 0%N)
  | Op.SessionOwner _ => Ok None
  | Op.GetSession _ => Ok None
  | Op.ListSessionOwners => Ok []
  | Op.SetSessionOwner _ _ | Op.UpsertLease _ | Op.DeleteLease _ | Op.MaintainStorage _
  | Op.Audit _ | Op.AuditResult _ _ _ => Ok tt
  end.

Definition is_execute (o : Op.op) : bool :=
  match o with Op.Execute _ _ _ => true | _ => false end.

(** The request up to its handler. *)
Definition sample_run := advance (E := GatewaySig) sample_answers is_execute
  (dispatch durable_config (fun _ => "") (fun _ => "") id sample_write (caller_local "alice") false
     Canonical) [].

Lemma handlers_run_admitted_witness :
  executing sample_run.1 = Some (sample_write, caller_local "alice", Canonical) /\
  length sample_run.2 = 13 /\
  may_run durable_config (fun _ => "") sample_write (caller_local "alice") false Canonical
    sample_write sample_run.2.
Proof.
  assert (executing sample_run.1 = Some (sample_write, caller_local "alice", Canonical)) as He
    by (vm_compute; reflexivity).
  split; [exact He|]. split; [vm_compute; reflexivity|].
  eapply (handlers_run_admitted durable_config (fun _ => "") (fun _ => "") id sample_write
    (caller_local "alice") false Canonical); [|exact He].
  apply (advance_reaches (E := GatewaySig)).
Defined.
