(* ===== verification/World.v ===== *)
(** * World: requests in parallel

    The daemon dispatches any number of requests at once.  A world holds what
    the idempotency of requests relies on (the registry of key locks, the
    response cache and the stored responses) and the running tasks; a step
    performs one operation of one task, starts a task, or drops one.  Locks
    exclude each other; everything else may answer anything. *)
From S2P Require Import Prelude Text Json Errors Domain Journal Policy Protocol Access MemoryRange Effects Program Actor Wire Results Config Gateway Sessions Dispatch DispatchProofs.

Import Method.

(** ** The order of a request's idempotency operations *)

Inductive phase :=
| Idle
| Cloned (m : positive)
| Locked (m : positive)
| Asked (m : positive)
| Missed (m : positive)
| Answered (m : positive)
| Saved (m : positive)
| Unlocked (m : positive)
| Released (m : positive)
| Dropped.

Definition next_phase (p : phase) (e : event GatewaySig) : phase :=
  match e with
  | existT (Op.RetryEntry _) m => Cloned m
  | existT (Op.Lock (LRetry _) _) _ => match p with Cloned m => Locked m | _ => p end
  | existT (Op.CachedResponse _) x =>
      match p with Locked m => match x with Some _ => Answered m | None => Asked m end | _ => p end
  | existT (Op.StoredResponse _ _) x =>
      match p with Asked m => match x with Ok None => Missed m | _ => Answered m end | _ => p end
  | existT (Op.CacheResponse _ _ _) _ => match p with Missed m => Saved m | _ => p end
  | existT (Op.Unlock (LRetry _) _) _ =>
      match p with Answered m | Saved m => Unlocked m | _ => p end
  | existT (Op.RetryRelease _ _) _ => match p with Unlocked m => Released m | _ => p end
  | existT (Op.RetryDrop _) _ => Dropped
  | _ => p
  end.

Fixpoint phase_of (tr : list (event GatewaySig)) : phase :=
  match tr with
  | [] => Idle
  | e :: tr => next_phase (phase_of tr) e
  end.

(** What a request with the key may do in a phase. *)
Definition in_order (key hash : string) (p : phase) (o : Op.op) : Prop :=
  match o with
  | Op.RetryEntry k => p = Idle /\ k = key
  | Op.Lock (LRetry m) a => p = Cloned m /\ a = Exclusive
  | Op.Unlock (LRetry m) a => (p = Answered m \/ p = Saved m) /\ a = Exclusive
  | Op.LockWithin (LRetry _) => False
  | Op.CachedResponse k => k = key /\ exists m, p = Locked m
  | Op.StoredResponse k h => k = key /\ h = hash /\ exists m, p = Asked m
  | Op.StoreResponse k h _ => k = key /\ h = hash /\ exists m, p = Missed m
  | Op.CacheResponse k h _ => k = key /\ h = hash /\ exists m, p = Missed m
  | Op.RetryRelease k m => k = key /\ p = Unlocked m
  | Op.RetryDrop m => p = Released m
  | Op.FindSession _ | Op.State _ => True
  | _ => exists m, p = Missed m
  end.

(** Operations other than those of idempotency. *)
Definition ordinary (o : Op.op) : Prop :=
  match o with
  | Op.RetryEntry _ | Op.RetryRelease _ _ | Op.RetryDrop _ | Op.CachedResponse _
  | Op.CacheResponse _ _ _ | Op.StoredResponse _ _ | Op.StoreResponse _ _ _
  | Op.Lock (LRetry _) _ | Op.LockWithin (LRetry _) | Op.Unlock (LRetry _) _ => False
  | _ => True
  end.

Lemma ordinary_phase o (x : Op.answer o) tr :
  ordinary o -> phase_of (gev o x :: tr) = phase_of tr.
Proof. intros Ho. cbn [phase_of]. destruct o; try done; by destruct l. Qed.

(** The operations through which a request acts: not those of idempotency,
    and not the look at the session that goes with a failure. *)
Definition works (o : Op.op) : bool :=
  match o with
  | Op.RetryEntry _ | Op.RetryRelease _ _ | Op.RetryDrop _ | Op.CachedResponse _
  | Op.CacheResponse _ _ _ | Op.StoredResponse _ _ | Op.StoreResponse _ _ _
  | Op.Lock (LRetry _) _ | Op.LockWithin (LRetry _) | Op.Unlock (LRetry _) _
  | Op.FindSession _ | Op.State _ => false
  | _ => true
  end.

Fixpoint worked (tr : list (event GatewaySig)) : bool :=
  match tr with
  | [] => false
  | e :: tr => works (projT1 e) || worked tr
  end.

Lemma ordinary_in_order key hash m o : ordinary o -> in_order key hash (Missed m) o.
Proof. destruct o; try done; try (destruct l; try done); intros _; cbn; eauto. Qed.

Notation Ordinary := (Within (E := GatewaySig) ordinary).

Ltac within_step :=
  cbv beta iota zeta;
  lazymatch goal with
  | |- forall _, _ => intros ?
  | |- Within _ (mret _) => apply Within_ret
  | |- Within _ (local _) => apply Within_local
  | |- Within _ (check _) => apply Within_check
  | |- Within _ (do ?o) => exact (Within_perform (E := GatewaySig) _ o I)
  | |- Within _ (attempt _) => apply Within_attempt
  | |- Within _ (ask _) => unfold ask
  | |- Within _ (scoped _ _ _ _) =>
      apply Within_scoped; [intros _; split|]
  | |- Within _ (perform_when _ _) => apply Within_when
  | |- Within _ (mbind _ _) => apply Within_bind
  | |- Within _ (match ?x with _ => _ end) => destruct x
  end.
Ltac within_tac := repeat within_step.

Section ordinary.
Context {S : Type} (config : Config) (json_error to_string : Value -> string).

Lemma finished_among_ordinary l : Ordinary (finished_among (S := S) l).
Proof. induction l; cbn [finished_among]; unfold is_retirable; within_tac; apply IHl. Qed.

Lemma retire_session_ordinary id e : Ordinary (retire_session (S := S) id e).
Proof. unfold retire_session, retire_state_if_gap, drop_controller. within_tac. Qed.

Lemma retire_all_ordinary l : Ordinary (retire_all (S := S) l).
Proof.
  induction l; cbn [retire_all]; within_tac; [apply retire_session_ordinary|apply IHl].
Qed.

Lemma session_create_ordinary r c m :
  Ordinary (session_create (S := S) config json_error r c m).
Proof.
  unfold session_create, acquire_slot, retire_finished_sessions, creation_lease, store_ownership,
    or_drop_slot.
  within_tac; first [apply finished_among_ordinary|apply retire_all_ordinary|apply retire_session_ordinary].
Qed.

Lemma fences_ordinary r c m ef e : Ordinary (fences (S := S) config r c m ef e).
Proof. unfold fences, preconditions, with_controller, audit. within_tac. Qed.

Lemma execute_shared_read_ordinary r c m e :
  Ordinary (execute_shared_read (S := S) config to_string r c m e).
Proof. unfold execute_shared_read, shared_read, execute_method. within_tac. Qed.

Lemma execute_admitted_ordinary r c m ef e :
  Ordinary (execute_admitted (S := S) config to_string r c m ef e).
Proof.
  unfold execute_admitted, baseline_of, record_admission, confirm_baseline, completed_entry,
    record_completion, response_state, entry_revision, audit.
  within_tac; first [apply fences_ordinary | apply execute_shared_read_ordinary].
Qed.
End ordinary.

Lemma admit_ordinary config c a m : Ordinary (admit_request config c a m).
Proof.
  unfold admit_request, request_now, set_request, entry_for_request, check_ownership, classified_effect,
    range_effect, check_authorization, entry_revision, audit.
  within_tac.
Qed.

Lemma with_session_ordinary config json_error caller mode e :
  Ordinary (with_session config json_error caller mode e).
Proof.
  unfold with_session, request_now, set_request, dispatching.
  within_tac; first [apply session_create_ordinary | apply retire_session_ordinary].
Qed.

Lemma guarded_ordinary {S A} request effect e (body : method S A) :
  Ordinary body -> Ordinary (guarded request effect e body).
Proof. intros Hb. unfold guarded. within_tac; exact Hb. Qed.

Lemma dispatch_checked_ordinary config json_error to_string caller admitted mode :
  Ordinary (dispatch_checked config json_error to_string caller admitted mode).
Proof.
  unfold dispatch_checked, request_now, dispatching.
  within_tac;
    first [apply admit_ordinary | apply with_session_ordinary
          | apply guarded_ordinary, execute_admitted_ordinary].
Qed.

Lemma dispatch_once_ordinary config json_error to_string caller admitted mode :
  Ordinary (dispatch_once config json_error to_string caller admitted mode).
Proof.
  unfold dispatch_once, failure_state, bound_response, entry_for_request, request_now, dispatching.
  within_tac; apply dispatch_checked_ordinary.
Qed.

(** ** The idempotency of one request *)

Section keyed.
Context (config : Config) (json_error to_string : Value -> string) (sha256 : string -> string)
  (request : ApiRequest) (caller : Caller) (admitted : bool) (mode : RequestMode).

Notation key := (retry_key request caller mode).
Notation hash := (idempotency_fingerprint to_string sha256 request).
Notation wpk := (wpa (fun tr o => in_order key hash (phase_of tr) o) true).

Lemma ordinary_wpk {S A} (m : method S A) k (Q : Result Error A -> S -> trace GatewaySig -> Prop) s tr :
  Ordinary m -> phase_of tr = Missed k ->
  (forall r s' tr', phase_of tr' = Missed k -> Q r s' tr') -> wpk m Q s tr.
Proof.
  intros Hm Hp HQ. unfold wpa. eapply safe_mono.
  - apply (safe_within (E := GatewaySig) ordinary _ (fun tr => phase_of tr = Missed k) _ _ (Hm s) Hp).
    + intros tr' o Ho ->. by apply ordinary_in_order.
    + intros tr' o x Ho <-. by apply ordinary_phase.
  - intros [s' []] tr' H; auto.
Qed.

Lemma cached_response_wpk m (d : Dispatching)
    (Q : Result Error (option ApiResponse) -> Dispatching -> trace GatewaySig -> Prop) tr :
  phase_of tr = Locked m ->
  (forall tr', phase_of tr' = Missed m -> Q (Ok None) d tr') ->
  (forall r tr', phase_of tr' = Answered m -> Q (Ok (Some r)) d tr') ->
  wpk (cached_response request key hash) Q d tr.
Proof.
  intros Hp Hmiss Hhit. unfold cached_response. apply wpa_bind, wpa_do.
  { cbn. eauto. }
  intros memory. apply wpa_bind. set (Qc := fun (r : Result Error _) (s : Dispatching) tr => _).
  assert (forall r tr', (r = Ok None /\ phase_of tr' = Missed m) \/
    (r <> Ok None /\ phase_of tr' = Answered m) -> Qc (Ok r) d tr') as Hc.
  { intros r tr' Hr. unfold Qc. destruct r as [[response|]|error]; destruct Hr as [[Hr H]|[Hr H]];
      try done; [by apply Hhit|by apply Hmiss|].
    apply wpa_bind. unfold session_state, entry_for_request. apply wpa_bind.
    destruct (req_session_id request) as [id|].
    - apply wpa_do; [done|]. intros [e|].
      + apply wpa_bind, wpa_do; [done|]. intros state. by apply Hhit.
      + by apply Hhit.
    - apply wpa_ret, wpa_ret, wpa_ret. by apply Hhit. }
  destruct memory as [[stored response]|].
  - apply wpa_ret. apply Hc. right. split; [by destruct (decide _)|].
    cbn. by rewrite Hp.
  - apply wpa_do.
    { cbn. rewrite Hp. split_and!; eauto. }
    intros answer. apply Hc. cbn. rewrite Hp.
    destruct answer as [[?|]|?]; auto.
Qed.

Lemma dispatch_keyed_in_order user_key :
  req_idempotency_key request = Some user_key ->
  wpk (dispatch_inner config json_error to_string sha256 caller admitted mode)
    (fun _ _ _ => True) (MkDispatching request None) [].
Proof.
  intros Hk. unfold dispatch_inner. apply wpa_bind, wpa_local. cbn [d_request wp gets].
  unfold wp, gets. cbn. rewrite Hk. apply wpa_bind, wpa_do; [done|]. intros mutex.
  apply wpa_bind, wpa_do; [done|]. intros []. apply wpa_bind.
  apply (cached_response_wpk mutex); [done| |].
  - intros tr Hp. apply wpa_bind, wpa_bind. apply (ordinary_wpk _ mutex); [|done|].
    { apply dispatch_once_ordinary. }
    intros [response|e] d tr1 Hp1; [|done]. unfold remember_response.
    apply wpa_bind, wpa_do; [cbn; eauto|]. intros stored.
    apply wpa_bind, wpa_do; [cbn; rewrite Hp1; eauto|]. intros [].
    apply wpa_ret, wpa_bind, wpa_do; [cbn; rewrite Hp1; eauto|]. intros [].
    apply wpa_bind, wpa_do; [cbn; by rewrite Hp1|]. intros [].
    apply wpa_bind, wpa_do; [cbn; by rewrite Hp1|]. intros []. by apply wpa_ret.
  - intros response tr Hp. apply wpa_bind, wpa_ret, wpa_bind, wpa_do; [cbn; rewrite Hp; eauto|].
    intros []. apply wpa_bind, wpa_do; [cbn; by rewrite Hp|]. intros [].
    apply wpa_bind, wpa_do; [cbn; by rewrite Hp|]. intros []. by apply wpa_ret.
Qed.

Lemma dispatch_unkeyed_ordinary tr :
  req_idempotency_key request = None ->
  wpa (E := GatewaySig) (fun _ o => ordinary o) true
    (dispatch_inner config json_error to_string sha256 caller admitted mode)
    (fun _ _ _ => True) (MkDispatching request None) tr.
Proof.
  intros Hk. unfold dispatch_inner. apply wpa_bind, wpa_local. unfold wp, gets. cbn. rewrite Hk.
  unfold wpa. eapply safe_mono.
  - apply (safe_within (E := GatewaySig) ordinary _ (fun _ => True)); [|done..].
    apply (dispatch_once_ordinary config json_error to_string caller admitted mode).
  - by intros [s []] tr'.
Qed.
End keyed.

(** ** Requests in parallel

    The daemon dispatches any number of requests at once.  A world holds what
    idempotent requests share (the registry of key mutexes and the response
    cache) and the running tasks; a step starts a task, performs one operation
    of one, or drops one (a cancelled future, or one that panicked).  Locks
    exclude each other, the registry and the cache answer as they are, and
    everything else, the durable store included, may answer anything. *)

Import Method.

(** [Gateway::idempotency_locks] and [Gateway::idempotency].  A mutex is the
    address of its [Arc]; [forgotten] are the keys the cache has evicted. *)
Record Keys := MkKeys {
  registry : gmap string positive;
  next_mutex : positive;
  cache : gmap string (string * ApiResponse);
  forgotten : gset string
}.

Record Task := MkTask {
  t_request : ApiRequest;
  t_caller : Caller;
  t_admitted : bool;
  t_mode : RequestMode;
  t_prog : prog GatewaySig (Dispatching * outcome Error ApiResponse);
  t_trace : list (event GatewaySig);
  t_live : bool
}.

Record World := MkWorld {
  keys : Keys;
  tasks : gmap positive Task
}.

(** *** The registry and the cache *)

Definition MAX_IDEMPOTENT_RESPONSES : nat := 1024.

(** [or_insert_with]. *)
Definition retry_entry (key : string) (k : Keys) : positive * Keys :=
  match registry k !! key with
  | Some mutex => (mutex, k)
  | None =>
      (next_mutex k,
       MkKeys (<[key := next_mutex k]> (registry k)) (Pos.succ (next_mutex k)) (cache k) (forgotten k))
  end.

Definition remove_mutex (key : string) (k : Keys) : Keys :=
  MkKeys (delete key (registry k)) (next_mutex k) (cache k) (forgotten k).

(** [pop_first] of a full cache. *)
Definition evicted (k : Keys) : option string :=
  if (MAX_IDEMPOTENT_RESPONSES <=? base.size (cache k))%nat then btree_first_key (cache k) else None.

Definition cache_response (key hash : string) (response : ApiResponse) (k : Keys) : Keys :=
  let kept := match evicted k with Some old => delete old (cache k) | None => cache k end in
  MkKeys (registry k) (next_mutex k) (<[key := (hash, response)]> kept)
    (match evicted k with Some old => {[old]} ∪ forgotten k | None => forgotten k end).

(** *** The tasks *)

Definition t_key (t : Task) : option string :=
  _ ← req_idempotency_key (t_request t); Some (retry_key (t_request t) (t_caller t) (t_mode t)).

Definition t_phase (t : Task) : phase := phase_of (t_trace t).

(** The mutex whose [Arc] a task holds a clone of. *)
Definition cloned (p : phase) : option positive :=
  match p with
  | Cloned m | Locked m | Asked m | Missed m | Answered m | Saved m | Unlocked m | Released m => Some m
  | Idle | Dropped => None
  end.

(** [strong_count] is two: the registry's and that of task [i]. *)
Definition sole_holder (w : World) (i : positive) (mutex : positive) : Prop :=
  forall j t, tasks w !! j = Some t -> t_live t = true -> cloned (t_phase t) = Some mutex -> j = i.

Definition available (w : World) (l : lock) (a : access) : Prop :=
  forall j t, tasks w !! j = Some t -> t_live t = true ->
    (held l Exclusive (t_trace t) <= 0)%Z /\ (a = Exclusive -> (held l Shared (t_trace t) <= 0)%Z).

(** The answers an operation of task [i] may get, and what it changes. *)
Definition replies (w : World) (i : positive) (o : Op.op) : Op.answer o -> Keys -> Prop :=
  match o return Op.answer o -> Keys -> Prop with
  | Op.Lock l a => fun _ k => available w l a /\ k = keys w
  | Op.LockWithin l => fun x k => (x = true -> available w l Exclusive) /\ k = keys w
  | Op.RetryEntry key => fun x k => retry_entry key (keys w) = (x, k)
  | Op.RetryRelease key mutex => fun _ k =>
      (registry (keys w) !! key = Some mutex /\ sole_holder w i mutex /\ k = remove_mutex key (keys w)) \/
      (~ (registry (keys w) !! key = Some mutex /\ sole_holder w i mutex) /\ k = keys w)
  | Op.CachedResponse key => fun x k => x = cache (keys w) !! key /\ k = keys w
  | Op.CacheResponse key hash response => fun _ k => k = cache_response key hash response (keys w)
  | _ => fun _ k => k = keys w
  end.

Definition continue (t : Task) (m : prog GatewaySig (Dispatching * outcome Error ApiResponse))
    (tr : list (event GatewaySig)) : Task :=
  MkTask (t_request t) (t_caller t) (t_admitted t) (t_mode t) m tr true.

Definition dropped (t : Task) : Task :=
  MkTask (t_request t) (t_caller t) (t_admitted t) (t_mode t) (t_prog t) (t_trace t) false.

Section world.
Context (config : Config) (json_error to_string : Value -> string) (sha256 : string -> string).

Definition spawned (request : ApiRequest) (caller : Caller) (admitted : bool) (mode : RequestMode)
    : Task :=
  MkTask request caller admitted mode
    (dispatch config json_error to_string sha256 request caller admitted mode) [] true.

Inductive step (w : World) : World -> Prop :=
| step_spawn i request caller admitted mode :
    tasks w !! i = None ->
    step w (MkWorld (keys w) (<[i := spawned request caller admitted mode]> (tasks w)))
| step_operation i t o (g : Op.answer o -> prog GatewaySig _) x k :
    tasks w !! i = Some t -> t_live t = true -> t_prog t = Do (E := GatewaySig) o g ->
    replies w i o x k ->
    step w (MkWorld k (<[i := continue t (g x) (gev o x :: t_trace t)]> (tasks w)))
| step_drop i t :
    tasks w !! i = Some t -> (forall d r, t_prog t <> Ret (d, Done r)) ->
    step w (MkWorld (keys w) (<[i := dropped t]> (tasks w))).

(** The worlds of a daemon that starts without requests. *)
Definition initial_world : World := MkWorld (MkKeys ∅ 1 ∅ ∅) ∅.

Definition reachable (w : World) : Prop := rtc step initial_world w.

(** *** What a task has done *)

Definition t_start (t : Task) : prog GatewaySig (Dispatching * outcome Error ApiResponse) :=
  dispatch config json_error to_string sha256 (t_request t) (t_caller t) (t_admitted t) (t_mode t).

Definition obeys (t : Task) (tr : trace GatewaySig) (o : Op.op) : Prop :=
  match t_key t with
  | Some key => in_order key (idempotency_fingerprint to_string sha256 (t_request t)) (phase_of tr) o
  | None => ordinary o
  end.

Lemma t_start_obeys t : safe (E := GatewaySig) (obeys t) (fun _ _ => True) (t_start t) [].
Proof.
  unfold t_start, dispatch. destruct (req_idempotency_key (t_request t)) as [k|] eqn:Ek.
  - pose proof (dispatch_keyed_in_order config json_error to_string sha256 (t_request t) (t_caller t)
      (t_admitted t) (t_mode t) k Ek) as H.
    unfold wpa in H. unfold obeys, t_key. rewrite Ek. cbn. by apply (safe_mono _ _ _ _ _ H).
  - pose proof (dispatch_unkeyed_ordinary config json_error to_string sha256 (t_request t)
      (t_caller t) (t_admitted t) (t_mode t) [] Ek) as H.
    unfold wpa in H. unfold obeys, t_key. rewrite Ek. cbn. by apply (safe_mono _ _ _ _ _ H).
Qed.

(** *** Traces of idempotent requests *)

Definition locked_by (p : phase) : option positive :=
  match p with
  | Locked m | Asked m | Missed m | Answered m | Saved m => Some m
  | _ => None
  end.

Definition past_miss (p : phase) : bool :=
  match p with
  | Missed _ | Saved _ | Unlocked _ | Released _ | Dropped => true
  | _ => false
  end.

Definition is_ordinary (o : Op.op) : bool :=
  match o with
  | Op.RetryEntry _ | Op.RetryRelease _ _ | Op.RetryDrop _ | Op.CachedResponse _
  | Op.CacheResponse _ _ _ | Op.StoredResponse _ _ | Op.StoreResponse _ _ _
  | Op.Lock (LRetry _) _ | Op.LockWithin (LRetry _) | Op.Unlock (LRetry _) _ => false
  | _ => true
  end.

Lemma is_ordinary_true o : is_ordinary o = true -> ordinary o.
Proof. destruct o; cbn; try done; by destruct l. Qed.

Section keyed.
Context (key hash : string).
Notation obeyed := (happened (E := GatewaySig) (fun tr o => in_order key hash (phase_of tr) o)).

Lemma ordinary_held m a o x tr :
  ordinary o -> held (LRetry m) a (gev o x :: tr) = held (LRetry m) a tr.
Proof.
  intros Ho. cbn [held]. destruct o; try done; cbn; try (by destruct l).
  destruct x; [|done]. by destruct l.
Qed.

Lemma held_retry tr m :
  obeyed tr -> held (LRetry m) Exclusive tr = if decide (locked_by (phase_of tr) = Some m) then 1%Z else 0%Z.
Proof.
  induction tr as [|[o x] tr IH]; [done|]. intros [Ho Hh]. specialize (IH Hh).
  cbn [projT1] in Ho. destruct (is_ordinary o) eqn:Eo.
  - apply is_ordinary_true in Eo. change (existT o x) with (gev o x).
    by rewrite ordinary_held, ordinary_phase.
  - cbn [held phase_of]. rewrite IH. clear IH.
    destruct o; try done; try (destruct l; try done); cbn in Ho |- *;
      destruct (phase_of tr); try done; destruct_and?; destruct_or?; simplify_eq;
      try first [destruct x as [[?|]|?] | destruct x as [?|]]; cbn; repeat (case_decide; try done);
      naive_solver.
Qed.

Lemma worked_past_miss tr : obeyed tr -> worked tr = true -> past_miss (phase_of tr) = true.
Proof.
  induction tr as [|[o x] tr IH]; [done|]. intros [Ho Hh]. specialize (IH Hh).
  cbn [projT1 worked] in Ho |- *. intros Hw.
  destruct (works o) eqn:Ew.
  - assert (ordinary o) as Hord by (destruct o; try done; by destruct l).
    change (existT o x) with (gev o x). rewrite ordinary_phase by done.
    destruct o; try done; try (destruct l; try done); destruct Ho as [m Ho]; by rewrite Ho.
  - cbn [orb] in Hw. specialize (IH Hw). cbn [phase_of].
    destruct o; try done; try (destruct l; try done); cbn in Ho |- *; destruct_and?;
      destruct (phase_of tr); try done; naive_solver.
Qed.
End keyed.

(** *** The invariant *)

(** The mutex a task relies on: from its clone to its release. *)
Definition relies_on (p : phase) : option positive :=
  match p with Released _ => None | _ => cloned p end.

Definition missing (p : phase) : bool :=
  match p with Asked _ | Missed _ => true | _ => false end.

Definition has_missed (p : phase) : bool := match p with Missed _ => true | _ => false end.

Definition retained (k : Keys) (key : string) : Prop := is_Some (cache k !! key) \/ key ∈ forgotten k.

Definition at_work (w : World) (i : positive) (t : Task) : Prop :=
  tasks w !! i = Some t /\ t_live t = true.

Record Inv (w : World) : Prop := {
  inv_reaches i t : tasks w !! i = Some t -> reaches (t_start t) [] (t_prog t) (t_trace t);
  inv_locks i j t u l a : at_work w i t -> at_work w j u -> i <> j ->
    (1 <= held l Exclusive (t_trace t))%Z -> (held l a (t_trace u) <= 0)%Z;
  inv_mutex i t key m : at_work w i t -> t_key t = Some key -> relies_on (t_phase t) = Some m ->
    registry (keys w) !! key = Some m;
  inv_missing i t key : at_work w i t -> t_key t = Some key -> missing (t_phase t) = true ->
    cache (keys w) !! key = None;
  inv_retained i t key : at_work w i t -> t_key t = Some key -> worked (t_trace t) = true ->
    has_missed (t_phase t) = false -> retained (keys w) key;
  inv_once i j t u key : at_work w i t -> at_work w j u -> i <> j ->
    t_key t = Some key -> t_key u = Some key ->
    worked (t_trace t) = true -> worked (t_trace u) = true -> key ∈ forgotten (keys w)
}.

Lemma inv_happened w i t : Inv w -> tasks w !! i = Some t ->
  happened (E := GatewaySig) (obeys t) (t_trace t).
Proof.
  intros HI Ht. apply (happened_reaches _ _ _ _ _ _ (t_start_obeys t) I (inv_reaches w HI i t Ht)).
Qed.

Lemma inv_obeys w i t o (g : Op.answer o -> prog GatewaySig _) : Inv w -> tasks w !! i = Some t ->
  t_prog t = Do (E := GatewaySig) o g -> obeys t (t_trace t) o.
Proof.
  intros HI Ht Ho. pose proof (inv_reaches w HI i t Ht) as Hr. rewrite Ho in Hr.
  by destruct (safe_reaches _ _ _ _ _ _ (t_start_obeys t) Hr) as [H _].
Qed.

Lemma inv_held w i t key m : Inv w -> tasks w !! i = Some t -> t_key t = Some key ->
  locked_by (t_phase t) = Some m -> held (LRetry m) Exclusive (t_trace t) = 1%Z.
Proof.
  intros HI Ht Hk Hm. pose proof (inv_happened w i t HI Ht) as Hh. unfold obeys in Hh.
  rewrite Hk in Hh. by rewrite (held_retry _ _ _ _ Hh), decide_True.
Qed.

(** The lock of a key is held by one task at a time. *)
Lemma one_per_key w i j t u key m m' : Inv w -> at_work w i t -> at_work w j u ->
  t_key t = Some key -> t_key u = Some key ->
  locked_by (t_phase t) = Some m -> locked_by (t_phase u) = Some m' -> i = j.
Proof.
  intros HI Hi Hj Hk Hk' Hm Hm'.
  assert (forall p m, locked_by p = Some m -> relies_on p = Some m) as Hrel by (by intros []).
  pose proof (inv_mutex w HI i t key m Hi Hk (Hrel _ _ Hm)) as H1.
  pose proof (inv_mutex w HI j u key m' Hj Hk' (Hrel _ _ Hm')) as H2.
  assert (m' = m) as -> by congruence.
  destruct (decide (i = j)) as [|Hne]; [done|].
  pose proof (inv_held w i t key m HI (proj1 Hi) Hk Hm) as H3.
  pose proof (inv_held w j u key m HI (proj1 Hj) Hk' Hm') as H4.
  pose proof (inv_locks w HI i j t u (LRetry m) Exclusive Hi Hj Hne ltac:(lia)). lia.
Qed.

Lemma inv_initial : Inv initial_world.
Proof. split; unfold at_work; cbn; intros; destruct_and?; by rewrite lookup_empty in *. Qed.

Lemma at_work_insert w k i t j u :
  at_work (MkWorld k (<[i := t]> (tasks w))) j u ->
  (j = i /\ u = t /\ t_live t = true) \/ (j <> i /\ at_work w j u).
Proof.
  unfold at_work. cbn. destruct (decide (j = i)) as [->|Hne].
  - rewrite lookup_insert_eq. intros [? ?]. left. naive_solver.
  - rewrite lookup_insert_ne by done. auto.
Qed.

Lemma inv_spawn w i request caller admitted mode :
  Inv w -> tasks w !! i = None ->
  Inv (MkWorld (keys w) (<[i := spawned request caller admitted mode]> (tasks w))).
Proof.
  intros HI Hi. split.
  - intros j t. cbn. rewrite lookup_insert. case_decide; [|apply HI].
    intros [= <-]. apply reaches_here.
  - intros j j' t u l a [(-> & -> & _)|[? H1]]%at_work_insert [(-> & -> & _)|[? H2]]%at_work_insert;
      cbn [t_trace spawned held]; try done; try lia. by eapply (inv_locks w HI).
  - intros j t key m [(-> & -> & _)|[? H1]]%at_work_insert; [done|]. by apply (inv_mutex w HI j).
  - intros j t key [(-> & -> & _)|[? H1]]%at_work_insert; [done|]. by apply (inv_missing w HI j).
  - intros j t key [(-> & -> & _)|[? H1]]%at_work_insert; [done|]. by apply (inv_retained w HI j).
  - intros j j' t u key [(-> & -> & _)|[? H1]]%at_work_insert [(-> & -> & _)|[? H2]]%at_work_insert;
      try done. by apply (inv_once w HI j j').
Qed.

Lemma at_work_drop w k i t j u :
  at_work (MkWorld k (<[i := dropped t]> (tasks w))) j u -> j <> i /\ at_work w j u.
Proof. intros [(-> & -> & H)|H]%at_work_insert; done. Qed.

Lemma inv_drop w i t : Inv w -> tasks w !! i = Some t ->
  Inv (MkWorld (keys w) (<[i := dropped t]> (tasks w))).
Proof.
  intros HI Hi. split.
  - intros j u. cbn. rewrite lookup_insert. case_decide; [|apply HI].
    intros [= <-]. exact (inv_reaches w HI i t Hi).
  - intros j j' t' u l a [? H1]%at_work_drop [? H2]%at_work_drop.
    by eapply (inv_locks w HI).
  - intros j t' key m [? H1]%at_work_drop. by apply (inv_mutex w HI j).
  - intros j t' key [? H1]%at_work_drop. by apply (inv_missing w HI j).
  - intros j t' key [? H1]%at_work_drop. by apply (inv_retained w HI j).
  - intros j j' t' u key [? H1]%at_work_drop [? H2]%at_work_drop.
    by apply (inv_once w HI j j').
Qed.

(** *** One operation *)

Lemma replies_ordinary w i o x k : ordinary o -> replies w i o x k -> k = keys w.
Proof.
  intros Ho. destruct o; try done; try (destruct l; try done); cbn; by intros [].
Qed.

Inductive changes (w : World) (i : positive) : Op.op -> Keys -> Prop :=
| changes_nothing o : changes w i o (keys w)
| changes_entry key : registry (keys w) !! key = None ->
    changes w i (Op.RetryEntry key)
      (MkKeys (<[key := next_mutex (keys w)]> (registry (keys w))) (Pos.succ (next_mutex (keys w)))
         (cache (keys w)) (forgotten (keys w)))
| changes_release key mutex : registry (keys w) !! key = Some mutex -> sole_holder w i mutex ->
    changes w i (Op.RetryRelease key mutex) (remove_mutex key (keys w))
| changes_cache key hash response :
    changes w i (Op.CacheResponse key hash response) (cache_response key hash response (keys w)).

Lemma replies_changes w i o x k : replies w i o x k -> changes w i o k.
Proof.
  intros H. destruct (is_ordinary o) eqn:Eo.
  { apply is_ordinary_true in Eo. rewrite (replies_ordinary _ _ _ _ _ Eo H). constructor. }
  destruct o; try done; cbn in H; destruct_and?; subst; try constructor.
  - unfold retry_entry in H. destruct (registry (keys w) !! key) eqn:E; simplify_eq; by constructor.
  - destruct H as [(? & ? & ->)|[_ ->]]; by constructor.
Qed.

Lemma cache_response_lookup key hash response k key' :
  cache (cache_response key hash response k) !! key' = None -> cache k !! key' = None \/
  key' ∈ forgotten (cache_response key hash response k).
Proof.
  unfold cache_response. cbn. rewrite lookup_insert_None. intros [H _].
  destruct (evicted k) as [old|]; [|by left].
  apply lookup_delete_None in H as [->|H]; [right; set_solver|by left].
Qed.

Lemma changes_forgotten w i o k key :
  changes w i o k -> key ∈ forgotten (keys w) -> key ∈ forgotten k.
Proof.
  intros Hc Hf. destruct Hc; cbn; try done. destruct (evicted _); [set_solver|done].
Qed.

Lemma changes_retained w i o k key : changes w i o k -> retained (keys w) key -> retained k key.
Proof.
  intros Hc [Hs|Hf]; [|right; by eapply changes_forgotten].
  destruct Hc as [| | |key0 hash response]; try (by left). unfold retained.
  destruct (cache (cache_response key0 hash response (keys w)) !! key) eqn:E; [by left; eexists|].
  right. destruct (cache_response_lookup _ _ _ _ _ E) as [E'|E']; [|done].
  rewrite E' in Hs. by destruct Hs.
Qed.

Lemma changes_registry w i o k j u key m :
  Inv w -> changes w i o k -> j <> i -> at_work w j u -> t_key u = Some key ->
  relies_on (t_phase u) = Some m -> registry k !! key = Some m.
Proof.
  intros HI Hc Hne Hj Hk Hm. pose proof (inv_mutex w HI j u key m Hj Hk Hm) as Hreg.
  destruct Hc as [o|key' Hn|key' mutex Hs Hsole|]; cbn; try done.
  - rewrite lookup_insert_ne by congruence. done.
  - apply lookup_delete_Some. split; [|done]. intros ->. destruct Hj as [Hj Hl].
    destruct Hne. apply (Hsole j u Hj Hl). rewrite Hreg in Hs. injection Hs as <-.
    by destruct (t_phase u).
Qed.

(** The keyed task itself: how its phase and the shared keys move together. *)
Lemma own_step w i o x k key hash p :
  replies w i o x k -> in_order key hash p o ->
  forall p', p' = next_phase p (gev o x) ->
  (forall m, relies_on p' = Some m -> registry k !! key = Some m \/ (relies_on p = Some m /\
     registry k !! key = registry (keys w) !! key)) /\
  (missing p' = true -> missing p = true /\ k = keys w \/ cache k !! key = None) /\
  (has_missed p = true -> has_missed p' = false -> is_Some (cache k !! key)) /\
  (works o = true -> has_missed p = true /\ has_missed p' = true).
Proof.
  intros Hr Ho p' ->. destruct (is_ordinary o) eqn:Eo.
  - apply is_ordinary_true in Eo. pose proof (replies_ordinary _ _ _ _ _ Eo Hr) as ->.
    assert (next_phase p (gev o x) = p) as -> by (destruct o; try done; by destruct l).
    split_and!; [by right|by left|by intros ->|].
    intros Hw. destruct o; try done; try (destruct l; try done); destruct Ho as [m ->]; done.
  - destruct o; try done; try (destruct l; try done); cbn in Hr, Ho |- *;
      destruct p; try done; destruct_and?; destruct_or?;
      repeat match goal with H : exists _, _ |- _ => destruct H end; simplify_eq; cbn.
    all: try (split_and!; intros; simplify_eq; try done; by auto).
    + unfold retry_entry in Hr. destruct (registry (keys w) !! key) eqn:E; simplify_eq; cbn;
        split_and!; intros; simplify_eq; left; by rewrite ?lookup_insert_eq.
    + destruct (cache (keys w) !! key) eqn:E; split_and!; intros; simplify_eq/=; auto.
    + split_and!; intros; simplify_eq; auto. by rewrite lookup_insert_eq.
    + destruct x as [[?|]|?]; split_and!; intros; simplify_eq/=; auto.
Qed.

(** A task gains a guard only where the lock is available. *)
Lemma replies_held w i o x k tr l a :
  replies w i o x k ->
  (held l a (gev o x :: tr) <= held l a tr)%Z \/ available w l a.
Proof.
  intros Hr. cbn [held]. destruct o; cbn in Hr |- *; try (left; lia).
  - case_decide as E; [|left; lia]. destruct E as [-> ->]. right. by destruct Hr.
  - destruct x; [|left; lia]. case_decide as E; [|left; lia]. destruct E as [-> <-]. right.
    by apply Hr.
  - left. case_decide; lia.
Qed.

(** Every operation of every task keeps the invariant. *)
Section operation.
Context (w : World) (HI : Inv w) (i : positive) (t : Task) (o : Op.op)
  (g : Op.answer o -> prog GatewaySig (Dispatching * outcome Error ApiResponse)) (x : Op.answer o)
  (k : Keys) (Hi : at_work w i t) (Hp : t_prog t = Do (E := GatewaySig) o g)
  (Hr : replies w i o x k).

Notation t' := (continue t (g x) (gev o x :: t_trace t)).
Notation w' := (MkWorld k (<[i := t']> (tasks w))).

Lemma operation_own key : t_key t = Some key ->
  in_order key (idempotency_fingerprint to_string sha256 (t_request t)) (t_phase t) o.
Proof.
  intros Hk. pose proof (inv_obeys w i t o g HI (proj1 Hi) Hp) as H. unfold obeys in H.
  by rewrite Hk in H.
Qed.

Lemma operation_cases j u : at_work w' j u -> (j = i /\ u = t') \/ (j <> i /\ at_work w j u).
Proof. intros [(? & ? & _)|?]%at_work_insert; auto. Qed.

Lemma operation_locks j j' u v l a : at_work w' j u -> at_work w' j' v -> j <> j' ->
  (1 <= held l Exclusive (t_trace u))%Z -> (held l a (t_trace v) <= 0)%Z.
Proof.
  intros [[-> ->]|[Hj Hu]]%operation_cases [[-> ->]|[Hj' Hv]]%operation_cases Hne Hheld; [done| | |].
  - destruct (replies_held w i o x k (t_trace t) l Exclusive Hr) as [Hle|Hav].
    + apply (inv_locks w HI i j' t v l a Hi Hv Hne). cbn [continue t_trace] in Hheld. lia.
    + destruct (Hav j' v (proj1 Hv) (proj2 Hv)) as [He Hs]. destruct a; [by apply Hs|done].
  - destruct (replies_held w i o x k (t_trace t) l a Hr) as [Hle|Hav].
    + pose proof (inv_locks w HI j i u t l a Hu Hi Hj Hheld). cbn [continue t_trace]. lia.
    + destruct (Hav j u (proj1 Hu) (proj2 Hu)) as [He _]. lia.
  - by apply (inv_locks w HI j j' u v).
Qed.

Lemma operation_step key : t_key t = Some key ->
  let p := t_phase t in let p' := t_phase t' in
  (forall m, relies_on p' = Some m -> registry k !! key = Some m \/ (relies_on p = Some m /\
     registry k !! key = registry (keys w) !! key)) /\
  (missing p' = true -> missing p = true /\ k = keys w \/ cache k !! key = None) /\
  (has_missed p = true -> has_missed p' = false -> is_Some (cache k !! key)) /\
  (works o = true -> has_missed p = true /\ has_missed p' = true).
Proof. intros Hk. by apply (own_step w i o x k key _ (t_phase t) Hr (operation_own key Hk)). Qed.

Lemma operation_missing j u key : at_work w' j u -> t_key u = Some key ->
  missing (t_phase u) = true -> cache k !! key = None.
Proof.
  intros [[-> ->]|[Hj Hu]]%operation_cases Hk Hm.
  - destruct (operation_step key Hk) as (_ & H & _). destruct (H Hm) as [[Hm' ->]|H']; [|done].
    by apply (inv_missing w HI i t).
  - pose proof (inv_missing w HI j u key Hu Hk Hm) as Hnone.
    pose proof operation_own as Hown. pose proof (inv_obeys w i t o g HI (proj1 Hi) Hp) as Hob.
    destruct (replies_changes _ _ _ _ _ Hr) as [| | |key' hash response]; try done.
    cbn. rewrite lookup_insert_None. split.
    { destruct (evicted _); [|done]. apply lookup_delete_None. by right. }
    intros ->. destruct Hj. destruct (t_key t) as [kt|] eqn:Ekt.
    + destruct (Hown kt eq_refl) as (<- & _ & m & Hlocked).
      assert (exists m', locked_by (t_phase u) = Some m') as [m' Hm'] by (destruct (t_phase u); try done; by eexists).
      apply (one_per_key w j i u t key m' m HI Hu Hi Hk Ekt Hm'). by rewrite Hlocked.
    + unfold obeys in Hob. by rewrite Ekt in Hob.
Qed.

Lemma operation_retained j u key : at_work w' j u -> t_key u = Some key ->
  worked (t_trace u) = true -> has_missed (t_phase u) = false -> retained k key.
Proof.
  pose proof (replies_changes _ _ _ _ _ Hr) as Hc.
  intros [[-> ->]|[Hj Hu]]%operation_cases Hk Hw Hm.
  - destruct (operation_step key Hk) as (_ & _ & Hin & Hworks). cbn [continue t_trace worked] in Hw.
    apply orb_true_iff in Hw as [Hw|Hw]; [by destruct (Hworks Hw) as [_ ?]; congruence|].
    destruct (has_missed (t_phase t)) eqn:Em; [left; by apply Hin|].
    apply (changes_retained _ _ _ _ _ Hc). by apply (inv_retained w HI i t).
  - apply (changes_retained _ _ _ _ _ Hc). by apply (inv_retained w HI j u).
Qed.

(** A task that works found no retained response. *)
Lemma operation_once j u key : at_work w j u -> j <> i -> t_key t = Some key -> t_key u = Some key ->
  works o = true -> worked (t_trace u) = true -> key ∈ forgotten (keys w).
Proof.
  intros Hu Hne Hk Hk' Hw Hwu. destruct (operation_step key Hk) as (_ & _ & _ & H).
  destruct (H Hw) as [Hm _]. clear H. destruct (has_missed (t_phase u)) eqn:Emu.
  - destruct Hne. destruct (t_phase t) eqn:Et, (t_phase u) eqn:Eu; try done.
    apply (one_per_key w j i u t key m0 m HI Hu Hi Hk' Hk); [by rewrite Eu|by rewrite Et].
  - assert (cache (keys w) !! key = None) as Hn.
    { apply (inv_missing w HI i t key Hi Hk). by destruct (t_phase t). }
    destruct (inv_retained w HI j u key Hu Hk' Hwu Emu) as [[r Hs]|]; [congruence|done].
Qed.

Lemma inv_operation : Inv w'.
Proof.
  pose proof (replies_changes _ _ _ _ _ Hr) as Hc. split.
  - intros j u. cbn. rewrite lookup_insert. case_decide; [|apply (inv_reaches w HI)].
    intros [= <-]. cbn. apply reaches_next. rewrite <- Hp. exact (inv_reaches w HI i t (proj1 Hi)).
  - apply operation_locks.
  - intros j u key m [[-> ->]|[Hj Hu]]%operation_cases Hk Hm.
    + destruct (operation_step key Hk) as (H & _). destruct (H m Hm) as [H'|[H' Heq]]; [done|].
      cbn. rewrite Heq. by apply (inv_mutex w HI i t).
    + by apply (changes_registry w i o k j u).
  - apply operation_missing.
  - apply operation_retained.
  - intros j j' u v key [[-> ->]|[Hj Hu]]%operation_cases [[-> ->]|[Hj' Hv]]%operation_cases Hne
      Hk Hk' Hw Hw'; [done|..]; apply (changes_forgotten _ _ _ _ _ Hc).
    + cbn in Hw. apply orb_true_iff in Hw as [Hw|Hw]; [by eapply operation_once|].
      by apply (inv_once w HI i j' t v).
    + cbn in Hw'. apply orb_true_iff in Hw' as [Hw'|Hw']; [by eapply operation_once|].
      by apply (inv_once w HI j i u t).
    + by apply (inv_once w HI j j' u v).
Qed.
End operation.

Lemma inv_step w w' : Inv w -> step w w' -> Inv w'.
Proof.
  intros HI []; [by apply inv_spawn|by eapply inv_operation|by apply inv_drop].
Qed.

Lemma inv_reachable w : reachable w -> Inv w.
Proof.
  assert (forall a b, rtc step a b -> Inv a -> Inv b) as H by (induction 1; eauto using inv_step).
  intros Hr. apply (H _ _ Hr), inv_initial.
Qed.
End world.

(** *** What holds between the requests of a daemon

    Exclusion of the handlers of a session, and the single execution of an
    idempotent request, over every interleaving; with a concrete run. *)

Import Method.

(** *** Exclusion *)

Definition same_entry (e e' : option SessionEntry) : Prop :=
  exists a b, e = Some a /\ e' = Some b /\ se_ref a = se_ref b.

(** A mutation that waits its turn; an observation of the whole state. *)
Definition excludes (r : ApiRequest) (effect : Effect) : bool :=
  negb (bool_decide (effect = Read)) && negb (is_out_of_band r).
Definition structured_read (r : ApiRequest) (effect : Effect) : bool :=
  bool_decide (effect = Read) && requires_structured_state r effect.

Definition out_of_band_mutation (r : ApiRequest) (effect : Effect) : bool :=
  negb (bool_decide (effect = Read)) && is_out_of_band r.

(** The session and the effect with which a handler was let run. *)
Definition let_run (config : Config) (json_error : Value -> string) (t : Task) (r : ApiRequest)
    (effect : Effect) (e : option SessionEntry) : Prop :=
  exists looked_up e1,
    granted config (t_request t) (t_caller t) (t_admitted t) (t_mode t) looked_up e1 effect (t_trace t) /\
    bound_session config json_error looked_up (t_caller t) e1 r e (t_trace t).

Section props.
Context (config : Config) (json_error to_string : Value -> string) (sha256 : string -> string).

Lemma executing_runs w i t r c m :
  Inv config json_error to_string sha256 w -> at_work w i t -> executing (t_prog t) = Some (r, c, m) ->
  exists effect e, let_run config json_error t r effect e /\ guard_held r effect e (t_trace t).
Proof.
  intros HI [Hi _] (k & Hk)%executing_Some.
  pose proof (inv_reaches _ _ _ _ w HI i t Hi) as Hr. rewrite Hk in Hr.
  pose proof (dispatch_inner_runs config json_error to_string sha256 (t_request t) (t_caller t)
    (t_admitted t) (t_mode t)) as H. unfold wpa in H.
  destruct (safe_reaches _ _ _ _ _ _ H Hr) as [(_ & _ & looked_up & e1 & effect & e & H1 & H2 & H3 & _) _].
  exists effect, e. split; [|done]. by exists looked_up, e1.
Qed.

(** C8: mutations run alone: of two requests whose handlers run at once in the
    same session, under any interleaving of any number of requests, none is a
    mutation (other than an out-of-band interrupt or session control) while
    the other is one too or observes the structured state; and no two
    out-of-band ones run at once. *)
Theorem mutations_run_alone w i j t u r1 c1 m1 r2 c2 m2 :
  reachable config json_error to_string sha256 w -> i <> j ->
  at_work w i t -> at_work w j u ->
  executing (t_prog t) = Some (r1, c1, m1) -> executing (t_prog u) = Some (r2, c2, m2) ->
  exists effect1 e1 effect2 e2,
    let_run config json_error t r1 effect1 e1 /\ let_run config json_error u r2 effect2 e2 /\
    (same_entry e1 e2 ->
       (excludes r1 effect1 = true -> excludes r2 effect2 = false /\ structured_read r2 effect2 = false) /\
       (out_of_band_mutation r1 effect1 = true -> out_of_band_mutation r2 effect2 = false)).
Proof.
  intros HI%inv_reachable Hne Hi Hj Ht Hu.
  destruct (executing_runs w i t _ _ _ HI Hi Ht) as (f1 & e1 & Hl1 & Hg1).
  destruct (executing_runs w j u _ _ _ HI Hj Hu) as (f2 & e2 & Hl2 & Hg2).
  exists f1, e1, f2, e2. split; [done|]. split; [done|]. intros (a & b & -> & -> & Hab).
  destruct Hg1 as (Hx1 & Ho1 & _), Hg2 as (Hx2 & Ho2 & Hs2). rewrite <- Hab in Hx2, Ho2, Hs2.
  pose proof (fun l acc => inv_locks _ _ _ _ w HI i j t u l acc Hi Hj Hne) as Hlocks.
  unfold excludes, out_of_band_mutation, structured_read.
  split.
  - intros [H1 H2]%andb_true_iff. apply negb_true_iff in H1, H2. apply bool_decide_eq_false in H1.
    specialize (Hlocks (LTarget (se_ref a))). rewrite (Hx1 H1 H2) in Hlocks. split.
    + apply not_true_iff_false. intros [H3 H4]%andb_true_iff. apply negb_true_iff in H3, H4.
      apply bool_decide_eq_false in H3. pose proof (Hlocks Exclusive). rewrite (Hx2 H3 H4) in *. lia.
    + apply not_true_iff_false. intros [H3 H4]%andb_true_iff. apply bool_decide_eq_true in H3.
      pose proof (Hlocks Exclusive). pose proof (Hlocks Shared). destruct (Hs2 H3 H4); lia.
  - intros [H1 H2]%andb_true_iff. apply negb_true_iff in H1. apply bool_decide_eq_false in H1.
    specialize (Hlocks (LOutOfBand (se_ref a)) Exclusive). rewrite (Ho1 H1 H2) in Hlocks.
    apply not_true_iff_false. intros [H3 H4]%andb_true_iff. apply negb_true_iff in H3.
    apply bool_decide_eq_false in H3. rewrite (Ho2 H3 H4) in *. lia.
Qed.

(** C9: an idempotent request runs once: of any number of requests with the
    same key, by the same caller and under any interleaving, a second one does
    nothing beyond looking at the session, unless the response of the first
    was evicted from the cache or the first was dropped before its end. *)
Theorem idempotent_requests_run_once w i j t u key :
  reachable config json_error to_string sha256 w -> i <> j ->
  at_work w i t -> at_work w j u -> t_key t = Some key -> t_key u = Some key ->
  key ∉ forgotten (keys w) -> worked (t_trace t) = true -> worked (t_trace u) = false.
Proof.
  intros HI%inv_reachable Hne Hi Hj Ht Hu Hf Hw. apply not_true_iff_false. intros Hwu. apply Hf.
  by apply (inv_once _ _ _ _ w HI i j t u).
Qed.
End props.

(** *** A deterministic world *)

Definition availableb (w : World) (l : lock) (a : access) : bool :=
  forallb (fun it => negb (t_live it.2) ||
    ((held l Exclusive (t_trace it.2) <=? 0)%Z &&
     match a with Exclusive => (held l Shared (t_trace it.2) <=? 0)%Z | Shared => true end))
    (map_to_list (tasks w)).

Definition sole_holderb (w : World) (i mutex : positive) : bool :=
  forallb (fun it => negb (t_live it.2) || negb (bool_decide (cloned (t_phase it.2) = Some mutex)) ||
    bool_decide (it.1 = i)) (map_to_list (tasks w)).

Lemma availableb_spec w l a : availableb w l a = true -> available w l a.
Proof.
  unfold availableb. intros H j t Ht Hl. rewrite forallb_forall in H.
  specialize (H (j, t)). cbn [fst snd] in H. rewrite Hl in H. cbn [negb orb] in H.
  apply andb_true_iff in H as [H1 H2].
  - apply Z.leb_le in H1. split; [done|]. intros ->. by apply Z.leb_le.
  - apply list_elem_of_In. by apply elem_of_map_to_list.
Qed.

Lemma sole_holderb_spec w i mutex : sole_holderb w i mutex = true <-> sole_holder w i mutex.
Proof.
  unfold sole_holderb, sole_holder. rewrite forallb_forall. split.
  - intros H j t Ht Hl Hc. specialize (H (j, t)). cbn [fst snd] in H. rewrite Hl in H.
    rewrite (bool_decide_eq_true_2 _ Hc) in H. cbn [negb orb] in H.
    apply (bool_decide_eq_true (j = i)), H, list_elem_of_In. by apply elem_of_map_to_list.
  - intros H [j t] Hin%list_elem_of_In%elem_of_map_to_list. cbn [fst snd].
    destruct (t_live t) eqn:El; [|done]. cbn [negb orb].
    destruct (bool_decide (cloned _ = _)) eqn:Ec; [|done]. apply bool_decide_eq_true in Ec.
    apply bool_decide_eq_true. by eapply H.
Qed.

(** The surroundings answer as [sample_answers]; locks and keys as they are. *)
Definition respond (w : World) (i : positive) (o : Op.op) : option (Op.answer o * Keys) :=
  match o return option (Op.answer o * Keys) with
  | Op.Lock l a => if availableb w l a then Some (tt, keys w) else None
  | Op.LockWithin l => Some (availableb w l Exclusive, keys w)
  | Op.RetryEntry key => Some (retry_entry key (keys w))
  | Op.RetryRelease key mutex =>
      Some (tt, if bool_decide (registry (keys w) !! key = Some mutex) && sole_holderb w i mutex
                then remove_mutex key (keys w) else keys w)
  | Op.CachedResponse key => Some (cache (keys w) !! key, keys w)
  | Op.CacheResponse key hash response => Some (tt, cache_response key hash response (keys w))
  | o => Some (sample_answers o, keys w)
  end.

Lemma respond_replies w i o x k : respond w i o = Some (x, k) -> replies w i o x k.
Proof.
  destruct o; cbn; intros H; try (by simplify_eq).
  - destruct (availableb w l a) eqn:E; simplify_eq. split; [|done]. by apply availableb_spec.
  - simplify_eq. split; [|done]. apply availableb_spec.
  - simplify_eq. destruct (bool_decide _ && _) eqn:E.
    + left. apply andb_true_iff in E as [E1%bool_decide_eq_true E2%sole_holderb_spec]. done.
    + right. split; [|done]. intros [H1 H2]. apply andb_false_iff in E as [E|E].
      * by apply bool_decide_eq_false in E.
      * by apply sole_holderb_spec in H2; congruence.
Qed.

(** Operations of one task until it stops at the operation of interest. *)
Fixpoint run_task (n : nat) (i : positive) (stop : Op.op -> bool) (w : World) : World :=
  match n with
  | O => w
  | S n =>
      match tasks w !! i with
      | Some t =>
          match t_live t, t_prog t with
          | true, Do o g =>
              if stop o then w
              else match respond w i o with
                   | Some (x, k) =>
                       run_task n i stop
                         (MkWorld k (<[i := continue t (g x) (gev o x :: t_trace t)]> (tasks w)))
                   | None => w
                   end
          | _, _ => w
          end
      | None => w
      end
  end.

Definition start_task config json_error to_string sha256 i (request : ApiRequest) (caller : Caller)
    (w : World) : World :=
  match tasks w !! i with
  | None => MkWorld (keys w) (<[i := spawned config json_error to_string sha256 request caller false
                                       Canonical]> (tasks w))
  | Some _ => w
  end.

Lemma run_task_reachable config json_error to_string sha256 n i stop w :
  reachable config json_error to_string sha256 w ->
  reachable config json_error to_string sha256 (run_task n i stop w).
Proof.
  unfold reachable. revert w. induction n as [|n IH]; intros w Hw; cbn [run_task]; [done|].
  destruct (tasks w !! i) as [t|] eqn:Et; [|done]. destruct (t_live t) eqn:El; [|done].
  destruct (t_prog t) as [a|o g] eqn:Ep; [done|]. destruct (stop o); [done|].
  destruct (respond w i o) as [[x k]|] eqn:Er; [|done]. apply IH. eapply rtc_r; [exact Hw|].
  eapply step_operation; [exact Et|exact El|exact Ep|by apply respond_replies].
Qed.

Lemma start_task_reachable config json_error to_string sha256 i request caller w :
  reachable config json_error to_string sha256 w ->
  reachable config json_error to_string sha256
    (start_task config json_error to_string sha256 i request caller w).
Proof.
  unfold reachable. intros Hw. unfold start_task. destruct (tasks w !! i) eqn:Et; [done|].
  eapply rtc_r; [exact Hw|]. by apply step_spawn.
Qed.

Definition sample_get : ApiRequest :=
  MkApiRequest API_VERSION "r2" (Some (se_id sample_entry)) SessionGet None None (Object []).
Definition sample_keyed : ApiRequest :=
  MkApiRequest API_VERSION "r1" (Some (se_id sample_entry)) TargetKill (Some 0%N) (Some "k1")
    (Object [("lease_id", Str "lease_1")]).

Definition never (o : Op.op) : bool := false.

Definition sample_start i r (w : World) : World :=
  start_task durable_config (fun _ => "") (fun _ => "") id i r (caller_local "alice") w.

(** A kill and a look at the session, both at their handlers. *)
Definition two_handlers : World :=
  run_task 60 2 is_execute (sample_start 2 sample_get
    (run_task 60 1 is_execute (sample_start 1 sample_write initial_world))).

(** Two requests with one key, one after the other. *)
Definition repeated_request : World :=
  run_task 60 2 never (sample_start 2 sample_keyed
    (run_task 60 1 never (sample_start 1 sample_keyed initial_world))).

Definition task_of (i : positive) (w : World) : Task :=
  default (spawned durable_config (fun _ => "") (fun _ => "") id sample_get (caller_local "") false
             Canonical) (tasks w !! i).

Lemma task_of_at_work i w :
  match tasks w !! i with Some t => t_live t | None => false end = true -> at_work w i (task_of i w).
Proof. unfold at_work, task_of. by destruct (tasks w !! i). Qed.

Lemma initial_reachable config json_error to_string sha256 :
  reachable config json_error to_string sha256 initial_world.
Proof. apply rtc_refl. Qed.

Lemma mutations_run_alone_witness :
  executing (t_prog (task_of 1 two_handlers)) = Some (sample_write, caller_local "alice", Canonical) /\
  executing (t_prog (task_of 2 two_handlers)) = Some (sample_get, caller_local "alice", Canonical) /\
  exists effect1 e1 effect2 e2,
    let_run durable_config (fun _ => "") (task_of 1 two_handlers) sample_write effect1 e1 /\
    let_run durable_config (fun _ => "") (task_of 2 two_handlers) sample_get effect2 e2 /\
    (same_entry e1 e2 ->
       (excludes sample_write effect1 = true ->
          excludes sample_get effect2 = false /\ structured_read sample_get effect2 = false) /\
       (out_of_band_mutation sample_write effect1 = true ->
          out_of_band_mutation sample_get effect2 = false)).
Proof.
  assert (executing (t_prog (task_of 1 two_handlers)) =
    Some (sample_write, caller_local "alice", Canonical)) as H1 by (vm_compute; reflexivity).
  assert (executing (t_prog (task_of 2 two_handlers)) =
    Some (sample_get, caller_local "alice", Canonical)) as H2 by (vm_compute; reflexivity).
  split; [exact H1|]. split; [exact H2|].
  apply (mutations_run_alone durable_config (fun _ => "") (fun _ => "") id two_handlers 1 2
    (task_of 1 two_handlers) (task_of 2 two_handlers) sample_write (caller_local "alice") Canonical
    sample_get (caller_local "alice") Canonical); [|done| | |exact H1|exact H2].
  - apply run_task_reachable, start_task_reachable, run_task_reachable, start_task_reachable,
      initial_reachable.
  - apply task_of_at_work. vm_compute. reflexivity.
  - apply task_of_at_work. vm_compute. reflexivity.
Defined.

Lemma idempotent_requests_run_once_witness :
  worked (t_trace (task_of 1 repeated_request)) = true /\
  worked (t_trace (task_of 2 repeated_request)) = false.
Proof.
  assert (worked (t_trace (task_of 1 repeated_request)) = true) as Hw by (vm_compute; reflexivity).
  split; [exact Hw|].
  apply (idempotent_requests_run_once durable_config (fun _ => "") (fun _ => "") id repeated_request
    1 2 (task_of 1 repeated_request) (task_of 2 repeated_request)
    "alice:sess_0123456789abcdef:target.kill:k1"); [|done| | | | | |exact Hw].
  - apply run_task_reachable, start_task_reachable, run_task_reachable, start_task_reachable,
      initial_reachable.
  - apply task_of_at_work. vm_compute. reflexivity.
  - apply task_of_at_work. vm_compute. reflexivity.
  - vm_compute. reflexivity.
  - vm_compute. reflexivity.
  - assert (bool_decide ("alice:sess_0123456789abcdef:target.kill:k1" ∈
      forgotten (keys repeated_request)) = false) as H by (vm_compute; reflexivity).
    by apply bool_decide_eq_false in H.
Defined.
