(* ===== verification/Encoding.v ===== *)
(** * Encoding: bytes, addresses, expressions and parameters of requests
    ([crates/gdb-ai-core/src/gateway/operations/encoding.rs], [request.rs],
    [evaluation.rs])

    The hexadecimal codec, the readers of GDB's numbers and addresses, the
    parameter accessors of the handlers and the syntactic screen of
    expressions evaluated without side effects.  Base64 is a parameter. *)

From S2P Require Import Prelude Text Json Errors Domain Normalize Protocol MemoryRange.

(** ** Characters as text *)

(** [char::encode_utf8]. *)
Definition utf8_encode_char (n : N) : bytes :=
  if (n <? 128)%N then [ascii_of_N n]
  else if (n <? 2048)%N then [ascii_of_N (192 + n / 64); ascii_of_N (128 + n mod 64)]
  else if (n <? 65536)%N then
    [ascii_of_N (224 + n / 4096); ascii_of_N (128 + n / 64 mod 64); ascii_of_N (128 + n mod 64)]
  else
    [ascii_of_N (240 + n / 262144); ascii_of_N (128 + n / 4096 mod 64);
     ascii_of_N (128 + n / 64 mod 64); ascii_of_N (128 + n mod 64)].

Definition string_of_chars (s : list N) : string := string_of (s ≫= utf8_encode_char).

(** [String::from_utf8_lossy]: a byte that starts no character, with the bytes
    that could continue it, reads as U+FFFD. *)
Definition REPLACEMENT : N := 65533.

Fixpoint utf8_lossy (b : bytes) : list N :=
  match b with
  | [] => []
  | b0 :: r0 =>
      let n0 := byte_N b0 in
      if (n0 <? 128)%N then n0 :: utf8_lossy r0
      else if in_range 194 223 b0 then
        match r0 with
        | b1 :: r1 =>
            if cont b1 then ((n0 - 192) * 64 + low6 b1)%N :: utf8_lossy r1
            else REPLACEMENT :: utf8_lossy r0
        | [] => [REPLACEMENT]
        end
      else if in_range 224 239 b0 then
        match r0 with
        | b1 :: r1 =>
            if in_range (if (n0 =? 224)%N then 160 else 128)
                        (if (n0 =? 237)%N then 159 else 191) b1
            then match r1 with
                 | b2 :: r2 =>
                     if cont b2
                     then ((n0 - 224) * 4096 + low6 b1 * 64 + low6 b2)%N :: utf8_lossy r2
                     else REPLACEMENT :: utf8_lossy r1
                 | [] => [REPLACEMENT]
                 end
            else REPLACEMENT :: utf8_lossy r0
        | [] => [REPLACEMENT]
        end
      else if in_range 240 244 b0 then
        match r0 with
        | b1 :: r1 =>
            if in_range (if (n0 =? 240)%N then 144 else 128)
                        (if (n0 =? 244)%N then 143 else 191) b1
            then match r1 with
                 | b2 :: r2 =>
                     if cont b2
                     then match r2 with
                          | b3 :: r3 =>
                              if cont b3
                              then ((n0 - 240) * 262144 + low6 b1 * 4096 + low6 b2 * 64 + low6 b3)%N
                                     :: utf8_lossy r3
                              else REPLACEMENT :: utf8_lossy r2
                          | [] => [REPLACEMENT]
                          end
                     else REPLACEMENT :: utf8_lossy r1
                 | [] => [REPLACEMENT]
                 end
            else REPLACEMENT :: utf8_lossy r0
        | [] => [REPLACEMENT]
        end
      else REPLACEMENT :: utf8_lossy r0
  end.

(** ** Hexadecimal *)

Definition malformed_hex : Error :=
  Error_new Code.GdbError "GDB returned malformed hexadecimal bytes".

Definition hex_nibble (c : ascii) : Result Error N :=
  let n := byte_N c in
  if in_range 48 57 c then Ok (n - 48)%N
  else if in_range 97 102 c then Ok (n - 97 + 10)%N
  else if in_range 65 70 c then Ok (n - 65 + 10)%N
  else Err malformed_hex.

(** The pairs of [as_chunks::<2>]; the length is even. *)
Fixpoint hex_chunks (b : bytes) : Result Error bytes :=
  match b with
  | h :: l :: rest =>
      x ← hex_nibble h;
      y ← hex_nibble l;
      decoded ← hex_chunks rest;
      Ok (ascii_of_N (N.lor (N.shiftl x 4) y) :: decoded)
  | _ => Ok []
  end.

Definition hex_decode (value : string) : Result Error bytes :=
  let b := bytes_of value in
  if negb (Nat.even (length b)) then Err malformed_hex else hex_chunks b.

Definition hex_encode (b : bytes) : string :=
  string_of (b ≫= fun c =>
    [hex_char (N.shiftr (byte_N c) 4); hex_char (N.land (byte_N c) 15)]).

(** [{:x}]: no leading zeros. *)
Fixpoint strip_zeros (b : bytes) : bytes :=
  match b with
  | c :: (_ :: _) as rest => if (c =? "0")%char then strip_zeros rest else b
  | _ => b
  end.

Definition hex_lower (n : N) : bytes := strip_zeros (hex_fixed 16 n).

(** ** Numbers of GDB *)

(** [str::find] of a text, on bytes: what precedes and what starts with it. *)
Fixpoint find_bytes (p b : bytes) : option (bytes * bytes) :=
  if starts_with p b then Some ([], b)
  else match b with
       | [] => None
       | c :: r => split ← find_bytes p r; Some (c :: split.1, split.2)
       end.

Fixpoint take_while {A} (p : A -> bool) (l : list A) : list A :=
  match l with
  | x :: r => if p x then x :: take_while p r else []
  | [] => []
  end.

Definition not_ascii_digit (c : N) : bool := negb ((48 <=? c) && (c <=? 57))%N.

(** [parse] of a word: digits only after the trimming. *)
Definition word_number (word : list N) : option N :=
  from_str_radix_chars U64_MAX 10 (trim_matches not_ascii_digit word).

Definition parse_gdb_u64 (value : string) : Result Error N :=
  let words :=
    ok_or (find_map word_number (split_whitespace (chars_of value)))
      (Error_new Code.GdbError ("GDB value is not an unsigned integer: " +:+ value)) in
  match find_bytes (bytes_of "0x") (bytes_of value) with
  | Some (_, rest) =>
      match take_while is_ascii_hexdigit (drop 2 rest) with
      | [] => words
      | digits =>
          ok_or (from_str_radix U64_MAX 16 digits)
            (Error_new Code.GdbError "invalid GDB hexadecimal value")
      end
  | None => words
  end.

(** [gdb_c_string]: from after the first quote to the first NUL escape or quote. *)
Definition trim_quotes (b : bytes) : bytes :=
  reverse ((fix go b := match b with
                        | c :: r => if (c =? DQUOTE)%char then go r else b
                        | [] => []
                        end) (reverse b)).

Definition gdb_c_string (value : string) : string :=
  let b := bytes_of value in
  let b := match find_bytes [DQUOTE] b with Some (_, rest) => drop 1 rest | None => b end in
  let ends := omap (fun p => split ← find_bytes p b; Some (length split.1))
                [bytes_of "\000"; [DQUOTE]] in
  let stop := match ends with
              | [x; y] => Nat.min x y
              | [x] => x
              | _ => length b
              end in
  string_of (trim_quotes (take stop b)).

Definition is_bracket (c : N) : bool := ((c =? 40) || (c =? 41) || (c =? 44))%N.

Definition ZERO_X : list N := [48; 120]%N.

Definition hex_word (word : list N) : option N :=
  digits ← strip_prefix_chars ZERO_X (trim_matches is_bracket word);
  from_str_radix_chars U64_MAX 16 digits.

Definition parse_address (value : string) : Result Error N :=
  let text := chars_of value in
  let '(first, words) := match split_whitespace text with
                         | first :: words => (first, words)
                         | [] => (text, [])
                         end in
  let first := trim_matches is_bracket first in
  let number :=
    match strip_prefix_chars ZERO_X first with
    | Some digits => from_str_radix_chars U64_MAX 16 digits
    | None => from_str_radix_chars U64_MAX 10 first
    end in
  let number :=
    match number with
    | Some n => Some n
    | None => if starts_with_chars [123%N] first then find_map hex_word words else None
    end in
  ok_or number (Error_new Code.GdbError ("invalid GDB address: " +:+ value)).

Definition first_word (command : string) : string :=
  match split_whitespace (chars_of command) with
  | word :: _ => string_of_chars word
  | [] => "unknown"
  end.

Definition MAX_INFERIOR_INPUT_BYTES : N := 64 * 1024.

(** ** Parameters *)

Definition unsigned (value : Value) (name : string) : Result Error N :=
  ok_or (Json.get name value ≫= Json.as_u64)
    (Error_new Code.InvalidArgument (name +:+ " must be unsigned")).

Definition bool_value (value : Value) (name : string) (dflt : bool) : bool :=
  default dflt (Json.get name value ≫= Json.as_bool).

Definition bounded_limit (value : Value) (dflt maximum : N) : Result Error N :=
  let limit := default dflt (Json.get "limit" value ≫= Json.as_u64) in
  if ((limit =? 0) || (maximum <? limit))%N then
    Err (Error_new Code.InvalidArgument ("limit must be between 1 and " +:+ dec maximum))
  else Ok limit.

Definition bounded_offset (value : Value) (maximum : N) (subject : string) : Result Error N :=
  let offset := default 0%N (Json.get "offset" value ≫= Json.as_u64) in
  if (maximum <? offset)%N then
    Err (Error_new Code.OutputLimit (subject +:+ " offset must not exceed " +:+ dec maximum))
  else Ok offset.

(** [BASE64.decode] with the text of its error. *)
Definition input_bytes (base64_decode : string -> Result string bytes) (parameters : Value)
    : Result Error bytes :=
  match Json.get "data_base64" parameters ≫= Json.as_str with
  | Some encoded =>
      match base64_decode encoded with
      | Ok b => Ok b
      | Err error => Err (Error_new Code.InvalidArgument ("invalid data_base64: " +:+ error))
      end
  | None =>
      match Json.get "text" parameters ≫= Json.as_str with
      | Some text => Ok (bytes_of text)
      | None => Err (Error_new Code.InvalidArgument "text or data_base64 is required")
      end
  end.

(** ** Expressions *)

Definition validate_expression_text (expression : string) : Result Error unit :=
  let b := bytes_of expression in
  if bool_decide (b = []) || (4096 <? lenN b)%N || existsb (fun c => c =? "000")%char b then
    Err (Error_new Code.InvalidArgument "expression must contain 1 to 4096 bytes and no NUL")
  else Ok tt.

Definition unsafe_expression : Error :=
  Error_new Code.PolicyDenied "safe evaluation forbids calls and mutation operators".

(** Operators that are applied to a type or an unevaluated operand. *)
Definition TYPE_OPERATORS : list string :=
  ["sizeof"; "alignof"; "_Alignof"; "__alignof__"; "typeof"; "__typeof__"; "decltype"].

Definition word_char (c : N) : bool :=
  ((48 <=? c) && (c <=? 57) || (65 <=? c) && (c <=? 90) || (97 <=? c) && (c <=? 122) ||
   (c =? 95))%N.

(** The characters after the last one that is not of a word, which must be one
    byte long: the text is sliced one byte after its offset. *)
Fixpoint last_word (reversed word : list N) : outcome Error (list N) :=
  match reversed with
  | [] => Done word
  | c :: before =>
      if word_char c then last_word before (c :: word)
      else if (c <? 128)%N then Done word else Panic
  end.

(** An opening parenthesis after the text [before], reversed. *)
Definition check_parenthesis (before : bytes) : outcome Error unit :=
  let prefix := trim_end is_whitespace (default [] (utf8_decode (reverse before))) in
  match reverse prefix with
  | [] => Done tt
  | previous :: _ =>
      if (previous =? 93)%N then Fail unsafe_expression
      else if word_char previous then
        word ← last_word (reverse prefix) [];
        if bool_decide (word ∈ chars_of <$> TYPE_OPERATORS) then Done tt
        else Fail unsafe_expression
      else Done tt
  end.

Definition is_char (c : ascii) (o : option ascii) : bool :=
  match o with Some d => (c =? d)%char | None => false end.

Definition SLASH : ascii := "/"%char.
Definition EQUALS : ascii := "="%char.

(** One unquoted byte with the bytes before it, reversed, and after it. *)
Definition check_byte (before : bytes) (c : ascii) (rest : bytes) : outcome Error unit :=
  let next := head rest in
  let previous := head before in
  let before_previous := head (tail before) in
  if (c =? SLASH)%char && (is_char SLASH next || is_char "*"%char next) then Fail unsafe_expression
  else if (c =? "+")%char && is_char "+"%char next || (c =? "-")%char && is_char "-"%char next then
    Fail unsafe_expression
  else if (c =? EQUALS)%char &&
    negb (is_char EQUALS next || is_char EQUALS previous || is_char "!"%char previous ||
          ((is_char "<"%char previous || is_char ">"%char previous) &&
           negb (bool_decide (before_previous = previous))))
  then Fail unsafe_expression
  else if (c =? "(")%char then check_parenthesis before
  else Done tt.

(** What the scanner is in: plain text, or a literal with its delimiter and
    whether the next byte is escaped. *)
Definition quoting : Type := option (ascii * bool).

Definition next_quoting (q : quoting) (c : ascii) : quoting :=
  match q with
  | Some (delimiter, true) => Some (delimiter, false)
  | Some (delimiter, false) =>
      if (c =? BACKSLASH)%char then Some (delimiter, true)
      else if (c =? delimiter)%char then None else q
  | None => if (c =? "'")%char || (c =? DQUOTE)%char then Some (c, false) else None
  end.

Definition is_plain (q : quoting) (c : ascii) : bool :=
  match q with None => negb ((c =? "'")%char || (c =? DQUOTE)%char) | Some _ => false end.

Fixpoint scan_expression (q : quoting) (before rest : bytes) : outcome Error unit :=
  match rest with
  | [] => Done tt
  | c :: rest =>
      _ ← (if is_plain q c then check_byte before c rest else Done tt);
      scan_expression (next_quoting q c) (c :: before) rest
  end.

Definition validate_expression (expression : string) : outcome Error unit :=
  match validate_expression_text expression with
  | Err error => Fail error
  | Ok _ => scan_expression None [] (bytes_of expression)
  end.

(** ** Properties *)

Lemma hex_byte c :
  (x ← hex_nibble (hex_char (N.shiftr (byte_N c) 4));
   y ← hex_nibble (hex_char (N.land (byte_N c) 15)); Ok (ascii_of_N (N.lor (N.shiftl x 4) y)))
  = Ok c.
Proof.
  assert (forallb (fun c =>
    match (x ← hex_nibble (hex_char (N.shiftr (byte_N c) 4));
           y ← hex_nibble (hex_char (N.land (byte_N c) 15)); Ok (ascii_of_N (N.lor (N.shiftl x 4) y)))
    with Ok d => (d =? c)%char | Err _ => false end) all_ascii = true) as H
    by (vm_compute; reflexivity).
  apply byte_check with (c := c) in H. cbv beta in H.
  destruct (_ ≫= _) as [d|]; [|done]. apply Ascii.eqb_eq in H. by subst.
Qed.

Lemma hex_chunks_byte c rest :
  hex_chunks (hex_char (N.shiftr (byte_N c) 4) :: hex_char (N.land (byte_N c) 15) :: rest) =
  (decoded ← hex_chunks rest; Ok (c :: decoded)).
Proof.
  pose proof (hex_byte c) as Hc. cbn [hex_chunks]. revert Hc.
  generalize (hex_nibble (hex_char (N.shiftr (byte_N c) 4)))
             (hex_nibble (hex_char (N.land (byte_N c) 15))).
  intros [x|] [y|] Hc; try discriminate. cbn -[N.shiftl] in Hc |- *. injection Hc as ->. done.
Qed.

(** Every byte sequence survives the hexadecimal codec. *)
Theorem hex_codec_round_trips b : hex_decode (hex_encode b) = Ok b.
Proof.
  unfold hex_decode, hex_encode. rewrite bytes_of_string_of.
  assert (forall b : bytes, Nat.even (length (b ≫= fun c =>
    [hex_char (N.shiftr (byte_N c) 4); hex_char (N.land (byte_N c) 15)])) = true) as He.
  { clear. induction b as [|c b IH]; [done|]. exact IH. }
  rewrite He. cbn [negb]. induction b as [|c b IH]; [done|].
  rewrite bind_cons. change ([?x; ?y] ++ ?r) with (x :: y :: r).
  rewrite hex_chunks_byte. cbn [app]. by rewrite IH.
Qed.

Lemma hex_chunks_length b d : Nat.even (length b) = true -> hex_chunks b = Ok d -> length b = 2 * length d.
Proof.
  revert b d. fix IH 1. intros [|h [|l rest]] d He H; cbn in He; [by simplify_eq/=|done|].
  cbn [hex_chunks] in H. apply bind_Ok in H as (x & _ & H). apply bind_Ok in H as (y & _ & H).
  apply bind_Ok in H as (d' & Hd & H). simplify_eq. cbn [length]. rewrite (IH rest d' He Hd). lia.
Qed.

Lemma hex_decode_length s b : hex_decode s = Ok b -> length (bytes_of s) = 2 * length b.
Proof.
  unfold hex_decode. destruct (Nat.even (length (bytes_of s))) eqn:E; [|done]. cbn [negb].
  by apply hex_chunks_length.
Qed.

(** ** The screen of expressions *)

Definition quoting_after (b : bytes) : quoting := foldl next_quoting None b.

Lemma scan_expression_done q before rest :
  scan_expression q before rest = Done tt ->
  forall pre c post, rest = pre ++ c :: post -> is_plain (foldl next_quoting q pre) c = true ->
    check_byte (reverse pre ++ before) c post = Done tt.
Proof.
  revert q before. induction rest as [|c rest IH]; intros q before H pre d post Heq Hp.
  { by destruct pre. }
  cbn [scan_expression] in H. apply bind_Done in H as ([] & Hc & H).
  destruct pre as [|x pre]; cbn in Heq; injection Heq as -> ->.
  - cbn [foldl] in Hp. rewrite Hp in Hc. by cbn.
  - rewrite reverse_cons, <-app_assoc. cbn [app]. by apply (IH _ _ H pre d post).
Qed.

Lemma validate_expression_check e pre c post :
  validate_expression e = Done tt -> bytes_of e = pre ++ c :: post ->
  is_plain (quoting_after pre) c = true -> check_byte (reverse pre) c post = Done tt.
Proof.
  unfold validate_expression. destruct (validate_expression_text e); [|done]. intros H Heq Hp.
  rewrite <-(app_nil_r (reverse pre)). by apply (scan_expression_done _ _ _ H).
Qed.

(** Plain operator characters leave plain text. *)
Definition operator_char (c : ascii) : bool :=
  negb ((c =? "'")%char || (c =? DQUOTE)%char).

Lemma quoting_after_app pre op :
  quoting_after pre = None -> forallb operator_char op = true -> quoting_after (pre ++ op) = None.
Proof.
  unfold quoting_after. rewrite foldl_app. intros ->. induction op as [|c op IH]; [done|].
  cbn [forallb foldl]. intros [Hc H]%andb_true_iff. unfold next_quoting. unfold operator_char in Hc.
  apply negb_true_iff in Hc. rewrite Hc. by apply IH.
Qed.

Definition follows (p : ascii -> bool) (b : bytes) : bool :=
  match b with c :: _ => p c | [] => false end.

(** The operators of C that write, or hide text from the screen. *)
Definition MUTATIONS : list string := ["++"; "--"; "//"; "/*"].
Definition ASSIGNMENTS : list string :=
  ["+="; "-="; "*="; "/="; "%="; "&="; "|="; "^="; "<<="; ">>="].

(** Accepted expressions hold no operator that writes. *)
Lemma accepted_has_no_mutation e pre op post :
  validate_expression e = Done tt -> op ∈ MUTATIONS -> quoting_after pre = None ->
  bytes_of e <> pre ++ bytes_of op ++ post.
Proof.
  intros H Hop Hq Heq. unfold MUTATIONS in Hop.
  repeat (apply elem_of_cons in Hop as [->|Hop]); [..|by apply not_elem_of_nil in Hop].
  all: pose proof (validate_expression_check e pre _ _ H Heq) as Hc; rewrite Hq in Hc;
    specialize (Hc eq_refl); discriminate Hc.
Qed.

Lemma check_equals before post :
  check_byte before EQUALS post = Done tt ->
  is_char EQUALS (head post) || is_char EQUALS (head before) || is_char "!"%char (head before) ||
  ((is_char "<"%char (head before) || is_char ">"%char (head before)) &&
   negb (bool_decide (head (tail before) = head before))) = true.
Proof. unfold check_byte. cbn -[head tail bool_decide]. by destruct (_ || _ || _ || _). Qed.

Lemma accepted_has_no_compound_assignment e pre op post :
  validate_expression e = Done tt -> op ∈ ASSIGNMENTS -> quoting_after pre = None ->
  follows (Ascii.eqb EQUALS) post = false -> bytes_of e <> pre ++ bytes_of op ++ post.
Proof.
  intros H Hop Hq Hpost Heq.
  assert (exists init, bytes_of op = init ++ [EQUALS] /\ forallb operator_char init = true /\
    (init ∈ [["+"]; ["-"]; ["*"]; ["/"]; ["%"]; ["&"]; ["|"]; ["^"]; ["<"; "<"]; [">"; ">"]]%char))
    as (init & Ho & Hplain & Hin).
  { unfold ASSIGNMENTS in Hop.
    repeat (apply elem_of_cons in Hop as [->|Hop]); [..|by apply not_elem_of_nil in Hop];
      match goal with |- context [bytes_of ?s] => exists (take (String.length s - 1) (bytes_of s)) end;
      (split; [reflexivity|split; [reflexivity|cbn; set_solver]]). }
  rewrite Ho, <-app_assoc, app_assoc in Heq. cbn [app] in Heq.
  pose proof (validate_expression_check e (pre ++ init) EQUALS post H Heq) as Hc.
  rewrite (quoting_after_app pre init Hq Hplain) in Hc. specialize (Hc eq_refl).
  apply check_equals in Hc. rewrite reverse_app in Hc.
  assert (is_char EQUALS (head post) = false) as Hn by (destruct post; [done|exact Hpost]).
  rewrite Hn in Hc.
  repeat (apply elem_of_cons in Hin as [->|Hin]); [..|by apply not_elem_of_nil in Hin];
    cbn in Hc; discriminate Hc.
Qed.

Lemma accepted_has_no_assignment e pre post :
  validate_expression e = Done tt -> quoting_after pre = None ->
  follows (Ascii.eqb EQUALS) post = false ->
  match last pre with Some c => negb (existsb (Ascii.eqb c) ["="; "!"; "<"; ">"]%char) | None => true end
    = true ->
  bytes_of e <> pre ++ EQUALS :: post.
Proof.
  intros H Hq Hpost Hlast Heq.
  pose proof (validate_expression_check e pre EQUALS post H Heq) as Hc. rewrite Hq in Hc.
  specialize (Hc eq_refl). apply check_equals in Hc.
  assert (is_char EQUALS (head post) = false) as Hn by (destruct post; [done|exact Hpost]).
  rewrite Hn in Hc. assert (head (reverse pre) = last pre) as Hh by (by rewrite head_reverse).
  rewrite Hh in Hc. destruct (last pre) as [c|]; [|done]. cbn [is_char] in Hc.
  cbn [existsb] in Hlast. rewrite !(Ascii.eqb_sym c) in Hlast. unfold EQUALS in Hc.
  destruct ("=" =? c)%char, ("!" =? c)%char, ("<" =? c)%char, (">" =? c)%char; done.
Qed.

(** A valid text as its characters: an ASCII byte, or a group of others. *)
Inductive decodes : bytes -> list N -> Prop :=
| decodes_nil : decodes [] []
| decodes_ascii c b cs : is_ascii c = true -> decodes b cs -> decodes (c :: b) (byte_N c :: cs)
| decodes_group g n b cs :
    Forall (fun c => is_ascii c = false) g -> g <> [] -> (128 <= n)%N ->
    g = utf8_encode_char n ->
    (forall r, utf8_decode (g ++ r) = cons n <$> utf8_decode r) ->
    decodes b cs -> decodes (g ++ b) (n :: cs).

Lemma high_byte lo hi c : in_range lo hi c = true -> (128 <= lo)%N -> is_ascii c = false.
Proof.
  unfold in_range, is_ascii. intros [H _]%andb_true_iff Hlo. apply N.leb_le in H.
  apply N.ltb_ge. lia.
Qed.

Lemma low6_range lo hi c : in_range lo hi c = true -> (128 <= lo)%N -> (hi <= 191)%N ->
  low6 c = (byte_N c - 128)%N.
Proof.
  intros H Hlo Hhi. unfold in_range in H. apply andb_true_iff in H as [H1%N.leb_le H2%N.leb_le].
  unfold low6. change 63%N with (N.ones 6). rewrite N.land_ones.
  replace (byte_N c) with ((byte_N c - 128) + 2 * 2 ^ 6)%N at 1 by lia.
  rewrite N.Div0.mod_add, N.mod_small; [done|]. change (2 ^ 6)%N with 64%N. lia.
Qed.

Lemma in_range_bounds lo hi c : in_range lo hi c = true -> (lo <= byte_N c <= hi)%N.
Proof. unfold in_range. intros [?%N.leb_le ?%N.leb_le]%andb_true_iff. lia. Qed.

Lemma digit_div q r : (r < 64)%N -> ((q * 64 + r) / 64 = q)%N.
Proof. intros H. symmetry. apply (N.div_unique _ 64 q r); lia. Qed.

Lemma digit_mod q r : (r < 64)%N -> ((q * 64 + r) mod 64 = r)%N.
Proof. intros H. symmetry. apply (N.mod_unique _ 64 q r); lia. Qed.

Lemma encode_two a b :
  (194 <= a <= 223)%N -> (128 <= b <= 191)%N ->
  utf8_encode_char ((a - 192) * 64 + (b - 128)) = [ascii_of_N a; ascii_of_N b].
Proof.
  intros Ha Hb. unfold utf8_encode_char. set (n := ((a - 192) * 64 + (b - 128))%N).
  assert (n / 64 = a - 192 /\ n mod 64 = b - 128)%N as [-> ->]
    by (split; [apply digit_div|apply digit_mod]; lia).
  destruct (N.ltb_spec n 128); [subst n; lia|]. destruct (N.ltb_spec n 2048); [|subst n; lia].
  do 2 f_equal; [|f_equal]; f_equal; lia.
Qed.

Lemma encode_three a b c :
  (224 <= a <= 239)%N -> (128 <= b <= 191)%N -> (128 <= c <= 191)%N -> (a = 224 -> 160 <= b)%N ->
  utf8_encode_char ((a - 224) * 4096 + (b - 128) * 64 + (c - 128)) =
    [ascii_of_N a; ascii_of_N b; ascii_of_N c].
Proof.
  intros Ha Hb Hc Hab. unfold utf8_encode_char.
  set (n := ((a - 224) * 4096 + (b - 128) * 64 + (c - 128))%N).
  assert (n / 4096 = a - 224 /\ n / 64 mod 64 = b - 128 /\ n mod 64 = c - 128)%N as (-> & -> & ->)
    by (subst n; replace ((a - 224) * 4096 + (b - 128) * 64)%N
      with (((a - 224) * 64 + (b - 128)) * 64)%N by lia;
      change 4096%N with (64 * 64)%N; rewrite <-N.Div0.div_div; rewrite !digit_div, !digit_mod by lia; done).
  destruct (N.ltb_spec n 128); [subst n; lia|]. destruct (N.ltb_spec n 2048); [subst n; lia|].
  destruct (N.ltb_spec n 65536); [|subst n; lia].
  repeat (f_equal; try lia).
Qed.

Lemma encode_four a b c d :
  (240 <= a <= 244)%N -> (128 <= b <= 191)%N -> (128 <= c <= 191)%N -> (128 <= d <= 191)%N ->
  (a = 240 -> 144 <= b)%N ->
  utf8_encode_char ((a - 240) * 262144 + (b - 128) * 4096 + (c - 128) * 64 + (d - 128)) =
    [ascii_of_N a; ascii_of_N b; ascii_of_N c; ascii_of_N d].
Proof.
  intros Ha Hb Hc Hd Hab. unfold utf8_encode_char.
  set (n := ((a - 240) * 262144 + (b - 128) * 4096 + (c - 128) * 64 + (d - 128))%N).
  assert (n / 262144 = a - 240 /\ n / 4096 mod 64 = b - 128 /\ n / 64 mod 64 = c - 128 /\
    n mod 64 = d - 128)%N as (-> & -> & -> & ->)
    by (subst n; replace ((a - 240) * 262144 + (b - 128) * 4096 + (c - 128) * 64)%N
      with ((((a - 240) * 64 + (b - 128)) * 64 + (c - 128)) * 64)%N by lia;
      change 262144%N with (64 * (64 * 64))%N; change 4096%N with (64 * 64)%N;
      rewrite <-!N.Div0.div_div; rewrite !digit_div, !digit_mod by lia; done).
  destruct (N.ltb_spec n 128); [subst n; lia|]. destruct (N.ltb_spec n 2048); [subst n; lia|].
  destruct (N.ltb_spec n 65536); [subst n; lia|].
  repeat (f_equal; try lia).
Qed.

Lemma utf8_decodes b cs : utf8_decode b = Some cs -> decodes b cs.
Proof.
  remember (length b) as n eqn:En. revert b En cs.
  induction n as [n IH] using lt_wf_ind. intros b -> cs.
  assert (forall g r c, b = g ++ r -> g <> [] -> Forall (fun c => is_ascii c = false) g -> (128 <= c)%N ->
    g = utf8_encode_char c ->
    (forall r, utf8_decode (g ++ r) = cons c <$> utf8_decode r) ->
    utf8_decode b = Some cs -> decodes b cs) as Hgroup.
  { intros g r c -> Hne Hg Hc He Hd H. rewrite Hd in H.
    destruct (utf8_decode r) as [cs'|] eqn:Er; [|done]. injection H as <-.
    apply decodes_group; try done. eapply IH; [|reflexivity|done].
    rewrite length_app. destruct g; [done|]. cbn. lia. }
  destruct b as [|b0 r0]; [cbn; intros [= <-]; constructor|].
  cbn [utf8_decode]. destruct (byte_N b0 <? 128)%N eqn:E0.
  { intros H. destruct (utf8_decode r0) as [cs'|] eqn:Er; [|done]. cbn in H. simplify_eq.
    apply decodes_ascii; [done|]. exact (IH (length r0) ltac:(cbn; lia) r0 eq_refl cs' Er). }
  intros H. destruct r0 as [|b1 r1]; [done|].
  destruct (in_range 194 223 b0) eqn:E1.
  { destruct (cont b1) eqn:Ec1; [|done].
    apply (Hgroup [b0; b1] r1 ((byte_N b0 - 192) * 64 + low6 b1)%N); [done|done| | | | |].
    - repeat constructor; [done|by eapply high_byte].
    - rewrite (low6_range _ _ _ Ec1) by lia. unfold in_range in E1.
      apply andb_true_iff in E1 as [E1%N.leb_le _]. lia.
    - rewrite (low6_range _ _ _ Ec1) by lia.
      pose proof (in_range_bounds _ _ _ E1). pose proof (in_range_bounds _ _ _ Ec1).
      by rewrite (encode_two (byte_N b0) (byte_N b1)), !ascii_of_byte_N.
    - intros r. cbn [app utf8_decode]. by rewrite E0, E1, Ec1.
    - cbn [utf8_decode]. by rewrite E0, E1, Ec1. }
  destruct r1 as [|b2 r2]; [done|]. destruct (in_range 224 239 b0) eqn:E2.
  { destruct (in_range _ _ b1 && cont b2) eqn:Ec; [|done].
    pose proof Ec as [Ec1 Ec2]%andb_true_iff.
    apply (Hgroup [b0; b1; b2] r2 ((byte_N b0 - 224) * 4096 + low6 b1 * 64 + low6 b2)%N);
      [done|done| | | | |].
    - repeat constructor; [done|eapply high_byte; [exact Ec1|case_match; lia]|by eapply high_byte].
    - rewrite (low6_range _ _ _ Ec1) by (repeat case_match; lia). unfold in_range in Ec1, E2.
      apply andb_true_iff in Ec1 as [Ec1%N.leb_le _], E2 as [E2%N.leb_le _].
      destruct (byte_N b0 =? 224)%N eqn:E3; [|apply N.eqb_neq in E3]; lia.
    - rewrite (low6_range _ _ _ Ec1), (low6_range _ _ _ Ec2) by (repeat case_match; lia).
      pose proof (in_range_bounds _ _ _ E2). pose proof (in_range_bounds _ _ _ Ec1).
      pose proof (in_range_bounds _ _ _ Ec2).
      rewrite (encode_three (byte_N b0) (byte_N b1) (byte_N b2)), !ascii_of_byte_N; [done|..];
        destruct (byte_N b0 =? 224)%N eqn:E3; try apply N.eqb_neq in E3;
        destruct (byte_N b0 =? 237)%N; lia.
    - intros r. cbn [app utf8_decode]. by rewrite E0, E1, E2, Ec.
    - cbn [utf8_decode]. by rewrite E0, E1, E2, Ec. }
  destruct r2 as [|b3 r3]; [done|].
  destruct (in_range 240 244 b0 && _ && cont b2 && cont b3) eqn:Ec; [|done].
  pose proof Ec as [[[E4 Ec1]%andb_true_iff Ec2]%andb_true_iff Ec3]%andb_true_iff.
  apply (Hgroup [b0; b1; b2; b3] r3
    ((byte_N b0 - 240) * 262144 + low6 b1 * 4096 + low6 b2 * 64 + low6 b3)%N); [done|done| | | | |].
  - repeat constructor; [done|eapply high_byte; [exact Ec1|case_match; lia]|by eapply high_byte..].
  - rewrite (low6_range _ _ _ Ec1) by (repeat case_match; lia). unfold in_range in Ec1, E4.
    apply andb_true_iff in Ec1 as [Ec1%N.leb_le _], E4 as [E4%N.leb_le _].
    destruct (byte_N b0 =? 240)%N eqn:E5; [|apply N.eqb_neq in E5]; lia.
  - rewrite (low6_range _ _ _ Ec1), (low6_range _ _ _ Ec2), (low6_range _ _ _ Ec3)
      by (repeat case_match; lia).
    pose proof (in_range_bounds _ _ _ E4). pose proof (in_range_bounds _ _ _ Ec1).
    pose proof (in_range_bounds _ _ _ Ec2). pose proof (in_range_bounds _ _ _ Ec3).
    rewrite (encode_four (byte_N b0) (byte_N b1) (byte_N b2) (byte_N b3)), !ascii_of_byte_N; [done|..];
      destruct (byte_N b0 =? 240)%N eqn:E5; try apply N.eqb_neq in E5;
      destruct (byte_N b0 =? 244)%N; lia.
  - intros r. cbn [app utf8_decode]. by rewrite E0, E1, E2, Ec.
  - cbn [utf8_decode]. by rewrite E0, E1, E2, Ec.
Qed.

Lemma utf8_decode_app a ca b :
  utf8_decode a = Some ca -> utf8_decode (a ++ b) = app ca <$> utf8_decode b.
Proof.
  intros H%utf8_decodes. induction H as [|c a cs Hc _ IH|g n a cs _ _ _ _ Hd _ IH].
  - cbn [app]. by destruct (utf8_decode b).
  - cbn [app utf8_decode]. unfold is_ascii in Hc. rewrite Hc, IH. by destruct (utf8_decode b).
  - rewrite <-app_assoc, Hd, IH. by destruct (utf8_decode b).
Qed.

(** A valid text is the encoding of its characters. *)
Lemma chars_of_string s : utf8_valid (bytes_of s) = true -> string_of_chars (chars_of s) = s.
Proof.
  unfold utf8_valid, chars_of, string_of_chars. destruct (utf8_decode (bytes_of s)) as [cs|] eqn:E; [|done].
  intros _. cbn [default from_option id]. rewrite <-(string_of_bytes_of s) at 1. f_equal.
  apply utf8_decodes in E. induction E as [|c b cs Hc _ IH|g n b cs _ _ _ -> _ _ IH]; [done| |].
  - rewrite bind_cons, IH. unfold utf8_encode_char. unfold is_ascii in Hc. rewrite Hc.
    by rewrite ascii_of_byte_N.
  - by rewrite bind_cons, IH.
Qed.

(** A multi-byte character holds no ASCII byte. *)
Lemma utf8_decode_split a x b cs :
  is_ascii x = true -> utf8_decode (a ++ x :: b) = Some cs -> exists ca, utf8_decode a = Some ca.
Proof.
  intros Hx H%utf8_decodes. remember (a ++ x :: b) as t eqn:Et. revert a Et.
  induction H as [|c t cs Hc _ IH|g n t cs Hg Hne _ _ Hd _ IH]; intros a Et.
  - by destruct a.
  - destruct a as [|c' a]; [by eexists|]. cbn in Et. injection Et as -> Et.
    destruct (IH a Et) as [ca Ha]. exists (byte_N c' :: ca). cbn [utf8_decode].
    unfold is_ascii in Hc. by rewrite Hc, Ha.
  - apply app_eq_inv in Et as [(k & Hk & Ht)|(k & -> & Hk)].
    + destruct k as [|y k].
      * cbn in Ht. rewrite app_nil_r in Hk. subst g. destruct (IH [] (eq_sym Ht)) as [ca _].
        exists [n]. pose proof (Hd []) as Hd'. rewrite app_nil_r in Hd'. by rewrite Hd'.
      * cbn in Ht. injection Ht as -> Ht. subst g. apply Forall_app in Hg as [_ Hg].
        inversion Hg. congruence.
    + destruct (IH k Hk) as [ca Ha]. exists (n :: ca). by rewrite Hd, Ha.
Qed.

(** The last character of a text that does not end in a byte of a kind. *)
Lemma last_char_spec (p : ascii -> bool) (q : N -> bool) a ca :
  (forall c, p c = false -> q (byte_N c) = false) -> (forall n, (128 <= n)%N -> q n = false) ->
  utf8_decode a = Some ca -> match last a with Some c => p c | None => false end = false ->
  match last ca with Some n => q n | None => false end = false.
Proof.
  intros Hpq Hhigh H%utf8_decodes. induction H as [|c a cs Hc Hd IH|g n a cs Hg Hne Hn _ Hd _ IH].
  - done.
  - destruct a as [|c' a]; [inversion Hd; [apply Hpq|by destruct g]|].
    intros Hl. destruct cs as [|n cs]; [inversion Hd|]. by apply IH.
  - destruct cs as [|m cs]; [intros _; by apply Hhigh|].
    intros Hl. apply IH. destruct a as [|c' a]; [done|].
    by rewrite last_app_cons in Hl || (rewrite last_app in Hl; destruct (last (c' :: a)) eqn:E).
Qed.

(** ** Calls *)

Definition word_byte (c : ascii) : bool := is_ascii_alphanumeric c || (c =? "_")%char.

Lemma word_byte_char c : word_byte c = true -> word_char (byte_N c) = true /\ is_ascii c = true.
Proof.
  intros H. split; revert c H; apply byte_implies; vm_compute; reflexivity.
Qed.

Lemma word_char_byte c : word_byte c = false -> word_char (byte_N c) = false.
Proof.
  intros H.
  pose proof (byte_implies (fun c => negb (word_byte c)) (fun c => negb (word_char (byte_N c)))
    ltac:(vm_compute; reflexivity) c) as Hi. cbv beta in Hi. rewrite H in Hi.
  by apply negb_true_iff, Hi.
Qed.

Lemma word_char_not_space n : word_char n = true -> is_whitespace n = false.
Proof.
  unfold word_char, is_whitespace. intros H.
  repeat first [rewrite orb_true_iff in H | rewrite andb_true_iff in H].
  rewrite !N.leb_le, N.eqb_eq in H.
  repeat (rewrite orb_false_iff || rewrite andb_false_iff).
  rewrite !N.leb_gt, !N.eqb_neq. lia.
Qed.

Lemma last_word_spec w before word :
  forallb word_char w = true ->
  match head before with Some c => word_char c | None => false end = false ->
  last_word (reverse w ++ before) word = Done (w ++ word) \/
  last_word (reverse w ++ before) word = Panic.
Proof.
  revert word. induction w as [|c w IH] using rev_ind; intros word Hw Hb.
  - cbn [reverse app]. destruct before as [|b before]; [by left|]. cbn in Hb |- *. rewrite Hb.
    destruct (b <? 128)%N; [by left|by right].
  - rewrite reverse_snoc. cbn [app last_word]. rewrite forallb_app in Hw.
    apply andb_true_iff in Hw as [Hw Hc]. cbn in Hc. rewrite andb_true_r in Hc. rewrite Hc.
    rewrite <-app_assoc. by apply IH.
Qed.

Lemma trim_start_spaces p s t :
  forallb p s = true -> match head t with Some c => p c | None => false end = false ->
  trim_start p (s ++ t) = t.
Proof.
  intros Hs Ht. induction s as [|c s IH].
  - destruct t as [|c t]; [done|]. cbn in Ht |- *. by rewrite Ht.
  - cbn in Hs |- *. apply andb_true_iff in Hs as [-> Hs]. by apply IH.
Qed.

Lemma ascii_chars_inj (b d : bytes) :
  byte_N <$> b = byte_N <$> d -> b = d.
Proof.
  revert d. induction b as [|x b IH]; intros [|y d] H; try done. cbn in H.
  injection H as Hx H. f_equal; [|by apply IH].
  by rewrite <-(ascii_of_byte_N x), Hx, ascii_of_byte_N.
Qed.

Lemma type_operator_ascii t : t ∈ TYPE_OPERATORS -> chars_of t = byte_N <$> bytes_of t.
Proof.
  unfold TYPE_OPERATORS. intros H.
  repeat (apply elem_of_cons in H as [->|H]); [..|by apply not_elem_of_nil in H]; reflexivity.
Qed.

Definition space_byte (c : ascii) : bool := is_whitespace (byte_N c) && is_ascii c.

(** A parenthesis after a name is accepted only for the operators on types. *)
Lemma accepted_has_no_call e pre name spaces post :
  validate_expression e = Done tt -> utf8_valid (bytes_of e) = true ->
  bytes_of e = pre ++ bytes_of name ++ spaces ++ "("%char :: post ->
  name <> "" -> forallb word_byte (bytes_of name) = true -> forallb space_byte spaces = true ->
  match last pre with Some c => word_byte c | None => false end = false ->
  quoting_after (pre ++ bytes_of name ++ spaces) = None ->
  name ∈ TYPE_OPERATORS.
Proof.
  intros H Hu Heq Hne Hname Hspaces Hlast Hq.
  set (w := bytes_of name) in *.
  assert (w <> []) as Hw by (intros E; apply Hne; by rewrite <-(string_of_bytes_of name); fold w; rewrite E).
  assert (Forall (fun c => is_ascii c = true) w /\ forallb word_char (byte_N <$> w) = true) as [Hwa Hwc].
  { clear -Hname. induction w as [|c w IH]; [by split; [constructor|]|].
    cbn in Hname. apply andb_true_iff in Hname as [Hc Hn]. destruct (IH Hn) as [H1 H2].
    destruct (word_byte_char c Hc) as [H3 H4]. split; [by constructor|]. cbn. by rewrite H3. }
  assert (Forall (fun c => is_ascii c = true) spaces /\
    forallb is_whitespace (byte_N <$> spaces) = true) as [Hsa Hsc].
  { clear -Hspaces. induction spaces as [|c s IH]; [by split; [constructor|]|].
    cbn in Hspaces. apply andb_true_iff in Hspaces as [[Hc Ha]%andb_true_iff Hn].
    destruct (IH Hn) as [H1 H2]. split; [by constructor|]. cbn. by rewrite Hc. }
  rewrite !app_assoc, <-(app_assoc pre) in Heq.
  pose proof (validate_expression_check e _ _ _ H Heq) as Hc. rewrite Hq in Hc.
  specialize (Hc eq_refl). cbn -[check_parenthesis quoting_after] in Hc.
  assert (exists ca, utf8_decode pre = Some ca) as [ca Hpre].
  { destruct w as [|x w'] eqn:Ew; [done|]. unfold utf8_valid in Hu. rewrite Heq in Hu.
    destruct (utf8_decode _) as [cs|] eqn:Ed in Hu; [|done].
    rewrite <-!app_assoc in Ed. cbn [app] in Ed. inversion Hwa as [|? ? Hx _].
    by apply (utf8_decode_split _ x) in Ed. }
  assert (utf8_decode (pre ++ w ++ spaces) = Some (ca ++ (byte_N <$> w) ++ (byte_N <$> spaces))) as Hd.
  { rewrite (utf8_decode_app _ _ _ Hpre), utf8_decode_ascii by (by apply Forall_app).
    by rewrite fmap_app. }
  assert (match head (reverse ca) with Some c => word_char c | None => false end = false) as Hlc.
  { rewrite head_reverse. apply (last_char_spec word_byte word_char pre ca); try done.
    - apply word_char_byte.
    - intros n Hn. unfold word_char.
      repeat (rewrite orb_false_iff || rewrite andb_false_iff). rewrite !N.leb_gt, N.eqb_neq. lia. }
  unfold check_parenthesis in Hc. rewrite reverse_involutive, Hd in Hc.
  cbn [default from_option id] in Hc.
  unfold trim_end in Hc. rewrite !reverse_app, <-app_assoc in Hc.
  assert (exists y ys, reverse (byte_N <$> w) = y :: ys /\ word_char y = true) as (y & ys & Hy & Hyw).
  { destruct (reverse (byte_N <$> w)) as [|y ys] eqn:E.
    - apply (f_equal reverse) in E. rewrite reverse_involutive in E. by destruct w.
    - exists y, ys. split; [done|]. rewrite forallb_forall in Hwc. apply Hwc.
      apply list_elem_of_In. apply elem_of_reverse. rewrite E. by left. }
  rewrite trim_start_spaces in Hc; [| |rewrite Hy; by apply word_char_not_space].
  2: { rewrite forallb_forall in Hsc |- *. intros z Hz. apply Hsc. apply list_elem_of_In in Hz.
       apply list_elem_of_In. by apply elem_of_reverse. }
  rewrite reverse_involutive in Hc.
  pose proof (last_word_spec (byte_N <$> w) (reverse ca) [] Hwc Hlc) as Hlw.
  rewrite Hy in Hc, Hlw. cbn [app] in Hc, Hlw. cbv iota beta in Hc. rewrite Hyw in Hc.
  assert ((y =? 93)%N = false) as E93.
  { destruct (N.eqb_spec y 93) as [->|]; [discriminate Hyw|done]. }
  rewrite E93 in Hc. destruct Hlw as [Hlw|Hlw]; rewrite Hlw in Hc; [|done].
  cbn -[TYPE_OPERATORS bool_decide] in Hc. rewrite app_nil_r in Hc.
  destruct (bool_decide _) eqn:Eb; [|done]. apply bool_decide_eq_true in Eb.
  apply list_elem_of_fmap in Eb as (t & Ht & Hin). rewrite (type_operator_ascii t Hin) in Ht.
  apply ascii_chars_inj in Ht. apply bytes_of_inj in Ht. by subst.
Qed.

(** C19: an expression accepted for evaluation without side effects holds,
    outside literals, no increment, decrement or comment; an assignment
    operator only before another equals sign, where it is no assignment but a
    syntax error of the target language; a plain equals sign only as part of a
    comparison; and a parenthesis after a name only where the name is one of
    the operators on types. *)
Theorem accepted_expressions_neither_write_nor_call e :
  validate_expression e = Done tt -> utf8_valid (bytes_of e) = true ->
  (forall pre op post, quoting_after pre = None -> bytes_of e = pre ++ bytes_of op ++ post ->
     op ∉ MUTATIONS /\ (op ∈ ASSIGNMENTS -> follows (Ascii.eqb EQUALS) post = true)) /\
  (forall pre post, quoting_after pre = None -> bytes_of e = pre ++ EQUALS :: post ->
     follows (Ascii.eqb EQUALS) post = true \/
     exists c, last pre = Some c /\ existsb (Ascii.eqb c) ["="; "!"; "<"; ">"]%char = true) /\
  (forall pre name spaces post,
     quoting_after (pre ++ bytes_of name ++ spaces) = None ->
     bytes_of e = pre ++ bytes_of name ++ spaces ++ "("%char :: post ->
     name <> "" -> forallb word_byte (bytes_of name) = true -> forallb space_byte spaces = true ->
     match last pre with Some c => word_byte c | None => false end = false ->
     name ∈ TYPE_OPERATORS).
Proof.
  intros H Hu. split_and!.
  - intros pre op post Hq Heq. split.
    + intros Hop. by apply (accepted_has_no_mutation e pre op post H Hop Hq).
    + intros Hop. apply not_false_iff_true. intros Hp.
      by apply (accepted_has_no_compound_assignment e pre op post H Hop Hq Hp).
  - intros pre post Hq Heq. destruct (follows _ post) eqn:Hp; [by left|right].
    destruct (last pre) as [c|] eqn:El.
    + exists c. split; [done|]. apply not_false_iff_true. intros Hc.
      apply (accepted_has_no_assignment e pre post H Hq Hp); [|done]. by rewrite El, Hc.
    + exfalso. apply (accepted_has_no_assignment e pre post H Hq Hp); [|done]. by rewrite El.
  - intros. by apply (accepted_has_no_call e pre name spaces post).
Qed.

Lemma accepted_expressions_neither_write_nor_call_witness :
  follows (Ascii.eqb EQUALS) (bytes_of "= b->c && 'x' != d") = true /\ "sizeof" ∈ TYPE_OPERATORS.
Proof.
  destruct (accepted_expressions_neither_write_nor_call "sizeof (a) == b->c && 'x' != d")
    as (_ & Heq & Hcall); [reflexivity|reflexivity|]. split.
  - destruct (Heq (bytes_of "sizeof (a) ") (bytes_of "= b->c && 'x' != d")) as [H|(c & Hc & H)];
      [reflexivity|reflexivity|exact H|]. injection Hc as <-. discriminate H.
  - apply (Hcall [] "sizeof" [" "%char] (bytes_of "a) == b->c && 'x' != d"));
      first [reflexivity | discriminate].
Defined.

(** The text before a parenthesis is sliced one byte after the last character
    that is not of a word, which may be inside it: [é] followed by a name. *)
Lemma expression_screen_panics :
  let expression := string_of [ascii_of_N 195; ascii_of_N 169; "x"%char; "("%char] in
  utf8_valid (bytes_of expression) = true /\ validate_expression expression = Panic.
Proof. by split. Qed.
