(* ===== verification/Context.v ===== *)
(** * Context: which thread and frame a command is about
    ([crates/gdb-ai-core/src/gateway/operations/context.rs], and the context
    cache of [session.rs])

    Wait specifications, the resolution of the inferior, thread and frame
    handles of a request against the session's registry, the options it gives
    to an MI command and the context its result is attributed to. *)

From S2P Require Import Prelude Text Json Errors Domain Backend Protocol MemoryRange Results.

(** ** Wait specifications *)

Record WaitSpec := MkWaitSpec { spec_until : string; spec_timeout_ms : N }.

Definition WAIT_CONDITIONS : list string :=
  ["accepted"; "running"; "stopped"; "settled"; "snapshot"; "exited"].

Definition default_wait_ms : N := 5000.

Definition validate_wait (w : WaitSpec) : Result Error unit :=
  if negb (bool_decide (spec_until w ∈ WAIT_CONDITIONS)) then
    Err (Error_new Code.InvalidArgument "unknown wait condition")
  else if ((spec_timeout_ms w =? 0) || (300000 <? spec_timeout_ms w))%N then
    Err (Error_new Code.InvalidArgument "wait timeout must be between 1 and 300000 ms")
  else Ok tt.

(** [Deserialize] with [deny_unknown_fields] and a default timeout; a sequence
    gives the fields in order.  The text of a failure is [serde_json]'s. *)
Definition decode_wait_fields (until timeout : option Value) : option WaitSpec :=
  until ← (until ≫= Json.as_str);
  match timeout with
  | None => Some (MkWaitSpec until default_wait_ms)
  | Some v => timeout ← Json.as_u64 v; Some (MkWaitSpec until timeout)
  end.

Definition decode_wait (v : Value) : option WaitSpec :=
  match v with
  | Object fields =>
      if forallb (fun kv => bool_decide (kv.1 ∈ ["until"; "timeout_ms"])) fields
      then decode_wait_fields (assoc "until" fields) (assoc "timeout_ms" fields) else None
  | Array [until] => decode_wait_fields (Some until) None
  | Array [until; timeout] => decode_wait_fields (Some until) (Some timeout)
  | _ => None
  end.

Definition wait_spec (decode_error : Value -> string) (parameters : Value)
    : Result Error (option WaitSpec) :=
  match Json.get "wait" parameters with
  | None => Ok None
  | Some v =>
      wait ← ok_or (decode_wait v) (Error_new Code.InvalidArgument (decode_error v));
      _ ← validate_wait wait;
      Ok (Some wait)
  end.

(** ** Threads *)

Definition all_threads (state : SessionState) : list ThreadState :=
  btree_values (inferiors state) ≫= fun inferior => btree_values (inf_threads inferior).

Definition current_backend_thread (state : SessionState) (public_thread : string)
    : Result Error string :=
  ok_or (th_backend_id <$> List.find (fun t => bool_decide (th_id t = public_thread)) (all_threads state))
    (Error_new Code.StaleContext "thread handle is not current").

Definition has_backend (backend : string) (inferior : InferiorState) : bool :=
  existsb (fun t => bool_decide (th_backend_id t = backend)) (btree_values (inf_threads inferior)).

(** ** Resolution *)

Record CommandContext := MkCommandContext {
  backend_thread : option string;
  default_thread : option string;
  frame_level : option N;
  observation : option ObservationContext
}.

(** Every frame handle of a thread at a stop starts with this. *)
Definition frame_prefix (thread : ThreadId) (stop : StopId) : bytes :=
  let handle := bytes_of (FrameId_new thread stop 0) in take (length handle - 1) handle.

Definition frame_of_thread (stop : StopId) (frame : string) (t : ThreadState) : option (string * N) :=
  level ← strip_prefix (frame_prefix (th_id t) stop) (bytes_of frame);
  level ← parse_u64 level;
  Some (th_backend_id t, level).

(** The thread and level a frame handle names. *)
Definition resolve_frame (state : SessionState) (frame : string) : Result Error (string * N) :=
  stop ← ok_or (stop_id state) (Error_new Code.TargetRunning "frame requires a stopped target");
  ok_or (find_map (frame_of_thread stop frame) (all_threads state))
    (Error_new Code.StaleContext "frame handle is not current for this stop").

Definition only_thread (inferior : InferiorState) : option string :=
  match btree_values (inf_threads inferior) with [t] => Some (th_backend_id t) | _ => None end.

(** The thread GDB stopped in; a core file may name only its inferior. *)
Definition resolve_default (state : SessionState) : Result Error (option string) :=
  match stopped_thread_id state with
  | Some thread => backend ← current_backend_thread state thread; Ok (Some backend)
  | None =>
      Ok (stopped ← stopped_inferior_id state;
          inferior ← List.find (fun i => bool_decide (inf_id i = stopped)) (btree_values (inferiors state));
          only_thread inferior)
  end.

(** The thread an explicit inferior selects. *)
Definition resolve_inferior (state : SessionState) (inferior_id : string)
    (explicit default_thread : option string) : Result Error (option string) :=
  inferior ← ok_or (List.find (fun i => bool_decide (inf_id i = inferior_id)) (btree_values (inferiors state)))
               (Error_new Code.StaleContext "inferior handle is not current");
  match explicit with
  | Some thread =>
      if has_backend thread inferior then Ok (Some thread)
      else Err (Error_new Code.StaleContext "inferior and thread handles disagree")
  | None =>
      if match default_thread with Some thread => has_backend thread inferior | None => false end
      then Ok default_thread
      else match only_thread inferior with
           | Some thread => Ok (Some thread)
           | None =>
               Err (Error_new Code.StaleContext "inferior selection requires an explicit thread")
           end
  end.

Definition find_backend (state : SessionState) (backend : string) : option (InferiorState * ThreadState) :=
  find_map (fun inferior =>
    t ← List.find (fun t => bool_decide (th_backend_id t = backend)) (btree_values (inf_threads inferior));
    Some (inferior, t)) (btree_values (inferiors state)).

Definition attribute (selected : option (InferiorState * ThreadState)) (level : N)
    (context : ObservationContext) : ObservationContext :=
  match selected with
  | Some (inferior, thread) =>
      MkObservationContext (oc_observation_id context) (oc_stop_id context)
        (oc_captured_revision context) (oc_execution_epoch context) (Some (inf_id inferior))
        (Some (th_id thread)) (Some (FrameId_new (th_id thread) (oc_stop_id context) level))
  | None => context
  end.

Definition resolve_command_context (parameters : Value) (state : SessionState)
    : Result Error CommandContext :=
  let field name := Json.get name parameters ≫= Json.as_str in
  requested ← match field "thread_id" with
              | Some thread => backend ← current_backend_thread state thread; Ok (Some backend)
              | None => Ok None
              end;
  let level := Json.get "frame_level" parameters ≫= Json.as_u64 in
  '(frame_thread, level) ←
    match field "frame_id" with
    | Some frame =>
        '(backend, named) ← resolve_frame state frame;
        if match level with Some requested => negb (requested =? named)%N | None => false end
        then Err (Error_new Code.StaleContext "frame_id and frame_level disagree")
        else Ok (Some backend, Some named)
    | None => Ok (None, level)
    end;
  _ ← match requested, frame_thread with
      | Some requested, Some frame =>
          if decide (requested = frame) then Ok tt
          else Err (Error_new Code.StaleContext "thread and frame handles refer to different threads")
      | _, _ => Ok tt
      end;
  let explicit := or_else requested frame_thread in
  default_thread ← resolve_default state;
  backend_thread ← match field "inferior_id" with
                   | Some inferior_id => resolve_inferior state inferior_id explicit default_thread
                   | None => Ok explicit
                   end;
  let selected := or_else backend_thread default_thread ≫= find_backend state in
  let number := default 0%N level in
  if (U32_MAX <? number)%N then
    Err (Error_new Code.InvalidArgument "frame_level exceeds the supported frame range")
  else
    Ok (MkCommandContext backend_thread default_thread level
          (attribute selected number <$> observation_context_from_state state)).

Definition observation_context (parameters : Value) (state : SessionState)
    : Result Error (option ObservationContext) :=
  context ← resolve_command_context parameters state;
  Ok (observation context).

(** ** Options of a command *)

Definition STOP_FOCUS_COMMANDS : list string :=
  ["-exec-step"; "-exec-next"; "-exec-finish"; "-exec-step-instruction"; "-exec-next-instruction";
   "-exec-until"; "-stack-info-frame"; "-stack-list-frames"; "-stack-list-variables";
   "-stack-list-arguments"; "-data-evaluate-expression"; "-interpreter-exec";
   "-data-list-register-values"; "-var-create"].

Definition TOP_FRAME_COMMANDS : list string :=
  ["-stack-info-frame"; "-stack-list-variables"; "-data-evaluate-expression"; "-interpreter-exec";
   "-data-list-register-values"; "-var-create"].

Definition command_uses_stop_focus (command : bytes) : bool :=
  bool_decide (command ∈ bytes_of <$> STOP_FOCUS_COMMANDS).
Definition command_uses_top_frame (command : bytes) : bool :=
  bool_decide (command ∈ bytes_of <$> TOP_FRAME_COMMANDS).

Definition option_pair (name value : string) (command : MiCommand) : Result Error MiCommand :=
  command ← bare command (bytes_of name);
  bare command (bytes_of value).

Definition context_options (command : MiCommand) (parameters : Value) (state : SessionState)
    : Result Error MiCommand :=
  _ ← match Json.get "stop_id" parameters ≫= Json.as_str with
      | Some stop => require_stop state stop
      | None => Ok tt
      end;
  context ← resolve_command_context parameters state;
  let name := command_name command in
  let thread := or_else (backend_thread context)
                  (if command_uses_stop_focus name then default_thread context else None) in
  let level := or_else (frame_level context)
                 (if command_uses_top_frame name then Some 0%N else None) in
  contextual ← MiCommand_new name;
  contextual ← match thread with
               | Some thread => option_pair "--thread" thread contextual
               | None => Ok contextual
               end;
  contextual ← match level with
               | Some level => option_pair "--frame" (dec level) contextual
               | None => Ok contextual
               end;
  Ok (MkMiCommand (command_name contextual)
        (command_arguments contextual ++ command_arguments command)).

(** ** The stop a request is about *)

Definition require_stopped_context (parameters : Value) (state : SessionState)
    : Result Error unit :=
  match stop_id state with
  | None =>
      if negb (bool_decide (inferiors state = ∅)) &&
         forallb (fun i => bool_decide (inf_status i = Inferior.Exited)) (btree_values (inferiors state))
      then Err (Error_new Code.TargetExited "inspection target has exited")
      else Err (Error_new Code.TargetRunning "inspection requires stopped target")
  | Some stop =>
      match Json.get "stop_id" parameters ≫= Json.as_str with
      | Some expected => require_stop state expected
      | None =>
          if decide ((Json.get "accept_current_stop" parameters ≫= Json.as_bool) = Some true) then Ok tt
          else Err (Error_new Code.StaleContext
                 ("inspection requires stop_id (current is " +:+ stop +:+ ")"))
      end
  end.

(** ** Properties *)

Lemma find_elem {A} (p : A -> bool) l x : List.find p l = Some x -> x ∈ l /\ p x = true.
Proof. intros [H1 H2]%List.find_some. split; [by apply list_elem_of_In|done]. Qed.

Lemma current_backend_thread_Ok state thread b :
  current_backend_thread state thread = Ok b ->
  exists t, t ∈ all_threads state /\ th_id t = thread /\ th_backend_id t = b.
Proof.
  unfold current_backend_thread. destruct (List.find _ _) as [t|] eqn:E; [|done].
  intros [= <-]. apply find_elem in E as [Hin He]. exists t. by apply bool_decide_eq_true in He.
Qed.

(** A thread of an inferior of the registry. *)
Definition owns_thread (state : SessionState) (inferior : InferiorState) (t : ThreadState) : Prop :=
  inferior ∈ btree_values (inferiors state) /\ t ∈ btree_values (inf_threads inferior).

Lemma has_backend_elem b inferior :
  has_backend b inferior = true -> exists t, t ∈ btree_values (inf_threads inferior) /\ th_backend_id t = b.
Proof.
  unfold has_backend. intros (t & Hin & Ht)%existsb_exists. exists t.
  apply list_elem_of_In in Hin. by apply bool_decide_eq_true in Ht.
Qed.

Lemma only_thread_elem inferior b :
  only_thread inferior = Some b -> exists t, t ∈ btree_values (inf_threads inferior) /\ th_backend_id t = b.
Proof.
  unfold only_thread. destruct (btree_values _) as [|t [|]]; intros [= <-]. exists t. set_solver.
Qed.

Lemma find_backend_Some state b inferior t :
  find_backend state b = Some (inferior, t) -> owns_thread state inferior t /\ th_backend_id t = b.
Proof.
  unfold find_backend. intros (i & Hi & H)%find_map_elem.
  destruct (List.find _ _) as [t'|] eqn:E; [|done]. cbn in H. simplify_eq.
  apply find_elem in E as [Hin Ht]. by apply bool_decide_eq_true in Ht.
Qed.

Lemma find_map_None {A B} (f : A -> option B) l x : find_map f l = None -> x ∈ l -> f x = None.
Proof.
  induction l as [|y l IH]; [set_solver|]. cbn. destruct (f y) eqn:E; [done|].
  intros H [->|Hin]%elem_of_cons; [done|by apply IH].
Qed.

Lemma find_backend_exists state b inferior t :
  owns_thread state inferior t -> th_backend_id t = b -> is_Some (find_backend state b).
Proof.
  intros [Hi Ht] Hb. destruct (find_backend state b) eqn:E; [by eexists|].
  apply (find_map_None _ _ inferior) in E; [|done].
  cbv beta in E.
  destruct (List.find (fun t => bool_decide (th_backend_id t = b)) (btree_values (inf_threads inferior)))
    eqn:Ef; [done|]. apply list_elem_of_In in Ht. apply (List.find_none _ _ Ef) in Ht.
  by apply bool_decide_eq_false in Ht.
Qed.

(** A resolved thread is one of the registry. *)
Definition is_live (state : SessionState) (b : string) : Prop :=
  exists inferior t, owns_thread state inferior t /\ th_backend_id t = b.

Lemma all_threads_live state t : t ∈ all_threads state -> is_live state (th_backend_id t).
Proof.
  unfold all_threads. intros (i & Ht & Hi)%list_elem_of_bind. exists i, t. by split.
Qed.

Lemma resolve_frame_Ok state frame b level :
  resolve_frame state frame = Ok (b, level) ->
  exists stop t digits, stop_id state = Some stop /\ t ∈ all_threads state /\ th_backend_id t = b /\
    bytes_of frame = frame_prefix (th_id t) stop ++ digits /\ parse_u64 digits = Some level.
Proof.
  unfold resolve_frame. intros (stop & Hs & H)%bind_Ok.
  destruct (stop_id state) as [stop'|]; [|done]. cbn in Hs. simplify_eq.
  destruct (find_map _ _) as [[b' l']|] eqn:E; [|done]. cbn in H. simplify_eq.
  apply find_map_elem in E as (t & Hin & Ht). unfold frame_of_thread in Ht.
  destruct (strip_prefix _ _) as [digits|] eqn:Ed; [|done]. cbn in Ht.
  destruct (parse_u64 digits) as [n|] eqn:En; [|done]. cbn in Ht. simplify_eq.
  apply strip_prefix_Some in Ed. by exists stop, t, digits.
Qed.

Lemma resolve_default_live state b : resolve_default state = Ok (Some b) -> is_live state b.
Proof.
  unfold resolve_default. destruct (stopped_thread_id state) as [thread|].
  - intros (b' & Hb & H)%bind_Ok. simplify_eq. apply current_backend_thread_Ok in Hb as (t & Hin & _ & <-).
    by apply all_threads_live.
  - intros [= H]. destruct (stopped_inferior_id state) as [i|]; [|done]. cbn in H.
    destruct (List.find _ _) as [inferior|] eqn:E; [|done]. cbn in H.
    apply find_elem in E as [Hin _]. apply only_thread_elem in H as (t & Ht & Hb).
    by exists inferior, t.
Qed.

Lemma resolve_inferior_Ok state inferior_id explicit dflt r :
  resolve_inferior state inferior_id explicit dflt = Ok r ->
  exists inferior t, owns_thread state inferior t /\ inf_id inferior = inferior_id /\
    r = Some (th_backend_id t) /\ (forall thread, explicit = Some thread -> r = Some thread).
Proof.
  unfold resolve_inferior. intros (inferior & Hi & H)%bind_Ok.
  destruct (List.find _ _) as [i|] eqn:E; [|done]. cbn in Hi. simplify_eq.
  apply find_elem in E as [Hin Hid]. apply bool_decide_eq_true in Hid.
  assert (forall b, (exists t, t ∈ btree_values (inf_threads inferior) /\ th_backend_id t = b) ->
    exists t, owns_thread state inferior t /\ Some b = Some (th_backend_id t)) as Hown.
  { intros b (t & Ht & <-). by exists t. }
  destruct explicit as [thread|].
  - destruct (has_backend thread inferior) eqn:Eb; [|done]. injection H as <-.
    destruct (Hown thread) as (t & Ht & Hb); [by apply has_backend_elem|]. exists inferior, t.
    split_and!; try done; by intros ? [= ->].
  - destruct dflt as [d|]; [destruct (has_backend d inferior) eqn:Eb|].
    + injection H as <-. destruct (Hown d) as (t & Ht & Hb); [by apply has_backend_elem|]. by exists inferior, t.
    + destruct (only_thread inferior) as [b|] eqn:Eo; [|done]. injection H as <-.
      destruct (Hown b) as (t & Ht & Hb); [by apply only_thread_elem|]. by exists inferior, t.
    + destruct (only_thread inferior) as [b|] eqn:Eo; [|done]. injection H as <-.
      destruct (Hown b) as (t & Ht & Hb); [by apply only_thread_elem|]. by exists inferior, t.
Qed.

(** What a successful resolution of the handles of a request means. *)
Record resolves (parameters : Value) (state : SessionState) (c : CommandContext) : Prop := {
  resolves_thread thread :
    Json.get "thread_id" parameters ≫= Json.as_str = Some thread ->
    exists t, t ∈ all_threads state /\ th_id t = thread /\ backend_thread c = Some (th_backend_id t);
  resolves_frame frame :
    Json.get "frame_id" parameters ≫= Json.as_str = Some frame ->
    exists stop t digits level, stop_id state = Some stop /\ t ∈ all_threads state /\
      bytes_of frame = frame_prefix (th_id t) stop ++ digits /\ parse_u64 digits = Some level /\
      backend_thread c = Some (th_backend_id t) /\ frame_level c = Some level;
  resolves_inferior inferior_id :
    Json.get "inferior_id" parameters ≫= Json.as_str = Some inferior_id ->
    exists inferior t, owns_thread state inferior t /\ inf_id inferior = inferior_id /\
      backend_thread c = Some (th_backend_id t);
  resolves_live b :
    or_else (backend_thread c) (default_thread c) = Some b -> is_live state b;
  resolves_attribution context :
    observation c = Some context ->
    stop_id state = Some (oc_stop_id context) /\ oc_captured_revision context = revision state /\
    oc_execution_epoch context = execution_epoch state /\
    forall b, or_else (backend_thread c) (default_thread c) = Some b ->
      exists inferior t, owns_thread state inferior t /\ th_backend_id t = b /\
        oc_inferior_id context = Some (inf_id inferior) /\ oc_thread_id context = Some (th_id t) /\
        oc_frame_id context =
          Some (FrameId_new (th_id t) (oc_stop_id context) (default 0%N (frame_level c)))
}.

Lemma attribute_stop selected level context :
  oc_stop_id (attribute selected level context) = oc_stop_id context /\
  oc_captured_revision (attribute selected level context) = oc_captured_revision context /\
  oc_execution_epoch (attribute selected level context) = oc_execution_epoch context.
Proof. by destruct selected as [[]|]. Qed.

Lemma resolve_command_context_resolves parameters state c :
  resolve_command_context parameters state = Ok c -> resolves parameters state c.
Proof.
  unfold resolve_command_context.
  set (thread_id := Json.get "thread_id" parameters ≫= Json.as_str).
  set (frame_id := Json.get "frame_id" parameters ≫= Json.as_str).
  set (inferior_id := Json.get "inferior_id" parameters ≫= Json.as_str).
  intros (requested & Hreq & H)%bind_Ok. apply bind_Ok in H as ([frame_thread level] & Hframe & H).
  apply bind_Ok in H as ([] & Hagree & H). apply bind_Ok in H as (dflt & Hdefault & H).
  apply bind_Ok in H as (backend & Hinf & H).
  destruct (U32_MAX <? default 0%N level)%N; [done|]. simplify_eq.
  assert (forall thread, requested = Some thread -> is_live state thread) as Hlive_req.
  { intros thread ->. destruct thread_id as [th|]; [|done].
    apply bind_Ok in Hreq as (b & Hb & Hreq). simplify_eq.
    apply current_backend_thread_Ok in Hb as (t & Hin & _ & <-). by apply all_threads_live. }
  assert (forall thread, frame_thread = Some thread -> exists frame stop t digits n,
    frame_id = Some frame /\ stop_id state = Some stop /\ t ∈ all_threads state /\
    bytes_of frame = frame_prefix (th_id t) stop ++ digits /\ parse_u64 digits = Some n /\
    thread = th_backend_id t /\ level = Some n) as Hframe'.
  { intros thread ->. destruct frame_id as [frame|]; [|done].
    apply bind_Ok in Hframe as ([b n] & Hb & Hframe).
    destruct (match _ with Some _ => _ | None => false end); [done|]. simplify_eq.
    apply resolve_frame_Ok in Hb as (stop & t & digits & H1 & H2 & H3 & H4 & H5).
    by exists frame, stop, t, digits, n. }
  assert (forall thread, or_else requested frame_thread = Some thread ->
    (inferior_id = None -> backend = Some thread) /\ (inferior_id <> None -> backend = Some thread)) as Hb.
  { intros thread Ht. rewrite Ht in Hinf. split; intros Hi.
    - rewrite Hi in Hinf. by simplify_eq.
    - destruct inferior_id as [i|]; [|done].
      apply resolve_inferior_Ok in Hinf as (? & ? & _ & _ & _ & He). by apply He. }
  assert (forall thread, or_else requested frame_thread = Some thread -> backend = Some thread) as Hb'.
  { intros thread Ht. destruct (Hb thread Ht) as [H1 H2].
    destruct inferior_id; [by apply H2|by apply H1]. }
  assert (forall b, or_else backend dflt = Some b -> is_live state b) as Hlive.
  { intros b Hs. destruct backend as [b'|] eqn:Ebackend; cbn in Hs; simplify_eq.
    2: { by apply resolve_default_live. }
    destruct inferior_id as [i|].
    - apply resolve_inferior_Ok in Hinf as (inferior & t & Ho & _ & Ht & _). simplify_eq.
      by exists inferior, t.
    - simplify_eq. destruct requested as [r|]; cbn in Hinf; [simplify_eq; by apply Hlive_req|].
      destruct (Hframe' b Hinf) as (? & ? & t & ? & ? & _ & _ & Hin & _ & _ & -> & _).
      by apply all_threads_live. }
  split; cbn [backend_thread default_thread frame_level observation].
  - intros thread Ht. subst thread_id. rewrite Ht in Hreq. apply bind_Ok in Hreq as (b & Hc & Hreq).
    simplify_eq. apply current_backend_thread_Ok in Hc as (t & Hin & Hid & <-). exists t.
    split_and!; try done. by apply Hb'.
  - intros frame Hf. destruct frame_thread as [ft|].
    + destruct (Hframe' ft eq_refl) as (frame' & stop & t & digits & n & H1 & H2 & H3 & H4 & H5 & -> & H6).
      subst frame_id. rewrite H1 in Hf. injection Hf as <-. exists stop, t, digits, n. split_and!; try done. apply Hb'.
      destruct requested as [r|]; cbn; [|done]. by destruct (decide (r = th_backend_id t)) as [->|].
    + subst frame_id. rewrite Hf in Hframe. apply bind_Ok in Hframe as ([b n] & _ & Hframe).
      by destruct (match _ with Some _ => _ | None => false end).
  - intros i Hi. subst inferior_id. rewrite Hi in Hinf.
    apply resolve_inferior_Ok in Hinf as (inferior & t & Ho & Hid & Ht & _). by exists inferior, t.
  - exact Hlive.
  - intros context Hc. destruct (observation_context_from_state state) as [oc|] eqn:Eoc; [|done].
    cbn in Hc. simplify_eq. unfold observation_context_from_state in Eoc.
    destruct (stop_id state) as [stop|] eqn:Es; [|done]. simplify_eq.
    set (oc := MkObservationContext _ _ _ _ _ _ _).
    destruct (attribute_stop (or_else backend dflt ≫= find_backend state) (default 0%N level) oc)
      as (-> & -> & ->). split_and!; try done.
    intros b Hs. rewrite Hs. cbn [mbind option_bind].
    destruct (Hlive b Hs) as (i & t & Ho & Ht).
    destruct (find_backend_exists state b i t Ho Ht) as [[inferior thread] Hfind].
    pose proof (find_backend_Some _ _ _ _ Hfind) as [Ho' Ht'].
    exists inferior, thread. by rewrite Hfind.
Qed.

Definition option_arguments (name : string) (value : option string) : list MiArgument :=
  match value with Some v => [Bare (bytes_of name); Bare (bytes_of v)] | None => [] end.

Lemma bare_Ok c value c' : bare c value = Ok c' -> c' = push_argument (Bare value) c.
Proof. unfold bare. destruct (_ || _); [done|]. by intros [= <-]. Qed.

Lemma option_pair_Ok name value c c' :
  option_pair name value c = Ok c' ->
  command_name c' = command_name c /\
  command_arguments c' = command_arguments c ++ option_arguments name (Some value).
Proof.
  unfold option_pair. intros (c1 & H1%bare_Ok & H2%bare_Ok)%bind_Ok. subst. cbn. by rewrite <-app_assoc.
Qed.


(** A frame of the second thread of a stopped session. *)
Definition sample_thread (id backend : string) : ThreadState := MkThreadState id backend false None.
Definition sample_stopped : SessionState :=
  let inferior := MkInferiorState "i1_i1" "i1" (Some 7%N) 1 Inferior.Stopped None
                    {["1" := sample_thread "t1_1" "1"; "2" := sample_thread "t1_2" "2"]} in
  set_inferiors {["i1" := inferior]} (set_stop_id (Some "s1_1") (creating "sess_0123456789abcdef")).

Definition sample_frame_parameters : Value :=
  Object [("stop_id", Str "s1_1"); ("frame_id", Str (FrameId_new "t1_2" "s1_1" 3))].

