(* ===== verification/MiView.v ===== *)
(** * MiView: GDB's answers as facts
    ([crates/gdb-ai-core/src/gateway/operations/mi.rs], and the readers of
    [values.rs])

    What the handlers read from MI records: threads, frames, variables,
    modules, symbols, instructions, registers and variable objects, each as
    the JSON facts of a response. *)

From S2P Require Import Prelude Text MiAst Json Errors Domain Normalize Protocol MemoryRange Actor Wire Results Encoding Context.

(** ** Integers of texts *)

Definition I64_MAX : N := 9223372036854775807.

(** [i64::from_str]. *)
Definition parse_i64 (s : string) : option Z :=
  match bytes_of s with
  | c :: r =>
      if (c =? "-")%char then
        match r with
        | [] => None
        | _ => n ← radix_digits (I64_MAX + 1) 10 0 r; Some (- Z.of_N n)%Z
        end
      else Z.of_N <$> from_str_radix I64_MAX 10 (c :: r)
  | [] => None
  end.

Definition parse_number (s : string) : option N := parse_u64 (bytes_of s).

(** ** Items of a list *)

Definition aggregate_items (v : MiValue) (result_name : string) : list (list MiResult) :=
  match v with
  | ValueList values => omap value_results values
  | ResultList results =>
      omap (fun r => value_results (value r)) (filter (fun r => name r = result_name) results)
  | Tuple results => [results]
  | Const _ => []
  end.

Definition named_items (record : MiRecord) (field item : string) : list (list MiResult) :=
  match find (record_results record) field with
  | Some v => aggregate_items v item
  | None => []
  end.

Definition result_text (record : MiRecord) (n : string) : option string :=
  find_str (record_results record) n.

Definition frame_summary (record : MiRecord) : option FrameSummary :=
  fields ← (find (record_results record) "frame" ≫= value_results);
  Some (frame_summary_fields fields).

Definition result_string_list (record : MiRecord) (n : string) : list string :=
  match find (record_results record) n with
  | Some (ValueList values) => (fun v => default "" (MiAst.as_str v)) <$> values
  | _ => []
  end.

(** ** Values *)

Section values.
Context (base64_encode : bytes -> string).

Definition result_value (results : list MiResult) (n : string) : option Value :=
  b ← (find results n ≫= as_bytes);
  Some match from_utf8 b with
       | Some text => Str text
       | None => Object (byte_content base64_encode b)
       end.

Definition result_bool (results : list MiResult) (n : string) : option bool :=
  s ← find_str results n;
  if bool_decide (s = "1" \/ s = "true") then Some true
  else if bool_decide (s = "0" \/ s = "false") then Some false
  else None.

Definition result_count (results : list MiResult) (n : string) : option N :=
  find_str results n ≫= parse_number.

Inductive ValueStatus := Available | Unavailable | NotCollected | Failed | Invalid | Unknown.

#[export] Instance ValueStatus_eq_dec : EqDecision ValueStatus.
Proof. solve_decision. Defined.

Definition status_wire (x : ValueStatus) : string :=
  snake_case match x with
  | Available => "Available" | Unavailable => "Unavailable" | NotCollected => "NotCollected"
  | Failed => "Failed" | Invalid => "Invalid" | Unknown => "Unknown"
  end.

Definition SENTINELS : list string := ["<optimized out>"; "<unavailable>"].
Definition READ_ERROR : bytes := bytes_of "<error reading variable:".

(** What the value itself says, once its scope does not rule it out. *)
Definition collected_status (v : option bytes) : ValueStatus :=
  match v with
  | Some b =>
      if bool_decide (b ∈ bytes_of <$> SENTINELS) then Unavailable
      else if starts_with READ_ERROR b then Failed
      else Available
  | None => NotCollected
  end.

Definition value_status (fields : list MiResult) : ValueStatus :=
  let collected := collected_status (find fields "value" ≫= as_bytes) in
  match find_str fields "in_scope" with
  | Some scope =>
      if bool_decide (scope = "0" \/ scope = "false") then Unavailable
      else if bool_decide (scope = "invalid") then Invalid
      else if bool_decide (scope = "1" \/ scope = "true") then collected
      else Unknown
  | None => collected
  end.

Definition status_value (fields : list MiResult) : Value := Str (status_wire (value_status fields)).

(** ** Threads and frames *)

Definition find_thread (state : SessionState) (backend_id : string)
    : option (InferiorState * ThreadState) :=
  find_map (fun inferior => t ← inf_threads inferior !! backend_id; Some (inferior, t))
    (btree_values (inferiors state)).

Definition thread_facts_of (state : SessionState) (fields : list MiResult) : Value :=
  let backend_id := default "" (find_str fields "id") in
  let selected := find_thread state backend_id in
  Object [("thread_id", nullable (fun s => Str (th_id s.2)) selected);
          ("backend_id", Str backend_id);
          ("target_id", nullable Str (find_str fields "target-id"));
          ("inferior_id", nullable (fun s => Str (inf_id s.1)) selected);
          ("state", nullable Str (find_str fields "state"));
          ("name", nullable Str (find_str fields "name"));
          ("frame", nullable (fun f => frame_value (frame_summary_fields f))
                      (find fields "frame" ≫= value_results))].

Definition identified (fields : list MiResult) : Prop := is_Some (find_str fields "id").

#[export] Instance identified_dec fields : Decision (identified fields).
Proof. unfold identified. apply _. Defined.

(** The page and the number of all threads. *)
Definition normalized_threads (record : MiRecord) (state : SessionState) (offset : N) (limit : nat)
    : list Value * nat :=
  let threads := filter identified (named_items record "threads" "thread") in
  let total := length threads in
  (thread_facts_of state <$> take limit (drop (N.to_nat (N.min offset (N.of_nat total))) threads),
   total).

Definition frame_facts (context : option ObservationContext) (fields : list MiResult) : Value :=
  let frame := frame_summary_fields fields in
  let frame_id := context ← context; thread ← oc_thread_id context;
                  Some (FrameId_new thread (oc_stop_id context) (fr_level frame)) in
  Object ([("frame_id", nullable Str frame_id);
           ("level", uint (fr_level frame));
           ("address", nullable Str (fr_address frame));
           ("function", nullable Str (fr_function frame));
           ("source", nullable (fun path => Object [("path", Str path); ("line", nullable uint (fr_line frame))])
                        (fr_source frame))] ++
          skipped "module" Str (fr_module frame)).

Definition normalized_frames (record : MiRecord) (state : SessionState) (parameters : Value)
    : Result Error (list Value) :=
  match find (record_results record) "stack" with
  | None => Ok []
  | Some stack =>
      context ← observation_context parameters state;
      Ok (frame_facts context <$> aggregate_items stack "frame")
  end.

(** ** Variables *)

Definition normalized_variable (fields : list MiResult) : list (string * Value) :=
  [("name", default Null (result_value fields "name"));
   ("type", default Null (result_value fields "type"));
   ("value", default Null (result_value fields "value"));
   ("status", status_value fields)] ++
  skipped "dynamic" Bool (result_bool fields "dynamic").

(** What identifies a variable: its name, declaration and shadowing. *)
Definition IDENTITY_FIELDS : list string :=
  ["name"; "arg"; "filename"; "fullname"; "line"; "shadowed"].

Definition same_variable (typed v : list MiResult) : bool :=
  forallb (fun field => bool_decide (find typed field = find v field)) IDENTITY_FIELDS.

Definition omitted_variables : Error := Error_new Code.GdbError "GDB omitted frame variables".
Definition changed_variables : Error :=
  Error_new Code.GdbError "GDB variable identities changed between type and value reads".

Definition variable_items (record : MiRecord) : Result Error (list (list MiResult)) :=
  fields ← ok_or (find (record_results record) "variables") omitted_variables;
  Ok (aggregate_items fields "variable").

(** A variable of the typed listing with the value of the other one. *)
Definition with_value (v : list MiResult) (variable : list (string * Value)) : list (string * Value) :=
  let variable := set_field "value" (default Null (result_value v "value")) variable in
  let variable := set_field "status" (status_value v) variable in
  match result_bool v "dynamic" with
  | Some dynamic => set_field "dynamic" (Bool dynamic) variable
  | None => variable
  end.

Definition is_argument (fields : list MiResult) : bool :=
  bool_decide (result_bool fields "arg" = Some true).

Definition normalized_frame_variables (types : MiRecord) (values : option MiRecord)
    : Result Error (list (bool * Value)) :=
  typed ← variable_items types;
  match values with
  | None => Ok ((fun fields => (is_argument fields, Object (normalized_variable fields))) <$> typed)
  | Some record =>
      values ← variable_items record;
      if negb (length typed =? length values)%nat ||
         negb (forallb (fun p => same_variable p.1 p.2) (zip typed values))
      then Err changed_variables
      else Ok (zip_with (fun fields v =>
                 (is_argument fields, Object (with_value v (normalized_variable fields))))
                 typed values)
  end.

Definition normalized_arguments (record : MiRecord) : list Value :=
  (fun fields =>
     let arguments := match find fields "args" with
                      | Some args => (fun f => Object (normalized_variable f)) <$> aggregate_items args "arg"
                      | None => []
                      end in
     Object [("level", nullable uint (find_str fields "level" ≫= parse_number));
             ("arguments", Array arguments)])
  <$> named_items record "stack-args" "frame".

(** ** Variable objects *)

Record ValueChild := MkValueChild {
  vc_path : string;
  vc_name : option string;
  vc_status : ValueStatus;
  vc_type_name : option Value;
  vc_value : option Value;
  vc_children_count : option N;
  vc_has_children : option bool;
  vc_dynamic : option bool;
  vc_display_hint : option string;
  vc_has_more : option bool
}.

Record ValueChange := MkValueChange {
  vx_path : string;
  vx_value_id : option string;
  vx_status : ValueStatus;
  vx_type_name : option Value;
  vx_value : option Value;
  vx_type_changed : option bool;
  vx_children_count : option N;
  vx_has_children : option bool;
  vx_dynamic : option bool;
  vx_display_hint : option string;
  vx_has_more : option bool;
  vx_new_children : list ValueChild
}.

Definition some_children (count : option N) : option bool := (fun n => 0 <? n)%N <$> count.

Definition value_child (fields : list MiResult) : option ValueChild :=
  path ← find_str fields "name";
  let count := result_count fields "numchild" in
  Some (MkValueChild path (find_str fields "exp") (value_status fields) (result_value fields "type")
          (result_value fields "value") count (some_children count) (result_bool fields "dynamic")
          (find_str fields "displayhint") (result_bool fields "has_more")).

Definition value_children (record : MiRecord) : list ValueChild :=
  omap value_child (named_items record "children" "child").

Definition value_change (binding : ValueBinding) (fields : list MiResult) : option ValueChange :=
  path ← find_str fields "name";
  let count := or_else (result_count fields "new_num_children") (result_count fields "numchild") in
  let new_children := match find fields "new_children" with
                      | Some children => omap value_child (aggregate_items children "child")
                      | None => []
                      end in
  Some (MkValueChange path
          (if bool_decide (path = vb_backend_name binding) then Some (vb_value_id binding) else None)
          (value_status fields)
          (or_else (result_value fields "new_type") (result_value fields "type"))
          (result_value fields "value") (result_bool fields "type_changed") count (some_children count)
          (result_bool fields "dynamic") (find_str fields "displayhint")
          (result_bool fields "has_more") new_children).

Definition value_changes (record : MiRecord) (binding : ValueBinding) : list ValueChange :=
  omap (value_change binding) (named_items record "changelist" "change").

Definition child_value (c : ValueChild) : Value :=
  Object ([("path", Str (vc_path c))] ++ skipped "name" Str (vc_name c) ++
          [("status", Str (status_wire (vc_status c)))] ++
          skipped "type" id (vc_type_name c) ++ skipped "value" id (vc_value c) ++
          skipped "children_count" uint (vc_children_count c) ++
          skipped "has_children" Bool (vc_has_children c) ++ skipped "dynamic" Bool (vc_dynamic c) ++
          skipped "display_hint" Str (vc_display_hint c) ++ skipped "has_more" Bool (vc_has_more c)).

Definition change_value (c : ValueChange) : Value :=
  Object ([("path", Str (vx_path c))] ++ skipped "value_id" Str (vx_value_id c) ++
          [("status", Str (status_wire (vx_status c)))] ++
          skipped "type" id (vx_type_name c) ++ skipped "value" id (vx_value c) ++
          skipped "type_changed" Bool (vx_type_changed c) ++
          skipped "children_count" uint (vx_children_count c) ++
          skipped "has_children" Bool (vx_has_children c) ++ skipped "dynamic" Bool (vx_dynamic c) ++
          skipped "display_hint" Str (vx_display_hint c) ++ skipped "has_more" Bool (vx_has_more c) ++
          match vx_new_children c with
          | [] => []
          | children => [("new_children", Array (child_value <$> children))]
          end).

End values.

(** ** Modules, files and symbols *)

Definition normalized_modules (record : MiRecord) : list Value :=
  (fun fields =>
     let text n := nullable Str (find_str fields n) in
     Object [("module_id", nullable Str (or_else (find_str fields "id") (find_str fields "target-name")));
             ("target_name", text "target-name"); ("host_name", text "host-name");
             ("from", text "from"); ("to", text "to");
             ("symbols_loaded", nullable (fun s => Bool (bool_decide (s = "1")))
                                  (find_str fields "symbols-loaded"))])
  <$> named_items record "shared-libraries" "library".

Definition normalized_source_files (record : MiRecord) : list Value :=
  (fun fields =>
     Object [("file", nullable Str (find_str fields "file"));
             ("fullname", nullable Str (find_str fields "fullname"));
             ("debug_fully_read", nullable (fun s => Bool (bool_decide (s = "true")))
                                    (find_str fields "debug-fully-read"))])
  <$> named_items record "files" "file".

Definition present (fields : list (string * Value)) : list (string * Value) :=
  filter (fun kv => kv.2 <> Null) fields.

Definition normalized_symbol (fields : list MiResult) (path : option string) : option Value :=
  n ← find_str fields "name";
  let source path := Object (present [("path", Str path);
                                      ("line", nullable uint (find_str fields "line" ≫= parse_number))]) in
  Some (Object (present [("name", Str n); ("type", nullable Str (find_str fields "type"));
                         ("address", nullable Str (find_str fields "address"));
                         ("source", nullable source path)])).

Definition file_symbols (file : list MiResult) : list Value :=
  let path := or_else (find_str file "fullname") (find_str file "filename") in
  match find file "symbols" with
  | Some symbols => omap (fun s => normalized_symbol s path) (aggregate_items symbols "symbol")
  | None => []
  end.

Definition normalized_symbols (record : MiRecord) : list Value :=
  match find (record_results record) "symbols" ≫= value_results with
  | None => []
  | Some groups =>
      match find groups "debug" with
      | Some debug => aggregate_items debug "file" ≫= file_symbols
      | None => []
      end ++
      match find groups "nondebug" with
      | Some nondebug =>
          omap (fun s => normalized_symbol s None) (aggregate_items nondebug "symbol")
      | None => []
      end
  end.

(** ** Instructions *)

(** [str::split_once] at a white-space character. *)
Fixpoint split_once_space (s : list N) : option (list N * list N) :=
  match s with
  | [] => None
  | c :: r =>
      if is_whitespace c then Some ([], r)
      else p ← split_once_space r; Some (c :: p.1, p.2)
  end.

Definition mnemonic_operands (instruction : string) : string * string :=
  match split_once_space (chars_of instruction) with
  | Some (mnemonic, operands) =>
      (string_of_chars mnemonic, string_of_chars (trim_matches is_whitespace operands))
  | None => (instruction, "")
  end.

Definition ok {A} (r : Result Error A) : option A :=
  match r with Ok a => Some a | Err _ => None end.

Definition instruction_facts (results : list MiResult) (file : option string) (line : option N)
    (current : option N) (address instruction : string) : Value :=
  let number := ok (parse_address address) in
  let '(mnemonic, operands) := mnemonic_operands instruction in
  Object [("address", Str address);
          ("offset", nullable Int (find_str results "offset" ≫= parse_i64));
          ("bytes", nullable Str (find_str results "opcodes"));
          ("mnemonic", Str mnemonic);
          ("operands", Str operands);
          ("function", nullable Str (find_str results "func-name"));
          ("source", nullable (fun f => Object [("path", Str f); ("line", nullable uint line)]) file);
          ("current", Bool (bool_decide (is_Some number) && bool_decide (number = current)))].

(** A tuple's source position is inherited by what it contains. *)
Fixpoint collect_instructions (v : MiValue) (file : option string) (line : option N)
    (current : option N) : list Value :=
  match v with
  | Tuple results | ResultList results =>
      let file := or_else (or_else (find_str results "fullname") (find_str results "file")) file in
      let line := or_else (find_str results "line" ≫= parse_number) line in
      match find_str results "address", find_str results "inst" with
      | Some address, Some instruction =>
          [instruction_facts results file line current address instruction]
      | _, _ => []
      end ++
      (fix go (l : list (MiResultOf MiValue)) : list Value :=
         match l with
         | [] => []
         | r :: l => collect_instructions (value r) file line current ++ go l
         end) results
  | ValueList values =>
      (fix go (l : list MiValue) : list Value :=
         match l with
         | [] => []
         | w :: l => collect_instructions w file line current ++ go l
         end) values
  | Const _ => []
  end.

Fixpoint position {A} (p : A -> bool) (l : list A) : option nat :=
  match l with
  | [] => None
  | x :: r => if p x then Some 0 else S <$> position p r
  end.

Definition is_current (instruction : Value) : bool :=
  bool_decide (Json.get "current" instruction = Some (Bool true)).

Definition at_or_after (current : N) (instruction : Value) : bool :=
  match Json.get "address" instruction ≫= Json.as_str with
  | Some address => match parse_address address with Ok n => (current <=? n)%N | Err _ => false end
  | None => false
  end.

Definition limit_disassembly_instructions (instructions : list Value) (current : N)
    (before after : nat) : list Value :=
  let pivot := default (length instructions - 1)
                 (or_else (position is_current instructions)
                    (position (at_or_after current) instructions)) in
  let start := pivot - before in
  let stop := Nat.min (pivot + after + 1) (length instructions) in
  take (stop - start) (drop start instructions).

Definition disassembly_instructions (record : MiRecord) (current : option N)
    (around : option (nat * nat)) : list Value :=
  let instructions := record_results record ≫= fun r => collect_instructions (value r) None None current in
  match current, around with
  | Some current, Some (before, after) =>
      limit_disassembly_instructions instructions current before after
  | _, _ => instructions
  end.

(** ** Registers *)

(** The later of two values of a register counts. *)
Definition register_values (record : MiRecord) : gmap N Value :=
  foldl (fun m p => <[p.1 := p.2]> m) ∅
    (omap (fun fields =>
       number ← (find_str fields "number" ≫= parse_number);
       v ← find_str fields "value";
       Some (number, Str v)) (named_items record "register-values" "register-values")).

Definition to_ascii_lowercase (c : ascii) : ascii :=
  if is_ascii_upper c then ascii_of_N (byte_N c + 32) else c.

Definition eq_ignore_ascii_case (s t : string) : bool :=
  bool_decide (to_ascii_lowercase <$> bytes_of s = to_ascii_lowercase <$> bytes_of t).

Definition find_register_name (names : list string) (requested : string) : option string :=
  List.find (fun n => eq_ignore_ascii_case n requested) names.

Definition ROLES : list (list string * list string) :=
  [(["pc"], ["rip"; "pc"]);
   (["sp"; "stack"; "stack_pointer"], ["rsp"; "sp"]);
   (["fp"; "bp"; "frame_pointer"], ["rbp"; "x29"; "fp"]);
   (["return"; "ret"; "retval"], ["rax"; "x0"]);
   (["flags"], ["eflags"; "cpsr"]);
   (["syscall_number"], ["orig_rax"; "x8"]);
   (["syscall_return"], ["rax"; "x0"]);
   (["tls"], ["fs_base"; "tpidr_el0"]);
   (["argument_0"; "argument0"; "arg0"; "a0"], ["rdi"; "x0"]);
   (["argument_1"; "argument1"; "arg1"], ["rsi"; "x1"]);
   (["argument_2"; "argument2"; "arg2"], ["rdx"; "x2"]);
   (["argument_3"; "argument3"; "arg3"], ["rcx"; "x3"]);
   (["argument_4"; "argument4"; "arg4"], ["r8"; "x4"]);
   (["argument_5"; "argument5"; "arg5"], ["r9"; "x5"]);
   (["argument_6"; "argument6"; "arg6"], ["x6"]);
   (["argument_7"; "argument7"; "arg7"], ["x7"])].

Definition register_role_candidates (role : string) : option (list string) :=
  snd <$> List.find (fun p => bool_decide (role ∈ p.1)) ROLES.

Definition target_architecture (register_names : list string) : string :=
  if bool_decide (is_Some (find_register_name register_names "rip")) then "i386:x86-64"
  else if bool_decide (is_Some (find_register_name register_names "x29")) then "aarch64"
  else "unknown".

Definition resolve_register_name (requested : string) (names : list string) : Result Error string :=
  match find_register_name names requested with
  | Some n => Ok n
  | None =>
      candidates ← ok_or (register_role_candidates requested)
                     (Error_new Code.InvalidArgument ("unknown register or role " +:+ requested));
      ok_or (find_map (find_register_name names) candidates)
        (Error_new Code.CapabilityMissing ("target has no register for role " +:+ requested))
  end.

Definition valid_integer_literal (v : string) : bool :=
  let b := bytes_of v in
  let unsigned := default b (strip_prefix (bytes_of "-") b) in
  match strip_prefix (bytes_of "0x") unsigned with
  | Some hex => negb (bool_decide (hex = [])) && forallb is_ascii_hexdigit hex
  | None => negb (bool_decide (unsigned = [])) && forallb is_ascii_digit unsigned
  end.

(** ** Properties *)

(** *** The join of two variable listings *)

Definition identity (fields : list MiResult) : list (option MiValue) :=
  find fields <$> IDENTITY_FIELDS.

Lemma same_variable_identity typed v : same_variable typed v = true <-> identity typed = identity v.
Proof.
  unfold same_variable, identity. rewrite forallb_forall. split.
  - intros H. apply list_fmap_ext. intros i field Hi.
    apply (bool_decide_eq_true (find typed field = find v field)), H, list_elem_of_In.
    by eapply list_elem_of_lookup_2.
  - intros H field Hf. apply bool_decide_eq_true. apply list_elem_of_In in Hf.
    apply list_elem_of_lookup in Hf as [i Hi].
    assert ((find typed <$> IDENTITY_FIELDS) !! i = (find v <$> IDENTITY_FIELDS) !! i) as He by congruence.
    rewrite !list_lookup_fmap, Hi in He. by simplify_eq/=.
Qed.

Section join.
Context (base64_encode : bytes -> string).

Lemma assoc_set_field key (v : Value) fields k :
  assoc k (set_field key v fields) = if decide (k = key) then Some v else assoc k fields.
Proof.
  unfold set_field, remove_field. cbn [assoc]. destruct (decide (key = k)) as [->|Hne].
  { by rewrite decide_True. }
  rewrite (decide_False (P := k = key)) by congruence.
  induction fields as [|[k' w] r IH]; [done|]. rewrite filter_cons. cbn [assoc fst].
  destruct (decide (k' <> key)) as [Hk|Hk]; cbn [assoc].
  - destruct (decide (k' = k)); [done|apply IH].
  - rewrite IH. rewrite decide_False; [done|]. by destruct (decide (k' = key)) as [->|].
Qed.

(** The facts a joined variable states. *)
Record joined (typed v : list MiResult) (fact : bool * Value) : Prop := {
  joined_identity : identity typed = identity v;
  joined_argument : fact.1 = is_argument typed;
  joined_name : Json.get "name" fact.2 = Some (default Null (result_value base64_encode typed "name"));
  joined_type : Json.get "type" fact.2 = Some (default Null (result_value base64_encode typed "type"));
  joined_value : Json.get "value" fact.2 = Some (default Null (result_value base64_encode v "value"));
  joined_status : Json.get "status" fact.2 = Some (status_value v)
}.

Lemma with_value_joined typed v :
  identity typed = identity v ->
  joined typed v (is_argument typed, Object (with_value base64_encode v (normalized_variable base64_encode typed))).
Proof.
  intros H. split; [done|done|..]; cbn [snd Json.get]; unfold with_value;
    destruct (result_bool v "dynamic"); rewrite ?assoc_set_field; reflexivity.
Qed.

(** The values of a frame's variables are joined to the variables they
    belong to: when a listing of types is completed by a listing of values,
    every fact pairs a variable of the first with the variable at its place in
    the second, the two agree on name, declaration and shadowing, the name and
    the type are the first's and the value and the status the second's; listings
    of other variables or of other lengths are refused. *)
Theorem values_join_their_variables types values :
  match variable_items types, variable_items values with
  | Ok typed, Ok vs =>
      match normalized_frame_variables base64_encode types (Some values) with
      | Ok facts =>
          identity <$> typed = identity <$> vs /\
          length facts = length typed /\
          forall i t v fact, typed !! i = Some t -> vs !! i = Some v -> facts !! i = Some fact ->
            joined t v fact
      | Err e => identity <$> typed <> identity <$> vs /\ e = changed_variables
      end
  | Err e, _ => normalized_frame_variables base64_encode types (Some values) = Err e
  | Ok _, Err e => normalized_frame_variables base64_encode types (Some values) = Err e
  end.
Proof.
  unfold normalized_frame_variables.
  destruct (variable_items types) as [typed|e]; [|done]. cbn [mbind Result_bind].
  destruct (variable_items values) as [vs|e]; [|done]. cbn [mbind Result_bind].
  assert ((length typed =? length vs)%nat && forallb (fun p => same_variable p.1 p.2) (zip typed vs) = true
    <-> identity <$> typed = identity <$> vs) as Hsame.
  { revert vs. induction typed as [|t typed IH]; intros [|v vs]; try done.
    cbn [length zip zip_with forallb fst snd Nat.eqb]. rewrite !fmap_cons.
    specialize (IH vs). rewrite andb_true_iff in IH |- *. rewrite andb_true_iff, same_variable_identity.
    split; [intros (Hl & Hi & Hr)|intros Hc].
    - rewrite Hi. f_equal. by apply IH.
    - pose proof (f_equal (fun l => l !! 0) Hc) as Hi. cbn in Hi. apply (inj Some) in Hi.
      apply (f_equal tail), IH in Hc as [Hl Hr]. done. }
  destruct (decide (identity <$> typed = identity <$> vs)) as [Heq|Hne].
  - pose proof Heq as Hb. apply Hsame, andb_true_iff in Hb as [Hl Hf]. rewrite Hl, Hf. cbn [negb orb].
    split; [done|]. apply Nat.eqb_eq in Hl. split; [rewrite length_zip_with; lia|].
    intros i t v fact Ht Hv Hfact. rewrite lookup_zip_with, Ht in Hfact. cbn in Hfact.
    rewrite Hv in Hfact. cbn in Hfact. injection Hfact as <-. apply with_value_joined.
    assert ((identity <$> typed) !! i = (identity <$> vs) !! i) as He by congruence.
    rewrite !list_lookup_fmap, Ht, Hv in He. cbn in He. by apply (inj Some).
  - destruct (negb _ || negb _) eqn:E; [by split|]. exfalso. apply Hne, Hsame.
    apply orb_false_iff in E as [E1%negb_false_iff E2%negb_false_iff]. by rewrite E1, E2.
Qed.

End join.

(** *** The window of a disassembly *)

Lemma instruction_Some {A} (p : A -> bool) l i :
  position p l = Some i -> exists x, l !! i = Some x /\ p x = true.
Proof.
  revert i. induction l as [|x l IH]; intros i; cbn; [done|]. destruct (p x) eqn:E.
  - intros [= <-]. by exists x.
  - destruct (position p l) as [j|]; [|done]. intros [= <-]. by apply IH.
Qed.

Lemma instruction_first {A} (p : A -> bool) l i :
  position p l = Some i -> forall j x, j < i -> l !! j = Some x -> p x = false.
Proof.
  revert i. induction l as [|y l IH]; intros i; cbn; [done|]. destruct (p y) eqn:E; [intros [= <-]; lia|].
  destruct (position p l) as [k|]; [|done]. intros [= <-] [|j] x Hj Hx; cbn in Hx; [by simplify_eq|].
  eapply IH; [done| |exact Hx]. lia.
Qed.

Lemma instruction_None {A} (p : A -> bool) l : position p l = None -> forall x, x ∈ l -> p x = false.
Proof.
  induction l as [|y l IH]; cbn; [set_solver|]. destruct (p y) eqn:E; [done|].
  destruct (position p l); [done|]. intros _ x [->|Hx]%elem_of_cons; [done|by apply IH].
Qed.

(** C: a disassembly around an address keeps the instructions in order and
    without gaps and shows the focus: the answer is the part of the listing
    from [before] instructions before the focus to [after] behind it, cut at
    the ends of the listing, where the focus is the first instruction marked
    current, else the first one not before the address, else the last. *)
Theorem disassembly_shows_its_focus record current before after :
  let all := disassembly_instructions record (Some current) None in
  let shown := disassembly_instructions record (Some current) (Some (before, after)) in
  exists front back focus,
    all = front ++ shown ++ back /\
    length shown <= before + after + 1 /\
    (all <> [] -> shown !! (focus - length front) = all !! focus /\ length front <= focus < length all /\
       (front = [] \/ length front = focus - before) /\
       (back = [] \/ length back = length all - (focus + after + 1))) /\
    match position is_current all with
    | Some i => focus = i
    | None => match position (at_or_after current) all with
              | Some i => focus = i
              | None => focus = length all - 1
              end
    end.
Proof.
  cbn zeta. unfold disassembly_instructions.
  generalize (record_results record ≫= fun r => collect_instructions (value r) None None (Some current)).
  intros all. unfold limit_disassembly_instructions.
  set (pivot := default (length all - 1) _).
  exists (take (pivot - before) all), (drop (Nat.min (pivot + after + 1) (length all)) all), pivot.
  assert (all <> [] -> pivot < length all) as Hp.
  { intros Hne. assert (0 < length all) by (destruct all; [done|cbn; lia]).
    subst pivot. destruct (position is_current all) as [i|] eqn:E1; cbn.
    - apply instruction_Some in E1 as (x & Hx & _). by eapply lookup_lt_Some.
    - destruct (position (at_or_after current) all) as [i|] eqn:E2; cbn; [|lia].
      apply instruction_Some in E2 as (x & Hx & _). by eapply lookup_lt_Some. }
  assert (pivot - before <= Nat.min (pivot + after + 1) (length all)) as Hle.
  { destruct (decide (all = [])) as [E|Hne]; [|specialize (Hp Hne); lia].
    assert (pivot = 0) as -> by (subst pivot; by rewrite E). lia. }
  split_and!.
  - rewrite take_drop_commute. replace (pivot - before + (Nat.min (pivot + after + 1) (length all) - (pivot - before)))
      with (Nat.min (pivot + after + 1) (length all)) by lia.
    rewrite app_assoc. rewrite <-(take_drop (Nat.min (pivot + after + 1) (length all)) all) at 1. f_equal.
    rewrite <-(take_drop (pivot - before) (take (Nat.min (pivot + after + 1) (length all)) all)) at 1. f_equal.
    rewrite take_take. f_equal. lia.
  - rewrite length_take, length_drop. lia.
  - intros Hne. specialize (Hp Hne). rewrite length_take, length_drop.
    rewrite Nat.min_l by lia. rewrite lookup_take_lt, lookup_drop by lia.
    replace (pivot - before + (pivot - (pivot - before))) with pivot by lia. split_and!; try done; [lia| |].
    + destruct (decide (pivot <= before)); [left|right; lia].
      replace (pivot - before) with 0 by lia. done.
    + destruct (decide (length all <= pivot + after + 1)); [left|right; lia].
      apply drop_ge. lia.
  - subst pivot. destruct (position is_current all); [done|]. by destruct (position (at_or_after current) all).
Qed.
