(* ===== verification/Handle.v ===== *)
(** * Handle: what a request does to its session
    ([crates/gdb-ai-core/src/session.rs])

    The methods of [SessionHandle] as programs over its channels to the actor,
    the published state and the lock that orders command sequences.  The
    task-local state is the scope of a stable observation.  Timers and the
    scheduler show in the answers: whether a lock or a place in a queue was
    had before the deadline, and whether the actor still answers.  The host's
    files and processes answer through operations of their own. *)

From S2P Require Import Prelude Text Json Errors Domain Backend Normalize Ring Protocol Wait Effects Program Actor Requests Results Gateway.

(** The cancellation flag of the operation a task belongs to. *)
Definition operation_active (cancelled : bool) : Result Error unit :=
  if cancelled then Err (Error_new Code.Cancelled "operation was cancelled") else Ok tt.

(** What became of a message for the actor. *)
Inductive Delivery := Sent | QueueTimeout | WorkerGone.

(** What the actor answers to each request. *)
Definition response_of (r : WorkerRequest) : Type :=
  match r with
  | Command _ _ _ | Transaction _ _ _ _ _ => Result Error CommandReply
  | SafeEvaluate _ _ _ => Result Error (list (Result Error CommandReply))
  | RecordEvent _ | RegisterPendingModuleBreakpoint _ | FlushJournal | RegisterValue _
  | AddTracking _ | ResizeInferior _ _ => Result Error unit
  | GetOperation _ => Result Error OperationRecord
  | RefreshTargetCapabilities _ _ => Result Error Results.SessionCapabilities
  | GetValue _ | RemoveValue _ => Result Error ValueBinding
  | RemoveTracking _ => Result Error TrackingDefinition
  | ListTracking => list TrackingDefinition
  | RecordTracking _ _ _ _ => Result Error (gmap string Value)
  | CommitSnapshot _ _ _ _ _ _ => Result Error Value
  | ReadOutput _ _ _ => RingRead
  | WriteInferior _ _ _ => Result Error N
  end.

Definition control_response (r : ControlRequest) : Type :=
  match r with
  | Interrupt _ _ _ => Result Error CommandReply
  | RecordOperation _ _ | RecordApi _ _ | CancelOperation _ _ _ | Close _ => Result Error unit
  end.

(** What a subscriber gets before a deadline. *)
Inductive Published := PublishedEvent (e : Event.DomainEvent) | Lagged (skipped : N) | Closed | DeadlineExpired.

(** How a process of the host ended: an exit code or a signal. *)
Record ExitStatus := MkExitStatus { exit_code : option Z; exit_signal : option Z }.

Module Hop.

Inductive op :=
| State
| Capabilities
| ActiveOperation
| Deadline (timeout : N)
| LockSequence (deadline : N)
| UnlockSequence
| Send (r : WorkerRequest) (deadline : option N)
| Receive (r : WorkerRequest)
| SendControl (r : ControlRequest) (deadline : option N)
| ReceiveControl (r : ControlRequest)
| Snapshots
| WaitFrom (until : Until.WaitUntil) (timeout : N) (baseline : option WaitBaseline)
    (expected_execution_epoch : option N)
| DrainInferior
| ReadInferior (after_offset : N) (max_bytes : nat)
| OutputPosition
| OutputEvidence
| Subscribe
| NextEvent (deadline : N)
| Now
(* of the gateway the request runs in *)
| FindSession (id : string)
| PutArtifact (content : bytes) (sensitivity : string)
| StoredSnapshot (session_id snapshot_id : string)
| NewUlid
(* of the operating system *)
| ReadMaps (pid : N)
| Canonicalize (path : string)
| Exists (path : string)
| IsDirectory (path : string)
| IsFile (path : string)
| OpenSource (path : string)
| EnvironmentVariable (name : string)
| FileMode (path : string)
| ProcessOwner (pid : N)
| EffectiveUid
| PidNamespace (pid : option N)
| ProcessStat (pid : N)
| SessionDirectory
| RemoveFile (path : string)
| Symlink (target link : string)
(* timers and tasks of the handler's own *)
| Expired (deadline : N)
| SpawnCleanup (operation_id : option OperationId) (number : string)
| StartTrigger (arguments : list string) (cwd : option string)
| TriggerStatus
| TriggerWait (timeout : N)
| TriggerReap
| TriggerKill
| TriggerStream (name : string).

Definition answer (o : op) : Type :=
  match o with
  | State => SessionState
  | Capabilities => Results.SessionCapabilities
  | ActiveOperation => option (OperationId * bool)
  | Deadline _ => N
  | LockSequence _ => bool
  | UnlockSequence => unit
  | Send _ _ | SendControl _ _ => Delivery
  | Receive r => option (response_of r)
  | ReceiveControl r => option (control_response r)
  | Snapshots => list (string * Value)
  | WaitFrom _ _ _ _ => Result Error SessionState
  | DrainInferior => unit
  | ReadInferior _ _ => RingRead
  | OutputPosition => N
  | OutputEvidence => Value
  | Subscribe => unit
  | NextEvent _ => Published
  | Now => N
  | FindSession _ => option SessionEntry
  | PutArtifact _ _ => Result Error string
  | StoredSnapshot _ _ => Result Error (option Value)
  | NewUlid => string
  | ReadMaps _ => Result Error string
  | Canonicalize _ => Result string string
  | Exists _ | IsDirectory _ | IsFile _ => bool
  | OpenSource _ => Result Error (bool * bytes)
  | EnvironmentVariable _ => option (option string)
  | FileMode _ => Result Error N
  | ProcessOwner _ => Result string N
  | EffectiveUid => N
  | PidNamespace _ => Result Error (N * N)
  | ProcessStat _ => Result string string
  | SessionDirectory => string
  | RemoveFile _ => Result (bool * Error) unit
  | Symlink _ _ => Result Error unit
  | Expired _ => bool
  | SpawnCleanup _ _ => unit
  | StartTrigger _ _ => Result string (option N)
  | TriggerStatus => Result string (option ExitStatus)
  | TriggerWait _ => option (Result string ExitStatus)
  | TriggerReap => Result string ExitStatus
  | TriggerKill => Result string unit
  | TriggerStream _ => Result string bytes
  end.

End Hop.

Definition HandleSig : Sig := MkSig Hop.op Hop.answer.

(** The scope of a stable observation: the register names it has read. *)
Record Observation := MkObservation { register_names_cell : option CommandReply }.

Definition handler (A : Type) : Type := act HandleSig (option Observation) A.

Definition hdo (o : Hop.op) : handler (Hop.answer o) := perform (E := HandleSig) o.
Definition hask {A} (m : handler (Result Error A)) : handler A := m ≫= check.

(** ** Identifiers *)

(** The random part of a ULID. *)
Definition short_ulid (ulid : string) : string := string_of (drop 10 (bytes_of ulid)).

Definition TrackingId_new (ulid : string) : string := "track_" +:+ short_ulid ulid.
Definition ValueId_for_stop (stop_id : StopId) (ulid : string) : string :=
  "v" +:+ stop_id +:+ "_" +:+ short_ulid ulid.

(** ** Channels *)

Definition command_queue_timeout : Error :=
  retryable (Error_new Code.Timeout "MI command deadline expired while queued").
Definition worker_stopped : Error := Error_new Code.GdbExited "session worker stopped".

Definition command_deadline (timeout : N) : handler N := hdo (Hop.Deadline (N.max timeout 1)).

Definition delivered_ok (d : Delivery) : Result Error unit :=
  match d with
  | Sent => Ok tt
  | QueueTimeout => Err command_queue_timeout
  | WorkerGone => Err worker_stopped
  end.

(** [enqueue_until]. *)
Definition enqueue_until (r : WorkerRequest) (deadline : N) : handler unit :=
  d ← hdo (Hop.Send r (Some deadline)); check (delivered_ok d).

(** [send] without a deadline: only a closed channel fails. *)
Definition enqueue (r : WorkerRequest) : handler unit :=
  d ← hdo (Hop.Send r None); check (delivered_ok d).

Definition receive (r : WorkerRequest) : handler (response_of r) :=
  answer ← hdo (Hop.Receive r);
  check (ok_or answer worker_stopped).

Definition exchange (r : WorkerRequest) : handler (response_of r) :=
  _ ← enqueue r; receive r.

Definition exchange_until (r : WorkerRequest) (deadline : N) : handler (response_of r) :=
  _ ← enqueue_until r deadline; receive r.

(** [self.entry(..)] of the gateway. *)
Definition entry (session_id : string) : handler SessionEntry :=
  found ← hdo (Hop.FindSession session_id);
  check (ok_or found (Error_new Code.NotFound "session not found")).

Definition observation_scope : handler (option Observation) := local (gets id).

(** ** The operation of the task *)

Definition active_operation : handler (option (OperationId * bool)) := hdo Hop.ActiveOperation.

(** The operation a command belongs to, if it is still active. *)
Definition owning_operation : handler (option OperationId) :=
  operation ← active_operation;
  match operation with
  | Some (id, cancelled) => _ ← check (operation_active cancelled); mret (Some id)
  | None => mret None
  end.

Definition require_active_operation : handler unit := _ ← owning_operation; mret tt.

Section handle.
Context (command_timeout : N).

(** ** The order of command sequences *)

Definition with_sequence {A} (deadline : N) (m : handler A) : handler A :=
  locked ← hdo (Hop.LockSequence deadline);
  if locked : bool then
    r ← attempt m;
    _ ← hdo Hop.UnlockSequence;
    check r
  else check (Err command_queue_timeout).

(** A stable observation already holds the lock. *)
Definition in_sequence {A} (deadline : N) (m : handler A) : handler A :=
  scope ← observation_scope;
  match scope with Some _ => m | None => with_sequence deadline m end.

(** ** Commands *)

Definition enqueue_command (command : MiCommand) (deadline : N) (operation : option OperationId)
    : handler CommandReply :=
  hask (exchange_until (Command command operation deadline) deadline).

Definition send_command (command : MiCommand) (deadline : N) : handler CommandReply :=
  operation ← owning_operation;
  enqueue_command command deadline operation.

Definition command_with_timeout (command : MiCommand) (timeout : N) : handler CommandReply :=
  deadline ← command_deadline timeout;
  in_sequence deadline (send_command command deadline).

Definition command (c : MiCommand) : handler CommandReply := command_with_timeout c command_timeout.

Definition cleanup_command (c : MiCommand) : handler CommandReply :=
  deadline ← command_deadline command_timeout;
  in_sequence deadline (enqueue_command c deadline None).

Definition send_transaction (before : list MiCommand) (c : MiCommand) (after : list MiCommand)
    (deadline : N) : handler CommandReply :=
  operation ← owning_operation;
  hask (exchange_until (Transaction before c after operation deadline) deadline).

Definition transaction (before : list MiCommand) (c : MiCommand) (after : list MiCommand)
    : handler CommandReply :=
  deadline ← command_deadline command_timeout;
  in_sequence deadline (send_transaction before c after deadline).

Definition send_safe_evaluate (commands : list MiCommand) (deadline : N)
    : handler (list (Result Error CommandReply)) :=
  operation ← owning_operation;
  hask (exchange_until (SafeEvaluate commands operation deadline) deadline).

Definition safe_evaluate_batch (commands : list MiCommand)
    : handler (list (Result Error CommandReply)) :=
  deadline ← command_deadline command_timeout;
  in_sequence deadline (send_safe_evaluate commands deadline).

Definition safe_evaluate (c : MiCommand) : handler CommandReply :=
  replies ← safe_evaluate_batch [c];
  reply ← local (unwrap (last replies));
  check reply.

Definition send_refresh_target_capabilities (deadline : N) : handler Results.SessionCapabilities :=
  operation ← owning_operation;
  hask (exchange_until (RefreshTargetCapabilities operation deadline) deadline).

Definition refresh_target_capabilities : handler Results.SessionCapabilities :=
  deadline ← command_deadline command_timeout;
  in_sequence deadline (send_refresh_target_capabilities deadline).

Definition list_register_names : Result Error MiCommand :=
  MiCommand_new (bytes_of "-data-list-register-names").

(** The register names, read once in a stable observation. *)
Definition register_names : handler CommandReply :=
  _ ← require_active_operation;
  scope ← observation_scope;
  match scope with
  | None => c ← check list_register_names; command c
  | Some (MkObservation (Some reply)) => mret reply
  | Some (MkObservation None) =>
      c ← check list_register_names;
      deadline ← command_deadline command_timeout;
      reply ← send_command c deadline;
      _ ← local (modify (fun _ => Some (MkObservation (Some reply))));
      mret reply
  end.

(** ** Stable observations *)

Definition same_execution (current expected : SessionState) : bool :=
  bool_decide (stop_id current = stop_id expected) &&
  (execution_epoch current =? execution_epoch expected)%N.

Definition stale_composite : Error :=
  Error_new Code.StaleContext "target stop changed during composite operation".

Definition require_observation_context (expected : SessionState) : handler unit :=
  current ← hdo Hop.State;
  check (if same_execution current expected then Ok tt else Err stale_composite).

(** [operation] with the context required after it as well. *)
Definition then_stable {A} (expected : SessionState) (operation : handler A) : handler A :=
  result ← operation;
  _ ← require_observation_context expected;
  mret result.

(** The scope lasts until the operation ends, however it ends. *)
Definition in_scope {A} (m : handler A) : handler A :=
  _ ← local (modify (fun _ => Some (MkObservation None)));
  r ← attempt m;
  _ ← local (modify (fun _ => None));
  check r.

Definition stable_observation {A} (expected : SessionState) (operation : handler A) : handler A :=
  scope ← observation_scope;
  match scope with
  | Some _ =>
      _ ← require_observation_context expected;
      then_stable expected operation
  | None =>
      deadline ← command_deadline command_timeout;
      with_sequence deadline (
        _ ← require_observation_context expected;
        in_scope (then_stable expected operation))
  end.

(** ** Requests outside a sequence *)

Definition record_event (event : Event.DomainEvent) : handler unit :=
  hask (exchange (RecordEvent event)).
Definition register_pending_module_breakpoint (b : PendingModuleBreakpoint) : handler unit :=
  hask (exchange (RegisterPendingModuleBreakpoint b)).
Definition flush_journal : handler unit := hask (exchange FlushJournal).
Definition operation (operation_id : string) : handler OperationRecord :=
  hask (exchange (GetOperation operation_id)).
Definition register_value (b : ValueBinding) : handler unit := hask (exchange (RegisterValue b)).
Definition value_binding (value_id : string) : handler ValueBinding :=
  hask (exchange (GetValue value_id)).
Definition remove_value (value_id : string) : handler ValueBinding :=
  hask (exchange (RemoveValue value_id)).
Definition add_tracking (d : TrackingDefinition) : handler unit := hask (exchange (AddTracking d)).
Definition remove_tracking (tracking_id : string) : handler TrackingDefinition :=
  hask (exchange (RemoveTracking tracking_id)).
Definition tracking : handler (list TrackingDefinition) := exchange ListTracking.

Definition record_tracking (observations : gmap string Value) (expected_stop_id : StopId)
    (expected_execution_epoch : N) : handler (gmap string Value) :=
  _ ← require_active_operation;
  state ← hdo Hop.State;
  _ ← check (if bool_decide (stop_id state = Some expected_stop_id) &&
                (execution_epoch state =? expected_execution_epoch)%N
             then Ok tt
             else Err (Error_new Code.StaleContext "target stop changed before tracking commit"));
  operation ← active_operation;
  hask (exchange (RecordTracking observations expected_stop_id expected_execution_epoch
                    (fst <$> operation))).

Definition commit_observation_inner (snapshot : Value) (expected_stop_id : StopId)
    (expected_execution_epoch : N) (partial publish_snapshot : bool) : handler Value :=
  _ ← require_active_operation;
  operation ← active_operation;
  hask (exchange (CommitSnapshot snapshot expected_stop_id expected_execution_epoch partial
                    publish_snapshot (fst <$> operation))).

Definition commit_snapshot (snapshot : Value) (expected_stop_id : StopId)
    (expected_execution_epoch : N) (partial : bool) : handler Value :=
  commit_observation_inner snapshot expected_stop_id expected_execution_epoch partial true.
Definition commit_observation (snapshot : Value) (expected_stop_id : StopId)
    (expected_execution_epoch : N) (partial : bool) : handler Value :=
  commit_observation_inner snapshot expected_stop_id expected_execution_epoch partial false.

Definition snapshot_cached (snapshot_id : string) : handler (option Value) :=
  snapshots ← hdo Hop.Snapshots; mret (assoc snapshot_id snapshots).

Definition snapshot (snapshot_id : string) : handler Value :=
  cached ← snapshot_cached snapshot_id;
  check (ok_or cached (Error_new Code.NotFound "snapshot not found")).

(** ** Waits *)

Definition wait (until : Until.WaitUntil) (timeout : N) : handler SessionState :=
  hask (hdo (Hop.WaitFrom until timeout None None)).
Definition wait_after_baseline (until : Until.WaitUntil) (timeout : N) (baseline : WaitBaseline)
    : handler SessionState := hask (hdo (Hop.WaitFrom until timeout (Some baseline) None)).
Definition wait_for_operation (until : Until.WaitUntil) (timeout : N) (baseline : WaitBaseline)
    (expected_execution_epoch : N) : handler SessionState :=
  hask (hdo (Hop.WaitFrom until timeout (Some baseline) (Some expected_execution_epoch))).

(** ** Output and input of the inferior *)

Definition MAX_OUTPUT_READ : nat := N.to_nat (64 * 1024).

Definition read_output (ring : OutputRing) (after_offset : N) (max_bytes : nat) : handler RingRead :=
  match ring with
  | InferiorRing =>
      state ← hdo Hop.State;
      _ ← perform_when (existsb (fun i => bool_decide (inf_status i = Inferior.Exited))
                          (btree_values (inferiors state))) (hdo Hop.DrainInferior);
      hdo (Hop.ReadInferior after_offset (Nat.min max_bytes MAX_OUTPUT_READ))
  | _ => exchange (ReadOutput ring after_offset (Nat.min max_bytes MAX_OUTPUT_READ))
  end.

(** A timeout before the actor wrote anything reports that nothing was. *)
Definition input_write_progress (total : N) (error : Error) : Error :=
  if bool_decide (err_code error = Code.Timeout) && bool_decide (err_details error = None)
  then with_details (Object [("written", uint 0); ("remaining", uint total)]) error
  else error.

Definition map_error {A} (f : Error -> Error) (r : Result Error A) : Result Error A :=
  match r with Ok a => Ok a | Err e => Err (f e) end.

Definition write_inferior_with_timeout (data : bytes) (eof : bool) (timeout : N) : handler N :=
  let total := lenN data in
  deadline ← command_deadline timeout;
  let r := WriteInferior data eof deadline in
  queued ← attempt (enqueue_until r deadline);
  _ ← check (map_error (input_write_progress total) queued);
  result ← receive r;
  check (map_error (input_write_progress total) result).

Definition write_inferior (data : bytes) (eof : bool) : handler N :=
  write_inferior_with_timeout data eof command_timeout.

Definition resize_inferior (rows columns : N) : handler unit :=
  hask (exchange (ResizeInferior rows columns)).

(** ** Controls *)

(** A control request names its response channel, which is given by the answer here. *)
Definition exchange_control (r : ControlRequest) (deadline : option N)
    : handler (control_response r) :=
  d ← hdo (Hop.SendControl r deadline);
  _ ← check (delivered_ok d);
  answer ← hdo (Hop.ReceiveControl r);
  check (ok_or answer worker_stopped).

Definition record_api (request : Value) : handler unit :=
  hask (exchange_control (RecordApi request 0) None).
Definition record_operation (o : OperationRecord) : handler unit :=
  hask (exchange_control (RecordOperation o 0) None).
Definition interrupt (c : MiCommand) : handler CommandReply :=
  deadline ← command_deadline command_timeout;
  hask (exchange_control (Interrupt c deadline 0) (Some deadline)).
Definition cancel_operation (id : OperationId) (mode : OperationCancelMode) : handler unit :=
  hask (exchange_control (CancelOperation id mode 0) None).
Definition close : handler unit := hask (exchange_control (Close 0) None).

End handle.
