(* ===== verification/HandleProps.v ===== *)
(** * HandleProps: the order of command sequences

    Whatever the actor and the other tasks answer, a method of the handle
    sends MI commands, transactions, evaluations and capability refreshes only
    while it holds the lock that orders command sequences, takes the lock only
    when it does not hold it, and gives it back before it ends. *)

From S2P Require Import Prelude Json Errors Domain Backend Normalize Ring Protocol Wait Effects Program Actor Requests Results Gateway Handle.

Lemma wpa_hdo (ok : trace HandleSig -> op HandleSig -> Prop) lax (o : Hop.op)
    (Q : Result Error (Hop.answer o) -> option Observation -> trace HandleSig -> Prop) s tr :
  ok tr o -> (forall x, Q (Ok x) s (ev (E := HandleSig) o x :: tr)) -> wpa ok lax (hdo o) Q s tr.
Proof. intros Ho H. split; [done|]. intros x. apply H. Qed.

Lemma wpa_scope (ok : trace HandleSig -> op HandleSig -> Prop) lax
    (Q : Result Error (option Observation) -> option Observation -> trace HandleSig -> Prop) s tr :
  Q (Ok s) s tr -> wpa ok lax observation_scope Q s tr.
Proof. done. Qed.

(** Whether the task holds the lock after some events. *)
Definition lock_effect (e : event HandleSig) : option bool :=
  match projT1 e as o return answer HandleSig o -> option bool with
  | Hop.LockSequence _ => fun locked => if locked : bool then Some true else None
  | Hop.UnlockSequence => fun _ => Some false
  | _ => fun _ => None
  end (projT2 e).

Fixpoint held (tr : trace HandleSig) : bool :=
  match tr with
  | [] => false
  | e :: tr => default (held tr) (lock_effect e)
  end.

(** The requests that reach GDB as part of a sequence. *)
Definition is_sequenced (r : WorkerRequest) : bool :=
  match r with
  | Command _ _ _ | Transaction _ _ _ _ _ | SafeEvaluate _ _ _ | RefreshTargetCapabilities _ _ => true
  | _ => false
  end.

Definition sequenced_ok (tr : trace HandleSig) (o : Hop.op) : Prop :=
  match o with
  | Hop.Send r _ => is_sequenced r = true -> held tr = true
  | Hop.LockSequence _ => held tr = false
  | Hop.UnlockSequence => held tr = true
  | _ => True
  end.

Definition in_observation (s : option Observation) : bool := bool_decide (is_Some s).

(** A method that starts and ends with the lock held or not and in a stable
    observation or not, the same at both ends. *)
Definition keeps (held_ scope : bool) {A} (m : handler A) : Prop := forall s tr,
  held tr = held_ -> in_observation s = scope ->
  wpa sequenced_ok true m (fun _ s' tr' => held tr' = held_ /\ in_observation s' = scope) s tr.

(** [Keeps R m]: from every start in [R]. *)
Class Keeps (R : bool -> bool -> Prop) {A} (m : handler A) : Prop :=
  keeps_from : forall h scope, R h scope -> keeps h scope m.

(** A step of a sequence runs under the lock; a whole method starts without it,
    unless it is part of a stable observation, which holds it. *)
Abbreviation Locked := (Keeps (fun h _ => h = true)).
Abbreviation Sequenced := (Keeps eq).

Section rules.
Context {R : bool -> bool -> Prop}.

Lemma Keeps_bind {A B} (m : handler A) (f : A -> handler B) :
  Keeps R m -> (forall a, Keeps R (f a)) -> Keeps R (m ≫= f).
Proof.
  intros Hm Hf h scope HR s tr Hh Hs. apply wpa_bind.
  apply (wpa_mono _ _ _ _ _ _ _ (Hm h scope HR s tr Hh Hs)). intros [a|e] s' tr' [H1 H2]; [|done].
  by apply Hf.
Qed.

Lemma Keeps_ret {A} (a : A) : Keeps R (mret a).
Proof. by intros h scope _ s tr Hh Hs. Qed.

Lemma Keeps_check {A} (r : Result Error A) : Keeps R (check r).
Proof. intros h scope _ s tr Hh Hs. by apply wpa_check. Qed.

Lemma Keeps_attempt {A} (m : handler A) : Keeps R m -> Keeps R (attempt m).
Proof. intros Hm h scope HR s tr Hh Hs. apply wpa_attempt. by apply Hm. Qed.

(** Operations that neither lock nor send part of a sequence. *)
Definition plain (o : Hop.op) : bool :=
  match o with
  | Hop.LockSequence _ | Hop.UnlockSequence => false
  | Hop.Send r _ => negb (is_sequenced r)
  | _ => true
  end.

Lemma Keeps_plain o : plain o = true -> Keeps R (hdo o).
Proof.
  intros Ho h scope _ s tr Hh Hs. apply wpa_hdo.
  - destruct o; try done. cbn in Ho |- *. by destruct (is_sequenced _).
  - intros x. split; [|done]. cbn. by destruct o.
Qed.

Lemma Keeps_when b (m : handler unit) : Keeps R m -> Keeps R (perform_when b m).
Proof. destruct b; [done|]. intros _. apply Keeps_ret. Qed.

(** Local computations that keep the scope. *)
Lemma Keeps_local {A} (m : comp (option Observation) A) :
  (forall s, in_observation (m s).1 = in_observation s) -> Keeps R (local m).
Proof.
  intros H h scope _ s tr Hh Hs. specialize (H s). unfold wpa, local. cbn.
  destruct (m s) as [s' []]; cbn in *; try done; by rewrite H.
Qed.

Lemma Keeps_scope : Keeps R observation_scope.
Proof. by apply Keeps_local. Qed.

Lemma Keeps_exchange r : is_sequenced r = false -> Keeps R (exchange r).
Proof.
  intros Hr. unfold exchange, enqueue, receive. apply Keeps_bind.
  - apply Keeps_bind; [apply Keeps_plain; cbn; by rewrite Hr|]. intros d. apply Keeps_check.
  - intros _. apply Keeps_bind; [by apply Keeps_plain|]. intros x. apply Keeps_check.
Qed.

Lemma Keeps_control r d : Keeps R (exchange_control r d).
Proof.
  unfold exchange_control. apply Keeps_bind; [by apply Keeps_plain|]. intros dl.
  apply Keeps_bind; [apply Keeps_check|]. intros _.
  apply Keeps_bind; [by apply Keeps_plain|]. intros x. apply Keeps_check.
Qed.

Lemma Keeps_hask {A} (m : handler (Result Error A)) : Keeps R m -> Keeps R (hask m).
Proof. intros Hm. apply Keeps_bind; [done|]. intros r. apply Keeps_check. Qed.

End rules.

Create HintDb keeps.
#[export] Hint Extern 1 (Keeps _ (exchange ?r)) => exact (Keeps_exchange r eq_refl) : keeps.
#[export] Hint Extern 1 (Keeps _ (exchange_control ?r ?d)) => exact (Keeps_control r d) : keeps.

(** Symbolic steps through a method. *)
Ltac keeps_compound := fail.

Ltac keeps_step :=
  match goal with
  | |- Keeps _ (mret _) => apply Keeps_ret
  | |- Keeps _ (check _) => apply Keeps_check
  | |- Keeps _ (hdo _) => apply Keeps_plain; reflexivity
  | |- Keeps _ (hask _) => apply Keeps_hask
  | |- Keeps _ (attempt _) => apply Keeps_attempt
  | |- Keeps _ (perform_when _ _) => apply Keeps_when
  | |- Keeps _ (mbind _ _) => apply Keeps_bind; [|intros ?]
  | |- Keeps _ (local _) => apply Keeps_local; intros []; reflexivity
  | |- Keeps _ observation_scope => apply Keeps_scope
  | |- _ => assumption
  | |- _ => solve [eauto with keeps]
  | |- _ => keeps_compound
  end.

Ltac keeps_tac :=
  repeat (first [progress cbv beta iota zeta | keeps_step | case_match]).

(** ** The methods *)

Lemma Keeps_owning_operation {R} : Keeps R owning_operation.
Proof. unfold owning_operation, active_operation. keeps_tac. Qed.

Lemma Keeps_deadline {R} t : Keeps R (command_deadline t).
Proof. unfold command_deadline. keeps_tac. Qed.

#[export] Hint Resolve Keeps_owning_operation Keeps_deadline : keeps.

(** Part of a sequence, with the lock held. *)
Lemma Locked_exchange_until r d : Locked (exchange_until r d).
Proof.
  unfold exchange_until, enqueue_until, receive. apply Keeps_bind.
  - apply Keeps_bind; [|intros; apply Keeps_check].
    intros h scope -> s tr Hh Hs. apply wpa_hdo; [by intros _|]. intros x. by split.
  - intros _. keeps_tac.
Qed.
#[export] Hint Extern 1 (Keeps _ (exchange_until ?r ?d)) => exact (Locked_exchange_until r d) : keeps.

Lemma Locked_send_command c d : Locked (send_command c d).
Proof. unfold send_command, enqueue_command. keeps_tac. Qed.

Lemma Locked_enqueue_command c d op : Locked (enqueue_command c d op).
Proof. unfold enqueue_command. keeps_tac. Qed.

Lemma Locked_send_transaction before c after d : Locked (send_transaction before c after d).
Proof. unfold send_transaction. keeps_tac. Qed.

Lemma Locked_send_safe_evaluate cs d : Locked (send_safe_evaluate cs d).
Proof. unfold send_safe_evaluate. keeps_tac. Qed.

Lemma Locked_send_refresh d : Locked (send_refresh_target_capabilities d).
Proof. unfold send_refresh_target_capabilities. keeps_tac. Qed.

#[export] Hint Resolve Locked_send_command Locked_enqueue_command Locked_send_transaction
  Locked_send_safe_evaluate Locked_send_refresh : keeps.

(** The lock is taken, given back and kept in between. *)
Lemma keeps_with_sequence {A} scope d (m : handler A) :
  keeps true scope m -> keeps false scope (with_sequence d m).
Proof.
  intros Hm s tr Hh Hs. unfold with_sequence. apply wpa_bind, wpa_hdo; [done|]. intros [|].
  - apply wpa_bind, wpa_attempt.
    apply (wpa_mono _ _ _ _ _ _ _ (Hm s (ev (E := HandleSig) (Hop.LockSequence d) true :: tr) eq_refl Hs)). intros r s' tr' [Hh' Hs'].
    apply wpa_bind, wpa_hdo; [done|]. intros []. apply wpa_check. by split.
  - by apply wpa_check.
Qed.

Lemma Sequenced_in_sequence {A} d (m : handler A) : Locked m -> Sequenced (in_sequence d m).
Proof.
  intros Hm [] scope <- s tr Hh Hs; unfold in_sequence; apply wpa_bind, wpa_scope; cbv beta iota; (destruct s as [o|]; [|try done]; try done).
  - by apply (Hm true true).
  - by apply keeps_with_sequence; [apply Hm|..].
Qed.

Ltac keeps_compound ::= apply Sequenced_in_sequence.

Section methods.
Context (command_timeout : N).

Lemma Sequenced_command_with_timeout c t : Sequenced (command_with_timeout c t).
Proof. unfold command_with_timeout. keeps_tac. Qed.

Lemma Sequenced_command c : Sequenced (command command_timeout c).
Proof. apply Sequenced_command_with_timeout. Qed.

Lemma Sequenced_cleanup_command c : Sequenced (cleanup_command command_timeout c).
Proof. unfold cleanup_command. keeps_tac. Qed.

Lemma Sequenced_transaction before c after : Sequenced (transaction command_timeout before c after).
Proof. unfold transaction. keeps_tac. Qed.

Lemma Sequenced_safe_evaluate_batch cs : Sequenced (safe_evaluate_batch command_timeout cs).
Proof. unfold safe_evaluate_batch. keeps_tac. Qed.
Hint Resolve Sequenced_safe_evaluate_batch Sequenced_command : keeps.

Lemma Sequenced_safe_evaluate c : Sequenced (safe_evaluate command_timeout c).
Proof.
  unfold safe_evaluate. apply Keeps_bind; [keeps_tac|]. intros replies.
  apply Keeps_bind; [apply Keeps_local; by destruct (last replies)|]. intros r. keeps_tac.
Qed.

Lemma Sequenced_refresh : Sequenced (refresh_target_capabilities command_timeout).
Proof. unfold refresh_target_capabilities. keeps_tac. Qed.

Lemma Keeps_require_context {R} e : Keeps R (require_observation_context e).
Proof. unfold require_observation_context. keeps_tac. Qed.
Hint Resolve Keeps_require_context : keeps.

(** The names of the registers are read at most once in an observation, whose
    lock the command runs under. *)
Lemma keeps_then {A B} h scope (m : handler A) (f : A -> handler B) :
  keeps h scope m -> (forall a, keeps h scope (f a)) -> keeps h scope (m ≫= f).
Proof.
  intros Hm Hf. apply (Keeps_bind (R := fun h' s' => h' = h /\ s' = scope)); [|intros a|done];
    by intros ? ? [-> ->].
Qed.

Lemma Sequenced_register_names : Sequenced (register_names command_timeout).
Proof.
  unfold register_names, require_active_operation. apply Keeps_bind; [keeps_tac|]. intros _.
  intros [] scope <- s tr Hh Hs; apply wpa_bind, wpa_scope; cbv beta iota;
    (destruct s as [[[reply|]]|]; try done); try (by apply wpa_ret).
  - refine (keeps_then true true _ _ _ _ (Some (MkObservation None)) tr Hh Hs).
    { by apply (Keeps_check (R := eq)). }
    intros c. apply keeps_then; [by apply (Keeps_deadline (R := eq))|]. intros d.
    apply keeps_then; [by apply (Locked_send_command c d)|]. intros reply.
    apply keeps_then; [|intros _; by apply (Keeps_ret (R := eq))]. intros s tr' Hh' _. by split.
  - refine (keeps_then false false _ _ _ _ None tr Hh Hs); [by apply (Keeps_check (R := eq))|].
    intros c. by apply Sequenced_command.
Qed.

Lemma Sequenced_stable_observation {A} expected (m : handler A) :
  Sequenced m -> Sequenced (stable_observation command_timeout expected m).
Proof.
  intros Hm [] scope <- s tr Hh Hs; unfold stable_observation; apply wpa_bind, wpa_scope; cbv beta iota; (destruct s as [o|]; try done).
  - assert (Sequenced (_ ← require_observation_context expected; then_stable expected m)) as Hk
      by (unfold then_stable; keeps_tac). by apply Hk.
  - assert (Sequenced (then_stable expected m)) as Hk by (unfold then_stable; keeps_tac).
    apply wpa_bind.
    apply (wpa_mono _ _ _ _ _ _ _ (Keeps_deadline (R := eq) command_timeout false false eq_refl None tr Hh eq_refl)).
    intros [d|e] s' tr' [H1 H2]; [|done].
    apply keeps_with_sequence; [|done|done]. apply keeps_then; [by apply (Keeps_require_context (R := fun _ _ => True))|].
    intros _ s1 tr1 Hh1 Hs1. unfold in_scope. apply wpa_bind, wpa_local. cbn.
    apply wpa_bind, wpa_attempt.
    apply (wpa_mono _ _ _ _ _ _ _ (Hk true true eq_refl (Some (MkObservation None)) tr1 Hh1 eq_refl)).
    intros r s2 tr2 [Hh2 _]. apply wpa_bind, wpa_local. by destruct r.
Qed.

(** *** Methods without a sequence *)

Lemma Keeps_record_event {R} e : Keeps R (record_event e).
Proof. unfold record_event. keeps_tac. Qed.
Lemma Keeps_register_pending {R} b : Keeps R (register_pending_module_breakpoint b).
Proof. unfold register_pending_module_breakpoint. keeps_tac. Qed.
Lemma Keeps_flush {R} : Keeps R flush_journal.
Proof. unfold flush_journal. keeps_tac. Qed.
Lemma Keeps_operation {R} id : Keeps R (operation id).
Proof. unfold operation. keeps_tac. Qed.
Lemma Keeps_register_value {R} b : Keeps R (register_value b).
Proof. unfold register_value. keeps_tac. Qed.
Lemma Keeps_value_binding {R} id : Keeps R (value_binding id).
Proof. unfold value_binding. keeps_tac. Qed.
Lemma Keeps_remove_value {R} id : Keeps R (remove_value id).
Proof. unfold remove_value. keeps_tac. Qed.
Lemma Keeps_add_tracking {R} d : Keeps R (add_tracking d).
Proof. unfold add_tracking. keeps_tac. Qed.
Lemma Keeps_remove_tracking {R} id : Keeps R (remove_tracking id).
Proof. unfold remove_tracking. keeps_tac. Qed.
Lemma Keeps_tracking {R} : Keeps R tracking.
Proof. unfold tracking. keeps_tac. Qed.
Lemma Keeps_entry {R} id : Keeps R (entry id).
Proof. unfold entry. keeps_tac. Qed.
Lemma Keeps_snapshot {R} id : Keeps R (snapshot id).
Proof. unfold snapshot, snapshot_cached. keeps_tac. Qed.
Lemma Keeps_read_output {R} ring after_offset max_bytes : Keeps R (read_output ring after_offset max_bytes).
Proof. unfold read_output. keeps_tac. Qed.
Lemma Keeps_resize {R} rows columns : Keeps R (resize_inferior rows columns).
Proof. unfold resize_inferior. keeps_tac. Qed.
Lemma Keeps_wait {R} until t b e : Keeps R (hask (hdo (Hop.WaitFrom until t b e))).
Proof. keeps_tac. Qed.
Lemma Keeps_record_api {R} v : Keeps R (record_api v).
Proof. unfold record_api. keeps_tac. Qed.
Lemma Keeps_record_operation {R} o : Keeps R (record_operation o).
Proof. unfold record_operation. keeps_tac. Qed.
Lemma Keeps_interrupt {R} c : Keeps R (interrupt command_timeout c).
Proof. unfold interrupt. keeps_tac. Qed.
Lemma Keeps_cancel {R} id mode : Keeps R (cancel_operation id mode).
Proof. unfold cancel_operation. keeps_tac. Qed.
Lemma Keeps_close {R} : Keeps R close.
Proof. unfold close. keeps_tac. Qed.

Lemma Keeps_record_tracking {R} values stop epoch : Keeps R (record_tracking values stop epoch).
Proof. unfold record_tracking, require_active_operation, active_operation. keeps_tac. Qed.

Lemma Keeps_commit {R} v stop epoch partial publish :
  Keeps R (commit_observation_inner v stop epoch partial publish).
Proof. unfold commit_observation_inner, require_active_operation, active_operation. keeps_tac. Qed.

Lemma Keeps_exchange_until_plain {R} r d : is_sequenced r = false -> Keeps R (exchange_until r d).
Proof.
  intros Hr. unfold exchange_until, enqueue_until, receive. apply Keeps_bind.
  - apply Keeps_bind; [apply Keeps_plain; cbn; by rewrite Hr|]. intros x. apply Keeps_check.
  - intros _. keeps_tac.
Qed.

Lemma Keeps_write_inferior {R} data eof t : Keeps R (write_inferior_with_timeout data eof t).
Proof. unfold write_inferior_with_timeout, enqueue_until, receive. keeps_tac. Qed.

End methods.

Ltac keeps_compound ::= first [apply Sequenced_in_sequence | apply Sequenced_stable_observation].

#[export] Hint Resolve Sequenced_command_with_timeout Sequenced_command Sequenced_cleanup_command
  Sequenced_transaction Sequenced_safe_evaluate_batch Sequenced_safe_evaluate Sequenced_refresh
  Sequenced_register_names Keeps_require_context Keeps_record_event
  Keeps_register_pending Keeps_flush Keeps_operation Keeps_register_value Keeps_value_binding
  Keeps_remove_value Keeps_add_tracking Keeps_remove_tracking Keeps_tracking Keeps_entry
  Keeps_snapshot Keeps_read_output Keeps_resize Keeps_record_api Keeps_record_operation
  Keeps_interrupt Keeps_cancel Keeps_close Keeps_record_tracking Keeps_commit
  Keeps_write_inferior : keeps.
