(* ===== verification/Memory.v ===== *)
(** * Memory: reading, comparing, searching and writing the target's memory
    ([crates/gdb-ai-core/src/gateway/operations/memory.rs])

    One logical read of any length is a sequence of bounded MI reads at one
    stop; a write happens only while the bytes it replaces are the expected
    ones.  SHA-256 and base64 are parameters. *)

From S2P Require Import Prelude Text MiAst Json Errors Domain Backend Protocol Effects Program Actor Requests Wire Results Config Gateway Encoding Context MiView Handle.

(** ** Replies *)

Definition no_memory_field : Error :=
  Error_new Code.GdbError "GDB memory response has no memory field".
Definition response_too_long : Error :=
  Error_new Code.GdbError "GDB memory response exceeds the requested length".

(** The blocks of a reply up to the first gap. *)
Fixpoint contiguous_contents (items : list (list MiResult)) (maximum : N) (read : bytes)
    : Result Error bytes :=
  match items with
  | [] => Ok read
  | item :: rest =>
      offset ← ok_or (find_str item "offset") (Error_new Code.GdbError "memory block has no offset");
      offset ← parse_address offset;
      if negb (offset =? lenN read)%N then Ok read
      else
        contents ← ok_or (find_str item "contents")
                     (Error_new Code.GdbError "memory block has no contents");
        contents ← hex_decode contents;
        if (maximum - lenN read <? lenN contents)%N then Err response_too_long
        else contiguous_contents rest maximum (read ++ contents)
  end.

Definition memory_contents (record : MiRecord) (maximum : N) : Result Error bytes :=
  memory ← ok_or (find (record_results record) "memory") no_memory_field;
  contiguous_contents (aggregate_items memory "memory") maximum [].

Definition require_complete_read (actual requested : N) (allow_partial : bool) : Result Error unit :=
  if negb allow_partial && negb (actual =? requested)%N then
    Err (Error_new Code.PartialRead
           ("requested " +:+ dec requested +:+ " bytes, read " +:+ dec actual))
  else Ok tt.

Definition recoverable_partial_read (code : Code.ErrorCode) (allow_partial : bool) (captured : N) : bool :=
  allow_partial && (0 <? captured)%N && bool_decide (code = Code.GdbError).

Definition validate_memory_range (start len : N) : Result Error unit :=
  if (start + (len - 1) <=? U64_MAX)%N then Ok tt
  else Err (Error_new Code.InvalidArgument "memory range overflows address space").

(** ** Reads *)

Definition CHUNK_BYTES : N := 64 * 1024.

Definition require_same_execution_context (expected : SessionState) : handler unit :=
  current ← hdo Hop.State;
  check (if same_execution current expected then Ok tt else Err stale_composite).

Definition read_command (address chunk : N) : Result Error MiCommand :=
  c ← MiCommand_new (bytes_of "-data-read-memory-bytes");
  c ← bare c (bytes_of "0x" ++ hex_lower address);
  bare c (bytes_of (dec chunk)).

Section memory.
Context (command_timeout : N) (limits : Limits).
Context (base64_encode : bytes -> string) (base64_decode : string -> Result string bytes).
Context (sha256 : bytes -> bytes).

(** The loop of [read_memory_bytes_in_observation]. *)
Fixpoint read_chunks (fuel : nat) (expected : SessionState) (start len : N) (allow_partial : bool)
    (read : bytes) (evidence_seq : N) : handler (bytes * N) :=
  if (lenN read <? len)%N then
    match fuel with
    | 0 => local out_of_fuel
    | S fuel =>
        _ ← require_same_execution_context expected;
        let chunk := N.min (len - lenN read) CHUNK_BYTES in
        address ← check (if (start + lenN read <=? U64_MAX)%N then Ok (start + lenN read)%N
                         else Err (Error_new Code.InvalidArgument "memory range overflows address space"));
        c ← check (read_command address chunk);
        reply ← attempt (command command_timeout c);
        match reply with
        | Err error =>
            if recoverable_partial_read (err_code error) allow_partial (lenN read)
            then mret (read, evidence_seq)
            else check (Err error)
        | Ok reply =>
            _ ← require_same_execution_context expected;
            part ← check (memory_contents (cr_record reply) chunk);
            let read := read ++ part in
            if (lenN part <? chunk)%N then mret (read, cr_evidence_seq reply)
            else read_chunks fuel expected start len allow_partial read (cr_evidence_seq reply)
        end
    end
  else mret (read, evidence_seq).

(** One round per chunk. *)
Definition read_fuel (len : N) : nat := S (N.to_nat (len / CHUNK_BYTES)).

Definition read_memory_bytes_in_observation (expected : SessionState) (start len : N)
    (allow_partial : bool) : handler (bytes * N) :=
  _ ← check (validate_memory_range start len);
  state ← hdo Hop.State;
  '(read, evidence_seq) ←
    read_chunks (read_fuel len) expected start len allow_partial [] (event_seq state);
  _ ← check (require_complete_read (lenN read) len allow_partial);
  mret (read, evidence_seq).

Definition read_memory_bytes (expected : SessionState) (start len : N) (allow_partial : bool)
    : handler (bytes * N) :=
  stable_observation command_timeout expected
    (read_memory_bytes_in_observation expected start len allow_partial).

(** ** Expected bytes *)

Definition sha256_hex (b : bytes) : string := hex_encode (sha256 b).

Definition invalid (message : string) : Error := Error_new Code.InvalidArgument message.

Definition expected_bytes_match (parameters : Value) (actual : bytes) : Result Error bool :=
  expected ← ok_or (Json.get "expected" parameters) (invalid "expected bytes or sha256 are required");
  match Json.get "bytes_base64" expected ≫= Json.as_str with
  | Some encoded =>
      match base64_decode encoded with
      | Ok b => Ok (bool_decide (b = actual))
      | Err error => Err (invalid ("invalid expected bytes_base64: " +:+ error))
      end
  | None =>
      match Json.get "sha256" expected ≫= Json.as_str with
      | Some hash =>
          if negb (lenN (bytes_of hash) =? 64)%N || negb (forallb is_ascii_hexdigit (bytes_of hash))
          then Err (invalid "expected sha256 must contain 64 hexadecimal digits")
          else Ok (eq_ignore_ascii_case (sha256_hex actual) hash)
      | None => Err (invalid "expected must contain bytes_base64 or sha256")
      end
  end.

Definition precondition_failed : Error :=
  Error_new Code.MemoryPreconditionFailed "memory no longer matches the expected value".

Definition require_expected_bytes (parameters : Value) (actual : bytes) : Result Error unit :=
  same ← expected_bytes_match parameters actual;
  if same : bool then Ok tt else Err precondition_failed.

(** ** Search *)

Definition search_pattern (parameters : Value) : Result Error bytes :=
  pattern ← ok_or (Json.get "pattern" parameters) (invalid "memory search pattern is required");
  b ← match Json.get "hex" pattern ≫= Json.as_str with
      | Some hex =>
          match hex_decode hex with
          | Ok b => Ok b
          | Err _ => Err (invalid "memory search hex pattern is invalid")
          end
      | None =>
          match Json.get "data_base64" pattern ≫= Json.as_str with
          | Some encoded =>
              match base64_decode encoded with
              | Ok b => Ok b
              | Err error => Err (invalid ("invalid memory search data_base64: " +:+ error))
              end
          | None =>
              match Json.get "text" pattern ≫= Json.as_str with
              | Some text => Ok (bytes_of text)
              | None => Err (invalid "pattern must contain hex, data_base64, or text")
              end
          end
      end;
  if bool_decide (b = []) || (64 * 1024 <? lenN b)%N then
    Err (invalid "memory search pattern must contain 1 to 65536 bytes")
  else Ok b.

(** What follows the last occurrence of a text. *)
Fixpoint after_last (p b : bytes) : option bytes :=
  match b with
  | [] => None
  | _ :: r =>
      match after_last p r with
      | Some rest => Some rest
      | None => strip_prefix p b
      end
  end.

Definition last_hex_address (text : bytes) : option N :=
  suffix ← after_last (bytes_of "0x") text;
  from_str_radix U64_MAX 16 (take_while is_ascii_hexdigit suffix).

Definition contains (p b : bytes) : bool :=
  match find_bytes p b with Some _ => true | None => false end.

Definition console_stream (records : list MiRecord) : bytes :=
  records ≫= fun r => match r with ConsoleStream b => b | _ => [] end.
Definition log_stream (records : list MiRecord) : bytes :=
  records ≫= fun r => match r with LogStream b => b | _ => [] end.

Definition is_ascii_space (c : N) : bool :=
  ((c =? 9) || (c =? 10) || (c =? 12) || (c =? 13) || (c =? 32))%N.

(** [split_ascii_whitespace().next()]. *)
Definition first_token (line : list N) : option (list N) :=
  match take_while (fun c => negb (is_ascii_space c)) (trim_start is_ascii_space line) with
  | [] => None
  | token => Some token
  end.

Definition address_text (n : N) : string := "0x" +:+ string_of (hex_fixed 16 n).

(** The address a line of [find] reports in a range. *)
Definition line_match (start stop : N) (line : list N) : option string :=
  token ← first_token line;
  if starts_with_chars ZERO_X token then
    address ← ok (parse_address (string_of_chars token));
    if (start <=? address)%N && (address <=? stop)%N then Some (address_text address) else None
  else None.

Definition saturate (n : N) : N := N.min n U64_MAX.

Definition find_memory_result (reply : CommandReply) (start len : N) (maximum : nat)
    : list string * bool * N * bool :=
  let console := utf8_lossy (console_stream (cr_stream_records reply)) in
  let stop := saturate (start + (len - 1)) in
  let matches := omap (line_match start stop) (lines console) in
  let truncated := (maximum <? length matches)%nat || cr_stream_truncated reply in
  let diagnostics := bytes_of (string_of_chars (utf8_lossy (log_stream (cr_stream_records reply)))) in
  let partial := contains (bytes_of "halting search") diagnostics in
  let searched :=
    if partial then
      match last_hex_address diagnostics with
      | Some address => if (start <=? address)%N then N.min (address - start) len else 0%N
      | None => 0%N
      end
    else len in
  (take maximum matches, truncated, searched, partial).

(** ** Handlers *)

Definition text_parameter (v : Value) (name : string) : Result Error string :=
  match Json.get name v ≫= Json.as_str with
  | Some s => if bool_decide (s = "") then Err (invalid (name +:+ " is required")) else Ok s
  | None => Err (invalid (name +:+ " is required"))
  end.

Definition hexadecimal_requested (parameters : Value) : Result Error bool :=
  match Json.get "encoding" parameters with
  | None => Ok false
  | Some (Str encoding) =>
      if bool_decide (encoding = "hex") then Ok true
      else if bool_decide (encoding = "base64") then Ok false
      else Err (invalid "memory encoding must be hex or base64")
  | Some _ => Err (invalid "memory encoding must be hex or base64")
  end.

Definition evaluate_command (expression : string) (parameters : Value) (state : SessionState)
    : Result Error MiCommand :=
  c ← MiCommand_new (bytes_of "-data-evaluate-expression");
  context_options (string_argument c (bytes_of expression)) parameters state.

(** The address a read names, evaluated without side effects when it is an
    expression. *)
Definition read_address (parameters : Value) (state : SessionState) : handler string :=
  match Json.get "address_expression" parameters ≫= Json.as_str with
  | Some expression =>
      _ ← local (fun s => (s, validate_expression expression));
      c ← check (evaluate_command expression parameters state);
      reply ← safe_evaluate command_timeout c;
      v ← check (ok_or (result_text (cr_record reply) "value")
                   (Error_new Code.GdbError "address expression returned no value"));
      number ← check (parse_address v);
      check (Address_parse (string_of (bytes_of "0x" ++ hex_lower number)))
  | None =>
      text ← check (text_parameter parameters "address");
      check (Address_parse text)
  end.

Definition stop_value (state : SessionState) : Value := nullable Str (stop_id state).

Definition memory_read (request : ApiRequest) : handler Value :=
  let parameters := req_parameters request in
  hexadecimal ← check (hexadecimal_requested parameters);
  session ← check (required_session request);
  e ← entry session;
  state ← hdo Hop.State;
  _ ← check (require_stopped_context parameters state);
  len ← check (unsigned parameters "length");
  if (len =? 0)%N || (memory_read_bytes limits <? len)%N then
    check (Err (invalid ("memory length must be between 1 and " +:+ dec (memory_read_bytes limits))))
  else
    let allow_partial := bool_value parameters "allow_partial" false in
    '(address, read, evidence_seq) ←
      stable_observation command_timeout state (
        address ← read_address parameters state;
        number ← check (parse_address address);
        '(read, evidence_seq) ←
          read_memory_bytes_in_observation state number len allow_partial;
        mret (address, read, evidence_seq));
    let partial := negb (lenN read =? len)%N in
    let identity :=
      [("stop_id", stop_value state); ("address", Str address); ("requested_length", uint len);
       ("read_length", uint (lenN read))] in
    if (inline_memory_bytes limits <? lenN read)%N then
      uri ← hask (hdo (Hop.PutArtifact read "target-memory"));
      mret (Object (identity ++
        [("sha256", Str (sha256_hex read)); ("preview_hex", Str (hex_encode (take 64 read)));
         ("artifact", Str uri); ("partial", Bool partial); ("truncated", Bool true);
         ("evidence_seq", uint evidence_seq)]))
    else
      mret (Object (identity ++
        [if hexadecimal : bool then ("data_hex", Str (hex_encode read))
         else ("data_base64", Str (base64_encode read));
         ("sha256", Str (sha256_hex read)); ("partial", Bool partial); ("truncated", Bool false);
         ("evidence_seq", uint evidence_seq)])).

Definition write_command (address : string) (content : bytes) : Result Error MiCommand :=
  c ← MiCommand_new (bytes_of "-data-write-memory-bytes");
  c ← bare c (bytes_of address);
  bare c (bytes_of (hex_encode content)).

(** The read, the comparison, the write and its event, as one observation. *)
Definition compare_and_write (parameters : Value) (state : SessionState) (address : string)
    (content : bytes) : handler (bytes * CommandReply) :=
  stable_observation command_timeout state (
    number ← check (parse_address address);
    '(before, _) ← read_memory_bytes state number (lenN content) false;
    _ ← check (require_expected_bytes parameters before);
    c ← check (write_command address content);
    reply ← command command_timeout c;
    _ ← record_event Event.MemoryChanged;
    mret (before, reply)).

Definition memory_write (request : ApiRequest) : handler Value :=
  let parameters := req_parameters request in
  session ← check (required_session request);
  e ← entry session;
  state ← hdo Hop.State;
  _ ← check (require_stopped_context parameters state);
  text ← check (text_parameter parameters "address");
  address ← check (Address_parse text);
  content ← check (input_bytes base64_decode parameters);
  if bool_decide (content = []) || (64 * 1024 <? lenN content)%N then
    check (Err (invalid "memory writes must contain 1 to 65536 bytes"))
  else
    '(before, reply) ← compare_and_write parameters state address content;
    mret (Object [("address", Str address); ("length", uint (lenN content));
                  ("before_sha256", Str (sha256_hex before)); ("after_sha256", Str (sha256_hex content));
                  ("snapshot_invalidated", Bool true); ("command", reply_value reply)]).

Definition memory_compare (request : ApiRequest) : handler Value :=
  let parameters := req_parameters request in
  session ← check (required_session request);
  e ← entry session;
  state ← hdo Hop.State;
  _ ← check (require_stopped_context parameters state);
  text ← check (text_parameter parameters "address");
  address ← check (Address_parse text);
  len ← check (unsigned parameters "length");
  if (len =? 0)%N || (memory_read_bytes limits <? len)%N then
    check (Err (invalid "memory comparison length is outside configured limits"))
  else
    number ← check (parse_address address);
    '(read, evidence_seq) ← read_memory_bytes state number len false;
    same ← check (expected_bytes_match parameters read);
    mret (Object [("stop_id", stop_value state); ("address", Str address); ("length", uint len);
                  ("matches", Bool same); ("sha256", Str (sha256_hex read));
                  ("evidence_seq", uint evidence_seq)]).

Definition find_command (start : string) (len : N) (pattern : bytes) (maximum : N)
    : Result Error MiCommand :=
  let bytes := String.concat "," ((fun c => "0x" +:+ string_of (hex_fixed 2 (byte_N c))) <$> pattern) in
  c ← MiCommand_new (bytes_of "-interpreter-exec");
  c ← bare c (bytes_of "console");
  Ok (string_argument c
        (bytes_of ("find /b /" +:+ dec (maximum + 1) +:+ " " +:+ start +:+ ", +" +:+ dec len +:+ ", " +:+ bytes))).

Definition memory_search (request : ApiRequest) : handler Value :=
  let parameters := req_parameters request in
  session ← check (required_session request);
  e ← entry session;
  state ← hdo Hop.State;
  _ ← check (require_stopped_context parameters state);
  text ← check (text_parameter parameters "start");
  start ← check (Address_parse text);
  len ← check (unsigned parameters "length");
  if (len =? 0)%N then check (Err (invalid "memory search length must be positive"))
  else
    pattern ← check (search_pattern parameters);
    let maximum := N.min 1000 (N.max 1 (default 100%N (Json.get "max_results" parameters ≫= Json.as_u64))) in
    number ← check (parse_address start);
    _ ← check (validate_memory_range number len);
    c ← check (find_command start len pattern maximum);
    reply ← stable_observation command_timeout state (command command_timeout c);
    let '(matches, truncated, searched, partial) :=
      find_memory_result reply number len (N.to_nat maximum) in
    mret (Object [("stop_id", stop_value state); ("start", Str start); ("requested_length", uint len);
                  ("searched_length", uint searched); ("matches", strings_value matches);
                  ("partial", Bool partial); ("truncated", Bool truncated);
                  ("evidence_seq", uint (cr_evidence_seq reply))]).

(** ** Tracked values *)

Definition tracking_value (d : TrackingDefinition) : Value :=
  match d with
  | TrackExpression id expression max_value_bytes =>
      Object [("kind", Str "expression"); ("tracking_id", Str id); ("expression", Str expression);
              ("max_value_bytes", uint max_value_bytes)]
  | TrackMemory id address_expression len max_history =>
      Object [("kind", Str "memory"); ("tracking_id", Str id);
              ("address_expression", Str address_expression); ("length", uint len);
              ("max_history", uint max_history)]
  end.

Definition install_tracking (d : TrackingDefinition) : handler Value :=
  _ ← add_tracking d;
  _ ← record_event (Event.ControllerChanged "tracking_added");
  mret (tracking_value d).

Definition tracking_add_expression (request : ApiRequest) : handler Value :=
  let parameters := req_parameters request in
  session ← check (required_session request);
  e ← entry session;
  expression ← check (text_parameter parameters "expression");
  _ ← local (fun s => (s, validate_expression expression));
  let max_value_bytes := default 4096%N (Json.get "max_value_bytes" parameters ≫= Json.as_u64) in
  if (max_value_bytes =? 0)%N || (1024 * 1024 <? max_value_bytes)%N then
    check (Err (invalid "max_value_bytes must be between 1 and 1048576"))
  else
    ulid ← hdo Hop.NewUlid;
    install_tracking (TrackExpression (TrackingId_new ulid) expression max_value_bytes).

Definition tracking_add_memory (request : ApiRequest) : handler Value :=
  let parameters := req_parameters request in
  session ← check (required_session request);
  e ← entry session;
  address_expression ← check (text_parameter parameters "address_expression");
  _ ← local (fun s => (s, validate_expression address_expression));
  len ← check (unsigned parameters "length");
  if (len =? 0)%N || (memory_read_bytes limits <? len)%N then
    check (Err (invalid "tracked memory length is outside configured limits"))
  else
    let max_history := N.min 256 (N.max 1 (default 32%N (Json.get "max_history" parameters ≫= Json.as_u64))) in
    ulid ← hdo Hop.NewUlid;
    install_tracking (TrackMemory (TrackingId_new ulid) address_expression len max_history).

Definition tracking_remove (request : ApiRequest) : handler Value :=
  session ← check (required_session request);
  e ← entry session;
  id ← check (text_parameter (req_parameters request) "tracking_id");
  removed ← remove_tracking id;
  _ ← record_event (Event.ControllerChanged "tracking_removed");
  mret (Object [("removed", tracking_value removed)]).

Definition tracking_list (request : ApiRequest) : handler Value :=
  session ← check (required_session request);
  e ← entry session;
  definitions ← tracking;
  mret (Array (tracking_value <$> definitions)).

End memory.
