(* ===== verification/MemoryProps.v ===== *)
(** * MemoryProps: what reading and writing memory guarantees *)

From S2P Require Import Prelude Text MiAst Json Errors Domain Backend Normalize Policy Protocol Effects Program Actor Requests Wire Results Config Gateway Encoding Context MiView Handle HandleProps Memory.

Section sequences.
Context (command_timeout : N) (limits : Limits).
Context (base64_encode : bytes -> string) (base64_decode : string -> Result string bytes).
Context (sha256 : bytes -> bytes).

Lemma Sequenced_read_chunks fuel expected start len allow_partial read seq :
  Sequenced (read_chunks command_timeout fuel expected start len allow_partial read seq).
Proof.
  revert read seq. induction fuel as [|fuel IH]; intros read seq; cbn [read_chunks];
    unfold require_same_execution_context; keeps_tac.
Qed.
Hint Resolve Sequenced_read_chunks : keeps.

Lemma Sequenced_read_in_observation expected start len allow_partial :
  Sequenced (read_memory_bytes_in_observation command_timeout expected start len allow_partial).
Proof. unfold read_memory_bytes_in_observation. keeps_tac. Qed.
Hint Resolve Sequenced_read_in_observation : keeps.

Lemma Sequenced_read_memory_bytes expected start len allow_partial :
  Sequenced (read_memory_bytes command_timeout expected start len allow_partial).
Proof. unfold read_memory_bytes. keeps_tac. Qed.
Hint Resolve Sequenced_read_memory_bytes : keeps.

Lemma Keeps_validate {R} e : Keeps R (local (fun s => (s, validate_expression e)) : handler unit).
Proof. by apply Keeps_local. Qed.
Hint Resolve Keeps_validate : keeps.

Lemma Sequenced_memory_read request :
  Sequenced (memory_read command_timeout limits base64_encode sha256 request).
Proof. unfold memory_read, read_address. keeps_tac. Qed.

Lemma Sequenced_memory_write request :
  Sequenced (memory_write command_timeout base64_decode sha256 request).
Proof. unfold memory_write, compare_and_write. keeps_tac. Qed.

Lemma Sequenced_memory_compare request :
  Sequenced (memory_compare command_timeout limits base64_decode sha256 request).
Proof. unfold memory_compare. keeps_tac. Qed.

Lemma Sequenced_memory_search request :
  Sequenced (memory_search command_timeout base64_decode request).
Proof. unfold memory_search. keeps_tac. Qed.

Lemma Sequenced_tracking_add_expression request : Sequenced (tracking_add_expression request).
Proof. unfold tracking_add_expression, install_tracking. keeps_tac. Qed.

Lemma Sequenced_tracking_add_memory request : Sequenced (tracking_add_memory limits request).
Proof. unfold tracking_add_memory, install_tracking. keeps_tac. Qed.

Lemma Sequenced_tracking_remove request : Sequenced (tracking_remove request).
Proof. unfold tracking_remove. keeps_tac. Qed.

Lemma Sequenced_tracking_list request : Sequenced (tracking_list request).
Proof. unfold tracking_list. keeps_tac. Qed.

End sequences.

#[export] Hint Resolve Sequenced_memory_read Sequenced_memory_write Sequenced_memory_compare
  Sequenced_memory_search Sequenced_tracking_add_expression Sequenced_tracking_add_memory
  Sequenced_tracking_remove Sequenced_tracking_list Sequenced_read_memory_bytes
  Keeps_validate : keeps.

(** ** The memory behind the answers *)

Implicit Types mem : N -> option ascii.

(** The bytes at an address. *)
Definition matches mem (address : N) (b : bytes) : Prop :=
  forall i x, b !! i = Some x -> mem (address + N.of_nat i)%N = Some x.

Lemma matches_nil mem address : matches mem address [].
Proof. by intros i x. Qed.

Lemma matches_app mem address b c :
  matches mem address b -> matches mem (address + lenN b)%N c -> matches mem address (b ++ c).
Proof.
  intros Hb Hc i x [H|[Hle H]]%lookup_app_Some; [by apply Hb|].
  apply Hc in H. rewrite <-H. f_equal. unfold lenN. lia.
Qed.

(** A range as far as it can be read. *)
Definition readable_prefix mem (address n : N) (b : bytes) : Prop :=
  (lenN b <= n)%N /\ matches mem address b /\ (lenN b = n \/ mem (address + lenN b)%N = None).

(** Blocks of a range in ascending order that hold every readable byte of it. *)
Fixpoint describes mem (address n at_ : N) (blocks : list (N * bytes)) : Prop :=
  match blocks with
  | [] => forall i, (at_ <= i < n)%N -> mem (address + i)%N = None
  | (offset, c) :: rest =>
      (at_ <= offset)%N /\ (offset + lenN c <= n)%N /\
      (forall i, (at_ <= i < offset)%N -> mem (address + i)%N = None) /\
      matches mem (address + offset)%N c /\ describes mem address n (offset + lenN c)%N rest
  end.

(** A block as GDB prints it. *)
Definition prints (item : list MiResult) (block : N * bytes) : Prop :=
  (find_str item "offset" ≫= fun s => ok (parse_address s)) = Some block.1 /\
  (find_str item "contents" ≫= fun s => ok (hex_decode s)) = Some block.2.

Definition answers_read mem (address n : N) (record : MiRecord) : Prop :=
  exists v blocks, find (record_results record) "memory" = Some v /\
    Forall2 prints (aggregate_items v "memory") blocks /\ describes mem address n 0 blocks.

Lemma ok_Some {A} (r : Result Error A) a : ok r = Some a -> r = Ok a.
Proof. destruct r; [|done]. by intros [= ->]. Qed.

Lemma contiguous_contents_prefix mem address n items blocks read :
  Forall2 prints items blocks -> describes mem address n (lenN read) blocks -> (lenN read <= n)%N ->
  matches mem address read ->
  exists b, contiguous_contents items n read = Ok b /\ readable_prefix mem address n b.
Proof.
  intros Hp. revert read. induction Hp as [|item [offset c] items blocks [Ho Hc] _ IH]; intros read Hd Hle Hm.
  - exists read. split; [done|]. split_and!; [done|done|]. cbn in Hd.
    destruct (decide (lenN read = n)); [by left|right]. apply Hd. lia.
  - cbn [describes] in Hd. destruct Hd as (H1 & H2 & H3 & H4 & H5).
    destruct (find_str item "offset") as [so|] eqn:Eo; [|done]. cbn [fst snd] in *.
    destruct (find_str item "contents") as [sc|] eqn:Ec; [|done].
    apply ok_Some in Ho, Hc. cbn [contiguous_contents]. rewrite Eo. cbn [ok_or mbind Result_bind].
    rewrite Ho. cbn [mbind Result_bind]. destruct (N.eqb_spec offset (lenN read)) as [->|Hne]; cbn [negb].
    + rewrite Ec. cbn [ok_or mbind Result_bind]. rewrite Hc. cbn [mbind Result_bind].
      destruct (N.ltb_spec (n - lenN read) (lenN c)); [lia|].
      apply IH; rewrite ?lenN_app; [done|lia|by apply matches_app].
    + exists read. split; [done|]. split_and!; [done|done|]. right. apply H3. lia.
Qed.

Lemma memory_contents_prefix mem address n record :
  answers_read mem address n record ->
  exists b, memory_contents record n = Ok b /\ readable_prefix mem address n b.
Proof.
  intros (v & blocks & Hv & Hp & Hd). unfold memory_contents. rewrite Hv. cbn [ok_or mbind Result_bind].
  eapply contiguous_contents_prefix; [done|done|apply N.le_0_l|apply matches_nil].
Qed.

(** ** The reads of a trace *)

(** The range a command reads. *)
Definition read_of (c : MiCommand) : option (N * N) :=
  if bool_decide (command_name c = bytes_of "-data-read-memory-bytes") then
    match command_arguments c with
    | [Bare a; Bare n] =>
        digits ← strip_prefix (bytes_of "0x") a;
        address ← from_str_radix U64_MAX 16 digits;
        n ← parse_u64 n;
        Some (address, n)
    | _ => None
    end
  else None.

Lemma digit_value_hex d : (d < 16)%N -> digit_value 16 (hex_char d) = Some d.
Proof.
  intros H. assert (d ∈ N.of_nat <$> seq 0 16) as Hd.
  { apply list_elem_of_fmap. exists (N.to_nat d). split; [lia|]. apply elem_of_seq. lia. }
  cbn in Hd. repeat (apply elem_of_cons in Hd as [->|Hd]; [reflexivity|]). by apply not_elem_of_nil in Hd.
Qed.

Lemma radix_hex_fixed max w n acc rest :
  (n < 16 ^ N.of_nat w)%N -> (acc * 16 ^ N.of_nat w + n <= max)%N ->
  radix_digits max 16 acc (hex_fixed w n ++ rest) =
    radix_digits max 16 (acc * 16 ^ N.of_nat w + n)%N rest.
Proof.
  revert n rest. induction w as [|w IH]; intros n rest Hn Hmax.
  - change (16 ^ N.of_nat 0)%N with 1%N in *. cbn [hex_fixed app]. f_equal. lia.
  - cbn [hex_fixed]. rewrite <-app_assoc. rewrite Nat2N.inj_succ, N.pow_succ_r' in *.
    pose proof (N.div_mod n 16 ltac:(lia)) as Hdm. pose proof (N.mod_lt n 16 ltac:(lia)) as Hm.
    specialize (IH (n / 16)%N ([hex_char (n mod 16)] ++ rest)).
    revert Hdm Hm Hn Hmax IH. generalize (n / 16)%N (n mod 16)%N (16 ^ N.of_nat w)%N.
    intros q m P -> Hm Hn Hmax IH. assert (acc * (16 * P) = 16 * (acc * P))%N as E by ring.
    rewrite E in *. revert Hmax IH E. generalize (acc * P)%N. intros x Hmax IH _.
    rewrite IH by lia. cbn [app radix_digits]. rewrite digit_value_hex by done.
    cbn [mbind option_bind]. rewrite (proj2 (N.leb_le _ _)) by lia. f_equal. lia.
Qed.

Lemma strip_zeros_cons c d b :
  strip_zeros (c :: d :: b) = if (c =? "0")%char then strip_zeros (d :: b) else c :: d :: b.
Proof. done. Qed.

Lemma radix_zero max b : radix_digits max 16 0 ("0"%char :: b) = radix_digits max 16 0 b.
Proof. change (radix_digits max 16 0 ("0"%char :: b)) with
  (if (0 <=? max)%N then radix_digits max 16 0 b else None).
  by rewrite (proj2 (N.leb_le _ _) (N.le_0_l max)). Qed.

Lemma strip_zeros_digits max b :
  radix_digits max 16 0 (strip_zeros b) = radix_digits max 16 0 b.
Proof.
  induction b as [|c b IH]; [done|]. destruct b as [|d b]; [done|].
  rewrite strip_zeros_cons. destruct (Ascii.eqb_spec c "0"%char) as [->|]; [|done].
  by rewrite IH, radix_zero.
Qed.

Lemma hex_fixed_head w n : exists c r, hex_fixed (S w) n = c :: r /\ c <> "+"%char.
Proof.
  revert n. induction w as [|w IH]; intros n.
  - cbn [hex_fixed app]. eexists _, _. split; [done|]. intros H.
    pose proof (digit_value_hex (n mod 16) ltac:(apply N.mod_lt; lia)) as Hd. rewrite H in Hd. done.
  - cbn [hex_fixed]. destruct (IH (n / 16)%N) as (c & r & E & Hc). cbn [hex_fixed] in E. rewrite E.
    by exists c, (r ++ [hex_char (n mod 16)]).
Qed.

Lemma strip_zeros_head b c r : b = c :: r -> exists c' r', strip_zeros b = c' :: r' /\ c' ∈ b.
Proof.
  revert c r. induction b as [|x b IH]; intros c r E; [done|]. destruct b as [|y b].
  - exists x, []. set_solver.
  - rewrite strip_zeros_cons. destruct (x =? "0")%char; [|exists x, (y :: b); set_solver].
    destruct (IH y b eq_refl) as (c' & r' & -> & H). exists c', r'. set_solver.
Qed.

Lemma hex_fixed_no_plus w n : Forall (fun c => c <> "+"%char) (hex_fixed w n).
Proof.
  revert n. induction w as [|w IH]; intros n; cbn [hex_fixed]; [constructor|].
  apply Forall_app. split; [apply IH|]. constructor; [|constructor]. intros H.
  pose proof (digit_value_hex (n mod 16) ltac:(apply N.mod_lt; lia)) as Hd. by rewrite H in Hd.
Qed.

Lemma parse_hex_lower n : (n <= U64_MAX)%N -> from_str_radix U64_MAX 16 (hex_lower n) = Some n.
Proof.
  intros Hn. pose proof (strip_zeros_digits U64_MAX (hex_fixed 16 n)) as Hs.
  rewrite <-(app_nil_r (hex_fixed 16 n)) in Hs at 2.
  rewrite radix_hex_fixed in Hs by (change (16 ^ N.of_nat 16)%N with 18446744073709551616%N;
    unfold U64_MAX in *; lia). cbn [radix_digits] in Hs. rewrite N.mul_0_l in Hs.
  destruct (hex_fixed_head 15 n) as (c & r & E & _).
  destruct (strip_zeros_head _ _ _ E) as (c' & r' & E' & Hin).
  unfold from_str_radix, hex_lower. rewrite E'.
  pose proof (hex_fixed_no_plus 16 n) as Hp. rewrite Forall_forall in Hp. apply Hp in Hin.
  destruct (Ascii.eqb_spec c' "+"%char); [done|]. by rewrite <-E', Hs.
Qed.

Lemma read_command_of address n c :
  (address <= U64_MAX)%N -> (n <= U64_MAX)%N -> read_command address n = Ok c ->
  read_of c = Some (address, n).
Proof.
  unfold read_command. intros Ha Hn (c0 & H0 & H)%bind_Ok. apply bind_Ok in H as (c1 & H1%bare_Ok & H2%bare_Ok).
  unfold MiCommand_new in H0. destruct (_ || _); [done|]. simplify_eq. unfold read_of. cbn [command_name
    push_argument command_arguments app]. rewrite bool_decide_true by done.
  rewrite (proj2 (strip_prefix_Some _ _ _) eq_refl). cbn [mbind option_bind]. rewrite parse_hex_lower by done.
  cbn [mbind option_bind]. unfold parse_u64. by rewrite parse_dec.
Qed.

(** The range and the answer of a read that was answered. *)
Definition answered_read (e : event HandleSig) : option (N * N * Result Error CommandReply) :=
  match projT1 e as o return answer HandleSig o -> _ with
  | Hop.Receive r =>
      match r as r return option (response_of r) -> _ with
      | Command c _ _ => fun x => range ← read_of c; reply ← x; Some (range, reply)
      | _ => fun _ => None
      end
  | _ => fun _ => None
  end (projT2 e).

(** GDB's answer to a read lists the readable blocks of the range; when it
    refuses, the first byte cannot be read. *)
Definition faithful mem (e : event HandleSig) : Prop :=
  forall address n reply, answered_read e = Some (address, n, reply) ->
    match reply with
    | Ok reply => answers_read mem address n (cr_record reply)
    | Err error => err_code error = Code.GdbError -> mem address = None
    end.

(** The state the task last saw. *)
Definition seen_state (e : event HandleSig) : option SessionState :=
  match projT1 e as o return answer HandleSig o -> option SessionState with
  | Hop.State => fun s => Some s
  | _ => fun _ => None
  end (projT2 e).

Fixpoint last_state (tr : trace HandleSig) : option SessionState :=
  match tr with
  | [] => None
  | e :: tr => or_else (seen_state e) (last_state tr)
  end.

Definition at_stop (expected : SessionState) (tr : trace HandleSig) : Prop :=
  exists s, last_state tr = Some s /\ same_execution s expected = true.

(** Events that say nothing of the state, the lock or the memory. *)
Definition idle (e : event HandleSig) : Prop :=
  seen_state e = None /\ lock_effect e = None /\ answered_read e = None.

Definition extends (tr tr' : trace HandleSig) : Prop := exists es, tr' = es ++ tr /\ Forall idle es.

Lemma extends_refl tr : extends tr tr.
Proof. by exists []. Qed.

Lemma extends_cons tr tr' e : extends tr tr' -> idle e -> extends tr (e :: tr').
Proof. intros (es & -> & H) He. exists (e :: es). split; [done|by constructor]. Qed.

Lemma extends_held tr tr' : extends tr tr' -> held tr' = held tr.
Proof.
  intros (es & -> & H). induction H as [|e es (_ & He & _) _ IH]; [done|]. cbn. by rewrite He.
Qed.

Lemma extends_last_state tr tr' : extends tr tr' -> last_state tr' = last_state tr.
Proof.
  intros (es & -> & H). induction H as [|e es (He & _) _ IH]; [done|]. cbn. by rewrite He.
Qed.

Lemma extends_faithful mem tr tr' :
  extends tr tr' -> Forall (faithful mem) tr' <-> Forall (faithful mem) tr.
Proof.
  intros (es & -> & H). rewrite Forall_app. split; [by intros []|]. intros Ht. split; [|done].
  eapply Forall_impl; [exact H|]. intros e (_ & _ & He) ???. by rewrite He.
Qed.

(** ** Commands in a stable observation *)

Section commands.
Context (ok_op : trace HandleSig -> op HandleSig -> Prop) (lax : bool).
Context (command_timeout : N).
(** The operations other than sending a command are allowed. *)
Context (Hplain : forall tr o,
  match o with Hop.Send (Command _ _ _) _ => True | _ => ok_op tr o end).

Lemma wpa_command (Q : Result Error CommandReply -> option Observation -> trace HandleSig -> Prop)
    c o tr :
  (forall tr' op d, extends tr tr' -> ok_op tr' (Hop.Send (Command c op d) (Some d))) ->
  (forall tr' e, extends tr tr' -> err_code e <> Code.GdbError -> Q (Err e) (Some o) tr') ->
  (forall tr' op d r, extends tr tr' ->
     Q r (Some o) (ev (E := HandleSig) (Hop.Receive (Command c op d)) (Some r) :: tr')) ->
  wpa ok_op lax (command command_timeout c) Q (Some o) tr.
Proof.
  intros Hsend Herr Hreply. unfold command, command_with_timeout, command_deadline.
  apply wpa_bind, wpa_hdo; [exact (Hplain tr (Hop.Deadline _))|]. intros d.
  set (tr1 := _ :: tr). assert (extends tr tr1) as H1 by (apply extends_cons; [apply extends_refl|done]).
  unfold in_sequence. apply wpa_bind, wpa_scope. cbv beta iota.
  unfold send_command, owning_operation, active_operation.
  apply wpa_bind, wpa_bind, wpa_hdo; [exact (Hplain tr1 Hop.ActiveOperation)|]. intros active.
  set (tr2 := _ :: tr1). assert (extends tr tr2) as H2 by (by apply extends_cons).
  assert (forall op, wpa ok_op lax (enqueue_command c d op) Q (Some o) tr2) as Hcont.
  { intros op. unfold enqueue_command, hask, exchange_until, enqueue_until, receive.
    apply wpa_bind, wpa_bind, wpa_bind, wpa_hdo; [by apply Hsend|]. intros delivery.
    set (tr3 := _ :: tr2). assert (extends tr tr3) as H3 by (by apply extends_cons).
    apply wpa_check. destruct delivery; cbv beta iota delta [delivered_ok]; [|by apply Herr..].
    apply wpa_bind, wpa_hdo; [exact (Hplain tr3 (Hop.Receive _))|]. intros [r|]; apply wpa_check;
      cbv beta iota delta [ok_or].
    - apply wpa_check. by apply Hreply.
    - apply Herr; [|done]. apply extends_cons; [done|]. split_and!; [done|done|]. cbn.
      by destruct (read_of c). }
  destruct active as [[id cancelled]|]; [|apply wpa_ret, Hcont].
  apply wpa_bind, wpa_check. unfold operation_active. destruct cancelled; [by apply Herr|].
  apply wpa_ret, Hcont.
Qed.

End commands.

(** ** Reading a range *)

Section reads.
Context (ok_op : trace HandleSig -> op HandleSig -> Prop) (lax : bool).
Context (command_timeout : N) (mem : N -> option ascii) (expected : SessionState).
Context (Hplain : forall tr o,
  match o with Hop.Send (Command _ _ _) _ => True | _ => ok_op tr o end).
Context (Hread : forall tr c op d, is_Some (read_of c) -> ok_op tr (Hop.Send (Command c op d) (Some d))).

(** Seeing the state keeps everything but the last state. *)
Lemma wpa_require_context (Q : Result Error unit -> option Observation -> trace HandleSig -> Prop) s tr :
  (forall x, let tr' := ev (E := HandleSig) Hop.State x :: tr in
     held tr' = held tr -> (Forall (faithful mem) tr' <-> Forall (faithful mem) tr) ->
     Q (Err stale_composite) s tr' /\ (at_stop expected tr' -> Q (Ok tt) s tr')) ->
  wpa ok_op lax (require_same_execution_context expected) Q s tr.
Proof.
  intros H. unfold require_same_execution_context. apply wpa_bind, wpa_hdo; [exact (Hplain tr Hop.State)|].
  intros x. apply wpa_check. edestruct H as [He Hok]; [done| |].
  { rewrite Forall_cons. split; [by intros []|]. intros Ht. split; [|done]. intros ???. done. }
  destruct (same_execution x expected) eqn:E; [|done]. apply Hok. by exists x.
Qed.

(** What a read has so far, and what it ends with. *)
Definition reading (start len : N) (read : bytes) (tr0 tr : trace HandleSig) : Prop :=
  (lenN read <= len)%N /\ held tr = held tr0 /\ (Forall (faithful mem) tr -> matches mem start read).

Lemma contiguous_contents_bound items n read b :
  (lenN read <= n)%N -> contiguous_contents items n read = Ok b -> (lenN b <= n)%N.
Proof.
  revert read. induction items as [|item items IH]; intros read Hle; cbn [contiguous_contents].
  { by intros [= <-]. }
  intros (so & _ & H)%bind_Ok. apply bind_Ok in H as (offset & _ & H).
  destruct (negb _); [by simplify_eq|]. apply bind_Ok in H as (sc & _ & H).
  apply bind_Ok in H as (c & _ & H). destruct (N.ltb_spec (n - lenN read) (lenN c)); [done|].
  eapply IH; [|exact H]. rewrite lenN_app. lia.
Qed.

Lemma memory_contents_bound record n b : memory_contents record n = Ok b -> (lenN b <= n)%N.
Proof.
  unfold memory_contents. intros (m & _ & H)%bind_Ok. eapply contiguous_contents_bound; [|exact H].
  apply N.le_0_l.
Qed.

Lemma answered_read_reply c op d r address n :
  read_of c = Some (address, n) ->
  answered_read (ev (E := HandleSig) (Hop.Receive (Command c op d)) (Some r)) = Some (address, n, r).
Proof. intros H. cbn. by rewrite H. Qed.

Lemma wpa_read_chunks fuel start len allow_partial read seq o tr0 tr
    (Q : Result Error (bytes * N) -> option Observation -> trace HandleSig -> Prop) :
  (len <= U64_MAX)%N -> (len - lenN read <= N.of_nat fuel * CHUNK_BYTES)%N ->
  reading start len read tr0 tr ->
  (forall e tr', Q (Err e) (Some o) tr') ->
  (forall read' seq' tr', reading start len read' tr0 tr' ->
     (Forall (faithful mem) tr' -> lenN read' = len \/ mem (start + lenN read')%N = None) ->
     Q (Ok (read', seq')) (Some o) tr') ->
  wpa ok_op lax (read_chunks command_timeout fuel expected start len allow_partial read seq) Q (Some o) tr.
Proof.
  intros Hlen. revert read seq tr. induction fuel as [|fuel IH]; intros read seq tr Hfuel Hr Herr Hok;
    cbn [read_chunks]; (destruct (N.ltb_spec (lenN read) len) as [Hlt|Hge];
      [|destruct Hr as (Hle & Hh & Hm); apply wpa_ret, Hok; [done|]; intros _; left; lia]).
  { exfalso. cbn in Hfuel. lia. }
  apply wpa_bind, wpa_require_context. intros x tr1 Hh1 Hf1. split; [by apply Herr|]. intros _.
  set (chunk := N.min (len - lenN read) CHUNK_BYTES).
  apply wpa_bind, wpa_check. destruct (N.leb_spec (start + lenN read) U64_MAX) as [Ha|_]; [|by apply Herr].
  apply wpa_bind, wpa_check. destruct (read_command _ chunk) as [c|e] eqn:Ec; [|by apply Herr].
  assert (read_of c = Some (start + lenN read, chunk)%N) as Hc
    by (apply read_command_of; [done|subst chunk; lia|done]).
  destruct Hr as (Hle & Hh & Hm). assert (0 < chunk)%N as Hpos by (subst chunk; unfold CHUNK_BYTES; lia).
  apply wpa_bind, wpa_attempt, wpa_command; [done|by intros; apply Hread; rewrite Hc| |].
  - intros tr2 e Hx Hne. cbv beta iota. unfold recoverable_partial_read.
    rewrite (bool_decide_false (err_code e = _)), andb_false_r by done. apply wpa_check, Herr.
  - intros tr2 op d r Hx. set (tr3 := ev _ _ :: tr2).
    assert (held tr3 = held tr0) as Hh3 by (cbn; rewrite (extends_held _ _ Hx); congruence).
    assert (Forall (faithful mem) tr3 -> Forall (faithful mem) tr) as Hf3.
    { intros [_ H]%Forall_cons. by apply Hf1, (extends_faithful _ _ _ Hx). }
    assert (Forall (faithful mem) tr3 ->
      match r with
      | Ok reply => answers_read mem (start + lenN read) chunk (cr_record reply)
      | Err error => err_code error = Code.GdbError -> mem (start + lenN read)%N = None
      end) as Hans.
    { intros [H _]%Forall_cons. by apply (H _ _ _ (answered_read_reply c op d r _ _ Hc)). }
    clearbody tr3. destruct r as [reply|e]; cbv beta iota.
    + apply wpa_bind, wpa_require_context. intros x' tr4 Hh4 Hf4. split; [by apply Herr|]. intros _.
      apply wpa_bind, wpa_check. destruct (memory_contents (cr_record reply) chunk) as [part|e] eqn:Ep; [|by apply Herr].
      pose proof (memory_contents_bound _ _ _ Ep) as Hb.
      assert (Forall (faithful mem) tr4 -> readable_prefix mem (start + lenN read) chunk part) as Hpart.
      { intros Ht. destruct (memory_contents_prefix _ _ _ _ (Hans (proj1 Hf4 Ht))) as (b & Hb' & Hp).
        congruence. }
      assert (reading start len (read ++ part) tr0 tr4) as Hr4.
      { split_and!; [rewrite lenN_app; subst chunk; lia|congruence|]. intros Ht.
        apply matches_app; [by apply Hm, Hf3, Hf4|]. by apply Hpart. }
      cbv zeta. destruct (N.ltb_spec (lenN part) chunk) as [Hshort|Hfull].
      * apply wpa_ret, Hok; [done|]. intros Ht. right.
        destruct (Hpart Ht) as (_ & _ & [H|H]); [lia|]. by rewrite lenN_app, N.add_assoc.
      * apply IH; [|done..]. rewrite lenN_app. revert Hfull. subst chunk. unfold CHUNK_BYTES in *. lia.
    + unfold recoverable_partial_read.
      destruct (allow_partial && (0 <? lenN read)%N && bool_decide (err_code e = Code.GdbError)) eqn:E;
        [|apply wpa_check, Herr].
      apply andb_true_iff in E as [_ E%bool_decide_eq_true].
      apply wpa_ret, Hok; [|by intros Ht; right; apply Hans].
      split_and!; [done|done|]. intros Ht. by apply Hm, Hf3.
Qed.

Definition read_post (start len : N) (allow_partial : bool) (tr0 : trace HandleSig)
    (r : Result Error (bytes * N)) (tr : trace HandleSig) : Prop :=
  match r with
  | Ok (b, _) =>
      (lenN b <= len)%N /\ (allow_partial = false -> lenN b = len) /\ held tr = held tr0 /\
      (Forall (faithful mem) tr ->
         matches mem start b /\ (lenN b = len \/ mem (start + lenN b)%N = None))
  | Err _ => True
  end.

Lemma wpa_read_in_observation start len allow_partial o tr :
  (len <= U64_MAX)%N ->
  wpa ok_op lax (read_memory_bytes_in_observation command_timeout expected start len allow_partial)
    (fun r s' tr' => s' = Some o /\ read_post start len allow_partial tr r tr') (Some o) tr.
Proof.
  intros Hlen. unfold read_memory_bytes_in_observation. apply wpa_bind, wpa_check.
  destruct (validate_memory_range start len) as [[]|e]; [|done].
  apply wpa_bind, wpa_hdo; [exact (Hplain tr Hop.State)|]. intros x.
  apply wpa_bind, (wpa_read_chunks _ _ _ _ _ _ _ tr); [done| | |done|].
  - unfold read_fuel. change (lenN []) with 0%N. rewrite Nat2N.inj_succ, N2Nat.id.
    pose proof (N.mod_lt len CHUNK_BYTES ltac:(done)). pose proof (N.div_mod len CHUNK_BYTES ltac:(done)). lia.
  - split_and!; [apply N.le_0_l|done|]. intros _. apply matches_nil.
  - intros read seq tr' (H1 & H2 & H3) H4. cbv beta iota. apply wpa_bind, wpa_check.
    unfold require_complete_read. destruct (N.eqb_spec (lenN read) len) as [He|Hne].
    + rewrite andb_false_r. apply wpa_ret. split; [done|]. cbn. split_and!; auto.
    + rewrite andb_true_r. destruct allow_partial; cbn [negb]; [|done].
      apply wpa_ret. split; [done|]. cbn. split_and!; auto. done.
Qed.

(** Inside an observation the stop is compared before and after an operation. *)
Lemma wpa_stable_nested {A} (m : handler A) o tr
    (Q : Result Error A -> option Observation -> trace HandleSig -> Prop) :
  (forall tr0, held tr0 = held tr -> wpa ok_op lax m (fun r s' tr' =>
     match r with
     | Ok a => forall tr2, at_stop expected tr2 -> held tr2 = held tr' ->
                 (Forall (faithful mem) tr2 -> Forall (faithful mem) tr') -> Q (Ok a) s' tr2
     | Err e => Q (Err e) s' tr'
     end) (Some o) tr0) ->
  (forall e s' tr', Q (Err e) s' tr') ->
  wpa ok_op lax (stable_observation command_timeout expected m) Q (Some o) tr.
Proof.
  intros Hm Herr. unfold stable_observation. apply wpa_bind, wpa_scope. cbv beta iota.
  apply wpa_bind, wpa_require_context. intros x tr1 Hh _. split; [apply Herr|]. intros _.
  unfold then_stable. apply wpa_bind. apply (wpa_mono _ _ _ _ _ _ _ (Hm tr1 Hh)).
  intros [a|e] s' tr' H; [|done]. apply wpa_bind, wpa_require_context. intros x' tr2 Hh2 Hf2.
  split; [apply Herr|]. intros Hs. apply wpa_ret, H; [done..|apply Hf2].
Qed.

(** An observation holds the lock for its operation. *)
Lemma wpa_stable_start {A} (m : handler A) tr (P : Result Error A -> trace HandleSig -> Prop) :
  (forall r e tr, P r tr -> P r (e :: tr)) -> (forall e tr, P (Err e) tr) ->
  (forall tr0, held tr0 = true ->
     wpa ok_op lax m (fun r _ tr' => P r tr') (Some (MkObservation None)) tr0) ->
  wpa ok_op lax (stable_observation command_timeout expected m) (fun r _ tr' => P r tr') None tr.
Proof.
  intros Hmono Herr Hm. unfold stable_observation. apply wpa_bind, wpa_scope. cbv beta iota.
  unfold command_deadline. apply wpa_bind, wpa_hdo; [exact (Hplain tr (Hop.Deadline _))|]. intros d.
  set (tr1 := _ :: tr). unfold with_sequence.
  apply wpa_bind, wpa_hdo; [exact (Hplain tr1 (Hop.LockSequence d))|].
  intros [|]; [|apply wpa_check, Herr]. apply wpa_bind, wpa_attempt.
  assert (forall r s' tr', P r tr' ->
    wpa ok_op lax (_ ← hdo Hop.UnlockSequence; check r) (fun r _ tr' => P r tr') s' tr') as Hend.
  { intros r s' tr' Hp. apply wpa_bind, wpa_hdo; [exact (Hplain tr' Hop.UnlockSequence)|].
    intros []. apply wpa_check. by apply Hmono. }
  apply wpa_bind, wpa_require_context. intros x tr2 Hh2 _. split; [apply Hend, Herr|]. intros _.
  unfold in_scope. apply wpa_bind, wpa_local. cbn [wp modify]. apply wpa_bind, wpa_attempt.
  unfold then_stable. apply wpa_bind.
  apply (wpa_mono _ _ _ _ _ _ _ (Hm tr2 Hh2)). intros r s' tr' Hr. cbv beta in Hr.
  destruct r as [a|e].
  - apply wpa_bind, wpa_require_context. intros x' tr3 _ _.
    split; [|intros _; apply wpa_ret]; apply wpa_bind, wpa_local; apply Hend;
      [apply Herr|by apply Hmono].
  - apply wpa_bind, wpa_local. apply Hend, Herr.
Qed.

End reads.

(** ** Claims *)

(** C10: a read of the target's memory is exact: against a memory [mem] that
    GDB's answers to the chunk reads are faithful to, a read that succeeds
    returns bytes of [mem] from the address on, all of the range unless a
    partial read is allowed, and then every byte up to the first that cannot
    be read; whatever the length it takes one round per 64 KiB chunk, so it
    neither panics nor runs out of rounds. *)
Theorem reads_return_the_readable_prefix command_timeout mem expected start len allow_partial :
  (len <= U64_MAX)%N ->
  wpa (fun _ _ => True) false
    (read_memory_bytes command_timeout expected start len allow_partial)
    (fun r _ tr =>
       match r with
       | Ok (b, _) =>
           (lenN b <= len)%N /\ (allow_partial = false -> lenN b = len) /\
           (Forall (faithful mem) tr ->
              matches mem start b /\ (lenN b = len \/ mem (start + lenN b)%N = None))
       | Err _ => True
       end) None [].
Proof.
  intros Hlen. unfold read_memory_bytes.
  assert (forall (tr : trace HandleSig) (o : Hop.op), match o with Hop.Send (Command _ _ _) _ => True | _ => True end) as Hp
    by (intros ? o; repeat case_match; done).
  apply (wpa_stable_start _ _ _ mem); [exact Hp| |done|].
  - intros [[b seq]|e] x tr; [|done]. intros (H1 & H2 & H3). split_and!; [done|done|].
    by intros [_ Ht]%Forall_cons; auto.
  - intros tr0 _. eapply wpa_mono; [by apply (wpa_read_in_observation _ _ _ mem)|].
    intros [[b seq]|e] s' tr' [_ H]; [|done]. destruct H as (H1 & H2 & _ & H3). by split_and!.
Qed.

(** A range of five readable bytes. *)
Definition sample_memory (address : N) : option ascii :=
  if (4096 <=? address)%N && (address <? 4101)%N then Some (ascii_of_N (address - 4000)) else None.

(** GDB reading from it: the bytes up to the first that cannot be read. *)
Fixpoint readable (mem : N -> option ascii) (address : N) (n : nat) : bytes :=
  match n with
  | 0 => []
  | S n => match mem address with Some c => c :: readable mem (address + 1) n | None => [] end
  end.

Definition memory_record (b : bytes) : MiRecord :=
  RResult None "done"
    [MkMiResult "memory" (ValueList [Tuple [MkMiResult "offset" (Const (bytes_of "0x0"));
                                            MkMiResult "contents" (Const (bytes_of (hex_encode b)))]])].

Definition sample_reply (c : MiCommand) : Result Error CommandReply :=
  match read_of c with
  | Some (address, n) =>
      match readable sample_memory address (N.to_nat n) with
      | [] => Err (Error_new Code.GdbError "Unable to read memory.")
      | b => Ok (MkCommandReply 1 "done" (memory_record b) [] false 7)
      end
  | None => Ok (MkCommandReply 2 "done" (RResult None "done" []) [] false 8)
  end.

Definition sample_stop : SessionState := sample_stopped.

Definition sample_answers (o : op HandleSig) : answer HandleSig o :=
  match o with
  | Hop.State => sample_stop
  | Hop.Capabilities => MkSessionCapabilities Null ∅ ∅ ∅ ∅ []
  | Hop.ActiveOperation => None
  | Hop.Deadline t => t
  | Hop.LockSequence _ => true
  | Hop.UnlockSequence => tt
  | Hop.Send _ _ | Hop.SendControl _ _ => Sent
  | Hop.Receive r =>
      match r as r return option (response_of r) with
      | Command c _ _ => Some (sample_reply c)
      | RecordEvent _ => Some (Ok tt)
      | _ => None
      end
  | Hop.ReceiveControl _ => None
  | Hop.Snapshots => []
  | Hop.WaitFrom _ _ _ _ => Ok sample_stop
  | Hop.DrainInferior => tt
  | Hop.ReadInferior after_offset _ => Ring.MkRingRead after_offset after_offset after_offset false []
  | Hop.OutputPosition | Hop.Now => 0%N
  | Hop.OutputEvidence => Null
  | Hop.Subscribe => tt
  | Hop.NextEvent _ => Closed
  | Hop.FindSession id => Some (MkSessionEntry 1 id "alice" LabMutation)
  | Hop.PutArtifact _ _ => Ok "artifact"
  | Hop.StoredSnapshot _ _ => Ok None
  | Hop.ReadMaps _ => Err (Error_new Code.Internal "no maps")
  | Hop.Canonicalize path => Ok path
  | Hop.Exists _ | Hop.IsDirectory _ | Hop.IsFile _ => true
  | Hop.OpenSource _ => Ok (true, [])
  | Hop.EnvironmentVariable _ => None
  | Hop.FileMode _ => Ok 493%N
  | Hop.ProcessOwner _ => Ok 1000%N
  | Hop.EffectiveUid => 1000%N
  | Hop.PidNamespace _ => Ok (4, 4026531836)%N
  | Hop.ProcessStat _ => Err "no process"
  | Hop.SessionDirectory => "/run/session"
  | Hop.RemoveFile _ | Hop.Symlink _ _ => Ok tt
  | Hop.Expired _ => false
  | Hop.SpawnCleanup _ _ => tt
  | Hop.StartTrigger _ _ => Err "no program"
  | Hop.TriggerStatus => Ok None
  | Hop.TriggerWait _ => None
  | Hop.TriggerReap => Err "no process"
  | Hop.TriggerKill => Ok tt
  | Hop.TriggerStream _ => Ok []
  | Hop.NewUlid => "01ARZ3NDEKTSV4RRFFQ69G5FAV"
  end.

Definition sample_handle (o : op HandleSig) (w : unit) : answer HandleSig o * unit :=
  (sample_answers o, w).

Definition sample_read :=
  interp (E := HandleSig) sample_handle (read_memory_bytes 5000 sample_stop 4096 8 true None) tt.

Definition sample_trace : trace HandleSig :=
  interp_trace (E := HandleSig) sample_handle (read_memory_bytes 5000 sample_stop 4096 8 true None) tt [].

(** The answers of that trace are those of the sample, which reads one range. *)
Lemma interp_trace_answers {A W} (f : forall o : op HandleSig, answer HandleSig o) (m : prog HandleSig A)
    (w : W) tr :
  Forall (fun e => projT2 e = f (projT1 e)) tr ->
  Forall (fun e => projT2 e = f (projT1 e)) (interp_trace (fun o w => (f o, w)) m w tr).
Proof.
  revert tr. induction m as [a|o k IH]; intros tr H; cbn; [done|]. apply IH. by constructor.
Qed.

Definition expected_read (e : event HandleSig) : bool :=
  match answered_read e with
  | None => true
  | Some (address, n, _) => (address =? 4096)%N && (n =? 8)%N
  end.

Lemma expected_read_faithful e :
  projT2 e = sample_answers (projT1 e) -> expected_read e = true -> faithful sample_memory e.
Proof.
  intros Ha H address n reply E. unfold expected_read in H. rewrite E in H.
  apply andb_true_iff in H as [->%N.eqb_eq ->%N.eqb_eq]. destruct e as [o x]. cbn [projT1 projT2] in Ha.
  subst x. destruct o; try discriminate E.
  match goal with r : WorkerRequest |- _ => rename r into request end.
  destruct request as [c op d| | | | | | | | | | | | | | | | | |]; try discriminate E. cbn in E.
  unfold sample_reply in E. destruct (read_of c) as [[a m]|] eqn:Ec; [|discriminate E]. cbn in E.
  injection E as -> -> <-. cbn [readable sample_memory N.leb N.ltb]. 
  exists (ValueList [Tuple [MkMiResult "offset" (Const (bytes_of "0x0"));
    MkMiResult "contents" (Const (bytes_of (hex_encode (readable sample_memory 4096 8))))]]),
    [(0%N, readable sample_memory 4096 8)]. split; [reflexivity|]. split.
  - constructor; [split; reflexivity|constructor].
  - cbn [describes]. split_and!; [lia|vm_compute; discriminate|intros i Hi; lia| |].
    + intros i x Hx. do 5 (destruct i as [|i]; [revert x Hx; vm_compute; congruence|]). done.
    + change (0 + lenN (readable sample_memory 4096 8))%N with 5%N. intros i Hi.
      unfold sample_memory. destruct (N.ltb_spec (4096 + i) 4101); [lia|]. by rewrite andb_false_r.
Qed.

Lemma reads_return_the_readable_prefix_witness :
  (8 <= U64_MAX)%N /\
  exists b seq,
    sample_read.1 = (None, Done (b, seq)) /\ length b = 5 /\ matches sample_memory 4096 b /\
    (lenN b = 8%N \/ sample_memory (4096 + lenN b) = None).
Proof.
  split; [discriminate|].
  pose proof (reads_return_the_readable_prefix 5000 sample_memory sample_stop 4096 8 true
    ltac:(discriminate)) as H.
  apply (fun H => safe_reaches _ _ _ _ _ _ H (interp_reaches sample_handle _ tt [])) in H.
  fold sample_read in H. fold sample_trace in H. cbn [safe] in H.
  destruct sample_read.1 as [s r] eqn:E. 
  assert (Forall (faithful sample_memory) sample_trace) as Ht.
  { assert (forallb expected_read sample_trace = true) as Hb by (vm_compute; reflexivity).
    pose proof (interp_trace_answers sample_answers
      (read_memory_bytes 5000 sample_stop 4096 8 true None) tt [] (Forall_nil_2 _)) as Ha.
    rewrite forallb_forall in Hb. rewrite Forall_forall in Ha. apply Forall_forall. intros e He.
    apply expected_read_faithful; [by apply Ha|]. by apply Hb, list_elem_of_In. }
  assert (exists b seq, (s, r) = (None, Done (b, seq)) /\ length b = 5) as (b & seq & Hr & Hl).
  { rewrite <-E. eexists _, _. split; [vm_compute; reflexivity|reflexivity]. }
  exists b, seq. simplify_eq. destruct H as (_ & _ & H). split_and!; [done|done|..]; by apply H.
Defined.

(** *** Compare and write *)

Section writes.
Context (command_timeout : N) (mem : N -> option ascii).
Context (base64_decode : string -> Result string bytes) (sha256 : bytes -> bytes).

(** When a request may change memory. *)
Record may_write (parameters : Value) (c : MiCommand) (tr : trace HandleSig) : Prop := {
  write_locked : held tr = true;
  write_target : exists state text address content number before,
    require_stopped_context parameters state = Ok tt /\
    at_stop state tr /\
    text_parameter parameters "address" = Ok text /\ Address_parse text = Ok address /\
    input_bytes base64_decode parameters = Ok content /\ (0 < lenN content <= 64 * 1024)%N /\
    write_command address content = Ok c /\
    parse_address address = Ok number /\ lenN before = lenN content /\
    expected_bytes_match base64_decode sha256 parameters before = Ok true /\
    (Forall (faithful mem) tr -> matches mem number before)
}.

Definition writes_ok (parameters : Value) (tr : trace HandleSig) (o : op HandleSig) : Prop :=
  match o with
  | Hop.Send (Command c _ _) _ => is_Some (read_of c) \/ may_write parameters c tr
  | _ => True
  end.

Lemma writes_ok_plain parameters (tr : trace HandleSig) (o : Hop.op) :
  match o with Hop.Send (Command _ _ _) _ => True | _ => writes_ok parameters tr o end.
Proof. repeat case_match; done. Qed.


End writes.
