(* ===== verification/Observed.v ===== *)
(** * Observed: the result of one observation turn
    ([crates/gdb-ai-core/src/protocol.rs])

    What a turn's reads captured, its JSON form, which the worker stores and
    gives back, and the result of a batch.  A value that is read back is an
    object, since it was written from one. *)

From S2P Require Import Prelude Text MiAst Json Errors Domain Protocol Wire Results.

Inductive FactAvailability := Captured | NotCollected | FactUnavailable | FactFailed.

#[export] Instance FactAvailability_eq_dec : EqDecision FactAvailability.
Proof. solve_decision. Defined.

Record ObservationResult := MkObservationResult {
  ob_context : ObservationContext;
  ob_results : gmap string Value;
  ob_failures : gmap string ApiError;
  ob_complete : bool;
  ob_availability : gmap string FactAvailability;
  ob_warnings : list Warning;
  ob_evidence : list Evidence;
  ob_artifacts : list string;
  ob_truncated : bool
}.

(** ** Written *)

Definition availability_wire (x : FactAvailability) : string :=
  snake_case match x with
  | Captured => "Captured" | NotCollected => "NotCollected"
  | FactUnavailable => "Unavailable" | FactFailed => "Failed"
  end.

Definition availability_value (x : FactAvailability) : Value := Str (availability_wire x).

(** [skip_serializing_if = "BTreeMap::is_empty"] and [Vec::is_empty]. *)
Definition nonempty_map {A} (key : string) (f : A -> Value) (m : gmap string A) : list (string * Value) :=
  if bool_decide (m = ∅) then [] else [(key, map_value f m)].
Definition nonempty_list {A} (key : string) (f : A -> Value) (l : list A) : list (string * Value) :=
  match l with [] => [] | _ => [(key, Array (f <$> l))] end.

Definition observation_value (r : ObservationResult) : Value :=
  Object ([("context", context_value (ob_context r)); ("results", map_value id (ob_results r))] ++
          nonempty_map "failures" api_error_value (ob_failures r) ++
          [("complete", Bool (ob_complete r))] ++
          nonempty_map "availability" availability_value (ob_availability r) ++
          nonempty_list "warnings" warning_value (ob_warnings r) ++
          nonempty_list "evidence" evidence_value (ob_evidence r) ++
          nonempty_list "artifacts" Str (ob_artifacts r) ++
          [("truncated", Bool (ob_truncated r))]).

(** ** Read back *)

Definition all_codes : list Code.ErrorCode :=
  [Code.InvalidArgument; Code.InvalidState; Code.StaleRevision; Code.StaleContext; Code.NotFound;
   Code.AlreadyExists; Code.Conflict; Code.WriteLeaseRequired; Code.WriteLeaseExpired;
   Code.PolicyDenied; Code.CapabilityMissing; Code.Unsupported; Code.TargetRunning;
   Code.TargetStopped; Code.TargetExited; Code.TargetDisconnected; Code.TargetUnavailable;
   Code.Timeout; Code.Cancelled; Code.EventGap; Code.StreamClosed; Code.OutputLimit;
   Code.MemoryPreconditionFailed; Code.PartialRead; Code.GdbError; Code.GdbUnresponsive;
   Code.GdbExited; Code.MiParseError; Code.MiProtocolLimit; Code.ConsistencyDirty;
   Code.ConsistencyLost; Code.Internal].

Definition decode_code (v : Value) : option Code.ErrorCode :=
  name ← Json.as_str v;
  List.find (fun c => bool_decide (code_wire c = name)) all_codes.

Definition all_availability : list FactAvailability := [Captured; NotCollected; FactUnavailable; FactFailed].

Definition decode_availability (v : Value) : option FactAvailability :=
  name ← Json.as_str v;
  List.find (fun x => bool_decide (availability_wire x = name)) all_availability.

(** [null] is no details. *)
Definition decode_details (v : option Value) : option Value :=
  match v with Some Null => None | _ => v end.

Definition decode_api_error (v : Value) : option ApiError :=
  code ← (Json.get "code" v ≫= decode_code);
  message ← (Json.get "message" v ≫= Json.as_str);
  retryable ← (Json.get "retryable" v ≫= Json.as_bool);
  Some (MkApiError code message retryable (decode_details (Json.get "details" v))).

Definition decode_warning (v : Value) : option Warning :=
  code ← (Json.get "code" v ≫= Json.as_str);
  message ← (Json.get "message" v ≫= Json.as_str);
  Some (MkWarning code message).

Fixpoint decode_all {A} (f : Value -> option A) (l : list Value) : option (list A) :=
  match l with
  | [] => Some []
  | v :: r => x ← f v; xs ← decode_all f r; Some (x :: xs)
  end.

Definition decode_list {A} (f : Value -> option A) (v : option Value) : option (list A) :=
  match v with
  | None => Some []
  | Some v => items ← Json.as_array v; decode_all f items
  end.

Fixpoint decode_fields {A} (f : Value -> option A) (fields : list (string * Value)) (m : gmap string A)
    : option (gmap string A) :=
  match fields with
  | [] => Some m
  | (key, v) :: r => x ← f v; decode_fields f r (<[key := x]> m)
  end.

Definition decode_map {A} (f : Value -> option A) (v : Value) : option (gmap string A) :=
  fields ← Json.as_object v; decode_fields f fields ∅.

Definition decode_default_map {A} (f : Value -> option A) (v : option Value) : option (gmap string A) :=
  match v with None => Some ∅ | Some v => decode_map f v end.

(** [serde_json::from_value::<ObservationResult>]. *)
Definition decode_observation (v : Value) : option ObservationResult :=
  context ← (Json.get "context" v ≫= decode_context);
  results ← (Json.get "results" v ≫= decode_map Some);
  failures ← decode_default_map decode_api_error (Json.get "failures" v);
  complete ← (Json.get "complete" v ≫= Json.as_bool);
  availability ← decode_default_map decode_availability (Json.get "availability" v);
  warnings ← decode_list decode_warning (Json.get "warnings" v);
  evidence ← decode_list decode_evidence (Json.get "evidence" v);
  artifacts ← decode_list Json.as_str (Json.get "artifacts" v);
  truncated ← (match Json.get "truncated" v with None => Some false | Some v => Json.as_bool v end);
  Some (MkObservationResult context results failures complete availability warnings evidence
          artifacts truncated).

(** ** Batches *)

Definition batch_facts (r : ObservationResult) : Value :=
  let context := ob_context r in
  Object [("observation_context", context_value context);
          ("observation_id", nullable Str (oc_observation_id context));
          ("stop_id", Str (oc_stop_id context));
          ("revision", uint (oc_captured_revision context));
          ("execution_epoch", uint (oc_execution_epoch context));
          ("availability", map_value availability_value (ob_availability r));
          ("evidence", Array (evidence_value <$> ob_evidence r));
          ("complete", Bool (ob_complete r)); ("partial", Bool (negb (ob_complete r)));
          ("results", map_value id (ob_results r))].

(** [into_batch_result]. *)
Definition into_batch_result (r : ObservationResult) : option SemanticResult :=
  let metadata :=
    MkResultMetadata (MkResultSemantics (Some (ob_context r)) None (ob_complete r) false Detailed)
      (ob_warnings r) (ob_truncated r) None (ob_artifacts r) (ob_evidence r) in
  result ← with_failures "failures" (ob_failures r) (MkSemanticResult (batch_facts r) metadata ∅);
  Some (observation_details result).

(** ** What is written is read back *)

Lemma decode_code_wire c : decode_code (Str (code_wire c)) = Some c.
Proof. by destruct c; vm_compute. Qed.

Lemma decode_availability_wire x : decode_availability (availability_value x) = Some x.
Proof. by destruct x; vm_compute. Qed.

(** Optional details other than [null], which reads back as none. *)
Definition plain_details (e : ApiError) : Prop := api_details e <> Some Null.

(** Fields of an object written part by part. *)
Lemma assoc_app {A} key (k l : list (string * A)) :
  assoc key (k ++ l) = or_else (assoc key k) (assoc key l).
Proof. induction k as [|[n v] k IH]; [done|]. cbn. by destruct (decide (n = key)). Qed.

Lemma or_else_None_r {A} (o : option A) : or_else o None = o.
Proof. by destruct o. Qed.
Lemma or_else_None_l {A} (o : option A) : or_else None o = o.
Proof. done. Qed.
Lemma or_else_Some {A} (x : A) o : or_else (Some x) o = Some x.
Proof. done. Qed.
Lemma assoc_nil {A} key : assoc key ([] : list (string * A)) = None.
Proof. done. Qed.

Lemma assoc_cons {A} key n (v : A) l : assoc key ((n, v) :: l) = if decide (n = key) then Some v else assoc key l.
Proof. done. Qed.

Lemma assoc_skipped {A} key n (f : A -> Value) o :
  assoc key (skipped n f o) = if decide (n = key) then f <$> o else None.
Proof. destruct o; cbn; by destruct (decide (n = key)). Qed.

Lemma assoc_nonempty_map {A} key n (f : A -> Value) m :
  assoc key (nonempty_map n f m) =
    if decide (n = key) then if decide (m = ∅) then None else Some (map_value f m) else None.
Proof.
  unfold nonempty_map. case_bool_decide; cbn; destruct (decide (n = key)), (decide (m = ∅)); done.
Qed.

Lemma assoc_nonempty_list {A} key n (f : A -> Value) l :
  assoc key (nonempty_list n f l) =
    if decide (n = key) then match l with [] => None | _ => Some (Array (f <$> l)) end else None.
Proof. unfold nonempty_list. destruct l; cbn; by destruct (decide (n = key)). Qed.

Ltac decide_names :=
  match goal with
  | |- context [decide (?a = ?b)] =>
      first [rewrite (decide_True (P := a = b)) by reflexivity
            |rewrite (decide_False (P := a = b)) by discriminate]
  end.

Ltac read_fields :=
  unfold Json.get;
  repeat first [rewrite assoc_app | rewrite assoc_cons | rewrite assoc_skipped
               |rewrite assoc_nonempty_map | rewrite assoc_nonempty_list | rewrite assoc_nil
               |progress decide_names | rewrite or_else_None_r | rewrite or_else_None_l
               |rewrite or_else_Some];
  cbn [mbind option_bind].

Lemma decode_api_error_value e : plain_details e -> decode_api_error (api_error_value e) = Some e.
Proof.
  intros H. destruct e as [code message retryable details]. unfold decode_api_error, api_error_value.
  unfold plain_details in H. cbn [api_code api_message api_retryable api_details] in *.
  read_fields. rewrite decode_code_wire. cbn [mbind option_bind Json.as_str Json.as_bool].
  by destruct details as [[]|].
Qed.

Lemma opt_string_skipped o : opt_string (Str <$> o) = Some o.
Proof. by destruct o. Qed.

(** The counters of a context are [u64]. *)
Definition bounded_context (c : ObservationContext) : Prop :=
  (oc_captured_revision c <= U64_MAX)%N /\ (oc_execution_epoch c <= U64_MAX)%N.

Lemma decode_context_value c : bounded_context c -> decode_context (context_value c) = Some c.
Proof.
  intros [Hr He]. destruct c as [oid stop rev epoch inferior thread frame].
  cbn [oc_captured_revision oc_execution_epoch] in *. unfold context_value, decode_context, decode_context_fields.
  cbn [oc_observation_id oc_stop_id oc_captured_revision oc_execution_epoch oc_inferior_id oc_thread_id oc_frame_id].
  read_fields. destruct oid, inferior, thread, frame; cbn [fmap option_fmap option_map opt_string mbind option_bind Json.as_str];
    rewrite !as_u64_uint by done; done.
Qed.

Lemma decode_all_fmap {A} (f : A -> Value) (g : Value -> option A) l :
  Forall (fun x => g (f x) = Some x) l -> decode_all g (f <$> l) = Some l.
Proof. induction 1 as [|x l Hx _ IH]; [done|]. cbn. rewrite Hx. cbn. by rewrite IH. Qed.

Lemma decode_fields_fmap {A} (f : A -> Value) (g : Value -> option A) l m :
  Forall (fun p => g (f p.2) = Some p.2) l ->
  decode_fields g (prod_map id f <$> l) m = Some (foldl (fun m p => <[p.1 := p.2]> m) m l).
Proof.
  intros H. revert m. induction H as [|[k x] l Hx _ IH]; intros m; [done|].
  cbn in *. rewrite Hx. cbn. apply IH.
Qed.

Lemma foldl_insert_lookup {A} (l : list (string * A)) (m : gmap string A) k :
  NoDup l.*1 ->
  foldl (fun m p => <[p.1 := p.2]> m) m l !! k =
    match (list_to_map l : gmap string A) !! k with Some x => Some x | None => m !! k end.
Proof.
  revert m. induction l as [|[n x] l IH]; intros m Hnd; [cbn; by rewrite lookup_empty|].
  cbn in *. apply NoDup_cons in Hnd as [Hn Hnd]. rewrite IH by done.
  destruct (decide (n = k)) as [->|Hne].
  - rewrite not_elem_of_list_to_map_1 by done. by rewrite !lookup_insert_eq.
  - by rewrite !lookup_insert_ne.
Qed.

Lemma decode_map_value {A} (f : A -> Value) (g : Value -> option A) m :
  map_Forall (fun _ x => g (f x) = Some x) m -> decode_map g (map_value f m) = Some m.
Proof.
  intros H. unfold decode_map, map_value. cbn [Json.as_object mbind option_bind].
  rewrite decode_fields_fmap.
  - f_equal. apply map_eq. intros k. rewrite foldl_insert_lookup by apply btree_keys_NoDup.
    assert (list_to_map (btree_iter m) = m) as ->.
    { rewrite (list_to_map_proper _ (map_to_list m)); [apply list_to_map_to_list| |].
      - apply btree_keys_NoDup.
      - apply btree_iter_perm. }
    rewrite lookup_empty. by destruct (m !! k).
  - apply Forall_forall. intros [k x] Hin. apply elem_of_btree_iter in Hin. by apply (H k).
Qed.

Lemma decode_default_map_value {A} (f : A -> Value) (g : Value -> option A) m :
  map_Forall (fun _ x => g (f x) = Some x) m ->
  decode_default_map g (if decide (m = ∅) then None else Some (map_value f m)) = Some m.
Proof. intros H. destruct (decide (m = ∅)) as [->|_]; [done|]. by apply decode_map_value. Qed.

Lemma decode_list_fmap {A} (f : A -> Value) (g : Value -> option A) l :
  (forall x, g (f x) = Some x) ->
  decode_list g match l with [] => None | _ => Some (Array (f <$> l)) end = Some l.
Proof.
  intros H. destruct l as [|x l]; [done|]. cbn [decode_list mbind option_bind Json.as_array].
  apply decode_all_fmap. by apply Forall_forall.
Qed.

(** What an observation turn captured survives its commit: written as JSON,
    stored by the worker and read back it is the same - contexts, results,
    failures with their codes, availability, warnings, evidence and artifacts -
    for every result whose counters are [u64] and whose errors carry no null
    details. *)
Theorem observations_survive_their_commit r :
  bounded_context (ob_context r) -> map_Forall (fun _ => plain_details) (ob_failures r) ->
  decode_observation (observation_value r) = Some r.
Proof.
  intros Hc Hf. destruct r as [context results failures complete availability warnings evidence artifacts truncated].
  cbn [ob_context ob_failures] in *. unfold decode_observation, observation_value.
  cbn [ob_context ob_results ob_failures ob_complete ob_availability ob_warnings ob_evidence ob_artifacts ob_truncated].
  read_fields. rewrite decode_context_value by done. cbn [mbind option_bind].
  rewrite decode_map_value by done. cbn [mbind option_bind].
  rewrite (decode_default_map_value api_error_value) by (intros k e He; by apply decode_api_error_value, (Hf k)).
  cbn [mbind option_bind Json.as_bool].
  rewrite (decode_default_map_value availability_value) by (intros k x _; apply decode_availability_wire). cbn [mbind option_bind].
  rewrite (decode_list_fmap warning_value) by (by intros []). cbn [mbind option_bind].
  rewrite (decode_list_fmap evidence_value) by (by intros []). cbn [mbind option_bind].
  by rewrite (decode_list_fmap Str).
Qed.

Definition sample_observation : ObservationResult :=
  MkObservationResult (MkObservationContext (Some "obs-1") "stop-1" 7 3 None (Some "thread-1") None)
    {["locals" := Object [("variables", Array [])]]}
    {["memory" := MkApiError Code.PartialRead "requested 8 bytes, read 4" false None]} false
    {["locals" := Captured; "memory" := FactFailed]} [MkWarning "W" "text"] [evidence_journal "s" 4] ["uri"] true.

Lemma observations_survive_their_commit_witness :
  decode_observation (observation_value sample_observation) = Some sample_observation.
Proof.
  apply observations_survive_their_commit; [split; vm_compute; discriminate|].
  intros k e He. cbn in He. apply lookup_singleton_Some in He as [_ <-]. discriminate.
Defined.
