(* ===== verification/Observations.v ===== *)
(** * Observations: the reads of one turn
    ([crates/gdb-ai-core/src/gateway/operations/observation.rs])

    A request may ask for up to sixteen reads at one stop.  They are parsed,
    named apart and charged to the turn's budgets before anything is read. *)
From S2P Require Import Prelude Text MiAst Json Errors Domain Policy Protocol Contracts ContractProps Access Effects Results Encoding MiView Memory.

Import Method.

Inductive ObservationKind := Inspection | Evaluate | MemoryView | DisassemblyView | Diff.

#[export] Instance ObservationKind_eq_dec : EqDecision ObservationKind.
Proof. solve_decision. Defined.

Record ObservationRequest := MkObservationRequest {
  or_name : string;
  or_kind : ObservationKind;
  or_parameters : Value;
  or_cache_key : string;
  or_cacheable : bool
}.

Definition SELECTION : list string := ["inferior_id"; "thread_id"; "frame_id"; "frame_level"].

Definition has_field (fields : list (string * Value)) (key : string) : bool :=
  bool_decide (is_Some (Json.assoc key fields)).

(** An item without a selection of its own inherits the request's. *)
Definition inherit (defaults : Value) (fields : list (string * Value)) : list (string * Value) :=
  if existsb (has_field fields) SELECTION then fields
  else foldl (fun fields key =>
         match Json.get key defaults with Some v => set_field key v fields | None => fields end)
         fields SELECTION.

Definition kind_of (view : string) : ObservationKind :=
  if bool_decide (view = "evaluate") then Evaluate
  else if bool_decide (view = "memory") then MemoryView
  else if bool_decide (view = "disassembly") then DisassemblyView
  else if bool_decide (view = "diff") then Diff
  else Inspection.

Definition method_of (kind : ObservationKind) : CanonicalMethod :=
  match kind with
  | Inspection => InspectionGet
  | Evaluate => ValueEvaluate
  | MemoryView => MemoryRead
  | DisassemblyView => DisassemblyRead
  | Diff => InspectionDiff
  end.

(** The bytes of memory and the expressions the reads so far ask for. *)
Record budgets := MkBudgets { memory_budget : N; expression_budget : N }.

Definition no_budgets : budgets := MkBudgets 0 0.

Definition result_outcome {A} (r : Result Error A) : outcome Error A :=
  match r with Ok a => Done a | Err e => Fail e end.

Definition require (b : bool) (message : string) : outcome Error unit :=
  if b then Done tt else Fail (invalid message).

Definition unwrap_option {A} (o : option A) : outcome Error A :=
  match o with Some a => Done a | None => Panic end.

Fixpoint validate_expressions (l : list string) : outcome Error unit :=
  match l with
  | [] => Done tt
  | e :: r => _ ← validate_expression e; validate_expressions r
  end.

Definition texts (v : Value) : list string :=
  match v with Array items => omap Json.as_str items | _ => [] end.

Definition charge (old amount : N) (overflow : string) : outcome Error N :=
  if (old + amount <=? U64_MAX)%N then Done (old + amount)%N else Fail (invalid overflow).

Definition charge_evaluate (parameters : Value) (b : budgets) : outcome Error budgets :=
  let count := match Json.get "expressions" parameters ≫= Json.as_array with
               | Some items => lenN items
               | None => 1%N
               end in
  _ ← require (negb ((count =? 0) || (16 <? count))%N) "evaluation accepts 1 to 16 expressions";
  total ← charge (expression_budget b) count "expression budget overflow";
  _ ← require (total <=? 16)%N "one observation turn accepts at most 16 expressions";
  _ ← validate_expressions (option_list (Json.get "expression" parameters ≫= Json.as_str));
  _ ← validate_expressions (default [] (texts <$> Json.get "expressions" parameters));
  Done (MkBudgets (memory_budget b) total).

Definition charge_memory (maximum : N) (parameters : Value) (b : budgets) : outcome Error budgets :=
  len ← unwrap_option (Json.get "length" parameters ≫= Json.as_u64);
  _ ← require (negb ((len =? 0) || (maximum <? len))%N)
        ("memory length must be between 1 and " +:+ dec maximum);
  total ← charge (memory_budget b) len "memory budget overflow";
  _ ← require (total <=? maximum)%N
        ("one observation turn accepts at most " +:+ dec maximum +:+ " memory bytes");
  _ ← match Json.get "address" parameters ≫= Json.as_str with
      | Some address => _ ← result_outcome (Address_parse address); Done tt
      | None => Done tt
      end;
  _ ← validate_expressions (option_list (Json.get "address_expression" parameters ≫= Json.as_str));
  Done (MkBudgets total (expression_budget b)).

(** The limit of a range of literal addresses. *)
Definition validate_literal_range (first last : string) : outcome Error unit :=
  match Address_parse first, Address_parse last with
  | Ok first, Ok last =>
      first ← result_outcome (parse_address first);
      last ← result_outcome (parse_address last);
      require (negb ((last <=? first) || (64 * 1024 <? last - first))%N)
        "disassembly range must be positive and at most 64 KiB"
  | _, _ => Done tt
  end.

Definition check_disassembly (parameters : Value) : outcome Error unit :=
  _ ← validate_expressions (option_list (pointer ["around"; "expression"] parameters ≫= Json.as_str));
  match Json.get "range" parameters with
  | Some range =>
      first ← unwrap_option (Json.get "start" range ≫= Json.as_str);
      last ← unwrap_option (Json.get "end" range ≫= Json.as_str);
      _ ← validate_expression first;
      _ ← validate_expression last;
      validate_literal_range first last
  | None => Done tt
  end.

Definition charge_kind (kind : ObservationKind) (maximum : N) (parameters : Value) (b : budgets)
    : outcome Error budgets :=
  match kind with
  | Evaluate => charge_evaluate parameters b
  | MemoryView => charge_memory maximum parameters b
  | DisassemblyView => _ ← check_disassembly parameters; Done b
  | Inspection | Diff => Done b
  end.

Section observations.
(** [serde_json::to_string]. *)
Context (print : Value -> string).

(** [ObservationRequest::parse]. *)
Definition parse_observation (item : Value) (stop : StopId) (b : budgets) (maximum : N)
    (defaults : Value) : outcome Error (ObservationRequest * budgets) :=
  object ← match item with
           | Object fields => Done fields
           | _ => Fail (invalid "observation request must be an object")
           end;
  let object := inherit defaults object in
  view ← match Json.assoc "view" object ≫= Json.as_str with
         | Some view => Done view
         | None => Fail (invalid "view is required")
         end;
  let name := default view (Json.assoc "name" object ≫= Json.as_str) in
  let object := remove_field "name" object in
  _ ← require (negb (bool_decide (name = ""))) "observation name must not be empty";
  let kind := kind_of view in
  let object := if bool_decide (kind = Diff) then object
                else set_field "stop_id" (Str stop) object in
  let object := if bool_decide (kind = Inspection) then object else remove_field "view" object in
  let parameters := Object object in
  _ ← result_outcome (validate_parameters (method_of kind) parameters);
  b ← charge_kind kind maximum parameters b;
  Done (MkObservationRequest name kind parameters
          (Method.as_str (method_of kind) +:+ ":" +:+ print parameters)
          (shareable_view parameters), b).

(** A free name: the base with the first suffix not taken. *)
Fixpoint free_name (fuel : nat) (base : string) (suffix : N) (names : gset string)
    : outcome Error string :=
  match fuel with
  | 0 => OutOfFuel
  | S fuel =>
      let name := base +:+ "_" +:+ dec suffix in
      if bool_decide (name ∈ names) then free_name fuel base (suffix + 1) names else Done name
  end.

Definition rename (name : string) (r : ObservationRequest) : ObservationRequest :=
  MkObservationRequest name (or_kind r) (or_parameters r) (or_cache_key r) (or_cacheable r).

Definition duplicate_name : Error :=
  Error_new Code.Conflict "observation request names must be unique".

Definition place (explicitly_named : bool) (names : gset string) (r : ObservationRequest)
    : outcome Error (ObservationRequest * gset string) :=
  if bool_decide (or_name r ∈ names) then
    if explicitly_named then Fail duplicate_name
    else
      name ← free_name (S (size names)) (or_name r) 2 names;
      Done (rename name r, {[name]} ∪ names)
  else Done (r, {[or_name r]} ∪ names).

Fixpoint parse_items (items : list Value) (stop : StopId) (maximum : N) (defaults : Value)
    (names : gset string) (b : budgets) : outcome Error (list ObservationRequest) :=
  match items with
  | [] => Done []
  | item :: rest =>
      let explicitly_named := bool_decide (is_Some (Json.get "name" item)) in
      '(request, b) ← parse_observation item stop b maximum defaults;
      '(request, names) ← place explicitly_named names request;
      requests ← parse_items rest stop maximum defaults names b;
      Done (request :: requests)
  end.

Definition parse_observation_requests (v : Value) (stop : StopId) (maximum : N) (defaults : Value)
    : outcome Error (list ObservationRequest) :=
  items ← match v with
          | Array items => Done items
          | _ => Fail (invalid "observation requests are required")
          end;
  _ ← require (negb (bool_decide (items = []) || (16 <? lenN items)%N)) "observation accepts 1 to 16 reads";
  parse_items items stop maximum defaults ∅ no_budgets.

Definition validate_observation_requests (v : Value) (maximum : N) : outcome Error unit :=
  _ ← parse_observation_requests v "observation-validation" maximum Null; Done tt.

Definition cache_key (r : ObservationRequest) : option string :=
  if or_cacheable r then Some (or_cache_key r) else None.

(** ** Results *)

Definition own_selection (r : ObservationRequest) : list (string * Value) :=
  omap (fun field => v ← Json.get field (or_parameters r); Some (field, v)) SELECTION.

Definition finalize_result (r : ObservationRequest) (result : Value) : Value :=
  match result with
  | Object fields =>
      let fields :=
        match or_kind r, Json.get "expression" (or_parameters r) with
        | Evaluate, Some expression => set_field "expression" expression fields
        | _, _ => fields
        end in
      match own_selection r with
      | [] => Object fields
      | selection => Object (set_field "selection" (Object selection) fields)
      end
  | _ => result
  end.

Definition is_partial_result (r : ObservationRequest) (result : Value) : bool :=
  bool_decide ((Json.get "partial" result ≫= Json.as_bool) = Some true) &&
  negb (bool_decide ((Json.get "view" (or_parameters r) ≫= Json.as_str) = Some "source")).

Definition subrequest (r : ObservationRequest) (parent : ApiRequest) : ApiRequest :=
  MkApiRequest (req_api_version parent) (req_request_id parent +:+ ":" +:+ or_name r)
    (req_session_id parent) (method_of (or_kind r)) None None (or_parameters r).

End observations.

(** ** The reads of a snapshot *)

Definition view_request (view : string) (fields : list (string * Value)) : list (string * Value) :=
  ("view", Str view) :: fields.

Definition copied (fields : list string) (parameters : Value) (object : list (string * Value))
    : list (string * Value) :=
  foldl (fun object field =>
    match Json.get field parameters with Some v => set_field field v object | None => object end)
    object fields.

Definition brief_disassembly (object : list (string * Value)) : list (string * Value) :=
  let object :=
    if has_field object "around" || has_field object "range" then object
    else set_field "around"
           (Object [("expression", Str "$pc"); ("before_instructions", uint 4);
                    ("after_instructions", uint 7)]) object in
  if has_field object "include_source" then object
  else set_field "include_source" (Bool false) object.

Definition snapshot_views (parameters : Value) (profile : string) (frames : N)
    : list (list (string * Value)) :=
  [view_request "stack" [("limit", uint frames)]] ++
  (if bool_decide (profile = "minimal") then []
   else
     let disassembly := copied ["around"; "range"; "include_bytes"; "include_source"] parameters
                          (view_request "disassembly" []) in
     [view_request "locals" [];
      copied ["roles"] parameters (view_request "registers" [("profile", Str profile)]);
      if bool_decide (profile = "brief") then brief_disassembly disassembly else disassembly]) ++
  [view_request "tracked" []].

Definition named_view (fields : list (string * Value)) : Value :=
  Object (set_field "name"
            (Str ("@snapshot." +:+ default "" (Json.assoc "view" fields ≫= Json.as_str))) fields).

Definition snapshot_requests (parameters : Value) (profile : string) (frames : N) : Value :=
  Array ((if bool_decide (profile = "custom") then []
          else named_view <$> snapshot_views parameters profile frames) ++
         default [] (Json.get "inspect" parameters ≫= Json.as_array)).

(** ** The budgets and names of a turn's reads *)

Import Method.

Section turns.
Context (print : Value -> string).

(** *** Names *)

Lemma suffixed_inj base m n : base +:+ "_" +:+ dec m = base +:+ "_" +:+ dec n -> m = n.
Proof.
  intros H. apply (f_equal bytes_of) in H. rewrite !bytes_of_app in H.
  do 2 apply app_inv_head in H. by apply bytes_of_inj, (inj dec) in H.
Qed.

(** The names that are taken from a suffix on. *)
Fixpoint suffixed (base : string) (suffix : N) (n : nat) : list string :=
  match n with
  | 0 => []
  | S n => (base +:+ "_" +:+ dec suffix) :: suffixed base (suffix + 1) n
  end.

Lemma suffixed_elem base suffix n x :
  x ∈ suffixed base suffix n -> exists k, (suffix <= k)%N /\ x = base +:+ "_" +:+ dec k.
Proof.
  revert suffix. induction n as [|n IH]; intros suffix; cbn [suffixed]; [by intros ?%not_elem_of_nil|].
  intros [->|Hx]%elem_of_cons; [exists suffix; split; [lia|done]|].
  apply IH in Hx as (k & Hk & ->). exists k. split; [lia|done].
Qed.

Lemma suffixed_NoDup base suffix n : NoDup (suffixed base suffix n).
Proof.
  revert suffix. induction n as [|n IH]; intros suffix; cbn [suffixed]; constructor; [|done].
  intros (k & Hk & E)%suffixed_elem. apply suffixed_inj in E. lia.
Qed.

Lemma free_name_spec fuel base suffix (names : gset string) :
  match free_name fuel base suffix names with
  | Done name => name ∉ names
  | OutOfFuel => forall x, x ∈ suffixed base suffix fuel -> x ∈ names
  | _ => False
  end.
Proof.
  revert suffix. induction fuel as [|fuel IH]; intros suffix; cbn [free_name suffixed].
  { by intros x ?%not_elem_of_nil. }
  destruct (bool_decide_reflect (base +:+ "_" +:+ dec suffix ∈ names)) as [Hin|Hout]; [|done].
  specialize (IH (suffix + 1)%N). destruct (free_name fuel base (suffix + 1) names); [done|done|done|].
  intros x [->|Hx]%elem_of_cons; [done|by apply IH].
Qed.

(** One more name than there are is enough to find a free one. *)
Lemma free_name_found base (names : gset string) :
  exists name, free_name (S (size names)) base 2 names = Done name /\ name ∉ names.
Proof.
  pose proof (free_name_spec (S (size names)) base 2 names) as H.
  destruct (free_name (S (size names)) base 2 names) as [name|e| |]; [by exists name|done|done|].
  exfalso. assert (list_to_set (suffixed base 2 (S (size names))) ⊆ names) as Hsub.
  { intros x. rewrite elem_of_list_to_set. apply H. }
  apply subseteq_size in Hsub. rewrite size_list_to_set in Hsub by apply suffixed_NoDup.
  assert (forall n suffix, length (suffixed base suffix n) = n) as Hlen.
  { induction n as [|n IH]; intros suffix; cbn [suffixed length]; [done|by rewrite IH]. }
  rewrite Hlen in Hsub. lia.
Qed.

Lemma place_spec explicit (names : gset string) r :
  match place explicit names r with
  | Done (r', names') =>
      (or_name r' ∉ names) /\ names' = {[or_name r']} ∪ names /\ r' = rename (or_name r') r
  | Fail e => e = duplicate_name
  | _ => False
  end.
Proof.
  unfold place. destruct (bool_decide_reflect (or_name r ∈ names)) as [Hin|Hout].
  - destruct explicit; [done|]. destruct (free_name_found (or_name r) names) as (name & -> & Hn). by split_and!.
  - split_and!; [done|done|]. by destruct r.
Qed.

(** *** What a read was charged *)

Definition memory_bytes (r : ObservationRequest) : N :=
  match or_kind r with
  | MemoryView => default 0%N (Json.get "length" (or_parameters r) ≫= Json.as_u64)
  | _ => 0%N
  end.

Definition expression_count (r : ObservationRequest) : N :=
  match or_kind r with
  | Evaluate => match Json.get "expressions" (or_parameters r) ≫= Json.as_array with
                | Some items => lenN items
                | None => 1%N
                end
  | _ => 0%N
  end.

(** The expressions a read evaluates. *)
Definition expressions_of (r : ObservationRequest) : list string :=
  let p := or_parameters r in
  match or_kind r with
  | Evaluate => option_list (Json.get "expression" p ≫= Json.as_str) ++
                default [] (texts <$> Json.get "expressions" p)
  | MemoryView => option_list (Json.get "address_expression" p ≫= Json.as_str)
  | DisassemblyView =>
      option_list (pointer ["around"; "expression"] p ≫= Json.as_str) ++
      match Json.get "range" p with
      | Some range => option_list (Json.get "start" range ≫= Json.as_str) ++
                      option_list (Json.get "end" range ≫= Json.as_str)
      | None => []
      end
  | Inspection | Diff => []
  end.

Definition screened (r : ObservationRequest) : Prop :=
  Forall (fun e => validate_expression e = Done tt) (expressions_of r).

Lemma require_Done b message u : require b message = Done u -> b = true.
Proof. unfold require. by destruct b. Qed.

Lemma validate_expressions_Done l :
  validate_expressions l = Done tt -> Forall (fun e => validate_expression e = Done tt) l.
Proof.
  induction l as [|e l IH]; [constructor|]. cbn [validate_expressions].
  intros ([] & He & H)%bind_Done. constructor; [done|by apply IH].
Qed.

Lemma charge_Done old amount message total : charge old amount message = Done total -> total = (old + amount)%N.
Proof. unfold charge. destruct (_ <=? _)%N; [|done]. by intros [= ->]. Qed.

Lemma charge_kind_Done kind maximum parameters b b' r :
  charge_kind kind maximum parameters b = Done b' -> or_kind r = kind -> or_parameters r = parameters ->
  memory_budget b' = (memory_budget b + memory_bytes r)%N /\
  expression_budget b' = (expression_budget b + expression_count r)%N /\
  ((memory_budget b <= maximum)%N -> (memory_budget b' <= maximum)%N) /\
  ((expression_budget b <= 16)%N -> (expression_budget b' <= 16)%N) /\ screened r.
Proof.
  intros H <- <-. unfold memory_bytes, expression_count, screened, expressions_of.
  destruct (or_kind r); cbn [charge_kind] in H.
  - simplify_eq. rewrite !N.add_0_r. by split_and!.
  - unfold charge_evaluate in H. apply bind_Done in H as ([] & _ & H).
    apply bind_Done in H as (total & Ht%charge_Done & H). apply bind_Done in H as ([] & Hle%require_Done & H).
    apply bind_Done in H as ([] & H1%validate_expressions_Done & H).
    apply bind_Done in H as ([] & H2%validate_expressions_Done & H). simplify_eq. cbn.
    apply N.leb_le in Hle. split_and!; [lia|done|done|done|by apply Forall_app].
  - unfold charge_memory in H. apply bind_Done in H as (len & Hl & H).
    apply bind_Done in H as ([] & _ & H). apply bind_Done in H as (total & Ht%charge_Done & H).
    apply bind_Done in H as ([] & Hle%require_Done & H). apply bind_Done in H as ([] & _ & H).
    apply bind_Done in H as ([] & H1%validate_expressions_Done & H). simplify_eq. cbn.
    apply N.leb_le in Hle. destruct (Json.get "length" (or_parameters r) ≫= Json.as_u64); [|done].
    cbn in Hl. simplify_eq. cbn. split_and!; [done|lia|done|done|done].
  - apply bind_Done in H as ([] & Hd & H). simplify_eq. rewrite !N.add_0_r. split_and!; [done..|].
    unfold check_disassembly in Hd. apply bind_Done in Hd as ([] & H1%validate_expressions_Done & Hd).
    apply Forall_app. split; [done|]. destruct (Json.get "range" (or_parameters r)) as [range|]; [|constructor].
    apply bind_Done in Hd as (first & Hf & Hd). apply bind_Done in Hd as (last & Hl & Hd).
    apply bind_Done in Hd as ([] & He1 & Hd). apply bind_Done in Hd as ([] & He2 & _).
    destruct (Json.get "start" range ≫= Json.as_str), (Json.get "end" range ≫= Json.as_str); try done.
    cbn in Hf, Hl. simplify_eq. cbn. by repeat constructor.
  - simplify_eq. rewrite !N.add_0_r. by split_and!.
Qed.

(** *** One item *)

Definition well_formed (stop : StopId) (r : ObservationRequest) : Prop :=
  validate_parameters (method_of (or_kind r)) (or_parameters r) = Ok tt /\
  (or_kind r <> Diff -> Json.get "stop_id" (or_parameters r) = Some (Str stop)) /\ screened r.

Lemma parse_observation_Done item stop b maximum defaults r b' :
  parse_observation print item stop b maximum defaults = Done (r, b') ->
  well_formed stop r /\
  memory_budget b' = (memory_budget b + memory_bytes r)%N /\
  expression_budget b' = (expression_budget b + expression_count r)%N /\
  ((memory_budget b <= maximum)%N -> (memory_budget b' <= maximum)%N) /\
  ((expression_budget b <= 16)%N -> (expression_budget b' <= 16)%N).
Proof.
  unfold parse_observation. intros (object & _ & H)%bind_Done. apply bind_Done in H as (view & _ & H).
  apply bind_Done in H as ([] & _ & H). set (kind := kind_of view) in H.
  set (stopped := if bool_decide (kind = Diff) then _ else _) in H.
  set (parameters := Object _) in H.
  apply bind_Done in H as ([] & Hv & H). apply bind_Done in H as (b1 & Hc & H). simplify_eq.
  set (r := MkObservationRequest _ _ _ _ _).
  destruct (charge_kind_Done kind maximum parameters b b' r Hc eq_refl eq_refl) as (H1 & H2 & H3 & H4 & H5).
  split; [|done]. split; [|split; [|done]].
  - cbn [or_kind or_parameters r]. by destruct (validate_parameters (method_of kind) parameters) as [[]|].
  - cbn [or_kind or_parameters r]. intros Hne. subst parameters stopped. rewrite (bool_decide_eq_false_2 (kind = Diff)) by done.
    cbn [Json.get]. destruct (bool_decide (kind = Inspection)).
    + by rewrite assoc_set_field, decide_True.
    + unfold remove_field at 1. unfold set_field. rewrite filter_cons_True by done. cbn [assoc].
      by rewrite decide_True.
Qed.

(** *** The items of a turn *)

Definition total (f : ObservationRequest -> N) (l : list ObservationRequest) : N :=
  foldr (fun r n => (f r + n)%N) 0%N l.

Lemma rename_well_formed stop name r : well_formed stop (rename name r) <-> well_formed stop r.
Proof. done. Qed.

Lemma parse_items_Done items stop maximum defaults (names : gset string) b requests :
  parse_items print items stop maximum defaults names b = Done requests ->
  (memory_budget b <= maximum)%N -> (expression_budget b <= 16)%N ->
  length requests = length items /\ Forall (well_formed stop) requests /\
  NoDup (or_name <$> requests) /\ (forall x, x ∈ or_name <$> requests -> x ∉ names) /\
  (memory_budget b + total memory_bytes requests <= maximum)%N /\
  (expression_budget b + total expression_count requests <= 16)%N.
Proof.
  revert names b requests. induction items as [|item items IH]; intros names b requests; cbn [parse_items].
  { intros [= <-] Hm He. cbn. split_and!; [done|constructor|constructor|by intros x ?%not_elem_of_nil|lia|lia]. }
  intros ([r b1] & Hp & H)%bind_Done Hm He. cbn beta iota in H.
  apply parse_observation_Done in Hp as (Hw & Hmb & Heb & Hm1 & He1).
  apply bind_Done in H as ([r' names'] & Hpl & H). cbn beta iota in H.
  pose proof (place_spec (bool_decide (is_Some (Json.get "name" item))) names r) as Hplace.
  rewrite Hpl in Hplace. destruct Hplace as (Hnew & -> & Hr).
  apply bind_Done in H as (rest & Hrest & H). simplify_eq.
  destruct (IH _ _ _ Hrest (Hm1 Hm) (He1 He)) as (Hlen & Hall & Hnd & Hout & Hmt & Het).
  assert (memory_bytes r' = memory_bytes r /\ expression_count r' = expression_count r) as [E1 E2]
    by (rewrite Hr; by destruct r).
  cbn [length fmap list_fmap total foldr]. fold (total memory_bytes rest) (total expression_count rest).
  split_and!; [by rewrite Hlen| | | |lia|lia].
  - constructor; [by rewrite Hr, rename_well_formed|done].
  - constructor; [|done]. intros Hin. apply Hout in Hin. set_solver.
  - intros x [->|Hx]%elem_of_cons; [done|]. apply Hout in Hx. set_solver.
Qed.

(** C20: the reads of one turn are bounded before any of them starts: an
    accepted turn has one to sixteen reads with names of their own, each valid
    by the contract of its method, bound to the stop of the turn unless it
    compares snapshots, and evaluating only expressions that passed the screen;
    together they read at most the configured number of bytes of memory and
    evaluate at most sixteen expressions. *)
Theorem observation_turns_are_bounded v stop maximum defaults requests :
  parse_observation_requests print v stop maximum defaults = Done requests ->
  1 <= length requests <= 16 /\ NoDup (or_name <$> requests) /\ Forall (well_formed stop) requests /\
  (total memory_bytes requests <= maximum)%N /\ (total expression_count requests <= 16)%N.
Proof.
  unfold parse_observation_requests. intros (items & _ & H)%bind_Done.
  apply bind_Done in H as ([] & Hlen%require_Done & H).
  apply negb_true_iff, orb_false_iff in Hlen as [Hne%bool_decide_eq_false Hmax%N.ltb_ge].
  apply parse_items_Done in H as (Hl & Hall & Hnd & _ & Hm & He); [|cbn; lia|cbn; lia].
  cbn in Hm, He. split_and!; [|rewrite Hl; unfold lenN in Hmax; lia|done|done|lia|lia].
  rewrite Hl. destruct items; [done|cbn; lia].
Qed.
End turns.

Lemma observation_turns_are_bounded_witness :
  exists requests,
    parse_observation_requests (fun _ => "")
      (Array [Object [("view", Str "memory"); ("address", Str "0x1000"); ("length", uint 16)];
              Object [("view", Str "memory"); ("address", Str "0x2000"); ("length", uint 48)];
              Object [("view", Str "evaluate"); ("expressions", Array [Str "x"; Str "y->z"])]])
      "stop-1" 64 Null = Done requests /\
    or_name <$> requests = ["memory"; "memory_2"; "evaluate"] /\
    total memory_bytes requests = 64%N /\
    (1 <= length requests <= 16 /\ NoDup (or_name <$> requests) /\ Forall (well_formed "stop-1") requests /\
     (total memory_bytes requests <= 64)%N /\ (total expression_count requests <= 16)%N).
Proof.
  eexists. split; [vm_compute; reflexivity|]. split; [vm_compute; reflexivity|].
  split; [vm_compute; reflexivity|].
  apply (observation_turns_are_bounded (fun _ => "")
           (Array [Object [("view", Str "memory"); ("address", Str "0x1000"); ("length", uint 16)];
              Object [("view", Str "memory"); ("address", Str "0x2000"); ("length", uint 48)];
              Object [("view", Str "evaluate"); ("expressions", Array [Str "x"; Str "y->z"])]])
           "stop-1" 64%N Null). vm_compute. reflexivity.
Defined.
