(* ===== verification/Environment.v ===== *)
(** * Environment: what the handlers of a gateway are given

    The configuration and functions of libraries: base64, SHA-256, printing of
    JSON and of texts, parsing of socket addresses, the messages of
    decoding errors, and the Python scripts beside the sources. *)
From S2P Require Import Prelude Text Json Errors Protocol Effects Program Config Handle.

Record Environment := MkEnvironment {
  env_config : Config;
  base64_encode : bytes -> string;
  base64_decode : string -> Result string bytes;
  sha256 : bytes -> bytes;
  (** [serde_json::to_string]. *)
  print : Value -> string;
  (** The text of a failed [serde_json::from_value]. *)
  decode_error : Value -> string;
  (** [{:?}] of a text. *)
  debug_text : string -> string;
  (** The text of the socket address that a text is parsed to. *)
  socket_address : string -> option string;
  (** [serde_json::from_str] with the text of its error. *)
  parse_json : string -> Result string Value;
  (** The Python scripts that GDB is given, by file. *)
  script : string -> string
}.

Definition command_timeout (env : Environment) : N := command_timeout_ms (server (env_config env)).
Definition wait_timeout (env : Environment) : N := wait_timeout_ms (server (env_config env)).
Definition limits (env : Environment) : Limits := Config.limits (env_config env).
Definition security (env : Environment) : SecurityConfig := Config.security (env_config env).

(** A pure computation that may fail or panic. *)
Definition run {A} (o : outcome Error A) : handler A := local (fun s => (s, o)).

Definition unwrap_or_panic {A} (o : option A) : outcome Error A :=
  match o with Some a => Done a | None => Panic end.

(** [value[key] = v]: a value that is neither an object nor [null] panics. *)
Definition put (key : string) (v value : Value) : outcome Error Value :=
  unwrap_or_panic (Results.set_index key v value).

(** [value[key]] reads [null] for a missing key. *)
Definition at_key (key : string) (value : Value) : Value := default Null (Json.get key value).

(** A part that was removed from an object, which panics on other values. *)
Definition take_field (key : string) (value : Value) : outcome Error (option Value * Value) :=
  match value with
  | Object fields => Done (Json.assoc key fields, Object (remove_field key fields))
  | _ => Panic
  end.

(** ** Paths and the roots they must stay in
    ([crates/gdb-ai-core/src/gateway/operations/context.rs])

    Unix paths as [std::path] compares them, by components, and the
    canonicalisation of a requested path against the configured roots.  The
    file system answers through the operations of the handle's signature. *)

(** *** Paths *)

Definition SLASH : ascii := "/"%char.

(** What lies between the separators of a path. *)
Fixpoint segments (p : bytes) : list bytes :=
  match p with
  | [] => [[]]
  | c :: r =>
      if (c =? SLASH)%char then [] :: segments r
      else match segments r with s :: t => (c :: s) :: t | [] => [[c]] end
  end.

Definition DOT : bytes := bytes_of ".".

(** Empty and current-directory components are skipped in the body of a path. *)
Definition significant (s : bytes) : Prop := s <> [] /\ s <> DOT.

#[export] Instance significant_dec s : Decision (significant s).
Proof. unfold significant. apply _. Defined.

Definition is_absolute (p : string) : bool :=
  match bytes_of p with c :: _ => (c =? SLASH)%char | [] => false end.

(** The components of a path, without its root; a relative path may start
    with the current directory. *)
Definition components (p : string) : list bytes :=
  let body := filter significant (segments (bytes_of p)) in
  if negb (is_absolute p) && bool_decide (head (segments (bytes_of p)) = Some DOT)
  then DOT :: body else body.

(** [Path] equality. *)
Definition same_path (p q : string) : bool :=
  Bool.eqb (is_absolute p) (is_absolute q) && bool_decide (components p = components q).

Fixpoint strip_components (base p : list bytes) : option (list bytes) :=
  match base, p with
  | [], _ => Some p
  | c :: base, d :: p => if decide (c = d) then strip_components base p else None
  | _ :: _, [] => None
  end.

(** [Path::starts_with]. *)
Definition path_starts_with (p base : string) : bool :=
  Bool.eqb (is_absolute p) (is_absolute base) &&
  bool_decide (is_Some (strip_components (components base) (components p))).

(** [Path::file_name]: the last component, unless it is a root or special. *)
Definition file_name (p : string) : option bytes :=
  match last (components p) with
  | Some c => if decide (c = DOT \/ c = bytes_of "..") then None else Some c
  | None => None
  end.

(** [PathBuf::join]. *)
Definition join (root p : string) : string :=
  if is_absolute p then p
  else match last (bytes_of root) with
       | None => p
       | Some c => if (c =? SLASH)%char then root +:+ p else root +:+ "/" +:+ p
       end.

(** The text that remains of a path after [n] components. *)
Fixpoint drop_components (n : nat) (segments : list bytes) : list bytes :=
  match segments with
  | [] => []
  | s :: rest =>
      if decide (significant s) then
        match n with 0 => s :: rest | S n => drop_components n rest end
      else drop_components n rest
  end.

Definition drop_trailing (segments : list bytes) : list bytes :=
  reverse (drop_components 0 (reverse segments)).

Fixpoint join_segments (segments : list bytes) : bytes :=
  match segments with
  | [] => []
  | [s] => s
  | s :: rest => s ++ [SLASH] ++ join_segments rest
  end.

(** [Path::strip_prefix]. *)
Definition path_strip_prefix (p base : string) : option string :=
  if path_starts_with p base then
    let dot := bool_decide (head (components base) = Some DOT) in
    let n := length (components base) - (if dot then 1 else 0) in
    let rest := segments (bytes_of p) in
    if bool_decide (components base = []) && negb (is_absolute p)
    then Some (string_of (join_segments (drop_trailing rest)))
    else Some (string_of (join_segments (drop_trailing (drop_components n rest))))
  else None.

(** *** The workspace *)

Section workspace.
Context (security : SecurityConfig).
(** [{:?}] of a text. *)
Context (debug_text : string -> string).

Fixpoint first_existing (paths : list string) : handler (option string) :=
  match paths with
  | [] => mret None
  | p :: rest =>
      exists_ ← hdo (Hop.Exists p);
      if exists_ : bool then mret (Some p) else first_existing rest
  end.

(** Whether some root, canonicalised, is a prefix of the path. *)
Fixpoint within_roots (path : string) (roots : list string) : handler bool :=
  match roots with
  | [] => mret false
  | root :: rest =>
      canonical ← hdo (Hop.Canonicalize root);
      match canonical with
      | Ok root => if path_starts_with path root then mret true else within_roots path rest
      | Err _ => within_roots path rest
      end
  end.

Definition workspace_candidate (value : string) : handler string :=
  if is_absolute value then mret value
  else
    found ← first_existing ((fun root => join root value) <$> workspace_roots security);
    mret (default value found).

Definition invalid_path (message : string) : Error := Error_new Code.InvalidArgument message.
Definition path_escapes : Error :=
  Error_new Code.PolicyDenied "path escapes configured workspace roots".

Definition workspace_path (value : string) (directory : bool) : handler string :=
  candidate ← workspace_candidate value;
  canonical ← hdo (Hop.Canonicalize candidate);
  path ← check (match canonical with
                | Ok path => Ok path
                | Err error =>
                    Err (invalid_path ("cannot canonicalize path " +:+ debug_text value +:+ ": " +:+ error))
                end);
  expected ← (if directory then hdo (Hop.IsDirectory path) else hdo (Hop.IsFile path) : handler bool);
  _ ← check (if (expected : bool) then Ok tt
             else Err (invalid_path (if directory then "path is not a directory" else "path is not a file")));
  allowed ← within_roots path (workspace_roots security);
  check (if (allowed : bool) then Ok path else Err path_escapes).

End workspace.
