(* ===== verification/Providers.v ===== *)
(** * Providers: facts from the host's view of a process
    ([crates/gdb-ai-core/src/providers.rs])

    The descriptors of the providers, the signature of a crash, the mappings
    of a local process and the load address of a module.  SHA-256 is a
    parameter; [/proc/<pid>/maps] is read by an operation. *)

From S2P Require Import Prelude Text Json Errors Domain MemoryRange Effects Program Wire Results Encoding Handle Environment.

(** ** Descriptors *)

Definition LINUX_KERNEL_PROVIDER_VERSION : string := "1.2.0".

Inductive ProviderStatus := ProviderAvailable | ProviderConditional | ProviderUnavailable.

Record ProviderDescriptor := MkProviderDescriptor {
  pd_name : string;
  pd_version : string;
  pd_status : ProviderStatus;
  pd_effects : list string;
  pd_limitations : list string
}.

Definition is_local (origin : Origin.TargetOrigin) : bool :=
  match origin with Origin.Local | Origin.Attach => true | _ => false end.

Definition has_stopped (state : SessionState) : bool :=
  existsb (fun i => bool_decide (inf_status i = Inferior.Stopped \/ inf_status i = Inferior.Core))
    (btree_values (inferiors state)).

Definition remote_status (state : SessionState) (capabilities : SessionCapabilities) : ProviderStatus :=
  match target_origin state with
  | Origin.Remote => if bool_decide (sc_target_features capabilities = ∅) then ProviderConditional
                     else ProviderAvailable
  | Origin.Unknown => ProviderConditional
  | Origin.Local | Origin.Attach | Origin.Core => ProviderUnavailable
  end.

Definition remote_limitations (state : SessionState) (capabilities : SessionCapabilities)
    : list string :=
  match target_origin state with
  | Origin.Unknown => ["connect a remote target before probing features"]
  | Origin.Remote => if bool_decide (sc_target_features capabilities = ∅)
                     then ["remote target advertised no target features"] else []
  | _ => []
  end.

Definition descriptors (state : SessionState) (capabilities : SessionCapabilities) (kernel_enabled : bool)
    : list ProviderDescriptor :=
  let local_ := is_local (target_origin state) in
  let stopped := has_stopped state in
  [MkProviderDescriptor "generic-gdb" "1.0.0" ProviderAvailable ["READ"; "CONTROL"; "TARGET_MUTATION"] [];
   MkProviderDescriptor "linux-userland" "1.0.0"
     (if local_ then ProviderAvailable else ProviderConditional) ["READ"]
     (if local_ then [] else ["target does not expose a local /proc PID"]);
   MkProviderDescriptor "remote" "1.0.0" (remote_status state capabilities)
     ["READ"; "CONTROL"; "NETWORK"] (remote_limitations state capabilities);
   MkProviderDescriptor "userland-security" "1.0.0"
     (if stopped then ProviderAvailable else ProviderConditional) ["READ"]
     (if stopped then [] else ["crash triage requires a stopped target or core"]);
   MkProviderDescriptor "linux-kernel" LINUX_KERNEL_PROVIDER_VERSION
     (if kernel_enabled then ProviderConditional else ProviderUnavailable) ["READ"; "CONTROL"]
     [if kernel_enabled then "requires a connected KGDB/QEMU target and trusted symbols"
      else "security.kernel_enabled is false"]].

Definition provider_status_wire (x : ProviderStatus) : string :=
  snake_case match x with
  | ProviderAvailable => "Available" | ProviderConditional => "Conditional"
  | ProviderUnavailable => "Unavailable"
  end.

Definition descriptor_value (d : ProviderDescriptor) : Value :=
  Object [("name", Str (pd_name d)); ("version", Str (pd_version d));
          ("status", Str (provider_status_wire (pd_status d)));
          ("effects", strings_value (pd_effects d)); ("limitations", strings_value (pd_limitations d))].

(** ** Crashes *)

Definition crash_frame (t : ThreadState) : string :=
  match th_frame t with
  | Some frame => "|" +:+ default "?" (fr_function frame) +:+ "|" +:+ default "?" (fr_address frame)
  | None => ""
  end.

Definition crash_evidence (state : SessionState) : string :=
  default "" (stop_reason state) +:+
  String.concat "" (crash_frame <$> (btree_values (inferiors state) ≫= fun i => btree_values (inf_threads i))).

Definition crash_signature (sha256 : bytes -> bytes) (state : SessionState) : string :=
  "sha256:" +:+ hex_encode (sha256 (bytes_of (crash_evidence state))).

(** ** Mappings *)

(** [splitn(n, char::is_whitespace)]. *)
Fixpoint splitn_whitespace (n : nat) (s : chars) : list chars :=
  match n with
  | 0 => []
  | 1 => [s]
  | S n' =>
      (fix go (field : chars) (s : chars) : list chars :=
         match s with
         | [] => [reverse field]
         | c :: r => if is_whitespace c then reverse field :: splitn_whitespace n' r else go (c :: field) r
         end) [] s
  end.

Record ProcMap := MkProcMap {
  pm_start : string;
  pm_end : string;
  pm_permissions : string;
  pm_offset : string;
  pm_device : string;
  pm_inode : N;
  pm_path : string
}.

Definition text_of (s : chars) : string := string_of_chars s.

Definition parse_proc_map (line : chars) : option ProcMap :=
  match filter (fun field => field <> []) (splitn_whitespace 6 line) with
  | range :: permissions :: offset :: device :: inode :: rest =>
      p ← split_once_char 45 range;
      inode ← from_str_radix_chars U64_MAX 10 inode;
      let path := match rest with path :: _ => trim_start is_whitespace path | [] => [] end in
      Some (MkProcMap ("0x" +:+ text_of p.1) ("0x" +:+ text_of p.2) (text_of permissions)
              ("0x" +:+ text_of offset) (text_of device) inode (text_of path))
  | _ => None
  end.

Definition proc_map_value (m : ProcMap) : Value :=
  Object [("start", Str (pm_start m)); ("end", Str (pm_end m)); ("permissions", Str (pm_permissions m));
          ("offset", Str (pm_offset m)); ("device", Str (pm_device m)); ("inode", uint (pm_inode m));
          ("path", Str (pm_path m)); ("source", Str "linux-proc")].

Definition proc_maps (maps : string) : list ProcMap := omap parse_proc_map (lines (chars_of maps)).

(** A page of the mappings and whether more follow. *)
Definition mapping_page (maps : string) (offset limit : N) : list ProcMap * bool :=
  let ranges := take (N.to_nat (limit + 1)) (drop (N.to_nat offset) (proc_maps maps)) in
  (take (N.to_nat limit) ranges, (limit <? lenN ranges)%N).

Definition no_mappings (offset limit : N) (limitation : string) : Value :=
  Object [("mappings", Array []); ("offset", uint offset); ("limit", uint limit);
          ("truncated", Bool false); ("partial", Bool true); ("limitations", strings_value [limitation]);
          ("source", Object [("provider", Str "remote"); ("mechanism", Str "unavailable")])].

Definition selected_pid (state : SessionState) (inferior_id : option InferiorId) : option N :=
  find_map inf_pid
    (List.filter (fun i => match inferior_id with Some id => bool_decide (inf_id i = id) | None => true end)
       (btree_values (inferiors state))).

Definition mapping_facts (maps : string) (offset limit : N) : Value :=
  let '(ranges, truncated) := mapping_page maps offset limit in
  Object [("mappings", Array (proc_map_value <$> ranges)); ("offset", uint offset);
          ("limit", uint limit); ("truncated", Bool truncated);
          ("continuation", if truncated then Object [("offset", uint (offset + lenN ranges))] else Null);
          ("partial", Bool false);
          ("source", Object [("provider", Str "linux-userland"); ("mechanism", Str "proc-maps")])].

Definition mappings (state : SessionState) (inferior_id : option InferiorId) (offset limit : N)
    : handler Value :=
  if negb (is_local (target_origin state)) then
    mret (no_mappings offset limit "target origin does not permit host /proc access")
  else
    match selected_pid state inferior_id with
    | None => mret (no_mappings offset limit "target does not expose a local /proc memory map")
    | Some pid =>
        maps ← hask (hdo (Hop.ReadMaps pid));
        mret (mapping_facts maps offset limit)
    end.

(** ** Modules *)

Fixpoint trim_zero_x (fuel : nat) (b : bytes) : bytes :=
  match fuel, strip_prefix (bytes_of "0x") b with
  | S fuel, Some rest => trim_zero_x fuel rest
  | _, _ => b
  end.

(** [u64::from_str_radix] after [trim_start_matches]. *)
Definition map_number (text : string) : option N :=
  from_str_radix U64_MAX 16 (trim_zero_x (length (bytes_of text)) (bytes_of text)).

Definition names_module (module : string) (canonical : option string) (m : ProcMap) : bool :=
  bool_decide (pm_path m = module) || bool_decide (file_name module = file_name (pm_path m)) ||
  match canonical with Some c => same_path c (pm_path m) | None => false end.

(** Where the module's first byte is mapped, plus the offset. *)
Definition module_address (m : ProcMap) (offset : N) : option N :=
  start ← map_number (pm_start m);
  file_offset ← map_number (pm_offset m);
  if (start <? file_offset)%N then None
  else let address := (start - file_offset + offset)%N in
       if (address <=? U64_MAX)%N then Some address else None.

Definition module_offset_from_maps (maps module : string) (offset : N) : handler (option string) :=
  canonical ← hdo (Hop.Canonicalize module);
  let canonical := match canonical with Ok c => Some c | Err _ => None end in
  match find_map (fun m => if names_module module canonical m then module_address m offset else None)
          (proc_maps maps) with
  | Some address =>
      text ← check (Address_parse (string_of (bytes_of "0x" ++ hex_lower address)));
      mret (Some text)
  | None => mret None
  end.

Definition live_module_offset (state : SessionState) (module : string) (offset : N)
    : handler (option string) :=
  if negb (is_local (target_origin state)) then mret None
  else
    match find_map inf_pid (btree_values (inferiors state)) with
    | None => mret None
    | Some pid =>
        maps ← hdo (Hop.ReadMaps pid);
        match maps with
        | Err _ => mret None
        | Ok maps =>
            let module := if is_absolute module then module
                          else "/proc/" +:+ dec pid +:+ "/cwd/" +:+ module in
            module_offset_from_maps maps module offset
        end
    end.
