(* ===== verification/Values.v ===== *)
(** * Values: evaluations and variable objects
    ([crates/gdb-ai-core/src/gateway/operations/values.rs])

    Evaluation of one to sixteen expressions, with or without side effects,
    and handles to GDB variable objects, which are valid at the stop and for
    the selection they were created at. *)

From S2P Require Import Prelude Text MiAst Json Errors Domain Backend Protocol Effects Program Actor Requests Wire Results Config Gateway Encoding Context MiView Handle Memory.

Fixpoint map_results {A B} (f : A -> Result Error B) (l : list A) : Result Error (list B) :=
  match l with
  | [] => Ok []
  | x :: r => y ← f x; ys ← map_results f r; Ok (y :: ys)
  end.

(** ** Handles *)

(** The selectors a request repeats are those of the handle. *)
Definition same_selection (parameters : Value) (binding : ValueBinding) : bool :=
  forallb (fun p : string * option string =>
    match Json.get p.1 parameters ≫= Json.as_str with
    | Some requested => bool_decide (Some requested = p.2)
    | None => true
    end)
    [("inferior_id", vb_inferior_id binding); ("thread_id", vb_thread_id binding);
     ("frame_id", vb_frame_id binding)].

(** What follows the last underscore of a frame handle. *)
Definition frame_level_of (frame_id : string) : option N :=
  digits ← after_last (bytes_of "_") (bytes_of frame_id);
  parse_u64 digits.

Definition same_level (parameters : Value) (binding : ValueBinding) : bool :=
  match Json.get "frame_level" parameters ≫= Json.as_u64 with
  | Some level => bool_decide ((vb_frame_id binding ≫= frame_level_of) = Some level)
  | None => true
  end.

Definition other_selection : Error :=
  Error_new Code.StaleContext "value handle belongs to another selection".
Definition other_frame : Error :=
  Error_new Code.StaleContext "value handle belongs to another frame".

Definition current_value_binding (parameters : Value) (state : SessionState) : handler ValueBinding :=
  _ ← check (require_stopped_context parameters state);
  value_id ← check (text_parameter parameters "value_id");
  binding ← value_binding value_id;
  _ ← check (require_stop state (vb_stop_id binding));
  _ ← check (if same_selection parameters binding then Ok tt else Err other_selection);
  _ ← check (if same_level parameters binding then Ok tt else Err other_frame);
  mret binding.

Definition value_context (binding : ValueBinding) (state : SessionState) : ObservationContext :=
  MkObservationContext None (vb_stop_id binding) (revision state) (execution_epoch state)
    (vb_inferior_id binding) (vb_thread_id binding) (vb_frame_id binding).

(** ** Parameters of an evaluation *)

Record Evaluation := MkEvaluation {
  ev_expression : option string;
  ev_expressions : option (list string);
  ev_side_effects : option string
}.

Fixpoint strings (items : list Value) : option (list string) :=
  match items with
  | [] => Some []
  | Str s :: r => l ← strings r; Some (s :: l)
  | _ :: _ => None
  end.

Definition opt_strings (v : option Value) : option (option (list string)) :=
  match v with
  | None | Some Null => Some None
  | Some (Array items) => l ← strings items; Some (Some l)
  | Some _ => None
  end.

(** [Deserialize] from the request's parameters, which are an object. *)
Definition decode_evaluation (parameters : Value) : option Evaluation :=
  expression ← opt_string (Json.get "expression" parameters);
  expressions ← opt_strings (Json.get "expressions" parameters);
  side_effects ← opt_string (Json.get "side_effects" parameters);
  Some (MkEvaluation expression expressions side_effects).

Definition set_may_call (on : bool) : Result Error MiCommand :=
  c ← MiCommand_new (bytes_of "-gdb-set");
  c ← bare c (bytes_of "may-call-functions");
  bare c (bytes_of (if on then "on" else "off")).

Section values.
Context (command_timeout : N) (limits : Limits).
Context (base64_encode : bytes -> string).
(** The text of a [serde_json] error. *)
Context (decode_error : Value -> string).

(** ** Evaluation *)

(** Functions may be called only inside the transaction. *)
Definition evaluate_with_effects (c : MiCommand) : handler CommandReply :=
  on ← check (set_may_call true);
  off ← check (set_may_call false);
  transaction command_timeout [on] c [off].

Fixpoint evaluate_all (commands : list MiCommand) : handler (list (Result Error CommandReply)) :=
  match commands with
  | [] => mret []
  | c :: rest =>
      reply ← evaluate_with_effects c;
      replies ← evaluate_all rest;
      mret (Ok reply :: replies)
  end.

Definition capture (expressions : list string) (side_effects : bool) (parameters : Value)
    (state : SessionState) : handler (list (Result Error CommandReply)) :=
  commands ← check (map_results (fun e => evaluate_command e parameters state) expressions);
  if side_effects then evaluate_all commands
  else safe_evaluate_batch command_timeout commands.

Fixpoint validate_all (side_effects : bool) (expressions : list string) : handler unit :=
  match expressions with
  | [] => mret tt
  | e :: rest =>
      _ ← (if side_effects then check (validate_expression_text e)
           else local (fun s => (s, validate_expression e)));
      validate_all side_effects rest
  end.

Definition reply_facts (reply : CommandReply) : list (string * Value) :=
  let results := record_results (cr_record reply) in
  [("value", default Null (result_value base64_encode results "value"));
   ("type", default Null (result_value base64_encode results "type"));
   ("status", status_value results)].

(** What a batch collects: facts, replies, failures and their evidence. *)
Record batch := MkBatch {
  b_results : list Value;
  b_commands : list CommandReply;
  b_failures : gmap string ApiError;
  b_evidence : list Evidence
}.

Definition add_result (session_id : string) (b : batch) (e : nat * (string * Result Error CommandReply))
    : batch :=
  let '(index, (expression, reply)) := e in
  match reply with
  | Ok reply =>
      MkBatch (b_results b ++ [Object (("expression", Str expression) :: reply_facts reply)])
        (b_commands b ++ [reply]) (b_failures b) (b_evidence b)
  | Err error =>
      let error := api_error_of error in
      let name := dec (N.of_nat index) in
      MkBatch
        (b_results b ++ [Object [("expression", Str expression); ("status", Str (status_wire Failed));
                                 ("failure", Str name)]])
        (b_commands b) (<[name := error]> (b_failures b))
        (b_evidence b ++ result_evidence session_id (api_error_value error))
  end.

Definition batch_of (session_id : string) (expressions : list string)
    (replies : list (Result Error CommandReply)) : batch :=
  foldl (add_result session_id) (MkBatch [] [] ∅ []) (imap pair (zip expressions replies)).

Definition single_result (state : SessionState) (context : option ObservationContext) (effect : string)
    (session_id expression : string) (reply : CommandReply) : SemanticResult :=
  with_command session_id "command" reply
    (semantic_new
       (Object ([("stop_id", stop_value state); ("expression", Str expression)] ++ reply_facts reply ++
                [("side_effects", Str effect)])) context).

Definition batch_result (state : SessionState) (context : option ObservationContext) (effect : string)
    (session_id : string) (b : batch) : option SemanticResult :=
  let complete := bool_decide (b_failures b = ∅) in
  let r := with_commands session_id (b_commands b)
             (semantic_new
                (Object [("stop_id", stop_value state); ("results", Array (b_results b));
                         ("side_effects", Str effect); ("complete", Bool complete);
                         ("partial", Bool (negb complete))]) context) in
  let r := r <| metadata := metadata r
               <| semantics := semantics (metadata r) <| sem_complete := complete |> |> |> in
  let r := push_evidence (b_evidence b) r in
  if complete then Some r else with_failures "failures" (b_failures b) r.

Definition value_evaluate (request : ApiRequest) : handler SemanticResult :=
  let parameters := req_parameters request in
  session ← check (required_session request);
  e ← entry session;
  state ← hdo Hop.State;
  _ ← check (require_stopped_context parameters state);
  decoded ← check (ok_or (decode_evaluation parameters) (invalid (decode_error parameters)));
  let expressions := option_list (ev_expression decoded) ++ default [] (ev_expressions decoded) in
  _ ← check (if bool_decide (expressions = []) || (16 <? lenN expressions)%N
             then Err (invalid "evaluation accepts 1 to 16 expressions") else Ok tt);
  let side_effects := bool_decide (default "deny" (ev_side_effects decoded) = "allow") in
  _ ← validate_all side_effects expressions;
  replies ← (if side_effects then capture expressions side_effects parameters state
             else stable_observation command_timeout state
                    (capture expressions side_effects parameters state));
  let effect := if side_effects then "allowed" else "denied" in
  context ← check (observation_context parameters state);
  match ev_expressions decoded with
  | None =>
      reply ← local (unwrap (head replies));
      reply ← check reply;
      expression ← local (unwrap (head expressions));
      mret (single_result state context effect (se_id e) expression reply)
  | Some _ =>
      local (unwrap (batch_result state context effect (se_id e)
                       (batch_of (se_id e) expressions replies)))
  end.

(** ** Variable objects *)

Definition delete_command (backend_name : string) : Result Error MiCommand :=
  c ← MiCommand_new (bytes_of "-var-delete");
  bare c (bytes_of backend_name).

Definition create_command (parameters : Value) (state : SessionState) (backend_name expression : string)
    : Result Error MiCommand :=
  c ← MiCommand_new (bytes_of "-var-create");
  c ← context_options c parameters state;
  c ← bare c (bytes_of backend_name);
  c ← bare c (bytes_of "*");
  Ok (string_argument c (bytes_of expression)).

Definition value_create (request : ApiRequest) : handler SemanticResult :=
  let parameters := req_parameters request in
  session ← check (required_session request);
  e ← entry session;
  state ← hdo Hop.State;
  _ ← check (require_stopped_context parameters state);
  expression ← check (text_parameter parameters "expression");
  _ ← local (fun s => (s, validate_expression expression));
  context ← check (observation_context parameters state);
  stop ← local (unwrap (stop_id state));
  id_ulid ← hdo Hop.NewUlid;
  let value_id := ValueId_for_stop stop id_ulid in
  name_ulid ← hdo Hop.NewUlid;
  let backend_name := "gdbai_" +:+ name_ulid in
  c ← check (create_command parameters state backend_name expression);
  reply ← safe_evaluate command_timeout c;
  let binding := MkValueBinding value_id backend_name stop expression
                   (context ≫= oc_inferior_id) (context ≫= oc_thread_id) (context ≫= oc_frame_id) in
  registered ← attempt (register_value binding);
  match registered with
  | Err error =>
      c ← check (delete_command backend_name);
      _ ← attempt (command command_timeout c);
      check (Err error)
  | Ok _ =>
      _ ← record_event (Event.ControllerChanged "value_created");
      let results := record_results (cr_record reply) in
      let count := result_count results "numchild" in
      mret (with_command (se_id e) "command" reply
              (semantic_new
                 (Object [("value_id", Str value_id); ("stop_id", Str stop); ("expression", Str expression);
                          ("status", status_value results);
                          ("value", default Null (result_value base64_encode results "value"));
                          ("type", default Null (result_value base64_encode results "type"));
                          ("children_count", nullable uint count);
                          ("has_children", nullable Bool (some_children count));
                          ("dynamic", nullable Bool (result_bool results "dynamic"));
                          ("display_hint", nullable Str (result_text (cr_record reply) "displayhint"));
                          ("has_more", nullable Bool (result_bool results "has_more"))]) context))
  end.

Definition children_command (binding : ValueBinding) (offset stop : N) : Result Error MiCommand :=
  c ← MiCommand_new (bytes_of "-var-list-children");
  c ← bare c (bytes_of "--simple-values");
  c ← bare c (bytes_of (vb_backend_name binding));
  c ← bare c (bytes_of (dec offset));
  bare c (bytes_of (dec stop)).

Definition value_children (request : ApiRequest) : handler SemanticResult :=
  let parameters := req_parameters request in
  session ← check (required_session request);
  e ← entry session;
  state ← hdo Hop.State;
  binding ← current_value_binding parameters state;
  let offset := default 0%N (Json.get "offset" parameters ≫= Json.as_u64) in
  limit ← check (bounded_limit parameters 100 (Config.value_children limits));
  let stop := saturate (offset + limit) in
  c ← check (children_command binding offset stop);
  reply ← command command_timeout c;
  let has_more := bool_decide (result_text (cr_record reply) "has_more" = Some "1") in
  let continuation := if has_more then Some (Str (vb_value_id binding +:+ ":" +:+ dec stop)) else None in
  let facts := Object [("value_id", Str (vb_value_id binding)); ("stop_id", Str (vb_stop_id binding));
                       ("offset", uint offset); ("limit", uint limit);
                       ("children", Array (child_value <$> MiView.value_children base64_encode (cr_record reply)));
                       ("children_count", nullable uint (result_count (record_results (cr_record reply)) "numchild"));
                       ("has_more", Bool has_more); ("continuation", default Null continuation)] in
  let r := with_command (se_id e) "result" reply
             (semantic_new facts (Some (value_context binding state))) in
  mret (r <| metadata := metadata r <| Results.continuation := continuation |> |>).

Definition update_command (binding : ValueBinding) : Result Error MiCommand :=
  c ← MiCommand_new (bytes_of "-var-update");
  c ← bare c (bytes_of "--simple-values");
  bare c (bytes_of (vb_backend_name binding)).

Definition value_update (request : ApiRequest) : handler SemanticResult :=
  let parameters := req_parameters request in
  session ← check (required_session request);
  e ← entry session;
  state ← hdo Hop.State;
  binding ← current_value_binding parameters state;
  c ← check (update_command binding);
  reply ← command command_timeout c;
  let changes := value_changes base64_encode (cr_record reply) binding in
  mret (with_command (se_id e) "result" reply
          (semantic_new
             (Object [("value_id", Str (vb_value_id binding)); ("stop_id", Str (vb_stop_id binding));
                      ("changes", Array (change_value <$> changes))])
             (Some (value_context binding state)))).

Definition value_release (request : ApiRequest) : handler Value :=
  let parameters := req_parameters request in
  session ← check (required_session request);
  e ← entry session;
  state ← hdo Hop.State;
  binding ← current_value_binding parameters state;
  c ← check (delete_command (vb_backend_name binding));
  reply ← command command_timeout c;
  _ ← remove_value (vb_value_id binding);
  _ ← record_event (Event.ControllerChanged "value_released");
  mret (Object [("released", Str (vb_value_id binding)); ("command", reply_value reply)]).

End values.
