(* ===== verification/Reconcile.v ===== *)
(** * Reconcile: the registries against what GDB lists
    ([crates/gdb-ai-core/src/gateway/operations/reconciliation.rs], and
    [reconcile_session] of [raw.rs])

    GDB's listings of thread groups, threads, breakpoints and libraries turned
    into the domain events that bring the registries in line with them. *)
From S2P Require Import Prelude Text MiAst Json Errors Domain Reducer Backend Normalize Protocol Effects Program Actor Requests Wire Results Config Gateway Encoding Context MiView Handle HandleProps Memory MemoryProps.

(** A [BTreeMap] collected from pairs: a later pair replaces an earlier one. *)
Definition collect_map {A} (l : list (string * A)) : gmap string A :=
  foldl (fun m p => <[p.1 := p.2]> m) ∅ l.

(** A loop of requests that stops at the first error. *)
Fixpoint each {A} (f : A -> handler unit) (l : list A) : handler unit :=
  match l with
  | [] => mret tt
  | x :: r => _ ← f x; each f r
  end.

(** ** Thread groups *)

Definition observed_inferiors (groups : MiValue) : gmap string (option N) :=
  collect_map (omap (fun fields =>
    id ← find_str fields "id";
    Some (id, find_str fields "pid" ≫= parse_number)) (aggregate_items groups "group")).

Definition reconcile_inferiors (record : MiRecord) : handler unit :=
  match find (record_results record) "groups" with
  | None => mret tt
  | Some groups =>
      let observed := observed_inferiors groups in
      state ← hdo Hop.State;
      _ ← each (fun p => record_event (Event.InferiorAdded p.1 p.2)) (btree_iter observed);
      each (fun id => record_event (Event.InferiorRemoved id))
        (filter (fun id => observed !! id = None) (btree_keys (inferiors state)))
  end.

(** ** Threads *)

Definition fallback_group (state : SessionState) : string :=
  default "i1" (head (btree_keys (inferiors state))).

(** The owner of each known thread; the last inferior that has it counts. *)
Definition known_threads (state : SessionState) : gmap string string :=
  collect_map (btree_values (inferiors state) ≫= fun inferior =>
    (fun thread => (thread, inf_backend_id inferior)) <$> btree_keys (inf_threads inferior)).

Definition observed_threads (threads : MiValue) (existing : gmap string string) (fallback : string)
    : gmap string string :=
  collect_map (omap (fun fields =>
    thread ← find_str fields "id";
    Some (thread, default fallback (or_else (find_str fields "group-id") (existing !! thread))))
    (aggregate_items threads "thread")).

Definition reconcile_threads (record : MiRecord) : handler unit :=
  match find (record_results record) "threads" with
  | None => mret tt
  | Some threads =>
      state ← hdo Hop.State;
      let existing := known_threads state in
      let observed := observed_threads threads existing (fallback_group state) in
      _ ← each (fun p => record_event (Event.ThreadCreated p.2 p.1)) (btree_iter observed);
      each (fun p => record_event (Event.ThreadExited (Some p.2) p.1))
        (filter (fun p => observed !! p.1 = None) (btree_iter existing))
  end.

(** ** Breakpoints *)

Definition is_y (o : option string) : bool := bool_decide (o = Some "y").

Definition listed_enabled (fields : list MiResult) : bool :=
  match find_str fields "enabled" with Some v => bool_decide (v = "y") | None => true end.
Definition listed_pending (fields : list MiResult) : bool :=
  is_y (find_str fields "pending") || bool_decide (find_str fields "addr" = Some "<PENDING>").

(** The handle locations of a breakpoint not in the registry would be named after. *)
Definition public_breakpoint (state : SessionState) (number : string) : string :=
  match breakpoints state !! number with
  | Some b => bp_id b
  | None => (if uses_compact_handles (session_id state) then "b" else "bp_") +:+
            Reducer.replace_dots number
  end.

Definition listed_location (existing : list BreakpointLocationState) (public number : string) (seq : N)
    (index : nat) (location : list MiResult) : BreakpointLocationState :=
  let own := default number (find_str location "number") in
  MkBreakpointLocationState
    (match List.find (fun e => bool_decide (loc_backend_number e = own)) existing with
     | Some e => loc_id e
     | None => "bpl_" +:+ public +:+ "_" +:+ dec seq +:+ "_" +:+ dec (N.of_nat (index + 1))
     end)
    own
    (address ← find_str location "addr";
     if bool_decide (address = "<PENDING>") then None else Some address)
    (find_str location "func").

Definition listed_locations (fields : list MiResult) (pending : bool) : list (list MiResult) :=
  let locations := match find fields "locations" with
                   | Some v => aggregate_items v "location"
                   | None => []
                   end in
  match locations with
  | [] => if pending then [] else [fields]
  | _ => locations
  end.

(** Only an observed change is recorded. *)
Definition breakpoint_changed (previous : option BreakpointState) (enabled pending : bool) : bool :=
  match previous with
  | Some b => negb (Bool.eqb (bp_enabled b) enabled) || negb (Bool.eqb (bp_pending b) pending)
  | None => true
  end.

Definition breakpoint_event (previous : option BreakpointState) (number : string)
    (enabled pending : bool) : Event.DomainEvent :=
  match previous with
  | Some _ => Event.BreakpointModified number enabled pending
  | None => Event.BreakpointCreated number enabled pending
  end.

Definition known_locations (state : SessionState) (number : string) : list BreakpointLocationState :=
  match breakpoints state !! number with Some b => bp_locations b | None => [] end.

Definition synchronize_breakpoint (fields : list MiResult) : handler unit :=
  match find_str fields "number" with
  | None => mret tt
  | Some number =>
      let enabled := listed_enabled fields in
      let pending := listed_pending fields in
      state ← hdo Hop.State;
      let previous := breakpoints state !! number in
      _ ← perform_when (breakpoint_changed previous enabled pending)
            (record_event (breakpoint_event previous number enabled pending));
      state ← hdo Hop.State;
      let existing := known_locations state number in
      let locations :=
        imap (listed_location existing (public_breakpoint state number) number (event_seq state))
          (listed_locations fields pending) in
      if bool_decide (existing = locations) then mret tt
      else record_event (Event.BreakpointLocations number locations)
  end.

Definition observed_breakpoints (body : MiValue) : gset string :=
  list_to_set (omap (fun fields => find_str fields "number") (aggregate_items body "bkpt")).

Definition breakpoint_body (record : MiRecord) : option MiValue :=
  table ← (find (record_results record) "BreakpointTable" ≫= value_results);
  find table "body".

Definition reconcile_breakpoints (record : MiRecord) : handler unit :=
  match breakpoint_body record with
  | None => mret tt
  | Some body =>
      state ← hdo Hop.State;
      _ ← each synchronize_breakpoint (aggregate_items body "bkpt");
      each (fun number => record_event (Event.BreakpointDeleted number))
        (filter (fun number => number ∉ observed_breakpoints body) (btree_keys (breakpoints state)))
  end.

(** ** Libraries *)

Definition observed_libraries (libraries : MiValue) : list (string * list MiResult) :=
  omap (fun fields =>
    id ← or_else (find_str fields "id") (find_str fields "target-name");
    Some (id, fields)) (aggregate_items libraries "library").

Definition reconcile_libraries (record : MiRecord) : handler unit :=
  match find (record_results record) "shared-libraries" with
  | None => mret tt
  | Some libraries =>
      let observed := observed_libraries libraries in
      state ← hdo Hop.State;
      _ ← each (fun p => record_event
              (Event.LibraryLoaded p.1 (find_str p.2 "target-name") (find_str p.2 "host-name")
                 ((fun v => bool_decide (v = "1")) <$> find_str p.2 "symbols-loaded"))) observed;
      each (fun id => record_event (Event.LibraryUnloaded id))
        (filter (fun id => id ∉ observed.*1) (btree_keys (modules state)))
  end.

(** ** A whole session *)

Section session.
Context (command_timeout : N).
(** [Display] of an error. *)
Context (display : Error -> string).

(** A listing that fails leaves a warning. *)
Definition reconciliation_command (c : Result Error MiCommand) (name : string)
    (warnings : list string) : handler (option CommandReply * list string) :=
  c ← check c;
  reply ← attempt (command command_timeout c);
  match reply with
  | Ok reply => mret (Some reply, warnings)
  | Err error => mret (None, warnings ++ [name +:+ ": " +:+ display error])
  end.

Definition list_groups : Result Error MiCommand :=
  c ← MiCommand_new (bytes_of "-list-thread-groups");
  c ← bare c (bytes_of "--recurse");
  bare c (bytes_of "1").

Definition reconcile_with (reconcile : MiRecord -> handler unit) (reply : option CommandReply)
    : handler unit :=
  match reply with Some reply => reconcile (cr_record reply) | None => mret tt end.

Definition registries_lost : string := "reconciliation could not recover required registries".

Definition reconcile_session (restore_clean : bool) : handler Value :=
  can_restore ← (if restore_clean then
                   state ← hdo Hop.State;
                   mret (negb (bool_decide (consistency state = Consistent.Tainted)))
                 else mret false);
  _ ← perform_when can_restore (record_event Event.ConsistencyReconciling);
  '(groups, warnings) ← reconciliation_command list_groups "thread groups" [];
  '(threads, warnings) ← reconciliation_command (MiCommand_new (bytes_of "-thread-info")) "threads" warnings;
  '(breakpoints, warnings) ←
    reconciliation_command (MiCommand_new (bytes_of "-break-list")) "breakpoints" warnings;
  '(libraries, warnings) ←
    reconciliation_command (MiCommand_new (bytes_of "-file-list-shared-libraries")) "shared libraries" warnings;
  _ ← reconcile_with reconcile_inferiors groups;
  _ ← reconcile_with reconcile_threads threads;
  _ ← reconcile_with reconcile_breakpoints breakpoints;
  _ ← reconcile_with reconcile_libraries libraries;
  refreshed ← attempt (refresh_target_capabilities command_timeout);
  let '(capabilities, warnings) :=
    match refreshed with
    | Ok c => (Some c, warnings)
    | Err error => (None, warnings ++ ["target features: " +:+ display error])
    end in
  if can_restore && (bool_decide (groups = None) || bool_decide (threads = None) ||
                     bool_decide (breakpoints = None)) then
    _ ← record_event (Event.ConsistencyLost registries_lost);
    check (Err (Error_new Code.ConsistencyLost registries_lost))
  else
    _ ← record_event (Event.ConsistencyRestored warnings);
    mret (Object [("status", Str (if can_restore then "clean" else "tainted"));
                  ("warnings", strings_value warnings);
                  ("capabilities", nullable capabilities_value capabilities);
                  ("managed_surface", strings_value ["inferiors"; "threads"; "breakpoints"; "libraries";
                                                     "target_features"])]).

End session.

(** ** What a reconciliation achieves

    Against the actor as the only writer, the events of a breakpoint listing
    leave the registry as GDB listed it, and a second listing changes nothing. *)

(** *** The order of commands *)

Lemma Keeps_each {R} {A} (f : A -> handler unit) l : (forall x, Keeps R (f x)) -> Keeps R (each f l).
Proof.
  intros Hf. induction l as [|x l IH]; cbn [each]; [apply Keeps_ret|].
  apply Keeps_bind; [done|]. by intros _.
Qed.

Ltac keeps_compound ::=
  first [apply Sequenced_in_sequence | apply Sequenced_stable_observation | apply Keeps_each; intros ?].

Lemma Keeps_synchronize {R} fields : Keeps R (synchronize_breakpoint fields).
Proof. unfold synchronize_breakpoint. keeps_tac. Qed.
#[export] Hint Resolve Keeps_synchronize : keeps.

Lemma Keeps_reconcile_inferiors {R} record : Keeps R (reconcile_inferiors record).
Proof. unfold reconcile_inferiors. keeps_tac. Qed.
Lemma Keeps_reconcile_threads {R} record : Keeps R (reconcile_threads record).
Proof. unfold reconcile_threads. keeps_tac. Qed.
Lemma Keeps_reconcile_breakpoints {R} record : Keeps R (reconcile_breakpoints record).
Proof. unfold reconcile_breakpoints. keeps_tac. Qed.
Lemma Keeps_reconcile_libraries {R} record : Keeps R (reconcile_libraries record).
Proof. unfold reconcile_libraries. keeps_tac. Qed.
#[export] Hint Resolve Keeps_reconcile_inferiors Keeps_reconcile_threads Keeps_reconcile_breakpoints
  Keeps_reconcile_libraries : keeps.

Lemma Sequenced_reconciliation_command t display c name warnings :
  Sequenced (reconciliation_command t display c name warnings).
Proof. unfold reconciliation_command. keeps_tac. Qed.
#[export] Hint Resolve Sequenced_reconciliation_command : keeps.

Lemma Sequenced_reconcile_session t display clean : Sequenced (reconcile_session t display clean).
Proof. unfold reconcile_session, reconcile_with. keeps_tac. Qed.
#[export] Hint Resolve Sequenced_reconcile_session : keeps.

(** *** An actor that records the events of one task *)

Definition recorded (e : Event.DomainEvent) (s : SessionState) : SessionState :=
  match apply_event (event_seq s + 1) e s with
  | Ok (s', _) => s'
  | Err _ => s
  end.

Definition recorder (o : op HandleSig) (s : SessionState) : answer HandleSig o * SessionState :=
  match o with
  | Hop.State => (s, s)
  | Hop.Receive r =>
      match r as r return option (response_of r) * SessionState with
      | RecordEvent e => (Some (Ok tt), recorded e s)
      | r' => (None, s)
      end
  | Hop.Send _ _ | Hop.SendControl _ _ => (Sent, s)
  | o' => (sample_answers o', s)
  end.

(** What a task does against it. *)
Definition does {A} (m : handler A) (sc : option Observation) (s : SessionState) (a : A) (s' : SessionState) : Prop :=
  interp (E := HandleSig) recorder (m sc) s = ((sc, Done a), s').

Lemma interp_bind {A B W} (h : forall o : op HandleSig, W -> answer HandleSig o * W) (m : prog HandleSig A)
    (f : A -> prog HandleSig B) w :
  interp h (bind_prog m f) w = let '(a, w') := interp h m w in interp h (f a) w'.
Proof. revert w. induction m as [a|o k IH]; intros w; cbn; [done|]. by destruct (h o w). Qed.

Lemma does_bind {A B} (m : handler A) (f : A -> handler B) sc s a s1 b s2 :
  does m sc s a s1 -> does (f a) sc s1 b s2 -> does (m ≫= f) sc s b s2.
Proof.
  unfold does, mbind, act_bind. intros Hm Hf. by rewrite interp_bind, Hm.
Qed.

Lemma does_ret {A} (a : A) sc s : does (mret a) sc s a s.
Proof. done. Qed.

Lemma does_state sc s : does (hdo Hop.State) sc s s s.
Proof. done. Qed.

Lemma does_record e sc s : does (record_event e) sc s tt (recorded e s).
Proof. done. Qed.

Lemma does_when (b : bool) (m : handler unit) sc s s' :
  (b = true -> does m sc s tt s') -> (b = false -> s' = s) -> does (perform_when b m) sc s tt s'.
Proof. destruct b; [auto|]. intros _ H. rewrite H by done. apply does_ret. Qed.

(** *** Breakpoint events *)

Lemma bump_revision_breakpoints r : breakpoints (bump_revision r).1 = breakpoints r.1.
Proof. by destruct r as [s []]. Qed.

Lemma bump_revision_session r : session_id (bump_revision r).1 = session_id r.1.
Proof. by destruct r as [s []]. Qed.

Lemma recorded_reduce e s :
  exists s1, session_id s1 = session_id s /\ breakpoints s1 = breakpoints s /\
    breakpoints (recorded e s) = breakpoints (reduce e s1).1.
Proof.
  exists (set_event_seq (event_seq s + 1) s). split; [done|]. split; [done|].
  unfold recorded, apply_event. destruct (N.leb_spec (event_seq s + 1) (event_seq s)); [lia|].
  set (r := reduce _ _). pose proof (bump_revision_breakpoints r) as H'. by destruct (bump_revision r).
Qed.

Definition updated (s : SessionState) (number : string) (enabled pending : bool)
    (s' : SessionState) : Prop :=
  exists id, breakpoints s' = <[number :=
    MkBreakpointState id number enabled pending
      (match breakpoints s !! number with Some b => bp_locations b | None => [] end)]> (breakpoints s).

Lemma recorded_breakpoint s number enabled pending (created : bool) :
  updated s number enabled pending
    (recorded (if created then Event.BreakpointModified number enabled pending
               else Event.BreakpointCreated number enabled pending) s).
Proof.
  unfold updated. set (e := if created then _ else _).
  destruct (recorded_reduce e s) as (s1 & _ & Hb & ->).
  assert (reduce e s1 = reduce_breakpoint number enabled pending s1) as -> by by destruct created.
  unfold reduce_breakpoint. cbn. rewrite Hb. by eexists.
Qed.

Lemma recorded_locations s number locations b :
  breakpoints s !! number = Some b ->
  breakpoints (recorded (Event.BreakpointLocations number locations) s) =
    <[number := MkBreakpointState (bp_id b) (bp_backend_number b) (bp_enabled b) (bp_pending b) locations]>
      (breakpoints s).
Proof.
  intros H. destruct (recorded_reduce (Event.BreakpointLocations number locations) s) as (s1 & _ & Hb & ->).
  cbn. unfold reduce_breakpoint_locations. by rewrite Hb, H.
Qed.

Lemma recorded_deleted s number :
  breakpoints (recorded (Event.BreakpointDeleted number) s) = delete number (breakpoints s).
Proof.
  destruct (recorded_reduce (Event.BreakpointDeleted number) s) as (s1 & _ & Hb & ->).
  cbn. by rewrite Hb.
Qed.

(** *** One breakpoint *)

(** The locations GDB lists for a breakpoint, without their handles. *)
Definition location_facts (l : BreakpointLocationState) : string * option string * option string :=
  (loc_backend_number l, loc_address l, loc_function l).

Definition listed_facts (number : string) (fields : list MiResult)
    : list (string * option string * option string) :=
  (fun location =>
     (default number (find_str location "number"),
      (address ← find_str location "addr"; if bool_decide (address = "<PENDING>") then None else Some address),
      find_str location "func"))
  <$> listed_locations fields (listed_pending fields).

(** A breakpoint as a row of the listing has it. *)
Definition agrees (number : string) (fields : list MiResult) (b : BreakpointState) : Prop :=
  bp_enabled b = listed_enabled fields /\
  bp_pending b = listed_pending fields /\ location_facts <$> bp_locations b = listed_facts number fields.

Lemma listed_location_facts existing public number seq l :
  location_facts <$> imap (listed_location existing public number seq) l =
  (fun location =>
     (default number (find_str location "number"),
      (address ← find_str location "addr"; if bool_decide (address = "<PENDING>") then None else Some address),
      find_str location "func")) <$> l.
Proof. rewrite fmap_imap. rewrite <-(imap_const _ l). by apply imap_ext. Qed.

(** Rows that name their locations apart. *)
Definition distinct (number : string) (fields : list MiResult) : Prop :=
  NoDup ((listed_facts number fields).*1.*1).

Lemma find_location existing (x : BreakpointLocationState) i :
  NoDup (loc_backend_number <$> existing) -> existing !! i = Some x ->
  List.find (fun e => bool_decide (loc_backend_number e = loc_backend_number x)) existing = Some x.
Proof.
  revert i. induction existing as [|e existing IH]; intros i Hn Hx; [done|]. cbn in Hn |- *.
  apply NoDup_cons in Hn as [Hnot Hn]. destruct i as [|i]; cbn in Hx.
  - simplify_eq. by rewrite bool_decide_true.
  - rewrite bool_decide_false; [by apply (IH i)|]. intros He. apply Hnot. rewrite He.
    apply list_elem_of_fmap. exists x. split; [done|]. by eapply list_elem_of_lookup_2.
Qed.

(** A listing of what is known changes no handle. *)
Lemma listed_locations_stable number fields existing public seq :
  distinct number fields -> location_facts <$> existing = listed_facts number fields ->
  imap (listed_location existing public number seq) (listed_locations fields (listed_pending fields)) = existing.
Proof.
  intros Hd Hf. unfold distinct in Hd. rewrite <-Hf, <-list_fmap_compose in Hd.
  rewrite <-list_fmap_compose in Hd.
  apply list_eq. intros i. rewrite list_lookup_imap. unfold listed_facts in Hf.
  assert ((location_facts <$> existing) !! i = listed_facts number fields !! i) as Hi by by rewrite Hf.
  unfold listed_facts in Hi. rewrite !list_lookup_fmap in Hi.
  destruct (listed_locations fields (listed_pending fields) !! i) as [location|] eqn:El,
    (existing !! i) as [x|] eqn:Ex; cbn in Hi |- *; try done.
  injection Hi as Hn Ha Hfn. f_equal. unfold listed_location. rewrite <-Hn, <-Ha, <-Hfn.
  rewrite (find_location existing x i Hd Ex). by destruct x.
Qed.

Lemma synchronized number fields sc s :
  find_str fields "number" = Some number ->
  exists s', does (synchronize_breakpoint fields) sc s tt s' /\
    (exists b, breakpoints s' = <[number := b]> (breakpoints s) /\ agrees number fields b) /\
    (forall b, breakpoints s !! number = Some b -> agrees number fields b -> distinct number fields -> s' = s).
Proof.
  intros Hn. unfold synchronize_breakpoint. rewrite Hn.
  set (enabled := listed_enabled fields). set (pending := listed_pending fields).
  set (previous := breakpoints s !! number).
  set (s1 := if breakpoint_changed previous enabled pending
             then recorded (breakpoint_event previous number enabled pending) s else s).
  assert (does (perform_when (breakpoint_changed previous enabled pending)
    (record_event (breakpoint_event previous number enabled pending))) sc s tt s1) as H1.
  { subst s1. destruct (breakpoint_changed _ _ _); [apply does_record|apply does_ret]. }
  assert (exists b1, breakpoints s1 = <[number := b1]> (breakpoints s) /\ bp_enabled b1 = enabled /\
    bp_pending b1 = pending /\ bp_locations b1 = known_locations s number) as (b1 & Hb1 & He & Hp & Hl).
  { subst s1. unfold known_locations. fold previous. destruct previous as [b|] eqn:Eb; subst previous; cbn [breakpoint_event].
    - destruct (breakpoint_changed (Some b) enabled pending) eqn:Ec.
      + destruct (recorded_breakpoint s number enabled pending true) as [id Hid]. rewrite Eb in Hid.
        eexists. by rewrite Hid.
      + exists b. cbn in Ec. apply orb_false_iff in Ec as [E1%negb_false_iff E2%negb_false_iff].
        apply Bool.eqb_prop in E1, E2. by rewrite insert_id.
    - cbn [breakpoint_changed].
      destruct (recorded_breakpoint s number enabled pending false) as [id Hid]. rewrite Eb in Hid.
      eexists. by rewrite Hid. }
  assert (breakpoints s1 !! number = Some b1) as Hlook by (by rewrite Hb1, lookup_insert_eq).
  set (locations := imap (listed_location (bp_locations b1) (public_breakpoint s1 number) number (event_seq s1))
    (listed_locations fields pending)).
  set (s2 := if bool_decide (bp_locations b1 = locations) then s1
             else recorded (Event.BreakpointLocations number locations) s1).
  exists s2. split; [|split].
  - eapply does_bind; [apply does_state|]. eapply does_bind; [exact H1|].
    eapply does_bind; [apply does_state|]. cbv beta zeta.
    assert (known_locations s1 number = bp_locations b1) as -> by (unfold known_locations; by rewrite Hlook).
    fold locations. subst s2.
    destruct (bool_decide _); [apply does_ret|apply does_record].
  - assert (location_facts <$> locations = listed_facts number fields) as Hfacts
      by apply listed_location_facts.
    subst s2. destruct (bool_decide_reflect (bp_locations b1 = locations)) as [Heq|_].
    + exists b1. split; [done|]. split_and!; [done|done|by rewrite Heq].
    + rewrite (recorded_locations _ _ _ _ Hlook), Hb1, insert_insert_eq. eexists. split; [done|]. by split_and!.
  - intros b Hb (Hbe & Hbp & Hbl) Hd. assert (s1 = s) as Es1.
    { subst s1 previous. rewrite Hb. cbn [breakpoint_changed]. subst enabled pending.
      by rewrite Hbe, Hbp, !eqb_reflx. }
    subst s2. rewrite bool_decide_true; [done|]. subst locations. rewrite Hl. unfold known_locations.
    fold previous. rewrite Hb. symmetry. by apply listed_locations_stable.
Qed.

(** *** A listing *)

Definition number_of (fields : list MiResult) : option string := find_str fields "number".

(** The rows of a breakpoint table carry numbers of their own. *)
Definition numbered (items : list (list MiResult)) : Prop := NoDup (omap number_of items).

Definition rows_agree (items : list (list MiResult)) (s : SessionState) : Prop :=
  forall fields number, fields ∈ items -> number_of fields = Some number ->
    exists b, breakpoints s !! number = Some b /\ agrees number fields b.

Lemma numbers_elem (items : list (list MiResult)) fields number :
  fields ∈ items -> number_of fields = Some number -> number ∈ omap number_of items.
Proof. intros Hin Hn. apply list_elem_of_omap. by exists fields. Qed.

Lemma synchronized_rows (items : list (list MiResult)) sc s :
  numbered items ->
  exists s', does (each synchronize_breakpoint items) sc s tt s' /\ rows_agree items s' /\
    (forall number, number ∉ omap number_of items -> breakpoints s' !! number = breakpoints s !! number) /\
    (rows_agree items s ->
     (forall fields number, fields ∈ items -> number_of fields = Some number -> distinct number fields) -> s' = s).
Proof.
  revert s. induction items as [|fields items IH]; intros s Hn.
  { exists s. split; [apply does_ret|]. split; [by intros ? ? ?%not_elem_of_nil|]. done. }
  unfold numbered in Hn. cbn [omap list_omap] in Hn |- *. unfold number_of in Hn at 1.
  destruct (find_str fields "number") as [number|] eqn:En.
  - apply NoDup_cons in Hn as [Hnot Hn].
    destruct (synchronized number fields sc s En) as (s1 & H1 & (b & Hb & Ha) & Hstable).
    destruct (IH s1 Hn) as (s2 & H2 & Hrows & Hframe & Hsame). exists s2.
    assert (number_of fields = Some number) as En' by done. rewrite En'.
    split; [by eapply does_bind; [exact H1|]|]. split; [|split].
    + intros f n [->|Hin]%elem_of_cons Hf; [|by apply Hrows].
      assert (n = number) as -> by congruence. exists b. split; [|done].
      rewrite Hframe by done. by rewrite Hb, lookup_insert_eq.
    + intros n Hnot'. apply not_elem_of_cons in Hnot' as [Hne Hnot'].
      rewrite Hframe by done. by rewrite Hb, lookup_insert_ne.
    + intros Hagree Hd. destruct (Hagree fields number ltac:(by left) En') as (b0 & Hb0 & Ha0).
      assert (s1 = s) as -> by (by eapply Hstable; [| |apply Hd; [by left|]]).
      apply Hsame; [|by intros f n Hin; apply Hd; right]. intros f n Hin. apply Hagree. by right.
  - assert (number_of fields = None) as En' by done. rewrite En'.
    destruct (IH s Hn) as (s2 & H2 & Hrows & Hframe & Hsame). exists s2. split; [|split; [|split]].
    + eapply does_bind; [|exact H2]. unfold synchronize_breakpoint. rewrite En. apply does_ret.
    + intros f n [->|Hin]%elem_of_cons Hf; [congruence|by apply Hrows].
    + done.
    + intros Hagree Hd. apply Hsame; [|by intros f n Hin; apply Hd; right].
      intros f n Hin. apply Hagree. by right.
Qed.

Lemma deleted_rows (l : list string) sc s :
  exists s', does (each (fun number => record_event (Event.BreakpointDeleted number)) l) sc s tt s' /\
    (forall number, breakpoints s' !! number = if decide (number ∈ l) then None else breakpoints s !! number) /\
    (l = [] -> s' = s).
Proof.
  revert s. induction l as [|n l IH]; intros s.
  { exists s. split; [apply does_ret|]. done. }
  destruct (IH (recorded (Event.BreakpointDeleted n) s)) as (s' & H & Hl & _). exists s'.
  split; [by eapply does_bind; [apply does_record|]|]. split; [|done]. intros number. rewrite Hl.
  rewrite recorded_deleted. destruct (decide (number = n)) as [->|Hne].
  - rewrite lookup_delete_eq. rewrite (decide_True (P := n ∈ n :: l)) by set_solver. by destruct (decide _).
  - rewrite lookup_delete_ne by done.
    destruct (decide (number ∈ l)), (decide (number ∈ n :: l)); set_solver.
Qed.

Lemma observed_numbers body number :
  number ∈ observed_breakpoints body <-> number ∈ omap number_of (aggregate_items body "bkpt").
Proof. unfold observed_breakpoints. by rewrite elem_of_list_to_set. Qed.

(** C21: a breakpoint listing brings the registry in line with GDB: with the
    actor recording the handler's events, the registry afterwards holds exactly
    the breakpoints listed, each with the listed state and locations, whatever
    it held before; listing the same breakpoints again records nothing, so
    neither the revision nor a handle changes. *)
Theorem breakpoint_listings_are_adopted record body sc s :
  breakpoint_body record = Some body -> numbered (aggregate_items body "bkpt") ->
  exists s', does (reconcile_breakpoints record) sc s tt s' /\
    (forall number, is_Some (breakpoints s' !! number) <-> number ∈ observed_breakpoints body) /\
    rows_agree (aggregate_items body "bkpt") s' /\
    ((forall fields number, fields ∈ aggregate_items body "bkpt" -> number_of fields = Some number ->
        distinct number fields) ->
     does (reconcile_breakpoints record) sc s' tt s').
Proof.
  intros Hbody Hn. set (items := aggregate_items body "bkpt") in *.
  assert (forall s, exists s', does (reconcile_breakpoints record) sc s tt s' /\
    (forall number, is_Some (breakpoints s' !! number) <-> number ∈ observed_breakpoints body) /\
    rows_agree items s' /\
    ((forall number, is_Some (breakpoints s !! number) -> number ∈ observed_breakpoints body) ->
     rows_agree items s ->
     (forall fields number, fields ∈ items -> number_of fields = Some number -> distinct number fields) ->
     s' = s)) as Hpass.
  { clear s. intros s. destruct (synchronized_rows items sc s Hn) as (s1 & H1 & Hrows & Hframe & Hsame).
    set (gone := filter (fun number => number ∉ observed_breakpoints body) (btree_keys (breakpoints s))).
    destruct (deleted_rows gone sc s1) as (s2 & H2 & Hlook & Hnone). exists s2.
    assert (forall number, number ∈ gone <->
      number ∉ observed_breakpoints body /\ is_Some (breakpoints s !! number)) as Hgone.
    { intros number. subst gone. by rewrite list_elem_of_filter, elem_of_btree_keys. }
    split; [|split; [|split]].
    - unfold reconcile_breakpoints. rewrite Hbody. eapply does_bind; [apply does_state|].
      eapply does_bind; [exact H1|exact H2].
    - intros number. rewrite Hlook. destruct (decide (number ∈ gone)) as [Hg|Hg].
      + split; [by intros []|]. intros Ho. apply Hgone in Hg as [? _]. done.
      + destruct (decide (number ∈ observed_breakpoints body)) as [Ho|Ho].
        * split; [done|intros _]. pose proof Ho as Ho'.
          rewrite observed_numbers in Ho'. apply list_elem_of_omap in Ho' as (fields & Hin & Hf).
          destruct (Hrows fields number Hin Hf) as (b & -> & _). done.
        * rewrite Hframe by (intros Hin; by apply Ho, observed_numbers). split; [|done].
          intros His. exfalso. apply Hg, Hgone. done.
    - intros fields number Hin Hf. rewrite Hlook, decide_False; [by apply Hrows|].
      intros [Hg _]%Hgone. apply Hg, observed_numbers. by eapply numbers_elem.
    - intros Hsub Hagree Hd. assert (gone = []) as Hg.
      { destruct gone as [|n l]; [done|]. exfalso.
        destruct (proj1 (Hgone n) ltac:(by left)) as [Hno His]. by apply Hno, Hsub. }
      rewrite (Hnone Hg). by apply Hsame. }
  destruct (Hpass s) as (s' & H & Hdom & Hrows & _). exists s'. split_and!; [done|done|done|].
  intros Hd. destruct (Hpass s') as (s'' & H' & _ & _ & Hsame).
  rewrite <-(Hsame (fun number => proj1 (Hdom number)) Hrows Hd) at 2. exact H'.
Qed.

(** A listing of two breakpoints over a registry that has another one. *)
Definition sample_row (number enabled address : string) : MiResultOf MiValue :=
  MkMiResult "bkpt" (Tuple [MkMiResult "number" (Const (bytes_of number));
                            MkMiResult "enabled" (Const (bytes_of enabled));
                            MkMiResult "addr" (Const (bytes_of address))]).

Definition sample_body : MiValue := ResultList [sample_row "1" "y" "0x1000"; sample_row "2" "n" "<PENDING>"].

Definition sample_listing : MiRecord :=
  RResult None "done" [MkMiResult "BreakpointTable" (Tuple [MkMiResult "body" sample_body])].

Definition sample_registry : SessionState :=
  set_breakpoints {["9" := MkBreakpointState "b1_9" "9" true false []]} (creating "sess_0123456789abcdef").

Lemma breakpoint_listings_are_adopted_witness :
  breakpoint_body sample_listing = Some sample_body /\ numbered (aggregate_items sample_body "bkpt") /\
  exists s', does (reconcile_breakpoints sample_listing) None sample_registry tt s' /\
    breakpoints s' !! "9" = None /\ is_Some (breakpoints s' !! "1") /\ is_Some (breakpoints s' !! "2") /\
    does (reconcile_breakpoints sample_listing) None s' tt s'.
Proof.
  assert (numbered (aggregate_items sample_body "bkpt")) as Hn.
  { apply (bool_decide_unpack (NoDup ["1"; "2"])). vm_compute. exact I. }
  split; [reflexivity|]. split; [exact Hn|].
  destruct (breakpoint_listings_are_adopted sample_listing sample_body None sample_registry eq_refl Hn)
    as (s' & H & Hdom & _ & Hsame).
  assert (observed_breakpoints sample_body = {["1"; "2"]}) as Ho by (vm_compute; reflexivity).
  exists s'. split; [exact H|]. rewrite Ho in Hdom. split; [|split; [|split]].
  - destruct (breakpoints s' !! "9") eqn:E; [|done].
    assert ("9" ∈ ({["1"; "2"]} : gset string)) as Hin by (apply Hdom; by rewrite E). set_solver.
  - apply Hdom. set_solver.
  - apply Hdom. set_solver.
  - apply Hsame. intros fields number Hin _. unfold distinct.
    apply (bool_decide_unpack (NoDup _)).
    cbn in Hin. apply elem_of_cons in Hin as [->|Hin]; [vm_compute; exact I|].
    apply elem_of_cons in Hin as [->|Hin]; [vm_compute; exact I|]. by apply not_elem_of_nil in Hin.
Defined.
