(* ===== verification/Inspection.v ===== *)
(** * Inspection: the views of a stopped target
    ([crates/gdb-ai-core/src/gateway/operations/inspection.rs])

    Stacks, variables, threads, symbols, source, registers, disassembly and
    tracked values, each read at one stop. *)

From S2P Require Import Prelude Text MiAst Json Errors Domain Backend Normalize Policy Protocol MemoryRange Effects Program Actor Requests Wire Results Config Gateway Encoding Context MiView Handle Memory Environment Providers Values Reconcile.

Section inspection.
Context (env : Environment).
Local Notation limits := (limits env).
Local Notation base64_encode := (base64_encode env).
Local Notation sha256_hex := (sha256_hex (sha256 env)).
Local Notation command := (command (command_timeout env)).
Local Notation stable_observation := (stable_observation (command_timeout env)).
Local Notation safe_evaluate := (safe_evaluate (command_timeout env)).
Local Notation register_names := (register_names (command_timeout env)).

(** ** Commands *)

(** The arguments of a command, bare or quoted. *)
Inductive Argument := BareArgument (s : string) | QuotedArgument (s : string).

Fixpoint with_arguments (arguments : list Argument) (c : MiCommand) : Result Error MiCommand :=
  match arguments with
  | [] => Ok c
  | BareArgument s :: rest => c ← bare c (bytes_of s); with_arguments rest c
  | QuotedArgument s :: rest => with_arguments rest (string_argument c (bytes_of s))
  end.

Definition contextual_command (name : string) (arguments : list Argument) (parameters : Value)
    (state : SessionState) : Result Error MiCommand :=
  _ ← require_stopped_context parameters state;
  c ← MiCommand_new (bytes_of name);
  c ← context_options c parameters state;
  with_arguments arguments c.

Definition inspection_command (request : ApiRequest) (name : string) (arguments : list Argument)
    : handler CommandReply :=
  state ← hdo Hop.State;
  c ← check (contextual_command name arguments (req_parameters request) state);
  command c.

Definition with_parameters (parameters : Value) (r : ApiRequest) : ApiRequest :=
  MkApiRequest (req_api_version r) (req_request_id r) (req_session_id r) (req_method r)
    (req_expected_revision r) (req_idempotency_key r) parameters.

Definition stop_facts : handler Value := state ← hdo Hop.State; mret (stop_value state).

(** ** Variables of a frame *)

Record FrameVariables := MkFrameVariables {
  fv_variables : list (bool * Value);
  fv_evidence_seq : N;
  fv_error : option ApiError
}.

Definition NO_SYMBOLS : bytes := bytes_of "No symbol table info available." ++ [LF].

Definition lacks_symbols (reply : CommandReply) : bool :=
  existsb (fun r => match r with ConsoleStream b => bool_decide (b = NO_SYMBOLS) | _ => false end)
    (cr_stream_records reply).

Definition no_symbols (reply : CommandReply) : Error :=
  with_details (Object [("evidence_seq", uint (cr_evidence_seq reply))])
    (Error_new Code.CapabilityMissing "GDB has no symbol table information for this frame").

(** An empty listing is complete only if the frame has symbols. *)
Definition check_empty_scope (context : ObservationContext) (request : ApiRequest) : handler N :=
  parameters ← run (put "stop_id" (Str (oc_stop_id context)) (req_parameters request));
  parameters ← (match oc_frame_id context with
                | Some frame => run (put "frame_id" (Str frame) parameters)
                | None => mret parameters
                end);
  diagnostic ← inspection_command (with_parameters parameters request) "-interpreter-exec"
                 [BareArgument "console"; QuotedArgument "info locals"];
  _ ← check (if lacks_symbols diagnostic then Err (no_symbols diagnostic) else Ok tt);
  mret (cr_evidence_seq diagnostic).

Definition has_status (status : ValueStatus) (variables : list (bool * Value)) : bool :=
  existsb (fun p => bool_decide (at_key "status" p.2 = Str (status_wire status))) variables.

Definition unreadable_variables : ApiError :=
  api_error_of (Error_new Code.GdbError "GDB could not read every frame variable").

(** The values a listing of types left out. *)
Definition collect_values (request : ApiRequest) (types : CommandReply) (variables : list (bool * Value))
    (evidence_seq : N) : handler FrameVariables :=
  reply ← attempt (inspection_command request "-stack-list-variables" [BareArgument "--all-values"]);
  let evidence_seq := match reply with Ok r => cr_evidence_seq r | Err _ => evidence_seq end in
  match (r ← reply; normalized_frame_variables base64_encode (cr_record types) (Some (cr_record r))) with
  | Ok merged => mret (MkFrameVariables merged evidence_seq None)
  | Err failure =>
      if is_independent_read_failure (err_code failure)
      then mret (MkFrameVariables variables evidence_seq (Some (api_error_of failure)))
      else check (Err failure)
  end.

Definition inspection_frame_variables (request : ApiRequest) : handler FrameVariables :=
  let parameters := req_parameters request in
  state ← hdo Hop.State;
  context ← check (_ ← require_stopped_context parameters state; observation_context parameters state);
  context ← run (unwrap_or_panic context);
  types ← inspection_command request "-stack-list-variables" [BareArgument "--simple-values"];
  variables ← check (normalized_frame_variables base64_encode (cr_record types) None);
  evidence_seq ← (if bool_decide (variables = []) then check_empty_scope context request
                  else mret (cr_evidence_seq types));
  captured ← (if has_status MiView.NotCollected variables
              then collect_values request types variables evidence_seq
              else mret (MkFrameVariables variables evidence_seq None));
  mret (if bool_decide (fv_error captured = None) && has_status MiView.Failed (fv_variables captured)
        then MkFrameVariables (fv_variables captured) (fv_evidence_seq captured) (Some unreadable_variables)
        else captured).

(** ** Stacks *)

Definition omitted_arguments : Error :=
  Error_new Code.GdbError "GDB omitted arguments for a captured frame".

(** The arguments of each frame by its level; the last listing of a level counts. *)
Definition arguments_by_level (arguments : list Value) : gmap N Value :=
  foldl (fun m frame =>
    match Json.get "level" frame ≫= Json.as_u64, Json.get "arguments" frame with
    | Some level, Some v => <[level := v]> m
    | _, _ => m
    end) ∅ arguments.

Fixpoint place_arguments (frames : list Value) (arguments : gmap N Value)
    : outcome Error (list Value * bool) :=
  match frames with
  | [] => Done ([], false)
  | frame :: rest =>
      level ← unwrap_or_panic (Json.as_u64 (at_key "level" frame));
      let found := arguments !! level in
      frame ← put "arguments" (default Null found) frame;
      '(frames, missing) ← place_arguments rest (delete level arguments);
      Done (frame :: frames, bool_decide (found = None) || missing)
  end.

Definition stack_facts (frames : list Value) (evidence_seq : N)
    (arguments : Result Error (list Value * N)) : outcome Error Value :=
  '(frames, evidence_seq, error) ←
    match arguments with
    | Ok (arguments, sequence) =>
        '(frames, missing) ← place_arguments frames (arguments_by_level arguments);
        Done (frames, sequence, if missing : bool then Some omitted_arguments else None)
    | Err error =>
        if is_independent_read_failure (err_code error) then Done (frames, evidence_seq, Some error)
        else Fail error
    end;
  Done (Object ([("frames", Array frames); ("partial", Bool (bool_decide (is_Some error)));
                 ("evidence_seq", uint evidence_seq)] ++
                skipped "arguments_error" (fun e => api_error_value (api_error_of e)) error)).

Definition values_where (argument : bool) (variables : list (bool * Value)) : list Value :=
  omap (fun p : bool * Value => if Bool.eqb p.1 argument then Some p.2 else None) variables.

(** A frame with its variables, or with the failure to read them. *)
Definition frame_with_variables (frame : Value) (captured : Result Error FrameVariables)
    : outcome Error (Value * bool) :=
  match captured with
  | Ok captured =>
      frame ← put "arguments" (Array (values_where true (fv_variables captured))) frame;
      frame ← put "locals" (Array (values_where false (fv_variables captured))) frame;
      match fv_error captured with
      | Some error =>
          frame ← put "variables_error" (api_error_value error) frame; Done (frame, true)
      | None => Done (frame, false)
      end
  | Err error =>
      if is_independent_read_failure (err_code error) then
        frame ← put "arguments" Null frame;
        frame ← put "locals" Null frame;
        frame ← put "variables_error" (api_error_value (api_error_of error)) frame;
        Done (frame, true)
      else Fail error
  end.

Fixpoint frames_with_variables (request : ApiRequest) (frames : list Value) (evidence_seq : N)
    : handler (list Value * N * bool) :=
  match frames with
  | [] => mret ([], evidence_seq, false)
  | frame :: rest =>
      parameters ← run (put "frame_level" (at_key "level" frame) (req_parameters request));
      parameters ← run (put "frame_id" (at_key "frame_id" frame) parameters);
      captured ← attempt (inspection_frame_variables (with_parameters parameters request));
      '(frame, failed) ← run (frame_with_variables frame captured);
      let evidence_seq := match captured with Ok c => fv_evidence_seq c | Err _ => evidence_seq end in
      '(frames, evidence_seq, partial) ← frames_with_variables request rest evidence_seq;
      mret (frame :: frames, evidence_seq, failed || partial)
  end.

Definition inspection_stack (state : SessionState) (request : ApiRequest) (offset limit : N)
    : handler Value :=
  let parameters := req_parameters request in
  _ ← check (require_stopped_context parameters state);
  let last := saturate (offset + (limit - 1)) in
  let page := [BareArgument (dec offset); BareArgument (dec last)] in
  stable_observation state (
    reply ← inspection_command request "-stack-list-frames" page;
    frames ← check (normalized_frames (cr_record reply) state parameters);
    if bool_value parameters "include_locals" false then
      '(frames, evidence_seq, partial) ← frames_with_variables request frames (cr_evidence_seq reply);
      mret (Object [("stop_id", stop_value state); ("frames", Array frames); ("partial", Bool partial);
                    ("evidence_seq", uint evidence_seq)])
    else
      arguments ← attempt (inspection_command request "-stack-list-arguments"
                             (BareArgument "--simple-values" :: page));
      facts ← run (stack_facts frames (cr_evidence_seq reply)
                     (r ← arguments; Ok (normalized_arguments base64_encode (cr_record r), cr_evidence_seq r)));
      run (put "stop_id" (stop_value state) facts)).

(** ** Threads *)

Definition incomplete_thread (thread : Value) : bool :=
  bool_decide (is_Some (Json.get "error" thread)) ||
  bool_decide (is_Some (Json.get "arguments_error" thread)) ||
  bool_decide (at_key "partial" thread = Bool true).

Definition thread_facts (stop : Value) (threads : list Value) (evidence_seq : N) : Value :=
  Object [("stop_id", stop); ("threads", Array threads);
          ("partial", Bool (existsb incomplete_thread threads)); ("evidence_seq", uint evidence_seq)].

Definition thread_without_handle : Error :=
  Error_new Code.StaleContext "thread has no current handle".

(** A thread with the stack that was read for it. *)
Definition thread_with_stack (depth : N) (include_locals : bool) (thread stack : Value)
    : outcome Error (Value * N) :=
  '(frames, stack) ← take_field "frames" stack;
  frames ← unwrap_or_panic frames;
  items ← unwrap_or_panic (Json.as_array frames);
  thread ← (if (lenN items =? depth)%N then put "next_frame_offset" (uint depth) thread else Done thread);
  thread ← put "frames" frames thread;
  thread ← (if include_locals && bool_decide (at_key "partial" stack = Bool true)
            then put "partial" (Bool true) thread else Done thread);
  '(_, thread) ← take_field "frame" thread;
  '(error, stack) ← take_field "arguments_error" stack;
  thread ← match error with Some error => put "arguments_error" error thread | None => Done thread end;
  evidence_seq ← unwrap_or_panic (Json.as_u64 (at_key "evidence_seq" stack));
  Done (thread, evidence_seq).

Definition thread_error (e : Error) : Value :=
  Object [("code", Str (code_wire (err_code e))); ("message", Str (err_message e))].

Fixpoint threads_with_stacks (state : SessionState) (request : ApiRequest) (depth : N)
    (include_locals : bool) (threads : list Value) (evidence_seq : N) : handler (list Value * N) :=
  match threads with
  | [] => mret ([], evidence_seq)
  | thread :: rest =>
      thread_id ← check (ok_or (Json.as_str (at_key "thread_id" thread)) thread_without_handle);
      let parameters := Object [("stop_id", stop_value state); ("thread_id", Str thread_id);
                                ("include_locals", Bool include_locals)] in
      stack ← attempt (inspection_stack state (with_parameters parameters request) 0 depth);
      '(thread, evidence_seq) ←
        (match stack with
         | Ok stack => run (thread_with_stack depth include_locals thread stack)
         | Err error =>
             if bool_decide (err_code error = Code.GdbError) then
               thread ← run (put "error" (thread_error error) thread); mret (thread, evidence_seq)
             else check (Err error)
         end);
      '(threads, evidence_seq) ←
        threads_with_stacks state request depth include_locals rest evidence_seq;
      mret (thread :: threads, evidence_seq)
  end.

Definition requested_depth (parameters : Value) (include_locals : bool) : option N :=
  or_else (Json.as_u64 (at_key "stack_depth" parameters)) (if include_locals then Some 1%N else None).

Definition inspection_threads (request : ApiRequest) : handler Value :=
  let parameters := req_parameters request in
  state ← hdo Hop.State;
  _ ← check (require_stopped_context parameters state);
  limit ← check (bounded_limit parameters (N.min 64 (Config.value_children limits)) (Config.value_children limits));
  let offset := default 0%N (Json.as_u64 (at_key "offset" parameters)) in
  let include_locals := bool_value parameters "include_locals" false in
  let depth := requested_depth parameters include_locals in
  _ ← check (match depth with
             | Some depth =>
                 if ((depth =? 0) || (Config.stack_frames limits <? depth))%N then
                   Err (invalid ("stack_depth must be between 1 and " +:+ dec (Config.stack_frames limits)))
                 else Ok tt
             | None => Ok tt
             end);
  let limit := match include_locals, depth with
               | true, Some depth => N.min limit (Config.stack_frames limits / depth)
               | _, _ => limit
               end in
  stable_observation state (
    reply ← inspection_command request "-thread-info" [];
    let '(threads, total) := normalized_threads (cr_record reply) state offset (N.to_nat limit) in
    '(threads, evidence_seq) ←
      (match depth with
       | Some depth => threads_with_stacks state request depth include_locals threads (cr_evidence_seq reply)
       | None => mret (threads, cr_evidence_seq reply)
       end);
    let next := saturate (offset + lenN threads) in
    let result := thread_facts (stop_value state) threads evidence_seq in
    if (next <? N.of_nat total)%N then run (put "next_offset" (uint next) result) else mret result).

End inspection.
