(* ===== verification/Reading.v ===== *)
(** * Reading: symbols, source, registers, code and tracked values
    ([crates/gdb-ai-core/src/gateway/operations/inspection.rs])

    The views of a target that need more than one command or a file of the
    workspace. *)

From S2P Require Import Prelude Text MiAst Json Errors Domain Backend Normalize Policy Protocol MemoryRange Effects Program Actor Requests Wire Results Config Gateway Encoding Context MiView Handle Memory Environment Values Inspection.

Section reading.
Context (env : Environment).
Local Notation limits := (limits env).
Local Notation base64_encode := (base64_encode env).
Local Notation sha256_hex := (sha256_hex (sha256 env)).
Local Notation command := (command (command_timeout env)).
Local Notation stable_observation := (stable_observation (command_timeout env)).
Local Notation safe_evaluate := (safe_evaluate (command_timeout env)).
Local Notation register_names := (register_names (command_timeout env)).

(** ** Symbols *)

Definition single_line (text : string) : bool :=
  negb (bool_decide (text = "")) && (lenN (bytes_of text) <=? 512)%N &&
  forallb (fun c => negb ((c =? CR)%char || (c =? LF)%char || (c =? "000")%char)) (bytes_of text).

Definition symbol_command_name (kind : string) : Result Error string :=
  if bool_decide (kind = "functions") then Ok "-symbol-info-functions"
  else if bool_decide (kind = "types") then Ok "-symbol-info-types"
  else if bool_decide (kind = "variables") then Ok "-symbol-info-variables"
  else Err (invalid "symbol kind must be functions, types, or variables").

Definition symbol_command (name kind query : string) (limit : N) : Result Error MiCommand :=
  c ← MiCommand_new (bytes_of name);
  c ← (if bool_decide (kind = "types") then Ok c else bare c (bytes_of "--include-nondebug"));
  with_arguments [BareArgument "--name"; QuotedArgument query; BareArgument "--max-results";
                  BareArgument (dec (saturate (limit + 1)))] c.

Definition MAX_LAYOUT_BYTES : N := 32 * 1024.

(** The characters that fit in a number of bytes. *)
Fixpoint fitting (budget : N) (s : list N) : list N :=
  match s with
  | [] => []
  | c :: r => let n := lenN (utf8_encode_char c) in
              if (n <=? budget)%N then c :: fitting (budget - n) r else []
  end.

Definition layout_command (type_name : string) : Result Error MiCommand :=
  c ← MiCommand_new (bytes_of "-interpreter-exec");
  with_arguments [BareArgument "console"; QuotedArgument ("ptype /o " +:+ type_name)] c.

Definition layout_facts (type_name : string) (reply : CommandReply) : Value :=
  let text := utf8_lossy (console_stream (cr_stream_records reply)) in
  let truncated := cr_stream_truncated reply || (MAX_LAYOUT_BYTES <? lenN (bytes_of (string_of_chars text)))%N in
  Object [("name", Str type_name);
          ("text", Str (string_of_chars (trim_matches is_whitespace (fitting MAX_LAYOUT_BYTES text))));
          ("truncated", Bool truncated)].

(** A layout that is requested replaces the listing's evidence. *)
Definition add_layout (parameters : Value) (result : Value) : handler Value :=
  match Json.get "type_layout" parameters ≫= Json.as_str with
  | None => mret result
  | Some type_name =>
      _ ← check (if single_line type_name then Ok tt
                 else Err (invalid "type_layout must contain 1 to 512 single-line bytes"));
      c ← check (layout_command type_name);
      layout ← command c;
      result ← run (put "type_layout" (layout_facts type_name layout) result);
      run (put "evidence_seq" (uint (cr_evidence_seq layout)) result)
  end.

Definition symbol_search (request : ApiRequest) : handler Value :=
  let parameters := req_parameters request in
  query ← check (text_parameter parameters "query");
  _ ← check (if single_line query then Ok tt
             else Err (invalid "symbol query must contain 1 to 512 single-line bytes"));
  let kind := default "functions" (Json.get "kind" parameters ≫= Json.as_str) in
  name ← check (symbol_command_name kind);
  limit ← check (bounded_limit parameters 32 (Config.value_children limits));
  c ← check (symbol_command name kind query limit);
  search ← command c;
  let symbols := normalized_symbols (cr_record search) in
  stop ← stop_facts;
  add_layout parameters
    (Object [("stop_id", stop); ("query", Str query); ("kind", Str kind); ("limit", uint limit);
             ("symbols", Array (take (N.to_nat limit) symbols));
             ("truncated", Bool (limit <? lenN symbols)%N);
             ("evidence_seq", uint (cr_evidence_seq search))]).

(** ** Source *)

Definition MAX_SOURCE_SCAN_BYTES : N := 1024 * 1024.

(** [read_until] a line feed, which is part of what it reads. *)
Fixpoint take_line (input : bytes) : bytes * bytes :=
  match input with
  | [] => ([], [])
  | c :: r => if (c =? LF)%char then ([c], r) else let '(line, rest) := take_line r in (c :: line, rest)
  end.

Definition scan_exceeded : Error := Error_new Code.OutputLimit "source excerpt scan exceeds 1 MiB".

Fixpoint read_lines (fuel : nat) (count : N) (read input : bytes) : outcome Error (bytes * bytes) :=
  if (count =? 0)%N then Done (read, input)
  else match input with
  | [] => Done (read, [])
  | _ =>
      match fuel with
      | 0 => OutOfFuel
      | S fuel =>
          let '(line, rest) := take_line input in
          if (MAX_SOURCE_SCAN_BYTES <? lenN (read ++ line))%N then Fail scan_exceeded
          else read_lines fuel (count - 1) (read ++ line) rest
      end
  end.

(** The first lines of a file and whether more follow them. *)
Definition read_source_prefix (content : bytes) (end_line : N) : outcome Error (string * bool) :=
  let input := take (N.to_nat (MAX_SOURCE_SCAN_BYTES + 1)) content in
  '(read, rest) ← read_lines (length input) end_line [] input;
  match from_utf8 read with
  | Some source => Done (source, negb (bool_decide (rest = [])))
  | None => Fail (invalid "source prefix is not valid UTF-8")
  end.

(** [lines[start..end]]. *)
Definition slice {A} (start stop : nat) (l : list A) : outcome Error (list A) :=
  if (start <=? stop)%nat && (stop <=? length l)%nat then Done (take (stop - start) (drop start l)) else Panic.

Definition excerpt_facts (path source : string) (line before after : N) (has_more : bool)
    : outcome Error Value :=
  let all := lines (chars_of source) in
  let center := N.to_nat (N.min line (N.max (lenN all) 1)) in
  let start := center - (N.to_nat before + 1) in
  let stop := Nat.min (center + N.to_nat after) (length all) in
  excerpt ← slice start stop all;
  Done (Object [("path", Str path); ("start_line", uint (N.of_nat (start + 1)));
                ("end_line", uint (N.of_nat stop));
                ("lines", Array (imap (fun i text => Object [("line", uint (N.of_nat (start + i + 1)));
                                                             ("text", Str (string_of_chars text))]) excerpt));
                ("partial", Bool ((0 <? start)%nat || has_more));
                ("source", Object [("provider", Str "linux-userland"); ("mechanism", Str "workspace-file")])]).

Definition mapped_source (requested : string) : string :=
  default requested
    (find_map (fun m => suffix ← path_strip_prefix requested (Config.from m); Some (join (Config.to m) suffix))
       (source_map (security env))).

Definition not_regular : Error := invalid "source path is not a regular file".

Definition source_excerpt (request : ApiRequest) : handler Value :=
  let parameters := req_parameters request in
  let field name := Json.get name parameters ≫= Json.as_u64 in
  requested ← check (text_parameter parameters "path");
  path ← workspace_path (security env) (debug_text env) (mapped_source requested) false;
  let line := N.max (default 1%N (field "line")) 1 in
  let before := N.min (default 5%N (field "before_lines")) 100 in
  let after := N.min (default 10%N (field "after_lines")) 100 in
  '(regular, content) ← hask (hdo (Hop.OpenSource path));
  _ ← check (if regular : bool then Ok tt else Err not_regular);
  '(source, has_more) ← run (read_source_prefix content (saturate (line + after)));
  run (excerpt_facts path source line before after has_more).

(** ** Registers *)

Definition DEFAULT_ROLES : list string := ["pc"; "sp"; "fp"; "return"].
Definition ARGUMENT_ROLES : list string := (fun i => "argument_" +:+ dec (N.of_nat i)) <$> seq 0 8.

Definition requested_roles (parameters : Value) : list string :=
  match Json.get "roles" parameters ≫= Json.as_array with
  | Some roles => omap Json.as_str roles
  | None =>
      let brief := match Json.get "profile" parameters ≫= Json.as_str with
                   | Some profile => bool_decide (profile = "minimal" \/ profile = "brief")
                   | None => false
                   end in
      DEFAULT_ROLES ++ if brief then [] else ARGUMENT_ROLES
  end.

(** The numbers of the registers the roles name; a role the target lacks is left out. *)
Fixpoint role_numbers (roles names : list string) (m : gmap string nat) : outcome Error (gmap string nat) :=
  match roles with
  | [] => Done m
  | role :: rest =>
      match resolve_register_name role names with
      | Ok register =>
          number ← unwrap_or_panic (position (fun n => bool_decide (n = register)) names);
          role_numbers rest names (<[role := number]> m)
      | Err error =>
          if bool_decide (err_code error = Code.CapabilityMissing) then role_numbers rest names m
          else Fail error
      end
  end.

Definition register_command (numbers : list nat) (parameters : Value) (state : SessionState)
    : Result Error MiCommand :=
  c ← MiCommand_new (bytes_of "-data-list-register-values");
  c ← bare c (bytes_of "x");
  c ← context_options c parameters state;
  with_arguments ((fun n => BareArgument (dec (N.of_nat n))) <$> numbers) c.

Definition role_values (roles : gmap string nat) (values : gmap N Value) : Value :=
  map_value (fun number => default Null (values !! N.of_nat number)) roles.

Definition register_read (request : ApiRequest) : handler Value :=
  let parameters := req_parameters request in
  session ← check (required_session request);
  e ← entry session;
  state ← hdo Hop.State;
  _ ← check (require_stopped_context parameters state);
  names_reply ← register_names;
  let names := result_string_list (cr_record names_reply) "register-names" in
  roles ← run (role_numbers (requested_roles parameters) names ∅);
  let architecture := Str (target_architecture names) in
  if bool_decide (roles = ∅) then
    mret (Object [("stop_id", stop_value state); ("roles", Object []); ("architecture", architecture);
                  ("limitations", strings_value ["requested register roles are unavailable"]);
                  ("evidence_seq", uint (cr_evidence_seq names_reply))])
  else
    c ← check (register_command (btree_values roles) parameters state);
    reply ← command c;
    mret (Object [("stop_id", stop_value state);
                  ("roles", role_values roles (register_values (cr_record reply)));
                  ("architecture", architecture); ("evidence_seq", uint (cr_evidence_seq reply))]).

Definition invalid_register_value : Error :=
  invalid "register value must be a decimal or hexadecimal integer".

(** The register before, the assignment and the register after, as one observation. *)
Definition assign_register (parameters : Value) (state : SessionState) (requested v : string)
    : handler (string * CommandReply * CommandReply * CommandReply) :=
  let evaluate expression :=
    c ← check (evaluate_command expression parameters state); command c in
  stable_observation state (
    names_reply ← register_names;
    register ← check (resolve_register_name requested
                        (result_string_list (cr_record names_reply) "register-names"));
    before ← evaluate ("$" +:+ register);
    write ← evaluate ("$" +:+ register +:+ "=" +:+ v);
    after ← evaluate ("$" +:+ register);
    _ ← record_event (Event.RegisterChanged register);
    mret (register, before, write, after)).

Definition register_write (request : ApiRequest) : handler Value :=
  let parameters := req_parameters request in
  session ← check (required_session request);
  e ← entry session;
  state ← hdo Hop.State;
  _ ← check (require_stopped_context parameters state);
  requested ← check (text_parameter parameters "register");
  v ← check (text_parameter parameters "value");
  reason ← check (text_parameter parameters "reason");
  _ ← check (if valid_integer_literal v then Ok tt else Err invalid_register_value);
  '(register, before, write, after) ← assign_register parameters state requested v;
  mret (Object [("register", Str register);
                ("before", nullable Str (result_text (cr_record before) "value"));
                ("after", nullable Str (result_text (cr_record after) "value"));
                ("reason", Str reason); ("snapshot_invalidated", Bool true);
                ("command", reply_value write)]).

(** ** Disassembly *)

(** A literal needs no evaluation. *)
Definition resolve_disassembly_address (state : SessionState) (parameters : Value) (expression : string)
    : handler N :=
  match Address_parse expression with
  | Ok address => check (parse_address address)
  | Err _ =>
      _ ← run (validate_expression expression);
      c ← check (evaluate_command expression parameters state);
      reply ← command c;
      v ← check (ok_or (result_text (cr_record reply) "value")
                   (Error_new Code.GdbError "address expression returned no value"));
      check (parse_address v)
  end.

Definition bad_range : Error := invalid "disassembly range must be positive and at most 64 KiB".

Definition disassembly_range (state : SessionState) (parameters : Value)
    : handler (N * N * option N * option (nat * nat)) :=
  match Json.get "range" parameters with
  | Some range =>
      first ← check (text_parameter range "start");
      start ← resolve_disassembly_address state parameters first;
      last_ ← check (text_parameter range "end");
      stop ← resolve_disassembly_address state parameters last_;
      if ((stop <=? start) || (64 * 1024 <? stop - start))%N then check (Err bad_range)
      else mret (start, stop, None, None)
  | None =>
      let around := default parameters (Json.get "around" parameters) in
      let expression := default "$pc" (Json.get "expression" around ≫= Json.as_str) in
      address ← resolve_disassembly_address state parameters expression;
      let before := N.min (default 8%N (Json.get "before_instructions" around ≫= Json.as_u64)) 64 in
      let after := N.min (default 16%N (Json.get "after_instructions" around ≫= Json.as_u64)) 64 in
      mret ((address - before * 16)%N, saturate (address + (after * 16 + 16)), Some address,
            Some (N.to_nat before, N.to_nat after))
  end.

Definition disassembly_mode (include_source include_bytes : bool) : string :=
  match include_source, include_bytes with
  | false, false => "0" | true, false => "1" | false, true => "2" | true, true => "3"
  end.

Definition disassemble_command (start stop : N) (mode : string) : Result Error MiCommand :=
  c ← MiCommand_new (bytes_of "-data-disassemble");
  c ← bare c (bytes_of "-s");
  c ← bare c (bytes_of "0x" ++ hex_lower start);
  c ← bare c (bytes_of "-e");
  c ← bare c (bytes_of "0x" ++ hex_lower stop);
  c ← bare c (bytes_of "--");
  bare c (bytes_of mode).

(** The architecture is optional: an independent read failure leaves it unknown. *)
Definition disassembly_architecture (reply : Result Error CommandReply) : Result Error string :=
  match reply with
  | Ok reply => Ok (target_architecture (result_string_list (cr_record reply) "register-names"))
  | Err error => if is_independent_read_failure (err_code error) then Ok "unknown" else Err error
  end.

Definition projected_instruction (include_source include_bytes : bool) (instruction : Value) : Value :=
  match instruction with
  | Object fields =>
      let fields := if include_source then fields else remove_field "source" fields in
      Object (if include_bytes then fields else remove_field "bytes" fields)
  | v => v
  end.

Definition disassembly_read (request : ApiRequest) : handler Value :=
  let parameters := req_parameters request in
  session ← check (required_session request);
  e ← entry session;
  state ← hdo Hop.State;
  _ ← check (require_stopped_context parameters state);
  '(start, stop, current, around) ← disassembly_range state parameters;
  let include_source := bool_value parameters "include_source" true in
  let include_bytes := bool_value parameters "include_bytes" true in
  c ← check (disassemble_command start stop (disassembly_mode include_source include_bytes));
  reply ← command c;
  names ← attempt register_names;
  architecture ← check (disassembly_architecture names);
  mret (Object [("stop_id", stop_value state); ("architecture", Str architecture);
                ("syntax", Str "target-default");
                ("range", Object [("start", Str (address_text start)); ("end", Str (address_text stop))]);
                ("instructions", Array (projected_instruction include_source include_bytes <$>
                                          disassembly_instructions (cr_record reply) current around));
                ("evidence_seq", uint (cr_evidence_seq reply)); ("bounded", Bool true)]).

End reading.
