(* ===== verification/Snapshots.v ===== *)
(** * Snapshots: captures, observation turns and views
    ([crates/gdb-ai-core/src/gateway/operations/inspection.rs])

    The reads of a turn at one stop, with the failures that leave the others
    meaningful; the snapshot profiles, which are bounded plans of reads; and
    the dispatch of views.  A view may capture a snapshot, whose reads are
    views again: [fuel] counts these rounds, and two are enough. *)
From S2P Require Import Prelude Text MiAst Json Errors Domain Backend Normalize Policy Protocol Access MemoryRange Effects Program Actor Requests Wire Results Config Gateway Encoding Context MiView Handle Memory Observed Observations Environment Providers Values Reconcile Inspection Reading.

Section capture.
Context (env : Environment).
Local Notation limits := (limits env).
Local Notation base64_encode := (base64_encode env).
Local Notation sha256_hex := (sha256_hex (sha256 env)).
Local Notation command := (command (command_timeout env)).
Local Notation stable_observation := (stable_observation (command_timeout env)).
Local Notation safe_evaluate := (safe_evaluate (command_timeout env)).

(** ** Memory of an observation *)

(** The range policy applies to the address that is read. *)
Definition authorize_memory (e : SessionEntry) (parameters : Value) : handler unit :=
  state ← hdo Hop.State;
  maps ← (match find_map inf_pid (btree_values (inferiors state)) with
          | Some pid => maps ← hdo (Hop.ReadMaps pid); mret (ok maps)
          | None => mret None
          end);
  check (authorize_observation_memory (fun _ => maps) (se_profile e) state parameters).

Definition no_address_value : Error := Error_new Code.GdbError "address expression returned no value".

(** The parameters with an address in place of its expression. *)
Definition resolve_address (parameters : Value) (state : SessionState) : handler Value :=
  match Json.get "address_expression" parameters ≫= Json.as_str with
  | Some expression =>
      c ← check (evaluate_command expression parameters state);
      reply ← safe_evaluate c;
      v ← check (ok_or (result_text (cr_record reply) "value") no_address_value);
      number ← check (parse_address v);
      address ← check (Address_parse (string_of (bytes_of "0x" ++ hex_lower number)));
      '(_, parameters) ← run (take_field "address_expression" parameters);
      run (put "address" (Str address) parameters)
  | None => mret parameters
  end.

Definition memory_read_of (request : ApiRequest) : handler Value :=
  memory_read (command_timeout env) limits base64_encode (sha256 env) request.

Definition observation_memory_read_with_entry (e : SessionEntry) (request : ApiRequest) : handler Value :=
  let parameters := req_parameters request in
  state ← hdo Hop.State;
  _ ← check (require_stopped_context parameters state);
  stable_observation state (
    parameters ← resolve_address parameters state;
    _ ← authorize_memory e parameters;
    memory_read_of (with_parameters parameters request)).

Definition observation_memory_read (request : ApiRequest) : handler Value :=
  session ← check (required_session request);
  e ← entry session;
  observation_memory_read_with_entry e request.

(** ** Tracked values *)

(** What a tracked value gave: what is recorded, what is shown, and warnings. *)
Record Tracked := MkTracked {
  tr_observation : option Value;
  tr_presented : option Value;
  tr_warnings : list Value
}.

Definition tracked_warning (code id message : string) : Value :=
  Object [("code", Str code); ("tracking_id", Str id); ("message", Str message)].

Definition unavailable (code id : string) (error : Error) : handler Tracked :=
  if is_independent_read_failure (err_code error)
  then mret (MkTracked None None [tracked_warning code id (error_display error)])
  else check (Err error).

Definition shown (v : Value) : Tracked := MkTracked (Some v) (Some v) [].

Definition tracked_expression (id expression : string) (maximum : N) (parameters : Value)
    (state : SessionState) : handler Tracked :=
  c ← check (evaluate_command expression parameters state);
  reply ← attempt (safe_evaluate c);
  match reply with
  | Err error => unavailable "TRACKED_EXPRESSION_UNAVAILABLE" id error
  | Ok reply =>
      let fields := record_results (cr_record reply) in
      let b := default [] (find fields "value" ≫= as_bytes) in
      let status := status_value fields in
      if (maximum <? lenN b)%N then
        uri ← hask (hdo (Hop.PutArtifact b "target-value"));
        mret (shown (Object
          [("expression", Str expression); ("status", status); ("sha256", Str (sha256_hex b));
           ("preview", Object (byte_content base64_encode (take (N.to_nat (N.min maximum 256)) b)));
           ("artifact", Str uri); ("truncated", Bool true); ("evidence_seq", uint (cr_evidence_seq reply))]))
      else
        mret (shown (Object
          [("expression", Str expression); ("status", status);
           ("value", default Null (result_value base64_encode fields "value"));
           ("evidence_seq", uint (cr_evidence_seq reply))]))
  end.

Definition no_tracked_address : Error :=
  Error_new Code.GdbError "tracked address expression returned no value".

Definition tracked_address (reply : Result Error CommandReply) : Result Error N :=
  reply ← reply;
  v ← ok_or (result_text (cr_record reply) "value") no_tracked_address;
  parse_address v.

Definition partial_memory (id : string) (len read : N) : Value :=
  Object [("code", Str "TRACKED_MEMORY_PARTIAL");
          ("message", Str ("tracked memory returned " +:+ dec read +:+ " of " +:+ dec len +:+ " bytes"));
          ("tracking_id", Str id); ("requested_length", uint len); ("read_length", uint read)].

(** Bytes that are too many to show are shown as an artifact. *)
Definition tracked_bytes (id address_expression : string) (len : N) (b : bytes) (evidence_seq : N)
    : handler Tracked :=
  let warnings := if (lenN b =? len)%N then [] else [partial_memory id len (lenN b)] in
  let identity := [("address_expression", Str address_expression); ("length", uint (lenN b));
                   ("sha256", Str (sha256_hex b))] in
  let observation := Object (identity ++ [("data_base64", Str (base64_encode b));
                                          ("evidence_seq", uint evidence_seq)]) in
  if (inline_memory_bytes limits <? lenN b)%N then
    uri ← hask (hdo (Hop.PutArtifact b "tracked-memory"));
    mret (MkTracked (Some observation)
            (Some (Object (identity ++ [("preview_hex", Str (hex_encode (take 64 b))); ("artifact", Str uri);
                                        ("truncated", Bool true); ("evidence_seq", uint evidence_seq)])))
            warnings)
  else mret (MkTracked (Some observation) (Some observation) warnings).

Definition tracked_memory (e : SessionEntry) (id address_expression : string) (len : N)
    (parameters : Value) (state : SessionState) : handler Tracked :=
  c ← check (evaluate_command address_expression parameters state);
  reply ← attempt (safe_evaluate c);
  captured ← attempt (
    address ← check (tracked_address reply);
    _ ← authorize_memory e (Object [("address", Str (string_of (bytes_of "0x" ++ hex_lower address)));
                                    ("length", uint len)]);
    read_memory_bytes (command_timeout env) state address len true);
  match captured with
  | Ok (b, evidence_seq) => tracked_bytes id address_expression len b evidence_seq
  | Err error => unavailable "TRACKED_MEMORY_UNAVAILABLE" id error
  end.

Definition insert_some {A} (key : string) (o : option A) (m : gmap string A) : gmap string A :=
  match o with Some x => <[key := x]> m | None => m end.

Fixpoint track_all (e : SessionEntry) (parameters : Value) (state : SessionState)
    (definitions : list TrackingDefinition) (observations presented : gmap string Value)
    (warnings : list Value) : handler (gmap string Value * gmap string Value * list Value) :=
  match definitions with
  | [] => mret (observations, presented, warnings)
  | d :: rest =>
      tracked ← (match d with
                 | TrackExpression id expression maximum =>
                     tracked_expression id expression maximum parameters state
                 | TrackMemory id address_expression len _ =>
                     tracked_memory e id address_expression len parameters state
                 end);
      track_all e parameters state rest
        (insert_some (tracking_id d) (tr_observation tracked) observations)
        (insert_some (tracking_id d) (tr_presented tracked) presented)
        (warnings ++ tr_warnings tracked)
  end.

Definition tracking_running : Error := Error_new Code.TargetRunning "tracking requires stopped target".

(** What is shown of the tracked values, their changes and the warnings. *)
Definition capture_tracking (e : SessionEntry) (request : ApiRequest) (state : SessionState)
    : handler (gmap string Value * gmap string Value * list Value) :=
  definitions ← tracking;
  '(observations, presented, warnings) ←
    track_all e (req_parameters request) state definitions ∅ ∅ [];
  _ ← require_active_operation;
  stop ← check (ok_or (stop_id state) tracking_running);
  changes ← record_tracking observations stop (execution_epoch state);
  mret (presented, changes, warnings).

Definition inspection_tracking (e : SessionEntry) (request : ApiRequest) : handler Value :=
  state ← hdo Hop.State;
  _ ← check (require_stopped_context (req_parameters request) state);
  stable_observation state (
    '(tracked, changes, warnings) ← capture_tracking e request state;
    mret (Object [("stop_id", stop_value state); ("tracked", map_value id tracked);
                  ("changes", map_value id changes); ("warnings", Array warnings);
                  ("partial", Bool (negb (bool_decide (warnings = []))))])).

(** ** Snapshots of the past *)

Definition no_snapshot : Error := Error_new Code.NotFound "snapshot not found".

Definition historical_observation (session_id snapshot_id : string) : handler Value :=
  found ← hdo (Hop.FindSession session_id);
  cached ← (match found with Some _ => snapshot_cached snapshot_id | None => mret None end);
  stored ← (match cached with
            | Some v => mret (Some v)
            | None => hask (hdo (Hop.StoredSnapshot session_id snapshot_id))
            end);
  v ← check (ok_or stored no_snapshot);
  run (put "historical" (Bool true) v).

Definition DIFF_FIELDS : list string :=
  ["reason"; "stack"; "locals"; "registers"; "tracked"; "results"; "failures"; "observations";
   "observation_failures"].

Definition changed_field (before after : Value) (field : string) : option (string * Value) :=
  let old := at_key field before in
  let new := at_key field after in
  if decide (old = new) then None else Some (field, Object [("before", old); ("after", new)]).

Definition is_partial (v : Value) : bool := bool_decide (Json.get "partial" v = Some (Bool true)).

Definition diff_facts (before_id after_id : string) (before after : Value) : Value :=
  Object [("before_snapshot_id", Str before_id); ("after_snapshot_id", Str after_id);
          ("historical", Bool true);
          ("changes", map_value id (list_to_map (omap (changed_field before after) DIFF_FIELDS) : gmap string Value));
          ("partial", Bool (is_partial before || is_partial after))].

Definition inspection_diff (request : ApiRequest) : handler Value :=
  let parameters := req_parameters request in
  session ← check (required_session request);
  session_id ← check (SessionId_parse session);
  before_id ← check (text_parameter parameters "before_snapshot_id");
  after_id ← check (text_parameter parameters "after_snapshot_id");
  before ← historical_observation session_id before_id;
  after ← historical_observation session_id after_id;
  mret (diff_facts before_id after_id before after).

Definition inspection_snapshot_get (request : ApiRequest) : handler Value :=
  session ← check (required_session request);
  session_id ← check (SessionId_parse session);
  snapshot_id ← check (text_parameter (req_parameters request) "snapshot_id");
  historical_observation session_id snapshot_id.

End capture.

(** ** Observation turns, snapshot profiles and the dispatch of views
    ([crates/gdb-ai-core/src/gateway/operations/inspection.rs])

    A turn keeps what its reads captured and the failures that leave the other
    reads meaningful; any other failure ends it.  A snapshot profile is a plan
    of reads.  The crash view captures a snapshot, whose reads are views again:
    [rounds] counts these nestings. *)

Inductive CachedObservation :=
| CachedResult (r : SemanticResult)
| CachedFailure (e : ApiError).

(** What a turn has so far. *)
Record turn := MkTurn {
  t_results : gmap string Value;
  t_failures : gmap string ApiError;
  t_evidence : gmap string Evidence;
  t_artifacts : gset string;
  t_warnings : list Warning;
  t_truncated : bool;
  t_availability : gmap string FactAvailability;
  t_cache : gmap string CachedObservation;
  t_partial : bool
}.

#[export] Instance turn_updatable : Updatable turn := fun t =>
  MkTurn (t_results t) (t_failures t) (t_evidence t) (t_artifacts t) (t_warnings t) (t_truncated t)
    (t_availability t) (t_cache t) (t_partial t).

Definition empty_turn : turn := MkTurn ∅ ∅ ∅ ∅ [] false ∅ ∅ false.

Definition failure_availability (code : Code.ErrorCode) : FactAvailability :=
  match code with
  | Code.CapabilityMissing | Code.Unsupported | Code.NotFound => FactUnavailable
  | _ => FactFailed
  end.

(** The shared stop belongs to the turn; historical facts keep theirs. *)
Definition without_stop (stop : StopId) (r : SemanticResult) : outcome Error Value :=
  if negb (sem_historical (semantics (metadata r))) &&
     bool_decide ((Json.get "stop_id" (facts r) ≫= Json.as_str) = Some stop)
  then '(_, v) ← take_field "stop_id" (facts r); Done v
  else Done (facts r).

Definition record_outcome (stop : StopId) (name : string) (o : CachedObservation) (t : turn)
    : outcome Error turn :=
  match o with
  | CachedResult r =>
      let m := metadata r in
      v ← without_stop stop r;
      Done (t <| t_partial := t_partial t || negb (sem_complete (semantics m)) |>
              <| t_evidence := by_uri (evidence m) (t_evidence t) |>
              <| t_artifacts := t_artifacts t ∪ list_to_set (artifacts m) |>
              <| t_warnings := t_warnings t ++ warnings m |>
              <| t_truncated := t_truncated t || truncated m |>
              <| t_availability := <[name := Captured]> (t_availability t) |>
              <| t_results := <[name := v]> (t_results t) |>)
  | CachedFailure e =>
      Done (t <| t_availability := <[name := failure_availability (api_code e)]> (t_availability t) |>
              <| t_failures := <[name := e]> (t_failures t) |>)
  end.

(** The first outcome of a key is the one that is reused. *)
Definition remember (key : option string) (o : CachedObservation) (t : turn) : turn :=
  match key with
  | Some key => match t_cache t !! key with
                | Some _ => t
                | None => t <| t_cache := <[key := o]> (t_cache t) |>
                end
  | None => t
  end.

Definition turn_result (context : ObservationContext) (revision : N) (t : turn) : ObservationResult :=
  MkObservationResult
    (MkObservationContext (oc_observation_id context) (oc_stop_id context) revision
       (oc_execution_epoch context) (oc_inferior_id context) (oc_thread_id context) (oc_frame_id context))
    (t_results t) (t_failures t) (bool_decide (t_failures t = ∅) && negb (t_partial t))
    (t_availability t) (t_warnings t) (btree_values (t_evidence t)) (btree_strings (t_artifacts t))
    (t_truncated t).

Definition observation_running : Error :=
  Error_new Code.TargetRunning "observation requires stopped target".

(** *** Profiles *)

Definition SLOT : string := "@snapshot.".

Definition with_results (results : gmap string Value) (r : ObservationResult) : ObservationResult :=
  MkObservationResult (ob_context r) results (ob_failures r) (ob_complete r) (ob_availability r)
    (ob_warnings r) (ob_evidence r) (ob_artifacts r) (ob_truncated r).
Definition with_failure (name : string) (e : ApiError) (r : ObservationResult) : ObservationResult :=
  MkObservationResult (ob_context r) (ob_results r) (<[name := e]> (ob_failures r)) (ob_complete r)
    (ob_availability r) (ob_warnings r) (ob_evidence r) (ob_artifacts r) (ob_truncated r).
Definition with_availability (m : gmap string FactAvailability) (r : ObservationResult) : ObservationResult :=
  MkObservationResult (ob_context r) (ob_results r) (ob_failures r) (ob_complete r) m
    (ob_warnings r) (ob_evidence r) (ob_artifacts r) (ob_truncated r).

(** [as_object_mut] and then [remove]. *)
Definition remove_member (key : string) (v : Value) : option Value * Value :=
  match v with
  | Object fields => (Json.assoc key fields, Object (remove_field key fields))
  | _ => (None, v)
  end.

(** The failure a read carries in its facts becomes one of the turn. *)
Definition lift_failure (decode_error : Value -> string) (slot key failed_as : string)
    (r : ObservationResult) : Result Error (ObservationResult * bool) :=
  match ob_results r !! slot with
  | None => Ok (r, false)
  | Some v =>
      match remove_member key v with
      | (Some error, v) =>
          e ← ok_or (decode_api_error error) (Error_new Code.Internal (decode_error error));
          Ok (with_failure failed_as e (with_results (<[slot := v]> (ob_results r)) r), true)
      | (None, _) => Ok (r, false)
      end
  end.

Definition split_frame (frame : Value) : outcome Error (Value * Value) :=
  '(arguments, rest) ← take_field "arguments" frame;
  Done (rest, Object [("level", at_key "level" frame); ("arguments", default Null arguments)]).

Fixpoint split_frames (frames : list Value) : outcome Error (list Value * list Value) :=
  match frames with
  | [] => Done ([], [])
  | frame :: rest =>
      '(frame, arguments) ← split_frame frame;
      '(frames, all) ← split_frames rest;
      Done (frame :: frames, arguments :: all)
  end.

(** The arguments of the stack are listed apart. *)
Definition separate_arguments (r : ObservationResult) : outcome Error ObservationResult :=
  match ob_results r !! (SLOT +:+ "stack") with
  | None => Done r
  | Some stack =>
      frames ← unwrap_or_panic (Json.as_array (at_key "frames" stack));
      '(frames, arguments) ← split_frames frames;
      stack ← put "frames" (Array frames) stack;
      let key := SLOT +:+ "arguments" in
      let availability := match ob_availability r !! key with
                          | Some _ => ob_availability r
                          | None => <[key := Captured]> (ob_availability r)
                          end in
      Done (with_availability availability
              (with_results (<[key := Object [("arguments", Array arguments)]]>
                               (<[SLOT +:+ "stack" := stack]> (ob_results r))) r))
  end.

Definition PROFILE_FIELDS : list (string * option string) :=
  [("stack", Some "frames"); ("locals", Some "variables"); ("arguments", Some "arguments");
   ("registers", None); ("disassembly", None); ("tracked", Some "tracked")].

(** A profile under construction: its fields, and what is left of the turn. *)
Record profile_state := MkProfileState {
  ps_fields : list (string * Value);
  ps_availability : gmap string FactAvailability;
  ps_failures : gmap string ApiError;
  ps_left : ObservationResult
}.

Definition upper (s : string) : string := string_of (to_upper <$> bytes_of s).

Definition member_value (field : string) (member : option string) (captured : Value) : Value :=
  match member with
  | None => captured
  | Some member =>
      default (if bool_decide (field = "tracked") then Object [] else Null) (remove_member member captured).1
  end.

Definition project_field (s : profile_state) (f : string * option string) : profile_state :=
  let '(field, member) := f in
  let r := ps_left s in
  let key := SLOT +:+ field in
  let availability := default NotCollected (ob_availability r !! key) in
  let failure := ob_failures r !! key in
  let warning := match failure with
                 | Some e => [MkWarning (upper field +:+ "_UNAVAILABLE") (api_message e)]
                 | None => []
                 end in
  let captured := default Null (ob_results r !! key) in
  let '(changes, captured) :=
    if bool_decide (field = "tracked")
    then let '(changes, captured) := remove_member "changes" captured in
         ([("changes", default (Object []) changes)], captured)
    else ([], captured) in
  MkProfileState
    (ps_fields s ++ changes ++ [(field, member_value field member captured)])
    (<[field := availability]> (ps_availability s))
    (insert_some field failure (ps_failures s))
    (MkObservationResult (ob_context r) (delete key (ob_results r)) (delete key (ob_failures r))
       (ob_complete r) (delete key (ob_availability r)) (ob_warnings r ++ warning) (ob_evidence r)
       (ob_artifacts r) (ob_truncated r)).

Definition snapshot_head (state : SessionState) (profile : string) (r : ObservationResult)
    : list (string * Value) :=
  let context := ob_context r in
  [("stop_id", Str (oc_stop_id context)); ("revision", uint (oc_captured_revision context));
   ("execution_epoch", uint (oc_execution_epoch context)); ("profile", Str profile);
   ("reason", nullable Str (stop_reason state));
   ("reason_detail", nullable stop_reason_value (stop_reason_detail state));
   ("observation_context", context_value context); ("observation_complete", Bool (ob_complete r));
   ("partial", Bool (negb (ob_complete r)))].

Definition snapshot_body (state : SessionState) (profile : string) (r : ObservationResult)
    : profile_state * Value :=
  let s := foldl project_field (MkProfileState [] ∅ ∅ r) PROFILE_FIELDS in
  let left := ps_left s in
  (s, Object (snapshot_head state profile r ++ ps_fields s ++
      [("availability", map_value availability_value (ps_availability s));
       ("failures", map_value api_error_value (ps_failures s));
       ("observation_availability", map_value availability_value (ob_availability left));
       ("observation_failures", map_value api_error_value (ob_failures left));
       ("observations", map_value id (ob_results left));
       ("warnings", Array (warning_value <$> ob_warnings left));
       ("evidence", Array (evidence_value <$> ob_evidence left))])).

(** The views of a profile as they are stored. *)
Definition prepare_profile (decode_error : Value -> string) (profile : string) (r : ObservationResult)
    : outcome Error ObservationResult :=
  '(r, _) ← result_outcome (lift_failure decode_error (SLOT +:+ "locals") "variables_error" (SLOT +:+ "locals") r);
  '(r, failed) ← result_outcome (lift_failure decode_error (SLOT +:+ "stack") "arguments_error" (SLOT +:+ "arguments") r);
  let r := if failed : bool then with_availability (<[SLOT +:+ "arguments" := FactFailed]> (ob_availability r)) r else r in
  if bool_decide (profile = "standard" \/ profile = "deep") then separate_arguments r else Done r.

Definition profile_frames (stack_frames : N) (parameters : Value) (profile : string) : Result Error N :=
  if bool_decide (profile = "minimal") then Ok 1%N
  else if bool_decide (profile = "brief") then Ok 3%N
  else if bool_decide (profile = "standard") then Ok 8%N
  else if bool_decide (profile = "custom") then Ok 0%N
  else if bool_decide (profile = "deep") then bounded_limit parameters 8 stack_frames
  else Err (Memory.invalid "unknown snapshot profile").

Definition snapshot_profile (parameters : Value) : string :=
  match Json.get "profile" parameters ≫= Json.as_str with
  | Some profile => profile
  | None => if bool_decide (is_Some (Json.get "inspect" parameters)) then "custom" else "standard"
  end.

Section snapshots.
Context (env : Environment).
Local Notation limits := (limits env).
Local Notation command := (command (command_timeout env)).
Local Notation stable_observation := (stable_observation (command_timeout env)).

Definition evaluate_value (request : ApiRequest) : handler SemanticResult :=
  value_evaluate (command_timeout env) (base64_encode env) (decode_error env) request.

Definition json_failure (v : Value) : Error := Error_new Code.Internal (decode_error env v).

Section turns.
(** [inspection_result], which a read of a turn may call. *)
Context (inspect : ApiRequest -> handler SemanticResult).

(** [execute_observation]. *)
Definition execute_read (e : SessionEntry) (kind : ObservationKind) (sub : ApiRequest)
    (partial : Value -> bool) : handler SemanticResult :=
  state ← hdo Hop.State;
  context ← check (observation_context (req_parameters sub) state);
  result ← (match kind with
            | MemoryView => observation_memory_read_with_entry env e sub
            | DisassemblyView => disassembly_read env sub
            | _ => inspection_diff sub
            end);
  let r := semantic_read result context (se_id e) in
  mret (r <| metadata := metadata r
           <| semantics := semantics (metadata r) <| sem_complete := negb (partial result) |> |> |>).

Definition execute_observation (parent : ApiRequest) (e : SessionEntry) (r : ObservationRequest)
    : handler SemanticResult :=
  let sub := subrequest r parent in
  match or_kind r with
  | Observations.Inspection => inspect sub
  | Evaluate => evaluate_value sub
  | kind => execute_read e kind sub (is_partial_result r)
  end.

Definition finalize (r : ObservationRequest) (result : SemanticResult) : SemanticResult :=
  result <| facts := finalize_result r (facts result) |>.

(** A read that is not in the turn's cache, and the evidence of its failure. *)
Definition fresh_outcome (parent : ApiRequest) (e : SessionEntry) (r : ObservationRequest) (t : turn)
    : handler (CachedObservation * turn) :=
  result ← attempt (execute_observation parent e r);
  match result with
  | Ok result => mret (CachedResult (finalize r result), t)
  | Err error =>
      if is_independent_read_failure (err_code error) then
        let failure := api_error_of error in
        mret (CachedFailure failure,
              t <| t_evidence := by_uri (result_evidence (se_id e) (api_error_value failure)) (t_evidence t) |>)
      else check (Err error)
  end.

Fixpoint capture_reads (parent : ApiRequest) (e : SessionEntry) (stop : StopId)
    (requests : list ObservationRequest) (t : turn) : handler turn :=
  match requests with
  | [] => mret t
  | r :: rest =>
      _ ← require_active_operation;
      let cached := key ← cache_key r; t_cache t !! key in
      '(o, t) ← (match cached with
                 | Some o => mret (o, t)
                 | None => fresh_outcome parent e r t
                 end);
      t ← run (record_outcome stop (or_name r) o (remember (cache_key r) o t));
      capture_reads parent e stop rest t
  end.

(** A turn without its commit. *)
Definition captured_turn (parent : ApiRequest) (e : SessionEntry) (baseline : SessionState)
    (items : Value) : handler ObservationResult :=
  stop ← check (ok_or (stop_id baseline) observation_running);
  requests ← run (parse_observation_requests (print env) items stop
                    (memory_read_bytes limits) (req_parameters parent));
  stable_observation baseline (
    context ← check (observation_context (req_parameters parent) baseline);
    context ← run (unwrap_or_panic context);
    t ← capture_reads parent e (oc_stop_id context) requests empty_turn;
    _ ← require_active_operation;
    state ← hdo Hop.State;
    mret (turn_result context (revision state) t)).

Definition capture_observations (parent : ApiRequest) (e : SessionEntry) (baseline : SessionState)
    (items : Value) (persist : bool) : handler ObservationResult :=
  result ← captured_turn parent e baseline items;
  if persist then
    stop ← check (ok_or (stop_id baseline) observation_running);
    finalized ← commit_observation (observation_value result) stop (execution_epoch baseline)
                  (negb (ob_complete result));
    check (ok_or (decode_observation finalized) (json_failure finalized))
  else mret result.

(** *** Snapshots *)

Definition snapshot_result (s : profile_state) (complete : bool) (snapshot : Value)
    (context : ObservationContext) : option SemanticResult :=
  let left := ps_left s in
  r ← with_failures "failures" (ps_failures s) (semantic_new snapshot (Some context));
  r ← with_failures "observation_failures" (ob_failures left) r;
  let m := metadata r in
  Some (observation_details
          (r <| metadata :=
             MkResultMetadata (semantics m <| sem_complete := complete |>) (ob_warnings left)
               (ob_truncated left) (continuation m) (ob_artifacts left) (ob_evidence left) |>)).

Definition build_and_commit_snapshot (e : SessionEntry) (request : ApiRequest) (state : SessionState)
    (profile : string) (requests : Value) : handler SemanticResult :=
  observation ← capture_observations request e state requests false;
  observation ← run (prepare_profile (decode_error env) profile observation);
  let '(s, snapshot) := snapshot_body state profile observation in
  snapshot ← commit_snapshot snapshot (oc_stop_id (ob_context observation)) (execution_epoch state)
               (negb (ob_complete observation));
  let stored := at_key "observation_context" snapshot in
  context ← check (ok_or (decode_context stored) (json_failure stored));
  run (unwrap_or_panic (snapshot_result s (ob_complete observation) snapshot context)).

Definition inspection_snapshot (request : ApiRequest) : handler SemanticResult :=
  let parameters := req_parameters request in
  session ← check (required_session request);
  e ← entry session;
  state ← hdo Hop.State;
  _ ← check (require_stopped_context parameters state);
  let profile := snapshot_profile parameters in
  frames ← check (profile_frames (Config.stack_frames limits) parameters profile);
  let requests := snapshot_requests parameters profile frames in
  _ ← run (validate_observation_requests (print env) requests (memory_read_bytes limits));
  stop ← run (unwrap_or_panic (stop_id state));
  _ ← record_event (Event.SnapshotStarted stop);
  built ← attempt (stable_observation state
                     (build_and_commit_snapshot e request state profile requests));
  match built with
  | Ok r => mret r
  | Err error => _ ← record_event (Event.SnapshotFailed stop); check (Err error)
  end.

Definition no_requests : Error := Memory.invalid "batch requests are required".

Definition inspection_batch (request : ApiRequest) : handler SemanticResult :=
  session ← check (required_session request);
  e ← entry session;
  baseline ← hdo Hop.State;
  _ ← check (require_stopped_context (req_parameters request) baseline);
  requests ← check (ok_or (Json.get "requests" (req_parameters request)) no_requests);
  observation ← capture_observations request e baseline requests true;
  run (unwrap_or_panic (into_batch_result observation)).

End turns.

(** *** Views *)

Definition stop_context (state : SessionState) : Value :=
  Object [("stop_id", stop_value state);
          ("reason", match stop_reason_detail state with
                     | Some reason => stop_reason_value reason
                     | None => nullable Str (stop_reason state)
                     end);
          ("inferior_id", nullable Str (stopped_inferior_id state));
          ("thread_id", nullable Str (stopped_thread_id state));
          ("frame", nullable frame_value (stopped_frame state));
          ("snapshot", nullable snapshot_value (Domain.snapshot state));
          ("execution_epoch", uint (execution_epoch state)); ("event_seq", uint (event_seq state));
          ("partial", Bool (bool_decide (is_Some (stop_id state)) && bool_decide (stopped_frame state = None)))].

Definition page_offset (parameters : Value) : N :=
  N.min (default 0%N (Json.get "offset" parameters ≫= Json.as_u64)) U32_MAX.

Definition stack_view (e : SessionEntry) (request : ApiRequest) : handler Value :=
  let parameters := req_parameters request in
  state ← hdo Hop.State;
  limit ← check (bounded_limit parameters 16 (Config.stack_frames limits));
  let offset := page_offset parameters in
  facts ← inspection_stack env state request offset limit;
  frames ← run (unwrap_or_panic (Json.as_array (at_key "frames" facts)));
  continuation ← (if (lenN frames =? limit)%N then
                    stop ← run (unwrap_or_panic (Json.as_str (at_key "stop_id" facts)));
                    mret (Str ("stack:" +:+ stop +:+ ":" +:+ dec (offset + lenN frames)))
                  else mret Null);
  facts ← run (put "offset" (uint offset) facts);
  facts ← run (put "limit" (uint limit) facts);
  run (put "continuation" continuation facts).

Definition frame_view (request : ApiRequest) : handler Value :=
  stop ← stop_facts;
  reply ← inspection_command env request "-stack-info-frame" [];
  mret (Object [("stop_id", stop); ("frame", nullable frame_value (frame_summary (cr_record reply)));
                ("evidence_seq", uint (cr_evidence_seq reply))]).

Definition locals_view (request : ApiRequest) : handler Value :=
  stop ← stop_facts;
  captured ← inspection_frame_variables env request;
  mret (Object ([("stop_id", stop); ("variables", Array (fv_variables captured).*2);
                 ("evidence_seq", uint (fv_evidence_seq captured))] ++
                match fv_error captured with
                | Some error => [("variables_error", api_error_value error); ("partial", Bool true)]
                | None => []
                end)).

Definition arguments_view (request : ApiRequest) : handler Value :=
  let parameters := req_parameters request in
  stop ← stop_facts;
  limit ← check (bounded_limit parameters 16 (Config.stack_frames limits));
  let offset := page_offset parameters in
  reply ← inspection_command env request "-stack-list-arguments"
            [BareArgument "--simple-values"; BareArgument (dec offset);
             BareArgument (dec (saturate (offset + (limit - 1))))];
  mret (Object [("stop_id", stop); ("offset", uint offset); ("limit", uint limit);
                ("arguments", Array (normalized_arguments (base64_encode env) (cr_record reply)));
                ("evidence_seq", uint (cr_evidence_seq reply))]).

Definition modules_view (request : ApiRequest) : handler Value :=
  state ← hdo Hop.State;
  reply ← inspection_command env request "-file-list-shared-libraries" [];
  context ← check (observation_context (req_parameters request) state);
  mapped ← mappings state (context ≫= oc_inferior_id) 0 (N.min 64 (Config.value_children limits));
  mret (Object [("modules", Array (normalized_modules (cr_record reply))); ("mapped_files", mapped);
                ("evidence_seq", uint (cr_evidence_seq reply))]).

Definition list_breakpoints : Result Error MiCommand := MiCommand_new (bytes_of "-break-list").

Definition breakpoints_value (state : SessionState) : Value := map_value breakpoint_value (breakpoints state).

(** Also [breakpoint_list]. *)
Definition breakpoints_view : handler Value :=
  c ← check list_breakpoints;
  reply ← command c;
  _ ← reconcile_breakpoints (cr_record reply);
  state ← hdo Hop.State;
  mret (Object [("breakpoints", breakpoints_value state); ("evidence_seq", uint (cr_evidence_seq reply))]).

Definition source_view (request : ApiRequest) : handler Value :=
  if bool_decide (is_Some (Json.get "path" (req_parameters request))) then source_excerpt env request
  else
    reply ← inspection_command env request "-file-list-exec-source-files" [];
    mret (Object [("files", Array (normalized_source_files (cr_record reply)));
                  ("evidence_seq", uint (cr_evidence_seq reply))]).

Definition mappings_view (request : ApiRequest) : handler Value :=
  let parameters := req_parameters request in
  state ← hdo Hop.State;
  limit ← check (bounded_limit parameters (N.min 64 (Config.value_children limits)) (Config.value_children limits));
  let offset := default 0%N (Json.get "offset" parameters ≫= Json.as_u64) in
  context ← check (observation_context parameters state);
  mappings state (context ≫= oc_inferior_id) offset limit.

Definition session_providers (request : ApiRequest) : handler Value :=
  session ← check (required_session request);
  e ← entry session;
  capabilities ← hdo Hop.Capabilities;
  state ← hdo Hop.State;
  mret (Array (descriptor_value <$> descriptors state capabilities (kernel_enabled (security env)))).

Definition inspection_get (request : ApiRequest) : handler Value :=
  let parameters := req_parameters request in
  view ← check (text_parameter parameters "view");
  session ← check (required_session request);
  e ← entry session;
  let named name := bool_decide (view = name) in
  if named "stop_context" then state ← hdo Hop.State; mret (stop_context state)
  else if named "target" then state ← hdo Hop.State; mret (state_value state)
  else if named "capabilities" then c ← hdo Hop.Capabilities; mret (capabilities_value c)
  else if named "providers" then session_providers request
  else if named "threads" then inspection_threads env request
  else if named "stack" then stack_view e request
  else if named "frame" then frame_view request
  else if named "locals" then locals_view request
  else if named "arguments" then arguments_view request
  else if named "registers" then register_read env request
  else if named "modules" then modules_view request
  else if named "breakpoints" then breakpoints_view
  else if named "symbols" then symbol_search env request
  else if named "source" then source_view request
  else if named "mappings" then mappings_view request
  else if named "signals" then
    state ← hdo Hop.State; mret (map_value signal_policy_value (signal_policies state))
  else if named "memory" then observation_memory_read env request
  else if named "disassembly" then disassembly_read env request
  else if named "tracked" then inspection_tracking env e request
  else if named "diff" then inspection_diff request
  else check (Err (Memory.invalid "unsupported inspection view")).

(** *** Results of views *)

(** The errors of variables keep their transport diagnostics only in the
    detailed projection. *)
Definition compact_frame (frame : Value) : outcome Error Value :=
  match Json.get "variables_error" frame with
  | None => Done frame
  | Some error =>
      e ← unwrap_or_panic (decode_api_error error);
      put "variables_error" (api_error_value (api_error_compact e)) frame
  end.

Fixpoint map_outcome {A B} (f : A -> outcome Error B) (l : list A) : outcome Error (list B) :=
  match l with
  | [] => Done []
  | x :: r => y ← f x; ys ← map_outcome f r; Done (y :: ys)
  end.

Definition compact_frames (frames : Value) : outcome Error Value :=
  match frames with
  | Array items => items ← map_outcome compact_frame items; Done (Array items)
  | v => Done v
  end.

Definition compact_thread (thread : Value) : outcome Error Value :=
  match Json.get "frames" thread with
  | Some frames => frames ← compact_frames frames; put "frames" frames thread
  | None => Done thread
  end.

Definition compact_stack_variable_errors (threads : bool) (r : SemanticResult)
    : outcome Error SemanticResult :=
  if sem_complete (semantics (metadata r)) then Done r
  else
    let field := if threads then "threads" else "frames" in
    let detailed := at_key field (facts r) in
    compacted ← (if threads then
                   items ← unwrap_or_panic (Json.as_array detailed);
                   items ← map_outcome compact_thread items; Done (Array items)
                 else compact_frames detailed);
    v ← put field compacted (facts r);
    Done (detail field detailed (r <| facts := v |>)).

(** The errors of the locals, moved out of the facts. *)
Definition locals_result (r : SemanticResult) : outcome Error SemanticResult :=
  '(error, v) ← take_field "variables_error" (facts r);
  match error with
  | Some error =>
      e ← result_outcome (ok_or (decode_api_error error) (json_failure error));
      unwrap_or_panic (with_error "variables_error" e (r <| facts := v |>))
  | None => Done (r <| facts := v |>)
  end.

Definition view_result (view : string) (r : SemanticResult) : outcome Error SemanticResult :=
  if bool_decide (view = "source") then
    Done (r <| metadata := metadata r <| semantics := semantics (metadata r) <| sem_complete := true |> |> |>)
  else if bool_decide (view = "locals") then locals_result r
  else if bool_decide (view = "stack") then compact_stack_variable_errors false r
  else if bool_decide (view = "threads") then compact_stack_variable_errors true r
  else Done r.

Definition CRASH_SOURCE : Value :=
  Object [("provider", Str "userland-security"); ("version", Str "1.0.0");
          ("mechanism", Str "bounded-stop-snapshot")].

Definition crash_view (snapshot : handler SemanticResult) (request : ApiRequest) : handler SemanticResult :=
  r ← snapshot;
  session ← check (required_session request);
  e ← entry session;
  state ← hdo Hop.State;
  v ← run (put "crash_signature" (Str (crash_signature (sha256 env) state)) (facts r));
  v ← run (put "source" CRASH_SOURCE v);
  mret (r <| facts := v |>).

Definition plain_view (view : string) (request : ApiRequest) : handler SemanticResult :=
  v ← inspection_get request;
  session ← check (required_session request);
  context ← (if bool_decide (Json.get "historical" v = Some (Bool true))
             then check (observation_context_from_observation (decode_error env) v)
             else
               e ← entry session;
               state ← hdo Hop.State;
               check (observation_context (req_parameters request) state));
  run (view_result view (semantic_read v context session)).

(** A view, a crash view being a snapshot whose reads are views again. *)
Fixpoint inspection_result (rounds : nat) (request : ApiRequest) : handler SemanticResult :=
  match rounds with
  | 0 => local out_of_fuel
  | S rounds =>
      view ← check (text_parameter (req_parameters request) "view");
      if bool_decide (view = "evaluate") then evaluate_value request
      else if bool_decide (view = "crash") then
        crash_view (inspection_snapshot (inspection_result rounds) request) request
      else plain_view view request
  end.

(** A request, the snapshot of its crash view, and the views of that. *)
Definition ROUNDS : nat := 2.

End snapshots.
