(* ===== verification/Execution.v ===== *)
(** * Execution: breakpoints, signals and control of the target
    ([crates/gdb-ai-core/src/gateway/operations/execution.rs], with
    [breakpoint_location] and the waits of [context.rs])

    A request that resumes the target records an operation, sends one command,
    feeds the inferior's input, waits, and attaches the observations that were
    asked for; breakpoints are created in the scope and at the location a
    request names, and every change is read back from GDB's own listing. *)
From S2P Require Import Prelude Text MiAst Json Errors Domain Backend Normalize Ring Policy Protocol Wait Effects Program Actor Requests Wire Results Config Gateway Encoding Context MiView Handle Memory Observed Observations Environment Providers Reconcile Inspection Snapshots.

(** ** Locations of breakpoints *)

(** [location] of the parameters, or the parameters themselves. *)
Definition location_of (parameters : Value) : Value := default parameters (Json.get "location" parameters).

Definition located (parameters : Value) : Result Error string :=
  let location := location_of parameters in
  match Json.get "function" location ≫= Json.as_str with
  | Some function => Ok function
  | None =>
      match Json.get "address" location ≫= Json.as_str with
      | Some address => _ ← Address_parse address; Ok ("*" +:+ address)
      | None =>
          match Json.get "expression" location ≫= Json.as_str with
          | Some expression => Ok expression
          | None =>
              match Json.get "module_offset" location with
              | Some m =>
                  module ← text_parameter m "module";
                  offset ← text_parameter m "offset";
                  Ok (module +:+ "+" +:+ offset)
              | None => Err (Memory.invalid "breakpoint location is required")
              end
          end
      end
  end.

(** The handles a breakpoint is limited to, as options of its command. *)
Definition scope_to (flag : string) (backend : option (Result Error string)) (c : MiCommand)
    : Result Error MiCommand :=
  match backend with
  | Some backend => backend ← backend; option_pair flag backend c
  | None => Ok c
  end.

Definition current_backend_inferior (state : SessionState) (inferior : string) : Result Error string :=
  ok_or (inf_backend_id <$>
           List.find (fun i => bool_decide (inf_id i = inferior)) (btree_values (inferiors state)))
    (Error_new Code.StaleContext "inferior handle is not current").

Definition breakpoint_scope (c : MiCommand) (parameters : Value) (state : SessionState)
    : Result Error MiCommand :=
  let thread := Json.get "thread_id" parameters ≫= Json.as_str in
  let inferior := Json.get "inferior_id" parameters ≫= Json.as_str in
  _ ← (if (bool_decide (is_Some thread) || bool_decide (is_Some inferior)) &&
          negb (bool_decide (command_name c = bytes_of "-break-insert"))
       then Err (Error_new Code.CapabilityMissing
                   "this GDB target only supports scoped software or hardware breakpoints")
       else Ok tt);
  c ← scope_to "-p" (current_backend_thread state <$> thread) c;
  scope_to "--thread-group" (current_backend_inferior state <$> inferior) c.

(** ** Commands that create breakpoints *)

Definition catchpoint_command (kind : string) : Result Error MiCommand :=
  if bool_decide (kind ∈ ["throw"; "catch"; "load"; "unload"]) then
    MiCommand_new (bytes_of ("-catch-" +:+ kind))
  else if bool_decide (kind ∈ ["exec"; "fork"; "vfork"; "syscall"]) then
    c ← MiCommand_new (bytes_of "-interpreter-exec");
    c ← bare c (bytes_of "console");
    Ok (string_argument c (bytes_of ("catch " +:+ kind)))
  else Err (Memory.invalid "unsupported catchpoint kind").

Definition bare_when (b : bool) (argument : string) (c : MiCommand) : Result Error MiCommand :=
  if b then bare c (bytes_of argument) else Ok c.

Definition WATCHPOINTS : list string := ["watchpoint"; "read_watchpoint"; "access_watchpoint"].
Definition LOCATION_KINDS : list string := ["software"; "hardware"; "temporary"; "instruction"].

Definition watch_command (kind : string) : Result Error MiCommand :=
  c ← MiCommand_new (bytes_of "-break-watch");
  c ← bare_when (bool_decide (kind = "read_watchpoint")) "-r" c;
  bare_when (bool_decide (kind = "access_watchpoint")) "-a" c.

Definition wants_hardware (kind : string) (parameters : Value) : bool :=
  bool_decide (kind = "hardware") ||
  match Json.get "hardware" parameters with
  | Some v => bool_decide (Json.as_bool v = Some true) || bool_decide (Json.as_str v = Some "required")
  | None => false
  end.

Definition insert_command (kind : string) (parameters : Value) : Result Error MiCommand :=
  c ← MiCommand_new (bytes_of "-break-insert");
  c ← bare_when (bool_decide (kind = "temporary") || bool_value parameters "temporary" false) "-t" c;
  c ← bare_when (wants_hardware kind parameters) "-h" c;
  c ← bare_when (bool_value parameters "pending" true) "-f" c;
  c ← match Json.get "condition" parameters ≫= Json.as_str with
      | Some condition => c ← bare c (bytes_of "-c"); Ok (string_argument c (bytes_of condition))
      | None => Ok c
      end;
  match Json.get "ignore_count" parameters ≫= Json.as_u64 with
  | Some ignore => option_pair "-i" (dec ignore) c
  | None => Ok c
  end.

(** The command for a kind, and whether a location belongs to it. *)
Definition creation_command (kind : string) (parameters : Value) : Result Error (MiCommand * bool) :=
  if bool_decide (kind ∈ WATCHPOINTS) then c ← watch_command kind; Ok (c, true)
  else if bool_decide (kind = "catchpoint") then
    catch ← text_parameter parameters "catch";
    c ← catchpoint_command catch;
    Ok (c, false)
  else if bool_decide (kind ∈ LOCATION_KINDS) then c ← insert_command kind parameters; Ok (c, true)
  else Err (Memory.invalid "unsupported breakpoint kind").

(** ** Signals *)

Definition valid_signal_name (signal : string) : bool :=
  match strip_prefix (bytes_of "SIG") (bytes_of signal) with
  | Some name =>
      negb (bool_decide (name = [])) && forallb (fun c => is_ascii_upper c || is_ascii_digit c) name
  | None => false
  end.

(** [Deserialize] of a structure of three booleans, by name or in order. *)
Definition policy_of (stop print pass : option Value) : option SignalPolicyState :=
  stop ← (stop ≫= Json.as_bool); print ← (print ≫= Json.as_bool); pass ← (pass ≫= Json.as_bool);
  Some (MkSignalPolicyState stop print pass).

Definition decode_signal_policy (v : Value) : option SignalPolicyState :=
  match v with
  | Object fields => policy_of (assoc "stop" fields) (assoc "print" fields) (assoc "pass" fields)
  | Array [stop; print; pass] => policy_of (Some stop) (Some print) (Some pass)
  | _ => None
  end.

Fixpoint decode_policies (decode_error : Value -> string) (l : list (string * Value))
    : Result Error (gmap string SignalPolicyState) :=
  match l with
  | [] => Ok ∅
  | (signal, v) :: rest =>
      _ ← (if valid_signal_name signal then Ok tt
           else Err (Memory.invalid ("invalid signal name " +:+ signal)));
      policy ← ok_or (decode_signal_policy v) (Memory.invalid (decode_error v));
      m ← decode_policies decode_error rest;
      Ok (<[signal := policy]> m)
  end.

Definition requested_policies (decode_error : Value -> string) (parameters : Value)
    : Result Error (gmap string SignalPolicyState) :=
  policies ← ok_or (Json.get "signals" parameters ≫= Json.as_object)
               (Memory.invalid "signals object is required");
  _ ← (if bool_decide (policies = []) || (64 <? lenN policies)%N
       then Err (Memory.invalid "signals must contain 1 to 64 entries") else Ok tt);
  decode_policies decode_error policies.

Definition bool_text (b : bool) : string := if b then "true" else "false".
Definition or_no (b : bool) (word : string) : string := if b then word else "no" +:+ word.

Definition signal_command (extension : bool) (signal : string) (p : SignalPolicyState)
    : Result Error MiCommand :=
  if extension then
    c ← MiCommand_new (bytes_of "-gdb-ai-signal-policy");
    c ← bare c (bytes_of signal);
    c ← bare c (bytes_of (bool_text (sig_stop p)));
    c ← bare c (bytes_of (bool_text (sig_print p)));
    bare c (bytes_of (bool_text (sig_pass p)))
  else
    c ← MiCommand_new (bytes_of "-interpreter-exec");
    c ← bare c (bytes_of "console");
    Ok (string_argument c (bytes_of ("handle " +:+ signal +:+ " " +:+ or_no (sig_stop p) "stop" +:+ " " +:+
          or_no (sig_print p) "print" +:+ " " +:+ or_no (sig_pass p) "pass"))).

Definition policies_value (m : gmap string SignalPolicyState) : Value := map_value signal_policy_value m.

(** What was applied before a command failed. *)
Definition partially_applied (applied : gmap string SignalPolicyState) (e : Error) : Error :=
  with_details (Object [("partial", Bool (negb (bool_decide (applied = ∅))));
                        ("applied", policies_value applied)]) e.

(** ** Waits *)

Definition until_of (name : string) : option Until.WaitUntil :=
  if bool_decide (name = "running") then Some Until.Running
  else if bool_decide (name = "stopped") then Some Until.Stopped
  else if bool_decide (name = "settled") then Some Until.Settled
  else if bool_decide (name = "snapshot") then Some Until.Snapshot
  else if bool_decide (name = "exited") then Some Until.Exited
  else None.

Definition wait_from_baseline (until : Until.WaitUntil) (timeout : N) (baseline : option WaitBaseline)
    (expected_execution_epoch : option N) : handler SessionState :=
  match baseline, expected_execution_epoch with
  | Some baseline, Some epoch => wait_for_operation until timeout baseline epoch
  | Some baseline, None => wait_after_baseline until timeout baseline
  | None, _ => Handle.wait until timeout
  end.

Definition apply_wait_baseline (w : WaitSpec) (baseline : option WaitBaseline)
    (expected_execution_epoch : option N) : handler SessionState :=
  _ ← check (validate_wait w);
  if bool_decide (spec_until w = "accepted") then hdo Hop.State
  else
    until ← check (ok_or (until_of (spec_until w)) (Memory.invalid "unknown wait condition"));
    wait_from_baseline until (spec_timeout_ms w) baseline expected_execution_epoch.

Definition apply_wait (w : WaitSpec) (baseline : option SessionState) : handler SessionState :=
  apply_wait_baseline w (WaitBaseline_of <$> baseline) None.

(** ** Operation records *)

Definition operation_status_wire (s : Op.OperationStatus) : string :=
  screaming_snake_case match s with
  | Op.Accepted => "Accepted" | Op.WaitingForState => "WaitingForState" | Op.Completed => "Completed"
  | Op.TimedOut => "TimedOut" | Op.Cancelled => "Cancelled" | Op.Failed => "Failed"
  end.

Definition baseline_value (b : WaitBaseline) : Value :=
  Object [("event_seq", uint (wb_event_seq b)); ("execution_epoch", uint (wb_execution_epoch b));
          ("stop_id", nullable Str (wb_stop_id b));
          ("terminal_inferiors", strings_value (btree_strings (wb_terminal_inferiors b)));
          ("terminal_inferior_generations", map_value uint (wb_terminal_inferior_generations b))].

Definition operation_value (o : OperationRecord) : Value :=
  Object [("operation_id", Str (op_id o)); ("session_id", Str (op_session_id o)); ("kind", Str (op_kind o));
          ("status", Str (operation_status_wire (op_status o)));
          ("created_revision", uint (op_created_revision o));
          ("wait_baseline", nullable baseline_value (op_wait_baseline o));
          ("expected_execution_epoch", nullable uint (op_expected_execution_epoch o));
          ("accepted_event_seq", nullable uint (op_accepted_event_seq o));
          ("completed_event_seq", nullable uint (op_completed_event_seq o));
          ("error", nullable Str (op_error o))].

Definition accepted_operation (ulid session action : string) (state : SessionState) : OperationRecord :=
  MkOperationRecord ("op_" +:+ short_ulid ulid) session ("execution." +:+ action) Op.Accepted
    (revision state) (Some (WaitBaseline_of state))
    (Some (u64_wrapping_add (execution_epoch state) (if bool_decide (action = "interrupt") then 0 else 1)))
    None None None.

#[export] Instance OperationRecord_updatable : Updatable OperationRecord := fun o =>
  MkOperationRecord (op_id o) (op_session_id o) (op_kind o) (op_status o) (op_created_revision o)
    (op_wait_baseline o) (op_expected_execution_epoch o) (op_accepted_event_seq o)
    (op_completed_event_seq o) (op_error o).

Definition ended (status : Op.OperationStatus) (event_seq : N) (o : OperationRecord) : OperationRecord :=
  o <| op_status := status |> <| op_completed_event_seq := Some event_seq |>.

Definition failed_with (e : Error) (event_seq : N) (o : OperationRecord) : OperationRecord :=
  ended Op.Failed event_seq (o <| op_error := Some (error_display e) |>).

Section execution.
Context (env : Environment).
Local Notation limits := (limits env).
Local Notation base64_encode := (base64_encode env).
Local Notation base64_decode := (base64_decode env).
Local Notation decode_error := (decode_error env).
Local Notation command := (command (command_timeout env)).

(** ** Breakpoints *)

(** Older GDB releases set module breakpoints only on stopped, mapped targets. *)
Definition rebinding_unsupported (c : Results.SessionCapabilities) : bool :=
  bool_decide (cap_status <$> sc_capabilities c !! "module_offset_rebinding" = Some Cap.Unsupported).

Definition has_running (state : SessionState) : bool :=
  existsb (fun i => bool_decide (inf_status i = Inferior.Running)) (btree_values (inferiors state)).

Definition module_location (parameters m : Value) (state : SessionState)
    : handler (string * option (string * N)) :=
  module ← check (text_parameter m "module");
  text ← check (text_parameter m "offset");
  address ← check (Address_parse text);
  offset ← check (ok_or (from_str_radix U64_MAX 16 (drop 2 (bytes_of address)))
                    (Memory.invalid "invalid module offset"));
  capabilities ← hdo Hop.Capabilities;
  let strict := rebinding_unsupported capabilities in
  _ ← check (if strict && has_running state
             then Err (Error_new Code.CapabilityMissing
                         "this GDB requires a stopped target for module-offset breakpoints")
             else Ok tt);
  live ← live_module_offset state module offset;
  match live with
  | Some address => mret ("*" +:+ address, Some (module, offset))
  | None =>
      _ ← check (if strict
                 then Err (Error_new Code.CapabilityMissing
                        "this GDB requires the module to be mapped before setting a module-offset breakpoint")
                 else Ok tt);
      location ← check (located parameters);
      mret (location, Some (module, offset))
  end.

(** [Gateway::breakpoint_location]. *)
Definition breakpoint_location (parameters : Value) (state : SessionState)
    : handler (string * option (string * N)) :=
  let location := location_of parameters in
  match Json.get "source" location with
  | Some source =>
      requested ← check (text_parameter source "path");
      path ← workspace_path (security env) (debug_text env) requested false;
      line ← check (unsigned source "line");
      mret (path +:+ ":" +:+ dec line, None)
  | None =>
      match Json.get "module_offset" location with
      | Some m => module_location parameters m state
      | None => location ← check (located parameters); mret (location, None)
      end
  end.

(** A breakpoint by its number, or by its handle in the current registry. *)
Definition backend_breakpoint (parameters : Value) : handler string :=
  match Json.get "backend_number" parameters ≫= Json.as_str with
  | Some number => mret number
  | None =>
      public ← check (text_parameter parameters "breakpoint_id");
      state ← hdo Hop.State;
      check (ok_or (bp_backend_number <$>
                      List.find (fun b => bool_decide (bp_id b = public)) (btree_values (breakpoints state)))
               (Error_new Code.NotFound "breakpoint not found"))
  end.

(** The command to send and, for a module that may move, its template. *)
Definition place_breakpoint (c : MiCommand) (parameters : Value) (state : SessionState)
    (needs_location : bool) : handler (MiCommand * option ((string * N) * MiCommand)) :=
  if needs_location then
    '(location, unresolved) ← breakpoint_location parameters state;
    mret (string_argument c (bytes_of location), (fun m => (m, c)) <$> unresolved)
  else mret (c, None).

Definition adopt_inserted (reply : CommandReply) : handler unit :=
  match find (record_results (cr_record reply)) "bkpt" ≫= value_results with
  | Some fields => synchronize_breakpoint fields
  | None => mret tt
  end.

(** A module breakpoint is rebound when its module moves. *)
Definition remember_module (reply : CommandReply) (pending : option ((string * N) * MiCommand))
    : handler unit :=
  match pending with
  | Some ((module, offset), template) =>
      number ← check (breakpoint_number (cr_record reply));
      state ← hdo Hop.State;
      match breakpoints state !! number with
      | Some b =>
          register_pending_module_breakpoint
            (MkPendingModuleBreakpoint (bp_id b) number module offset (bp_enabled b) template)
      | None => mret tt
      end
  | None => mret tt
  end.

Definition breakpoint_create (request : ApiRequest) : handler Value :=
  let parameters := req_parameters request in
  session ← check (required_session request);
  _ ← entry session;
  let kind := default "software" (Json.get "kind" parameters ≫= Json.as_str) in
  '(c, needs_location) ← check (creation_command kind parameters);
  state ← hdo Hop.State;
  c ← check (breakpoint_scope c parameters state);
  '(c, pending) ← place_breakpoint c parameters state needs_location;
  reply ← command c;
  _ ← adopt_inserted reply;
  _ ← remember_module reply pending;
  state ← hdo Hop.State;
  let inserted := ok (breakpoint_number (cr_record reply)) ≫= fun number => breakpoints state !! number in
  mret (Object [("command", reply_value reply); ("breakpoint", nullable breakpoint_value inserted);
                ("breakpoints", breakpoints_value state)]).

(** The commands of a patch, in order; the first failure ends it. *)
Definition patch_commands (number : string) (parameters : Value) : list (Result Error MiCommand) :=
  let on name := c ← MiCommand_new (bytes_of name); bare c (bytes_of number) in
  option_list ((fun enabled : bool => on (if enabled then "-break-enable" else "-break-disable")) <$>
                 (Json.get "enabled" parameters ≫= Json.as_bool)) ++
  option_list ((fun condition => c ← on "-break-condition"; Ok (string_argument c (bytes_of condition))) <$>
                 (Json.get "condition" parameters ≫= Json.as_str)) ++
  option_list ((fun ignore => c ← on "-break-after"; bare c (bytes_of (dec ignore))) <$>
                 (Json.get "ignore_count" parameters ≫= Json.as_u64)).

Fixpoint run_commands (cs : list (Result Error MiCommand)) : handler (list CommandReply) :=
  match cs with
  | [] => mret []
  | c :: rest =>
      c ← check c;
      reply ← command c;
      replies ← run_commands rest;
      mret (reply :: replies)
  end.

Definition PATCH_FIELDS : list string := ["enabled"; "condition"; "ignore_count"].

Definition no_patch : Error :=
  Memory.invalid "breakpoint.update requires enabled, condition, or ignore_count".

Definition breakpoint_update (request : ApiRequest) : handler Value :=
  let parameters := req_parameters request in
  session ← check (required_session request);
  _ ← entry session;
  number ← backend_breakpoint parameters;
  _ ← check (if existsb (fun field => bool_decide (is_Some (Json.get field parameters))) PATCH_FIELDS
             then Ok tt else Err no_patch);
  update ← attempt (run_commands (patch_commands number parameters));
  c ← check list_breakpoints;
  listed ← attempt (command c);
  _ ← (match listed with
       | Ok reply => reconcile_breakpoints (cr_record reply)
       | Err _ => mret tt
       end);
  replies ← check update;
  listed ← check listed;
  state ← hdo Hop.State;
  mret (Object [("command", nullable reply_value (last replies));
                ("commands", Array (reply_value <$> replies));
                ("breakpoint", nullable breakpoint_value (breakpoints state !! number));
                ("breakpoints", breakpoints_value state);
                ("evidence_seq", uint (cr_evidence_seq listed))]).

Definition delete_breakpoint (number : string) : Result Error MiCommand :=
  c ← MiCommand_new (bytes_of "-break-delete"); bare c (bytes_of number).

(** The listing that is read back after a change, as facts. *)
Definition refreshed_listing : handler (Value * N) :=
  c ← check list_breakpoints;
  reply ← command c;
  _ ← reconcile_breakpoints (cr_record reply);
  state ← hdo Hop.State;
  mret (breakpoints_value state, cr_evidence_seq reply).

Definition breakpoint_delete (request : ApiRequest) : handler Value :=
  let parameters := req_parameters request in
  session ← check (required_session request);
  _ ← entry session;
  number ← backend_breakpoint parameters;
  state ← hdo Hop.State;
  let deleted := bp_id <$> breakpoints state !! number in
  c ← check (delete_breakpoint number);
  reply ← command c;
  '(listing, seq) ← refreshed_listing;
  mret (Object [("command", reply_value reply);
                ("deleted", Object [("breakpoint_id", nullable Str deleted); ("backend_number", Str number)]);
                ("breakpoints", listing); ("evidence_seq", uint seq)]).

Definition breakpoint_list (request : ApiRequest) : handler Value :=
  session ← check (required_session request);
  _ ← entry session;
  '(listing, seq) ← refreshed_listing;
  mret (Object [("breakpoints", listing); ("evidence_seq", uint seq)]).

(** ** Signals *)

Definition signal_get (request : ApiRequest) : handler Value :=
  session ← check (required_session request);
  _ ← entry session;
  state ← hdo Hop.State;
  mret (policies_value (signal_policies state)).

Fixpoint apply_policies (extension : bool) (l : list (string * SignalPolicyState))
    (applied : gmap string SignalPolicyState) : handler (gmap string SignalPolicyState) :=
  match l with
  | [] => mret applied
  | (signal, policy) :: rest =>
      c ← check (signal_command extension signal policy);
      reply ← attempt (command c);
      _ ← check (match reply with Ok _ => Ok tt | Err e => Err (partially_applied applied e) end);
      _ ← record_event (Event.SignalPolicyChanged signal policy);
      apply_policies extension rest (<[signal := policy]> applied)
  end.

Definition signal_update (request : ApiRequest) : handler Value :=
  let parameters := req_parameters request in
  session ← check (required_session request);
  _ ← entry session;
  policies ← check (requested_policies decode_error parameters);
  capabilities ← hdo Hop.Capabilities;
  let extension := bool_decide
    (cap_status <$> sc_capabilities capabilities !! "custom_extension" = Some Cap.Supported) in
  applied ← apply_policies extension (btree_iter policies) ∅;
  mret (Object [("signals", policies_value applied);
                ("mechanism", Str (if extension then "gdb-python-mi" else "controlled-console"))]).

(** ** Input and output of a turn *)

Definition input_too_long : Error :=
  Error_new Code.OutputLimit "inferior input is limited to 64 KiB per call".

Definition turn_input (parameters : Value) : Result Error (option bytes) :=
  match Json.get "input" parameters with
  | None => Ok None
  | Some input =>
      b ← input_bytes base64_decode input;
      if (MAX_INFERIOR_INPUT_BYTES <? lenN b)%N then Err input_too_long else Ok (Some b)
  end.

(** A count of an error's details. *)
Definition counted (name : string) (e : Error) : option N :=
  details ← err_details e; Json.get name details ≫= Json.as_u64.

(** What was written, and what an incomplete write reports. *)
Definition input_progress (requested : N) (result : Result Error N) : N * option Value :=
  match result with
  | Ok written => (written, None)
  | Err e =>
      let written := default 0%N (counted "written" e) in
      let remaining := default (requested - written)%N (counted "remaining" e) in
      (written, Some (Object [("written", uint written); ("remaining", uint remaining);
                              ("error", Object [("code", Str (code_wire (err_code e)));
                                                ("message", Str (err_message e));
                                                ("retryable", Bool (err_retryable e))])]))
  end.

Definition feed_inferior (input : option bytes) (timeout : N) : handler (option Value) :=
  match input with
  | None => mret None
  | Some b =>
      result ← attempt (write_inferior_with_timeout b false timeout);
      let '(written, report) := input_progress (lenN b) result in
      _ ← perform_when (0 <? written)%N (record_event (Event.ControllerChanged "inferior_input"));
      mret report
  end.

Definition append_input (input : option Value) (result : Value) : outcome Error Value :=
  match input with Some input => put "input" input result | None => Done result end.

Definition TURN_OUTPUT : nat := N.to_nat (4 * 1024).

Definition output_facts (read : RingRead) (stop : N) : Value :=
  Object (byte_content base64_encode (read_bytes read) ++
          [("source", Str "pty"); ("requested_offset", uint (requested_offset read));
           ("next_offset", uint (next_offset read))] ++
          (if gap read then [("gap", Bool true); ("available_from", uint (available_from read))] else []) ++
          (if (next_offset read <? stop)%N then [("truncated", Bool true)] else [])).

Definition append_turn_output (offset : N) (result : Value) : handler Value :=
  read ← read_output InferiorRing offset TURN_OUTPUT;
  if bool_decide (read_bytes read = []) then mret result
  else
    stop ← hdo Hop.OutputPosition;
    run (put "output" (output_facts read stop) result).

(** ** Observations of a stop *)

Definition STOPPING_WAITS : list string := ["stopped"; "settled"; "snapshot"].

Definition needs_stop : Error := Memory.invalid "inspect requires a stopped, settled, or snapshot wait".

Definition validate_turn_inspection (parameters : Value) (w : option WaitSpec) : outcome Error unit :=
  match Json.get "inspect" parameters with
  | None => Done tt
  | Some inspect =>
      if match w with Some w => bool_decide (spec_until w ∈ STOPPING_WAITS) | None => false end
      then validate_observation_requests (print env) inspect (memory_read_bytes limits)
      else Fail needs_stop
  end.

Definition has_flag (path : list string) (v : Value) : bool :=
  bool_decide (pointer path v = Some (Bool true)).

Definition put_all (l : list (string * Value)) (v : Value) : outcome Error Value :=
  foldl (fun acc kv => v ← acc; put kv.1 kv.2 v) (Done v) l.

Definition observed_facts (o : ObservationResult) : list (string * Value) :=
  (match oc_observation_id (ob_context o) with Some id => [("observation_id", Str id)] | None => [] end) ++
  [("observation_context", context_value (ob_context o)); ("observation_complete", Bool (ob_complete o));
   ("observations", map_value id (ob_results o));
   ("observation_availability", map_value availability_value (ob_availability o))] ++
  nonempty_list "observation_evidence" evidence_value (ob_evidence o).

(** A turn that was captured, in the answer of the execution before it. *)
Definition with_observation (o : ObservationResult) (r : SemanticResult) : outcome Error SemanticResult :=
  facts' ← put_all (observed_facts o) (facts r);
  r ← (let r := r <| facts := facts' |> in
       if bool_decide (ob_failures o = ∅) then Done r
       else unwrap_or_panic (with_failures "observation_failures" (ob_failures o) r));
  let m := metadata r in
  Done (r <| metadata :=
          MkResultMetadata
            (semantics m <| sem_context := Some (ob_context o) |>
                         <| sem_complete := sem_complete (semantics m) && ob_complete o |>)
            (ob_warnings o) (Results.truncated m || ob_truncated o) (Results.continuation m)
            (ob_artifacts o) (ob_evidence o) |>).

(** A capture that failed does not disguise the execution before it. *)
Definition with_observation_error (session : string) (e : Error) (r : SemanticResult)
    : outcome Error SemanticResult :=
  let error := api_error_of e in
  let m := metadata r in
  unwrap_or_panic (with_error "observation_error" error
    (r <| metadata :=
       MkResultMetadata (semantics m <| sem_complete := false |>) (Results.warnings m)
         (Results.truncated m) (Results.continuation m) (Results.artifacts m)
         (result_evidence session (api_error_value error)) |>)).

Definition incomplete (r : SemanticResult) : SemanticResult :=
  r <| metadata := metadata r <| semantics := semantics (metadata r) <| sem_complete := false |> |> |>.

(** The answer before any observation: complete unless output was lost. *)
Definition turn_answer (state : SessionState) (result : Value) : SemanticResult :=
  let r := semantic_new result (observation_context_from_state state) in
  let m := metadata r in
  r <| metadata :=
     MkResultMetadata (semantics m <| sem_complete := negb (has_flag ["output"; "gap"] result) |>)
       (Results.warnings m) (has_flag ["output"; "truncated"] result) (Results.continuation m)
       (Results.artifacts m) (Results.evidence m) |>.

Definition captured_stop (request : ApiRequest) (state : SessionState) (requests : Value)
    : handler ObservationResult :=
  session ← check (required_session request);
  e ← entry session;
  capture_observations env (inspection_result env ROUNDS) request e state requests true.

Definition append_stop_observations (request : ApiRequest) (state : SessionState) (result : Value)
    : handler SemanticResult :=
  let response := turn_answer state result in
  match Json.get "inspect" (req_parameters request) with
  | None => mret response
  | Some requests =>
      match stop_id state with
      | None =>
          facts' ← run (put_all [("observation_status", Str "not_collected");
                                 ("observation_complete", Bool false)] (facts response));
          mret (incomplete (response <| facts := facts' |>))
      | Some stop =>
          facts' ← run (put "stop_id" (Str stop) (facts response));
          let response := response <| facts := facts' |> in
          observation ← attempt (captured_stop request state requests);
          r ← run (match observation with
                   | Ok o => with_observation o response
                   | Err e => with_observation_error (session_id state) e response
                   end);
          mret (observation_details r)
      end
  end.

(** ** Execution control *)

Definition ACTIONS : list (string * string) :=
  [("continue", "-exec-continue"); ("interrupt", "-exec-interrupt"); ("step", "-exec-step");
   ("next", "-exec-next"); ("finish", "-exec-finish");
   ("step_instruction", "-exec-step-instruction"); ("next_instruction", "-exec-next-instruction")].

Definition action_command (action : string) (parameters : Value) : Result Error MiCommand :=
  match assoc action ACTIONS with
  | Some name => MiCommand_new (bytes_of name)
  | None =>
      if bool_decide (action = "until") then
        c ← MiCommand_new (bytes_of "-exec-until");
        location ← text_parameter parameters "location";
        Ok (string_argument c (bytes_of location))
      else Err (Memory.invalid "unsupported execution action")
  end.

Definition event_seq_now : handler N := state ← hdo Hop.State; mret (event_seq state).

(** The failure is recorded with the operation before it is reported. *)
Definition fail_operation {A} (o : OperationRecord) (e : Error) : handler A :=
  seq ← event_seq_now;
  _ ← record_operation (failed_with e seq o);
  check (Err e).

Definition settled_by_nothing : Error :=
  Error_new Code.Internal "settled wait completed without a stop or exit".

Definition settled_facts (report : bool) (state : SessionState) (baseline : option WaitBaseline)
    : Result Error (list (string * Value)) :=
  if report then by_ ← ok_or (settled_by state baseline) settled_by_nothing; Ok [("settled_by", Str by_)]
  else Ok [].

(** The wait was answered: the operation is complete whatever follows. *)
Definition finish_waited (request : ApiRequest) (e : SessionEntry) (offset : N) (input : option Value)
    (w : WaitSpec) (o : OperationRecord) (reply : CommandReply) (state : SessionState)
    : handler SemanticResult :=
  _ ← record_operation (ended Op.Completed (event_seq state) o);
  settled ← check (settled_facts (bool_decide (spec_until w = "settled")) state (op_wait_baseline o));
  let asynchronous := bool_decide (spec_until w ∈ ["accepted"; "running"]) in
  let result := Object ((if asynchronous then [("operation_id", Str (op_id o))] else []) ++ settled) in
  result ← run (append_input input result);
  result ← append_turn_output offset result;
  r ← append_stop_observations request state result;
  mret (with_command (se_id e) "command" reply
          (detail "wait_status" (Str "COMPLETED")
             (detail "operation_id" (Str (op_id o)) (with_state "state" state r)))).

Definition finish_timed_out (e : SessionEntry) (offset : N) (input : option Value)
    (o : OperationRecord) (reply : CommandReply) : handler SemanticResult :=
  state ← hdo Hop.State;
  _ ← record_operation (ended Op.TimedOut (event_seq state) o);
  let result := Object [("operation_id", Str (op_id o)); ("wait_status", Str "TIMEOUT");
                        ("can_interrupt", Bool true)] in
  result ← run (append_input input result);
  result ← append_turn_output offset result;
  mret (incomplete (with_command (se_id e) "command" reply
                      (with_state "target_state" state (semantic_read result None (se_id e))))).

Definition finish_accepted (e : SessionEntry) (input : option Value) (o : OperationRecord)
    (reply : CommandReply) : handler SemanticResult :=
  seq ← event_seq_now;
  _ ← record_operation (ended Op.Completed seq o);
  result ← run (append_input input
                  (Object [("operation_id", Str (op_id o)); ("wait_status", Str "ACCEPTED")]));
  state ← hdo Hop.State;
  mret (with_command (se_id e) "command" reply (with_state "state" state (semantic_new result None))).

(** From the accepted command on. *)
Definition follow_execution (request : ApiRequest) (e : SessionEntry) (offset : N) (input : option bytes)
    (w : option WaitSpec) (state : SessionState) (o : OperationRecord) (reply : CommandReply)
    : handler SemanticResult :=
  input ← feed_inferior input (match w with Some w => spec_timeout_ms w | None => wait_timeout env end);
  match w with
  | None => finish_accepted e input o reply
  | Some w =>
      let o := o <| op_status := Op.WaitingForState |> in
      _ ← record_operation o;
      waited ← attempt (apply_wait w (Some state));
      match waited with
      | Ok state => finish_waited request e offset input w o reply state
      | Err error =>
          if bool_decide (err_code error = Code.Timeout) then finish_timed_out e offset input o reply
          else fail_operation o error
      end
  end.

Definition send_action (action : string) (c : MiCommand) : handler CommandReply :=
  if bool_decide (action = "interrupt") then interrupt (command_timeout env) c else command c.

Definition interrupt_input : Error := Memory.invalid "interrupt does not accept inferior input".

Definition execution_control (request : ApiRequest) : handler SemanticResult :=
  let parameters := req_parameters request in
  action ← check (text_parameter parameters "action");
  w ← check (wait_spec decode_error parameters);
  _ ← run (validate_turn_inspection parameters w);
  input ← check (turn_input parameters);
  _ ← check (if bool_decide (action = "interrupt") && bool_decide (is_Some input)
             then Err interrupt_input else Ok tt);
  session ← check (required_session request);
  e ← entry session;
  offset ← hdo Hop.OutputPosition;
  state ← hdo Hop.State;
  ulid ← hdo Hop.NewUlid;
  let o := accepted_operation ulid (se_id e) action state in
  _ ← record_operation o;
  c ← check (action_command action parameters);
  c ← check (context_options c parameters state);
  reply ← attempt (send_action action c);
  match reply with
  | Err error => fail_operation o error
  | Ok reply =>
      follow_execution request e offset input w state
        (o <| op_accepted_event_seq := Some (cr_evidence_seq reply) |>) reply
  end.

(** ** Waiting for an execution *)

Definition find_operation (parameters : Value) : handler (option OperationRecord) :=
  match Json.get "operation_id" parameters ≫= Json.as_str with
  | Some id => o ← operation id; mret (Some o)
  | None => mret None
  end.

Definition foreign_operation : Error :=
  Error_new Code.NotFound "operation does not belong to this session".
Definition no_wait : Error := Memory.invalid "wait parameters are required".
Definition predates (what : string) : Error :=
  Error_new Code.InvalidState ("operation predates attributable " +:+ what +:+ " state").

(** An operation's wait needs the baseline and the epoch it was created with. *)
Definition operation_fence (o : option OperationRecord)
    : Result Error (option WaitBaseline * option N) :=
  match o with
  | None => Ok (None, None)
  | Some o =>
      baseline ← ok_or (op_wait_baseline o) (predates "wait");
      epoch ← ok_or (op_expected_execution_epoch o) (predates "execution");
      Ok (Some baseline, Some epoch)
  end.

Definition complete_operation (state : SessionState) (o : option OperationRecord)
    : handler (option OperationRecord) :=
  match o with
  | None => mret None
  | Some o =>
      let o := ended Op.Completed (event_seq state) o in
      _ ← record_operation o; mret (Some o)
  end.

Definition execution_wait (request : ApiRequest) : handler SemanticResult :=
  let parameters := req_parameters request in
  input ← check (turn_input parameters);
  session ← check (required_session request);
  e ← entry session;
  offset ← hdo Hop.OutputPosition;
  o ← find_operation parameters;
  _ ← check (match o with
             | Some o => if bool_decide (op_session_id o = se_id e) then Ok tt else Err foreign_operation
             | None => Ok tt
             end);
  w ← check (wait_spec decode_error parameters);
  w ← check (ok_or w no_wait);
  _ ← run (validate_turn_inspection parameters (Some w));
  input ← feed_inferior input (spec_timeout_ms w);
  '(baseline, epoch) ← check (operation_fence o);
  state ← apply_wait_baseline w baseline epoch;
  settled ← check (settled_facts (bool_decide (spec_until w = "settled")) state baseline);
  o ← complete_operation state o;
  result ← run (append_input input (Object []));
  result ← append_turn_output offset result;
  result ← run (put_all settled result);
  r ← append_stop_observations request state result;
  mret (detail "operation" (nullable operation_value o) (with_state "state" state r)).

End execution.
