(* ===== verification/Targets.v ===== *)
(** * Targets: launching, attaching and ending targets
    ([crates/gdb-ai-core/src/gateway/operations/lifecycle.rs], with
    [TemporaryBreakpoint] of [agent.rs])

    A launch validates its whole request before the first command, quotes the
    arguments for the shell that starts the program, and runs or stops the
    target as its policy says; an attach names an allowed process and confirms
    its identity before and after GDB attaches.  Files, processes and the
    environment of the host answer through the operations of the handle's
    signature. *)
From S2P Require Import Prelude Text MiAst Json Errors Domain Backend Normalize Policy Protocol Wait Effects Program Actor Requests Wire Results Config Gateway Encoding Context MiView Handle Memory Environment Inspection Reconcile Snapshots Execution.

(** ** Start policies *)

Inductive StartPolicy := FirstInstruction | Main | NoStop.

#[export] Instance StartPolicy_eq_dec : EqDecision StartPolicy.
Proof. solve_decision. Defined.

Definition START_POLICIES : list (string * StartPolicy) :=
  [("first_instruction", FirstInstruction); ("entry", FirstInstruction); ("main", Main); ("none", NoStop)].

(** [Deserialize] of an enumeration of unit variants. *)
Definition decode_start_policy (v : Value) : option StartPolicy :=
  match v with
  | Str s => assoc s START_POLICIES
  | Object [(s, Null)] => assoc s START_POLICIES
  | _ => None
  end.

Definition console_text (text : string) : Result Error MiCommand :=
  c ← MiCommand_new (bytes_of "-interpreter-exec");
  with_arguments [BareArgument "console"; QuotedArgument text] c.

Definition plain_command (name : string) (arguments : list string) : Result Error MiCommand :=
  c ← MiCommand_new (bytes_of name);
  with_arguments (BareArgument <$> arguments) c.

Definition start_command (p : StartPolicy) : Result Error MiCommand :=
  match p with
  | FirstInstruction => console_text "starti"
  | Main => plain_command "-exec-run" ["--start"]
  | NoStop => plain_command "-exec-run" []
  end.

Definition start_policy_text (p : StartPolicy) : string :=
  match p with FirstInstruction => "first_instruction" | Main => "main" | NoStop => "none" end.

Definition default_wait (p : StartPolicy) (timeout_ms : N) (inspect : bool) : WaitSpec :=
  MkWaitSpec match p, inspect with
             | NoStop, true => "settled"
             | NoStop, false => "running"
             | _, _ => "snapshot"
             end timeout_ms.

(** ** Arguments and environment *)

Definition TEXT_LIMIT : N := 64 * 1024.
Definition NUL : ascii := "000"%char.
Definition QUOTE : ascii := "039"%char.

Definition validate_argv (arguments : list string) : Result Error unit :=
  if (256 <? lenN arguments)%N ||
     existsb (fun a => (TEXT_LIMIT <? lenN (bytes_of a))%N || bool_decide (NUL ∈ bytes_of a)) arguments
  then Err (Error_new Code.OutputLimit "argv exceeds 256 entries or 64 KiB per argument")
  else Ok tt.

Definition is_ascii_alphabetic (c : ascii) : bool := is_ascii_upper c || is_ascii_lower c.
Definition is_underscore (c : ascii) : bool := (c =? "_")%char.

Definition valid_variable_name (name : bytes) : bool :=
  match name with
  | [] => false
  | c :: rest =>
      (is_ascii_alphabetic c || is_underscore c) &&
      forallb (fun c => is_ascii_alphanumeric c || is_underscore c) rest
  end.

Definition valid_variable (name value : string) : bool :=
  valid_variable_name (bytes_of name) && (lenN (bytes_of value) <=? TEXT_LIMIT)%N &&
  forallb (fun c => negb ((c =? NUL)%char || is_ascii_whitespace c || (c =? DQUOTE)%char)) (bytes_of value).

Section environment.
(** [{:?}] of a text. *)
Context (debug_text : string -> string).

Definition validate_environment (environment : gmap string string) : Result Error unit :=
  if (256 <? lenN (btree_iter environment))%N
  then Err (Error_new Code.OutputLimit "too many environment variables")
  else match List.find (fun kv => negb (valid_variable kv.1 kv.2)) (btree_iter environment) with
       | Some (name, _) => Err (invalid ("invalid environment entry " +:+ debug_text name))
       | None => Ok tt
       end.

Fixpoint inherit_variables (allowlist : list string) (m : gmap string string)
    : handler (gmap string string) :=
  match allowlist with
  | [] => mret m
  | name :: rest =>
      value ← hdo (Hop.EnvironmentVariable name);
      match value with
      | None => inherit_variables rest m
      | Some None =>
          check (Err (invalid ("inherited environment variable " +:+ debug_text name +:+ " is not UTF-8")))
      | Some (Some value) => inherit_variables rest (<[name := value]> m)
      end
  end.

Definition inherited_environment (allowlist : list string) : handler (gmap string string) :=
  inherit_variables allowlist ∅.
End environment.

(** One argument for the shell that starts the program: quoted, with every
    quote of its own outside the quotes. *)
Definition escape_quote (c : ascii) : bytes :=
  if (c =? QUOTE)%char then [QUOTE; BACKSLASH; QUOTE; QUOTE] else [c].

Definition shell_quoted (argument : string) : bytes :=
  [QUOTE] ++ (bytes_of argument ≫= escape_quote) ++ [QUOTE].

Definition set_args (arguments : list string) : bytes :=
  bytes_of "set args" ++ (arguments ≫= fun a => bytes_of " " ++ shell_quoted a).

(** ** Paths *)

Definition lossy (path : string) : string := string_of_chars (utf8_lossy (bytes_of path)).

(** [Path::parent]. *)
Definition parent_path (p : string) : option string :=
  match components p with
  | [] => None
  | c :: rest =>
      let kept := string_of (join_segments (reverse (drop_components 1 (reverse (segments (bytes_of p)))))) in
      Some (if bool_decide (kept = "") then
              if is_absolute p then "/"
              else if bool_decide (c = DOT) && negb (bool_decide (rest = [])) then "." else ""
            else kept)
  end.

Definition EXECUTE_BITS : N := 73.

Definition validate_launch_program (program : string) : handler unit :=
  mode ← hask (hdo (Hop.FileMode program));
  check (if (N.land mode EXECUTE_BITS =? 0)%N
         then Err (invalid ("program is not executable: " +:+ lossy program)) else Ok tt).

(** ** Parameters *)

(** The fields of a structure that is deserialized from an object, by name, or
    from a sequence, in order. *)
Definition structure_fields (names : list string) (v : Value) : option (string -> option Value) :=
  match v with
  | Object fields => Some (fun name => assoc name fields)
  | Array items =>
      if (length items <=? length names)%nat then Some (fun name => assoc name (zip names items)) else None
  | _ => None
  end.

Definition or_default {A} (decode : Value -> option A) (dflt : A) (v : option Value) : option A :=
  match v with Some v => decode v | None => Some dflt end.

Definition opt_decode {A} (decode : Value -> option A) (v : Value) : option (option A) :=
  match v with Null => Some None | _ => Some <$> decode v end.

Definition decode_texts (v : Value) : option (list string) :=
  items ← Json.as_array v; mapM Json.as_str items.

Definition decode_text_map (v : Value) : option (gmap string string) :=
  fields ← Json.as_object v;
  foldr (fun kv m => m ← m; s ← Json.as_str kv.2; Some (<[kv.1 := s]> m)) (Some ∅) fields.

Record LaunchParameters := MkLaunchParameters {
  lp_program : string;
  lp_argv : list string;
  lp_cwd : option string;
  lp_environment : gmap string string;
  lp_environment_mode : string;
  lp_aslr : string;
  lp_stop : StartPolicy;
  lp_follow_fork : string;
  lp_detach_on_fork : bool;
  lp_follow_exec : string;
  lp_wait : option WaitSpec;
  lp_breakpoints : list Value
}.

Definition LAUNCH_FIELDS : list string :=
  ["program"; "argv"; "cwd"; "environment"; "environment_mode"; "aslr"; "stop"; "follow_fork";
   "detach_on_fork"; "follow_exec"; "wait"; "breakpoints"].

Definition decode_launch (v : Value) : option LaunchParameters :=
  field ← structure_fields LAUNCH_FIELDS v;
  program ← or_default Json.as_str "" (field "program");
  argv ← or_default decode_texts [] (field "argv");
  cwd ← or_default (opt_decode Json.as_str) None (field "cwd");
  environment ← or_default decode_text_map ∅ (field "environment");
  environment_mode ← or_default Json.as_str "clean" (field "environment_mode");
  aslr ← or_default Json.as_str "preserve" (field "aslr");
  stop ← or_default decode_start_policy FirstInstruction (field "stop");
  follow_fork ← or_default Json.as_str "parent" (field "follow_fork");
  detach_on_fork ← or_default Json.as_bool true (field "detach_on_fork");
  follow_exec ← or_default Json.as_str "same-inferior" (field "follow_exec");
  wait ← or_default (opt_decode decode_wait) None (field "wait");
  breakpoints ← or_default Json.as_array [] (field "breakpoints");
  Some (MkLaunchParameters program argv cwd environment environment_mode aslr stop follow_fork
          detach_on_fork follow_exec wait breakpoints).

Record RestartParameters := MkRestartParameters {
  rp_stop : option StartPolicy; rp_stop_at_entry : option bool; rp_wait : option WaitSpec
}.

Definition decode_restart (v : Value) : option RestartParameters :=
  field ← structure_fields ["stop"; "stop_at_entry"; "wait"] v;
  stop ← or_default (opt_decode decode_start_policy) None (field "stop");
  stop_at_entry ← or_default (opt_decode Json.as_bool) None (field "stop_at_entry");
  wait ← or_default (opt_decode decode_wait) None (field "wait");
  Some (MkRestartParameters stop stop_at_entry wait).

Definition restart_policy (p : RestartParameters) : StartPolicy :=
  match rp_stop p with
  | Some stop => stop
  | None => match rp_stop_at_entry p with Some false => NoStop | _ => Main end
  end.

(** ** Temporary breakpoints *)

Record TemporaryBreakpoint := MkTemporaryBreakpoint {
  tb_operation_id : option OperationId;
  tb_breakpoint_id : option BreakpointId;
  tb_backend_number : option string
}.

Definition TemporaryBreakpoint_new (number : string) : TemporaryBreakpoint :=
  MkTemporaryBreakpoint None None (Some number).

Definition release (b : TemporaryBreakpoint) : TemporaryBreakpoint :=
  MkTemporaryBreakpoint (tb_operation_id b) None None.

Definition number_of_handle (state : SessionState) (id : BreakpointId) : option string :=
  bp_backend_number <$> List.find (fun b => bool_decide (bp_id b = id)) (btree_values (breakpoints state)).

Definition current_backend_number (b : TemporaryBreakpoint) : handler (option string) :=
  match tb_breakpoint_id b with
  | None => mret (tb_backend_number b)
  | Some id =>
      state ← hdo Hop.State;
      mret match number_of_handle state id with Some n => Some n | None => tb_backend_number b end
  end.

Definition already_deleted (number : string) (e : Error) : bool :=
  bool_decide (err_code e = Code.GdbError) &&
  bool_decide (err_message e = "No breakpoint number " +:+ number +:+ ".").

Section targets.
Context (env : Environment).
Local Notation command := (command (command_timeout env)).
Local Notation workspace_path := (workspace_path (security env) (debug_text env)).

(** A native temporary breakpoint may be gone after its hit. *)
Definition delete_probe_breakpoint (number : string) : handler unit :=
  c ← check (delete_breakpoint number);
  deleted ← attempt (cleanup_command (command_timeout env) c);
  _ ← check (match deleted with
             | Err e => if already_deleted number e then Ok tt else Err e
             | Ok _ => Ok tt
             end);
  state ← hdo Hop.State;
  perform_when (bool_decide (is_Some (breakpoints state !! number)))
    (record_event (Event.BreakpointDeleted number)).

(** [TemporaryBreakpoint::remove]: a deletion that fails leaves the breakpoint
    to its [Drop]. *)
Definition remove_temporary (b : TemporaryBreakpoint)
    : handler (TemporaryBreakpoint * Result Error unit) :=
  number ← current_backend_number b;
  match number with
  | None => mret (b, Ok tt)
  | Some number =>
      r ← attempt (delete_probe_breakpoint number);
      mret (match r with
            | Ok _ => MkTemporaryBreakpoint (tb_operation_id b) (tb_breakpoint_id b) None
            | Err _ => b
            end, r)
  end.

(** [Drop]: what is left of the breakpoint is deleted by a task of its own. *)
Definition drop_temporary (b : TemporaryBreakpoint) : handler unit :=
  number ← current_backend_number b;
  match number with
  | None => mret tt
  | Some number => hdo (Hop.SpawnCleanup (tb_operation_id b) number)
  end.

(** An operation whose task was dropped while it waited ends with the cleanup. *)
Definition cleaned_up (cleanup : Result Error unit) (seq : N) (o : OperationRecord) : OperationRecord :=
  ended (if is_ok cleanup then Op.Cancelled else Op.Failed) seq
    (o <| op_error := match cleanup with Err e => Some (error_display e) | Ok _ => None end |>).

(** That task. *)
Definition cleanup_task (operation_id : option OperationId) (number : string) : handler unit :=
  cleanup ← attempt (delete_probe_breakpoint number);
  match operation_id with
  | None => mret tt
  | Some id =>
      found ← attempt (operation id);
      match found with
      | Ok o =>
          if bool_decide (op_status o = Op.WaitingForState) then
            state ← hdo Hop.State;
            _ ← attempt (record_operation (cleaned_up cleanup (event_seq state) o));
            mret tt
          else mret tt
      | Err _ => mret tt
      end
  end.

(** ** Starting the target *)

(** What GDB says when [main] cannot be found. *)
Definition MISSING_MAIN : list bytes :=
  [bytes_of "Function " ++ [DQUOTE] ++ bytes_of "main" ++ [DQUOTE] ++ bytes_of " not defined.";
   bytes_of "No symbol table loaded.  Use the " ++ [DQUOTE] ++ bytes_of "file" ++ [DQUOTE] ++ bytes_of " command.";
   bytes_of "No symbol table is loaded.  Use the " ++ [DQUOTE] ++ bytes_of "file" ++ [DQUOTE] ++ bytes_of " command."].

Definition main_is_missing (policy : StartPolicy) (e : Error) : bool :=
  bool_decide (policy = Main) && bool_decide (err_code e = Code.GdbError) &&
  bool_decide (bytes_of (err_message e) ∈ MISSING_MAIN).

Definition is_entry_line (line : chars) : bool :=
  bool_decide (split_whitespace line !! 1 = Some (chars_of "AT_ENTRY")).

(** The entry point in the auxiliary vector GDB prints. *)
Definition program_entry_address (reply : CommandReply) : Result Error string :=
  let word := line ← List.find is_entry_line (lines (utf8_lossy (console_stream (cr_stream_records reply))));
              last (split_whitespace line) in
  match word with
  | Some word => Address_parse (string_of_chars word)
  | None => Err (Error_new Code.CapabilityMissing "GDB did not report ELF AT_ENTRY")
  end.

(** GDB labels the synthetic stop of [starti] as signal 0. *)
Definition at_first_instruction (state : SessionState) : bool :=
  match stop_reason_detail state with
  | Some (Reason.Signal (Some name) _) => bool_decide (name = "0")
  | _ => false
  end.

(** The policy's command, or its fallback when the program has no [main]. *)
Definition run_target (policy : StartPolicy) (setup : list MiCommand) : handler (CommandReply * bool) :=
  c ← check (start_command policy);
  started ← attempt (transaction (command_timeout env) setup c []);
  match started with
  | Err e =>
      if main_is_missing policy e then
        c ← check (start_command FirstInstruction);
        reply ← command c;
        mret (reply, true)
      else check (Err e)
  | Ok reply => mret (reply, false)
  end.

Definition ASYNCHRONOUS : list string := ["accepted"; "running"].

(** From the temporary breakpoint at the entry to the answer; a turn that does
    not wait leaves the breakpoint to GDB, which deletes it at its hit. *)
Definition leave_loader (number : string) (w : WaitSpec) (first : SessionState) : handler CommandReply :=
  let breakpoint := TemporaryBreakpoint_new number in
  resumed ← attempt (
    c ← check (plain_command "-exec-continue" []);
    reply ← command c;
    _ ← apply_wait_baseline w (Some (WaitBaseline_of first))
          (Some (u64_wrapping_add (execution_epoch first) 1));
    mret reply);
  let breakpoint := if is_ok resumed && bool_decide (spec_until w ∈ ASYNCHRONOUS)
                    then release breakpoint else breakpoint in
  '(breakpoint, cleanup) ← remove_temporary breakpoint;
  _ ← drop_temporary breakpoint;
  reply ← check resumed;
  _ ← check cleanup;
  mret reply.

(** From the loader's first instruction to the entry of the program. *)
Definition run_to_entry (address : string) (w : WaitSpec) (first : SessionState)
    : handler CommandReply :=
  c ← check (c ← plain_command "-break-insert" ["-t"]; Ok (string_argument c (bytes_of ("*" +:+ address))));
  inserted ← command c;
  number ← check (breakpoint_number (cr_record inserted));
  leave_loader number w first.

Definition no_startup_pc : Error := Error_new Code.GdbError "GDB omitted the startup PC".

Definition start_target (request : ApiRequest) (policy : StartPolicy) (setup : list MiCommand)
    (baseline : SessionState) (w : WaitSpec) : handler (CommandReply * SessionState * bool) :=
  '(reply, fallback) ← run_target policy setup;
  _ ← perform_when (bool_decide (req_method request = Method.TargetLaunch))
        (record_event (Event.TargetConfigured Origin.Local));
  let wait_baseline := WaitBaseline_of baseline in
  let next_epoch := u64_wrapping_add (execution_epoch baseline) 1 in
  let expected_epoch := if fallback || bool_decide (req_method request = Method.TargetRestart)
                        then Some next_epoch else None in
  let initial_wait :=
    state ← apply_wait_baseline w (Some wait_baseline) expected_epoch; mret (reply, state, fallback) in
  if negb fallback then initial_wait
  else
    first ← wait_for_operation Until.Stopped (spec_timeout_ms w) wait_baseline next_epoch;
    if negb (at_first_instruction first) then initial_wait
    else
      c ← check (console_text "info auxv");
      auxv ← command c;
      address ← check (program_entry_address auxv);
      pc ← check (ok_or (stopped_frame first ≫= fr_address) no_startup_pc);
      pc ← check (Address_parse pc);
      if bool_decide (pc = address) then initial_wait
      else
        reply ← run_to_entry address w first;
        state ← hdo Hop.State;
        mret (reply, state, true).

(** ** Launch *)

Definition on_off (b : bool) : string := if b then "on" else "off".

Definition randomization (aslr : string) : Result Error string :=
  if bool_decide (aslr = "preserve") then Ok "off"
  else if bool_decide (aslr = "disable") then Ok "on"
  else Err (invalid "aslr must be preserve or disable").

(** The refusal to manage randomization that a launch which preserves it accepts. *)
Definition randomization_unsupported (aslr : string) (e : Error) : bool :=
  bool_decide (aslr = "preserve") && bool_decide (err_code e = Code.GdbError) &&
  contains (bytes_of "randomization") (bytes_of (err_message e)) &&
  contains (bytes_of "unsupported") (bytes_of (err_message e)).

Definition manage_randomization (aslr setting : string) : handler bool :=
  c ← check (plain_command "-gdb-set" ["disable-randomization"; setting]);
  answer ← attempt (command c);
  match answer with
  | Ok _ => mret true
  | Err e => if randomization_unsupported aslr e then mret false else check (Err e)
  end.

Definition path_command (name path : string) : Result Error MiCommand :=
  c ← MiCommand_new (bytes_of name); Ok (string_argument c (bytes_of path)).

Definition variable_command (kv : string * string) : Result Error MiCommand :=
  plain_command "-gdb-set" ["environment"; kv.1 +:+ "=" +:+ kv.2].

(** The commands before the target runs: the first loads its symbols. *)
Definition launch_setup (program cwd : string) (p : LaunchParameters) (environment : gmap string string)
    : Result Error (MiCommand * list MiCommand) :=
  file ← path_command "-file-exec-and-symbols" program;
  cd ← path_command "-environment-cd" cwd;
  clear ← console_text "unset environment";
  arguments ← console_text (string_of (set_args (lp_argv p)));
  variables ← mapM variable_command (btree_iter environment);
  fork ← plain_command "-gdb-set" ["follow-fork-mode"; lp_follow_fork p];
  detach ← plain_command "-gdb-set" ["detach-on-fork"; on_off (lp_detach_on_fork p)];
  exec ← plain_command "-gdb-set" ["follow-exec-mode"; "same"];
  Ok (file, [cd; clear; arguments] ++ variables ++ [fork; detach; exec]).

Definition launch_environment (p : LaunchParameters) : handler (gmap string string) :=
  inherited ← (if bool_decide (lp_environment_mode p = "clean") then mret ∅
               else if bool_decide (lp_environment_mode p = "inherited") then
                 inherited_environment (debug_text env) (environment_allowlist (security env))
               else check (Err (invalid "environment_mode must be clean or inherited")));
  mret (lp_environment p ∪ inherited).

(** The program and the directory it runs in. *)
Definition launch_paths (p : LaunchParameters) : handler (string * string) :=
  requested_cwd ← (match lp_cwd p with
                   | Some cwd => path ← workspace_path cwd true; mret (Some path)
                   | None => mret None
                   end);
  let path := match requested_cwd with
              | Some cwd => if is_absolute (lp_program p) then lp_program p else join cwd (lp_program p)
              | None => lp_program p
              end in
  program ← workspace_path (lossy path) false;
  _ ← validate_launch_program program;
  cwd ← (match requested_cwd with
         | Some cwd => mret cwd
         | None => workspace_path (lossy (default "/" (parent_path program))) true
         end);
  mret (program, cwd).

Definition validate_follow (p : LaunchParameters) : Result Error unit :=
  if negb (bool_decide (lp_follow_fork p ∈ ["parent"; "child"])) then
    Err (invalid "follow_fork must be parent or child")
  else if negb (bool_decide (lp_follow_exec p = "same-inferior")) then
    Err (invalid "follow_exec must be same-inferior")
  else Ok tt.

(** The wait of a start, with the reads that may follow it. *)
Definition start_wait (request : ApiRequest) (requested : option WaitSpec) (policy : StartPolicy)
    : handler WaitSpec :=
  _ ← check (match requested with Some w => validate_wait w | None => Ok tt end);
  let inspect := bool_decide (is_Some (Json.get "inspect" (req_parameters request))) in
  let w := default (default_wait policy (wait_timeout env) inspect) requested in
  _ ← run (validate_turn_inspection env (req_parameters request) (Some w));
  mret w.

Fixpoint check_locations (locations : list Value) (context : SessionState) : handler unit :=
  match locations with
  | [] => mret tt
  | location :: rest =>
      _ ← breakpoint_location env location context;
      check_locations rest context
  end.

(** The request that creates one of the launch's breakpoints. *)
Definition location_request (request : ApiRequest) (location : Value) : ApiRequest :=
  MkApiRequest (req_api_version request) (req_request_id request) (req_session_id request)
    Method.BreakpointCreate None None location.

Definition no_breakpoint_handle : Error := Error_new Code.Internal "created breakpoint has no handle".

Definition created_handle (created : Value) : Result Error string :=
  ok_or (Json.as_str (at_key "id" (at_key "breakpoint" created))) no_breakpoint_handle.

Definition created_evidence (session : string) (created : Value) : list Evidence :=
  match Json.as_u64 (at_key "evidence_seq" (at_key "command" created)) with
  | Some sequence => [evidence_journal session sequence]
  | None => []
  end.

(** The handles and evidence of what was created, and the location that failed. *)
Fixpoint create_breakpoints (request : ApiRequest) (session : string) (index : N) (locations : list Value)
    (handles : list string) (evidence : list Evidence)
    : handler (list string * list Evidence * option (N * Error)) :=
  match locations with
  | [] => mret (handles, evidence, None)
  | location :: rest =>
      created ← attempt (
        created ← breakpoint_create env (location_request request location);
        id ← check (created_handle created);
        mret (id, created));
      match created with
      | Ok (id, created) =>
          create_breakpoints request session (index + 1) rest (handles ++ [id])
            (evidence ++ created_evidence session created)
      | Err e => mret (handles, evidence, Some (index, e))
      end
  end.

Definition start_facts (policy : StartPolicy) (fallback : bool) : list (string * Value) :=
  [("start_policy", Str (if fallback then "program_entry" else start_policy_text policy))].

(** Start, and answer with what the turn showed. *)
Definition start_and_answer (request : ApiRequest) (e : SessionEntry) (policy : StartPolicy)
    (setup : list MiCommand) (baseline : SessionState) (w : WaitSpec) (offset : N)
    (more : list (string * Value)) : handler SemanticResult :=
  '(reply, state, fallback) ← start_target request policy setup baseline w;
  capabilities ← refresh_target_capabilities (command_timeout env);
  result ← append_turn_output env offset (Object (start_facts policy fallback ++ more));
  r ← append_stop_observations env request state result;
  mret (with_capabilities capabilities (with_command (se_id e) "command" reply (with_state "state" state r))).

Definition launch_details (e : Error) (handles : list string) (failed : option N) : Error :=
  let details := match err_details e with
                 | Some (Object details) => details
                 | Some cause => [("cause", cause)]
                 | None => []
                 end in
  let details := set_field "created_breakpoints" (strings_value handles) details in
  with_details (Object (match failed with
                        | Some index => set_field "failed_breakpoint_index" (uint index) details
                        | None => details
                        end)) e.

(** A launch with breakpoints: the symbols are loaded, the breakpoints created
    and then the target run; what was created is reported however it ends. *)
Definition launch_with_breakpoints (request : ApiRequest) (e : SessionEntry) (p : LaunchParameters)
    (file : MiCommand) (setup : list MiCommand) (baseline : SessionState) (w : WaitSpec) (offset : N)
    (more : list (string * Value)) : handler SemanticResult :=
  let fail e handles failed := check (Err (launch_details e handles failed)) in
  loaded ← attempt (command file);
  match loaded with
  | Err error => fail error [] None
  | Ok _ =>
      '(handles, evidence, failed) ← create_breakpoints request (se_id e) 0 (lp_breakpoints p) [] [];
      match failed with
      | Some (index, error) => fail error handles (Some index)
      | None =>
          launched ← attempt (start_and_answer request e (lp_stop p) setup baseline w offset more);
          match launched with
          | Err error => fail error handles None
          | Ok r =>
              facts' ← run (put "created_breakpoints" (strings_value handles) (facts r));
              mret (push_evidence evidence (r <| facts := facts' |>))
          end
      end
  end.

Definition no_program : Error := invalid "program is required".

Definition aslr_facts (aslr : string) (managed : bool) : list (string * Value) :=
  [("aslr", Object [("requested", Str aslr); ("backend_managed", Bool managed)])].

Definition target_launch (request : ApiRequest) : handler SemanticResult :=
  p ← check (ok_or (decode_launch (req_parameters request))
               (invalid (decode_error env (req_parameters request))));
  _ ← check (if bool_decide (lp_program p = "") then Err no_program else Ok tt);
  environment ← launch_environment p;
  _ ← check (validate_environment (debug_text env) environment);
  _ ← check (validate_argv (lp_argv p));
  '(program, cwd) ← launch_paths p;
  _ ← check (validate_follow p);
  w ← start_wait request (lp_wait p) (lp_stop p);
  session ← check (required_session request);
  e ← entry session;
  baseline ← hdo Hop.State;
  _ ← check_locations (lp_breakpoints p) (creating (se_id e));
  offset ← hdo Hop.OutputPosition;
  setting ← check (randomization (lp_aslr p));
  native ← check (plain_command "-target-select" ["native"]);
  _ ← command native;
  managed ← manage_randomization (lp_aslr p) setting;
  '(file, setup) ← check (launch_setup program cwd p environment);
  let more := aslr_facts (lp_aslr p) managed in
  if bool_decide (lp_breakpoints p = []) then
    start_and_answer request e (lp_stop p) (file :: setup) baseline w offset more
  else launch_with_breakpoints request e p file setup baseline w offset more.

Definition target_restart (request : ApiRequest) : handler SemanticResult :=
  p ← check (ok_or (decode_restart (req_parameters request))
               (invalid (decode_error env (req_parameters request))));
  let policy := restart_policy p in
  w ← start_wait request (rp_wait p) policy;
  session ← check (required_session request);
  e ← entry session;
  baseline ← hdo Hop.State;
  offset ← hdo Hop.OutputPosition;
  start_and_answer request e policy [] baseline w offset [].

(** ** Attach *)

Definition target_unavailable (message : string) : Error := Error_new Code.TargetUnavailable message.

Definition START_TIME_FIELD : nat := 19.

Definition parse_process_start_time (stat : string) : Result Error N :=
  fields ← ok_or (after_last (bytes_of ") ") (bytes_of stat)) (target_unavailable "attach target stat record is malformed");
  ok_or (split_whitespace (chars_of (string_of fields)) !! START_TIME_FIELD ≫= from_str_radix_chars U64_MAX 10)
    (target_unavailable "attach target stat record has no start time").

Definition process_start_time (pid : N) : handler N :=
  stat ← hdo (Hop.ProcessStat pid);
  check (match stat with
         | Ok stat => parse_process_start_time stat
         | Err error => Err (target_unavailable ("cannot read attach target identity: " +:+ error))
         end).

Definition identity_changed : Error :=
  Error_new Code.Conflict "attach target identity changed before attach completed".

(** [AttachIdentity::revalidate]; an identity is a start time. *)
Definition revalidate (start_time_ticks pid : N) : handler unit :=
  now ← process_start_time pid;
  check (if (now =? start_time_ticks)%N then Ok tt else Err identity_changed).

Definition denied (message : string) : Error := Error_new Code.PolicyDenied message.

Definition validate_attach_target (pid : N) : handler N :=
  owner ← hdo (Hop.ProcessOwner pid);
  owner ← check (match owner with
                 | Ok owner => Ok owner
                 | Err error => Err (target_unavailable ("cannot inspect attach target: " +:+ error))
                 end);
  uid ← hdo Hop.EffectiveUid;
  _ ← check (if (owner =? uid)%N then Ok tt
             else Err (denied "attach target belongs to another Unix user"));
  own ← hask (hdo (Hop.PidNamespace None));
  target ← hask (hdo (Hop.PidNamespace (Some pid)));
  _ ← check (if bool_decide (own = target) then Ok tt
             else Err (denied "attach target belongs to another PID namespace"));
  process_start_time pid.

Definition target_facts (reply : CommandReply) (state : SessionState) (c : Results.SessionCapabilities)
    : Value :=
  Object [("command", reply_value reply); ("state", state_value state);
          ("capabilities", capabilities_value c)].

(** The symbols of an executable that the request names. *)
Definition load_executable (parameters : Value) : handler (option string) :=
  match Json.get "executable" parameters ≫= Json.as_str with
  | None => mret None
  | Some executable =>
      path ← workspace_path executable false;
      c ← check (path_command "-file-exec-and-symbols" path);
      _ ← command c;
      mret (Some path)
  end.

Definition not_allowlisted : Error := denied "PID is not in security.attach_allowlist".

(** Attach, and leave the process again unless it is still the one that was checked. *)
Definition attach_process (pid identity : N) : handler CommandReply :=
  _ ← revalidate identity pid;
  c ← check (plain_command "-target-attach" [dec pid]);
  reply ← command c;
  confirmed ← attempt (revalidate identity pid);
  match confirmed with
  | Ok _ => mret reply
  | Err e =>
      _ ← attempt (c ← check (plain_command "-target-detach" []); command c);
      check (Err e)
  end.

Definition target_attach (request : ApiRequest) : handler Value :=
  let parameters := req_parameters request in
  pid ← check (unsigned parameters "pid");
  requested ← check (wait_spec (decode_error env) parameters);
  let w := default (MkWaitSpec "snapshot" (wait_timeout env)) requested in
  _ ← check (if bool_decide (pid ∈ attach_allowlist (security env)) then Ok tt else Err not_allowlisted);
  identity ← validate_attach_target pid;
  session ← check (required_session request);
  _ ← entry session;
  baseline ← hdo Hop.State;
  _ ← load_executable parameters;
  reply ← attach_process pid identity;
  _ ← record_event (Event.TargetConfigured Origin.Attach);
  state ← apply_wait w (Some baseline);
  capabilities ← refresh_target_capabilities (command_timeout env);
  mret (target_facts reply state capabilities).

(** ** Remote targets *)

Definition MAX_PORT : N := 65535.

(** The text of an endpoint, before it is parsed. *)
Definition endpoint_text (endpoint : Value) : Result Error string :=
  match Json.as_str endpoint with
  | Some text => Ok text
  | None =>
      host ← text_parameter endpoint "host";
      port ← unsigned endpoint "port";
      if (port =? 0)%N || (MAX_PORT <? port)%N then
        Err (invalid "remote port must be between 1 and 65535")
      else if bool_decide (":"%char ∈ bytes_of host) then Ok ("[" +:+ host +:+ "]:" +:+ dec port)
      else Ok (host +:+ ":" +:+ dec port)
  end.

Definition remote_endpoint (parameters : Value) : Result Error string :=
  endpoint ← ok_or (Json.get "endpoint" parameters) (invalid "endpoint is required");
  text ← endpoint_text endpoint;
  ok_or (socket_address env text) (invalid "remote endpoint must use a pinned IP address and port").

(** An empty list restricts nothing. *)
Definition endpoint_allowed (endpoint : string) : bool :=
  bool_decide (remote_allowlist (security env) = []) ||
  bool_decide (endpoint ∈ remote_allowlist (security env)).

(** [wait_if_requested]. *)
Definition wait_if_requested (w : option WaitSpec) (baseline : SessionState) : handler SessionState :=
  match w with
  | Some w => apply_wait w (Some baseline)
  | None => hdo Hop.State
  end.

Definition target_connect_remote (request : ApiRequest) : handler Value :=
  let parameters := req_parameters request in
  let mode := default "remote" (Json.get "mode" parameters ≫= Json.as_str) in
  _ ← check (if bool_decide (mode ∈ ["remote"; "extended-remote"]) then Ok tt
             else Err (invalid "remote mode must be remote or extended-remote"));
  endpoint ← check (remote_endpoint parameters);
  w ← check (wait_spec (decode_error env) parameters);
  _ ← check (if endpoint_allowed endpoint then Ok tt
             else Err (denied "endpoint is not in security.remote_allowlist"));
  session ← check (required_session request);
  _ ← entry session;
  baseline ← hdo Hop.State;
  executable ← load_executable parameters;
  c ← check (plain_command "-target-select" [mode; endpoint]);
  reply ← command c;
  _ ← (match executable ≫= parent_path with
       | Some cwd => c ← check (path_command "-environment-cd" cwd); _ ← command c; mret tt
       | None => mret tt
       end);
  _ ← record_event (Event.TargetConfigured Origin.Remote);
  state ← wait_if_requested w baseline;
  capabilities ← refresh_target_capabilities (command_timeout env);
  mret (target_facts reply state capabilities).

(** ** Core files *)

(** The session's own name for the core file. *)
Definition link_core (core : string) : handler unit :=
  directory ← hdo Hop.SessionDirectory;
  let link := join directory "target.core" in
  removed ← hdo (Hop.RemoveFile link);
  _ ← check (match removed with
             | Err (missing, e) => if missing : bool then Ok tt else Err e
             | Ok _ => Ok tt
             end);
  hask (hdo (Hop.Symlink core link)).

Definition target_open_core (request : ApiRequest) : handler Value :=
  let parameters := req_parameters request in
  executable ← check (text_parameter parameters "executable");
  executable ← workspace_path executable false;
  core ← check (text_parameter parameters "core");
  core ← workspace_path core false;
  session ← check (required_session request);
  _ ← entry session;
  _ ← link_core core;
  file ← check (path_command "-file-exec-and-symbols" executable);
  select ← check (plain_command "-target-select" ["core"; "target.core"]);
  reply ← transaction (command_timeout env) [file] select [];
  c ← check (plain_command "-stack-info-frame" []);
  frame_reply ← command c;
  c ← check (plain_command "-thread-info" []);
  thread_reply ← command c;
  let backend_thread := result_text (cr_record thread_reply) "current-thread-id" in
  state ← hdo Hop.State;
  let backend_id := default "i1" (btree_first_key (inferiors state)) in
  _ ← record_event (Event.TargetStopped (Some backend_id) backend_thread "core" (Some Reason.Core)
                      (frame_summary (cr_record frame_reply)));
  _ ← record_event (Event.CoreOpened backend_id);
  capabilities ← refresh_target_capabilities (command_timeout env);
  state ← hdo Hop.State;
  mret (target_facts reply state capabilities).

(** ** The end of a target *)

Definition target_detach (request : ApiRequest) : handler Value :=
  session ← check (required_session request);
  _ ← entry session;
  c ← check (plain_command "-target-detach" []);
  reply ← command c;
  _ ← record_event Event.TargetDetached;
  state ← hdo Hop.State;
  mret (Object [("command", reply_value reply); ("state", state_value state)]).

Definition target_kill (request : ApiRequest) : handler Value :=
  w ← check (wait_spec (decode_error env) (req_parameters request));
  session ← check (required_session request);
  _ ← entry session;
  baseline ← hdo Hop.State;
  c ← check (console_text "kill");
  reply ← command c;
  state ← wait_if_requested w baseline;
  mret (Object [("command", reply_value reply); ("state", state_value state)]).

End targets.
