(* ===== verification/Kernel.v ===== *)
(** * Kernel: facts about a Linux kernel under GDB
    ([crates/gdb-ai-core/src/gateway/operations/kernel.rs])

    The kernel image and its modules are found in QEMU's memory map, symbols
    and lists by Python scripts that GDB runs and that print one line of JSON.
    The scripts are parameters; what is sent, read back and concluded is here,
    with what the memory map says of the image. *)
From S2P Require Import Prelude Text MiAst Json Errors Domain Backend Normalize Policy Protocol Wait Effects Program Actor Requests Wire Results Config Gateway Encoding Context MiView Handle Memory Environment Providers Values Reconcile Inspection Snapshots Execution Targets.

(** ** The memory map *)

Definition X86_KERNEL_START : N := 0xffffffff80000000.
Definition X86_MODULE_START : N := 0xffffffffc0000000.
Definition X86_MODULE_END : N := 0xffffffffff000000.

Record KernelMapping := MkKernelMapping {
  km_start : N; km_end : N; km_permissions : string
}.

#[export] Instance KernelMapping_eq_dec : EqDecision KernelMapping.
Proof. solve_decision. Defined.

Definition km_size (m : KernelMapping) : N := km_end m - km_start m.

Definition mapping_value (m : KernelMapping) : Value :=
  Object [("start", Str (address_text (km_start m))); ("end", Str (address_text (km_end m)));
          ("size", uint (km_size m)); ("permissions", Str (km_permissions m))].

(** [str::split] at characters. *)
Fixpoint split_at (separator : N -> bool) (word : chars) (s : chars) : list chars :=
  match s with
  | [] => [reverse word]
  | c :: r => if separator c then reverse word :: split_at separator [] r else split_at separator (c :: word) r
  end.

(** [str::split_ascii_whitespace]. *)
Definition ascii_fields (s : chars) : list chars :=
  filter (fun word => word <> []) (split_at is_ascii_space [] s).

Definition is_kernel_address (n : N) : bool := negb (N.land n (2 ^ 63) =? 0)%N.

(** A line of [info mem]: a range, its size and its permissions. *)
Definition memory_map_line (line : chars) : option KernelMapping :=
  match ascii_fields line with
  | range :: _ :: permissions :: _ =>
      '(start, stop) ← split_once_char 45 range;
      start ← from_str_radix_chars U64_MAX 16 start;
      stop ← from_str_radix_chars U64_MAX 16 stop;
      if (start <? stop)%N && is_kernel_address start
      then Some (MkKernelMapping start stop (string_of_chars permissions)) else None
  | _ => None
  end.

Definition before (m m' : KernelMapping) : bool :=
  (km_start m <? km_start m')%N || ((km_start m =? km_start m')%N && (km_end m <=? km_end m')%N).

(** A stable sort, then [dedup]. *)
Fixpoint insert_mapping (m : KernelMapping) (l : list KernelMapping) : list KernelMapping :=
  match l with
  | [] => [m]
  | m' :: r => if before m m' then m :: l else m' :: insert_mapping m r
  end.

Fixpoint dedup (l : list KernelMapping) : list KernelMapping :=
  match l with
  | m :: r =>
      match dedup r with
      | m' :: r' => if decide (m = m') then m' :: r' else m :: m' :: r'
      | [] => [m]
      end
  | [] => []
  end.

Definition parse_qemu_memory_map (output : bytes) : list KernelMapping :=
  dedup (foldr insert_mapping []
    (omap memory_map_line (split_at (fun c => (c =? 10) || (c =? 124))%N [] (utf8_lossy output)))).

Definition MIB : N := 1024 * 1024.

Definition is_image_mapping (m : KernelMapping) : bool :=
  (X86_KERNEL_START <=? km_start m)%N && (km_end m <=? X86_MODULE_START)%N && (MIB <=? km_size m)%N &&
  negb (bool_decide ("w"%char ∈ bytes_of (km_permissions m))).

Definition kernel_image_mappings (mappings : list KernelMapping) : list KernelMapping :=
  filter (fun m => is_image_mapping m = true) mappings.

(** The span of the image, unless it is the entry window of a user's page table. *)
Definition select_kernel_image (mappings : list KernelMapping) : option KernelMapping :=
  first ← head (kernel_image_mappings mappings);
  final ← last (kernel_image_mappings mappings);
  let image := MkKernelMapping (km_start first) (km_end final) "-r-" in
  if (2 * MIB <? km_size image)%N then Some image else None.

Definition is_module_candidate (image m : KernelMapping) : bool :=
  (X86_MODULE_START <=? km_start m)%N && (km_end m <=? X86_MODULE_END)%N &&
  ((km_end m <=? km_start image) || (km_end image <=? km_start m))%N.

Definition MAX_MODULE_CANDIDATES : nat := 128.

Record KernelImageContext := MkKernelImageContext {
  ki_pc : N;
  ki_image : KernelMapping;
  ki_image_mappings : list KernelMapping;
  ki_module_candidates : list KernelMapping;
  ki_module_candidates_truncated : bool;
  ki_kernel_page_table : bool;
  ki_evidence_seq : N
}.

Record KernelBootstrap := MkKernelBootstrap {
  kb_context : KernelImageContext;
  kb_version_address : option N;
  kb_version : option string;
  kb_evidence_seq : N
}.

(** ** Scripts *)

Definition KERNEL_OBSERVATION_TIMEOUT : N := 60 * 1000.

Definition kernel_observation_timeout (configured : N) : N := N.max configured KERNEL_OBSERVATION_TIMEOUT.

Definition newline : string := string_of [LF].

(** [str::replace] of a byte. *)
Definition replace_byte (c : ascii) (by_ : bytes) (s : string) : string :=
  string_of (bytes_of s ≫= fun d => if (d =? c)%char then by_ else [d]).

(** A body that runs with the page table of the kernel, which is put back. *)
Definition kernel_cr3_script (body : string) : string :=
  "import gdb" +:+ newline +:+
  "gdb.execute('set $_gdbai_kernel_saved_cr3 = $cr3', to_string=True)" +:+ newline +:+
  "try:" +:+ newline +:+
  "    gdb.execute('set $cr3 = $_gdbai_kernel_saved_cr3 & 0x000fffffffffe000', to_string=True)" +:+ newline +:+
  "    " +:+ replace_byte LF (bytes_of (newline +:+ "    ")) body +:+ newline +:+
  "finally:" +:+ newline +:+
  "    gdb.execute('set $cr3 = $_gdbai_kernel_saved_cr3', to_string=True)" +:+ newline +:+
  "    gdb.set_convenience_variable('_gdbai_kernel_saved_cr3', None)".

Definition MEMORY_MAP_BODY : string :=
  "print('|'.join(line for line in gdb.execute('monitor info mem', to_string=True).splitlines() if line.startswith('ffffffff')))".

Definition memory_map_script (kernel_page_table : bool) : string :=
  if kernel_page_table then kernel_cr3_script MEMORY_MAP_BODY
  else "import gdb" +:+ newline +:+ MEMORY_MAP_BODY.

Definition KERNEL_SYMBOL_PREFIX : string := "gdbai-kernel-symbols:".
Definition KERNEL_PAGE_TABLE_PREFIX : string := "gdbai-kernel-page-table:".
Definition KERNEL_DMESG_PREFIX : string := "gdbai-kernel-dmesg:".
Definition KERNEL_TYPED_PREFIX : string := "gdbai-kernel-typed:".

Definition command_output (reply : CommandReply) : bytes :=
  cr_stream_records reply ≫= fun r =>
    match r with ConsoleStream b | TargetStream b => b | _ => [] end.

Definition missing_capability (message : string) : Error := Error_new Code.CapabilityMissing message.
Definition gdb_error (message : string) : Error := Error_new Code.GdbError message.

(** ** What the scripts printed *)

(** The sorted names of a request; a value of another shape panics. *)
Definition requested_kernel_symbols (parameters : Value) (required : bool) : outcome Error (list string) :=
  match Json.get "names" parameters with
  | None => if required then Fail (invalid "names is required for the symbols view") else Done []
  | Some values =>
      items ← unwrap_or_panic (Json.as_array values);
      names ← unwrap_or_panic (mapM Json.as_str items);
      let names := btree_strings (list_to_set names) in
      if bool_decide (names = []) || (64 <? lenN names)%N || bool_decide (EmptyString ∈ names)
      then Fail (invalid "names must contain between 1 and 64 non-empty symbol names")
      else Done names
  end.

Definition text_at (key : string) (v : Value) : option string := Json.as_str (at_key key v).
Definition named_item (key name : string) (items : list Value) : option Value :=
  List.find (fun v => bool_decide (at_key key v = Str name)) items.

Section facts.
Context (debug_text : string -> string).

Definition module_missing (requested : string) (modules : list Value) : Error :=
  with_details (Object [("available_modules", strings_value (omap (text_at "name") modules))])
    (missing_capability ("loaded kernel module " +:+ debug_text requested +:+ " was not found")).

(** The executable segment of a module. *)
Definition module_segment (requested : string) (module : Value) : Result Error Value :=
  segments ← ok_or (Json.as_array (at_key "segments" module))
    (missing_capability ("kernel module " +:+ debug_text requested +:+ " has no validated memory segments"));
  ok_or (match named_item "kind" "text" segments with
         | Some segment => Some segment
         | None => named_item "kind" "core" segments
         end)
    (missing_capability ("kernel module " +:+ debug_text requested +:+ " has no executable segment")).

Definition hex_number (n : N) : string := "0x" +:+ string_of (hex_lower n).

Definition outside_segment (offset size : N) : Error :=
  invalid ("kernel module text offset " +:+ hex_number offset +:+ " exceeds its " +:+ hex_number size +:+
           "-byte segment").

Definition kernel_module_text_offset (facts : Value) (requested : string) (offset : N)
    : Result Error Value :=
  _ ← match text_at "module_error" facts with
      | Some error => Err (missing_capability ("kernel module discovery failed: " +:+ error))
      | None => Ok tt
      end;
  modules ← ok_or (Json.as_array (at_key "modules" facts)) (gdb_error "runtime kallsyms omitted modules");
  module ← ok_or (named_item "name" requested modules) (module_missing requested modules);
  segment ← module_segment requested module;
  base ← ok_or (text_at "base" segment) (gdb_error "kernel module segment omitted its base");
  base ← parse_address base;
  size ← ok_or (Json.as_u64 (at_key "size" segment)) (gdb_error "kernel module segment omitted its size");
  _ ← (if (size <=? offset)%N then Err (outside_segment offset size) else Ok tt);
  address ← (if (base + offset <=? U64_MAX)%N then Ok (base + offset)%N
             else Err (invalid "kernel module text offset overflows its runtime base"));
  Ok (Object [("space", Str "kernel"); ("module", Str requested);
              ("module_address", at_key "address" module); ("segment", at_key "kind" segment);
              ("base", at_key "base" segment); ("size", uint size);
              ("offset", Str (hex_number offset)); ("address", Str (address_text address))]).
End facts.

Section kernel.
Context (env : Environment).
Local Notation limits := (limits env).
Local Notation command := (command (command_timeout env)).
Local Notation stable_observation := (stable_observation (command_timeout env)).
Local Notation safe_evaluate := (safe_evaluate (command_timeout env)).
Local Notation observation_timeout := (kernel_observation_timeout (command_timeout env)).

(** [serde_json::to_string], of a script into an argument of [exec]. *)
Definition python_command (source : string) : Result Error MiCommand :=
  console_text ("python exec(" +:+ print env (Str source) +:+ ")").

Definition python (source : string) : handler CommandReply :=
  c ← check (python_command source); command_with_timeout c observation_timeout.

Definition prefixed_json_output (output : bytes) (prefix missing : string) : Result Error Value :=
  let text := bytes_of (string_of_chars (utf8_lossy output)) in
  '(_, from_prefix) ← ok_or (find_bytes (bytes_of prefix) text) (gdb_error missing);
  let line := take_while (fun c => negb ((c =? CR)%char || (c =? LF)%char))
                (drop (length (bytes_of prefix)) from_prefix) in
  value ← match parse_json env (string_of line) with
          | Ok value => Ok value
          | Err error => Err (Error_new Code.Internal error)
          end;
  match Json.get "error" value ≫= Json.as_str with
  | Some error =>
      Err (Error_new (if bool_decide (at_key "error_code" value = Str "OUTPUT_LIMIT")
                      then Code.OutputLimit else Code.CapabilityMissing) error)
  | None => Ok value
  end.

Definition kernel_symbol_output (output : bytes) : Result Error Value :=
  prefixed_json_output output KERNEL_SYMBOL_PREFIX "GDB omitted kernel symbol facts".
Definition kernel_page_table_output (output : bytes) : Result Error Value :=
  prefixed_json_output output KERNEL_PAGE_TABLE_PREFIX "GDB omitted the kernel page-table walk".

Definition require_kernel_python : handler unit :=
  c ← hdo Hop.Capabilities;
  check (if decide ("python" ∈ Results.sc_features c) then Ok tt
         else Err (missing_capability
                "typed kernel task and module inspection requires GDB with Python support")).

(** ** Expressions *)

Definition kernel_text (parameters : Value) (state : SessionState) (expression : string)
    : handler (string * N) :=
  c ← check (evaluate_command expression parameters state);
  reply ← safe_evaluate c;
  value ← check (ok_or (result_text (cr_record reply) "value") (gdb_error "GDB omitted expression value"));
  mret (value, cr_evidence_seq reply).

Definition kernel_address (parameters : Value) (state : SessionState) (expression : string)
    : handler (N * N) :=
  '(value, evidence_seq) ← kernel_text parameters state expression;
  address ← check (parse_gdb_u64 value);
  mret (address, evidence_seq).

Definition register_listing : handler CommandReply :=
  c ← check (plain_command "-data-list-register-names" []); command c.

Definition MODERN_CURRENT : string :=
  "*(struct task_struct **)((unsigned long)$gs_base+(unsigned long)&pcpu_hot.current_task)".
Definition LEGACY_CURRENT : string :=
  "*(struct task_struct **)((unsigned long)$gs_base+(unsigned long)&current_task)".

Definition is_gdb_error (e : Error) : bool := bool_decide (err_code e = Code.GdbError).

Definition kernel_current_text (parameters : Value) (state : SessionState) : handler (string * N) :=
  reply ← register_listing;
  let names := result_string_list (cr_record reply) "register-names" in
  match find_register_name names "gs_base", find_register_name names "sp_el0" with
  | Some _, _ =>
      modern ← attempt (kernel_text parameters state MODERN_CURRENT);
      match modern with
      | Ok value => mret value
      | Err e => if is_gdb_error e then kernel_text parameters state LEGACY_CURRENT else check (Err e)
      end
  | None, Some sp_el0 => kernel_text parameters state ("(struct task_struct *)$" +:+ sp_el0)
  | None, None => check (Err (missing_capability "current task requires x86-64 gs_base or AArch64 sp_el0"))
  end.

(** ** The image and its symbols *)

Definition qemu_memory_map (kernel_page_table : bool) : handler (list KernelMapping * N) :=
  reply ← python (memory_map_script kernel_page_table);
  mret (parse_qemu_memory_map (command_output reply), cr_evidence_seq reply).

Definition no_image : Error :=
  missing_capability "QEMU did not report a symbol-free kernel image mapping".

(** The image, under the page table at hand or under the kernel's. *)
Definition find_image : handler (KernelMapping * list KernelMapping * bool * N) :=
  '(mappings, seq) ← qemu_memory_map false;
  match select_kernel_image mappings with
  | Some image => mret (image, mappings, false, seq)
  | None =>
      '(mappings, kernel_seq) ← qemu_memory_map true;
      image ← check (ok_or (select_kernel_image mappings) no_image);
      mret (image, mappings, true, N.max seq kernel_seq)
  end.

Definition kernel_image_context (parameters : Value) (state : SessionState) : handler KernelImageContext :=
  names_reply ← register_listing;
  let names := result_string_list (cr_record names_reply) "register-names" in
  _ ← check (match find_register_name names "gs_base" with
             | Some _ => Ok tt
             | None => Err (missing_capability
                              "symbol-free bootstrap currently requires an x86-64 QEMU target")
             end);
  '(pc, pc_seq) ← kernel_address parameters state "$pc";
  '(image, mappings, kernel_page_table, monitor_seq) ← find_image;
  let candidates := filter (fun m => is_module_candidate image m = true) mappings in
  mret (MkKernelImageContext pc image (kernel_image_mappings mappings)
          (take MAX_MODULE_CANDIDATES candidates) (MAX_MODULE_CANDIDATES <? length candidates)%nat
          kernel_page_table (N.max (N.max (cr_evidence_seq names_reply) pc_seq) monitor_seq)).

Definition mapping_range (m : KernelMapping) : Value := Array [uint (km_start m); uint (km_end m)].

Definition symbols_script (image_mappings module_mappings : list KernelMapping) (names : list string)
    : string :=
  script env "kernel_symbols.py" +:+ newline +:+
  "_gdbai_kernel_symbols(" +:+ print env (Array (mapping_range <$> image_mappings)) +:+ ", " +:+
  print env (Array (mapping_range <$> module_mappings)) +:+ ", " +:+ print env (strings_value names) +:+ ")".

Definition scan_kernel_symbols (image_mappings module_mappings : list KernelMapping)
    (kernel_page_table : bool) (names : list string) : handler (Value * N) :=
  let source := symbols_script image_mappings module_mappings names in
  reply ← python (if kernel_page_table then kernel_cr3_script source else source);
  facts ← check (kernel_symbol_output (command_output reply));
  mret (facts, cr_evidence_seq reply).

Definition symbol_free_kernel_facts (parameters : Value) (state : SessionState) (names : list string)
    : handler (KernelImageContext * Value * N) :=
  context ← kernel_image_context parameters state;
  '(facts, seq) ← scan_kernel_symbols (ki_image_mappings context) (ki_module_candidates context)
                    (ki_kernel_page_table context) names;
  mret (context, facts, N.max (ki_evidence_seq context) seq).

Definition kernel_disabled : Error := missing_capability "Linux kernel provider is disabled".

Definition require_kernel : handler unit :=
  check (if kernel_enabled (security env) then Ok tt else Err kernel_disabled).

Definition resolve_kernel_module_offset (parameters : Value) (state : SessionState) (selector : Value)
    : handler Value :=
  _ ← require_kernel;
  module ← check (text_parameter selector "module");
  text ← check (text_parameter selector "offset");
  normalized ← check (Address_parse text);
  offset ← check (ok_or (from_str_radix U64_MAX 16 (drop 2 (bytes_of normalized)))
                    (invalid "invalid module offset"));
  '(_, facts, seq) ← symbol_free_kernel_facts parameters state [];
  resolved ← check (kernel_module_text_offset (debug_text env) facts module offset);
  run (put "evidence_seq" (uint seq) resolved).

(** ** Bootstrap *)

Definition version_address_of (facts : Value) : Result Error (option N) :=
  match text_at "version_address" facts with
  | Some address => n ← parse_address address; Ok (Some n)
  | None => Ok None
  end.

Definition BANNER : string := "Linux version ".

Definition find_banner (m : KernelMapping) : Result Error MiCommand :=
  console_text ("find /b /9 " +:+ hex_number (km_start m) +:+ ", +" +:+ dec (km_size m) +:+ ", " +:+
    String.concat "," ((fun c => "0x" +:+ string_of (hex_fixed 2 (byte_N c))) <$> bytes_of BANNER)).

Definition is_newline (c : N) : bool := ((c =? 13) || (c =? 10))%N.

(** The banner up to its first NUL. *)
Definition banner_text (b : bytes) : string :=
  string_of_chars (trim_end is_newline (utf8_lossy (take_while (fun c => negb (c =? NUL)%char) b))).

Definition longer (candidate : string) (version : option (N * string)) : bool :=
  match version with
  | Some (_, current) => (lenN (bytes_of current) <? lenN (bytes_of candidate))%N
  | None => true
  end.

(** The longest banner among the places GDB found one. *)
Fixpoint read_banners (state : SessionState) (m : KernelMapping) (addresses : list N)
    (version : option (N * string)) (seq : N) : handler (option (N * string) * N) :=
  match addresses with
  | [] => mret (version, seq)
  | address :: rest =>
      '(b, read_seq) ← read_memory_bytes (command_timeout env) state address
                         (N.min (km_end m - address) 512) true;
      let candidate := banner_text b in
      let version := if starts_with (bytes_of BANNER) (bytes_of candidate) && longer candidate version
                     then Some (address, candidate) else version in
      read_banners state m rest version (N.max seq read_seq)
  end.

Definition BANNER_MATCHES : nat := 8.

Fixpoint search_banners (state : SessionState) (mappings : list KernelMapping)
    (version : option (N * string)) (seq : N) : handler (option (N * string) * N) :=
  match mappings with
  | [] => mret (version, seq)
  | m :: rest =>
      c ← check (find_banner m);
      found ← command c;
      let '(matches, _, _, _) := find_memory_result found (km_start m) (km_size m) BANNER_MATCHES in
      '(version, seq) ← read_banners state m (omap (fun a => ok (parse_address a)) matches) version
                          (N.max seq (cr_evidence_seq found));
      search_banners state rest version seq
  end.

Definition kernel_bootstrap_in_observation (parameters : Value) (state : SessionState)
    : handler KernelBootstrap :=
  context ← kernel_image_context parameters state;
  if ki_kernel_page_table context then
    '(facts, seq) ← scan_kernel_symbols (ki_image_mappings context) (ki_module_candidates context) true [];
    address ← check (version_address_of facts);
    mret (MkKernelBootstrap context address (text_at "version" facts) (N.max (ki_evidence_seq context) seq))
  else
    '(version, seq) ← search_banners state (ki_image_mappings context) None (ki_evidence_seq context);
    mret (MkKernelBootstrap context (fst <$> version) (snd <$> version)
            (N.max (ki_evidence_seq context) seq)).

Definition kernel_bootstrap (parameters : Value) (state : SessionState) : handler KernelBootstrap :=
  stable_observation state (kernel_bootstrap_in_observation parameters state).

Definition kernel_source (mechanism : string) : Value :=
  Object [("provider", Str "linux-kernel"); ("version", Str LINUX_KERNEL_PROVIDER_VERSION);
          ("mechanism", Str mechanism)].

Definition NO_VERSION : string := "Linux version string was not found in the kernel image mapping".

Definition page_table_text (context : KernelImageContext) : string :=
  if ki_kernel_page_table context then "paired-kernel" else "current".

Definition kernel_bootstrap_result (b : KernelBootstrap) (state : SessionState) : Value :=
  let context := kb_context b in
  let warnings := match kb_version b with None => [NO_VERSION] | Some _ => [] end in
  Object [("view", Str "bootstrap"); ("architecture", Str "x86-64"); ("mode", Str "kernel");
          ("pc", Str (address_text (ki_pc context))); ("image", mapping_value (ki_image context));
          ("image_segments", Array (mapping_value <$> ki_image_mappings context));
          ("version", nullable Str (kb_version b));
          ("version_address", nullable (fun n => Str (address_text n)) (kb_version_address b));
          ("module_candidates", Array (mapping_value <$> ki_module_candidates context));
          ("module_candidates_truncated", Bool (ki_module_candidates_truncated context));
          ("page_table", Str (page_table_text context));
          ("partial", Bool (negb (bool_decide (warnings = [])))); ("warnings", strings_value warnings);
          ("stop_id", stop_value state); ("source", kernel_source "qemu-info-mem+gdb-find");
          ("evidence_seq", uint (kb_evidence_seq b))].

(** ** Views *)

(** What every answer of a script is completed with. *)
Definition script_facts (extra : list (string * Value)) (state : SessionState) (mechanism : string)
    (seq : N) (result : Value) : outcome Error Value :=
  put_all (extra ++ [("stop_id", stop_value state); ("source", kernel_source mechanism);
                     ("evidence_seq", uint seq)]) result.

Definition kernel_page_table (parameters : Value) (state : SessionState) : handler Value :=
  expression ← check (text_parameter parameters "address_expression");
  stable_observation state (
    reply ← python (script env "kernel_page_table.py" +:+ newline +:+
                    "_gdbai_kernel_page_table(" +:+ print env (Str expression) +:+ ")");
    result ← check (kernel_page_table_output (command_output reply));
    run (script_facts [("view", Str "page_table")] state "qemu-rsp-physical-page-walk"
           (cr_evidence_seq reply) result)).

Definition kernel_dmesg (parameters : Value) (state : SessionState) : handler Value :=
  limit ← check (bounded_limit parameters 128 (Config.value_children limits));
  stable_observation state (
    reply ← python (script env "kernel_dmesg.py" +:+ newline +:+ "_gdbai_kernel_dmesg(" +:+ dec limit +:+ ")");
    result ← check (prefixed_json_output (command_output reply) KERNEL_DMESG_PREFIX
                      "GDB omitted the bounded kernel log");
    run (script_facts [("view", Str "dmesg"); ("limit", uint limit)] state "linux-gdb-scripts"
           (cr_evidence_seq reply) result)).

Definition kernel_typed_query (parameters : Value) (state : SessionState) (call_ : string)
    : handler (Value * N) :=
  c ← check (c ← MiCommand_new (bytes_of "-interpreter-exec");
             c ← bare c (bytes_of "console");
             let source := script env "kernel_typed.py" +:+ newline +:+ call_ in
             context_options
               (string_argument c (bytes_of ("python exec(" +:+ print env (Str source) +:+ ")")))
               parameters state);
  reply ← command_with_timeout c observation_timeout;
  result ← check (prefixed_json_output (command_output reply) KERNEL_TYPED_PREFIX
                    "GDB omitted the typed kernel page");
  mret (result, cr_evidence_seq reply).

(** The task a listing marks as current; one that cannot be read is left out. *)
Definition current_task_argument (current : Result Error (string * N)) : Result Error string :=
  match current with
  | Ok (value, _) => n ← parse_gdb_u64 value; Ok (hex_number n)
  | Err e =>
      if bool_decide (err_code e ∈ [Code.CapabilityMissing; Code.GdbError]) then Ok "None" else Err e
  end.

Definition kernel_tasks (parameters : Value) (state : SessionState) : handler Value :=
  limit ← check (bounded_limit parameters 32 (Config.value_children limits));
  offset ← check (bounded_offset parameters (Config.value_children limits) "kernel task");
  _ ← require_kernel_python;
  current ← attempt (kernel_current_text parameters state);
  current ← check (current_task_argument current);
  '(result, seq) ← kernel_typed_query parameters state
                     ("_gdbai_kernel_tasks(" +:+ dec offset +:+ ", " +:+ dec limit +:+ ", " +:+ current +:+ ")");
  run (script_facts [] state "task_struct.tasks" seq result).

Definition omitted_modules : Error := gdb_error "runtime kallsyms omitted the module list".

(** A page of the modules the scanner found. *)
Definition modules_page (facts : Value) (offset limit : N) (state : SessionState) (seq : N)
    : Result Error Value :=
  all ← ok_or (Json.as_array (at_key "modules" facts)) omitted_modules;
  let modules := take (N.to_nat limit) (drop (N.to_nat offset) all) in
  let next := (offset + lenN modules)%N in
  let truncated := (next <? lenN all)%N in
  let warnings := option_list (text_at "module_error" facts) in
  Ok (Object [("view", Str "modules"); ("modules", Array modules); ("offset", uint offset);
              ("limit", uint limit); ("truncated", Bool truncated);
              ("continuation", if truncated then Object [("offset", uint next)] else Null);
              ("partial", Bool (negb (bool_decide (warnings = [])))); ("warnings", strings_value warnings);
              ("stop_id", stop_value state); ("source", kernel_source "runtime-kallsyms+modules-list");
              ("evidence_seq", uint seq)]).

Definition kernel_modules (parameters : Value) (state : SessionState) : handler Value :=
  limit ← check (bounded_limit parameters 32 (Config.value_children limits));
  offset ← check (bounded_offset parameters (Config.value_children limits) "kernel module");
  found ← attempt (kernel_address parameters state "&modules");
  match found with
  | Ok (head, _) =>
      _ ← require_kernel_python;
      '(result, seq) ← kernel_typed_query parameters state
                         ("_gdbai_kernel_modules(" +:+ hex_number head +:+ ", " +:+ dec offset +:+ ", " +:+
                          dec limit +:+ ")");
      run (script_facts [] state "modules-list" seq result)
  | Err e =>
      if is_gdb_error e then
        stable_observation state (
          '(_, facts, seq) ← symbol_free_kernel_facts parameters state [];
          check (modules_page facts offset limit state seq))
      else check (Err e)
  end.

Definition discovery_warning (facts : Value) : list string :=
  option_list ((fun error => "module discovery: " +:+ error) <$> text_at "module_error" facts).

(** The bootstrap of a request that names symbols. *)
Definition with_discovery (facts : Value) (result : Value) : outcome Error Value :=
  result ← put_all [("symbols", at_key "symbols" facts); ("missing_symbols", at_key "missing" facts);
                    ("current_tasks", at_key "current_tasks" facts); ("modules", at_key "modules" facts);
                    ("kallsyms", at_key "kallsyms" facts)] result;
  match discovery_warning facts with
  | [] => Done result
  | warning =>
      warnings ← unwrap_or_panic (Json.as_array (at_key "warnings" result));
      put_all [("partial", Bool true); ("warnings", Array (warnings ++ (Str <$> warning)))] result
  end.

Definition bootstrap_view (parameters : Value) (state : SessionState) : handler Value :=
  names ← run (requested_kernel_symbols parameters false);
  if bool_decide (names = []) then
    b ← kernel_bootstrap parameters state; mret (kernel_bootstrap_result b state)
  else
    stable_observation state (
      '(context, facts, seq) ← symbol_free_kernel_facts parameters state names;
      address ← check (version_address_of facts);
      let b := MkKernelBootstrap context address (text_at "version" facts) seq in
      run (with_discovery facts (kernel_bootstrap_result b state))).

Definition value_facts (view : string) (value : Value) (more : list (string * Value))
    (state : SessionState) (mechanism : string) (seq : N) : Value :=
  Object ([("view", Str view); ("value", value)] ++ more ++
          [("stop_id", stop_value state); ("source", kernel_source mechanism); ("evidence_seq", uint seq)]).

Definition no_current_task : Error := missing_capability "kallsyms did not resolve any current task".

Definition selected_task (facts : Value) : Result Error (Value * list Value) :=
  tasks ← ok_or (Json.as_array (at_key "current_tasks" facts)) no_current_task;
  task ← ok_or (match List.find (fun task => bool_decide (at_key "selected" task = Bool true)) tasks with
                | Some task => Some task
                | None => head tasks
                end) no_current_task;
  Ok (task, tasks).

(** An expression, or the scanner when GDB has no symbols for it. *)
Definition or_scanned (m : handler (string * N)) (view : string) (state : SessionState)
    (scanned : handler Value) : handler Value :=
  found ← attempt m;
  match found with
  | Ok (value, seq) => mret (value_facts view (Str value) [] state "gdb-expression" seq)
  | Err e => if is_gdb_error e then stable_observation state scanned else check (Err e)
  end.

Definition current_task_view (view : string) (parameters : Value) (state : SessionState) : handler Value :=
  or_scanned (kernel_current_text parameters state) view state (
    '(_, facts, seq) ← symbol_free_kernel_facts parameters state [];
    '(task, tasks) ← check (selected_task facts);
    mret (value_facts view (at_key "task" task) [("task", task); ("tasks", Array tasks)] state
            "runtime-kallsyms+gs-base" seq)).

Definition no_init_task : Error := missing_capability "runtime kallsyms did not contain init_task".

Definition init_task_view (view : string) (parameters : Value) (state : SessionState) : handler Value :=
  or_scanned (kernel_text parameters state "&init_task") view state (
    '(_, facts, seq) ← symbol_free_kernel_facts parameters state ["init_task"];
    value ← check (ok_or (symbols ← Json.as_array (at_key "symbols" facts);
                          symbol ← head symbols; text_at "address" symbol) no_init_task);
    mret (value_facts view (Str value) [] state "runtime-kallsyms" seq)).

Definition symbols_view (view : string) (parameters : Value) (state : SessionState) : handler Value :=
  names ← run (requested_kernel_symbols parameters true);
  stable_observation state (
    '(context, facts, seq) ← symbol_free_kernel_facts parameters state names;
    let missing := at_key "missing" facts in
    let warnings := discovery_warning facts in
    let lacking := match missing with Array (_ :: _) => true | _ => false end in
    mret (Object [("view", Str view); ("architecture", Str "x86-64");
                  ("image", mapping_value (ki_image context));
                  ("image_segments", Array (mapping_value <$> ki_image_mappings context));
                  ("symbols", at_key "symbols" facts); ("missing", missing);
                  ("current_tasks", at_key "current_tasks" facts); ("modules", at_key "modules" facts);
                  ("kallsyms", at_key "kallsyms" facts); ("page_table", Str (page_table_text context));
                  ("partial", Bool (negb (bool_decide (warnings = [])) || lacking));
                  ("warnings", strings_value warnings); ("stop_id", stop_value state);
                  ("source", kernel_source "runtime-kallsyms"); ("evidence_seq", uint seq)])).

Definition version_view (view : string) (parameters : Value) (state : SessionState) : handler Value :=
  symbol ← attempt (kernel_text parameters state "(char *)linux_banner");
  match symbol with
  | Ok (value, seq) =>
      mret (Object [("view", Str view); ("version", Str (gdb_c_string value)); ("rendered", Str value);
                    ("stop_id", stop_value state); ("source", kernel_source "vmlinux-symbol");
                    ("evidence_seq", uint seq)])
  | Err e =>
      if is_gdb_error e then
        b ← kernel_bootstrap parameters state;
        version ← check (ok_or (kb_version b) (missing_capability NO_VERSION));
        mret (Object [("view", Str view); ("version", Str version);
                      ("address", nullable (fun n => Str (address_text n)) (kb_version_address b));
                      ("stop_id", stop_value state); ("source", kernel_source "qemu-info-mem+gdb-find");
                      ("evidence_seq", uint (kb_evidence_seq b))])
      else check (Err e)
  end.

Definition base_view (view : string) (parameters : Value) (state : SessionState) : handler Value :=
  symbol ← attempt (kernel_address parameters state "&_text");
  match symbol with
  | Ok (address, seq) =>
      mret (Object [("view", Str view); ("address", Str (address_text address)); ("symbol", Str "_text");
                    ("stop_id", stop_value state); ("source", kernel_source "vmlinux-symbol");
                    ("evidence_seq", uint seq)])
  | Err e =>
      if is_gdb_error e then
        b ← kernel_bootstrap parameters state;
        let image := ki_image (kb_context b) in
        mret (Object [("view", Str view); ("address", Str (address_text (km_start image)));
                      ("end", Str (address_text (km_end image))); ("size", uint (km_size image));
                      ("symbol", Null); ("stop_id", stop_value state);
                      ("source", kernel_source "qemu-info-mem"); ("evidence_seq", uint (kb_evidence_seq b))])
      else check (Err e)
  end.

(** *** What a kernel target supports *)

Definition architecture_of (names : list string) : string * string :=
  match find_register_name names "gs_base", find_register_name names "sp_el0" with
  | Some _, _ => ("x86-64", "gs_base + current_task per-CPU offset")
  | None, Some _ => ("aarch64", "sp_el0")
  | None, None => ("unknown", "unavailable")
  end.

Definition support_value (status : string) (key mechanism : string) : Value :=
  Object [("status", Str status); (key, Str mechanism)].

Definition conditional (b : bool) : string := if b then "conditional" else "unsupported".
Definition supported (b : bool) : string := if b then "supported" else "unsupported".

Definition transport_of (origin : Origin.TargetOrigin) : string :=
  match origin with Origin.Remote => "gdb-remote" | Origin.Core => "core" | _ => "native" end.

(** The typed symbols, or that GDB has none. *)
Definition typed_symbols (parameters : Value) (state : SessionState) : handler (option N) :=
  found ← attempt (kernel_address parameters state "&init_task.tasks");
  match found with
  | Ok (_, seq) => mret (Some seq)
  | Err e => if is_gdb_error e then mret None else check (Err e)
  end.

Definition kernel_capabilities (view architecture current_task : string) (typed : option N)
    (python_ok : bool) (names_seq : N) (state : SessionState) : Value :=
  let has_typed := bool_decide (is_Some typed) in
  let runtime := bool_decide (architecture = "x86-64") && bool_decide (target_origin state = Origin.Remote) in
  let monitors := monitor_allowlist (security env) in
  Object [
    ("view", Str view); ("architecture", Str architecture); ("transport", Str (transport_of (target_origin state)));
    ("symbols", support_value (if has_typed then "supported" else conditional runtime) "mode"
                  (if has_typed then "trusted-vmlinux" else if runtime then "runtime-kallsyms" else "unavailable"));
    ("bootstrap", support_value (conditional runtime) "mechanism" "QEMU monitor info mem");
    ("page_table", support_value (conditional runtime) "mechanism" "QEMU RSP physical-memory mode");
    ("current_task", support_value (conditional (negb (bool_decide (current_task = "unavailable")) &&
                                                (has_typed || runtime))) "mechanism" current_task);
    ("tasks", support_value (supported (has_typed && python_ok)) "mechanism" "task_struct.tasks");
    ("modules", support_value (conditional (has_typed || runtime)) "mechanism"
                  (if has_typed then "trusted-vmlinux"
                   else if runtime then "runtime-kallsyms+modules-list" else "unavailable"));
    ("dmesg", support_value (conditional (has_typed && python_ok)) "mechanism" "matching Linux GDB scripts");
    ("monitor", Object [("status", Str (conditional (negb (bool_decide (monitors = [])))));
                        ("allowlist", strings_value monitors)]);
    ("limitations", strings_value
       ["symbol-free kallsyms is verified on Linux 5.15, 6.1, 6.6, 6.12, 6.13, 6.15, and 7.2 x86-64 distribution kernels";
        "QEMU monitor support is confirmed only by an allowlisted command"]);
    ("stop_id", stop_value state); ("source", kernel_source "target-probe");
    ("evidence_seq", uint (default names_seq typed))].

Definition capabilities_view (view : string) (parameters : Value) (state : SessionState) : handler Value :=
  names_reply ← register_listing;
  let '(architecture, current_task) :=
    architecture_of (result_string_list (cr_record names_reply) "register-names") in
  typed ← typed_symbols parameters state;
  usable ← attempt require_kernel_python;
  mret (kernel_capabilities view architecture current_task typed (is_ok usable)
          (cr_evidence_seq names_reply) state).

(** A request for one of the views of any target. *)
Definition kernel_view_request (method : Method.CanonicalMethod) (key value : string) (request : ApiRequest)
    : outcome Error ApiRequest :=
  parameters ← put key (Str value) (req_parameters request);
  Done (MkApiRequest (req_api_version request) (req_request_id request) (req_session_id request) method
          (req_expected_revision request) (req_idempotency_key request) parameters).

Definition presented (view mechanism : string) (result : Value) : outcome Error Value :=
  put_all [("view", Str view); ("source", kernel_source mechanism)] result.

Definition kernel_stack_view (request : ApiRequest) : handler Value :=
  r ← run (kernel_view_request Method.InspectionGet "view" "stack" request);
  result ← inspection_get env r;
  run (presented "stack" "gdb-stack" result).

Definition panic_view (request : ApiRequest) : handler Value :=
  r ← run (kernel_view_request Method.InspectionSnapshot "profile" "standard" request);
  snapshot ← inspection_snapshot env (inspection_result env ROUNDS) r;
  result ← run (unwrap_or_panic (into_value true snapshot));
  run (presented "panic" "bounded-stop-snapshot" result).

Definition unsupported_view : Error := invalid "unsupported kernel inspection view".

Definition kernel_inspect (request : ApiRequest) : handler Value :=
  let parameters := req_parameters request in
  _ ← require_kernel;
  session ← check (required_session request);
  _ ← entry session;
  state ← hdo Hop.State;
  _ ← check (require_stopped_context parameters state);
  view ← check (text_parameter parameters "view");
  let named name := bool_decide (view = name) in
  if named "bootstrap" then bootstrap_view parameters state
  else if named "current_task" then current_task_view view parameters state
  else if named "init_task" then init_task_view view parameters state
  else if named "symbols" then symbols_view view parameters state
  else if named "version" then version_view view parameters state
  else if named "base" then base_view view parameters state
  else if named "page_table" then kernel_page_table parameters state
  else if named "tasks" then kernel_tasks parameters state
  else if named "modules" then kernel_modules parameters state
  else if named "dmesg" then kernel_dmesg parameters state
  else if named "capabilities" then capabilities_view view parameters state
  else if named "stack" then kernel_stack_view request
  else if named "panic" then panic_view request
  else check (Err unsupported_view).

(** ** Monitor commands *)

Definition monitor_malformed : Error := invalid "monitor command is empty, oversized, or multiline".
Definition monitor_denied : Error := denied "monitor command is not allowlisted".

Definition validate_monitor (monitor : string) : Result Error string :=
  if (4096 <? lenN (bytes_of monitor))%N ||
     existsb (fun c => (c =? NUL)%char || (c =? CR)%char || (c =? LF)%char) (bytes_of monitor)
  then Err monitor_malformed
  else
    let verb := first_word monitor in
    if bool_decide (verb ∈ monitor_allowlist (security env)) then Ok verb else Err monitor_denied.

Definition kernel_monitor (request : ApiRequest) : handler Value :=
  _ ← require_kernel;
  monitor ← check (text_parameter (req_parameters request) "command");
  verb ← check (validate_monitor monitor);
  session ← check (required_session request);
  _ ← entry session;
  _ ← record_event (Event.ConsistencyTainted ("target monitor command executed: " +:+ verb));
  c ← check (console_text ("monitor " +:+ monitor));
  reply ← command c;
  reconciliation ← reconcile_session (command_timeout env) error_display false;
  state ← hdo Hop.State;
  mret (Object [("command", reply_value reply); ("state_after", state_value state);
                ("reconciliation", reconciliation)]).

End kernel.
(** ** The mappings of a kernel *)

Definition map_order (m m' : KernelMapping) : Prop := before m m' = true.

Lemma map_order_spec m m' :
  map_order m m' <-> (km_start m < km_start m' \/ (km_start m = km_start m' /\ km_end m <= km_end m'))%N.
Proof.
  unfold map_order, before. rewrite orb_true_iff, andb_true_iff, N.ltb_lt, N.eqb_eq, N.leb_le. done.
Qed.

Lemma map_order_trans m1 m2 m3 : map_order m1 m2 -> map_order m2 m3 -> map_order m1 m3.
Proof. rewrite !map_order_spec. lia. Qed.

Lemma map_order_total m m' : before m m' = false -> map_order m' m.
Proof.
  intros H. apply map_order_spec. assert (~ map_order m m') as Hn by (unfold map_order; congruence).
  rewrite map_order_spec in Hn. lia.
Qed.

Lemma elem_of_insert_mapping m l x : x ∈ insert_mapping m l <-> x = m \/ x ∈ l.
Proof. induction l as [|m' r IH]; cbn; [set_solver|]. destruct (before m m'); set_solver. Qed.

Lemma insert_mapping_sorted m l :
  StronglySorted map_order l -> StronglySorted map_order (insert_mapping m l).
Proof.
  induction 1 as [|m' r Hr IH Hall]; cbn; [by repeat constructor|].
  rewrite Forall_forall in Hall. destruct (before m m') eqn:E.
  - constructor; [by constructor; [|apply Forall_forall]|]. apply Forall_forall.
    intros x [->|Hx]%elem_of_cons; [done|]. by eapply map_order_trans; [|apply Hall].
  - constructor; [done|]. apply Forall_forall. intros x [->|Hx]%elem_of_insert_mapping; [|by apply Hall].
    by apply map_order_total.
Qed.

Lemma elem_of_dedup l x : x ∈ dedup l <-> x ∈ l.
Proof.
  induction l as [|m r IH]; [done|]. cbn. rewrite elem_of_cons, <-IH.
  destruct (dedup r) as [|m' r']; [set_solver|]. destruct (decide (m = m')) as [->|]; set_solver.
Qed.

Lemma dedup_sorted l : StronglySorted map_order l -> StronglySorted map_order (dedup l).
Proof.
  induction 1 as [|m r Hr IH Hall]; [constructor|]. cbn.
  assert (Forall (map_order m) (dedup r)) as Hd.
  { rewrite Forall_forall in *. intros x Hx. by apply Hall, elem_of_dedup. }
  destruct (dedup r) as [|m' r']; [by repeat constructor|]. destruct (decide (m = m')); [done|by constructor].
Qed.

Lemma parsed_map_sorted output : StronglySorted map_order (parse_qemu_memory_map output).
Proof.
  apply dedup_sorted. induction (omap _ _) as [|m l IH]; [constructor|]. by apply insert_mapping_sorted.
Qed.

Lemma parsed_map_ranges output m : m ∈ parse_qemu_memory_map output -> (km_start m < km_end m)%N.
Proof.
  unfold parse_qemu_memory_map. rewrite elem_of_dedup.
  assert (forall l, m ∈ foldr insert_mapping [] l <-> m ∈ l) as ->.
  { intros l. induction l as [|m' l IH]; [done|]. cbn. by rewrite elem_of_insert_mapping, elem_of_cons, IH. }
  intros (line & _ & E)%list_elem_of_omap. unfold memory_map_line in E.
  destruct (ascii_fields line) as [|range [|? [|permissions ?]]]; try done.
  apply bind_Some in E as ([a b] & _ & E). apply bind_Some in E as (start & _ & E).
  apply bind_Some in E as (stop & _ & E). destruct ((start <? stop)%N && is_kernel_address start) eqn:Eb; [|done].
  apply andb_prop in Eb as [Eb%N.ltb_lt _]. by simplify_eq.
Qed.

Lemma sorted_filter (P : KernelMapping -> Prop) `{forall m, Decision (P m)} l :
  StronglySorted map_order l -> StronglySorted map_order (filter P l).
Proof.
  induction 1 as [|m r Hr IH Hall]; [constructor|]. rewrite filter_cons. destruct (decide (P m)); [|done].
  constructor; [done|]. rewrite Forall_forall in *. intros x [_ Hx]%list_elem_of_filter. by apply Hall.
Qed.

Lemma sorted_head l m x : StronglySorted map_order l -> head l = Some m -> x ∈ l -> map_order m x.
Proof.
  intros Hs Hh Hx. destruct Hs as [|m' r Hs Hall]; [done|]. injection Hh as ->.
  apply elem_of_cons in Hx as [->|Hx]; [apply map_order_spec; lia|]. rewrite Forall_forall in Hall. by apply Hall.
Qed.

Lemma sorted_last l m x : StronglySorted map_order l -> last l = Some m -> x ∈ l -> map_order x m.
Proof.
  intros Hs. induction Hs as [|m' r Hs IH Hall]; [done|]. rewrite last_cons. intros Hl Hx.
  rewrite Forall_forall in Hall. apply elem_of_cons in Hx as [->|Hx].
  - destruct (last r) as [f|] eqn:E; [|simplify_eq; apply map_order_spec; lia].
    simplify_eq. apply Hall. by apply last_Some_elem_of.
  - destruct (last r) as [f|] eqn:E; [simplify_eq; by apply IH|]. apply last_None in E. subst r. by apply elem_of_nil in Hx.
Qed.

(** What [info mem] reports: ranges that share no address. *)
Definition disjoint_mappings (l : list KernelMapping) : Prop :=
  forall m m', m ∈ l -> m' ∈ l -> m = m' \/ (km_end m <= km_start m')%N \/ (km_end m' <= km_start m)%N.


(** Text and read-only data of a kernel, a module, and the window of a user. *)
Definition sample_map : bytes :=
  bytes_of "ffffffffc0200000-ffffffffc0210000 0000000000010000 -r-|" ++
  bytes_of "ffffffff82000000-ffffffff82800000 0000000000800000 -r-|" ++
  bytes_of "ffffffff81000000-ffffffff82000000 0000000001000000 -r-|" ++
  bytes_of "0000000000400000-0000000000401000 0000000000001000 ur-".

