(* ===== verification/Probe.v ===== *)
(** * Probe: hypotheses and probes of an agent
    ([crates/gdb-ai-core/src/gateway/operations/agent.rs])

    A hypothesis compares an expression at a stop with what the agent expects.
    A probe arms a breakpoint of its own, resumes the target, starts a command
    of the host or feeds input that leads to the breakpoint, captures a bounded
    observation at every hit, and takes the breakpoint back before it resumes
    or answers. *)
From S2P Require Import Prelude Text MiAst Json Errors Domain Backend Normalize Policy Protocol Wait Effects Program Actor Requests Wire Results Config Gateway Encoding Context MiView Handle Memory Observations Environment Values Reconcile Inspection Snapshots Execution Targets Kernel.

(** ** A program with a time limit

    [tokio::time::timeout] polls the program and drops it when the time is up
    while it waits for an answer; the guard of a lock it holds is dropped with
    it.  The process a probe has started outlives the program. *)

Definition awaits (o : Hop.op) : bool :=
  match o with
  | Hop.LockSequence _ | Hop.Send _ _ | Hop.Receive _ | Hop.SendControl _ _ | Hop.ReceiveControl _
  | Hop.WaitFrom _ _ _ _ | Hop.DrainInferior | Hop.NextEvent _ | Hop.TriggerWait _ | Hop.TriggerReap => true
  | _ => false
  end.

Record running := MkRunning { holds_lock : bool; trigger_pid : option N }.

Definition after_op (o : Hop.op) (x : Hop.answer o) (r : running) : running :=
  match o as o return Hop.answer o -> running with
  | Hop.LockSequence _ => fun locked => MkRunning (holds_lock r || locked) (trigger_pid r)
  | Hop.UnlockSequence => fun _ => MkRunning false (trigger_pid r)
  | Hop.StartTrigger _ _ => fun started =>
      match started with Ok (Some pid) => MkRunning (holds_lock r) (Some pid) | _ => r end
  | _ => fun _ => r
  end x.

Section timed.
Context {A : Type} (deadline : N) (s0 : option Observation).

(** What the program came to, unless its time was up. *)
Definition timed_answer : Type := option N * option (Result Error A).

Definition expire (r : running) : prog HandleSig (option Observation * outcome Error timed_answer) :=
  let ended := Ret (s0, Done (trigger_pid r, None)) in
  if holds_lock r then Do (E := HandleSig) Hop.UnlockSequence (fun _ => ended) else ended.

Fixpoint timed_from (r : running) (m : prog HandleSig (option Observation * outcome Error A))
    : prog HandleSig (option Observation * outcome Error timed_answer) :=
  match m with
  | Ret (s, Done a) => Ret (s, Done (trigger_pid r, Some (Ok a)))
  | Ret (s, Fail e) => Ret (s, Done (trigger_pid r, Some (Err e)))
  | Ret (s, Panic) => Ret (s, Panic)
  | Ret (s, OutOfFuel) => Ret (s, OutOfFuel)
  | Do o k =>
      let go := Do o (fun x => timed_from (after_op o x r) (k x)) in
      if awaits o
      then Do (E := HandleSig) (Hop.Expired deadline) (fun expired : bool => if expired then expire r else go)
      else go
  end.
End timed.

Definition timed {A} (deadline : N) (m : handler A) : handler (option N * option (Result Error A)) :=
  fun s => timed_from deadline s (MkRunning false None) (m s).

(** ** The process that leads to a hit *)

Record ProbeTrigger := MkProbeTrigger { pt_command : list string; pt_cwd : option string }.

Definition only_fields (names : list string) (v : Value) : bool :=
  match v with
  | Object fields => forallb (fun kv => bool_decide (kv.1 ∈ names)) fields
  | _ => true
  end.

(** [Deserialize] with [deny_unknown_fields]; a sequence has both fields. *)
Definition decode_trigger (v : Value) : option ProbeTrigger :=
  match v with
  | Object _ =>
      if only_fields ["command"; "cwd"] v then
        command ← (Json.get "command" v ≫= decode_texts);
        cwd ← or_default (opt_decode Json.as_str) None (Json.get "cwd" v);
        Some (MkProbeTrigger command cwd)
      else None
  | Array [command; cwd] =>
      command ← decode_texts command;
      cwd ← opt_decode Json.as_str cwd;
      Some (MkProbeTrigger command cwd)
  | _ => None
  end.

Definition empty_trigger : Error := invalid "probe trigger command must not be empty".

Definition requested_trigger (decode_error : Value -> string) (parameters : Value)
    : Result Error (option ProbeTrigger) :=
  match Json.get "trigger" parameters with
  | None => Ok None
  | Some v =>
      trigger ← ok_or (decode_trigger v) (invalid (decode_error v));
      _ ← (if bool_decide (pt_command trigger = []) then Err empty_trigger else Ok tt);
      _ ← validate_argv (pt_command trigger);
      Ok (Some trigger)
  end.

Definition MAX_TRIGGER_STREAM_BYTES : N := 64 * 1024.

(** [capture_trigger_output]: a bounded prefix, and how much there was. *)
Definition capture_trigger_output (stream : bytes) : bytes * N :=
  (take (N.to_nat MAX_TRIGGER_STREAM_BYTES) stream, lenN stream).

Definition trigger_status (pid : N) (status : ExitStatus) (terminated : bool) : Value :=
  Object [("pid", uint pid); ("exit_code", nullable Int (exit_code status));
          ("signal", nullable Int (exit_signal status));
          ("success", Bool (bool_decide (exit_code status = Some 0%Z)));
          ("terminated_after_probe", Bool terminated)].

Definition cleanup_failed (pid : N) (error : string) : Value :=
  Object [("pid", uint pid); ("cleanup_error", Str error)].

Section trigger.
Context (base64_encode : bytes -> string) (debug_text : string -> string).

Definition append_trigger_output (result : Value) (name : string) (output : Result string bytes)
    : outcome Error Value :=
  match output with
  | Err error => put (name +:+ "_error") (Str error) result
  | Ok stream =>
      let '(b, total) := capture_trigger_output stream in
      if (0 <? total)%N then
        put name (Object (byte_content base64_encode b ++
                          [("total_bytes", uint total);
                           ("truncated", Bool (MAX_TRIGGER_STREAM_BYTES <? total)%N)])) result
      else Done result
  end.

Definition start_probe_trigger (trigger : ProbeTrigger) (cwd : option string) : handler unit :=
  started ← hdo (Hop.StartTrigger (pt_command trigger) cwd);
  check (match started with
         | Ok (Some _) => Ok tt
         | Ok None => Err (target_unavailable "probe trigger started without a process identifier")
         | Err error =>
             Err (target_unavailable ("cannot start probe trigger " +:+
                               debug_text (default "" (head (pt_command trigger))) +:+ ": " +:+ error))
         end).

(** Whether the process ended, by the time it is given. *)
Definition trigger_completion (completion_timeout : option N) : handler (Result string (option ExitStatus)) :=
  status ← hdo Hop.TriggerStatus;
  match status, completion_timeout with
  | Ok None, Some timeout =>
      waited ← hdo (Hop.TriggerWait timeout);
      mret match waited with
           | Some (Ok status) => Ok (Some status)
           | Some (Err error) => Err error
           | None => Ok None
           end
  | _, _ => mret status
  end.

(** One that did not end is killed. *)
Definition trigger_result (pid : N) (completion : Result string (option ExitStatus)) : handler Value :=
  match completion with
  | Ok (Some status) => mret (trigger_status pid status false)
  | Ok None =>
      killed ← hdo Hop.TriggerKill;
      match killed with
      | Ok _ =>
          reaped ← hdo Hop.TriggerReap;
          mret match reaped with
               | Ok status => trigger_status pid status true
               | Err error => cleanup_failed pid error
               end
      | Err error => mret (cleanup_failed pid error)
      end
  | Err error => _ ← hdo Hop.TriggerKill; mret (cleanup_failed pid error)
  end.

(** [ProbeTriggerProcess::finish]. *)
Definition finish_trigger (pid : N) (completion_timeout : option N) : handler Value :=
  completion ← trigger_completion completion_timeout;
  result ← trigger_result pid completion;
  stdout ← hdo (Hop.TriggerStream "stdout");
  stderr ← hdo (Hop.TriggerStream "stderr");
  result ← run (append_trigger_output result "stdout" stdout);
  run (append_trigger_output result "stderr" stderr).
End trigger.

(** ** Budgets *)

Record ObservationBudget := MkObservationBudget {
  max_calls : N; max_frames : N; max_values : N; max_memory_bytes : N;
  max_instructions : N; max_context_bytes : N; wall_time_ms : N
}.

Definition ObservationBudget_default : ObservationBudget :=
  MkObservationBudget 32 16 16 (64 * 1024) 64 (64 * 1024) 10000.

Definition OBSERVATION_BUDGET_FIELDS : list string :=
  ["max_calls"; "max_frames"; "max_values"; "max_memory_bytes"; "max_instructions"; "max_context_bytes";
   "wall_time_ms"].

Definition decode_budget (v : Value) : option ObservationBudget :=
  if only_fields OBSERVATION_BUDGET_FIELDS v then
    field ← structure_fields OBSERVATION_BUDGET_FIELDS v;
    let number name dflt := or_default Json.as_u64 (dflt ObservationBudget_default) (field name) in
    calls ← number "max_calls" max_calls;
    frames ← number "max_frames" max_frames;
    values ← number "max_values" max_values;
    memory ← number "max_memory_bytes" max_memory_bytes;
    instructions ← number "max_instructions" max_instructions;
    context ← number "max_context_bytes" max_context_bytes;
    wall ← number "wall_time_ms" wall_time_ms;
    Some (MkObservationBudget calls frames values memory instructions context wall)
  else None.

Definition outside (n maximum : N) : bool := (n =? 0)%N || (maximum <? n)%N.

Definition validate_budget (limits : Limits) (b : ObservationBudget) : Result Error unit :=
  if outside (max_calls b) 256 || outside (max_frames b) (Config.stack_frames limits) ||
     outside (max_values b) 1000 || outside (max_memory_bytes b) (memory_read_bytes limits) ||
     outside (max_instructions b) 1024 || outside (max_context_bytes b) (tool_response_bytes limits) ||
     outside (wall_time_ms b) 60000
  then Err (invalid "observation budget is outside configured limits")
  else Ok tt.

Definition requested_budget (env : Environment) (parameters : Value) : Result Error ObservationBudget :=
  budget ← match Json.get "budget" parameters with
           | None => Ok ObservationBudget_default
           | Some v => ok_or (decode_budget v) (invalid (decode_error env v))
           end;
  _ ← validate_budget (limits env) budget;
  Ok budget.

(** ** Comparisons *)

Definition I128_MAX : N := 2 ^ 127 - 1.

(** [i128::from_str_radix]. *)
Definition parse_i128 (radix : N) (s : bytes) : option Z :=
  match s with
  | c :: r =>
      if (c =? "-")%char then
        match r with
        | [] => None
        | _ => n ← radix_digits (I128_MAX + 1) radix 0 r; Some (- Z.of_N n)%Z
        end
      else Z.of_N <$> from_str_radix I128_MAX radix s
  | [] => None
  end.

Definition parse_observed_integer (value : string) : Result Error Z :=
  let value := string_of_chars (trim_matches is_whitespace (chars_of value)) in
  ok_or (match strip_prefix (bytes_of "0x") (bytes_of value) with
         | Some hex => parse_i128 16 hex
         | None => parse_i128 10 (bytes_of value)
         end)
    (invalid ("observation is not an integer: " +:+ value)).

Definition unknown_operator : Error :=
  invalid "operator must be equals, not_equals, contains, greater_than, or less_than".

Definition compare_observation (actual operator expected : string) : Result Error bool :=
  let named name := bool_decide (operator = name) in
  if named "equals" then Ok (bool_decide (actual = expected))
  else if named "not_equals" then Ok (negb (bool_decide (actual = expected)))
  else if named "contains" then Ok (contains (bytes_of expected) (bytes_of actual))
  else if named "greater_than" || named "less_than" then
    actual ← parse_observed_integer actual;
    expected ← parse_observed_integer expected;
    Ok (if named "greater_than" then (expected <? actual)%Z else (actual <? expected)%Z)
  else Err unknown_operator.

(** ** Hits *)

(** A location of the breakpoint is numbered after it: [7.2]. *)
Definition same_breakpoint_number (expected actual : string) : bool :=
  bool_decide (actual = expected) ||
  match strip_prefix (bytes_of expected) (bytes_of actual) ≫= strip_prefix (bytes_of ".") with
  | Some location => negb (bool_decide (location = [])) && forallb is_ascii_digit location
  | None => false
  end.

(** A running target reaches its first stop without another resume. *)
Definition execution_reached (baseline stopped : SessionState) : bool :=
  (execution_epoch baseline <? execution_epoch stopped)%N ||
  ((execution_epoch stopped =? execution_epoch baseline)%N && has_running baseline).

Definition is_new_stop (baseline stopped : SessionState) : bool :=
  bool_decide (is_Some (stop_id stopped)) && negb (bool_decide (stop_id stopped = stop_id baseline)) &&
  execution_reached baseline stopped.

Definition hits_breakpoint (expected : string) (stopped : SessionState) : bool :=
  match stop_reason_detail stopped with
  | Some (Reason.Breakpoint (Some actual) _) => same_breakpoint_number expected actual
  | _ => false
  end.

Definition in_scope_of (name : string) (actual : option string) (parameters : Value) : bool :=
  match Json.get name parameters ≫= Json.as_str with
  | Some expected => bool_decide (actual = Some expected)
  | None => true
  end.

Definition is_probe_hit (parameters : Value) (baseline stopped : SessionState) (expected : string) : bool :=
  is_new_stop baseline stopped && hits_breakpoint expected stopped &&
  in_scope_of "inferior_id" (stopped_inferior_id stopped) parameters &&
  in_scope_of "thread_id" (stopped_thread_id stopped) parameters.

Definition stopped_elsewhere (stopped : SessionState) (expected : string) : Error :=
  with_details (Object [("expected_breakpoint", Str expected);
                        ("actual_reason", nullable stop_reason_value (stop_reason_detail stopped));
                        ("raw_reason", nullable Str (stop_reason stopped));
                        ("stop_id", stop_value stopped);
                        ("stopped_inferior_id", nullable Str (stopped_inferior_id stopped));
                        ("stopped_thread_id", nullable Str (stopped_thread_id stopped))])
    (Error_new Code.InvalidState "target stopped somewhere other than the probe breakpoint").

Definition require_probe_hit (parameters : Value) (baseline stopped : SessionState) (expected : string)
    : Result Error unit :=
  if is_probe_hit parameters baseline stopped expected then Ok tt
  else Err (stopped_elsewhere stopped expected).

Section probe.
Context (env : Environment).
Local Notation limits := (limits env).
Local Notation command := (command (command_timeout env)).
Local Notation safe_evaluate := (safe_evaluate (command_timeout env)).
Local Notation stable_observation := (stable_observation (command_timeout env)).

(** ** A hypothesis *)

Definition agent_hypothesis_check (request : ApiRequest) : handler Value :=
  let parameters := req_parameters request in
  session ← check (required_session request);
  e ← entry session;
  state ← hdo Hop.State;
  _ ← check (require_stopped_context parameters state);
  expression ← check (text_parameter parameters "expression");
  _ ← run (validate_expression expression);
  expected ← check (text_parameter parameters "expected");
  let operator := default "equals" (Json.get "operator" parameters ≫= Json.as_str) in
  c ← check (evaluate_command expression parameters state);
  reply ← safe_evaluate c;
  let actual := default "" (result_text (cr_record reply) "value") in
  confirmed ← check (compare_observation actual operator expected);
  mret (Object [("claim", at_key "claim" parameters); ("expression", Str expression);
                ("operator", Str operator); ("expected", Str expected); ("actual", Str actual);
                ("verdict", Str (if confirmed : bool then "confirmed" else "refuted"));
                ("stop_id", stop_value state);
                ("evidence", Array [Object [("kind", Str "mi-result");
                   ("uri", Str ("gdbai://session/" +:+ se_id e +:+ "/event/" +:+
                                dec (cr_evidence_seq reply)))]])]).

(** ** One capture *)

Definition exhausted : Error :=
  Error_new Code.OutputLimit "probe exhausted its debugger-call budget".
Definition probe_too_long : Error :=
  Error_new Code.OutputLimit "probe memory capture exceeds max_memory_bytes".
Definition DEFAULT_CAPTURE : list Value := [Object [("stack", Object [("limit", uint 4)])]].

Definition require_calls (calls : N) (b : ObservationBudget) : Result Error unit :=
  if (max_calls b <=? calls)%N then Err exhausted else Ok tt.

Definition stop_only (state : SessionState) : Value := Object [("stop_id", stop_value state)].

Definition capture_expression (state : SessionState) (expression : string) : handler Value :=
  _ ← run (validate_expression expression);
  c ← check (evaluate_command expression (stop_only state) state);
  reply ← safe_evaluate c;
  mret (Object [("expression", Str expression);
                ("value", nullable Str (result_text (cr_record reply) "value"));
                ("evidence_seq", uint (cr_evidence_seq reply))]).

Definition frames_command (state : SessionState) (limit : N) : Result Error MiCommand :=
  c ← MiCommand_new (bytes_of "-stack-list-frames");
  c ← context_options c (stop_only state) state;
  with_arguments [BareArgument "0"; BareArgument (dec (limit - 1))] c.

Definition capture_stack (state : SessionState) (b : ObservationBudget) (stack : Value) : handler Value :=
  let limit := N.max 1 (N.min (default 4%N (Json.get "limit" stack ≫= Json.as_u64)) (max_frames b)) in
  c ← check (frames_command state limit);
  reply ← command c;
  frames ← check (normalized_frames (cr_record reply) state (stop_only state));
  mret (Object [("stack", Array frames); ("evidence_seq", uint (cr_evidence_seq reply))]).

Definition read_calls (length : N) : N := (length + (CHUNK_BYTES - 1)) / CHUNK_BYTES.

Definition no_probe_address : Error :=
  Error_new Code.GdbError "probe address expression returned no value".

Definition capture_memory (state : SessionState) (b : ObservationBudget) (calls : N) (memory : Value)
    : handler (Value * N) :=
  expression ← check (text_parameter memory "address_expression");
  _ ← run (validate_expression expression);
  length ← check (unsigned memory "length");
  _ ← check (if outside length (max_memory_bytes b) then Err probe_too_long else Ok tt);
  _ ← check (if (max_calls b <? saturate (calls + (1 + read_calls length)))%N then Err exhausted else Ok tt);
  c ← check (evaluate_command expression (stop_only state) state);
  reply ← safe_evaluate c;
  address ← check (text ← ok_or (result_text (cr_record reply) "value") no_probe_address; parse_address text);
  '(content, seq) ← read_memory_bytes (command_timeout env) state address length false;
  mret (Object [("memory", Object [("address_expression", Str expression);
                                   ("address", Str (hex_number address)); ("length", uint (lenN content));
                                   ("hex", Str (hex_encode content)); ("evidence_seq", uint seq)])],
        (calls + 1 + read_calls length)%N).

Definition unknown_capture : Error := invalid "capture items require expression, stack, or memory".

Definition capture_item (state : SessionState) (b : ObservationBudget) (calls : N) (item : Value)
    : handler (Value * N) :=
  _ ← check (require_calls calls b);
  match Json.get "expression" item ≫= Json.as_str with
  | Some expression => v ← capture_expression state expression; mret (v, (calls + 1)%N)
  | None =>
      match Json.get "stack" item with
      | Some stack => v ← capture_stack state b stack; mret (v, (calls + 1)%N)
      | None =>
          match Json.get "memory" item with
          | Some memory => capture_memory state b calls memory
          | None => check (Err unknown_capture)
          end
      end
  end.

Fixpoint capture_items (state : SessionState) (b : ObservationBudget) (items : list Value) (calls : N)
    (observations : list Value) : handler (list Value * N) :=
  match items with
  | [] => mret (observations, calls)
  | item :: rest =>
      '(v, calls) ← capture_item state b calls item;
      capture_items state b rest calls (observations ++ [v])
  end.

Definition too_many_captures : Error :=
  Error_new Code.OutputLimit "probe capture plan exceeds max_values".

Definition capture_probe_observation (request : ApiRequest) (state : SessionState) (b : ObservationBudget)
    (calls : N) : handler (Value * N) :=
  let plan := default DEFAULT_CAPTURE (Json.get "capture" (req_parameters request) ≫= Json.as_array) in
  _ ← check (if (max_values b <? lenN plan)%N then Err too_many_captures else Ok tt);
  '(observations, calls) ← capture_items state b plan calls [];
  mret (Object [("stop_id", stop_value state); ("reason", nullable Str (stop_reason state));
                ("observations", Array observations)], calls).

(** ** A probe *)

Definition probe_timed_out : Error := Error_new Code.Timeout "probe timed out".
Definition breakpoint_disappeared : Error := Error_new Code.InvalidState "probe breakpoint disappeared".

(** What a probe is, once its request is understood. *)
Record Plan := MkPlan {
  pl_budget : ObservationBudget;
  pl_max_hits : nat;
  pl_stop_policy : string;
  pl_trigger : option ProbeTrigger;
  pl_trigger_cwd : option string;
  pl_input : option bytes
}.

(** The time that is left of the probe's. *)
Definition remaining_time (p : Plan) (started : N) : handler N :=
  now ← hdo Hop.Now;
  let elapsed := (now - started)%N in
  let wall := wall_time_ms (pl_budget p) in
  check (if (elapsed <=? wall)%N then Ok (wall - elapsed)%N else Err probe_timed_out).

Definition resume_target : handler CommandReply :=
  c ← check (plain_command "-exec-continue" []); command c.

(** A target that already runs advances toward the hit by itself. *)
Definition resume_for_hit (p : Plan) (baseline : SessionState) (calls : N) : handler N :=
  if has_running baseline then mret calls
  else
    _ ← check (require_calls calls (pl_budget p));
    _ ← resume_target;
    mret (calls + 1)%N.

(** After the first resume: the trigger, then the input. *)
Definition lead_to_hit (p : Plan) (started : N) : handler (option Value) :=
  _ ← (match pl_trigger p with
       | Some trigger => start_probe_trigger (debug_text env) trigger (pl_trigger_cwd p)
       | None => mret tt
       end);
  remaining ← remaining_time p started;
  feed_inferior (pl_input p) remaining.

(** A stop that is the probe's, with what was captured at it. *)
Definition await_hit (request : ApiRequest) (p : Plan) (b : TemporaryBreakpoint) (started : N)
    (baseline : SessionState) (calls : N) : handler (SessionState * Value * N) :=
  remaining ← remaining_time p started;
  stopped ← wait_after_baseline Until.Snapshot remaining (WaitBaseline_of baseline);
  number ← current_backend_number b;
  expected ← check (ok_or number breakpoint_disappeared);
  _ ← check (require_probe_hit (req_parameters request) baseline stopped expected);
  '(capture, calls) ← capture_probe_observation request stopped (pl_budget p) calls;
  mret (stopped, capture, calls).

(** The hits from [hit] on, [rest] of them after it; the last stop. *)
Fixpoint probe_hits (request : ApiRequest) (p : Plan) (b : TemporaryBreakpoint) (started : N)
    (hit rest : nat) (calls : N) (captures : list Value) (input : option Value)
    : handler (list Value * option Value * SessionState) :=
  baseline ← hdo Hop.State;
  calls ← resume_for_hit p baseline calls;
  input ← (if bool_decide (hit = 1) then lead_to_hit p started else mret input);
  '(stopped, capture, calls) ← await_hit request p b started baseline calls;
  let captures := captures ++ [Object [("hit", uint (N.of_nat hit)); ("observation", capture)]] in
  match rest with
  | S rest =>
      if bool_decide (pl_stop_policy p = "on_condition") then mret (captures, input, stopped)
      else probe_hits request p b started (S hit) rest calls captures input
  | 0 => mret (captures, input, stopped)
  end.

(** Captures that exceed the context budget become an artifact. *)
Definition captures_facts (p : Plan) (captures : list Value) : handler Value :=
  let serialized := bytes_of (print env (Array captures)) in
  let count := ("capture_count", uint (lenN captures)) in
  if (max_context_bytes (pl_budget p) <? lenN serialized)%N then
    uri ← hask (hdo (Hop.PutArtifact serialized "probe-observations"));
    mret (Object [("captures", Array []); ("artifact", Str uri); count; ("truncated", Bool true)])
  else mret (Object [("captures", Array captures); count; ("truncated", Bool false)]).

Definition inspects_at_hit (request : ApiRequest) (p : Plan) : bool :=
  bool_decide (is_Some (Json.get "inspect" (req_parameters request))) &&
  negb (bool_decide (pl_stop_policy p = "continue_to_stop")).

(** What the wall time bounds. *)
Definition probe_body (request : ApiRequest) (p : Plan) (b : TemporaryBreakpoint) (started : N)
    : handler Value :=
  '(captures, input, stopped) ← probe_hits request p b started 1 (pl_max_hits p - 1) 1 [] None;
  result ← captures_facts p captures;
  result ← run (append_input input result);
  if inspects_at_hit request p then
    r ← append_stop_observations env request stopped result;
    run (unwrap_or_panic (into_value true r))
  else mret result.

(** *** After the breakpoint is removed *)

Definition AFTER_FIELDS : list string :=
  ["operation_id"; "wait_status"; "settled_by"; "stop_id"; "observations"; "observation_error";
   "can_interrupt"].

Definition after_facts (continued : Value) : Value :=
  Object (omap (fun key => (fun v => (key, v)) <$> Json.get key continued) AFTER_FIELDS ++
          match pointer ["command"; "evidence_seq"] continued with
          | Some seq => [("resume_evidence_seq", seq)]
          | None => []
          end).

Definition continue_request (request : ApiRequest) (remaining : N) : ApiRequest :=
  MkApiRequest (req_api_version request) (req_request_id request +:+ ":continue") (req_session_id request)
    Method.ExecutionControl None None
    (Object ([("action", Str "continue");
              ("wait", Object [("until", Str "settled"); ("timeout_ms", uint (N.max remaining 1))])] ++
             match Json.get "inspect" (req_parameters request) with
             | Some inspect => [("inspect", inspect)]
             | None => []
             end)).

Definition continue_after (result : Value) : handler Value :=
  resume ← resume_target;
  run (put_all [("continued", Bool true); ("resume_evidence_seq", uint (cr_evidence_seq resume))] result).

Definition continue_to_stop (request : ApiRequest) (p : Plan) (started : N) (result : Value)
    : handler Value :=
  remaining ← remaining_time p started;
  r ← execution_control env (continue_request request remaining);
  continued ← run (unwrap_or_panic (into_value true r));
  run (put_all [("continued", Bool true); ("after", after_facts continued)] result).

Definition conclude (request : ApiRequest) (p : Plan) (started : N) (cleanup : Result Error unit)
    (ran : Result Error Value) : handler Value :=
  result ← check ran;
  if is_ok cleanup && bool_decide (pl_stop_policy p = "continue_after_capture") then continue_after result
  else if is_ok cleanup && bool_decide (pl_stop_policy p = "continue_to_stop")
  then continue_to_stop request p started result
  else run (put "continued" (Bool false) result).

(** A failure keeps what the trigger came to. *)
Definition with_trigger (trigger : Value) (outcome_ : Result Error Value) : outcome Error (Result Error Value) :=
  match outcome_ with
  | Ok result => result ← put "trigger" trigger result; Done (Ok result)
  | Err e =>
      details ← put "trigger" trigger (default (Object []) (err_details e));
      Done (Err (with_details details e))
  end.

Definition attach_trigger (p : Plan) (started : N) (pid : option N) (outcome_ : Result Error Value)
    : handler (Result Error Value) :=
  match pid with
  | None => mret outcome_
  | Some pid =>
      timeout ← (if is_ok outcome_ && negb (bool_decide (pl_stop_policy p = "on_condition")) then
                   now ← hdo Hop.Now;
                   mret (Some (wall_time_ms (pl_budget p) - (now - started))%N)
                 else mret None);
      trigger ← finish_trigger (base64_encode env) pid timeout;
      run (with_trigger trigger outcome_)
  end.

Definition cleanup_text (cleanup : Result Error unit) : option string :=
  match cleanup with Err e => Some (error_display e) | Ok _ => None end.

Definition completed_probe (cleanup : Result Error unit) (seq : N) (o : OperationRecord) : OperationRecord :=
  ended Op.Completed seq (o <| op_error := cleanup_text cleanup |>).

Definition failed_probe (e : Error) (cleanup : Result Error unit) (seq : N) (o : OperationRecord)
    : OperationRecord :=
  let text := match cleanup_text cleanup with
              | Some cleanup_error => error_display e +:+ "; cleanup failed: " +:+ cleanup_error
              | None => error_display e
              end in
  ended (if bool_decide (err_code e = Code.Timeout) then Op.TimedOut else Op.Failed) seq
    (o <| op_error := Some text |>).

Definition probe_result_facts (o : OperationRecord) (number : string) (resolved : option Value)
    : list (string * Value) :=
  [("operation", operation_value o); ("breakpoint", Str number)] ++
  match resolved with Some resolved => [("resolved_location", resolved)] | None => [] end.

(** The operation is recorded before the probe answers or fails. *)
Definition answer_probe (o : OperationRecord) (number : string) (resolved : option Value) (offset : N)
    (cleanup : Result Error unit) (outcome_ : Result Error Value) : handler Value :=
  match outcome_ with
  | Ok result =>
      seq ← event_seq_now;
      let o := completed_probe cleanup seq o in
      _ ← record_operation o;
      result ← run (put_all (probe_result_facts o number resolved) result);
      result ← append_turn_output env offset result;
      run (match cleanup_text cleanup with
           | Some error => put_all [("cleanup_warning", Str error); ("partial", Bool true)] result
           | None => Done result
           end)
  | Err e =>
      seq ← event_seq_now;
      _ ← record_operation (failed_probe e cleanup seq o);
      check (Err e)
  end.

(** From the armed breakpoint to the answer. *)
Definition run_probe (request : ApiRequest) (p : Plan) (b : TemporaryBreakpoint) (o : OperationRecord)
    (number : string) (resolved : option Value) (offset : N) : handler Value :=
  started ← hdo Hop.Now;
  deadline ← hdo (Hop.Deadline (wall_time_ms (pl_budget p)));
  '(pid, ran) ← timed deadline (probe_body request p b started);
  '(b, cleanup) ← remove_temporary env b;
  answered ← attempt (
    outcome_ ← attempt (conclude request p started cleanup (default (Err probe_timed_out) ran));
    outcome_ ← attach_trigger p started pid outcome_;
    answer_probe o number resolved offset cleanup outcome_);
  _ ← drop_temporary b;
  check answered.

(** [m] with the breakpoint dropped when [?] returns from it. *)
Definition or_drop {A} (b : TemporaryBreakpoint) (m : handler A) : handler A :=
  r ← attempt m;
  _ ← (match r with Err _ => drop_temporary b | Ok _ => mret tt end);
  check r.

Definition waiting_operation (ulid session : string) (request : ApiRequest) (initial : SessionState)
    (reply : CommandReply) : OperationRecord :=
  MkOperationRecord ("op_" +:+ short_ulid ulid) session (Method.as_str (req_method request))
    Op.WaitingForState (revision initial) (Some (WaitBaseline_of initial)) None
    (Some (cr_evidence_seq reply)) None None.

(** The breakpoint's handle survives a new number of its breakpoint. *)
Definition arm_probe (request : ApiRequest) (p : Plan) (e : SessionEntry) (initial : SessionState)
    (offset : N) (resolved : option Value) (pending : option ((string * N) * MiCommand))
    (inserted : CommandReply) : handler Value :=
  number ← check (breakpoint_number (cr_record inserted));
  ulid ← hdo Hop.NewUlid;
  let o := waiting_operation ulid (se_id e) request initial inserted in
  _ ← or_drop (MkTemporaryBreakpoint (Some (op_id o)) None (Some number)) (adopt_inserted inserted);
  state ← hdo Hop.State;
  let id := bp_id <$> breakpoints state !! number in
  let b := MkTemporaryBreakpoint (Some (op_id o)) id (Some number) in
  _ ← or_drop b (
    _ ← (match pending, id with
         | Some ((module, offset), template), Some id =>
             register_pending_module_breakpoint
               (MkPendingModuleBreakpoint id number module offset true template)
         | _, _ => mret tt
         end);
    record_operation o);
  run_probe request p b o number resolved offset.

(** *** The request *)

Definition STOP_POLICIES : list string := ["on_condition"; "continue_after_capture"; "continue_to_stop"].

Definition unknown_stop_policy : Error :=
  invalid "stop_policy must be on_condition, continue_after_capture, or continue_to_stop".

Definition requested_stop_policy (parameters : Value) : Result Error string :=
  let policy := default "on_condition" (Json.get "stop_policy" parameters ≫= Json.as_str) in
  if bool_decide (policy ∈ STOP_POLICIES) then Ok policy else Err unknown_stop_policy.

Definition requested_hits (parameters : Value) : nat :=
  N.to_nat (N.max 1 (N.min (default 1%N (Json.get "max_hits" parameters ≫= Json.as_u64)) 100)).

Definition insert_template (parameters : Value) : outcome Error MiCommand :=
  c ← result_outcome (plain_command "-break-insert" ["-f"]);
  c ← match Json.get "condition" parameters ≫= Json.as_str with
      | Some condition =>
          _ ← validate_expression condition;
          result_outcome (with_arguments [BareArgument "-c"; QuotedArgument condition] c)
      | None => Done c
      end;
  match Json.get "ignore_count" parameters ≫= Json.as_u64 with
  | Some ignore => result_outcome (with_arguments [BareArgument "-i"; BareArgument (dec ignore)] c)
  | None => Done c
  end.

(** Where the probe is placed, and what a kernel module was resolved to. *)
Definition probe_location (parameters : Value) (initial : SessionState)
    : handler (string * option (string * N) * option Value) :=
  match Json.get "kernel_module_offset" parameters with
  | Some selector =>
      resolved ← stable_observation initial
                   (resolve_kernel_module_offset env parameters initial selector);
      address ← run (unwrap_or_panic (text_at "address" resolved));
      mret ("*" +:+ address, None, Some resolved)
  | None =>
      '(location, module) ← breakpoint_location env parameters initial;
      mret (location, module, None)
  end.

(** A module that is not mapped yet is rebound when it is. *)
Definition pending_module (location : string) (module : option (string * N)) (template : MiCommand)
    : option ((string * N) * MiCommand) :=
  if starts_with (bytes_of "*") (bytes_of location) then None else (fun m => (m, template)) <$> module.

Definition restart_request (request : ApiRequest) (session : string) : ApiRequest :=
  MkApiRequest (req_api_version request) (req_request_id request +:+ ":restart") (Some session)
    Method.TargetRestart None None (Object [("stop", Str "first_instruction")]).

Definition restart_first (request : ApiRequest) (session : string) : handler unit :=
  if bool_value (req_parameters request) "restart" false
  then _ ← target_restart env (restart_request request session); mret tt
  else mret tt.

(** A stopped context is needed unless the target was restarted or runs. *)
Definition needs_stop_context (parameters : Value) (initial : SessionState) : bool :=
  negb (bool_value parameters "restart" false) &&
  (bool_decide (is_Some (Json.get "kernel_module_offset" parameters)) || negb (has_running initial)).

Definition validate_probe_inspection (parameters : Value) : outcome Error unit :=
  match Json.get "inspect" parameters with
  | Some inspect => validate_observation_requests (print env) inspect (memory_read_bytes limits)
  | None => Done tt
  end.

Definition trigger_directory (trigger : option ProbeTrigger) : handler (option string) :=
  match trigger ≫= pt_cwd with
  | Some cwd => path ← workspace_path (security env) (debug_text env) cwd true; mret (Some path)
  | None => mret None
  end.

Definition agent_probe (request : ApiRequest) : handler Value :=
  let parameters := req_parameters request in
  _ ← run (validate_probe_inspection parameters);
  input ← check (turn_input env parameters);
  trigger ← check (requested_trigger (decode_error env) parameters);
  trigger_cwd ← trigger_directory trigger;
  session ← check (required_session request);
  _ ← restart_first request session;
  e ← entry session;
  offset ← hdo Hop.OutputPosition;
  initial ← hdo Hop.State;
  _ ← check (if needs_stop_context parameters initial
             then require_stopped_context parameters initial else Ok tt);
  budget ← check (requested_budget env parameters);
  stop_policy ← check (requested_stop_policy parameters);
  template ← run (insert_template parameters);
  '(location, module, resolved) ← probe_location parameters initial;
  let p := MkPlan budget (requested_hits parameters) stop_policy trigger trigger_cwd input in
  inserted ← command (string_argument template (bytes_of location));
  arm_probe request p e initial offset resolved (pending_module location module template) inserted.

End probe.
