(* ===== verification/Methods.v ===== *)
(** * Methods: the inferior's terminal, raw commands and the table of methods
    ([crates/gdb-ai-core/src/gateway/operations/io.rs], [raw.rs], [mod.rs])

    Input may be a transcript of steps, each gated on a prompt of the
    terminal; a raw command records its effect on the session's consistency
    before it is sent; and each method of a session is carried out by its
    handler. *)
From S2P Require Import Prelude Text MiAst Json Errors Domain Backend Normalize Ring Policy Protocol Wait Effects Program Actor Requests Wire Results Config Gateway Encoding Context MiView Handle Memory Observed Observations Environment Values Inspection Reading Snapshots Execution Targets Kernel Probe.

(** ** Steps of a transcript *)

Record IoWriteStep := MkIoWriteStep { ios_wait_for : option bytes; ios_bytes : bytes }.

Definition empty_prompt : Error := Memory.invalid "inferior I/O wait_for cannot be empty".

Definition io_write_step (base64_decode : string -> Result string bytes) (step : Value)
    : Result Error IoWriteStep :=
  let prompt := bytes_of <$> (Json.get "wait_for" step ≫= Json.as_str) in
  _ ← (if bool_decide (prompt = Some []) then Err empty_prompt else Ok tt);
  b ← input_bytes base64_decode step;
  Ok (MkIoWriteStep prompt b).

Definition step_bytes (steps : list IoWriteStep) : N := foldr (fun s n => (lenN (ios_bytes s) + n)%N) 0%N steps.

Definition io_write_steps (base64_decode : string -> Result string bytes) (parameters : Value)
    : Result Error (option (list IoWriteStep)) :=
  match Json.get "steps" parameters ≫= Json.as_array with
  | None => Ok None
  | Some [] => Err (Memory.invalid "inferior I/O steps cannot be empty")
  | Some steps =>
      parsed ← map_results (io_write_step base64_decode) steps;
      if (MAX_INFERIOR_INPUT_BYTES <? step_bytes parsed)%N then Err input_too_long else Ok (Some parsed)
  end.

(** ** The search for a prompt *)

(** [windows(n).position]: the first place a non-empty window occurs. *)
Fixpoint find_window (window b : bytes) : option nat :=
  match b with
  | [] => None
  | _ :: r => if bool_decide (take (length window) b = window) then Some 0 else S <$> find_window window r
  end.

(** What was read and not discarded, where it starts, and where reading goes on. *)
Record scan := MkScan { sc_pending : bytes; sc_pending_offset : N; sc_offset : N }.

Definition scan_from (cursor : N) : scan := MkScan [] cursor cursor.

(** A gap leaves nothing of what was read before it. *)
Definition scan_read (read : RingRead) (s : scan) : scan :=
  let s := if gap read then MkScan [] (available_from read) (sc_offset s) else s in
  MkScan (sc_pending s ++ read_bytes read) (sc_pending_offset s) (next_offset read).

Definition kept (prompt : bytes) : nat := Nat.max (length prompt - 1) (N.to_nat (4 * 1024)).

Definition scan_trim (prompt : bytes) (s : scan) : scan :=
  let discarded := length (sc_pending s) - kept prompt in
  MkScan (drop discarded (sc_pending s)) (sc_pending_offset s + N.of_nat discarded) (sc_offset s).

(** The offset behind the prompt, or the scan to go on with. *)
Definition scan_step (prompt : bytes) (read : RingRead) (s : scan) : N + scan :=
  let s := scan_read read s in
  match find_window prompt (sc_pending s) with
  | Some found => inl (sc_pending_offset s + N.of_nat (found + length prompt))%N
  | None => inr (scan_trim prompt s)
  end.

Section methods.
Context (env : Environment).
Local Notation base64_encode := (base64_encode env).
Local Notation base64_decode := (base64_decode env).
(** The events a wait for prompts may see. *)
Context (rounds : nat).

(** ** Input *)

Definition prompt_facts (step : nat) (prompt : bytes) (written : N) (s : scan) : Value :=
  Object [("step_index", uint (N.of_nat step)); ("wait_for", Str (string_of_chars (utf8_lossy prompt)));
          ("written", uint written); ("next_offset", uint (sc_offset s));
          ("output", Object (byte_content base64_encode (sc_pending s)))].

Definition prompt_missed (step : nat) (prompt : bytes) (written : N) (s : scan) : Error :=
  with_details (prompt_facts step prompt written s)
    (Error_new Code.Timeout
       ("inferior I/O step " +:+ dec (N.of_nat step) +:+ " did not observe its prompt")).

Definition inferior_exited (step : nat) (prompt : bytes) (written : N) (s : scan) : Error :=
  with_details (prompt_facts step prompt written s)
    (Error_new Code.InvalidState
       ("inferior exited before I/O step " +:+ dec (N.of_nat step) +:+ " observed its prompt")).

Definition stream_closed : Error :=
  Error_new Code.GdbExited "session event stream closed during inferior I/O".

(** Whether a published event ends the wait. *)
Definition ends_input (event : Event.DomainEvent) : handler bool :=
  match event with
  | Event.OutputAdvanced Out.InferiorPty _ _ _ => mret false
  | Event.BackendExited _ => mret true
  | _ => state ← hdo Hop.State; mret (attributed_exit state event)
  end.

(** The ring is read once more after the deadline: output and the deadline may
    be ready in the same turn. *)
Fixpoint wait_for_pty (fuel : nat) (prompt : bytes) (deadline : N) (step : nat) (written : N)
    (expired : bool) (s : scan) : handler N :=
  match fuel with
  | 0 => local out_of_fuel
  | S fuel =>
      read ← read_output InferiorRing (sc_offset s) (N.to_nat (64 * 1024));
      match scan_step prompt read s with
      | inl cursor => mret cursor
      | inr s =>
          if expired then check (Err (prompt_missed step prompt written s))
          else
            event ← hdo (Hop.NextEvent deadline);
            match event with
            | PublishedEvent event =>
                exited ← ends_input event;
                if exited : bool then check (Err (inferior_exited step prompt written s))
                else wait_for_pty fuel prompt deadline step written false s
            | Lagged _ => wait_for_pty fuel prompt deadline step written false s
            | Closed => check (Err stream_closed)
            | DeadlineExpired => wait_for_pty fuel prompt deadline step written true s
            end
      end
  end.

(** A write that failed, with what it wrote of its step. *)
Definition step_failure (step : nat) (requested written : N) (e : Error) : N * Error :=
  let step_written := N.min (default 0%N (counted "written" e)) requested in
  let written := (written + step_written)%N in
  (written, with_details (Object [("step_index", uint (N.of_nat step)); ("step_written", uint step_written);
                                  ("step_remaining", uint (requested - step_written));
                                  ("written", uint written)]) e).

(** What the steps wrote, also when one fails. *)
Fixpoint write_steps (steps : list IoWriteStep) (index : nat) (cursor deadline written : N)
    : handler (N * Result Error unit) :=
  match steps with
  | [] => mret (written, Ok tt)
  | step :: rest =>
      waited ← attempt (match ios_wait_for step with
                        | Some prompt =>
                            wait_for_pty rounds prompt deadline index written false (scan_from cursor)
                        | None => mret cursor
                        end);
      match waited with
      | Err e => mret (written, Err e)
      | Ok cursor =>
          if bool_decide (ios_bytes step = []) then write_steps rest (S index) cursor deadline written
          else
            now ← hdo Hop.Now;
            sent ← attempt (write_inferior_with_timeout (ios_bytes step) false (deadline - now));
            match sent with
            | Ok n => write_steps rest (S index) cursor deadline (written + n)
            | Err e => let '(written, e) := step_failure index (lenN (ios_bytes step)) written e in
                       mret (written, Err e)
            end
      end
  end.

Definition input_event : Event.DomainEvent := Event.ControllerChanged "inferior_input".

Definition write_transcript (steps : list IoWriteStep) (timeout : N) : handler Value :=
  _ ← hdo Hop.Subscribe;
  cursor ← hdo Hop.OutputPosition;
  now ← hdo Hop.Now;
  '(written, outcome) ← write_steps steps 0 cursor (now + timeout) 0;
  _ ← perform_when (0 <? written)%N (record_event input_event);
  _ ← check outcome;
  mret (Object [("steps_completed", uint (lenN steps)); ("written", uint written)]).

Definition io_timeout (parameters : Value) : Result Error N :=
  let timeout := default (wait_timeout env) (Json.get "timeout_ms" parameters ≫= Json.as_u64) in
  if (300000 <? timeout)%N then Err (Memory.invalid "inferior I/O timeout must be between 1 and 300000 ms")
  else Ok timeout.

Definition io_write (request : ApiRequest) : handler Value :=
  let parameters := req_parameters request in
  timeout ← check (io_timeout parameters);
  session ← check (required_session request);
  _ ← entry session;
  steps ← check (io_write_steps base64_decode parameters);
  match steps with
  | Some steps => write_transcript steps timeout
  | None =>
      b ← check (input_bytes base64_decode parameters);
      _ ← check (if (MAX_INFERIOR_INPUT_BYTES <? lenN b)%N then Err input_too_long else Ok tt);
      written ← write_inferior_with_timeout b false timeout;
      _ ← record_event input_event;
      mret (Object [("written", uint written)])
  end.

Definition eof_running : Error :=
  Error_new Code.TargetRunning "send_eof requires a stopped target; interrupt it first".

(** Two end-of-file characters: the first only releases pending input after raw mode. *)
Definition VEOF : bytes := ["004"%char; "004"%char].

Definition io_send_eof (request : ApiRequest) : handler Value :=
  session ← check (required_session request);
  _ ← entry session;
  state ← hdo Hop.State;
  _ ← check (if bool_decide (stop_id state = None) then Err eof_running else Ok tt);
  _ ← write_inferior_with_timeout VEOF true (wait_timeout env);
  _ ← record_event (Event.ControllerChanged "inferior_veof_sent");
  mret (Object [("sent", Bool true); ("closed", Bool false); ("mechanism", Str "pty_veof")]).

Definition U16_MAX : N := 65535.

Definition io_resize (request : ApiRequest) : handler Value :=
  let parameters := req_parameters request in
  rows ← check (unsigned parameters "rows");
  columns ← check (unsigned parameters "columns");
  _ ← check (if (rows =? 0)%N || (columns =? 0)%N || (U16_MAX <? rows)%N || (U16_MAX <? columns)%N
             then Err (Memory.invalid "invalid PTY dimensions") else Ok tt);
  session ← check (required_session request);
  _ ← entry session;
  _ ← resize_inferior rows columns;
  _ ← record_event (Event.ControllerChanged "inferior_terminal_resized");
  mret (Object [("rows", uint rows); ("columns", uint columns)]).

(** ** Output *)

Definition output_ring (stream : string) : Result Error OutputRing :=
  if bool_decide (stream = "pty") then Ok InferiorRing
  else if bool_decide (stream = "target") then Ok TargetRing
  else if bool_decide (stream = "console") then Ok ConsoleRing
  else if bool_decide (stream = "log") then Ok LogRing
  else Err (Memory.invalid "unknown output stream").

Definition io_read (request : ApiRequest) : handler Value :=
  let parameters := req_parameters request in
  session ← check (required_session request);
  _ ← entry session;
  let offset := default 0%N (Json.get "after_offset" parameters ≫= Json.as_u64) in
  let maximum := N.min (default (64 * 1024)%N (Json.get "max_bytes" parameters ≫= Json.as_u64)) (64 * 1024) in
  ring ← check (output_ring (default "pty" (Json.get "stream" parameters ≫= Json.as_str)));
  read ← read_output ring offset (N.to_nat maximum);
  evidence ← (match ring with
              | InferiorRing => hdo Hop.OutputEvidence
              | _ => mret Null
              end);
  mret (Object ([("requested_offset", uint (requested_offset read));
                 ("available_from", uint (available_from read)); ("next_offset", uint (next_offset read));
                 ("gap", Bool (gap read)); ("evidence", evidence)] ++
                byte_content base64_encode (read_bytes read))).

(** ** Raw commands *)

Definition raw_timeout (parameters : Value) : Result Error N :=
  let timeout := default 2000%N (Json.get "timeout_ms" parameters ≫= Json.as_u64) in
  if (timeout =? 0)%N || (60000 <? timeout)%N
  then Err (Memory.invalid "raw command timeout must be between 1 and 60000 ms") else Ok timeout.

Definition deferred : Value := Object [("status", Str "deferred")].

Definition console_command (text : string) : Result Error MiCommand :=
  c ← MiCommand_new (bytes_of "-interpreter-exec");
  with_arguments [BareArgument "console"; QuotedArgument text] c.

Definition raw_console (request : ApiRequest) : handler Value :=
  let parameters := req_parameters request in
  text ← check (text_parameter parameters "command");
  _ ← check (validate_console_command text);
  session ← check (required_session request);
  _ ← entry session;
  timeout ← check (raw_timeout parameters);
  _ ← record_event (Event.ConsistencyTainted ("raw console command executed: " +:+ first_word text));
  offset ← hdo Hop.OutputPosition;
  c ← check (console_command text);
  reply ← command_with_timeout c timeout;
  state ← hdo Hop.State;
  append_turn_output env offset
    (Object ([("command", reply_value reply); ("state_after", state_value state); ("reconciliation", deferred)] ++
             Normalize.command_output base64_encode (cr_stream_records reply) (cr_stream_truncated reply))).

(** Commands that change the host or the boundaries of the target. *)
Definition RAW_DENIED : list string :=
  ["-interpreter-exec"; "-gdb-exit"; "-gdb-set"; "-target-select"; "-target-attach"; "-target-file-get";
   "-target-file-put"; "-target-file-delete"; "-file-exec-and-symbols"; "-file-exec-file";
   "-file-symbol-file"; "-environment-cd"; "-inferior-tty-set"].

Definition raw_mi_is_denied (command : string) : bool := bool_decide (command ∈ RAW_DENIED).

Definition RAW_MANAGED : list string :=
  ["-break-"; "-exec-"; "-gdb-show"; "-list-thread-groups"; "-list-target-features";
   "-file-list-shared-libraries"; "-stack-list-"; "-stack-select-frame"; "-thread-info"; "-thread-select"].

Definition raw_mi_is_managed (command : string) : bool :=
  existsb (fun prefix => starts_with (bytes_of prefix) (bytes_of command)) RAW_MANAGED.

Definition raw_denied : Error :=
  Error_new Code.PolicyDenied "raw MI command bypasses a protected host or target boundary".

(** The kind of an argument and its text. *)
Definition raw_argument (argument : Value) : Result Error (string * string) :=
  match Json.as_str argument with
  | Some value => Ok ("string", value)
  | None =>
      value ← text_parameter argument "value";
      Ok (default "string" (Json.get "kind" argument ≫= Json.as_str), value)
  end.

Fixpoint raw_arguments (arguments : list Value) (total : N) (c : MiCommand) : Result Error MiCommand :=
  match arguments with
  | [] => Ok c
  | argument :: rest =>
      '(kind, value) ← raw_argument argument;
      let total := (total + lenN (bytes_of value))%N in
      if (16 * 1024 <? total)%N then Err (Memory.invalid "raw MI arguments exceed 16384 bytes")
      else
        c ← (if bool_decide (kind = "bare") then bare c (bytes_of value)
             else if bool_decide (kind = "string") then Ok (string_argument c (bytes_of value))
             else Err (Memory.invalid "raw MI argument kind must be bare or string"));
        raw_arguments rest total c
  end.

Definition raw_command (name : string) (parameters : Value) : Result Error MiCommand :=
  c ← MiCommand_new (bytes_of name);
  let arguments := default [] (Json.get "arguments" parameters ≫= Json.as_array) in
  if (64 <? lenN arguments)%N then Err (Memory.invalid "raw MI accepts at most 64 arguments")
  else raw_arguments arguments 0 c.

(** The effect of a raw command on the session's consistency. *)
Definition raw_effect (name : string) : Event.DomainEvent :=
  if raw_mi_is_managed name then Event.ConsistencyDirty ("managed raw MI command executed: " +:+ name)
  else Event.ConsistencyTainted ("unknown raw MI command executed: " +:+ name).

Definition raw_mi (request : ApiRequest) : handler Value :=
  let parameters := req_parameters request in
  name ← check (text_parameter parameters "command");
  _ ← check (if raw_mi_is_denied name then Err raw_denied else Ok tt);
  session ← check (required_session request);
  _ ← entry session;
  c ← check (raw_command name parameters);
  timeout ← check (raw_timeout parameters);
  _ ← record_event (raw_effect name);
  reply ← command_with_timeout c timeout;
  state ← hdo Hop.State;
  mret (Object [("command", reply_value reply); ("state_after", state_value state);
                ("reconciliation", deferred)]).

(** ** Methods of a session
    ([execute_method])

    The methods that act on a session through its handle; the others manage
    sessions, operations, events and artifacts. *)

Definition session_capabilities (request : ApiRequest) : handler Value :=
  session ← check (required_session request);
  _ ← entry session;
  c ← hdo Hop.Capabilities;
  mret (capabilities_value c).

(** The methods whose facts are presented as a read. *)
Definition presented_as_read (m : Method.CanonicalMethod) : bool :=
  match m with
  | Method.InspectionDiff | Method.InspectionSnapshotGet | Method.MemoryRead | Method.MemorySearch
  | Method.MemoryCompare | Method.RegisterRead | Method.DisassemblyRead | Method.InferiorIoRead => true
  | _ => false
  end.

(** The failures a stored snapshot lists. *)
Definition with_stored_failures (field : string) (r : SemanticResult) : outcome Error SemanticResult :=
  match Json.get field (facts r) with
  | None => Done r
  | Some failures =>
      decoded ← result_outcome (ok_or (decode_map decode_api_error failures) (json_failure env failures));
      unwrap_or_panic (with_failures field decoded r)
  end.

Definition stored_details (r : SemanticResult) : outcome Error SemanticResult :=
  r ← with_stored_failures "failures" r;
  r ← with_stored_failures "observation_failures" r;
  Done (observation_details r).

Definition present (request : ApiRequest) (result : Value) : handler OperationResult :=
  if presented_as_read (req_method request) then
    session ← check (required_session request);
    context ← (if bool_decide (Json.get "historical" result = Some (Bool true))
               then check (observation_context_from_observation (decode_error env) result)
               else
                 _ ← entry session;
                 state ← hdo Hop.State;
                 check (observation_context (req_parameters request) state));
    let r := semantic_read result context session in
    r ← run (if bool_decide (req_method request = Method.InspectionSnapshotGet) then stored_details r else Done r);
    mret (Semantic r)
  else mret (Legacy result).

Inductive Answered := Facts (m : handler Value) | Whole (m : handler SemanticResult).

Definition method_handler (request : ApiRequest) : option Answered :=
  let t := command_timeout env in
  let limits := limits env in
  match req_method request with
  | Method.SessionCapabilities => Some (Facts (session_capabilities request))
  | Method.SessionProviders => Some (Facts (session_providers env request))
  | Method.TargetLaunch => Some (Whole (target_launch env request))
  | Method.TargetAttach => Some (Facts (target_attach env request))
  | Method.TargetConnectRemote => Some (Facts (target_connect_remote env request))
  | Method.TargetOpenCore => Some (Facts (target_open_core env request))
  | Method.TargetDetach => Some (Facts (target_detach env request))
  | Method.TargetRestart => Some (Whole (target_restart env request))
  | Method.TargetKill => Some (Facts (target_kill env request))
  | Method.ExecutionControl => Some (Whole (execution_control env request))
  | Method.ExecutionWait => Some (Whole (execution_wait env request))
  | Method.BreakpointCreate => Some (Facts (breakpoint_create env request))
  | Method.BreakpointUpdate => Some (Facts (breakpoint_update env request))
  | Method.BreakpointDelete => Some (Facts (breakpoint_delete env request))
  | Method.BreakpointList => Some (Facts (breakpoint_list env request))
  | Method.InspectionGet => Some (Whole (inspection_result env ROUNDS request))
  | Method.InspectionSnapshot => Some (Whole (inspection_snapshot env (inspection_result env ROUNDS) request))
  | Method.InspectionDiff => Some (Facts (inspection_diff request))
  | Method.InspectionBatch => Some (Whole (inspection_batch env (inspection_result env ROUNDS) request))
  | Method.InspectionSnapshotGet => Some (Facts (inspection_snapshot_get request))
  | Method.ValueEvaluate => Some (Whole (evaluate_value env request))
  | Method.ValueCreate => Some (Whole (value_create t base64_encode request))
  | Method.ValueChildren => Some (Whole (value_children t limits base64_encode request))
  | Method.ValueUpdate => Some (Whole (value_update t base64_encode request))
  | Method.ValueRelease => Some (Facts (value_release t request))
  | Method.MemoryRead => Some (Facts (memory_read_of env request))
  | Method.MemoryWrite => Some (Facts (memory_write t base64_decode (sha256 env) request))
  | Method.MemorySearch => Some (Facts (memory_search t base64_decode request))
  | Method.MemoryCompare => Some (Facts (memory_compare t limits base64_decode (sha256 env) request))
  | Method.RegisterRead => Some (Facts (register_read env request))
  | Method.RegisterWrite => Some (Facts (register_write env request))
  | Method.DisassemblyRead => Some (Facts (disassembly_read env request))
  | Method.InferiorIoRead => Some (Facts (io_read request))
  | Method.InferiorIoWrite => Some (Facts (io_write request))
  | Method.InferiorIoCloseStdin | Method.InferiorIoSendEof => Some (Facts (io_send_eof request))
  | Method.InferiorIoResize => Some (Facts (io_resize request))
  | Method.TrackingAddExpression => Some (Facts (tracking_add_expression request))
  | Method.TrackingAddMemory => Some (Facts (tracking_add_memory limits request))
  | Method.TrackingRemove => Some (Facts (tracking_remove request))
  | Method.TrackingList => Some (Facts (tracking_list request))
  | Method.SignalGet => Some (Facts (signal_get request))
  | Method.SignalUpdate => Some (Facts (signal_update env request))
  | Method.AgentHypothesisCheck => Some (Facts (agent_hypothesis_check env request))
  | Method.AgentProbe | Method.AgentExperiment => Some (Facts (agent_probe env request))
  | Method.KernelInspect => Some (Facts (kernel_inspect env request))
  | Method.KernelMonitor => Some (Facts (kernel_monitor env request))
  | Method.RawMi => Some (Facts (raw_mi request))
  | Method.RawConsole => Some (Facts (raw_console request))
  | _ => None
  end.

Definition execute_session_method (request : ApiRequest) : option (handler OperationResult) :=
  answered ← method_handler request;
  Some (match answered with
        | Facts m => result ← m; present request result
        | Whole m => r ← m; mret (Semantic r)
        end).

End methods.

(** ** Prompts *)

Definition occurs (window b : bytes) (i : nat) : Prop := take (length window) (drop i b) = window.

(** The first occurrence of a window. *)
Definition first_window (window b : bytes) (o : option nat) : Prop :=
  match o with
  | Some i => occurs window b i /\ forall j, occurs window b j -> i <= j
  | None => forall j, ~ occurs window b j
  end.

Lemma occurs_nil window i : window <> [] -> ~ occurs window [] i.
Proof. unfold occurs. rewrite drop_nil, take_nil. congruence. Qed.

Lemma occurs_succ window c b i : occurs window (c :: b) (S i) <-> occurs window b i.
Proof. done. Qed.

Lemma find_window_first window b : window <> [] -> first_window window b (find_window window b).
Proof.
  intros Hw. induction b as [|c b IH]; cbn [find_window].
  { intros j. by apply occurs_nil. }
  destruct (bool_decide_reflect (take (length window) (c :: b) = window)) as [H|H].
  { split; [done|]. intros j _. lia. }
  destruct (find_window window b) as [i|]; cbn in *.
  - destruct IH as [H1 H2]. split; [done|]. intros [|j] Hj; [done|]. apply occurs_succ, H2 in Hj. lia.
  - intros [|j] Hj; [done|]. by apply occurs_succ, IH in Hj.
Qed.

Lemma first_window_unique window b o o' : first_window window b o -> first_window window b o' -> o = o'.
Proof.
  destruct o as [i|], o' as [j|]; cbn; [|naive_solver..|done].
  intros [H1 H2] [H3 H4]. f_equal. apply H2 in H3. apply H4 in H1. lia.
Qed.

Lemma occurs_app window b c i : occurs window b i -> occurs window (b ++ c) i.
Proof.
  unfold occurs. intros H. destruct (decide (i <= length b)) as [Hi|Hi].
  - rewrite drop_app_le by done. rewrite take_app_le; [done|].
    rewrite <-H at 1. rewrite length_take. lia.
  - rewrite drop_ge in H by lia. rewrite take_nil in H. by subst window.
Qed.

Lemma occurs_end window b i : window <> [] -> occurs window b i -> i + length window <= length b.
Proof.
  unfold occurs. intros Hw H. assert (length window <= length b - i) as Hl.
  { rewrite <-H at 1. rewrite length_take, length_drop. lia. }
  destruct window; [done|]. cbn in *. lia.
Qed.

Lemma occurs_within window b c i :
  occurs window (b ++ c) i -> i + length window <= length b -> occurs window b i.
Proof.
  unfold occurs. intros H Hi. rewrite drop_app_le in H by lia. rewrite take_app_le in H; [done|].
  rewrite length_drop. lia.
Qed.

Lemma occurs_drop window b d i : occurs window (drop d b) i <-> occurs window b (d + i).
Proof. unfold occurs. by rewrite drop_drop. Qed.

(** Bytes may be forgotten that are too far back to be part of a new occurrence. *)
Lemma find_window_forget window b c d :
  window <> [] -> find_window window b = None -> d + length window <= S (length b) ->
  find_window window (b ++ c) = (fun i => d + i) <$> find_window window (drop d b ++ c).
Proof.
  intros Hw Hb Hd. pose proof (find_window_first window b Hw) as Hn. rewrite Hb in Hn. cbn in Hn.
  assert (d <= length b) as Hle by (destruct window; [done|]; cbn in Hd; lia).
  eapply first_window_unique; [by apply find_window_first|].
  pose proof (find_window_first window (drop d b ++ c) Hw) as H.
  rewrite <-(drop_app_le b c d) in * by done.
  assert (forall j, occurs window (b ++ c) j -> d <= j) as Hback.
  { intros j Hj. destruct (decide (d <= j)); [done|]. exfalso. apply (Hn j).
    apply (occurs_within _ _ c); [done|lia]. }
  destruct (find_window window (drop d (b ++ c))) as [i|]; cbn in *.
  - destruct H as [H1 H2]. rewrite occurs_drop in H1. split; [done|]. intros j Hj.
    pose proof (Hback j Hj). specialize (H2 (j - d)). rewrite occurs_drop in H2.
    replace (d + (j - d)) with j in H2 by lia. specialize (H2 Hj). lia.
  - intros j Hj. pose proof (Hback j Hj). apply (H (j - d)). rewrite occurs_drop. by replace (d + (j - d)) with j by lia.
Qed.

(** The reads of an output that arrives in chunks. *)
Definition chunk_read (offset : N) (chunk : bytes) : RingRead :=
  MkRingRead offset 0 (offset + lenN chunk) false chunk.

Fixpoint scan_chunks (prompt : bytes) (chunks : list bytes) (s : scan) : option N :=
  match chunks with
  | [] => None
  | chunk :: rest =>
      match scan_step prompt (chunk_read (sc_offset s) chunk) s with
      | inl cursor => Some cursor
      | inr s => scan_chunks prompt rest s
      end
  end.

(** What is pending is the end of what was seen, and enough of it. *)
Record scanning (prompt : bytes) (cursor : N) (seen : bytes) (s : scan) : Prop := {
  scanning_offset : sc_offset s = (cursor + lenN seen)%N;
  scanning_pending : exists d, sc_pending s = drop d seen /\ d <= length seen /\
    sc_pending_offset s = (cursor + N.of_nat d)%N /\ (d = 0 \/ d + length prompt <= S (length seen));
  scanning_missed : find_window prompt seen = None
}.

Lemma find_window_app window b c i :
  window <> [] -> find_window window b = Some i -> find_window window (b ++ c) = Some i.
Proof.
  intros Hw Hb. eapply first_window_unique; [by apply find_window_first|].
  pose proof (find_window_first window b Hw) as H. rewrite Hb in H. destruct H as [H1 H2].
  split; [by apply occurs_app|]. intros j Hj. destruct (decide (i <= j)); [done|].
  apply H2. apply (occurs_within _ _ c); [done|]. apply occurs_end in H1; [lia|done].
Qed.

Lemma scan_step_seen prompt cursor seen s chunk :
  prompt <> [] -> scanning prompt cursor seen s ->
  match scan_step prompt (chunk_read (sc_offset s) chunk) s with
  | inl c => exists i, find_window prompt (seen ++ chunk) = Some i /\ c = (cursor + N.of_nat (i + length prompt))%N
  | inr s' => scanning prompt cursor (seen ++ chunk) s'
  end.
Proof.
  intros Hp [Ho (d & Hpend & Hd & Hoff & Hfar) Hm]. unfold scan_step, scan_read, chunk_read. cbn [gap read_bytes next_offset].
  cbn [sc_pending sc_pending_offset sc_offset]. rewrite Hpend, Hoff.
  assert (find_window prompt (seen ++ chunk) = (fun i => d + i) <$> find_window prompt (drop d seen ++ chunk)) as E.
  { destruct Hfar as [->|Hfar]; [|by apply find_window_forget]. rewrite drop_0. by destruct (find_window prompt (seen ++ chunk)). }
  destruct (find_window prompt (drop d seen ++ chunk)) as [i|] eqn:Ei; cbn in E.
  - exists (d + i). split; [done|]. lia.
  - split; cbn [sc_pending sc_pending_offset sc_offset scan_trim]; [|clear E|done].
    + rewrite Ho, lenN_app. lia.
    + set (k := length (drop d seen ++ chunk) - kept prompt). exists (d + k).
      assert (length (drop d seen ++ chunk) = length seen - d + length chunk) as El
        by (rewrite length_app, length_drop; done).
      assert (k = 0 \/ k + length prompt <= S (length seen - d + length chunk)) as Hk.
      { destruct (decide (k = 0)) as [|Hk]; [by left|right]. subst k. rewrite El in *. unfold kept in *. lia. }
      rewrite length_app. split_and!.
      * rewrite <-drop_drop, <-(drop_app_le seen chunk d) by done. done.
      * subst k. rewrite El. lia.
      * lia.
      * destruct Hk as [->|Hk]; [|right; lia]. rewrite Nat.add_0_r. destruct Hfar as [|]; [by left|right; lia].
Qed.

Lemma scan_chunks_seen prompt cursor seen s chunks :
  prompt <> [] -> scanning prompt cursor seen s ->
  scan_chunks prompt chunks s =
    (fun i => (cursor + N.of_nat (i + length prompt))%N) <$> find_window prompt (seen ++ concat chunks).
Proof.
  intros Hp. revert seen s. induction chunks as [|chunk chunks IH]; intros seen s Hs; cbn [scan_chunks concat].
  { rewrite app_nil_r. by rewrite (scanning_missed _ _ _ _ Hs). }
  pose proof (scan_step_seen prompt cursor seen s chunk Hp Hs) as H.
  destruct (scan_step prompt (chunk_read (sc_offset s) chunk) s) as [c|s']; rewrite app_assoc.
  - destruct H as (i & Hi & ->). by rewrite (find_window_app _ _ _ i).
  - by apply IH.
Qed.

(** C27: a prompt is found however the output arrives.  Whatever the chunks in
    which the output of the terminal is read, the search that forgets old
    output ends where the first occurrence of the prompt in the whole output
    ends, and finds none exactly when the output holds none - also when the
    prompt is split over many reads. *)
Theorem prompts_are_found_in_any_chunks prompt cursor chunks :
  prompt <> [] ->
  scan_chunks prompt chunks (scan_from cursor) =
    (fun i => (cursor + N.of_nat (i + length prompt))%N) <$> find_window prompt (concat chunks) /\
  first_window prompt (concat chunks) (find_window prompt (concat chunks)).
Proof.
  intros Hp. split; [|by apply find_window_first]. apply (scan_chunks_seen prompt cursor []); [done|].
  split; [by rewrite N.add_0_r| |done]. exists 0. split_and!; [done|done|by rewrite N.add_0_r|by left].
Qed.

Lemma prompts_are_found_in_any_chunks_witness :
  bytes_of "ok> " <> [] /\
  scan_chunks (bytes_of "ok> ") [bytes_of "one o"; bytes_of "k"; bytes_of "> two"] (scan_from 100) = Some 108%N.
Proof.
  split; [done|].
  destruct (prompts_are_found_in_any_chunks (bytes_of "ok> ") 100
    [bytes_of "one o"; bytes_of "k"; bytes_of "> two"]) as [H _]; [done|].
  rewrite H. vm_compute. reflexivity.
Defined.
