(* ===== verification/ReadProps.v ===== *)
(** * ReadProps: which requests a handler makes of its session

    [Sends R ctl m]: whatever is answered, [m] sends the worker only requests
    in [R], sends control requests only if [ctl] holds, and ends without
    running out of rounds.  A result that is inspected with [check] or [run]
    leaves its equation behind, so that what was checked is known where a
    command is sent.  Then which MI commands only read, and that the handlers
    of memory send no others. *)
From S2P Require Import Prelude Text MiAst Json Errors Domain Backend Normalize Ring Protocol Wait Effects Program Actor Requests Wire Results Config Gateway Encoding Context MiView Handle Memory Environment Values Reconcile Inspection Reading.

Section sends.
Context (R : WorkerRequest -> Prop) (ctl : ControlRequest -> Prop).

Definition may_send (o : Hop.op) : Prop :=
  match o with
  | Hop.Send r _ => R r
  | Hop.SendControl r _ | Hop.ReceiveControl r => ctl r
  | _ => True
  end.

Class Sends {A} (m : handler A) : Prop :=
  sends_all : forall s tr,
    safe (E := HandleSig) (fun _ o => may_send o) (fun r _ => r.2 <> OutOfFuel) (m s) tr.

Lemma Sends_ret {A} (a : A) : Sends (mret a).
Proof. by intros s tr. Qed.

Lemma Sends_bind {A B} (m : handler A) (f : A -> handler B) :
  Sends m -> (forall a, Sends (f a)) -> Sends (m ≫= f).
Proof.
  intros Hm Hf s tr. apply safe_then. apply (safe_mono _ _ _ _ _ (Hm s tr)).
  intros [s' []] tr' H; cbn in *; try done. apply Hf.
Qed.

Lemma Sends_check {A} (r : Result Error A) : Sends (check r).
Proof. intros s tr. by destruct r. Qed.

Lemma Sends_check_bind {A B} (r : Result Error A) (f : A -> handler B) :
  (forall a, r = Ok a -> Sends (f a)) -> Sends (check r ≫= f).
Proof. intros H s tr. destruct r as [a|e]; [by apply (H a)|done]. Qed.

Lemma Sends_run {A} (o : outcome Error A) : o <> OutOfFuel -> Sends (run o).
Proof. by intros H s tr. Qed.

Lemma Sends_run_bind {A B} (o : outcome Error A) (f : A -> handler B) :
  o <> OutOfFuel -> (forall a, o = Done a -> Sends (f a)) -> Sends (run o ≫= f).
Proof. intros Ho H s tr. destruct o as [a| | |]; try done. by apply (H a). Qed.

Lemma Sends_local {A} (m : comp (option Observation) A) :
  (forall s, (m s).2 <> OutOfFuel) -> Sends (local m).
Proof. intros H s tr. apply H. Qed.

Lemma Sends_hdo o : may_send o -> Sends (hdo o).
Proof. intros H s tr. by split. Qed.

Lemma Sends_attempt {A} (m : handler A) : Sends m -> Sends (attempt m).
Proof.
  intros Hm s tr. apply safe_then. apply (safe_mono _ _ _ _ _ (Hm s tr)).
  intros [s' []] tr' H; cbn in *; done.
Qed.

Lemma Sends_when b (m : handler unit) : Sends m -> Sends (perform_when b m).
Proof. destruct b; [done|]. intros _. apply Sends_ret. Qed.

Lemma Sends_hask {A} (m : handler (Result Error A)) : Sends m -> Sends (hask m).
Proof. intros Hm. apply Sends_bind; [done|]. intros r. apply Sends_check. Qed.

End sends.

Lemma Sends_mono (R R' : WorkerRequest -> Prop) (ctl ctl' : ControlRequest -> Prop) {A} (m : handler A) :
  (forall r, R r -> R' r) -> (forall r, ctl r -> ctl' r) -> Sends R ctl m -> Sends R' ctl' m.
Proof.
  intros HR Hc Hm s tr. specialize (Hm s tr). revert tr Hm. generalize (m s) as p.
  induction p as [x|o k IH]; intros tr; cbn; [done|]. intros [Ho Hk]. split; [|intros x; by apply IH].
  destruct o; cbn in *; auto.
Qed.

Create HintDb sends.

(** Symbolic steps through a method. *)
Ltac sends_step :=
  match goal with
  | |- Sends _ _ (mret _) => apply Sends_ret
  | |- Sends _ _ (check _) => apply Sends_check
  | |- Sends _ _ (hdo _) => apply Sends_hdo; exact I
  | |- Sends _ _ (hask _) => apply Sends_hask
  | |- Sends _ _ (attempt _) => apply Sends_attempt
  | |- Sends _ _ (perform_when _ _) => apply Sends_when
  | |- Sends _ _ (mbind _ (check _)) => apply Sends_check_bind; intros ? ?
  | |- Sends _ _ (mbind _ (run _)) => apply Sends_run_bind; [|intros ? ?]
  | |- Sends _ _ (mbind _ _) => apply Sends_bind; [|intros ?]
  | |- Sends _ _ (run _) => apply Sends_run
  | |- Sends _ _ (local (fun s => (s, _))) => apply Sends_local; intros []; cbn [snd]
  | |- Sends _ _ (local _) => apply Sends_local; by intros []
  | |- Sends _ _ observation_scope => apply Sends_local; by intros []
  | |- _ => assumption
  | |- _ => solve [eauto with sends nocore]
  end.

Ltac sends_tac :=
  repeat (first [progress cbv beta iota zeta | sends_step | case_match]).

(** ** Methods of the handle *)

Section handle.
Context {R : WorkerRequest -> Prop} {ctl : ControlRequest -> Prop}.

Lemma Sends_exchange r : R r -> Sends R ctl (exchange r).
Proof.
  intros Hr. unfold exchange, enqueue, receive. apply Sends_bind.
  - apply Sends_bind; [by apply Sends_hdo|]. intros d. apply Sends_check.
  - intros _. sends_tac.
Qed.

Lemma Sends_exchange_until r d : R r -> Sends R ctl (exchange_until r d).
Proof.
  intros Hr. unfold exchange_until, enqueue_until, receive. apply Sends_bind.
  - apply Sends_bind; [by apply Sends_hdo|]. intros x. apply Sends_check.
  - intros _. sends_tac.
Qed.

Lemma Sends_exchange_control r d : ctl r -> Sends R ctl (exchange_control r d).
Proof.
  intros Hc. unfold exchange_control. apply Sends_bind; [by apply Sends_hdo|]. intros dl. sends_tac; by apply Sends_hdo.
Qed.

Lemma Sends_owning_operation : Sends R ctl owning_operation.
Proof. unfold owning_operation, active_operation. sends_tac. Qed.
Hint Resolve Sends_owning_operation : sends.

Lemma Sends_require_active : Sends R ctl require_active_operation.
Proof. unfold require_active_operation. sends_tac. Qed.

Lemma Sends_deadline t : Sends R ctl (command_deadline t).
Proof. unfold command_deadline. sends_tac. Qed.
Hint Resolve Sends_deadline : sends.

Lemma Sends_with_sequence {A} d (m : handler A) : Sends R ctl m -> Sends R ctl (with_sequence d m).
Proof. intros Hm. unfold with_sequence. sends_tac. Qed.

Lemma Sends_in_sequence {A} d (m : handler A) : Sends R ctl m -> Sends R ctl (in_sequence d m).
Proof.
  intros Hm. unfold in_sequence. apply Sends_bind; [sends_step|]. intros [].
  - done.
  - by apply Sends_with_sequence.
Qed.

(** A command may be sent for any operation by any deadline. *)
Definition sendable (c : MiCommand) : Prop := forall op d, R (Command c op d).

Lemma Sends_send_command c d : sendable c -> Sends R ctl (send_command c d).
Proof.
  intros Hc. unfold send_command. apply Sends_bind; [sends_tac|]. intros op.
  unfold enqueue_command. apply Sends_hask, Sends_exchange_until, Hc.
Qed.

Section timeout.
Context (command_timeout : N).

Lemma Sends_command_with_timeout c t : sendable c -> Sends R ctl (command_with_timeout c t).
Proof.
  intros Hc. unfold command_with_timeout. apply Sends_bind; [sends_tac|]. intros d.
  by apply Sends_in_sequence, Sends_send_command.
Qed.

Lemma Sends_command c : sendable c -> Sends R ctl (command command_timeout c).
Proof. apply Sends_command_with_timeout. Qed.

Lemma Sends_safe_evaluate_batch cs :
  (forall op d, R (SafeEvaluate cs op d)) -> Sends R ctl (safe_evaluate_batch command_timeout cs).
Proof.
  intros Hc. unfold safe_evaluate_batch. apply Sends_bind; [sends_tac|]. intros d.
  apply Sends_in_sequence. unfold send_safe_evaluate. apply Sends_bind; [sends_tac|]. intros op.
  apply Sends_hask, Sends_exchange_until, Hc.
Qed.

Lemma Sends_safe_evaluate c :
  (forall op d, R (SafeEvaluate [c] op d)) -> Sends R ctl (safe_evaluate command_timeout c).
Proof.
  intros Hc. unfold safe_evaluate. apply Sends_bind; [by apply Sends_safe_evaluate_batch|].
  intros replies. apply Sends_bind; [|intros; apply Sends_check].
  apply Sends_local. intros s. by destruct (last replies).
Qed.

Lemma Sends_transaction before c after :
  (forall op d, R (Transaction before c after op d)) ->
  Sends R ctl (transaction command_timeout before c after).
Proof.
  intros Hc. unfold transaction. apply Sends_bind; [sends_tac|]. intros d.
  apply Sends_in_sequence. unfold send_transaction. apply Sends_bind; [sends_tac|]. intros op.
  apply Sends_hask, Sends_exchange_until, Hc.
Qed.

Lemma Sends_refresh :
  (forall op d, R (RefreshTargetCapabilities op d)) ->
  Sends R ctl (refresh_target_capabilities command_timeout).
Proof.
  intros Hc. unfold refresh_target_capabilities. apply Sends_bind; [sends_tac|]. intros d.
  apply Sends_in_sequence. unfold send_refresh_target_capabilities. apply Sends_bind; [sends_tac|].
  intros op. apply Sends_hask, Sends_exchange_until, Hc.
Qed.

Lemma Sends_register_names :
  (forall c, list_register_names = Ok c -> sendable c) -> Sends R ctl (register_names command_timeout).
Proof.
  intros Hc. unfold register_names. apply Sends_bind; [apply Sends_require_active|]. intros _.
  apply Sends_bind; [sends_step|]. intros [[[reply|]]|].
  - apply Sends_ret.
  - apply Sends_check_bind. intros c E. apply Sends_bind; [sends_tac|]. intros d.
    apply Sends_bind; [by apply Sends_send_command, Hc|]. intros reply. sends_tac.
  - apply Sends_check_bind. intros c E. by apply Sends_command, Hc.
Qed.

Lemma Sends_require_context e : Sends R ctl (require_observation_context e).
Proof. unfold require_observation_context. sends_tac. Qed.

Lemma Sends_stable_observation {A} expected (m : handler A) :
  Sends R ctl m -> Sends R ctl (stable_observation command_timeout expected m).
Proof.
  intros Hm. unfold stable_observation.
  assert (Sends R ctl (then_stable expected m)) as Ht.
  { unfold then_stable. apply Sends_bind; [done|]. intros a.
    apply Sends_bind; [apply Sends_require_context|]. intros _. apply Sends_ret. }
  apply Sends_bind; [sends_step|]. intros [o|].
  - apply Sends_bind; [apply Sends_require_context|]. by intros _.
  - apply Sends_bind; [sends_tac|]. intros d. apply Sends_with_sequence.
    apply Sends_bind; [apply Sends_require_context|]. intros _. unfold in_scope. sends_tac.
Qed.

Lemma Sends_interrupt c : (forall d, ctl (Interrupt c d 0)) -> Sends R ctl (interrupt command_timeout c).
Proof.
  intros Hc. unfold interrupt. apply Sends_bind; [sends_tac|]. intros d.
  by apply Sends_hask, Sends_exchange_control.
Qed.

End timeout.

Lemma Sends_record_event e : R (RecordEvent e) -> Sends R ctl (record_event e).
Proof. intros H. by apply Sends_hask, Sends_exchange. Qed.

Lemma Sends_record_tracking values stop epoch :
  (forall op, R (RecordTracking values stop epoch op)) -> Sends R ctl (record_tracking values stop epoch).
Proof.
  intros H. unfold record_tracking, active_operation. apply Sends_bind; [apply Sends_require_active|].
  intros _. apply Sends_bind; [by apply Sends_hdo|]. intros state. apply Sends_check_bind. intros _ _.
  apply Sends_bind; [by apply Sends_hdo|]. intros op. by apply Sends_hask, Sends_exchange.
Qed.

Lemma Sends_commit v stop epoch partial publish :
  (forall op, R (CommitSnapshot v stop epoch partial publish op)) ->
  Sends R ctl (commit_observation_inner v stop epoch partial publish).
Proof.
  intros H. unfold commit_observation_inner, active_operation.
  apply Sends_bind; [apply Sends_require_active|]. intros _.
  apply Sends_bind; [by apply Sends_hdo|]. intros op. by apply Sends_hask, Sends_exchange.
Qed.

Lemma Sends_entry id : Sends R ctl (entry id).
Proof. unfold entry. sends_tac. Qed.

Lemma Sends_snapshot_cached id : Sends R ctl (snapshot_cached id).
Proof. unfold snapshot_cached. sends_tac. Qed.

End handle.

#[export] Hint Resolve Sends_owning_operation Sends_require_active Sends_deadline Sends_require_context
  Sends_entry Sends_snapshot_cached : sends.

(** ** Commands that only read

    Which MI commands observe the target without changing it, that the
    commands the handlers build are among them, and that the handlers of
    memory, values and reconciliation send no others. *)

(** *** Commands *)

Definition READING : list string :=
  ["-stack-list-frames"; "-stack-list-arguments"; "-stack-list-variables"; "-stack-info-frame";
   "-thread-info"; "-list-thread-groups"; "-data-list-register-names"; "-data-list-register-values";
   "-data-disassemble"; "-data-read-memory-bytes"; "-file-list-shared-libraries";
   "-file-list-exec-source-files"; "-break-list"; "-symbol-info-functions"; "-symbol-info-types";
   "-symbol-info-variables"; "-var-list-children"; "-var-update"].

(** The last argument of a command, a quoted text. *)
Definition ends_with_text (c : MiCommand) (text : bytes) : Prop :=
  exists before, command_arguments c = before ++ [StringArgument text].

(** A console command that lists locals, shows a layout or searches memory. *)
Definition console_read (c : MiCommand) : Prop :=
  command_name c = bytes_of "-interpreter-exec" /\
  exists text, ends_with_text c text /\
    (text = bytes_of "info locals" \/ starts_with (bytes_of "ptype /o ") text = true \/
     starts_with (bytes_of "find /b /") text = true).

(** An evaluation of an expression that passed the screen. *)
Definition screened_evaluation (c : MiCommand) : Prop :=
  command_name c = bytes_of "-data-evaluate-expression" /\
  exists e, ends_with_text c (bytes_of e) /\ validate_expression e = Done tt.

Definition reads (c : MiCommand) : Prop :=
  command_name c ∈ bytes_of <$> READING \/ console_read c \/ screened_evaluation c.

(** The worker runs these behind its guards against calls and writes. *)
Definition guarded (c : MiCommand) : Prop :=
  command_name c ∈ bytes_of <$> ["-data-evaluate-expression"; "-var-create"].

(** What was learned of breakpoints, and what became of a snapshot. *)
Definition bookkeeping (e : Event.DomainEvent) : Prop :=
  match e with
  | Event.BreakpointCreated _ _ _ | Event.BreakpointModified _ _ _ | Event.BreakpointDeleted _
  | Event.BreakpointLocations _ _ | Event.SnapshotStarted _ | Event.SnapshotFailed _ => True
  | _ => False
  end.

(** What a handler that only reads may ask the worker for. *)
Definition reading (r : WorkerRequest) : Prop :=
  match r with
  | Command c _ _ => reads c
  | SafeEvaluate cs _ _ => Forall guarded cs
  | RecordEvent e => bookkeeping e
  | GetOperation _ | GetValue _ | ListTracking | RecordTracking _ _ _ _ | CommitSnapshot _ _ _ _ _ _
  | ReadOutput _ _ _ => True
  | _ => False
  end.

(** A read that waits for an operation records it by the control channel. *)
Definition records_operation (r : ControlRequest) : Prop :=
  match r with RecordOperation _ _ => True | _ => False end.

Abbreviation Reads := (Sends reading (fun _ => False)).

(** *** How commands are built *)

Lemma MiCommand_new_Ok name c : MiCommand_new name = Ok c -> c = MkMiCommand name [].
Proof. unfold MiCommand_new. destruct (_ || _); [done|]. by intros [= <-]. Qed.

(** [c'] is [c] with arguments in front and behind. *)
Definition extended (c c' : MiCommand) (args : list MiArgument) : Prop :=
  command_name c' = command_name c /\ exists before, command_arguments c' = before ++ args.

Lemma option_pair_name name value c c' : option_pair name value c = Ok c' -> command_name c' = command_name c.
Proof. unfold option_pair. by intros (c1 & ->%bare_Ok & ->%bare_Ok)%bind_Ok. Qed.

Lemma context_options_Ok c p s c' : context_options c p s = Ok c' -> extended c c' (command_arguments c).
Proof.
  unfold context_options. intros ([] & _ & H)%bind_Ok. apply bind_Ok in H as (context & _ & H).
  apply bind_Ok in H as (c1 & ->%MiCommand_new_Ok & H). apply bind_Ok in H as (c2 & H2 & H).
  apply bind_Ok in H as (c3 & H3 & H). simplify_eq. split; [|by eexists]. cbn.
  assert (command_name c2 = command_name c) as E2
    by (destruct (or_else (backend_thread context) _); [by apply option_pair_name in H2|by simplify_eq]).
  destruct (or_else (frame_level context) _); [by apply option_pair_name in H3 as ->|by simplify_eq].
Qed.

Definition argument (a : Argument) : MiArgument :=
  match a with BareArgument s => Bare (bytes_of s) | QuotedArgument s => StringArgument (bytes_of s) end.

Lemma with_arguments_Ok args c c' :
  with_arguments args c = Ok c' ->
  command_name c' = command_name c /\ command_arguments c' = command_arguments c ++ (argument <$> args).
Proof.
  revert c. induction args as [|[s|s] args IH]; intros c; cbn [with_arguments fmap list_fmap].
  - intros [= <-]. by rewrite app_nil_r.
  - intros (c1 & ->%bare_Ok & H)%bind_Ok. apply IH in H as [-> ->]. cbn. by rewrite <-app_assoc.
  - intros H. apply IH in H as [-> ->]. cbn. by rewrite <-app_assoc.
Qed.

Lemma contextual_command_Ok name args p s c :
  contextual_command name args p s = Ok c ->
  command_name c = bytes_of name /\ exists before, command_arguments c = before ++ (argument <$> args).
Proof.
  unfold contextual_command. intros ([] & _ & H)%bind_Ok. apply bind_Ok in H as (c1 & ->%MiCommand_new_Ok & H).
  apply bind_Ok in H as (c2 & [H2 [before Hb]]%context_options_Ok & H).
  apply with_arguments_Ok in H as [H3 H4]. split; [by rewrite H3|]. exists (command_arguments c2). done.
Qed.

Lemma evaluate_command_Ok e p s c :
  evaluate_command e p s = Ok c ->
  command_name c = bytes_of "-data-evaluate-expression" /\ ends_with_text c (bytes_of e).
Proof.
  unfold evaluate_command. intros (c1 & ->%MiCommand_new_Ok & H)%bind_Ok.
  apply context_options_Ok in H as [H1 [before H2]]. split; [done|]. by exists before.
Qed.

(** A command that starts with a name and is extended. *)
Ltac built_by :=
  repeat match goal with
  | H : _ ≫= _ = Ok _ |- _ => apply bind_Ok in H as (? & ? & ?)
  | H : MiCommand_new _ = Ok _ |- _ => apply MiCommand_new_Ok in H; subst
  | H : bare _ _ = Ok _ |- _ => apply bare_Ok in H; subst
  | H : with_arguments _ _ = Ok _ |- _ => apply with_arguments_Ok in H as [? ?]
  | H : context_options _ _ _ = Ok _ |- _ => apply context_options_Ok in H as [? [? ?]]
  | H : Ok _ = Ok _ |- _ => injection H as H; subst
  end.

(** The name of a command that was built is among the reading ones. *)
Ltac named_read := built_by; left; simplify_eq/=; repeat match goal with
  | H : command_name ?c = _ |- context [command_name ?c] => rewrite H end;
  cbn; set_solver.

Lemma sendable_reads c : reads c -> sendable (R := reading) c.
Proof. by intros H op d. Qed.

Lemma guarded_evaluation e p s c : evaluate_command e p s = Ok c -> guarded c.
Proof. intros [H _]%evaluate_command_Ok. unfold guarded. rewrite H. set_solver. Qed.

Lemma screened_command e p s c :
  evaluate_command e p s = Ok c -> validate_expression e = Done tt -> reads c.
Proof. intros [H1 H2]%evaluate_command_Ok Hv. right; right. split; [done|]. by exists e. Qed.

Lemma register_names_reads c : list_register_names = Ok c -> sendable (R := reading) c.
Proof. unfold list_register_names. intros H. apply sendable_reads. named_read. Qed.

Lemma read_command_reads a n c : read_command a n = Ok c -> reads c.
Proof. unfold read_command. intros H. named_read. Qed.

Lemma find_command_reads start len pattern maximum c : find_command start len pattern maximum = Ok c -> reads c.
Proof.
  unfold find_command. intros H. built_by. right; left. split; [done|]. eexists. split; [by eexists|].
  right; right. by rewrite bytes_of_app.
Qed.

Lemma layout_command_reads name c : layout_command name = Ok c -> reads c.
Proof.
  unfold layout_command. intros (c0 & ->%MiCommand_new_Ok & [Hn Ha]%with_arguments_Ok)%bind_Ok.
  right; left. split; [by rewrite Hn|]. eexists. split; [exists [Bare (bytes_of "console")]; by rewrite Ha|].
  right; left. by rewrite bytes_of_app.
Qed.

(** *** Memory *)

Lemma validate_expression_ends e : validate_expression e <> OutOfFuel.
Proof.
  unfold validate_expression. destruct (validate_expression_text e); [|done].
  generalize (@nil ascii), (@None (ascii * bool)), (bytes_of e). intros before q rest.
  revert before q. induction rest as [|c rest IH]; intros before q; cbn [scan_expression]; [done|].
  assert (forall reversed word, last_word reversed word <> OutOfFuel) as Hw.
  { induction reversed as [|n reversed IHr]; intros word; cbn [last_word]; [done|].
    destruct (word_char n); [apply IHr|]. by destruct (n <? 128)%N. }
  assert (check_byte before c rest <> OutOfFuel) as Hc.
  { unfold check_byte, check_parenthesis. repeat (case_match; try done).
    match goal with |- context [last_word ?a ?b] => specialize (Hw a b); destruct (last_word a b) end;
      cbn in *; try done. by case_match. }
  destruct (is_plain q c); cbn [mbind outcome_bind]; [|apply IH].
  destruct (check_byte before c rest) as [[]| | |]; [apply IH|done..].
Qed.

#[export] Hint Extern 1 (validate_expression _ <> OutOfFuel) => apply validate_expression_ends : sends.
#[export] Hint Extern 1 (sendable _) => solve [apply sendable_reads; eauto with sends nocore] : sends.
#[export] Hint Extern 1 (reading _) => exact I : sends.
#[export] Hint Resolve read_command_reads find_command_reads layout_command_reads screened_command
  register_names_reads guarded_evaluation : sends.

Lemma Reads_of (R : WorkerRequest -> Prop) (ctl : ControlRequest -> Prop) {A} (m : handler A) :
  (forall r, reading r -> R r) -> Reads m -> Sends R ctl m.
Proof. intros HR H. by apply (Sends_mono reading R (fun _ => False) ctl). Qed.

Lemma Reads_command t c : reads c -> Reads (command t c).
Proof. intros H. by apply Sends_command, sendable_reads. Qed.

Lemma Reads_safe_evaluate t c : guarded c -> Reads (safe_evaluate t c).
Proof. intros H. apply Sends_safe_evaluate. intros op d. by apply Forall_singleton. Qed.

Lemma Reads_safe_evaluate_batch t cs : Forall guarded cs -> Reads (safe_evaluate_batch t cs).
Proof. intros H. apply Sends_safe_evaluate_batch. by intros op d. Qed.

Lemma Reads_register_names t : Reads (register_names t).
Proof. apply Sends_register_names, register_names_reads. Qed.

Lemma Reads_record_event e : bookkeeping e -> Reads (record_event e).
Proof. intros H. by apply Sends_record_event. Qed.

#[export] Hint Resolve Reads_command Reads_safe_evaluate Reads_safe_evaluate_batch Reads_register_names
  Sends_exchange : sends.

Ltac reads_tac :=
  repeat (first
    [ progress cbv beta iota zeta
    | match goal with |- Sends _ _ (stable_observation _ _ _) => apply Sends_stable_observation end
    | sends_step
    | case_match ]).

Section memory.
Context (t : N) (limits : Limits) (base64_encode : bytes -> string)
  (base64_decode : string -> Result string bytes) (sha256 : bytes -> bytes).

Lemma Reads_require_same e : Reads (require_same_execution_context e).
Proof. unfold require_same_execution_context. reads_tac. Qed.
Hint Resolve Reads_require_same : sends.

(** Every full chunk leaves less to read. *)
Lemma Reads_read_chunks fuel expected start len allow_partial read seq :
  (len - lenN read <= N.of_nat fuel * CHUNK_BYTES)%N ->
  Reads (read_chunks t fuel expected start len allow_partial read seq).
Proof.
  revert read seq. induction fuel as [|fuel IH]; intros read seq Hfuel; cbn [read_chunks];
    (destruct (N.ltb_spec (lenN read) len) as [Hlt|Hge]; [|apply Sends_ret]).
  { exfalso. cbn in Hfuel. lia. }
  apply Sends_bind; [auto with sends|]. intros _. apply Sends_check_bind. intros a _.
  apply Sends_check_bind. intros c Hc. apply Sends_bind; [apply Sends_attempt; eauto with sends|].
  intros [reply|e]; [|sends_tac]. apply Sends_bind; [auto with sends|]. intros _.
  apply Sends_check_bind. intros part _. cbv zeta.
  destruct (N.ltb_spec (lenN part) (N.min (len - lenN read) CHUNK_BYTES)) as [Hs|Hf]; [apply Sends_ret|].
  apply IH. rewrite lenN_app. revert Hf. unfold CHUNK_BYTES in *. lia.
Qed.

Lemma Reads_read_in_observation expected start len allow_partial :
  Reads (read_memory_bytes_in_observation t expected start len allow_partial).
Proof.
  unfold read_memory_bytes_in_observation. apply Sends_check_bind. intros _ _.
  apply Sends_bind; [by apply Sends_hdo|]. intros state. apply Sends_bind; [|intros [b seq]; sends_tac].
  apply Reads_read_chunks. unfold read_fuel. change (lenN []) with 0%N. rewrite Nat2N.inj_succ, N2Nat.id.
  pose proof (N.mod_lt len CHUNK_BYTES ltac:(done)). pose proof (N.div_mod len CHUNK_BYTES ltac:(done)). lia.
Qed.
Hint Resolve Reads_read_in_observation : sends.

Lemma Reads_read_memory expected start len allow_partial :
  Reads (read_memory_bytes t expected start len allow_partial).
Proof. apply Sends_stable_observation, Reads_read_in_observation. Qed.
Hint Resolve Reads_read_memory : sends.

Lemma Reads_read_address parameters state : Reads (read_address t parameters state).
Proof. unfold read_address. reads_tac. Qed.
Hint Resolve Reads_read_address : sends.

Lemma Reads_memory_read request : Reads (memory_read t limits base64_encode sha256 request).
Proof. unfold memory_read. reads_tac. Qed.

Lemma Reads_memory_compare request : Reads (memory_compare t limits base64_decode sha256 request).
Proof. unfold memory_compare. reads_tac. Qed.

Lemma Reads_memory_search request : Reads (memory_search t base64_decode request).
Proof. unfold memory_search. reads_tac. Qed.

End memory.
