(* ===== verification/ViewProps.v ===== *)
(** * ViewProps: requests that read only read

    A symbolic run of every handler a read may start, down to the commands it
    sends: the views, the turns of reads with the snapshots in them, values,
    memory, waits and listings.  A contract that leaves out a field is a fact
    about the request: consent to side effects and reads of its own come only
    where the contract has them. *)

From S2P Require Import Prelude Text MiAst Json Errors Domain Backend Normalize Ring Policy Protocol Contracts ContractProps Access Wait Effects Program Actor Requests Wire Results Config Gateway Encoding Context MiView Handle Memory Observed Observations Environment Providers Values Reconcile Inspection Reading Snapshots Execution Targets Kernel Probe Methods ReadProps.

(** ** Pure parts end *)

Lemma unwrap_or_panic_ends {A} (o : option A) : unwrap_or_panic o <> OutOfFuel.
Proof. by destruct o. Qed.

Lemma put_ends key v value : put key v value <> OutOfFuel.
Proof. apply unwrap_or_panic_ends. Qed.

Lemma take_field_ends key value : take_field key value <> OutOfFuel.
Proof. by destruct value. Qed.

Lemma result_outcome_ends {A} (r : Result Error A) : result_outcome r <> OutOfFuel.
Proof. by destruct r. Qed.

Lemma outcome_bind_ends {A B} (o : outcome Error A) (f : A -> outcome Error B) :
  o <> OutOfFuel -> (forall a, f a <> OutOfFuel) -> o ≫= f <> OutOfFuel.
Proof. intros Ho Hf. destruct o; cbn; auto; congruence. Qed.

Create HintDb ends.
#[export] Hint Resolve unwrap_or_panic_ends put_ends take_field_ends result_outcome_ends
  validate_expression_ends : ends.

Ltac ends_tac :=
  repeat (first
    [ progress cbv beta iota zeta
    | match goal with
      | |- _ ≫= _ <> OutOfFuel => apply outcome_bind_ends; [|intros ?]
      | |- Done _ <> OutOfFuel => discriminate
      | |- Fail _ <> OutOfFuel => discriminate
      | |- Panic <> OutOfFuel => discriminate
      end
    | solve [eauto with ends nocore]
    | case_match ]).

#[export] Hint Extern 2 (_ <> OutOfFuel) => solve [ends_tac] : sends.

(** ** Stacks and threads *)

Section views.
Context (env : Environment).

Lemma Reads_inspection_command request name arguments :
  name ∈ READING -> Reads (inspection_command env request name arguments).
Proof.
  intros Hn. unfold inspection_command. apply Sends_bind; [by apply Sends_hdo|]. intros state.
  apply Sends_check_bind. intros c [Hc _]%contextual_command_Ok.
  apply Reads_command. left. rewrite Hc. by apply list_elem_of_fmap_2.
Qed.
Hint Extern 1 (Sends _ _ (inspection_command _ _ _ _)) =>
  solve [apply Reads_inspection_command; cbn; set_solver] : sends.

Lemma Reads_info_locals request :
  Reads (inspection_command env request "-interpreter-exec"
           [BareArgument "console"; QuotedArgument "info locals"]).
Proof.
  unfold inspection_command. apply Sends_bind; [by apply Sends_hdo|]. intros state.
  apply Sends_check_bind. intros c [Hc [before Ha]]%contextual_command_Ok.
  apply Reads_command. right; left. split; [done|]. exists (bytes_of "info locals").
  split; [|by left]. exists (before ++ [Bare (bytes_of "console")]). by rewrite Ha, <-app_assoc.
Qed.
Hint Resolve Reads_info_locals : sends.

Lemma Reads_check_empty_scope context request : Reads (check_empty_scope env context request).
Proof. unfold check_empty_scope. reads_tac. Qed.
Hint Resolve Reads_check_empty_scope : sends.

Lemma Reads_collect_values request types variables seq :
  Reads (collect_values env request types variables seq).
Proof. unfold collect_values. reads_tac. Qed.
Hint Resolve Reads_collect_values : sends.

Lemma Reads_frame_variables request : Reads (inspection_frame_variables env request).
Proof. unfold inspection_frame_variables. reads_tac. Qed.
Hint Resolve Reads_frame_variables : sends.

Lemma frame_with_variables_ends frame captured : frame_with_variables frame captured <> OutOfFuel.
Proof. unfold frame_with_variables. ends_tac. Qed.
Hint Resolve frame_with_variables_ends : ends.

Lemma Reads_frames_with_variables request frames seq :
  Reads (frames_with_variables env request frames seq).
Proof. revert seq. induction frames as [|f frames IH]; intros seq; cbn [frames_with_variables]; reads_tac. Qed.
Hint Resolve Reads_frames_with_variables : sends.

Lemma place_arguments_ends frames m : place_arguments frames m <> OutOfFuel.
Proof. revert m. induction frames; intros m; cbn [place_arguments]; ends_tac. Qed.
Hint Resolve place_arguments_ends : ends.

Lemma stack_facts_ends frames seq arguments : stack_facts frames seq arguments <> OutOfFuel.
Proof. unfold stack_facts. ends_tac. Qed.
Hint Resolve stack_facts_ends : ends.

Lemma Reads_inspection_stack state request offset limit :
  Reads (inspection_stack env state request offset limit).
Proof. unfold inspection_stack. reads_tac. Qed.
Hint Resolve Reads_inspection_stack : sends.

Lemma thread_with_stack_ends depth b thread stack : thread_with_stack depth b thread stack <> OutOfFuel.
Proof. unfold thread_with_stack. ends_tac. Qed.
Hint Resolve thread_with_stack_ends : ends.

Lemma Reads_threads_with_stacks state request depth b threads seq :
  Reads (threads_with_stacks env state request depth b threads seq).
Proof. revert seq. induction threads; intros seq; cbn [threads_with_stacks]; reads_tac. Qed.
Hint Resolve Reads_threads_with_stacks : sends.

Lemma Reads_inspection_threads request : Reads (inspection_threads env request).
Proof. unfold inspection_threads. reads_tac. Qed.
Hint Resolve Reads_inspection_threads : sends.

(** ** Symbols, source, registers and code *)

Lemma Reads_add_layout parameters result : Reads (add_layout env parameters result).
Proof. unfold add_layout. reads_tac. Qed.
Hint Resolve Reads_add_layout : sends.

Lemma symbol_command_reads name kind query limit c :
  bytes_of name ∈ bytes_of <$> READING -> symbol_command name kind query limit = Ok c -> reads c.
Proof.
  intros Hn H. left. unfold symbol_command in H. apply bind_Ok in H as (c1 & ->%MiCommand_new_Ok & H).
  apply bind_Ok in H as (c2 & H2 & [H3 _]%with_arguments_Ok). rewrite H3.
  destruct (bool_decide (kind = "types")); [by simplify_eq|]. by apply bare_Ok in H2 as ->.
Qed.

Lemma symbol_command_name_reads kind name :
  symbol_command_name kind = Ok name -> bytes_of name ∈ bytes_of <$> READING.
Proof.
  unfold symbol_command_name. intros H. apply list_elem_of_fmap_2.
  repeat case_match; simplify_eq; unfold READING; set_solver.
Qed.
Hint Resolve symbol_command_reads symbol_command_name_reads : sends.

Lemma Reads_symbol_search request : Reads (symbol_search env request).
Proof. unfold symbol_search, stop_facts. reads_tac. Qed.
Hint Resolve Reads_symbol_search : sends.

Lemma take_line_shorter input line rest :
  take_line input = (line, rest) -> input <> [] -> length rest < length input.
Proof.
  destruct input as [|c r]; [done|]. intros H _. cbn. apply Nat.lt_succ_r. cbn in H.
  destruct (c =? LF)%char; [by simplify_eq|]. destruct (take_line r) as [l r'] eqn:E. simplify_eq.
  revert l rest E. induction r as [|d r IH]; intros l rest E; cbn in *; [by simplify_eq|].
  destruct (d =? LF)%char; simplify_eq; [by apply Nat.le_succ_diag_r|].
  destruct (take_line r) as [l' r']. simplify_eq. by apply Nat.le_le_succ_r, (IH l').
Qed.

(** A line read leaves less of the input. *)
Lemma read_lines_ends fuel count read input : length input <= fuel -> read_lines fuel count read input <> OutOfFuel.
Proof.
  revert count read input. induction fuel as [|fuel IH]; intros count read [|c r] H; cbn [read_lines];
    (destruct (count =? 0)%N; [done|]); try done; cbn in H; [lia|].
  destruct (take_line (c :: r)) as [line rest] eqn:E. case_match; [done|]. apply IH.
  apply take_line_shorter in E; [|done]. cbn in E. lia.
Qed.

Lemma read_source_prefix_ends content count : read_source_prefix content count <> OutOfFuel.
Proof.
  unfold read_source_prefix. apply outcome_bind_ends; [by apply read_lines_ends|]. intros [? ?]. ends_tac.
Qed.

Lemma excerpt_facts_ends path source line before after more :
  excerpt_facts path source line before after more <> OutOfFuel.
Proof. unfold excerpt_facts, slice. ends_tac. Qed.
Hint Resolve read_source_prefix_ends excerpt_facts_ends : ends.

Lemma Reads_first_existing paths : Reads (first_existing paths).
Proof. induction paths; cbn [first_existing]; reads_tac. Qed.

Lemma Reads_within_roots path roots : Reads (within_roots path roots).
Proof. induction roots; cbn [within_roots]; reads_tac. Qed.
Hint Resolve Reads_first_existing Reads_within_roots : sends.

Lemma Reads_workspace_path value directory :
  Reads (workspace_path (security env) (debug_text env) value directory).
Proof. unfold workspace_path, workspace_candidate. reads_tac. Qed.
Hint Resolve Reads_workspace_path : sends.

Lemma Reads_source_excerpt request : Reads (source_excerpt env request).
Proof. unfold source_excerpt. reads_tac. Qed.
Hint Resolve Reads_source_excerpt : sends.

Lemma role_numbers_ends roles names m : role_numbers roles names m <> OutOfFuel.
Proof. revert m. induction roles; intros m; cbn [role_numbers]; ends_tac. Qed.
Hint Resolve role_numbers_ends : ends.

Lemma register_command_reads numbers p s c : register_command numbers p s = Ok c -> reads c.
Proof. unfold register_command. intros H. named_read. Qed.
Hint Resolve register_command_reads : sends.

Lemma Reads_register_read request : Reads (register_read env request).
Proof. unfold register_read. reads_tac. Qed.
Hint Resolve Reads_register_read : sends.

Lemma Reads_resolve_address_of state parameters expression :
  Reads (resolve_disassembly_address env state parameters expression).
Proof.
  unfold resolve_disassembly_address. destruct (Address_parse expression); [by sends_step|].
  apply Sends_run_bind; [auto with ends|]. intros [] Hv. apply Sends_check_bind. intros c Hc.
  apply Sends_bind; [eapply Reads_command, screened_command; eauto|]. intros reply. reads_tac.
Qed.
Hint Resolve Reads_resolve_address_of : sends.

Lemma Reads_disassembly_range state parameters : Reads (disassembly_range env state parameters).
Proof. unfold disassembly_range. reads_tac. Qed.
Hint Resolve Reads_disassembly_range : sends.

Lemma disassemble_command_reads start stop mode c : disassemble_command start stop mode = Ok c -> reads c.
Proof. unfold disassemble_command. intros H. named_read. Qed.
Hint Resolve disassemble_command_reads : sends.

Lemma Reads_disassembly_read request : Reads (disassembly_read env request).
Proof. unfold disassembly_read. reads_tac. Qed.
Hint Resolve Reads_disassembly_read : sends.

(** ** Values *)

Lemma evaluate_commands_guarded expressions p s cs :
  map_results (fun e => evaluate_command e p s) expressions = Ok cs -> Forall guarded cs.
Proof.
  revert cs. induction expressions as [|e expressions IH]; intros cs H; cbn [map_results] in H;
    [by simplify_eq|].
  apply bind_Ok in H as (c & Hc & H). apply bind_Ok in H as (rest & Hr & H). simplify_eq.
  constructor; [by eapply guarded_evaluation|by apply IH].
Qed.

Lemma Reads_validate_all b expressions : Reads (validate_all b expressions).
Proof. induction expressions; cbn [validate_all]; reads_tac; by apply validate_expression_ends. Qed.
Hint Resolve Reads_validate_all : sends.

Lemma local_unwrap_ends {A} (o : option A) : Reads (local (unwrap o)).
Proof. apply Sends_local. intros s. by destruct o. Qed.
Hint Resolve local_unwrap_ends : sends.

(** No consent to side effects is asked for. *)
Definition effect_free (parameters : Value) : Prop :=
  str_parameter "side_effects" parameters <> Some "allow".

Lemma effect_free_absent parameters : Json.get "side_effects" parameters = None -> effect_free parameters.
Proof. unfold effect_free, str_parameter. by intros ->. Qed.

Lemma effect_free_same v w :
  Json.get "side_effects" v = Json.get "side_effects" w -> effect_free w -> effect_free v.
Proof. unfold effect_free, str_parameter. by intros ->. Qed.

Lemma Reads_value_evaluate request :
  effect_free (req_parameters request) -> Reads (evaluate_value env request).
Proof.
  intros He. unfold evaluate_value, value_evaluate. cbv zeta. do 3 (apply Sends_bind; [reads_tac|intros ?]).
  apply Sends_bind; [reads_tac|]. intros []. apply Sends_check_bind. intros decoded Hd.
  assert (bool_decide (default "deny" (ev_side_effects decoded) = "allow") = false) as ->.
  { apply bool_decide_eq_false_2. intros Ha. apply He. unfold str_parameter. unfold decode_evaluation, ok_or in Hd.
    destruct (opt_string (Json.get "expression" (req_parameters request))); [|done]. cbn in Hd.
    destruct (opt_strings _); [|done]. cbn in Hd.
    destruct (Json.get "side_effects" (req_parameters request)) as [[]|]; simplify_eq/=; congruence. }
  cbv iota. unfold capture.
  reads_tac; eauto using Reads_safe_evaluate_batch, evaluate_commands_guarded.
Qed.
Hint Resolve Reads_value_evaluate : sends.

(** ** Memory and tracked values *)

Lemma Reads_authorize_memory e parameters : Reads (authorize_memory e parameters).
Proof. unfold authorize_memory. reads_tac. Qed.
Hint Resolve Reads_authorize_memory : sends.

Lemma Reads_resolve_address parameters state : Reads (resolve_address env parameters state).
Proof. unfold resolve_address. reads_tac. Qed.
Hint Resolve Reads_resolve_address : sends.

Lemma Reads_memory_of e request : Reads (observation_memory_read_with_entry env e request).
Proof.
  unfold observation_memory_read_with_entry, memory_read_of. reads_tac; apply Reads_memory_read.
Qed.
Hint Resolve Reads_memory_of : sends.

Lemma Reads_observation_memory request : Reads (observation_memory_read env request).
Proof. unfold observation_memory_read. reads_tac. Qed.
Hint Resolve Reads_observation_memory : sends.

Lemma Reads_tracked_expression id expression maximum p s : Reads (tracked_expression env id expression maximum p s).
Proof. unfold tracked_expression, unavailable. reads_tac. Qed.

Lemma Reads_tracked_memory e id a len p s : Reads (tracked_memory env e id a len p s).
Proof.
  unfold tracked_memory, unavailable, tracked_bytes. reads_tac; apply Reads_read_memory.
Qed.
Hint Resolve Reads_tracked_expression Reads_tracked_memory : sends.

Lemma Reads_track_all e p s definitions o pr w : Reads (track_all env e p s definitions o pr w).
Proof. revert o pr w. induction definitions; intros o pr w; cbn [track_all]; reads_tac. Qed.
Hint Resolve Reads_track_all : sends.

Lemma Reads_record_tracking values stop epoch : Reads (record_tracking values stop epoch).
Proof. by apply Sends_record_tracking. Qed.
Hint Resolve Reads_record_tracking : sends.

Lemma Reads_capture_tracking e request state : Reads (capture_tracking env e request state).
Proof. unfold capture_tracking, tracking. reads_tac. by apply Sends_exchange. Qed.
Hint Resolve Reads_capture_tracking : sends.

Lemma Reads_inspection_tracking e request : Reads (inspection_tracking env e request).
Proof. unfold inspection_tracking. reads_tac. Qed.
Hint Resolve Reads_inspection_tracking : sends.

Lemma Reads_historical session id : Reads (historical_observation session id).
Proof. unfold historical_observation. reads_tac. Qed.
Hint Resolve Reads_historical : sends.

Lemma Reads_inspection_diff request : Reads (inspection_diff request).
Proof. unfold inspection_diff. reads_tac. Qed.
Hint Resolve Reads_inspection_diff : sends.

(** ** Listings *)

Lemma Reads_mappings state inferior offset limit : Reads (mappings state inferior offset limit).
Proof. unfold mappings. reads_tac. Qed.
Hint Resolve Reads_mappings : sends.

Lemma Reads_each {A} (f : A -> handler unit) l : (forall x, Reads (f x)) -> Reads (each f l).
Proof. intros Hf. induction l; cbn [each]; reads_tac. Qed.

Lemma Reads_synchronize_breakpoint fields : Reads (synchronize_breakpoint fields).
Proof.
  unfold synchronize_breakpoint. reads_tac; apply Reads_record_event; try done.
  unfold breakpoint_event. by case_match.
Qed.

Lemma Reads_reconcile_breakpoints record : Reads (reconcile_breakpoints record).
Proof.
  unfold reconcile_breakpoints. reads_tac; apply Reads_each; intros ?;
    [apply Reads_synchronize_breakpoint|by apply Reads_record_event].
Qed.
Hint Resolve Reads_reconcile_breakpoints : sends.

Lemma list_breakpoints_reads c : list_breakpoints = Ok c -> reads c.
Proof. unfold list_breakpoints. intros H. named_read. Qed.
Hint Resolve list_breakpoints_reads : sends.

Lemma Reads_breakpoints_view : Reads (breakpoints_view env).
Proof. unfold breakpoints_view. reads_tac. Qed.
Hint Resolve Reads_breakpoints_view : sends.

End views.

(** ** What contracts leave out *)

Definition absent (key : string) (v : Value) : Prop := Json.get key v = None.

Lemma field_accepts_named accepts name v l :
  field_accepts accepts name v l = true -> name ∈ pf_name <$> l.
Proof.
  induction l as [|[n k r] l IH]; [done|]. cbn [field_accepts fmap list_fmap pf_name].
  destruct (decide (n = name)) as [->|]; [by left|]. intros H. right. by apply IH.
Qed.

Lemma accepted_fields_absent accepts key object l :
  forallb (fun p => field_accepts accepts p.1 p.2 l) object = true -> key ∉ pf_name <$> l ->
  absent key (Object object).
Proof.
  intros H Hk. unfold absent. cbn [Json.get]. destruct (assoc key object) as [v|] eqn:E; [|done].
  apply assoc_elem in E. rewrite forallb_iff in H. apply H, field_accepts_named in E. done.
Qed.

Lemma validated_fields c v :
  NoDup (pf_name <$> fields c) -> Contracts.validate c v = Ok tt ->
  exists object, v = Object object /\
    forallb (fun p => field_accepts accepts p.1 p.2 (fields c)) object = true.
Proof.
  intros Hn H. pose proof (validate_spec c v Hn) as Hs. cbv zeta in Hs.
  destruct v as [| | | | | |object]; try (destruct Hs as (e & He & _); congruence).
  exists object. split; [done|].
  destruct (forallb (fun p => field_accepts accepts p.1 p.2 (fields c)) object); [done|].
  destruct Hs as (e & He & _). congruence.
Qed.

Lemma contract_names method : NoDup (pf_name <$> fields (contract method)).
Proof. pose proof (contracts_wf method) as H. by apply andb_true_iff in H as [?%bool_decide_eq_true _]. Qed.

Lemma validated_absent method key v :
  validate_parameters method v = Ok tt -> key ∉ pf_name <$> fields (contract method) -> absent key v.
Proof.
  intros (object & -> & H)%validated_fields Hk; [|apply contract_names]. by eapply accepted_fields_absent.
Qed.

(** The reads a request names ask for no side effects. *)
Definition effect_free_items (items : Value) : Prop :=
  forall l item, items = Array l -> item ∈ l -> effect_free item.

Lemma batch_items_effect_free v :
  accepts INSPECTION_BATCH_KIND v = true -> effect_free_items v.
Proof.
  intros H l item -> Hin. cbn [accepts INSPECTION_BATCH_KIND] in H. rewrite forallb_iff in H.
  specialize (H item Hin). cbn [accepts INSPECTION_BATCH_ITEM_KIND] in H.
  unfold INSPECTION_BATCH_ITEM_OBJECT, ObjectContract_new, object_accepts in H.
  destruct item as [| | | | | |object]; try done.
  destruct (_ || _); [done|]. apply effect_free_absent, (accepted_fields_absent accepts "side_effects" _ _ H).
  apply (bool_decide_unpack _). vm_compute. exact I.
Qed.

Lemma validated_items method key v items :
  validate_parameters method v = Ok tt ->
  (exists f, find_field key (fields (contract method)) = Some f /\ pf_kind f = INSPECTION_BATCH_KIND) ->
  Json.get key v = Some items -> effect_free_items items.
Proof.
  intros (object & -> & H)%validated_fields (f & Hf & Hk) Hg; [|apply contract_names].
  apply batch_items_effect_free. rewrite forallb_iff in H. cbn [Json.get] in Hg.
  apply assoc_elem, H in Hg. cbn [fst snd] in Hg. rewrite field_accepts_find, Hf, Hk in Hg. done.
Qed.

(** ** The reads of a turn *)

Lemma assoc_remove_ne key k (fields : list (string * Value)) :
  key <> k -> Json.assoc key (remove_field k fields) = Json.assoc key fields.
Proof.
  intros Hk. unfold remove_field. induction fields as [|[n w] r IH]; [done|].
  rewrite filter_cons. cbn [fst assoc]. destruct (decide (n <> k)) as [Hn|Hn]; cbn [assoc]; [by rewrite IH|].
  rewrite IH, decide_False; [done|]. intros ->. by apply Hn.
Qed.

Lemma assoc_set_ne key k v fields : key <> k -> Json.assoc key (set_field k v fields) = Json.assoc key fields.
Proof. intros Hk. by rewrite assoc_set_field, decide_False. Qed.

(** Fields that are copied leave the others as they are. *)
Lemma assoc_copied key defaults keys fields :
  key ∉ keys ->
  Json.assoc key (foldl (fun fields k =>
     match Json.get k defaults with Some v => set_field k v fields | None => fields end) fields keys) =
  Json.assoc key fields.
Proof.
  revert fields. induction keys as [|k keys IH]; intros fields; [done|].
  intros [Hk Hn]%not_elem_of_cons. cbn [foldl]. rewrite IH by done.
  destruct (Json.get k defaults); [by apply assoc_set_ne|done].
Qed.

Lemma assoc_inherit key defaults fields :
  key ∉ SELECTION -> Json.assoc key (inherit defaults fields) = Json.assoc key fields.
Proof. intros Hk. unfold inherit. destruct (existsb _ _); [done|]. by apply assoc_copied. Qed.

(** What a read keeps of the item it was parsed from. *)
Definition taken_from (item : Value) (r : ObservationRequest) : Prop :=
  (effect_free item -> effect_free (or_parameters r)) /\
  (or_kind r = Observations.Inspection ->
   absent "inspect" (or_parameters r) /\ Json.get "view" (or_parameters r) = Json.get "view" item).

Section items.
Context (print : Value -> string).

Lemma parse_observation_taken item stop b maximum defaults r b' :
  parse_observation print item stop b maximum defaults = Done (r, b') -> taken_from item r.
Proof.
  unfold parse_observation. intros (object & Ho & H)%bind_Done. apply bind_Done in H as (view & _ & H).
  apply bind_Done in H as ([] & _ & H). set (kind := kind_of view) in H.
  set (stopped := if bool_decide (kind = Diff) then _ else _) in H.
  set (parameters := Object _) in H.
  apply bind_Done in H as ([] & Hv & H). apply bind_Done in H as (b1 & _ & H).
  destruct item as [| | | | | |fields]; try done. simplify_eq/=.
  assert (forall key, key ∉ "name" :: "stop_id" :: SELECTION -> Json.assoc key stopped = Json.assoc key object) as Hs.
  { intros key Hk. rewrite !not_elem_of_cons in Hk. destruct Hk as (H1 & H2 & H3). unfold stopped.
    destruct (bool_decide (kind = Diff)); [|rewrite assoc_set_ne by done];
      by rewrite assoc_remove_ne, assoc_inherit. }
  split; cbn [or_kind or_parameters].
  - apply effect_free_same. cbn [Json.get parameters].
    destruct (bool_decide (kind = Observations.Inspection)); [|rewrite assoc_remove_ne by done];
      rewrite Hs; try done; unfold SELECTION; set_solver.
  - intros Hk. rewrite Hk in Hv. split.
    + apply (validated_absent Method.InspectionGet).
      * destruct (validate_parameters (method_of Observations.Inspection) parameters) as [[]|] eqn:E; [|done]. exact E.
      * apply (bool_decide_unpack _). vm_compute. exact I.
    + unfold parameters. rewrite bool_decide_eq_true_2 by done. apply Hs. unfold SELECTION. set_solver.
Qed.

Lemma parse_items_taken l stop maximum defaults names b requests :
  parse_items print l stop maximum defaults names b = Done requests -> Forall2 taken_from l requests.
Proof.
  revert names b requests. induction l as [|item l IH]; intros names b requests; cbn [parse_items];
    [by intros [= <-]|].
  intros ([r b1] & Hr & H)%bind_Done. cbv beta iota in H.
  apply bind_Done in H as ([r' names'] & Hp & H). apply bind_Done in H as (rest & Hrest & H). simplify_eq.
  constructor; [|by eapply IH]. apply parse_observation_taken in Hr.
  pose proof (place_spec (bool_decide (is_Some (Json.get "name" item))) names r) as Hs.
  rewrite Hp in Hs. destruct Hs as (_ & _ & ->). exact Hr.
Qed.

Lemma requests_taken items stop maximum defaults requests :
  parse_observation_requests print items stop maximum defaults = Done requests ->
  exists l, items = Array l /\ Forall2 taken_from l requests.
Proof.
  unfold parse_observation_requests. intros (l & Hl & H)%bind_Done. apply bind_Done in H as ([] & _ & H).
  apply parse_items_taken in H. destruct items; try done. simplify_eq/=. by eexists.
Qed.

Lemma charge_kind_ends kind maximum p b : charge_kind kind maximum p b <> OutOfFuel.
Proof.
  assert (forall l, validate_expressions l <> OutOfFuel) as Hv.
  { induction l; cbn [validate_expressions]; ends_tac. }
  unfold charge_kind, charge_evaluate, charge_memory, check_disassembly, validate_literal_range, charge, require, unwrap_option.
  ends_tac; try apply Hv; by destruct (Json.get _ _ ≫= _).
Qed.
Hint Resolve charge_kind_ends : ends.

Lemma place_ends explicit names r : place explicit names r <> OutOfFuel.
Proof. pose proof (place_spec explicit names r) as H. by destruct (place explicit names r). Qed.
Hint Resolve place_ends : ends.

Lemma parse_items_ends l stop maximum defaults names b :
  parse_items print l stop maximum defaults names b <> OutOfFuel.
Proof.
  revert names b. induction l; intros names b; cbn [parse_items]; unfold parse_observation, require; ends_tac.
Qed.

Lemma parse_requests_ends items stop maximum defaults :
  parse_observation_requests print items stop maximum defaults <> OutOfFuel.
Proof. unfold parse_observation_requests, require. pose proof parse_items_ends. ends_tac. Qed.

End items.

(** ** Turns, snapshots and views *)

Lemma Reads_commit v stop epoch partial publish :
  Reads (commit_observation_inner v stop epoch partial publish).
Proof. by apply Sends_commit. Qed.

Section captures.
Context (env : Environment) (inspect : ApiRequest -> handler SemanticResult).

(** What a turn may read by [inspect]. *)
Definition inspectable (parent : ApiRequest) (r : ObservationRequest) : Prop :=
  effect_free (or_parameters r) /\
  (or_kind r = Observations.Inspection -> Reads (inspect (subrequest r parent))).

Lemma Reads_execute_observation parent e r :
  inspectable parent r -> Reads (execute_observation env inspect parent e r).
Proof.
  intros [He Hi]. unfold execute_observation. destruct (or_kind r) eqn:E; cbv zeta.
  - by apply Hi.
  - by apply Reads_value_evaluate.
  - unfold execute_read. reads_tac; apply Reads_memory_of.
  - unfold execute_read. reads_tac; apply Reads_disassembly_read.
  - unfold execute_read. reads_tac; apply Reads_inspection_diff.
Qed.

Lemma record_outcome_ends stop name o t : record_outcome stop name o t <> OutOfFuel.
Proof. unfold record_outcome, without_stop. ends_tac. Qed.
Hint Resolve record_outcome_ends : ends.

Lemma Reads_capture_reads parent e stop requests t :
  Forall (inspectable parent) requests -> Reads (capture_reads env inspect parent e stop requests t).
Proof.
  intros H. revert t. induction H as [|r requests Hr Hall IH]; intros t; cbn [capture_reads]; [apply Sends_ret|].
  pose proof (Reads_execute_observation parent e r Hr). unfold fresh_outcome. reads_tac.
Qed.

Lemma Reads_capture parent e baseline items persist :
  (forall stop maximum requests,
     parse_observation_requests (print env) items stop maximum (req_parameters parent) = Done requests ->
     Forall (inspectable parent) requests) ->
  Reads (capture_observations env inspect parent e baseline items persist).
Proof.
  intros H. unfold capture_observations, captured_turn. apply Sends_bind.
  - apply Sends_bind; [reads_tac|]. intros stop. apply Sends_run_bind; [apply parse_requests_ends|].
    intros requests Hr%H. pose proof (fun stop t => Reads_capture_reads parent e stop requests t Hr). reads_tac.
  - intros result. pose proof Reads_commit. unfold commit_observation. reads_tac.
Qed.

Lemma Reads_build_snapshot e request state profile requests :
  (forall stop maximum parsed,
     parse_observation_requests (print env) requests stop maximum (req_parameters request) = Done parsed ->
     Forall (inspectable request) parsed) ->
  Reads (build_and_commit_snapshot env inspect e request state profile requests).
Proof.
  intros H%(fun H => Reads_capture request e state requests false H).
  unfold build_and_commit_snapshot, commit_snapshot. pose proof Reads_commit.
  assert (forall p r, prepare_profile (decode_error env) p r <> OutOfFuel) as Hp.
  { intros p r. unfold prepare_profile, separate_arguments.
    assert (forall frames, split_frames frames <> OutOfFuel) as Hs.
    { induction frames; cbn [split_frames]; unfold split_frame; ends_tac. }
    ends_tac. }
  reads_tac.
Qed.

(** The reads of a snapshot: those of its profile and those it was asked for. *)
Definition profile_view (item : Value) : Prop :=
  absent "side_effects" item /\ Json.get "view" item <> Some (Str "crash").

Lemma named_view_get key fields :
  key <> "name" -> Json.get key (named_view fields) = Json.assoc key fields.
Proof. intros H. by apply assoc_set_ne. Qed.

Lemma snapshot_views_profile parameters profile frames :
  Forall profile_view (named_view <$> snapshot_views parameters profile frames).
Proof.
  apply Forall_fmap. unfold snapshot_views.
  assert (forall fields, Json.assoc "side_effects" fields = None ->
            Json.assoc "view" fields <> Some (Str "crash") -> (profile_view ∘ named_view) fields) as Hn.
  { intros fields H1 H2. split; unfold absent; by rewrite named_view_get. }
  assert (forall view fields, view <> "crash" -> Json.assoc "side_effects" fields = None ->
            (profile_view ∘ named_view) (view_request view fields)) as Hv.
  { intros view fields Hne H. apply Hn; [done|]. change (Some (Str view) <> Some (Str "crash")). congruence. }
  assert (forall copies view fields, "side_effects" ∉ copies -> "view" ∉ copies -> view <> "crash" ->
            Json.assoc "side_effects" fields = None ->
            (profile_view ∘ named_view) (copied copies parameters (view_request view fields))) as Hc.
  { intros copies view fields H1 H2 H3 H4. unfold copied. apply Hn; rewrite assoc_copied by done; [done|].
    change (Some (Str view) <> Some (Str "crash")). congruence. }
  assert (forall fields, (profile_view ∘ named_view) fields -> (profile_view ∘ named_view) (brief_disassembly fields)) as Hb.
  { intros fields [H1 H2]. unfold absent in H1. rewrite named_view_get in H1, H2 by done.
    unfold brief_disassembly. apply Hn; destruct (has_field fields "around" || has_field fields "range");
      destruct (has_field _ "include_source"); rewrite ?assoc_set_ne by done; done. }
  apply Forall_app. split; [apply Forall_singleton; by apply Hv|].
  apply Forall_app. split; [|apply Forall_singleton; by apply Hv].
  destruct (bool_decide (profile = "minimal")); [constructor|]. cbv zeta.
  assert ((profile_view ∘ named_view)
    (copied ["around"; "range"; "include_bytes"; "include_source"] parameters (view_request "disassembly" []))) as Hd.
  { apply Hc; try done; set_solver. }
  apply Forall_cons; split; [by apply Hv|]. apply Forall_cons; split; [apply Hc; try done; set_solver|].
  apply Forall_cons; split; [|constructor]. destruct (bool_decide (profile = "brief")); auto.
Qed.

Lemma Reads_snapshot request :
  (forall item r, taken_from item r -> profile_view item -> inspectable request r) ->
  (forall items l item r, Json.get "inspect" (req_parameters request) = Some items -> items = Array l ->
     item ∈ l -> taken_from item r -> inspectable request r) ->
  Reads (inspection_snapshot env inspect request).
Proof.
  intros Hp Hi. unfold inspection_snapshot. cbv zeta.
  assert (forall profile frames stop maximum parsed,
    parse_observation_requests (print env) (snapshot_requests (req_parameters request) profile frames)
      stop maximum (req_parameters request) = Done parsed -> Forall (inspectable request) parsed) as Hall.
  { intros profile frames stop maximum parsed (l & [= <-] & H2)%requests_taken.
    apply Forall_forall. intros r Hr. apply list_elem_of_lookup in Hr as [i Hi'].
    destruct (Forall2_lookup_r _ _ _ _ _ H2 Hi') as (item & Hl & Ht). apply list_elem_of_lookup_2 in Hl.
    apply elem_of_app in Hl as [Hl|Hl].
    - apply (Hp item); [done|]. destruct (bool_decide (profile = "custom")); [by apply elem_of_nil in Hl|].
      pose proof (snapshot_views_profile (req_parameters request) profile frames) as Hf.
      rewrite Forall_forall in Hf. by apply Hf.
    - destruct (Json.get "inspect" (req_parameters request)) as [items|] eqn:E; [|by apply elem_of_nil in Hl].
      cbn in Hl. destruct items; try by apply elem_of_nil in Hl. by eapply (Hi _ _ item r). }
  assert (forall e state profile frames, Reads (build_and_commit_snapshot env inspect e request state profile
    (snapshot_requests (req_parameters request) profile frames))) as Hb.
  { intros. apply Reads_build_snapshot. intros. by eapply Hall. }
  assert (forall items, validate_observation_requests (print env) items (memory_read_bytes (limits env)) <> OutOfFuel) as Hv.
  { intros items. unfold validate_observation_requests. pose proof (parse_requests_ends (print env)). ends_tac. }
  reads_tac; by apply Reads_record_event.
Qed.

Lemma Reads_batch request :
  (forall items l item r, Json.get "requests" (req_parameters request) = Some items -> items = Array l ->
     item ∈ l -> taken_from item r -> inspectable request r) ->
  Reads (inspection_batch env inspect request).
Proof.
  intros Hi. unfold inspection_batch.
  assert (forall e baseline items, Json.get "requests" (req_parameters request) = Some items ->
    Reads (capture_observations env inspect request e baseline items true)) as Hc.
  { intros e baseline items E. apply Reads_capture. intros stop maximum parsed (l & -> & H2)%requests_taken.
    apply Forall_forall. intros r Hr. apply list_elem_of_lookup in Hr as [i Hi'].
    destruct (Forall2_lookup_r _ _ _ _ _ H2 Hi') as (item & Hl & Ht). apply list_elem_of_lookup_2 in Hl.
    by eapply (Hi _ _ item r). }
  destruct (Json.get "requests" (req_parameters request)) as [items|]; reads_tac; simplify_eq/=; by apply Hc.
Qed.

End captures.

Section results.
Context (env : Environment).

Lemma view_result_ends view r : view_result env view r <> OutOfFuel.
Proof.
  assert (forall {A B} (f : A -> outcome Error B) l, (forall x, f x <> OutOfFuel) -> map_outcome f l <> OutOfFuel) as Hm.
  { intros A B f l Hf. induction l; cbn [map_outcome]; ends_tac. }
  assert (forall frames, compact_frames frames <> OutOfFuel) as Hc.
  { intros frames. unfold compact_frames, compact_frame. ends_tac. apply Hm. intros x. ends_tac. }
  unfold view_result, locals_result, compact_stack_variable_errors. ends_tac.
  apply Hm. intros thread. unfold compact_thread. ends_tac.
Qed.

Lemma Reads_inspection_get request : Reads (inspection_get env request).
Proof.
  unfold inspection_get. apply Sends_check_bind. intros view _.
  pose proof (Reads_inspection_threads env). pose proof (Reads_inspection_stack env).
  pose proof (Reads_frame_variables env). pose proof (Reads_register_read env).
  pose proof (Reads_inspection_command env). pose proof Reads_mappings. pose proof (Reads_breakpoints_view env).
  pose proof (Reads_symbol_search env). pose proof (Reads_source_excerpt env).
  pose proof (Reads_observation_memory env). pose proof (Reads_disassembly_read env).
  pose proof (Reads_inspection_tracking env). pose proof Reads_inspection_diff.
  do 2 (apply Sends_bind; [reads_tac|intros ?]). cbv beta zeta.
  repeat match goal with |- Sends _ _ (if ?b then _ else _) => destruct b end; auto.
  all: unfold session_providers, stack_view, frame_view, locals_view, arguments_view, modules_view, source_view,
    mappings_view, stop_facts; reads_tac; auto.
  all: match goal with H : forall _ _ _, _ ∈ READING -> _ |- _ => apply H; unfold READING; set_solver end.
Qed.

Lemma Reads_plain_view view request : Reads (plain_view env view request).
Proof.
  unfold plain_view. pose proof (Reads_inspection_get request). pose proof view_result_ends. reads_tac.
Qed.

Lemma Reads_crash_view (snapshot : handler SemanticResult) request :
  Reads snapshot -> Reads (crash_view env snapshot request).
Proof. intros H. unfold crash_view. reads_tac. Qed.

(** A view without a crash needs one round, a crash view two. *)
Lemma Reads_view_once n request :
  effect_free (req_parameters request) -> Json.get "view" (req_parameters request) <> Some (Str "crash") ->
  Reads (inspection_result env (S n) request).
Proof.
  intros He Hv. cbn [inspection_result]. apply Sends_check_bind. intros view Hview.
  destruct (bool_decide (view = "evaluate")); [by apply Reads_value_evaluate|].
  rewrite bool_decide_eq_false_2; [apply Reads_plain_view|]. intros ->. apply Hv.
  unfold text_parameter in Hview. destruct (Json.get "view" (req_parameters request)) as [[]|]; try done.
  cbn in Hview. case_bool_decide; by simplify_eq.
Qed.

Lemma Reads_view n request :
  effect_free (req_parameters request) -> absent "inspect" (req_parameters request) ->
  Reads (inspection_result env (S (S n)) request).
Proof.
  intros He Hi. remember (S n) as k eqn:Hn. cbn [inspection_result]. apply Sends_check_bind. intros view Hview.
  destruct (bool_decide (view = "evaluate")); [by apply Reads_value_evaluate|].
  destruct (bool_decide (view = "crash")); [|apply Reads_plain_view].
  apply Reads_crash_view, Reads_snapshot.
  - intros item r [H1 H2] [H3%effect_free_absent H4]. split; [auto|]. intros Hk. destruct (H2 Hk) as [_ H5].
    rewrite Hn. apply Reads_view_once; cbn [req_parameters subrequest]; [auto|]. by rewrite H5.
  - intros items l item r E. unfold absent in Hi. congruence.
Qed.

End results.


(** ** Requests that read *)

Section requests.
Context (env : Environment) (rounds : nat).

Lemma Reads_read_output ring offset maximum : Reads (read_output ring offset maximum).
Proof. unfold read_output. destruct ring; reads_tac; by apply Sends_exchange. Qed.

Lemma Reads_append_turn_output offset result : Reads (append_turn_output env offset result).
Proof. unfold append_turn_output. pose proof Reads_read_output. reads_tac. Qed.

(** Reads that may record their operation. *)
Abbreviation Observes := (Sends reading records_operation).

Lemma Observes_reads {A} (m : handler A) : Reads m -> Observes m.
Proof. by apply Reads_of. Qed.

Lemma Observes_record_operation o : Observes (record_operation o).
Proof. by apply Sends_hask, Sends_exchange_control. Qed.

Lemma put_all_ends l v : put_all l v <> OutOfFuel.
Proof.
  unfold put_all. assert (Done (E := Error) v <> OutOfFuel) as H by done. revert H.
  generalize (Done (E := Error) v) as o. induction l as [|[k w] l IH]; intros o H; cbn [foldl]; [done|].
  apply IH. ends_tac.
Qed.
Hint Resolve put_all_ends : ends.

Lemma Reads_wait w baseline epoch : Reads (apply_wait_baseline w baseline epoch).
Proof. unfold apply_wait_baseline, wait_from_baseline, wait_for_operation, wait_after_baseline, Handle.wait. reads_tac. Qed.

(** The reads of a request's own items, which its contract admits. *)
Lemma named_items_inspectable request key items l item r :
  validate_parameters (req_method request) (req_parameters request) = Ok tt ->
  (exists f, find_field key (fields (contract (req_method request))) = Some f /\ pf_kind f = INSPECTION_BATCH_KIND) ->
  Json.get key (req_parameters request) = Some items -> items = Array l -> item ∈ l -> taken_from item r ->
  inspectable (inspection_result env ROUNDS) request r.
Proof.
  intros Hv Hf Hg Hl Hin [H1 H2]. split.
  - apply H1. by eapply (validated_items (req_method request) key _ items).
  - intros Hk. destruct (H2 Hk) as [H3 _]. apply Reads_view; cbn [req_parameters subrequest]; [|done].
    apply H1. by eapply (validated_items (req_method request) key _ items).
Qed.

Lemma Reads_stop_observations request state result :
  validate_parameters (req_method request) (req_parameters request) = Ok tt ->
  (exists f, find_field "inspect" (fields (contract (req_method request))) = Some f /\ pf_kind f = INSPECTION_BATCH_KIND) ->
  Reads (append_stop_observations env request state result).
Proof.
  intros Hv Hf. unfold append_stop_observations.
  destruct (Json.get "inspect" (req_parameters request)) as [items|] eqn:Hg; [|apply Sends_ret].
  assert (Reads (captured_stop env request state items)) as Hc.
  { unfold captured_stop. apply Sends_bind; [reads_tac|]. intros session. apply Sends_bind; [reads_tac|]. intros e.
    apply Reads_capture. intros stop maximum parsed (l & -> & H2)%requests_taken.
    apply Forall_forall. intros r Hr. apply list_elem_of_lookup in Hr as [i Hi].
    destruct (Forall2_lookup_r _ _ _ _ _ H2 Hi) as (item & Hl & Ht). apply list_elem_of_lookup_2 in Hl.
    by eapply (named_items_inspectable request "inspect"). }
  assert (forall o r, with_observation o r <> OutOfFuel) by (intros; unfold with_observation; ends_tac).
  assert (forall s e r, with_observation_error s e r <> OutOfFuel) by (intros; unfold with_observation_error; ends_tac).
  reads_tac.
Qed.

Lemma Observes_execution_wait request :
  validate_parameters (req_method request) (req_parameters request) = Ok tt -> req_method request = Method.ExecutionWait ->
  Json.get "input" (req_parameters request) = None ->
  Observes (execution_wait env request).
Proof.
  intros Hv Hm Hi. unfold execution_wait, turn_input. rewrite Hi. cbv zeta.
  assert (forall state result, Observes (append_stop_observations env request state result)) as Hs.
  { intros. apply Observes_reads, Reads_stop_observations; [done|]. rewrite Hm.
    eexists. split; [vm_compute; reflexivity|done]. }
  pose proof (fun w b e => Observes_reads _ (Reads_wait w b e)).
  pose proof (fun o r => Observes_reads _ (Reads_append_turn_output o r)). pose proof Observes_record_operation.
  assert (forall p w, validate_turn_inspection env p w <> OutOfFuel).
  { intros. unfold validate_turn_inspection, validate_observation_requests. pose proof (parse_requests_ends (print env)). ends_tac. }
  assert (forall id, Observes (operation id)) by (intros; by apply Sends_hask, Sends_exchange).
  assert (forall i r, append_input i r <> OutOfFuel) by (intros; unfold append_input; ends_tac).
  apply Sends_check_bind. intros input [= <-]. unfold feed_inferior, find_operation, complete_operation. reads_tac.
Qed.

Lemma Reads_value_binding parameters state : Reads (current_value_binding parameters state).
Proof. unfold current_value_binding, value_binding. reads_tac; by apply Sends_exchange. Qed.

Lemma children_command_reads binding offset stop c : children_command binding offset stop = Ok c -> reads c.
Proof. unfold children_command. intros H. named_read. Qed.

Lemma update_command_reads binding c : update_command binding = Ok c -> reads c.
Proof. unfold update_command. intros H. named_read. Qed.

Lemma Reads_value_children request : Reads (value_children (command_timeout env) (limits env) (base64_encode env) request).
Proof. unfold value_children. pose proof Reads_value_binding. pose proof children_command_reads. reads_tac; eauto using Reads_command. Qed.

Lemma Reads_value_update request : Reads (value_update (command_timeout env) (base64_encode env) request).
Proof. unfold value_update. pose proof Reads_value_binding. pose proof update_command_reads. reads_tac; eauto using Reads_command. Qed.

Lemma Reads_io_read request : Reads (io_read env request).
Proof. unfold io_read. pose proof Reads_read_output. reads_tac. Qed.

Lemma Reads_tracking_list request : Reads (tracking_list request).
Proof. unfold tracking_list, tracking. reads_tac; by apply Sends_exchange. Qed.

Lemma Reads_signal_get request : Reads (signal_get request).
Proof. unfold signal_get. reads_tac. Qed.

Lemma Reads_snapshot_get request : Reads (inspection_snapshot_get request).
Proof. unfold inspection_snapshot_get. pose proof Reads_historical. reads_tac. Qed.

Lemma Reads_breakpoint_list request : Reads (breakpoint_list env request).
Proof. unfold breakpoint_list, refreshed_listing. pose proof Reads_reconcile_breakpoints. pose proof list_breakpoints_reads.
  reads_tac; eauto using Reads_command.
Qed.

Lemma Reads_present request result : Reads (present env request result).
Proof. unfold present, stored_details, with_stored_failures. reads_tac. Qed.


Lemma Reads_capabilities request : Reads (session_capabilities request).
Proof. unfold session_capabilities. reads_tac. Qed.

Lemma Reads_providers request : Reads (session_providers env request).
Proof. unfold session_providers. reads_tac. Qed.

Lemma Reads_memory_view request : Reads (memory_read_of env request).
Proof. unfold memory_read_of. apply Reads_memory_read. Qed.

Section validated.
Context (request : ApiRequest).
Context (Hv : validate_parameters (req_method request) (req_parameters request) = Ok tt).

Lemma Reads_get : req_method request = Method.InspectionGet -> Reads (inspection_result env ROUNDS request).
Proof using Hv.
  intros Hm. rewrite Hm in Hv. apply Reads_view; [apply effect_free_absent|];
    (eapply validated_absent; [exact Hv|apply (bool_decide_unpack _); vm_compute; exact I]).
Qed.

Lemma Reads_profile :
  req_method request = Method.InspectionSnapshot ->
  Reads (inspection_snapshot env (inspection_result env ROUNDS) request).
Proof using Hv.
  intros Hm. apply Reads_snapshot.
  - intros item r [H1 H2] [H3%effect_free_absent _]. split; [auto|]. intros Hk. destruct (H2 Hk) as [H4 _].
    apply Reads_view; cbn [req_parameters subrequest]; auto.
  - intros items l item r. apply (named_items_inspectable request "inspect"); [done|]. rewrite Hm.
    eexists. split; [vm_compute; reflexivity|done].
Qed.

Lemma Reads_requests :
  req_method request = Method.InspectionBatch ->
  Reads (inspection_batch env (inspection_result env ROUNDS) request).
Proof using Hv.
  intros Hm. apply Reads_batch. intros items l item r. apply (named_items_inspectable request "requests"); [done|].
  rewrite Hm. eexists. split; [vm_compute; reflexivity|done].
Qed.

(** A read that an input or a consent would make a mutation has neither. *)
Lemma read_without_consent :
  effect_for_request request = Policy.Read ->
  (req_method request = Method.ValueEvaluate -> effect_free (req_parameters request)) /\
  (req_method request = Method.ExecutionWait -> Json.get "input" (req_parameters request) = None).
Proof using Type.
  unfold effect_for_request, effect_free. intros He. split; intros Hm; rewrite Hm in He.
  - intros Ha. rewrite Ha in He. done.
  - rewrite bool_decide_eq_false_2 in He by done. cbn in He.
    destruct (Json.get "input" (req_parameters request)); [|done].
    rewrite bool_decide_eq_true_2 in He by (by eexists). done.
Qed.

End validated.

Lemma Reads_hypothesis_check request : Reads (agent_hypothesis_check env request).
Proof.
  unfold agent_hypothesis_check. pose proof (Reads_safe_evaluate (command_timeout env)).
  pose proof guarded_evaluation. reads_tac; try apply validate_expression_ends; eauto.
Qed.

(** A request that is classified as a read only reads, views of a kernel
    aside: they run scripts in GDB. *)
Lemma classified_reads_only_read request m :
  req_method request <> Method.KernelInspect ->
  effect_for_request request = Policy.Read ->
  validate_parameters (req_method request) (req_parameters request) = Ok tt ->
  execute_session_method env rounds request = Some m ->
  Observes m.
Proof.
  intros Hk He Hv. unfold execute_session_method. intros (answered & Ha & [= <-])%bind_Some.
  assert (match answered with Facts m => Observes m | Whole m => Observes m end) as Hr;
    [|destruct answered; (apply Sends_bind; [done|intros ?]); [apply Observes_reads, Reads_present|apply Sends_ret]].
  destruct (read_without_consent request He) as [Hf Hi].
  assert (effect_for_method (req_method request) = Policy.Read) as Hm.
  { unfold effect_for_request in He. destruct (_ && _); [done|]. by destruct (_ && _). }
  unfold method_handler in Ha.
  destruct (req_method request) eqn:Em; try done; rewrite <-Em in Hv; cbv beta iota zeta in Ha;
    apply (inj Some) in Ha; subst answered; try (by apply Observes_execution_wait; auto); apply Observes_reads;
    auto using Reads_get, Reads_profile, Reads_requests, Reads_breakpoint_list,
      Reads_inspection_diff, Reads_snapshot_get, Reads_value_evaluate, Reads_value_children,
      Reads_value_update, Reads_capabilities, Reads_providers, Reads_memory_view, Reads_memory_search, Reads_memory_compare,
      Reads_register_read, Reads_disassembly_read, Reads_io_read, Reads_tracking_list, Reads_signal_get,
      Reads_hypothesis_check.
Qed.

(** A read-only profile may make no other request of a session, but the one
    that opens a core file. *)
Lemma authorized_reads p request m :
  req_method request <> Method.TargetOpenCore ->
  p ∈ [OfflineCore; LiveObserver] ->
  authorize_method p (req_method request) (effect_for_request request) = Ok tt ->
  execute_session_method env rounds request = Some m -> effect_for_request request = Policy.Read.
Proof.
  intros Hc Hp Ha He. unfold authorize_method in Ha.
  assert (session_management (req_method request) ||
          (bool_decide (p = OfflineCore) && bool_decide (req_method request = Method.TargetOpenCore)) = false) as Hn.
  { unfold execute_session_method, method_handler in He. destruct (req_method request); try done;
      apply andb_false_r. }
  rewrite Hn in Ha. apply elem_of_cons in Hp as [->|Hp].
  - by destruct (effect_for_request request).
  - apply list_elem_of_singleton in Hp as ->. by destruct (effect_for_request request).
Qed.


End requests.

(** A snapshot that asks for a crash view, whose reads are views again. *)
Definition sample_env : Environment :=
  MkEnvironment (Config_default "/tmp" 1 None None None) string_of (fun s => Ok (bytes_of s)) (fun b => b)
    (fun _ => "") (fun _ => "") (fun s => s) Some (fun _ => Ok Null) (fun s => s).

Definition sample_snapshot : ApiRequest :=
  MkApiRequest API_VERSION "r1" (Some "sess_a1") Method.InspectionSnapshot None None
    (Object [("profile", Str "brief");
             ("inspect", Array [Object [("view", Str "crash")]; Object [("view", Str "memory");
                ("address", Str "0x1000"); ("length", uint 16)]])]).

