(* ===== verification/ExecutionProps.v ===== *)
(** * ExecutionProps: an execution is recorded from its command to its end

    What a request that resumes the target does in which order, read off the
    trace of its operations: the records of its operation that the worker
    acknowledged, the commands that resume the target, and the input. *)
From S2P Require Import Prelude Text MiAst Json Errors Domain Backend Normalize Ring Policy Protocol Contracts ContractProps Access Wait Effects Program Actor Requests Wire Results Config Gateway Encoding Context MiView Handle HandleProps Memory Observed Observations Environment Providers Values Reconcile Inspection Reading Snapshots Execution Methods ReadProps ViewProps.

(** ** What a trace shows of an execution *)

Record progress := MkProgress {
  pr_acknowledged : list OperationRecord;
  pr_resumed : list MiCommand;
  pr_input : list bytes
}.

Definition RESUMING : list string := ACTIONS.*2 ++ ["-exec-until"].

Definition resumes (c : MiCommand) : bool := bool_decide (command_name c ∈ bytes_of <$> RESUMING).

Definition observe (e : event HandleSig) (p : progress) : progress :=
  match projT1 e as o return answer HandleSig o -> progress with
  | Hop.Send (Command c _ _) _ => fun _ =>
      if resumes c then MkProgress (pr_acknowledged p) (c :: pr_resumed p) (pr_input p) else p
  | Hop.SendControl (Interrupt c _ _) _ => fun _ =>
      MkProgress (pr_acknowledged p) (c :: pr_resumed p) (pr_input p)
  | Hop.Send (WriteInferior b _ _) _ => fun _ =>
      MkProgress (pr_acknowledged p) (pr_resumed p) (b :: pr_input p)
  | Hop.ReceiveControl (RecordOperation o _) => fun a =>
      match a with
      | Some (Ok _) => MkProgress (o :: pr_acknowledged p) (pr_resumed p) (pr_input p)
      | _ => p
      end
  | _ => fun _ => p
  end (projT2 e).

Definition progress_of (tr : trace HandleSig) : progress := foldr observe (MkProgress [] [] []) tr.

Lemma reads_never_resume c : reads c -> resumes c = false.
Proof.
  assert (forall name, name ∈ ["-interpreter-exec"; "-data-evaluate-expression"] ++ READING ->
            bytes_of name ∉ bytes_of <$> RESUMING) as Hn.
  { intros name H1 H2. apply list_elem_of_fmap in H2 as (name' & E & H2).
    assert (Forall (fun n => Forall (fun n' => bytes_of n <> bytes_of n') RESUMING)
              (["-interpreter-exec"; "-data-evaluate-expression"] ++ READING)) as Hf
      by (apply (bool_decide_unpack _); vm_compute; exact I).
    rewrite Forall_forall in Hf. specialize (Hf _ H1). rewrite Forall_forall in Hf. by apply (Hf _ H2). }
  intros H. apply bool_decide_eq_false_2.
  destruct H as [(name & -> & H)%list_elem_of_fmap|[[-> _]|[-> _]]]; apply Hn; set_solver.
Qed.

(** ** What may be done when *)

Section control.
Context (env : Environment) (request : ApiRequest).
Local Abbreviation parameters := (req_parameters request).

(** The operation is acknowledged as accepted, and nothing was resumed. *)
Definition may_resume (c : MiCommand) (p : progress) : Prop :=
  pr_resumed p = [] /\ pr_input p = [] /\
  exists o action state plain,
    pr_acknowledged p = [o] /\ op_status o = Op.Accepted /\ op_kind o = "execution." +:+ action /\
    op_wait_baseline o = Some (WaitBaseline_of state) /\
    text_parameter parameters "action" = Ok action /\ action_command action parameters = Ok plain /\
    context_options plain parameters state = Ok c.

Definition execution_ok (tr : trace HandleSig) (o : Hop.op) : Prop :=
  let p := progress_of tr in
  match o with
  | Hop.Send (Command c _ _) _ => reads c \/ may_resume c p
  | Hop.Send (WriteInferior b eof _) _ =>
      eof = false /\ pr_resumed p <> [] /\ pr_input p = [] /\
      turn_input env parameters = Ok (Some b)
  | Hop.Send (RecordEvent e) _ => bookkeeping e \/ (e = input_event /\ pr_input p <> [])
  | Hop.Send r _ => reading r
  | Hop.SendControl (Interrupt c _ _) _ => may_resume c p /\ text_parameter parameters "action" = Ok "interrupt"
  | Hop.SendControl (RecordOperation o _) _ =>
      match pr_acknowledged p with
      | [] => op_status o = Op.Accepted
      | o' :: _ => op_id o = op_id o' /\ (op_status o <> Op.Accepted)
      end
  | Hop.SendControl _ _ => False
  | _ => True
  end.

Local Abbreviation wpx := (wpa execution_ok true).

Lemma execution_ok_quiet tr (o : Hop.op) : may_send reading (fun _ => False) o -> execution_ok tr o.
Proof. destruct o; cbn; try done.
  match goal with r : WorkerRequest |- _ => destruct r end; cbn; auto; done.
Qed.

Lemma observe_quiet (o : Hop.op) x p :
  may_send reading (fun _ => False) o -> observe (ev (E := HandleSig) o x) p = p.
Proof.
  destruct o; cbn; try done.
  match goal with r : WorkerRequest |- _ => destruct r end; cbn; try done. by intros ->%reads_never_resume.
Qed.

Lemma safe_while_reading {A} (m : prog HandleSig A) (P : A -> trace HandleSig -> Prop) p tr :
  safe (E := HandleSig) (fun _ (o : Hop.op) => may_send reading (fun _ => False) o) (fun _ _ => True) m tr ->
  progress_of tr = p -> (forall a tr', progress_of tr' = p -> P a tr') -> safe execution_ok P m tr.
Proof.
  intros Hm Ht HP. revert tr Ht Hm. induction m as [a|o k IH]; intros tr Ht; cbn; [auto|].
  intros [Ho Hk]. split; [by apply execution_ok_quiet|]. intros x. apply IH; [|done].
  unfold progress_of in *. cbn [foldr]. by rewrite observe_quiet.
Qed.

(** A read leaves the progress of the execution as it was. *)
Lemma wpx_reads {A} (m : handler A) (Q : Result Error A -> option Observation -> trace HandleSig -> Prop) s tr :
  Reads m -> (forall r s' tr', progress_of tr' = progress_of tr -> Q r s' tr') -> wpx m Q s tr.
Proof.
  intros Hm HQ. unfold wpa. apply (safe_while_reading _ _ (progress_of tr)); [|done|].
  - by apply (safe_mono _ _ _ _ _ (Hm s tr)).
  - intros [s' []] tr' Ht; auto.
Qed.

(** One step of the handle that is not a read. *)
Ltac quiet := first [exact I | by left].
Ltac walk :=
  repeat first
    [ progress cbv beta iota zeta
    | match goal with
      | |- wpa _ _ (mbind _ _) _ _ _ => apply wpa_bind
      | |- wpa _ _ (mret _) _ _ _ => apply wpa_ret
      | |- wpa _ _ (check _) _ _ _ => apply wpa_check
      | |- wpa _ _ (attempt _) _ _ _ => apply wpa_attempt
      | |- wpa _ _ observation_scope _ _ _ => apply wpa_scope
      | |- wpa _ _ (hdo _) _ _ _ => apply wpa_hdo; [quiet|intros ?]
      end ].

Definition resumed (c : MiCommand) (p : progress) : progress :=
  MkProgress (pr_acknowledged p) (c :: pr_resumed p) (pr_input p).
Definition acknowledged (o : OperationRecord) (p : progress) : progress :=
  MkProgress (o :: pr_acknowledged p) (pr_resumed p) (pr_input p).
Definition fed (b : bytes) (p : progress) : progress :=
  MkProgress (pr_acknowledged p) (pr_resumed p) (b :: pr_input p).

(** A step that may fail before it takes effect. *)
Definition takes {A} (effect : progress -> progress) (p : progress) (r : Result Error A)
    (tr : trace HandleSig) : Prop :=
  progress_of tr = effect p \/ ((exists e, r = Err e) /\ progress_of tr = p).

Lemma progress_quiet (o : Hop.op) x tr :
  may_send reading (fun _ => False) o -> progress_of (ev (E := HandleSig) o x :: tr) = progress_of tr.
Proof. intros H. unfold progress_of. cbn [foldr]. by apply observe_quiet. Qed.

Lemma wpx_command t c (Q : Result Error CommandReply -> option Observation -> trace HandleSig -> Prop) s tr :
  resumes c = true -> may_resume c (progress_of tr) ->
  (forall r s' tr', takes (resumed c) (progress_of tr) r tr' -> Q r s' tr') ->
  wpx (command t c) Q s tr.
Proof.
  intros Hc Hm HQ. unfold command, command_with_timeout, command_deadline, in_sequence. walk.
  assert (forall d tr0 (Q0 : Result Error CommandReply -> option Observation -> trace HandleSig -> Prop),
    progress_of tr0 = progress_of tr ->
    (forall r tr', takes (resumed c) (progress_of tr) r tr' -> Q0 r s tr') ->
    wpx (send_command c d) Q0 s tr0) as Hsend.
  { intros d tr0 Q0 H0 HQ0. unfold send_command, owning_operation, active_operation. walk.
    assert (forall op tr1, progress_of tr1 = progress_of tr -> wpx (enqueue_command c d op) Q0 s tr1) as He.
    { intros op tr1 H1. unfold enqueue_command, hask, exchange_until, enqueue_until, receive. walk.
      apply wpa_hdo; [right; cbn; by rewrite H1|]. intros delivery.
      assert (progress_of (ev (E := HandleSig) (Hop.Send (Command c op d) (Some d)) delivery :: tr1) =
              resumed c (progress_of tr)) as H2.
      { unfold progress_of in *. cbn. rewrite Hc, H1. done. }
      walk. destruct delivery; cbv beta iota delta [delivered_ok]; [walk|by apply HQ0; left..].
      match goal with |- context [ok_or ?x _] => destruct x end; cbv beta iota delta [ok_or]; [walk|];
        by apply HQ0; left. }
    match goal with |- context [match ?x with _ => _ end] => destruct x as [[id cancelled]|] end; walk; [|by apply He].
    destruct cancelled; cbv beta iota delta [operation_active]; [|walk; by apply He]. apply HQ0. right. split; [by eexists|done]. }
  destruct s as [o|].
  - apply Hsend; [done|]. intros r tr' Ht. by apply HQ.
  - unfold with_sequence. walk.
    match goal with |- context [if ?x then _ else _] => destruct x end; walk.
    + apply Hsend; [done|]. intros r tr' Ht. walk. destruct r; by apply HQ.
    + apply HQ. right. split; [by eexists|done].
Qed.

Lemma wpx_interrupt t c (Q : Result Error CommandReply -> option Observation -> trace HandleSig -> Prop) s tr :
  may_resume c (progress_of tr) -> text_parameter parameters "action" = Ok "interrupt" ->
  (forall r s' tr', takes (resumed c) (progress_of tr) r tr' -> Q r s' tr') ->
  wpx (interrupt t c) Q s tr.
Proof.
  intros Hm Ha HQ. unfold interrupt, command_deadline, hask, exchange_control. walk.
  apply wpa_hdo; [by split|]. intros delivery. walk.
  destruct delivery; cbv beta iota delta [delivered_ok]; [walk|by apply HQ; left..].
  match goal with |- context [ok_or ?x _] => destruct x end; cbv beta iota delta [ok_or]; [walk|]; by apply HQ; left.
Qed.

Lemma wpx_record o (Q : Result Error unit -> option Observation -> trace HandleSig -> Prop) s tr :
  match pr_acknowledged (progress_of tr) with
  | [] => op_status o = Op.Accepted
  | o' :: _ => op_id o = op_id o' /\ op_status o <> Op.Accepted
  end ->
  (forall s' tr', progress_of tr' = acknowledged o (progress_of tr) -> Q (Ok tt) s' tr') ->
  (forall e s' tr', progress_of tr' = progress_of tr -> Q (Err e) s' tr') ->
  wpx (record_operation o) Q s tr.
Proof.
  intros Ho HQ He. unfold record_operation, hask, exchange_control. walk.
  apply wpa_hdo; [exact Ho|]. intros delivery. walk.
  destruct delivery; cbv beta iota delta [delivered_ok]; [walk|by apply He..].
  match goal with |- context [ok_or ?x _] => destruct x as [[[]|e]|] end; cbv beta iota delta [ok_or];
    [walk; by apply HQ|walk; by apply He|by apply He].
Qed.

Lemma wpx_event e (Q : Result Error unit -> option Observation -> trace HandleSig -> Prop) s tr :
  e = input_event -> pr_input (progress_of tr) <> [] ->
  (forall r s' tr', progress_of tr' = progress_of tr -> Q r s' tr') -> wpx (record_event e) Q s tr.
Proof.
  intros -> Hi HQ. unfold record_event, hask, exchange, enqueue, receive. walk.
  apply wpa_hdo; [by right|]. intros delivery. walk.
  destruct delivery; cbv beta iota delta [delivered_ok]; [walk|by apply HQ..].
  match goal with |- context [ok_or ?x _] => destruct x end; cbv beta iota delta [ok_or]; [walk|]; by apply HQ.
Qed.

Lemma wpx_write b t (Q : Result Error N -> option Observation -> trace HandleSig -> Prop) s tr :
  pr_resumed (progress_of tr) <> [] -> pr_input (progress_of tr) = [] -> turn_input env parameters = Ok (Some b) ->
  (forall r s' tr', progress_of tr' = fed b (progress_of tr) -> Q r s' tr') ->
  wpx (write_inferior_with_timeout b false t) Q s tr.
Proof.
  intros H1 H2 H3 HQ. unfold write_inferior_with_timeout, command_deadline, enqueue_until, receive. walk.
  apply wpa_hdo; [by split_and!|]. intros delivery. walk.
  destruct delivery; cbv beta iota delta [delivered_ok map_error]; [walk|by apply HQ..].
  match goal with |- context [ok_or ?x _] => destruct x end; cbv beta iota delta [ok_or]; [walk|]; by apply HQ.
Qed.

Lemma wpx_feed input t (Q : Result Error (option Value) -> option Observation -> trace HandleSig -> Prop) s tr :
  pr_resumed (progress_of tr) <> [] -> pr_input (progress_of tr) = [] -> turn_input env parameters = Ok input ->
  (forall r s' tr', pr_acknowledged (progress_of tr') = pr_acknowledged (progress_of tr) ->
     pr_resumed (progress_of tr') = pr_resumed (progress_of tr) -> Q r s' tr') ->
  wpx (feed_inferior input t) Q s tr.
Proof.
  intros H1 H2 H3 HQ. unfold feed_inferior. destruct input as [b|]; [|apply wpa_ret; by apply HQ]. walk.
  apply wpx_write; [done..|]. intros r s1 tr1 E1. walk. destruct (input_progress (lenN b) r) as [written report]. walk.
  assert (pr_acknowledged (progress_of tr1) = pr_acknowledged (progress_of tr) /\
          pr_resumed (progress_of tr1) = pr_resumed (progress_of tr)) as [E2 E3] by (by rewrite E1).
  unfold perform_when. destruct (0 <? written)%N; [|walk; by apply HQ].
  apply wpx_event; [done|by rewrite E1|]. intros [[]|e] s2 tr2 E4; walk; apply HQ; congruence.
Qed.

Lemma wpx_run {A} (o : outcome Error A) (Q : Result Error A -> option Observation -> trace HandleSig -> Prop) s tr :
  (forall r, Q r s tr) -> wpx (run o) Q s tr.
Proof. intros H. unfold wpa, run, local. cbn. destruct o; try done; apply H. Qed.

(** How an execution that is answered ends: its operation is acknowledged as
    completed, or as timed out, which no answer presents as complete. *)
Definition recorded_end (r : Result Error SemanticResult) (p : progress) : Prop :=
  length (pr_resumed p) <= 1 /\
  forall result, r = Ok result ->
    length (pr_resumed p) = 1 /\
    exists o rest, pr_acknowledged p = o :: rest /\
      (op_status o = Op.Completed \/
       (op_status o = Op.TimedOut /\ sem_complete (semantics (metadata result)) = false)).

(** The operation's last record is one of [o]. *)
Definition tracked (o : OperationRecord) (p : progress) : Prop :=
  exists o' rest, pr_acknowledged p = o' :: rest /\ op_id o = op_id o'.

(** The command was sent for it. *)
Definition underway (o : OperationRecord) (p : progress) : Prop := length (pr_resumed p) = 1 /\ tracked o p.

Lemma wpx_record_again o p (Q : Result Error unit -> option Observation -> trace HandleSig -> Prop) s tr :
  progress_of tr = p -> tracked o p -> op_status o <> Op.Accepted ->
  (forall s' tr', progress_of tr' = acknowledged o p -> Q (Ok tt) s' tr') ->
  (forall e s' tr', progress_of tr' = p -> Q (Err e) s' tr') ->
  wpx (record_operation o) Q s tr.
Proof.
  intros <- (o' & rest & E & Hid) Ho H1 H2. apply wpx_record; [|done..]. by rewrite E.
Qed.

Lemma recorded_end_err e p : length (pr_resumed p) <= 1 -> recorded_end (Err e) p.
Proof. by split. Qed.

Lemma recorded_end_ok (r : SemanticResult) o p :
  length (pr_resumed p) = 1 ->
  (op_status o = Op.Completed \/ (op_status o = Op.TimedOut /\ sem_complete (semantics (metadata r)) = false)) ->
  recorded_end (Ok r) (acknowledged o p).
Proof.
  intros Hl Ho. split; [cbn; lia|]. intros result [= <-]. split; [done|]. by exists o, (pr_acknowledged p).
Qed.

Definition ends_recorded (r : Result Error SemanticResult) (_ : option Observation) (tr : trace HandleSig) : Prop :=
  recorded_end r (progress_of tr).

Lemma wpx_fail o e s tr :
  length (pr_resumed (progress_of tr)) <= 1 -> tracked o (progress_of tr) ->
  wpx (fail_operation o e) ends_recorded s tr.
Proof.
  intros Hl Hu. unfold fail_operation, event_seq_now. walk.
  eapply (wpx_record_again _ (progress_of tr)); [done|exact Hu|done|..].
  - intros s' tr' E. walk. unfold ends_recorded. rewrite E. apply recorded_end_err. done.
  - intros e' s' tr' E. unfold ends_recorded. rewrite E. apply recorded_end_err. done.
Qed.

(** The reads after the last record. *)
Lemma wpx_after o p (m : handler SemanticResult) s tr :
  Reads m -> op_status o = Op.Completed -> length (pr_resumed p) = 1 ->
  progress_of tr = acknowledged o p -> wpx m ends_recorded s tr.
Proof.
  intros Hm Ho Hl E. apply wpx_reads; [done|]. intros [r|e] s' tr' E'; unfold ends_recorded; rewrite E', E.
  - apply recorded_end_ok; auto.
  - apply recorded_end_err. cbn. lia.
Qed.

Lemma wpx_finish_accepted e input o reply s tr :
  underway o (progress_of tr) -> wpx (finish_accepted e input o reply) ends_recorded s tr.
Proof.
  intros Hu. pose proof (proj1 Hu) as Hl. unfold finish_accepted, event_seq_now. walk.
  eapply (wpx_record_again _ (progress_of tr)); [done|exact (proj2 Hu)|done|..]; [intros s' tr' E|].
  - eapply wpx_after; [| |exact Hl|exact E]; [|reflexivity].
    assert (forall i r, append_input i r <> OutOfFuel) by (intros; unfold append_input; ends_tac). reads_tac.
  - intros e' s' tr' E. unfold ends_recorded. rewrite E. apply recorded_end_err. lia.
Qed.

Lemma wpx_finish_timed_out e offset input o reply s tr :
  underway o (progress_of tr) -> wpx (finish_timed_out env e offset input o reply) ends_recorded s tr.
Proof.
  intros Hu. pose proof (proj1 Hu) as Hl. unfold finish_timed_out. walk.
  eapply (wpx_record_again _ (progress_of tr)); [done|exact (proj2 Hu)|done|..]; [intros s' tr' E|].
  - walk. apply wpx_run. intros [v|e']; [|unfold ends_recorded; rewrite E; apply recorded_end_err; cbn; lia].
    walk. apply wpx_reads; [apply Reads_append_turn_output|]. intros [v'|e'] s2 tr2 E2; walk;
      unfold ends_recorded; rewrite E2, E; [|apply recorded_end_err; cbn; lia].
    apply recorded_end_ok; [done|]. right. by split.
  - intros e' s' tr' E. unfold ends_recorded. rewrite E. apply recorded_end_err. lia.
Qed.

Section validated.
Context (Hv : validate_parameters (req_method request) parameters = Ok tt).
Context (Hm : req_method request = Method.ExecutionControl).

Lemma wpx_finish_waited e offset input w o reply state s tr :
  underway o (progress_of tr) ->
  wpx (finish_waited env request e offset input w o reply state) ends_recorded s tr.
Proof using Hv Hm.
  intros Hu. pose proof (proj1 Hu) as Hl. unfold finish_waited. walk.
  eapply (wpx_record_again _ (progress_of tr)); [done|exact (proj2 Hu)|done|..]; [intros s' tr' E|].
  - eapply wpx_after; [| |exact Hl|exact E]; [|reflexivity].
    assert (forall state result, Reads (append_stop_observations env request state result)).
    { intros. apply Reads_stop_observations; [done|]. rewrite Hm. eexists. split; [vm_compute; reflexivity|done]. }
    assert (forall i r, append_input i r <> OutOfFuel) by (intros; unfold append_input; ends_tac).
    pose proof (Reads_append_turn_output env). reads_tac.
  - intros e' s' tr' E. unfold ends_recorded. rewrite E. apply recorded_end_err. lia.
Qed.

Lemma underway_acknowledged o o' p : underway o p -> op_id o' = op_id o -> underway o' (acknowledged o' p).
Proof using Type. intros [Hl _] _. split; [done|]. by exists o', (pr_acknowledged p). Qed.

Lemma wpx_follow e offset input w state o reply s tr :
  underway o (progress_of tr) -> pr_input (progress_of tr) = [] -> turn_input env parameters = Ok input ->
  wpx (follow_execution env request e offset input w state o reply) ends_recorded s tr.
Proof using Hv Hm.
  intros Hu Hi Ht. unfold follow_execution. walk.
  apply wpx_feed; [by intros E; destruct Hu as [Hl _]; rewrite E in Hl|done|done|].
  intros r s1 tr1 E1 E2. assert (underway o (progress_of tr1)) as Hu1 by (unfold underway, tracked; by rewrite E1, E2).
  destruct r as [report|e1]; [|apply recorded_end_err; destruct Hu1; lia].
  destruct w as [w|]; [|by apply wpx_finish_accepted]. walk.
  eapply (wpx_record_again _ (progress_of tr1)); [done|exact (proj2 Hu1)|done|..]; [intros s2 tr2 E3|].
  - assert (underway (o <| op_status := Op.WaitingForState |>) (progress_of tr2)) as Hu2
      by (rewrite E3; by eapply underway_acknowledged).
    walk. apply wpx_reads; [apply Reads_wait|]. intros waited s3 tr3 E4. rewrite <-E4 in Hu2. walk.
    destruct waited as [state'|e2]; [by apply wpx_finish_waited|].
    destruct (bool_decide (err_code e2 = Code.Timeout)); [by apply wpx_finish_timed_out|].
    destruct Hu2 as [Hl Hu2]. apply wpx_fail; [lia|done].
  - intros e1 s' tr' E. unfold ends_recorded. rewrite E. apply recorded_end_err. destruct Hu1; lia.
Qed.

Lemma actions_resume action plain state c :
  action_command action parameters = Ok plain -> context_options plain parameters state = Ok c -> resumes c = true.
Proof using Type.
  intros Ha [Hn _]%context_options_Ok. apply bool_decide_eq_true_2. rewrite Hn. clear Hn.
  unfold action_command in Ha. destruct (assoc action ACTIONS) as [name|] eqn:E.
  - apply MiCommand_new_Ok in Ha as ->. apply assoc_elem in E. cbn [command_name].
    apply (list_elem_of_fmap_2 bytes_of). unfold RESUMING. apply elem_of_app. left.
    apply list_elem_of_fmap. by exists (action, name).
  - destruct (bool_decide (action = "until")); [|done]. apply bind_Ok in Ha as (c1 & ->%MiCommand_new_Ok & Ha).
    apply bind_Ok in Ha as (location & _ & Ha). simplify_eq. change (bytes_of "-exec-until" ∈ bytes_of <$> RESUMING). apply list_elem_of_fmap_2. unfold RESUMING. apply elem_of_app. right. by apply list_elem_of_singleton.
Qed.

Lemma wpx_send_action action c s tr (Q : Result Error CommandReply -> option Observation -> trace HandleSig -> Prop) :
  text_parameter parameters "action" = Ok action -> resumes c = true -> may_resume c (progress_of tr) ->
  (forall r s' tr', takes (resumed c) (progress_of tr) r tr' -> Q r s' tr') ->
  wpx (send_action env action c) Q s tr.
Proof using Type.
  intros Ha Hr Hc HQ. unfold send_action. destruct (bool_decide_reflect (action = "interrupt")) as [->|].
  - by apply wpx_interrupt.
  - by apply wpx_command.
Qed.
End validated.

(** A handler that does not run out of rounds. *)
Abbreviation Ends := (Sends (fun _ => True) (fun _ => True)).

Lemma Ends_reads {A} (m : handler A) : Reads m -> Ends m.
Proof. by apply Reads_of. Qed.

Lemma Ends_record o : Ends (record_operation o).
Proof. by apply Sends_hask, Sends_exchange_control. Qed.

Lemma Ends_feed input t : Ends (feed_inferior input t).
Proof.
  unfold feed_inferior, write_inferior_with_timeout. destruct input; [|apply Sends_ret].
  apply Sends_bind; [apply Sends_attempt|intros result; destruct (input_progress _ result)].
  - unfold command_deadline, enqueue_until, receive. sends_tac; by apply Sends_hdo.
  - apply Sends_bind; [|intros; sends_tac]. apply Sends_when. by apply Sends_record_event.
Qed.

Lemma Ends_send action c : Ends (send_action env action c).
Proof. unfold send_action. destruct (bool_decide _); [by apply Sends_interrupt|by apply Sends_command]. Qed.

Lemma Ends_execution_control :
  req_method request = Method.ExecutionControl ->
  validate_parameters (req_method request) parameters = Ok tt -> Ends (execution_control env request).
Proof.
  intros Hm Hv. unfold execution_control, follow_execution, finish_waited, finish_timed_out, finish_accepted,
    fail_operation, event_seq_now.
  assert (forall state result, Ends (append_stop_observations env request state result)).
  { intros. apply Ends_reads, Reads_stop_observations; [done|]. rewrite Hm. eexists. split; [vm_compute; reflexivity|done]. }
  assert (forall i r, append_input i r <> OutOfFuel) by (intros; unfold append_input; ends_tac).
  pose proof (fun o r => Ends_reads _ (Reads_append_turn_output env o r)).
  pose proof (fun w b e => Ends_reads _ (Reads_wait w b e)).
  pose proof Ends_record. pose proof Ends_feed. pose proof Ends_send.
  assert (forall p w, validate_turn_inspection env p w <> OutOfFuel).
  { intros. unfold validate_turn_inspection, validate_observation_requests. pose proof (parse_requests_ends (print env)). ends_tac. }
  unfold apply_wait. reads_tac.
Qed.

(** C13: an execution resumes the target at most once, and what became of it is
    on record.  Whatever the session, the worker and GDB answer, a request to
    control execution sends one command that resumes the target at most - the
    one of its action, in the context the request names - and only when the
    worker has acknowledged the operation as accepted, with the state that the
    context was taken from as the baseline of its waits.  The inferior is fed
    the request's input at most once and only after that command; all else the
    handler sends only reads.  An answer is given only after the worker
    acknowledged the operation as completed, or as timed out, which no answer
    presents as complete.  It does not run out of rounds. *)
Theorem executions_are_recorded :
  req_method request = Method.ExecutionControl ->
  validate_parameters (req_method request) parameters = Ok tt ->
  wpx (execution_control env request) ends_recorded None [] /\ Ends (execution_control env request).
Proof.
  intros Hm Hv. split; [|by apply Ends_execution_control]. unfold execution_control.
  assert (forall (e : Error) tr, progress_of tr = MkProgress [] [] [] -> ends_recorded (Err e) None tr) as Hstart.
  { intros e tr E. unfold ends_recorded. rewrite E. apply recorded_end_err. cbn. lia. }
  walk. destruct (text_parameter parameters "action") as [action|] eqn:Ea; [|by apply Hstart].
  walk. destruct (wait_spec _ parameters) as [w|]; [|by apply Hstart].
  walk. apply wpx_run. intros [[]|]; [|by apply Hstart].
  walk. destruct (turn_input env parameters) as [input|] eqn:Ei; [|by apply Hstart].
  walk. destruct (bool_decide (action = "interrupt") && _); [by apply Hstart|].
  walk. destruct (required_session request) as [session|]; [|by apply Hstart].
  unfold entry. walk. match goal with |- context [ok_or ?x _] => destruct x as [e|] end; [|by apply Hstart].
  cbv beta iota delta [ok_or]. walk.
  match goal with |- context [accepted_operation ?u _ _ ?st] => set (state := st); set (o := accepted_operation u _ _ _) end.
  apply wpx_record; [done| |intros e1 s' tr' E; apply Hstart; by rewrite E].
  intros s1 tr1 E1. assert (progress_of tr1 = MkProgress [o] [] []) as E by done. clear E1. walk.
  assert (forall e2, recorded_end (Err e2) (progress_of tr1)) as Hstop by (intros; rewrite E; by split; [cbn; lia|]).
  destruct (action_command action parameters) as [plain|] eqn:Ep; [|by apply Hstop]. walk.
  destruct (context_options plain parameters state) as [c|] eqn:Ec; [|by apply Hstop]. walk.
  apply wpx_send_action; [done|by eapply actions_resume|rewrite E; split_and!; [done|done|]; by exists o, action, state, plain|].
  intros reply s2 tr2 Ht. walk. destruct Ht as [Ht|[[e2 ->] Ht]]; rewrite E in Ht.
  - assert (underway o (progress_of tr2)) as Hu by (rewrite Ht; split; [done|by exists o, []]).
    destruct reply as [reply|e2]; [|destruct Hu; apply wpx_fail; [lia|done]].
    apply wpx_follow; [done|done|exact Hu|by rewrite Ht|done].
  - apply wpx_fail; rewrite Ht; [cbn; lia|by exists o, []].
Qed.

End control.

(** Input, a wait and the reads of its stop. *)
Definition sample_execution : ApiRequest :=
  MkApiRequest API_VERSION "r2" (Some "sess_a1") Method.ExecutionControl (Some 3%N) None
    (Object [("action", Str "continue"); ("input", Object [("text", Str "yes")]);
             ("wait", Object [("until", Str "stopped"); ("timeout_ms", uint 100)]);
             ("inspect", Array [Object [("view", Str "stack")]])]).

Lemma executions_are_recorded_witness :
  req_method sample_execution = Method.ExecutionControl /\
  validate_parameters (req_method sample_execution) (req_parameters sample_execution) = Ok tt /\
  wpa (execution_ok sample_env sample_execution) true (execution_control sample_env sample_execution)
    ends_recorded None [].
Proof.
  split; [done|]. split; [vm_compute; reflexivity|].
  destruct (executions_are_recorded sample_env sample_execution) as [H _]; [done|vm_compute; reflexivity|].
  exact H.
Defined.
