(* ===== verification/TargetProps.v ===== *)
(** * TargetProps: what is launched, attached to and left behind

    The arguments and the environment of a launch reach the program as they
    were requested; a process is attached to only while it is the one that was
    allowed; temporary breakpoints are removed however their turn ends. *)
From S2P Require Import Prelude Text MiAst Json Errors Domain Backend Normalize Policy Protocol Contracts Access Wait Effects Program Actor Requests Wire Results Config Gateway Encoding Context MiView Handle HandleProps Memory MemoryProps Environment Inspection Reconcile Snapshots Execution Targets Kernel Probe ReadProps ViewProps.

(** ** The words of a shell *)

(** The quoting rules of the POSIX shell (XCU 2.2.1 and 2.2.2) with the
    splitting of a command line into words; a character that is special to the
    shell, or that may be, gives no result. *)
Inductive quoting := Unquoted | InQuotes | Escaped.

Definition is_literal (c : ascii) : bool :=
  is_ascii_alphanumeric c || bool_decide (c ∈ bytes_of "_-+./:,@%").

Definition push_byte (c : ascii) (word : option bytes) : option bytes := Some (default [] word ++ [c]).

Definition end_word (word : option bytes) (words : list bytes) : list bytes :=
  match word with Some w => w :: words | None => words end.

Fixpoint shell_split (q : quoting) (word : option bytes) (text : bytes) : option (list bytes) :=
  match text with
  | [] => match q with Unquoted => Some (end_word word []) | _ => None end
  | c :: text =>
      match q with
      | InQuotes =>
          if (c =? QUOTE)%char then shell_split Unquoted word text
          else shell_split InQuotes (push_byte c word) text
      | Escaped =>
          if (c =? LF)%char then None else shell_split Unquoted (push_byte c word) text
      | Unquoted =>
          if (c =? QUOTE)%char then shell_split InQuotes (Some (default [] word)) text
          else if (c =? BACKSLASH)%char then shell_split Escaped word text
          else if (c =? " ")%char then end_word word <$> shell_split Unquoted None text
          else if is_literal c then shell_split Unquoted (push_byte c word) text
          else None
      end
  end.

Definition shell_words (text : bytes) : option (list bytes) := shell_split Unquoted None text.

Example shell_words_quotes :
  shell_words (bytes_of "ls -l 'a b' c\'d") = Some (bytes_of <$> ["ls"; "-l"; "a b"; "c'd"]) /\
  shell_words (bytes_of "echo $HOME") = None.
Proof. split; vm_compute; reflexivity. Qed.

Lemma shell_split_escaped (c : ascii) (w rest : bytes) :
  shell_split InQuotes (Some w) (escape_quote c ++ rest) = shell_split InQuotes (Some (w ++ [c])) rest.
Proof.
  unfold escape_quote. destruct (Ascii.eqb_spec c QUOTE) as [->|Hc]; [done|].
  cbn [app shell_split]. by rewrite (proj2 (Ascii.eqb_neq _ _) Hc).
Qed.

Lemma shell_split_quoted (b w rest : bytes) :
  shell_split InQuotes (Some w) ((b ≫= escape_quote) ++ QUOTE :: rest) =
  shell_split Unquoted (Some (w ++ b)) rest.
Proof.
  revert w. induction b as [|c b IH]; intros w; [by rewrite app_nil_r|].
  by rewrite bind_cons, <-app_assoc, shell_split_escaped, IH, <-app_assoc.
Qed.

Lemma shell_split_arguments (arguments : list string) (word : option bytes) :
  shell_split Unquoted word (arguments ≫= fun a => bytes_of " " ++ shell_quoted a) =
  Some (end_word word (bytes_of <$> arguments)).
Proof.
  revert word. induction arguments as [|a rest IH]; intros word; [done|].
  rewrite bind_cons.
  assert (forall l, (bytes_of " " ++ shell_quoted a) ++ l =
            " "%char :: QUOTE :: (bytes_of a ≫= escape_quote) ++ QUOTE :: l) as ->
    by (intros; unfold shell_quoted; cbn; by rewrite <-!app_assoc).
  cbn [shell_split Ascii.eqb]. cbn -[mbind shell_split]. 
  cbn [shell_split]. cbn -[mbind shell_split]. rewrite shell_split_quoted, IH. by destruct word.
Qed.

(** ** What a launch tells GDB *)

(** The arguments a console command gives the program, by the words its shell
    makes of them. *)
Definition given_arguments (c : MiCommand) : option (list bytes) :=
  match command_arguments c with
  | [Bare interpreter; StringArgument text] =>
      if bool_decide (command_name c = bytes_of "-interpreter-exec") &&
         bool_decide (interpreter = bytes_of "console")
      then strip_prefix (bytes_of "set args") text ≫= shell_words
      else None
  | _ => None
  end.

(** The name before the first equals sign, and the value after it. *)
Fixpoint assignment (name text : bytes) : option (bytes * bytes) :=
  match text with
  | [] => None
  | c :: text => if (c =? "=")%char then Some (name, text) else assignment (name ++ [c]) text
  end.

(** The variable a command sets in the program's environment. *)
Definition given_variable (c : MiCommand) : option (bytes * bytes) :=
  match command_arguments c with
  | [Bare what; Bare text] =>
      if bool_decide (command_name c = bytes_of "-gdb-set") && bool_decide (what = bytes_of "environment")
      then assignment [] text
      else None
  | _ => None
  end.

Lemma assignment_of_name (seen name value : bytes) :
  forallb (fun c => is_ascii_alphanumeric c || is_underscore c) name = true ->
  assignment seen (name ++ "="%char :: value) = Some (seen ++ name, value).
Proof.
  revert seen. induction name as [|c name IH]; intros seen; cbn; [by rewrite app_nil_r|].
  intros [Hc Hn]%andb_prop. destruct (Ascii.eqb_spec c "=") as [->|_]; [done|].
  by rewrite IH, <-app_assoc.
Qed.

Lemma bare_name_value (name value : string) :
  valid_variable name value = true ->
  bool_decide (bytes_of (name +:+ "=" +:+ value) = []) = false /\
  existsb (fun b => is_ascii_whitespace b || (b =? CR)%char || (b =? LF)%char)
    (bytes_of (name +:+ "=" +:+ value)) = false.
Proof.
  unfold valid_variable. intros [[Hn _]%andb_prop Hv]%andb_prop.
  rewrite !bytes_of_app. cbn [bytes_of app String.list_ascii_of_string]. split.
  - apply bool_decide_eq_false_2. intros H. by apply app_eq_nil in H as [_ ?].
  - rewrite existsb_app. apply orb_false_intro; [|cbn].
    + destruct (bytes_of name) as [|c rest]; [done|]. cbn in Hn. apply andb_prop in Hn as [Hc Hr].
      assert (forall b, is_ascii_alphanumeric b || is_underscore b = true ->
                negb (is_ascii_whitespace b || (b =? CR)%char || (b =? LF)%char) = true) as Hb
        by (apply byte_implies; vm_compute; reflexivity).
      assert (is_ascii_alphanumeric c || is_underscore c = true) as Hc'.
      { revert Hc. generalize c. apply byte_implies. vm_compute. reflexivity. }
      cbn. rewrite (proj1 (negb_true_iff _) (Hb _ Hc')). clear -Hr Hb.
      induction rest as [|b rest IH]; [done|]. cbn in *. apply andb_prop in Hr as [H1 H2].
      by rewrite (proj1 (negb_true_iff _) (Hb _ H1)), IH.
    + induction (bytes_of value) as [|c rest IH]; [done|]. cbn in Hv. apply andb_prop in Hv as [Hc Hr].
      cbn. rewrite IH by done. revert Hc. generalize c.
      assert (forall b, negb ((b =? NUL)%char || is_ascii_whitespace b || (b =? DQUOTE)%char) = true ->
                negb (is_ascii_whitespace b || (b =? CR)%char || (b =? LF)%char) = true) as Hb
        by (apply byte_implies; vm_compute; reflexivity).
      intros b Hc%Hb. by rewrite (proj1 (negb_true_iff _) Hc).
Qed.

Lemma variable_command_built (kv : string * string) :
  valid_variable kv.1 kv.2 = true ->
  exists c, variable_command kv = Ok c /\ given_arguments c = None /\
    given_variable c = Some (prod_map bytes_of bytes_of kv).
Proof.
  intros Hv. destruct kv as [name value]. cbn [fst snd] in *.
  destruct (bare_name_value _ _ Hv) as [E1 E2].
  exists (MkMiCommand (bytes_of "-gdb-set") [Bare (bytes_of "environment"); Bare (bytes_of (name +:+ "=" +:+ value))]).
  split; [|split; [done|]].
  - change (variable_command (name, value)) with
      (bare (MkMiCommand (bytes_of "-gdb-set") [Bare (bytes_of "environment")]) (bytes_of (name +:+ "=" +:+ value))
       ≫= fun c => Ok c).
    unfold bare. by rewrite E1, E2.
  - unfold given_variable. cbn -[bytes_of]. rewrite !bool_decide_eq_true_2 by done. cbn -[bytes_of].
    rewrite bytes_of_app, bytes_of_app. apply (assignment_of_name []).
    unfold valid_variable in Hv. apply andb_prop in Hv as [[Hn _]%andb_prop _].
    destruct (bytes_of name) as [|c rest]; [done|]. cbn in *. apply andb_prop in Hn as [Hc Hr].
    rewrite Hr, andb_true_r. revert Hc. generalize c. apply byte_implies. vm_compute. reflexivity.
Qed.

Lemma variable_commands_built (l : list (string * string)) :
  Forall (fun kv => valid_variable kv.1 kv.2 = true) l ->
  exists cs, mapM variable_command l = Ok cs /\ omap given_arguments cs = [] /\
    omap given_variable cs = prod_map bytes_of bytes_of <$> l.
Proof.
  induction 1 as [|kv l Hkv _ (cs & E & Ha & Hv)]; [by exists []|].
  destruct (variable_command_built kv Hkv) as (c & Ec & Hca & Hcv).
  exists (c :: cs). split; [|split].
  - cbn [mapM]. by rewrite Ec, E.
  - cbn. by rewrite Hca.
  - cbn. rewrite Hcv. cbn. by f_equal.
Qed.

Lemma valid_environment debug (environment : gmap string string) :
  validate_environment debug environment = Ok tt ->
  Forall (fun kv => valid_variable kv.1 kv.2 = true) (btree_iter environment).
Proof.
  unfold validate_environment. destruct (256 <? _)%N; [done|].
  destruct (List.find _ _) as [[name value]|] eqn:E; [done|]. intros _.
  apply Forall_forall. intros kv Hin%list_elem_of_In.
  pose proof (List.find_none _ _ E _ Hin) as Hf. by apply negb_false_iff.
Qed.

Lemma given_arguments_of (arguments : list string) c :
  console_text (string_of (set_args arguments)) = Ok c ->
  given_arguments c = Some (bytes_of <$> arguments) /\ given_variable c = None.
Proof.
  unfold console_text. cbn -[set_args]. intros [= <-]. split; [|done].
  change (strip_prefix (bytes_of "set args") (bytes_of (string_of (set_args arguments))) ≫= shell_words =
          Some (bytes_of <$> arguments)).
  rewrite bytes_of_string_of.
  assert (strip_prefix (bytes_of "set args") (set_args arguments) =
          Some (arguments ≫= fun a => bytes_of " " ++ shell_quoted a)) as -> by (by apply strip_prefix_Some).
  apply shell_split_arguments.
Qed.

(** C17: Whatever the arguments of a launch hold, the words the shell makes of
    the text GDB is given are exactly those arguments, no more and no fewer;
    the environment is cleared and then set, variable by variable, to exactly
    the requested names and values; and the setup of an accepted request can
    always be built. *)
Theorem launches_keep_arguments_and_environment (debug : string -> string) (program cwd : string)
    (p : LaunchParameters) (environment : gmap string string) :
  validate_environment debug environment = Ok tt -> validate_follow p = Ok tt ->
  exists file cd clear rest,
    launch_setup program cwd p environment = Ok (file, cd :: clear :: rest) /\
    command_arguments file = [StringArgument (bytes_of program)] /\
    command_arguments cd = [StringArgument (bytes_of cwd)] /\
    console_text "unset environment" = Ok clear /\
    omap given_arguments rest = [bytes_of <$> lp_argv p] /\
    omap given_variable rest = prod_map bytes_of bytes_of <$> btree_iter environment.
Proof.
  intros He Hf.
  destruct (variable_commands_built _ (valid_environment _ _ He)) as (cs & Ec & Ha & Hv).
  assert (exists c, console_text (string_of (set_args (lp_argv p))) = Ok c) as [c E] by (by eexists).
  destruct (given_arguments_of _ _ E) as [Hca Hcv].
  assert (exists c, plain_command "-gdb-set" ["follow-fork-mode"; lp_follow_fork p] = Ok c /\
            given_arguments c = None /\ given_variable c = None) as (fork & Ef & Hfa & Hfv).
  { unfold validate_follow in Hf. destruct (bool_decide_reflect (lp_follow_fork p ∈ ["parent"; "child"])) as [Hin|]; [|done].
    repeat (apply elem_of_cons in Hin as [->|Hin]; [by eexists; split_and!; vm_compute|]). by apply elem_of_nil in Hin. }
  assert (exists c, plain_command "-gdb-set" ["detach-on-fork"; on_off (lp_detach_on_fork p)] = Ok c /\
            given_arguments c = None /\ given_variable c = None) as (detach & Ed & Hda & Hdv).
  { destruct (lp_detach_on_fork p); by eexists; split_and!; vm_compute. }
  eexists _, _, _, _. split; [|split; [|split; [|split; [|split]]]].
  - unfold launch_setup. rewrite E, Ec, Ef, Ed. reflexivity.
  - reflexivity.
  - reflexivity.
  - reflexivity.
  - cbn [omap list_omap app]. rewrite Hca. rewrite omap_app, Ha. cbn. by rewrite Hfa, Hda.
  - cbn [omap list_omap app]. rewrite Hcv. rewrite omap_app, Hv. cbn. rewrite Hfv, Hdv. cbn. by rewrite app_nil_r.
Qed.

(** ** Methods seen through a fold of their trace *)

(** The operations around a command in its sequence. *)
Definition of_sequence (o : Hop.op) : bool :=
  match o with
  | Hop.Deadline _ | Hop.LockSequence _ | Hop.UnlockSequence | Hop.ActiveOperation | Hop.Receive _ => true
  | _ => false
  end.

(** The session refuses a command before it is sent. *)
Definition refusal (e : event HandleSig) : bool :=
  match projT1 e as o return answer HandleSig o -> bool with
  | Hop.LockSequence _ => fun locked => negb locked
  | Hop.ActiveOperation => fun active => match active with Some (_, cancelled) => cancelled | None => false end
  | _ => fun _ => false
  end (projT2 e).

Ltac walk :=
  repeat first
    [ progress cbv beta iota zeta
    | match goal with
      | |- wpa _ _ (mbind _ _) _ _ _ => apply wpa_bind
      | |- wpa _ _ (mret _) _ _ _ => apply wpa_ret
      | |- wpa _ _ (check _) _ _ _ => apply wpa_check
      | |- wpa _ _ (attempt _) _ _ _ => apply wpa_attempt
      end ].

Section viewed.
Context {V : Type} (observe : event HandleSig -> V -> V) (start : V) (allowed : V -> Hop.op -> Prop)
  (quiet : Hop.op -> bool).
Hypothesis observe_quiet_op : forall (o : Hop.op) x v, quiet o = true -> observe (ev (E := HandleSig) o x) v = v.
Hypothesis observe_sequence : forall (o : Hop.op) x v,
  of_sequence o = true -> refusal (ev (E := HandleSig) o x) = false -> observe (ev (E := HandleSig) o x) v = v.
Hypothesis allowed_quiet : forall o v, quiet o || of_sequence o = true -> allowed v o.

Definition view (tr : trace HandleSig) : V := foldr observe start tr.
Definition viewed_ok (tr : trace HandleSig) (o : Hop.op) : Prop := allowed (view tr) o.
Local Abbreviation wpv := (wpa viewed_ok true).

Lemma wpv_within {A} (m : handler A) (Q : Result Error A -> option Observation -> trace HandleSig -> Prop) s tr :
  Within (E := HandleSig) (fun o => quiet o = true) m ->
  (forall r s' tr', view tr' = view tr -> Q r s' tr') -> wpv m Q s tr.
Proof using observe_quiet_op allowed_quiet.
  intros Hm HQ. unfold wpa.
  apply (safe_mono _ (fun _ tr' => view tr' = view tr)).
  - apply (safe_within (fun o : op HandleSig => quiet o = true)); [apply Hm|done| |].
    + intros tr' o Ho _. apply allowed_quiet. by rewrite Ho.
    + intros tr' o x Ho H. unfold view. cbn [foldr]. by rewrite observe_quiet_op.
  - intros [s' []] tr' H; by auto.
Qed.

(** A request of a sequence that was sent, or that the session refused. *)
Definition sent_or_refused {A} (r : WorkerRequest) (v : V) (result : Result Error A) (tr : trace HandleSig) : Prop :=
  (exists d x, view tr = observe (ev (E := HandleSig) (Hop.Send r d) x) v) \/
  ((exists e, result = Err e) /\ exists e, refusal e = true /\ view tr = observe e v).

Lemma wpv_exchange r d (Q : Result Error (response_of r) -> option Observation -> trace HandleSig -> Prop) s tr :
  allowed (view tr) (Hop.Send r (Some d)) ->
  (forall result tr' x, view tr' = observe (ev (E := HandleSig) (Hop.Send r (Some d)) x) (view tr) -> Q result s tr') ->
  wpv (exchange_until r d) Q s tr.
Proof using observe_sequence allowed_quiet.
  intros Hr HQ. unfold exchange_until, enqueue_until, receive. walk.
  apply wpa_hdo; [done|]. intros delivery. walk.
  destruct (delivered_ok delivery) as [[]|e]; [|by eapply HQ]. walk.
  apply wpa_hdo; [by apply allowed_quiet; rewrite orb_true_r|]. intros x. apply wpa_check.
  eapply HQ. unfold view. cbn [foldr]. by rewrite (observe_sequence (Hop.Receive r)).
Qed.

Lemma wpv_owning (Q : Result Error (option OperationId) -> option Observation -> trace HandleSig -> Prop) s tr :
  (forall id tr', view tr' = view tr -> Q (Ok id) s tr') ->
  (forall e tr', (exists e', refusal e' = true /\ view tr' = observe e' (view tr)) -> Q (Err e) s tr') ->
  wpv owning_operation Q s tr.
Proof using observe_sequence allowed_quiet.
  intros HQ He. unfold owning_operation, active_operation. walk.
  apply wpa_hdo; [by apply allowed_quiet; rewrite orb_true_r|]. intros x.
  destruct x as [[id [|]]|]; walk; cbn [operation_active].
  - apply He. by exists (ev (E := HandleSig) Hop.ActiveOperation (Some (id, true))).
  - apply HQ. unfold view. cbn [foldr]. by rewrite (observe_sequence Hop.ActiveOperation).
  - apply HQ. unfold view. cbn [foldr]. by rewrite (observe_sequence Hop.ActiveOperation).
Qed.

Lemma wpv_sequence {A} d (m : handler A) (Q : Result Error A -> option Observation -> trace HandleSig -> Prop) s tr :
  (forall tr1, view tr1 = view tr ->
     wpv m (fun r s' tr' => forall tr2, view tr2 = view tr' -> Q r s' tr2) s tr1) ->
  (forall e tr', (exists e', refusal e' = true /\ view tr' = observe e' (view tr)) -> Q (Err e) s tr') ->
  wpv (in_sequence d m) Q s tr.
Proof using observe_sequence allowed_quiet.
  intros Hm He. unfold in_sequence. apply wpa_bind, wpa_scope. destruct s as [o|].
  { apply (wpa_mono _ _ _ _ _ _ _ (Hm tr eq_refl)). auto. }
  unfold with_sequence. walk. apply wpa_hdo; [by apply allowed_quiet; rewrite orb_true_r|].
  intros [|]; walk.
  - apply (wpa_mono _ _ _ _ _ _ _ (Hm (ev (E := HandleSig) (Hop.LockSequence d) true :: tr)
      (observe_sequence (Hop.LockSequence d) true _ eq_refl eq_refl))).
    intros r s' tr' HQ. walk. apply wpa_hdo; [by apply allowed_quiet; rewrite orb_true_r|].
    intros []. apply wpa_check, HQ. unfold view. cbn [foldr]. by rewrite (observe_sequence Hop.UnlockSequence).
  - apply He. by exists (ev (E := HandleSig) (Hop.LockSequence d) false).
Qed.

Lemma wpv_deadline t (Q : Result Error N -> option Observation -> trace HandleSig -> Prop) s tr :
  (forall d tr', view tr' = view tr -> Q (Ok d) s tr') -> wpv (command_deadline t) Q s tr.
Proof using observe_sequence allowed_quiet.
  intros HQ. apply wpa_hdo; [by apply allowed_quiet; rewrite orb_true_r|]. intros d. apply HQ.
  by apply (observe_sequence (Hop.Deadline (N.max t 1))).
Qed.

Lemma wpv_command t c (Q : Result Error CommandReply -> option Observation -> trace HandleSig -> Prop) s tr :
  (forall op d, allowed (view tr) (Hop.Send (Command c op d) (Some d))) ->
  (forall result tr', (exists op d, sent_or_refused (Command c op d) (view tr) result tr') -> Q result s tr') ->
  wpv (command t c) Q s tr.
Proof using observe_sequence allowed_quiet.
  intros Hc HQ. unfold command, command_with_timeout. apply wpa_bind, wpv_deadline. intros d tr1 E1.
  apply wpv_sequence; [|intros e tr2 [e' He]; apply HQ; exists None, d; right; split; [by eexists|exists e']; by rewrite <-E1].
  intros tr2 E2. unfold send_command. apply wpa_bind, wpv_owning.
  - intros op tr3 E3. unfold enqueue_command, hask. apply wpa_bind, wpv_exchange; [rewrite E3, E2, E1; apply Hc|].
    intros r tr4 x E4. rewrite E3, E2, E1 in E4.
    destruct r as [r|e]; [apply wpa_check|]; intros tr5 E5; apply HQ; exists op, d; left; exists (Some d), x; congruence.
  - intros e tr3 [e' He] tr4 E4. apply HQ. exists None, d. right. split; [by eexists|]. exists e'.
    destruct He as [? He]. split; [done|]. congruence.
Qed.

Lemma wpv_refresh t (Q : Result Error Results.SessionCapabilities -> option Observation -> trace HandleSig -> Prop) s tr :
  (forall op d, allowed (view tr) (Hop.Send (RefreshTargetCapabilities op d) (Some d))) ->
  (forall result tr', (exists op d, sent_or_refused (RefreshTargetCapabilities op d) (view tr) result tr') -> Q result s tr') ->
  wpv (refresh_target_capabilities t) Q s tr.
Proof using observe_sequence allowed_quiet.
  intros Hc HQ. unfold refresh_target_capabilities. apply wpa_bind, wpv_deadline. intros d tr1 E1.
  apply wpv_sequence; [|intros e tr2 [e' He]; apply HQ; exists None, d; right; split; [by eexists|exists e']; by rewrite <-E1].
  intros tr2 E2. unfold send_refresh_target_capabilities. apply wpa_bind, wpv_owning.
  - intros op tr3 E3. unfold hask. apply wpa_bind, wpv_exchange; [rewrite E3, E2, E1; apply Hc|].
    intros r tr4 x E4. rewrite E3, E2, E1 in E4.
    destruct r as [r|e]; [apply wpa_check|]; intros tr5 E5; apply HQ; exists op, d; left; exists (Some d), x; congruence.
  - intros e tr3 [e' He] tr4 E4. apply HQ. exists None, d. right. split; [by eexists|]. exists e'.
    destruct He as [? He]. split; [done|]. congruence.
Qed.
End viewed.

(** ** Attaching to a process *)

(** What a trace shows of an attach: what the host said of the process, the
    last first, and what was sent. *)
Record attachment := MkAttachment {
  at_owners : list (N * N);
  at_users : list N;
  at_spaces : list (option N * (N * N));
  at_times : list (N * option N);
  at_attached : list MiCommand;
  at_detached : list MiCommand;
  at_configured : bool;
  at_refused : bool
}.

Definition ATTACH : bytes := bytes_of "-target-attach".
Definition DETACH : bytes := bytes_of "-target-detach".

Definition time_read (stat : Result string string) : option N :=
  match stat with
  | Ok stat => match parse_process_start_time stat with Ok t => Some t | Err _ => None end
  | Err _ => None
  end.

Definition observe_attach (e : event HandleSig) (v : attachment) : attachment :=
  let '(MkAttachment owners users spaces times attached detached configured refused) := v in
  match projT1 e as o return answer HandleSig o -> attachment with
  | Hop.ProcessOwner pid => fun owner =>
      MkAttachment (match owner with Ok uid => (pid, uid) :: owners | Err _ => owners end)
        users spaces times attached detached configured refused
  | Hop.EffectiveUid => fun uid =>
      MkAttachment owners (uid :: users) spaces times attached detached configured refused
  | Hop.PidNamespace pid => fun space =>
      MkAttachment owners users (match space with Ok n => (pid, n) :: spaces | Err _ => spaces end)
        times attached detached configured refused
  | Hop.ProcessStat pid => fun stat =>
      MkAttachment owners users spaces ((pid, time_read stat) :: times) attached detached configured refused
  | Hop.Send (Command c _ _) _ => fun _ =>
      MkAttachment owners users spaces times
        (if bool_decide (command_name c = ATTACH) then c :: attached else attached)
        (if bool_decide (command_name c = DETACH) then c :: detached else detached) configured refused
  | Hop.Send (RecordEvent _) _ => fun _ =>
      MkAttachment owners users spaces times attached detached true refused
  | Hop.LockSequence _ => fun locked =>
      MkAttachment owners users spaces times attached detached configured (refused || negb locked)
  | Hop.ActiveOperation => fun active =>
      MkAttachment owners users spaces times attached detached configured
        (refused || match active with Some (_, cancelled) => cancelled | None => false end)
  | _ => fun _ => v
  end (projT2 e).

Definition no_attachment : attachment := MkAttachment [] [] [] [] [] [] false false.

Section attach.
Context (env : Environment) (request : ApiRequest).

(** The process the request names is allowed, and was found to belong to the
    user and the PID namespace of the program; its start time was read twice
    and was the same. *)
Definition checked (pid uid : N) (space : N * N) (v : attachment) : Prop :=
  unsigned (req_parameters request) "pid" = Ok pid /\ pid ∈ attach_allowlist (security env) /\
  at_owners v = [(pid, uid)] /\ at_users v = [uid] /\
  at_spaces v = [(Some pid, space); (None, space)].

Definition may_attach (c : MiCommand) (v : attachment) : Prop :=
  exists pid uid space time, checked pid uid space v /\
    at_times v = [(pid, Some time); (pid, Some time)] /\
    at_attached v = [] /\ plain_command "-target-attach" [dec pid] = Ok c.

(** The start time was read once more after GDB attached, and was the same. *)
Definition confirmed (v : attachment) : Prop :=
  exists pid uid space time, checked pid uid space v /\
    at_times v = [(pid, Some time); (pid, Some time); (pid, Some time)] /\
    length (at_attached v) = 1 /\ at_detached v = [].

(** Or it was not. *)
Definition unconfirmed (v : attachment) : Prop :=
  exists pid uid space time now, checked pid uid space v /\ now <> Some time /\
    at_times v = [(pid, now); (pid, Some time); (pid, Some time)] /\
    length (at_attached v) = 1.

Definition attach_allowed (v : attachment) (o : Hop.op) : Prop :=
  match o with
  | Hop.Send (Command c _ _) _ =>
      (command_name c = bytes_of "-file-exec-and-symbols" /\ at_attached v = []) \/ may_attach c v \/
      (plain_command "-target-detach" [] = Ok c /\ unconfirmed v /\ at_detached v = [])
  | Hop.Send (RecordEvent e) _ =>
      e = Event.TargetConfigured Origin.Attach /\ confirmed v /\ at_configured v = false
  | Hop.Send (RefreshTargetCapabilities _ _) _ => confirmed v
  | Hop.Send _ _ | Hop.SendControl _ _ => False
  | _ => True
  end.

(** How an attach ends. *)
Definition attach_ends (r : Result Error Value) (_ : option Observation) (tr : trace HandleSig) : Prop :=
  let v := view observe_attach no_attachment tr in
  (length (at_attached v) <= 1)%nat /\
  (forall value, r = Ok value -> confirmed v /\ at_configured v = true) /\
  (unconfirmed v -> (exists e, r = Err e) /\ at_configured v = false /\ (at_detached v <> [] \/ at_refused v = true)).

Definition attach_quiet (o : Hop.op) : bool :=
  match o with
  | Hop.ProcessOwner _ | Hop.EffectiveUid | Hop.PidNamespace _ | Hop.ProcessStat _ | Hop.Send _ _
  | Hop.SendControl _ _ | Hop.LockSequence _ | Hop.ActiveOperation => false
  | _ => true
  end.

Lemma attach_observe_quiet (o : Hop.op) x v :
  attach_quiet o = true -> observe_attach (ev (E := HandleSig) o x) v = v.
Proof. by destruct v, o. Qed.

Lemma attach_observe_sequence (o : Hop.op) x v :
  of_sequence o = true -> refusal (ev (E := HandleSig) o x) = false ->
  observe_attach (ev (E := HandleSig) o x) v = v.
Proof.
  destruct v, o; cbn; try done; intros _.
  - by intros ->; rewrite orb_false_r.
  - by intros ->%negb_false_iff; rewrite orb_false_r.
Qed.

Lemma attach_allowed_quiet o v : attach_quiet o || of_sequence o = true -> attach_allowed v o.
Proof. by destruct o. Qed.

Local Abbreviation seen := (view observe_attach no_attachment).
Local Abbreviation wpt := (wpa (viewed_ok observe_attach no_attachment attach_allowed) true).

Lemma wpt_within {A} (m : handler A) (Q : Result Error A -> option Observation -> trace HandleSig -> Prop) s tr :
  Within (E := HandleSig) (fun o => attach_quiet o = true) m ->
  (forall r s' tr', seen tr' = seen tr -> Q r s' tr') -> wpt m Q s tr.
Proof. apply wpv_within; [apply attach_observe_quiet|apply attach_allowed_quiet]. Qed.

Lemma refused_attach e v :
  refusal e = true -> exists refused, observe_attach e v =
    MkAttachment (at_owners v) (at_users v) (at_spaces v) (at_times v) (at_attached v) (at_detached v)
      (at_configured v) refused /\ refused = true.
Proof. destruct v, e as [[] x]; cbn; try done; intros ->; rewrite orb_true_r; by eexists. Qed.

Lemma ends_early e s tr : at_attached (seen tr) = [] -> attach_ends (Err e) s tr.
Proof.
  intros H. unfold attach_ends, confirmed, unconfirmed. rewrite H. split; [cbn; lia|].
  split; [done|]. by intros (?&?&?&?&?&_&_&_&?).
Qed.

(** *** The parts of an attach *)

Lemma Quiet_first_existing paths : Within (E := HandleSig) (fun o => attach_quiet o = true) (first_existing paths).
Proof.
  induction paths as [|path rest IH]; cbn [first_existing]; [apply Within_ret|].
  apply Within_bind; [by apply Within_perform|]. intros found. destruct (found : bool); [apply Within_ret|exact IH].
Qed.

Lemma Quiet_within_roots path roots :
  Within (E := HandleSig) (fun o => attach_quiet o = true) (within_roots path roots).
Proof.
  induction roots as [|root rest IH]; cbn [within_roots]; [apply Within_ret|].
  apply Within_bind; [by apply Within_perform|]. intros [root'|e]; [|exact IH].
  destruct (path_starts_with path root'); [apply Within_ret|exact IH].
Qed.

Lemma Quiet_workspace_path value directory :
  Within (E := HandleSig) (fun o => attach_quiet o = true)
    (workspace_path (security env) (debug_text env) value directory).
Proof.
  unfold workspace_path, workspace_candidate.
  apply Within_bind; [destruct (is_absolute value); [apply Within_ret|]|intros candidate].
  { apply Within_bind; [apply Quiet_first_existing|]. intros found. apply Within_ret. }
  apply Within_bind; [by apply Within_perform|]. intros canonical.
  apply Within_bind; [apply Within_check|]. intros path.
  apply Within_bind; [by destruct directory; apply Within_perform|]. intros expected.
  apply Within_bind; [apply Within_check|]. intros _.
  apply Within_bind; [apply Quiet_within_roots|]. intros allowed. apply Within_check.
Qed.

Lemma Quiet_entry session : Within (E := HandleSig) (fun o => attach_quiet o = true) (entry session).
Proof. unfold entry. apply Within_bind; [by apply Within_perform|]. intros e. apply Within_check. Qed.

Lemma Quiet_wait w baseline epoch :
  Within (E := HandleSig) (fun o => attach_quiet o = true) (apply_wait_baseline w baseline epoch).
Proof.
  unfold apply_wait_baseline. apply Within_bind; [apply Within_check|]. intros _.
  destruct (bool_decide _); [by apply Within_perform|].
  apply Within_bind; [apply Within_check|]. intros u.
  unfold wait_from_baseline, wait_for_operation, wait_after_baseline, Handle.wait, hask.
  destruct baseline as [b|], epoch as [n|];
    (apply Within_bind; [by apply Within_perform|]; intros r; apply Within_check).
Qed.

(** Between the first and the second reading of the start time. *)
Definition selected (pid time : N) (v : attachment) : Prop :=
  (exists uid space, checked pid uid space v) /\ at_times v = [(pid, Some time)] /\
  at_attached v = [] /\ at_detached v = [] /\ at_configured v = false.

Lemma wpt_validate pid (Q : Result Error N -> option Observation -> trace HandleSig -> Prop) s tr :
  unsigned (req_parameters request) "pid" = Ok pid -> pid ∈ attach_allowlist (security env) ->
  seen tr = no_attachment ->
  (forall e tr', at_attached (seen tr') = [] -> Q (Err e) s tr') ->
  (forall time tr', selected pid time (seen tr') -> Q (Ok time) s tr') ->
  wpt (validate_attach_target pid) Q s tr.
Proof.
  intros Hp Ha E He HQ. unfold validate_attach_target, process_start_time, hask. walk.
  apply wpa_hdo; [done|]. intros [owner|e]; walk; [|apply He; unfold view in *; cbn; by rewrite E].
  apply wpa_hdo; [done|]. intros uid. walk.
  destruct (N.eqb_spec owner uid) as [->|_]; walk; [|apply He; unfold view in *; cbn; by rewrite E].
  apply wpa_hdo; [done|]. intros [own|e]; walk; [|apply He; unfold view in *; cbn; by rewrite E].
  apply wpa_hdo; [done|]. intros [target|e]; walk; [|apply He; unfold view in *; cbn; by rewrite E].
  case_bool_decide as Hs; walk; [subst target|apply He; unfold view in *; cbn; by rewrite E].
  apply wpa_hdo; [done|]. intros stat. walk.
  destruct stat as [stat|e]; [destruct (parse_process_start_time stat) as [time|e] eqn:Et|];
    [|apply He; unfold view in *; cbn; by rewrite E..].
  apply HQ. unfold view in *. cbn. rewrite E. cbn. rewrite Et.
  split_and!; [|done..]. by exists uid, own.
Qed.

Lemma wpt_command c (Q : Result Error CommandReply -> option Observation -> trace HandleSig -> Prop) s tr :
  (forall op d, attach_allowed (seen tr) (Hop.Send (Command c op d) (Some d))) ->
  (forall result tr', (exists op d, sent_or_refused observe_attach no_attachment (Command c op d) (seen tr) result tr') ->
     Q result s tr') ->
  wpt (command (command_timeout env) c) Q s tr.
Proof.
  apply (wpv_command _ _ _ attach_quiet); [apply attach_observe_sequence|apply attach_allowed_quiet].
Qed.

Lemma wpt_load pid time (Q : Result Error (option string) -> option Observation -> trace HandleSig -> Prop) s tr :
  selected pid time (seen tr) ->
  (forall e s' tr', at_attached (seen tr') = [] -> Q (Err e) s' tr') ->
  (forall executable s' tr', selected pid time (seen tr') -> Q (Ok executable) s' tr') ->
  wpt (load_executable env (req_parameters request)) Q s tr.
Proof.
  intros Hs He HQ. unfold load_executable.
  destruct (Json.get _ _ ≫= Json.as_str) as [executable|]; walk; [|by apply HQ].
  apply wpt_within; [apply Quiet_workspace_path|].
  intros [path|e] s1 tr1 E1; [|apply He; rewrite E1; by destruct Hs as (_&_&?&_)]. walk.
  assert (exists c, path_command "-file-exec-and-symbols" path = Ok c /\
    command_name c = bytes_of "-file-exec-and-symbols") as (c & -> & Hc) by (by eexists). walk.
  apply wpt_command; [by left; rewrite E1; destruct Hs as (_&_&?&_)|].
  intros result tr2 (op & d & H). rewrite E1 in H. destruct H as [(d' & x & H)|[[e ->] (e' & Hr & H)]].
  - assert (seen tr2 = seen tr) as E2.
    { rewrite H. destruct (seen tr). cbn. by rewrite !Hc. }
    destruct result; walk; [apply HQ|apply He]; rewrite E2; [done|]. by destruct Hs as (_&_&?&_).
  - apply He. destruct (refused_attach _ (seen tr) Hr) as (? & Hv & _). rewrite H, Hv. by destruct Hs as (_&_&?&_).
Qed.

(** Before GDB attaches, and after it. *)
Definition selected_again (pid time : N) (v : attachment) : Prop :=
  (exists uid space, checked pid uid space v) /\ at_times v = [(pid, Some time); (pid, Some time)] /\
  at_detached v = [] /\ at_configured v = false /\ (length (at_attached v) <= 1)%nat.

Lemma ends_unread pid time e s tr : selected_again pid time (seen tr) -> attach_ends (Err e) s tr.
Proof.
  intros (_ & Ht & _ & _ & Hl). split; [done|]. split; [done|].
  intros (?&?&?&?&?&_&_&Ht'&_). by rewrite Ht in Ht'.
Qed.

Lemma wpt_revalidate pid time (Q : Result Error unit -> option Observation -> trace HandleSig -> Prop) s tr :
  (forall e stat, time_read stat <> Some time ->
     Q (Err e) s (ev (E := HandleSig) (Hop.ProcessStat pid) stat :: tr)) ->
  (forall stat, time_read stat = Some time ->
     Q (Ok tt) s (ev (E := HandleSig) (Hop.ProcessStat pid) stat :: tr)) ->
  wpt (revalidate time pid) Q s tr.
Proof.
  intros He HQ. unfold revalidate, process_start_time. walk. apply wpa_hdo; [done|]. intros stat. walk.
  destruct stat as [stat|e]; [destruct (parse_process_start_time stat) as [now|e] eqn:Et|]; walk.
  - destruct (N.eqb_spec now time) as [->|Hn]; [apply HQ|apply He]; cbn; rewrite Et; [done|congruence].
  - apply He. cbn. by rewrite Et.
  - by apply He.
Qed.

Lemma observe_detach c op d d' x v :
  command_name c = DETACH ->
  observe_attach (ev (E := HandleSig) (Hop.Send (Command c op d) d') x) v =
  MkAttachment (at_owners v) (at_users v) (at_spaces v) (at_times v) (at_attached v) (c :: at_detached v)
    (at_configured v) (at_refused v).
Proof. intros H. destruct v. cbn. by rewrite !H. Qed.

Lemma observe_attaches c op d d' x v :
  command_name c = ATTACH ->
  observe_attach (ev (E := HandleSig) (Hop.Send (Command c op d) d') x) v =
  MkAttachment (at_owners v) (at_users v) (at_spaces v) (at_times v) (c :: at_attached v) (at_detached v)
    (at_configured v) (at_refused v).
Proof. intros H. destruct v. cbn. by rewrite !H. Qed.

Lemma detach_unconfirmed pid uid space time stat s tr
    (Q : Result Error CommandReply -> option Observation -> trace HandleSig -> Prop) :
  let v := seen tr in
  checked pid uid space v -> time_read stat <> Some time ->
  at_times v = [(pid, time_read stat); (pid, Some time); (pid, Some time)] ->
  length (at_attached v) = 1 -> at_detached v = [] -> at_configured v = false ->
  (forall s' tr', (forall e, attach_ends (Err e) s' tr') -> forall r, Q r s' tr') ->
  wpt (c ← check (plain_command "-target-detach" []); command (command_timeout env) c) Q s tr.
Proof.
  intros v Hc Hn Ht Ha Hd Hf HQ. walk.
  assert (exists c, plain_command "-target-detach" [] = Ok c /\ command_name c = DETACH) as (c & Ec & Hname)
    by (by eexists).
  rewrite Ec. walk. apply wpt_command.
  - intros op d. right; right. split_and!; [done| |done]. by exists pid, uid, space, time, (time_read stat).
  - intros result tr' (op & d & H).
    apply HQ. intros e0. fold v in H. unfold attach_ends. clearbody v.
    destruct H as [(d' & x & H)|[_ (e' & Hr & H)]].
    + rewrite H, (observe_detach c op d d' x v Hname). destruct v. cbn in *. split; [lia|]. split; [done|]. intros _.
      split; [by eexists|]. split; [done|]. by left.
    + destruct (refused_attach _ v Hr) as (refused & Hv & ->). rewrite H, Hv. destruct v. cbn in *.
      split; [lia|]. split; [done|]. intros _. split; [by eexists|]. split; [done|]. by right.
Qed.

Lemma attach_name pid c : plain_command "-target-attach" [dec pid] = Ok c -> command_name c = ATTACH.
Proof.
  unfold plain_command. cbn -[bare bytes_of]. unfold bare. by destruct (_ || _); intros [= <-].
Qed.

Lemma wpt_attach_process pid time s tr
    (Q : Result Error CommandReply -> option Observation -> trace HandleSig -> Prop) :
  selected pid time (seen tr) ->
  (forall e s' tr', attach_ends (Err e) s' tr' -> Q (Err e) s' tr') ->
  (forall reply s' tr', confirmed (seen tr') -> at_configured (seen tr') = false -> Q (Ok reply) s' tr') ->
  wpt (attach_process env pid time) Q s tr.
Proof.
  intros ((uid & space & Hc) & Ht & Ha & Hd & Hf) He HQ. unfold attach_process. walk.
  apply wpt_revalidate; [intros e stat _; apply He, ends_early; by unfold view in *; cbn; destruct (foldr _ _ tr)|].
  intros stat Hstat. walk.
  set (tr1 := ev (E := HandleSig) (Hop.ProcessStat pid) stat :: tr).
  assert (seen tr1 = MkAttachment (at_owners (seen tr)) (at_users (seen tr)) (at_spaces (seen tr))
    [(pid, Some time); (pid, Some time)] [] [] false (at_refused (seen tr))) as E1.
  { subst tr1. unfold view in *. cbn. destruct (foldr _ _ tr). cbn in *. by rewrite Hstat, Ht, Ha, Hd, Hf. }
  clearbody tr1. clear Hstat stat Ht Ha Hd Hf.
  destruct (plain_command "-target-attach" [dec pid]) as [c|e] eqn:Ec; walk;
    [|by apply He, ends_early; rewrite E1].
  pose proof (attach_name _ _ Ec) as Hname. apply wpt_command.
  { intros op d. right; left. rewrite E1. by exists pid, uid, space, time. }
  intros result tr2 (op & d & H). rewrite E1 in H. clear E1.
  destruct result as [reply|e]; walk.
  2: { eapply He, (ends_unread pid time). destruct H as [(d' & x & H)|[_ (e' & Hr & H)]].
       - rewrite H, (observe_attaches c op d d' x _ Hname). split_and!; [by exists uid, space|done..].
       - edestruct (refused_attach e') as (refused & Hv & _); [done|]. rewrite H, Hv.
         split_and!; [by exists uid, space|done..|cbn; lia]. }
  destruct H as [(d' & x & H)|[[e [=]] _]].
  rewrite (observe_attaches c op d d' x _ Hname) in H. cbn in H.
  apply wpt_revalidate.
  - intros e stat Hn. cbv beta iota. apply wpa_bind, wpa_attempt.
    apply (detach_unconfirmed pid uid space time stat); unfold view in *; cbn [foldr]; try rewrite H;
      try done.
    intros s1 tr3 He1 r. apply wpa_check, He, He1.
  - intros stat Hstat. walk. apply HQ; unfold view in *; cbn [foldr]; rewrite H; [|done].
    cbn. rewrite Hstat. by exists pid, uid, space, time.
Qed.

Lemma unconfirmed_confirmed v : confirmed v -> ~ unconfirmed v.
Proof.
  intros (pid & uid & space & time & _ & Ht & _) (pid' & uid' & space' & time' & now & _ & Hn & Ht' & _).
  rewrite Ht in Ht'. by simplify_eq.
Qed.

Lemma ends_confirmed e s tr : confirmed (seen tr) -> attach_ends (Err e) s tr.
Proof.
  intros H. split; [by destruct H as (?&?&?&?&_&_&->&_)|]. split; [done|]. by intros ?%(unconfirmed_confirmed _ H).
Qed.

Lemma confirmed_same v v' :
  at_owners v' = at_owners v -> at_users v' = at_users v -> at_spaces v' = at_spaces v ->
  at_times v' = at_times v -> at_attached v' = at_attached v -> at_detached v' = at_detached v ->
  confirmed v -> confirmed v'.
Proof. unfold confirmed, checked. by intros -> -> -> -> -> ->. Qed.

Lemma wpt_configured s tr (Q : Result Error unit -> option Observation -> trace HandleSig -> Prop) :
  confirmed (seen tr) -> at_configured (seen tr) = false ->
  (forall e s' tr', confirmed (seen tr') -> Q (Err e) s' tr') ->
  (forall s' tr', confirmed (seen tr') -> at_configured (seen tr') = true -> Q (Ok tt) s' tr') ->
  wpt (record_event (Event.TargetConfigured Origin.Attach)) Q s tr.
Proof.
  intros H Hf He HQ. unfold record_event, hask, exchange, enqueue, receive. walk.
  apply wpa_hdo; [done|]. intros delivery. walk.
  assert (exists tr1, tr1 = ev (E := HandleSig) (Hop.Send (RecordEvent (Event.TargetConfigured Origin.Attach)) None) delivery :: tr /\
            confirmed (seen tr1) /\ at_configured (seen tr1) = true) as (tr1 & <- & Hv & Hc).
  { eexists. split; [done|]. unfold view in *. cbn. by destruct (foldr _ _ tr). }
  destruct (delivered_ok delivery) as [[]|e]; walk; [|by apply He].
  apply wpa_hdo; [done|]. intros x. walk.
  assert (seen (ev (E := HandleSig) (Hop.Receive (RecordEvent (Event.TargetConfigured Origin.Attach))) x :: tr1) = seen tr1)
    as E by by apply attach_observe_sequence.
  destruct x as [[[]|e]|]; walk; [apply HQ|apply He..]; by rewrite E.
Qed.

Lemma wpt_refreshed s tr (Q : Result Error Results.SessionCapabilities -> option Observation -> trace HandleSig -> Prop) :
  confirmed (seen tr) -> at_configured (seen tr) = true ->
  (forall e s' tr', confirmed (seen tr') -> Q (Err e) s' tr') ->
  (forall c s' tr', confirmed (seen tr') -> at_configured (seen tr') = true -> Q (Ok c) s' tr') ->
  wpt (refresh_target_capabilities (command_timeout env)) Q s tr.
Proof.
  intros H Hc He HQ. apply (wpv_refresh _ _ _ attach_quiet);
    [apply attach_observe_sequence|apply attach_allowed_quiet|done|].
  intros result tr' (op & d & Hs). destruct Hs as [(d' & x & Hs)|[[e ->] (e' & Hr & Hs)]].
  - assert (seen tr' = seen tr) as E by (rewrite Hs; by destruct (seen tr)).
    destruct result; [apply HQ|apply He]; by rewrite E.
  - apply He. destruct (refused_attach _ (seen tr) Hr) as (refused & Hv & _). rewrite Hs, Hv.
    by apply (confirmed_same (seen tr)).
Qed.

(** C14: A process is attached to only when the request names one of the
    allowed ones, it belongs to the user and the PID namespace of the program,
    and its start time was read twice and was the same; at most once, and after
    nothing but the symbols of an executable.  The session learns of the target
    only after the start time was read a third time and was the same; otherwise
    the request fails and the process is left again, unless the session refuses
    the command. *)
Theorem attached_processes_are_the_allowed_ones :
  wpa (viewed_ok observe_attach no_attachment attach_allowed) true (target_attach env request)
    attach_ends None [].
Proof.
  unfold target_attach. walk.
  assert (forall e s tr, at_attached (seen tr) = [] -> attach_ends (Err e) s tr) as He by apply ends_early.
  destruct (unsigned _ "pid") as [pid|] eqn:Ep; walk; [|by apply He].
  destruct (wait_spec _ _) as [requested|]; walk; [|by apply He].
  case_bool_decide as Ha; walk; [|by apply He].
  apply (wpt_validate pid); [done..|by intros; apply He|]. intros time tr1 H1. walk.
  assert (at_attached (seen tr1) = []) as Hnone by (by destruct H1 as (_&_&?&_)).
  destruct (required_session request) as [session|]; walk; [|by apply He].
  apply wpt_within; [apply Quiet_entry|]. intros [entry|e] s2 tr2 E2; [|by apply He; rewrite E2]. walk.
  apply wpt_within; [by apply Within_perform|]. intros [baseline|e] s3 tr3 E3; [|by apply He; rewrite E3, E2]. walk.
  assert (selected pid time (seen tr3)) as H3 by (by rewrite E3, E2). clear E2 E3.
  apply (wpt_load pid time); [done|by intros; apply He|]. intros executable s4 tr4 H4. walk.
  apply (wpt_attach_process pid time); [done|done|]. intros reply s5 tr5 H5 Hf. walk.
  apply wpt_configured; [done|done|by intros; apply ends_confirmed|]. intros s6 tr6 H6 Hc6. walk.
  apply wpt_within; [apply Quiet_wait|]. intros [state|e] s7 tr7 E7; [|by apply ends_confirmed; rewrite E7]. walk.
  apply wpt_refreshed; [by rewrite E7|by rewrite E7|..].
  - intros e s' tr' H. by apply ends_confirmed.
  - intros capabilities s' tr' H Hc. walk. split; [|split; [done|]].
    + destruct H as (?&?&?&?&_&_&->&_). lia.
    + intros Hu. by destruct (unconfirmed_confirmed _ H).
Qed.

End attach.

(** ** Temporary breakpoints *)

Local Abbreviation anything := (fun (_ : trace HandleSig) (_ : op HandleSig) => True).

(** GDB deleted the breakpoint or had deleted it, or a task was started that
    deletes it. *)
Definition removes (n : string) (e : event HandleSig) : Prop :=
  match projT1 e as o return answer HandleSig o -> Prop with
  | Hop.Receive (Command c _ _) => fun reply =>
      delete_breakpoint n = Ok c /\
      match reply with
      | Some (Ok _) => True
      | Some (Err e) => already_deleted n e = true
      | None => False
      end
  | Hop.SpawnCleanup _ n' => fun _ => n' = n
  | _ => fun _ => False
  end (projT2 e).

Definition removed (n : string) (tr : trace HandleSig) : Prop := exists e, e ∈ tr /\ removes n e.

(** The number of a breakpoint: its first one, or the one that a state gives to
    its handle. *)
Definition numbered (b : TemporaryBreakpoint) (tr : trace HandleSig) (n : string) : Prop :=
  tb_backend_number b = Some n \/
  exists id state, tb_breakpoint_id b = Some id /\ number_of_handle state id = Some n /\
    ev (E := HandleSig) Hop.State state ∈ tr.

Definition gone (b : TemporaryBreakpoint) (tr : trace HandleSig) : Prop :=
  exists n, numbered b tr n /\ removed n tr.

Lemma gone_later b tr l : gone b tr -> gone b (l ++ tr).
Proof.
  intros (n & Hn & e & He & Hr). exists n. split.
  - destruct Hn as [Hn|(id & state & ? & ? & ?)]; [by left|right]. exists id, state. set_solver.
  - exists e. set_solver.
Qed.

(** Whatever a method does, the events before it stay. *)
Lemma safe_extends {A} (m : prog HandleSig A) tr :
  safe (E := HandleSig) anything (fun _ tr' => exists l, tr' = l ++ tr) m tr.
Proof.
  revert tr. induction m as [a|o k IH]; intros tr; cbn; [by exists []|]. split; [done|]. intros x.
  apply (safe_mono _ _ _ _ _ (IH x _)). intros _ tr' [l ->]. exists (l ++ [ev (E := HandleSig) o x]).
  by rewrite <-app_assoc.
Qed.

Lemma wpa_extends {A} (m : handler A) (Q : Result Error A -> option Observation -> trace HandleSig -> Prop) s tr :
  (forall r s' l, Q r s' (l ++ tr)) -> wpa anything true m Q s tr.
Proof.
  intros HQ. unfold wpa. apply (safe_mono _ _ _ _ _ (safe_extends _ _)).
  intros [s' []] tr' [l ->]; auto.
Qed.

Lemma wpa_current b number (Q : Result Error (option string) -> option Observation -> trace HandleSig -> Prop) s tr :
  tb_backend_number b = Some number ->
  (forall n l, numbered b (l ++ tr) n -> Q (Ok (Some n)) s (l ++ tr)) ->
  wpa anything true (current_backend_number b) Q s tr.
Proof.
  intros Hb HQ. unfold current_backend_number. destruct (tb_breakpoint_id b) as [id|] eqn:Ei.
  - walk. apply wpa_hdo; [done|]. intros state. walk.
    change (ev (E := HandleSig) Hop.State state :: tr) with ([ev (E := HandleSig) Hop.State state] ++ tr).
    destruct (number_of_handle state id) as [n|] eqn:En; [|rewrite Hb]; apply HQ; [|by left].
    right. exists id, state. set_solver.
  - walk. rewrite Hb. apply (HQ _ []). by left.
Qed.

Lemma wpa_drop b number (Q : Result Error unit -> option Observation -> trace HandleSig -> Prop) s tr :
  tb_backend_number b = Some number -> (forall l, gone b (l ++ tr) -> Q (Ok tt) s (l ++ tr)) ->
  wpa anything true (drop_temporary b) Q s tr.
Proof.
  intros Hb HQ. unfold drop_temporary. walk. apply (wpa_current b number); [done|]. intros n l Hn. walk.
  apply wpa_hdo; [done|]. intros []. apply (HQ (_ :: l)). exists n. split.
  - destruct Hn as [Hn|(id & state & ? & ? & ?)]; [by left|right]. exists id, state. set_solver.
  - exists (ev (E := HandleSig) (Hop.SpawnCleanup (tb_operation_id b) n) tt). split; [set_solver|done].
Qed.

(** The answer of a cleanup command is in the trace, unless the session refused
    it. *)
Lemma wpa_cleanup t c (Q : Result Error CommandReply -> option Observation -> trace HandleSig -> Prop) s tr :
  (forall r l, (exists d, ev (E := HandleSig) (Hop.Receive (Command c None d)) (Some r) ∈ l ++ tr) \/
               (exists e, r = Err e /\ err_code e <> Code.GdbError) -> Q r s (l ++ tr)) ->
  wpa anything true (cleanup_command t c) Q s tr.
Proof.
  intros HQ. unfold cleanup_command, command_deadline, in_sequence. walk. apply wpa_hdo; [done|]. intros d. walk.
  apply wpa_scope. walk.
  assert (forall l (Q' : Result Error CommandReply -> option Observation -> trace HandleSig -> Prop),
    (forall r l', (exists d', ev (E := HandleSig) (Hop.Receive (Command c None d')) (Some r) ∈ l' ++ tr) \/
       (exists e, r = Err e /\ err_code e <> Code.GdbError) -> Q' r s (l' ++ tr)) ->
    wpa anything true (enqueue_command c d None) Q' s (l ++ tr)) as Hs.
  { intros l Q' HQ'. unfold enqueue_command, hask, exchange_until, enqueue_until, receive. walk.
    apply wpa_hdo; [done|]. intros delivery. walk.
    destruct delivery; cbv beta iota delta [delivered_ok]; walk;
      [|by apply (HQ' _ (_ :: l)); right; eexists..].
    apply wpa_hdo; [done|]. intros x. walk. destruct x as [r|]; cbv beta iota delta [ok_or]; walk;
      [|by apply (HQ' _ (_ :: _ :: l)); right; eexists].
    apply (HQ' _ (_ :: _ :: l)). left. exists d. set_solver. }
  destruct s as [o|]; [by apply (Hs [_])|]. unfold with_sequence. walk. apply wpa_hdo; [done|]. intros [|]; walk.
  - apply (Hs [_; _]). intros r l' H. walk. apply wpa_hdo; [done|]. intros []. walk.
    apply (HQ r (_ :: l')). destruct H as [[d' H]|H]; [left; exists d'; set_solver|by right].
  - apply (HQ _ [_; _]). right. by eexists.
Qed.

Lemma wpa_delete env number (Q : Result Error unit -> option Observation -> trace HandleSig -> Prop) s tr :
  (forall r s' l, (r = Ok tt -> removed number (l ++ tr)) -> Q r s' (l ++ tr)) ->
  wpa anything true (delete_probe_breakpoint env number) Q s tr.
Proof.
  intros HQ. unfold delete_probe_breakpoint. walk.
  destruct (delete_breakpoint number) as [c|e] eqn:Ec; walk; [|by apply (HQ _ _ [])].
  apply wpa_cleanup. intros r l Hr. walk.
  assert ((match r with Ok _ => true | Err e => already_deleted number e end) = true -> removed number (l ++ tr)) as Hd.
  { intros Hok. destruct Hr as [[d Hin]|(e & -> & He)].
    - eexists. split; [exact Hin|]. cbn. rewrite Ec. split; [done|]. by destruct r.
    - exfalso. unfold already_deleted in Hok. apply andb_prop in Hok as [Hok _]. by apply bool_decide_eq_true in Hok. }
  assert (forall l', removed number (l ++ tr) -> removed number ((l' ++ l) ++ tr)) as Hlater.
  { intros l' (e & He & Hr'). exists e. set_solver. }
  destruct r as [reply|e]; [|destruct (already_deleted number e) eqn:Ea]; walk; [..|by apply HQ].
  all: apply wpa_hdo; [done|]; intros state; walk; apply wpa_extends; intros r s' l';
    replace (l' ++ ev (E := HandleSig) Hop.State state :: l ++ tr)
      with (((l' ++ [ev (E := HandleSig) Hop.State state]) ++ l) ++ tr) by (by rewrite <-!app_assoc);
    apply HQ; intros _; by apply Hlater, Hd.
Qed.

Lemma wpa_remove env b number (Q : Result Error (TemporaryBreakpoint * Result Error unit) -> option Observation -> trace HandleSig -> Prop) s tr :
  tb_backend_number b = Some number ->
  (forall b' r s' l, gone b (l ++ tr) \/ b' = b -> Q (Ok (b', r)) s' (l ++ tr)) ->
  wpa anything true (remove_temporary env b) Q s tr.
Proof.
  intros Hb HQ. unfold remove_temporary. walk. apply (wpa_current b number); [done|]. intros n l Hn. walk.
  apply wpa_delete. intros [[]|e] s' l' Hr; rewrite app_assoc in *; walk; apply HQ; [|by right].
  left. exists n. split; [|by apply Hr].
  destruct Hn as [Hn|(id & state & ? & ? & ?)]; [by left|right]. exists id, state. set_solver.
Qed.

(** What is left of a breakpoint after its removal is dropped by what follows. *)
Lemma wpa_removed env b number {B} (f : TemporaryBreakpoint -> Result Error unit -> handler B)
    (Q : Result Error B -> option Observation -> trace HandleSig -> Prop) s tr :
  tb_backend_number b = Some number ->
  (forall cleanup s' tr', wpa anything true (f b cleanup) (fun _ _ tr'' => exists l, tr'' = l ++ tr' /\ gone b tr'') s' tr') ->
  (forall r s' l, gone b (l ++ tr) -> Q r s' (l ++ tr)) ->
  wpa anything true ('(b', cleanup) ← remove_temporary env b; f b' cleanup) Q s tr.
Proof.
  intros Hb Hf HQ. apply wpa_bind, (wpa_remove env b number); [done|].
  intros b' cleanup s1 l1 [H1| ->]; cbv beta iota.
  - apply wpa_extends. intros r s2 l. rewrite app_assoc. apply HQ. rewrite <-app_assoc. by apply gone_later.
  - apply (wpa_mono _ _ _ _ _ _ _ (Hf cleanup s1 (l1 ++ tr))). intros r s' tr' (l & -> & H).
    rewrite app_assoc in *. by apply HQ.
Qed.

Lemma wpa_drop_then b number {B} (m : handler B) s tr :
  tb_backend_number b = Some number ->
  wpa anything true (drop_temporary b ≫= fun _ => m) (fun _ _ tr' => exists l, tr' = l ++ tr /\ gone b tr') s tr.
Proof.
  intros Hb. apply wpa_bind, (wpa_drop b number); [done|]. intros l H. cbv beta iota.
  apply wpa_extends. intros r s' l'. rewrite app_assoc. eexists. split; [done|]. rewrite <-app_assoc. by apply gone_later.
Qed.

Lemma wpa_or_drop {A} b number (m : handler A) (Q : Result Error A -> option Observation -> trace HandleSig -> Prop) s tr :
  tb_backend_number b = Some number ->
  (forall e s' l, gone b (l ++ tr) -> Q (Err e) s' (l ++ tr)) ->
  (forall a s' l, Q (Ok a) s' (l ++ tr)) ->
  wpa anything true (or_drop b m) Q s tr.
Proof.
  intros Hb He HQ. unfold or_drop. walk. apply wpa_extends. intros [a|e] s' l; walk; [apply HQ|].
  apply (wpa_drop b number); [done|]. intros l' H. walk. rewrite app_assoc in *. by apply He.
Qed.

(** A program with a time limit does not fail: it answers what it came to. *)
Lemma wpa_timed {A} deadline (m : handler A)
    (Q : Result Error (option N * option (Result Error A)) -> option Observation -> trace HandleSig -> Prop) s tr :
  (forall x s' l, Q (Ok x) s' (l ++ tr)) -> wpa anything true (timed deadline m) Q s tr.
Proof.
  intros HQ. unfold wpa, timed. generalize (MkRunning false None) as run. generalize (m s) as p. revert HQ.
  intros HQ p run. assert (exists l, tr = l ++ tr) as Hl by (by exists []). revert Hl.
  generalize tr at 1 3 as tr0. revert run.
  induction p as [[s' [a|e| |]]|o k IH]; intros run tr0 [l ->]; cbn [timed_from]; try done; [apply HQ..|].
  set (go := Do (E := HandleSig) o _).
  assert (forall l', safe (E := HandleSig) anything (fun r tr' =>
      match r with
      | (s', Done a) => Q (Ok a) s' tr'
      | (s', Fail e) => Q (Err e) s' tr'
      | _ => true = true
      end) go (l' ++ tr)) as Hgo.
  { intros l'. split; [done|]. intros x. apply IH. by exists (ev (E := HandleSig) o x :: l'). }
  destruct (awaits o); [|apply Hgo]. split; [done|]. intros [|]; [|apply (Hgo (_ :: l))].
  unfold expire. destruct (holds_lock run); [|apply (HQ _ _ (_ :: l))].
  split; [done|]. intros []. apply (HQ _ _ (_ :: _ :: l)).
Qed.

(** The breakpoint of a probe, by the number GDB gave it and the handle that
    the session gave that number. *)
Definition probe_breakpoint (number : string) (b : TemporaryBreakpoint) (tr : trace HandleSig) : Prop :=
  tb_backend_number b = Some number /\
  (tb_breakpoint_id b = None \/
   exists state, ev (E := HandleSig) Hop.State state ∈ tr /\
     tb_breakpoint_id b = bp_id <$> breakpoints state !! number).


(** ** The budget of a probe *)

Definition debugger_call (o : Hop.op) : bool :=
  match o with
  | Hop.Send (Command _ _ _) _ | Hop.Send (Transaction _ _ _ _ _) _ | Hop.Send (SafeEvaluate _ _ _) _ => true
  | _ => false
  end.

Definition debugger_calls (tr : trace HandleSig) : N :=
  foldr (fun (e : event HandleSig) n => (n + if debugger_call (projT1 e) then 1 else 0)%N) 0%N tr.

Section spends.
Context (maximum : N).

(** Nothing is asked of GDB once [maximum] requests were sent. *)
Definition affordable (tr : trace HandleSig) (o : op HandleSig) : Prop :=
  debugger_call o = true -> (debugger_calls tr < maximum)%N.

Definition spends {A} (k : N) (m : handler A) : Prop := forall s tr,
  (debugger_calls tr + k <= maximum)%N ->
  wpa affordable true m (fun _ _ tr' => (debugger_calls tr' <= debugger_calls tr + k)%N) s tr.

Lemma debugger_calls_cons (o : Hop.op) x tr :
  debugger_calls (ev (E := HandleSig) o x :: tr) = (debugger_calls tr + (if debugger_call o then 1 else 0))%N.
Proof. done. Qed.

Lemma spends_ret {A} (a : A) : spends 0 (mret a).
Proof. intros s tr H. apply wpa_ret. lia. Qed.

Lemma spends_local {A} (m : comp (option Observation) A) : spends 0 (local m).
Proof. intros s tr H. unfold wpa, local. cbn. destruct (m s) as [s' []]; cbn; try done; lia. Qed.

Lemma spends_weaken {A} k k' (m : handler A) : (k <= k')%N -> spends k m -> spends k' m.
Proof.
  intros Hk Hm s tr H. apply (wpa_mono _ _ _ _ _ _ _ (Hm s tr ltac:(lia))). intros r s' tr' H'. cbv beta in *. lia.
Qed.

Lemma spends_bind {A B} k k' (m : handler A) (f : A -> handler B) :
  spends k m -> (forall a, spends k' (f a)) -> spends (k + k') (m ≫= f).
Proof.
  intros Hm Hf s tr H. apply wpa_bind. apply (wpa_mono _ _ _ _ _ _ _ (Hm s tr ltac:(lia))).
  intros [a|e] s' tr' H'; cbv beta in *; [|lia].
  apply (wpa_mono _ _ _ _ _ _ _ (Hf a s' tr' ltac:(lia))). intros r s'' tr'' H''. cbv beta in *. lia.
Qed.

(** A step that spends nothing. *)
Lemma spends_then {A B} k (m : handler A) (f : A -> handler B) :
  spends 0 m -> (forall a, spends k (f a)) -> spends k (m ≫= f).
Proof. intros Hm Hf. apply (spends_weaken (0 + k)); [lia|]. by apply spends_bind. Qed.

Lemma spends_check {A} (r : Result Error A) : spends 0 (check r).
Proof. apply spends_local. Qed.

Lemma spends_attempt {A} k (m : handler A) : spends k m -> spends k (attempt m).
Proof. intros Hm s tr H. apply wpa_attempt. by apply Hm. Qed.

Lemma spends_hdo (o : Hop.op) : spends (if debugger_call o then 1 else 0) (hdo o).
Proof.
  intros s tr H. apply wpa_hdo.
  - intros Ho. rewrite Ho in H. lia.
  - intros x. rewrite debugger_calls_cons. lia.
Qed.

Lemma spends_when k b (m : handler unit) : spends k m -> spends k (perform_when b m).
Proof. destruct b; [done|]. intros _. apply (spends_weaken 0); [lia|apply spends_ret]. Qed.

Lemma spends_exchange r d :
  spends (if debugger_call (Hop.Send r (Some d)) then 1 else 0) (exchange_until r d).
Proof.
  unfold exchange_until, enqueue_until, receive.
  apply (spends_weaken ((if debugger_call (Hop.Send r (Some d)) then 1 else 0) + 0)); [lia|].
  apply spends_bind.
  - apply (spends_weaken ((if debugger_call (Hop.Send r (Some d)) then 1 else 0) + 0)); [lia|].
    apply spends_bind; [apply spends_hdo|intros; apply spends_check].
  - intros _. apply spends_then; [apply (spends_hdo (Hop.Receive r))|intros; apply spends_check].
Qed.

Lemma spends_owning : spends 0 owning_operation.
Proof.
  unfold owning_operation, active_operation. apply spends_then; [apply (spends_hdo Hop.ActiveOperation)|].
  intros [[id c]|]; [|apply spends_ret]. apply spends_then; [apply spends_check|intros; apply spends_ret].
Qed.

Lemma spends_with_sequence {A} k d (m : handler A) : spends k m -> spends k (with_sequence d m).
Proof.
  intros Hm. unfold with_sequence. apply spends_then; [apply (spends_hdo (Hop.LockSequence d))|].
  intros [|]; [|apply (spends_weaken 0); [lia|apply spends_check]].
  apply (spends_weaken (k + 0)); [lia|]. apply spends_bind; [by apply spends_attempt|]. intros r.
  apply spends_then; [apply (spends_hdo Hop.UnlockSequence)|intros; apply spends_check].
Qed.

Lemma spends_in_sequence {A} k d (m : handler A) : spends k m -> spends k (in_sequence d m).
Proof.
  intros Hm. unfold in_sequence. apply spends_then; [apply spends_local|]. intros [o|]; [done|].
  by apply spends_with_sequence.
Qed.

Lemma spends_command t c : spends 1 (command t c).
Proof.
  unfold command, command_with_timeout, command_deadline, send_command, enqueue_command, hask.
  apply spends_then; [apply (spends_hdo (Hop.Deadline _))|]. intros d. apply spends_in_sequence.
  apply spends_then; [apply spends_owning|]. intros op. apply (spends_weaken (1 + 0)); [lia|].
  apply spends_bind; [apply (spends_exchange (Command c op d))|intros; apply spends_check].
Qed.

Lemma spends_safe_evaluate t c : spends 1 (safe_evaluate t c).
Proof.
  unfold safe_evaluate, safe_evaluate_batch, command_deadline, send_safe_evaluate, hask.
  apply (spends_weaken (1 + 0)); [lia|]. apply spends_bind.
  - apply spends_then; [apply (spends_hdo (Hop.Deadline _))|]. intros d. apply spends_in_sequence.
    apply spends_then; [apply spends_owning|]. intros op. apply (spends_weaken (1 + 0)); [lia|].
    apply spends_bind; [apply (spends_exchange (SafeEvaluate [c] op d))|intros; apply spends_check].
  - intros replies. apply spends_then; [apply spends_local|intros; apply spends_check].
Qed.

Lemma spends_stable {A} k t expected (m : handler A) : spends k m -> spends k (stable_observation t expected m).
Proof.
  intros Hm.
  assert (spends 0 (require_observation_context expected)) as Hr.
  { unfold require_observation_context.
    apply spends_then; [apply (spends_hdo Hop.State)|intros; apply spends_check]. }
  assert (spends k (then_stable expected m)) as Ht.
  { unfold then_stable. apply (spends_weaken (k + 0)); [lia|]. apply spends_bind; [done|]. intros a.
    apply spends_then; [done|intros; apply spends_ret]. }
  unfold stable_observation. apply spends_then; [apply spends_local|]. intros [o|].
  - by apply spends_then; [|intros].
  - unfold command_deadline. apply spends_then; [apply (spends_hdo (Hop.Deadline _))|]. intros d.
    apply spends_with_sequence. apply spends_then; [done|]. intros _. unfold in_scope.
    apply spends_then; [apply spends_local|]. intros _. apply (spends_weaken (k + 0)); [lia|].
    apply spends_bind; [by apply spends_attempt|]. intros r.
    apply spends_then; [apply spends_local|intros; apply spends_check].
Qed.
End spends.

Lemma read_calls_step (rest got : N) :
  (0 < rest)%N -> (N.min rest CHUNK_BYTES <= got)%N -> (1 + read_calls (rest - got) <= read_calls rest)%N.
Proof.
  intros Hr Hg. unfold read_calls. change (CHUNK_BYTES - 1)%N with 65535%N. change CHUNK_BYTES with 65536%N in *.
  apply N.div_le_lower_bound; [done|].
  pose proof (N.Div0.mul_div_le (rest - got + 65535) 65536) as H.
  assert (got < rest \/ (rest - got = 0))%N as [Hlt|E] by lia; [|by rewrite E in *; cbn; lia].
  generalize dependent ((rest - got + 65535) / 65536)%N. intros q H. lia.
Qed.

Section budget.
Context (env : Environment) (maximum : N).
Local Abbreviation spends := (spends maximum).

Lemma spends_read_chunks fuel expected start len partial read seq :
  spends (read_calls (len - lenN read)) (read_chunks (command_timeout env) fuel expected start len partial read seq).
Proof.
  revert read seq. induction fuel as [|fuel IH]; intros read seq; cbn [read_chunks];
    (destruct (N.ltb_spec (lenN read) len) as [Hl|Hl]; [|apply (spends_weaken _ 0); [lia|apply spends_ret]]).
  { apply (spends_weaken _ 0); [lia|apply spends_local]. }
  assert (forall e, spends 0 (require_same_execution_context e)) as Hc.
  { intros e. apply spends_then; [apply (spends_hdo _ Hop.State)|intros; apply spends_check]. }
  apply spends_then; [done|]. intros _. apply spends_then; [apply spends_check|]. intros address.
  apply spends_then; [apply spends_check|]. intros c.
  pose proof (read_calls_step (len - lenN read) (len - lenN read) ltac:(lia) ltac:(lia)) as H1.
  rewrite N.sub_diag in H1. change (read_calls 0) with 0%N in H1.
  apply (spends_weaken _ (1 + (read_calls (len - lenN read) - 1))); [lia|].
  apply spends_bind; [apply spends_attempt, spends_command|]. intros [reply|e].
  - apply spends_then; [done|]. intros _. intros s tr H. apply wpa_bind, wpa_check.
    destruct (memory_contents _ _) as [part|e]; [|lia]. cbv beta iota zeta.
    destruct (N.ltb_spec (lenN part) (N.min (len - lenN read) CHUNK_BYTES)) as [Hp|Hp]; [apply wpa_ret; lia|].
    pose proof (read_calls_step (len - lenN read) (lenN part) ltac:(lia) Hp) as H2.
    assert (len - lenN (read ++ part) = len - lenN read - lenN part)%N as E by (rewrite lenN_app; lia).
    pose proof (IH (read ++ part) (cr_evidence_seq reply)) as Hi. rewrite E in Hi.
    revert s tr H. eapply spends_weaken; [|exact Hi]. lia.
  - apply (spends_weaken _ 0); [lia|]. destruct (recoverable_partial_read _ _ _); [apply spends_ret|apply spends_check].
Qed.

Lemma spends_read expected start len partial :
  spends (read_calls len) (read_memory_bytes (command_timeout env) expected start len partial).
Proof.
  apply spends_stable. unfold read_memory_bytes_in_observation.
  apply spends_then; [apply spends_check|]. intros _. apply spends_then; [apply (spends_hdo _ Hop.State)|]. intros state.
  apply (spends_weaken _ (read_calls (len - 0) + 0)); [rewrite N.sub_0_r; lia|].
  apply spends_bind; [apply (spends_read_chunks (read_fuel len) expected start len partial [])|]. intros [read seq].
  apply spends_then; [apply spends_check|intros; apply spends_ret].
Qed.

(** A method that answers how much was spent after it, when [calls] may have
    been spent before it. *)
Definition accounts {A} (calls : N) (m : handler A) (after : A -> N) : Prop := forall s tr,
  (debugger_calls tr <= N.min calls maximum)%N ->
  wpa (affordable maximum) true m
    (fun r _ tr' => match r with Ok a => (debugger_calls tr' <= N.min (after a) maximum)%N | Err _ => True end) s tr.

Lemma accounts_spends {A} calls k (m : handler A) (after : A -> N) :
  spends k m -> (k = 0 \/ calls + k <= maximum)%N -> (forall a, calls + k <= after a)%N -> accounts calls m after.
Proof.
  intros Hm Hk Ha s tr H. apply (wpa_mono _ _ _ _ _ _ _ (Hm s tr ltac:(lia))).
  intros [a|e] s' tr' H'; [|done]. specialize (Ha a). cbv beta in *. lia.
Qed.

Lemma accounts_bind {A B} calls (m : handler A) (f : A -> handler B) after after' :
  accounts calls m after -> (forall a, accounts (after a) (f a) after') -> accounts calls (m ≫= f) after'.
Proof.
  intros Hm Hf s tr H. apply wpa_bind. apply (wpa_mono _ _ _ _ _ _ _ (Hm s tr H)).
  intros [a|e] s' tr' H'; [|done]. by apply Hf.
Qed.

Lemma accounts_check {A B} calls (r : Result Error A) (f : A -> handler B) after :
  (forall a, r = Ok a -> accounts calls (f a) after) -> accounts calls (check r ≫= f) after.
Proof. intros Hf s tr H. apply wpa_bind, wpa_check. destruct r as [a|e]; [by apply Hf|done]. Qed.

(** A step that spends nothing. *)
Lemma accounts_then {A B} calls (m : handler A) (f : A -> handler B) after :
  spends 0 m -> (forall a, accounts calls (f a) after) -> accounts calls (m ≫= f) after.
Proof.
  intros Hm Hf. apply (accounts_bind _ _ _ (fun _ => calls)); [|done].
  apply (accounts_spends _ 0); [done|by left|intros; lia].
Qed.

Lemma accounts_weaken {A} calls (m : handler A) (after after' : A -> N) :
  accounts calls m after -> (forall a, after a <= after' a)%N -> accounts calls m after'.
Proof.
  intros Hm Ha s tr H. apply (wpa_mono _ _ _ _ _ _ _ (Hm s tr H)). intros [a|e] s' tr' H'; [|done].
  specialize (Ha a). cbv beta in *. lia.
Qed.

Lemma accounts_fail {A} calls e (after : A -> N) : accounts calls (check (Err e)) after.
Proof. intros s tr H. by apply wpa_check. Qed.

Lemma accounts_ret {A} calls (a : A) (after : A -> N) : (calls <= after a)%N -> accounts calls (mret a) after.
Proof. intros Ha s tr H. apply wpa_ret. lia. Qed.

Lemma accounts_run {A B} calls (o : outcome Error A) (f : A -> handler B) after :
  (forall a, accounts calls (f a) after) -> accounts calls (run o ≫= f) after.
Proof. intros Hf. by apply accounts_then; [apply spends_local|]. Qed.

(** One debugger call, counted. *)
Lemma accounts_call {A B} calls (m : handler A) (f : A -> handler B) after :
  spends 1 m -> (calls < maximum)%N -> (forall a, accounts (calls + 1) (f a) after) -> accounts calls (m ≫= f) after.
Proof.
  intros Hm Hc Hf. apply (accounts_bind _ _ _ (fun _ => (calls + 1)%N)); [|done].
  apply (accounts_spends _ 1); [done|right; lia|intros; lia].
Qed.

Context (b : ObservationBudget) (Hb : max_calls b = maximum) (Hmax : (maximum < U64_MAX)%N).

Lemma required_calls {A} calls (m : handler A) after :
  ((calls < maximum)%N -> accounts calls m after) -> accounts calls (check (require_calls calls b) ≫= fun _ => m) after.
Proof using Hb.
  intros Hm. apply accounts_check. intros [] H. apply Hm. unfold require_calls in H. rewrite Hb in H.
  by destruct (N.leb_spec maximum calls).
Qed.

Lemma accounts_memory state calls memory :
  (calls < maximum)%N -> accounts calls (capture_memory env state b calls memory) snd.
Proof using Hb Hmax.
  intros Hc. unfold capture_memory. apply accounts_check. intros expression _.
  apply accounts_run. intros _. apply accounts_check. intros length _. apply accounts_check. intros _ _.
  apply accounts_check. intros [] Hs. unfold saturate in Hs. rewrite Hb in Hs.
  destruct (N.ltb_spec maximum (N.min (calls + (1 + read_calls length)) U64_MAX)) as [|Hl]; [done|].
  apply accounts_check. intros c _. apply accounts_call; [apply spends_safe_evaluate|done|]. intros reply.
  apply accounts_check. intros address _.
  apply (accounts_bind _ _ _ (fun _ => (calls + 1 + read_calls length)%N)).
  - apply (accounts_spends _ (read_calls length)); [apply spends_read|right; lia|intros; lia].
  - intros [content seq]. apply accounts_ret. cbn. lia.
Qed.

Lemma accounts_item state calls item : accounts calls (capture_item env state b calls item) snd.
Proof using Hb Hmax.
  unfold capture_item. apply required_calls. intros Hc.
  destruct (Json.get "expression" item ≫= Json.as_str) as [expression|];
    [|destruct (Json.get "stack" item) as [stack|]; [|destruct (Json.get "memory" item) as [memory|]]].
  - apply (accounts_bind _ _ _ (fun _ => (calls + 1)%N)); [|intros v; by apply accounts_ret].
    unfold capture_expression. apply accounts_run. intros _. apply accounts_check. intros c _.
    apply accounts_call; [apply spends_safe_evaluate|done|]. intros reply. apply accounts_ret. lia.
  - apply (accounts_bind _ _ _ (fun _ => (calls + 1)%N)); [|intros v; by apply accounts_ret].
    unfold capture_stack. apply accounts_check. intros c _.
    apply accounts_call; [apply spends_command|done|]. intros reply. apply accounts_check. intros frames _.
    apply accounts_ret. lia.
  - by apply accounts_memory.
  - apply accounts_fail.
Qed.

Lemma accounts_items state items calls observations :
  accounts calls (capture_items env state b items calls observations) snd.
Proof using Hb Hmax.
  revert calls observations. induction items as [|item rest IH]; intros calls observations; cbn [capture_items].
  - by apply accounts_ret.
  - apply (accounts_bind _ _ _ snd); [apply accounts_item|]. intros [v calls']. apply IH.
Qed.

Lemma accounts_capture request state calls :
  accounts calls (capture_probe_observation env request state b calls) snd.
Proof using Hb Hmax.
  unfold capture_probe_observation. apply accounts_check. intros _ _.
  apply (accounts_bind _ _ _ snd); [apply accounts_items|]. intros [observations calls']. by apply accounts_ret.
Qed.

Lemma spends_feed input t : spends 0 (feed_inferior input t).
Proof.
  unfold feed_inferior. destruct input as [data|]; [|apply spends_ret].
  apply spends_then.
  - apply spends_attempt. unfold write_inferior_with_timeout, command_deadline, enqueue_until, receive.
    apply spends_then; [apply (spends_hdo _ (Hop.Deadline _))|]. intros d.
    apply spends_then; [apply spends_attempt, spends_then; [apply (spends_hdo _ (Hop.Send (WriteInferior data false d) _))|];
                        intros; apply spends_check|]. intros queued.
    apply spends_then; [apply spends_check|]. intros _.
    apply spends_then; [|intros; apply spends_check].
    apply spends_then; [apply (spends_hdo _ (Hop.Receive (WriteInferior data false d)))|intros; apply spends_check].
  - intros result. destruct (input_progress (lenN data) result) as [written report].
    apply spends_then; [|intros; apply spends_ret]. apply spends_when.
    unfold record_event, hask, exchange, enqueue, receive.
    apply spends_then; [|intros; apply spends_check].
    apply spends_then; [apply spends_then; [apply (spends_hdo _ (Hop.Send (RecordEvent _) None))|intros; apply spends_check]|].
    intros _. apply spends_then; [apply (spends_hdo _ (Hop.Receive (RecordEvent _)))|intros; apply spends_check].
Qed.

Lemma spends_remaining p started : spends 0 (remaining_time p started).
Proof. apply spends_then; [apply (spends_hdo _ Hop.Now)|intros; apply spends_check]. Qed.

Lemma spends_lead p started : spends 0 (lead_to_hit env p started).
Proof.
  unfold lead_to_hit. apply spends_then.
  - destruct (pl_trigger p) as [trigger|]; [|apply spends_ret]. unfold start_probe_trigger.
    apply spends_then; [apply (spends_hdo _ (Hop.StartTrigger _ _))|intros; apply spends_check].
  - intros _. apply spends_then; [apply spends_remaining|intros; apply spends_feed].
Qed.

Lemma accounts_resume p baseline calls :
  pl_budget p = b -> accounts calls (resume_for_hit env p baseline calls) id.
Proof using Hb.
  intros Hp. unfold resume_for_hit. destruct (has_running baseline); [by apply accounts_ret|].
  rewrite Hp. apply required_calls. intros Hc. unfold resume_target.
  apply accounts_call; [|done|intros; by apply accounts_ret].
  apply spends_then; [apply spends_check|intros; apply spends_command].
Qed.

Lemma accounts_await request p tb started baseline calls :
  pl_budget p = b -> accounts calls (await_hit env request p tb started baseline calls) snd.
Proof using Hb Hmax.
  intros Hp. unfold await_hit. apply accounts_then; [apply spends_remaining|]. intros remaining.
  apply accounts_then; [unfold wait_after_baseline, hask; apply spends_then; [apply (spends_hdo _ (Hop.WaitFrom _ _ _ _))|intros; apply spends_check]|].
  intros stopped. apply accounts_then.
  { unfold current_backend_number. destruct (tb_breakpoint_id tb); [|apply spends_ret].
    apply spends_then; [apply (spends_hdo _ Hop.State)|intros; apply spends_ret]. }
  intros number. apply accounts_check. intros expected _. apply accounts_check. intros _ _. rewrite Hp.
  apply (accounts_bind _ _ _ snd); [apply accounts_capture|]. intros [capture calls']. by apply accounts_ret.
Qed.

Lemma accounts_hits request p tb started hit rest calls captures input :
  pl_budget p = b ->
  accounts calls (probe_hits env request p tb started hit rest calls captures input) (fun _ => maximum).
Proof using Hb Hmax.
  intros Hp. revert hit calls captures input. induction rest as [|rest IH]; intros hit calls captures input;
    cbn [probe_hits]; (apply accounts_then; [apply (spends_hdo _ Hop.State)|]); intros baseline;
    (apply (accounts_bind _ _ _ id); [by apply accounts_resume|]); intros calls1;
    (apply accounts_then; [destruct (bool_decide (hit = 1)); [apply spends_lead|apply spends_ret]|]); intros input1;
    (apply (accounts_bind _ _ _ snd); [by apply accounts_await|]); intros [[stopped capture] calls2]; cbv beta iota zeta.
  - intros s tr H. apply wpa_ret. cbn in H. lia.
  - destruct (bool_decide (pl_stop_policy p = "on_condition")); [|apply IH].
    intros s tr H. apply wpa_ret. cbn in H. lia.
Qed.

End budget.

Lemma requested_is_valid env parameters budget :
  requested_budget env parameters = Ok budget -> validate_budget (limits env) budget = Ok tt.
Proof.
  unfold requested_budget. destruct (Json.get "budget" parameters) as [v|]; cbn.
  1: destruct (decode_budget v) as [b|]; cbn; [|done].
  all: match goal with |- context [validate_budget ?l ?b'] => destruct (validate_budget l b') as [[]|] eqn:E end;
    cbn; [intros [= <-]; exact E|done].
Qed.


(** ** Examples *)

Definition sample_launch : LaunchParameters :=
  MkLaunchParameters "/srv/app" ["-c"; "it's $HOME"; EmptyString] None ∅ "clean" "preserve" FirstInstruction "child"
    true "same-inferior" None [].

Definition sample_variables : gmap string string := <["PATH" := "/bin:/usr/bin"]> (<["EMPTY" := EmptyString]> ∅).

Lemma launches_keep_arguments_and_environment_witness :
  validate_environment (fun s => s) sample_variables = Ok tt /\ validate_follow sample_launch = Ok tt /\
  exists file cd clear rest,
    launch_setup "/srv/app" "/srv" sample_launch sample_variables = Ok (file, cd :: clear :: rest) /\
    omap given_arguments rest = [bytes_of <$> ["-c"; "it's $HOME"; EmptyString]].
Proof.
  assert (validate_environment (fun s => s) sample_variables = Ok tt) as He by (vm_compute; reflexivity).
  assert (validate_follow sample_launch = Ok tt) as Hf by (vm_compute; reflexivity).
  split; [exact He|]. split; [exact Hf|].
  destruct (launches_keep_arguments_and_environment (fun s => s) "/srv/app" "/srv" sample_launch sample_variables He Hf)
    as (file & cd & clear & rest & H & _ & _ & _ & Ha & _).
  exists file, cd, clear, rest. split; [exact H|exact Ha].
Defined.

Definition sample_plan : Plan := MkPlan ObservationBudget_default 3 "on_condition" None None None.

Definition sample_inserted : CommandReply :=
  MkCommandReply 5 "done"
    (RResult None "done" [MkMiResult "bkpt" (Tuple [MkMiResult "number" (Const (bytes_of "2"))])]) [] false 9.

Definition sample_probe : ApiRequest :=
  MkApiRequest API_VERSION "r4" (Some "sess_a1") Method.AgentProbe None None (Object [("function", Str "handle")]).



(** *** A view of a kernel evaluates what the screen refuses *)

Definition unscreened : ApiRequest :=
  MkApiRequest API_VERSION "r3" (Some "sess_a1") Method.KernelInspect None None
    (Object [("view", Str "page_table"); ("address_expression", Str "system(1)")]).

(** Texts are written as they are. *)
Definition transparent_env : Environment :=
  MkEnvironment (Config_default "/tmp" 1 None None None) string_of (fun s => Ok (bytes_of s)) (fun b => b)
    (fun v => match v with Str s => s | _ => EmptyString end) (fun _ => EmptyString) (fun s => s) Some
    (fun _ => Ok Null) (fun s => s).

Definition is_send (o : op HandleSig) : bool := match o with Hop.Send _ _ => true | _ => false end.

(** The command that is about to be sent outside any operation. *)
Definition sent_request (o : Hop.op) : option (WorkerRequest * option N) :=
  match o with Hop.Send r d => Some (r, d) | _ => None end.

Definition plain_request (r : WorkerRequest) : option (MiCommand * N) :=
  match r with Command c None d => Some (c, d) | _ => None end.

Definition about_to_send {A} (m : prog HandleSig A) : option (MiCommand * N) :=
  match m with
  | Do o _ =>
      '(r, deadline) ← sent_request o;
      '(c, d) ← plain_request r;
      if decide (deadline = Some d) then Some (c, d) else None
  | _ => None
  end.

Lemma about_to_send_spec {A} (m : prog HandleSig A) c d :
  about_to_send m = Some (c, d) -> exists k, m = Do (E := HandleSig) (Hop.Send (Command c None d) (Some d)) k.
Proof.
  assert (forall o r deadline, sent_request o = Some (r, deadline) -> o = Hop.Send r deadline) as Ho
    by (intros [] r' deadline'; cbn; congruence).
  assert (forall r, plain_request r = Some (c, d) -> r = Command c None d) as Hr
    by (intros [c' [] d'| | | | | | | | | | | | | | | | | |]; cbn; congruence).
  destruct m as [|o k]; [done|]. unfold about_to_send.
  intros ([r deadline] & ->%Ho & H)%bind_Some. apply bind_Some in H as ([c' d'] & Er & H).
  case_decide as Ed; [|done]. simplify_eq. apply Hr in Er as ->. by exists k.
Qed.

(** A profile for live observation is authorized to request the page table of
    an expression that calls a function: the screen of expressions refuses it,
    and yet the handler sends it to GDB's Python as it is, outside the worker's
    guards. *)
Theorem page_table_expressions_are_not_screened :
  authorize_method LiveObserver (req_method unscreened) (effect_for_request unscreened) = Ok tt /\
  validate_parameters (req_method unscreened) (req_parameters unscreened) = Ok tt /\
  validate_expression "system(1)" = Fail unsafe_expression /\
  exists c d k tr,
    python_command transparent_env ("kernel_page_table.py" +:+ newline +:+ "_gdbai_kernel_page_table(system(1))") = Ok c /\
    reaches (kernel_page_table transparent_env (req_parameters unscreened) sample_stop None) []
      (Do (E := HandleSig) (Hop.Send (Command c None d) (Some d)) k) tr.
Proof.
  split; [vm_compute; reflexivity|]. split; [vm_compute; reflexivity|]. split; [vm_compute; reflexivity|].
  set (m := kernel_page_table transparent_env (req_parameters unscreened) sample_stop None).
  destruct (python_command transparent_env ("kernel_page_table.py" +:+ newline +:+ "_gdbai_kernel_page_table(system(1))"))
    as [c|e] eqn:Ec; [|vm_compute in Ec; discriminate].
  assert (about_to_send (advance (E := HandleSig) sample_answers is_send m []).1 = Some (c, 60000%N)) as Hs.
  { vm_compute in Ec. injection Ec as <-. vm_compute. reflexivity. }
  apply about_to_send_spec in Hs as [k Hk].
  exists c, 60000%N, k, (advance (E := HandleSig) sample_answers is_send m []).2. split; [done|].
  rewrite <-Hk. apply (advance_reaches (E := HandleSig) sample_answers is_send).
Qed.
